(* ===== verification/_CoqProject ===== *)
-Q . S2P
Prelude.v
Runes.v
Types.v
Catalog.v
Graph.v
Analysis.v
Samples.v
Reach.v
MustHaveRun.v
Structure.v
Data.v
Validate.v
GoPath.v
Paths.v
DryRun.v
Versioned.v
Regex.v
GoText.v
Sidecar.v
Links.v
Tokens.v
Parse.v
Dates.v
Model.v
Xml.v
Nfo.v
NfoWrite.v
ScanModel.v
Scan.v
ScanWalk.v
ScanOwners.v
ScanRun.v
ScanSamples.v
Topics.v
Bus.v
PubSub.v
Streams.v
StoredTime.v
Stored.v
AppConfig.v
LocalDirectory.v
ScanSend.v
Ingest.v
LibrarySamples.v
ConfigStore.v
Services.v
ConfigServices.v
ConfigInvariant.v
ConfigCollections.v
ConfigSamples.v
AgentRegistry.v
PresenceWatch.v
AgentRuntime.v
AgentSamples.v
NfoRead.v
Crypto.v
Auth.v
AuthRights.v
RateLimit.v
BootstrapRun.v
BootstrapSamples.v
Workflows.v
SaveSteps.v
WorkflowRaces.v
WorkflowSamples.v
BusTopology.v
BusStats.v
LogPipeline.v
LocalQueries.v
LocalQuerySamples.v
BusService.v
HttpCache.v
