(* ===== verification/Prelude.v ===== *)
(** * A verification of metarr

    metarr is a media library manager: a server that keeps the configuration,
    workflows and scan records, and agents that walk media directories for it.
    They talk over Redis; the server stores in MongoDB and answers an editor
    over RPC. This development models the parts of its Go code that decide
    something, and leaves to classes and arguments what only talks to the
    network, the disk or a database.

    ** The parts and their files

    The workflow engine (src/internal/shared/workflow, src/internal/server/workflow):
    - [Types]: types.go, the type names of sockets, lists of them, the
      conversions between them and the editor's connection check;
    - [Catalog]: catalog.go and the loader of server/workflow/catalog, the
      entries a workflow's nodes are instances of, and the rule that a published
      entry never changes;
    - [Graph]: graph.go, nodes, edges and their endpoints;
    - [Analysis], [Reach], [MustHaveRun], [Structure], [Data], [Validate]:
      server/workflow/validate, in the order its passes build on each other. The
      state of a pass is the record [Analysis.analysis]; a pass is a function
      from it to the diagnostics it reports, and [Validate.ValidateGraph] runs
      them in the code's order, each under the code's own condition. [Samples]
      holds the catalog and the graphs the examples evaluate on;
    - [DryRun]: dryrun.go, the file system and process runner a handler is
      given. [WorkFS] and [Runner] are classes, the dry-run wrappers instances
      over any other instance, and a handler is a [program] of their calls.

    Stored workflows (src/internal/server/mongostore, src/internal/server/services):
    - [Versioned]: mongostore/versioned, documents stored one row per version,
      over the class [Collection], which says what a MongoDB collection with the
      unique index of EnsureIndexes documents of each call, failed calls included;
    - [Workflows]: services/workflows.go, every method as a function of the
      collection;
    - [SaveSteps] and [WorkflowRaces]: the same saves and requests call by call,
      as step relations whose interleavings are those of any number of requests;
      [WorkflowSamples] evaluates all of it.

    The scanner (src/internal/agent/mediascan) and what it shares:
    - [Regex] and [GoText]: the regular expressions and text functions of Go's
      standard library the code uses, with an equivalent relational semantics;
    - [Sidecar]: shared/scanmodel and shared/appconfig, the table that names a
      file found beside a media file;
    - [Links], [Dates], [Model]: shared/metadata, external identifiers, dates
      and the metadata records;
    - [Xml], [Nfo], [NfoWrite]: agent/nfo, documents read, translated both ways,
      rendered, and written by replacing the file;
    - [Tokens] and [Parse]: tokens.go and parse.go, what names mean;
    - [ScanModel] and [Scan]: the records and scan.go, a directory being a tree
      of what the walk finds and the scanner the record [Scan.scanner] every
      method threads. [ScanWalk], [ScanOwners] and [ScanRun] are its passes
      proved one after the other; [ScanSamples] has concrete scans.

    The event bus (src/internal/shared/eventbus, src/internal/shared/agentproto):
    - [Topics]: every stream, channel, group and key, and discovery;
    - [Bus]: registration, and what one delivered message comes to;
    - [PubSub]: notifications and requests over a broker, as a step relation;
    - [Streams]: retention, the sweep and the purge, over the class [Redis];
    - [BusTopology] and [BusStats]: server/busstats, the rows of the dashboard
      and what is flagged on them, a pass of the sampler, and its viewers;
    - [BusService]: services/stats.go, the purge with its audit log.

    A scan from agent to store, and back out:
    - [ScanSend]: agent/runtime/scanner.go, messages as functions, goroutines as
      the steps of [ScanSend.scanning];
    - [StoredTime], [Stored], [LocalDirectory]: the stored form of times and
      records and the repository's writes and sweep, over the class
      [LocalCollection];
    - [GoPath] and [Paths]: agentregistry/paths.go, agents' paths translated to
      the server's, over the lexical functions of path and filepath;
    - [Ingest]: the listener that stores what a scan sends; [Ingest.scan_stored]
      composes it with all the above;
    - [LocalQueries]: the queries and the library's methods;
    - [LibrarySamples] and [LocalQuerySamples] implement every class and run it.

    Configuration (src/internal/shared/appconfig, src/internal/server):
    - [AppConfig]: the document, its defaults and its normal form;
    - [ConfigStore]: appconfigstore and what follows a change, with requests
      interleaving wherever the lock lets them ([ConfigStore.serving]);
    - [Services]: the errors, masks, pages and orders that services share;
    - [ConfigServices]: the methods that read and change the configuration; a
      method that changes something is the function it hands to MutateSync;
    - [ConfigInvariant] and [ConfigCollections]: what every method keeps, and the
      maps they implement; [ConfigSamples] evaluates them;
    - [BootstrapRun] and [BootstrapSamples]: what a start seeds and prints.

    Agents (src/internal/server/agentregistry, src/internal/agent/runtime):
    - [AgentRegistry]: the projection published to each agent, presence, and the
      dispatch of scans; [PresenceWatch]: departures;
    - [AgentRuntime]: an agent's hold on its slug and its configuration;
    - [NfoRead]: one NFO file read off an agent; [AgentSamples].

    Authentication (src/internal/server/auth, authsecret, jwt, passwordhash,
    httpserver): [Crypto] has SHA-256 and the encodings written out, [Auth] the
    authorization of every call, [AuthRights] what tokens are good for,
    [RateLimit] the throttling of calls.

    The rest: [LogPipeline] (shared/logging, logforward, logtail) and
    [HttpCache] (httpclient).

    ** How the parts meet

    Components meet the way the code's do. What lies outside the repository is a
    class whose laws state what is documented of it, and which a sample file
    implements: collections ([Collection], [LocalCollection], [LocalFind],
    [ConfigCollection]), Redis ([Redis], [KeyStore]), libraries ([Regexp], [XML],
    [URLs], [Masked], [PageTokens], [Ordering], [TokenLibrary], [HTTP]),
    encodings ([Envelope], [ScanWire], [StoredForm], [StoredRead], [AgentCodec],
    [GraphCodec], [Hexadecimal]), the host ([OS], [Host], [Accounts], [Images],
    [CatalogEnv]) and the order of Go's maps ([MapOrder]). Inside, a client's
    theorems use its callee's: the listener the repository's, the repository's
    readers its writers', the services the store's, the bus's purge and
    statistics the topic table's, the signing in of a first start the password
    and token code's.

    ** What is shown

    - Of the validator: its verdict is exact ([Validate.Runnable_exact] states
      every structural and data rule declaratively), its dataflow fixed point
      ends and is the set of nodes that every history has run
      ([MustHaveRun.computeMustHaveRun_exact]), and it answers on every graph
      the editor can draw that satisfies two stated conditions. The two are
      needed: there are graphs on which it panics and on which it does not
      return.
    - Of the catalog and types: what is accepted, that an accepted entry cannot
      change silently, and that a conversion offered is a conversion accepted.
    - Of the dry run: no handler, whatever it calls, changes the real files.
    - Of stored workflows: an invariant through every interleaving of database
      calls and every failure, what an update appends, that paging shows
      everything once, that refusals change nothing - and that two racing
      updates can hide a workflow for good.
    - Of a scan: it ends, sends whole items, and leaves exactly the library it
      walked, stored under translated paths and found again by the queries; each
      file has one owner, given by a rule that looks at its name and place only.
    - Of NFO files: what a rewrite keeps, and that a write is atomic.
    - Of the bus: replies answer their requests, messages settle, a sweep spares
      the retention window, a purge's log says what was lost, the dashboard
      flags who is missing, viewers are served in order.
    - Of the configuration: it is valid at every moment, mutations are
      serialised, the methods implement maps, a first start can be signed in to
      and a second changes nothing.
    - Of agents: one process per slug, scans go where they resolve, departures
      are signalled, NFO reads stay inside the directory that is mapped.
    - Of authentication: the rights of tokens and the life of sessions, and that
      throttled calls keep their distance.
    - Of logging and the cache: no record is lost uncounted, and a cached answer
      was an answer.

    What modelling showed to be otherwise than the code or its comments mean is
    proved beside it as a theorem or an Example, under a name that says so.

    ** Conventions

    A Go call is an [outcome]: a value, a run-time panic, or no answer within the
    model's fuel. Fuel is used only where the code's own loop has no bound the
    kernel sees, and each time a theorem says how much is enough: the queue and
    the edges left to follow for region searches ([Reach.reach_fuel]), the number
    of loops for scope walks (a walk that outlasts it provably never ends), one
    more than the square of the nodes for the fixed point
    ([MustHaveRun.run_fuel]), one more than the data edges for type resolution,
    one more than the characters for cleaning a title, one more than what is
    pending for draining a group, one request more than there are workflows for
    following their pages. A value and an error are a [result]; errors carry the
    code's text. A method's answer is a [reply] with the code it is refused with.

    Concurrency is a step relation on the shared state, one step per atomic
    operation or external call, and a theorem about it speaks of every reachable
    state. Times are nanoseconds since 1970.

    A string is a list of bytes; letters are folded, and white space is
    recognised, in ASCII, and [%q] quotes printable ASCII. [int] is [Z] where its
    bounds do not matter and checked against 64 bits where text is parsed, and
    int32, int64 and durations wrap around. The order in which Go walks a map is
    the class [MapOrder], of which only that it visits every key once is known.
    The server's file paths are Unix paths.

    ** What is not modelled

    Encodings that libraries make (YAML, XML, JSON, BSON, protobuf) beyond what
    the classes say of them; the drivers and the Redis and Watermill adapters of
    the bus, with the registration of Pub/Sub consumers; main functions, signal
    handling and the tickers that repeat a modelled call; HTTP routing, logging
    middleware, the embedded interface and the construction of clients; the
    process's own YAML settings; the heartbeat and the listeners that hand log
    records on; the two catalog methods and the streaming methods, which wrap
    what is modelled; correlation ids; the probes of a host's hardware; log
    lines, except the purge's. The records of workflow runs are types that no
    code uses yet, and the rest is generated. *)

(** ** This file

    What every component file needs and no component owns:
    - [outcome] and [result] with their bind notations in [go_scope];
    - Go's string operations on byte strings ([has_prefix], [has_suffix],
      [str_drop], ...), ASCII case folding, [strconv.Quote] on printable ASCII;
    - a stable insertion sort, the model of [sort.Strings] and
      [sort.SliceStable];
    - [MapOrder];
    - generic lemmas on lists and finite sets, and the [go] hint database. *)
From stdpp Require Export base tactics gmap sets list strings sorting.
From stdpp Require Import pretty.
From Stdlib Require Import Ascii ZArith Lia.
From Stdlib Require String.

(** * Outcomes and results *)

(** How a Go call ends: it returns, it panics, or it has not returned within
    the fuel the model was given. *)
Inductive outcome (A : Type) : Type :=
| Done (a : A)
| Panic
| Diverge.
Arguments Done {A} _.
Arguments Panic {A}.
Arguments Diverge {A}.

(** A Go [(T, error)] pair: the value when [err == nil], the text otherwise. *)
Inductive result (A : Type) : Type :=
| Ok (a : A)
| Err (msg : string).
Arguments Ok {A} _.
Arguments Err {A} _.

Definition obind {A B} (m : outcome A) (f : A -> outcome B) : outcome B :=
  match m with
  | Done a => f a
  | Panic => Panic
  | Diverge => Diverge
  end.

Definition rbind {A B} (m : result A) (f : A -> result B) : result B :=
  match m with
  | Ok a => f a
  | Err e => Err e
  end.

Declare Scope go_scope.
Delimit Scope go_scope with go.
Notation "'let*' x ':=' m 'in' k" := (obind m (fun x => k))
  (at level 10, x pattern, m at level 100, k at level 200) : go_scope.
Notation "'try' x ':=' m 'in' k" := (rbind m (fun x => k))
  (at level 10, x pattern, m at level 100, k at level 200) : go_scope.

Definition is_ok {A} (r : result A) : bool :=
  match r with Ok _ => true | Err _ => false end.

Lemma obind_Done {A B} (m : outcome A) (f : A -> outcome B) b :
  obind m f = Done b <-> exists a, m = Done a /\ f a = Done b.
Proof. destruct m; simpl; split; try done; [by eauto|by intros (?&[= <-]&?)|..]; by intros (?&?&?). Qed.

Lemma rbind_Ok {A B} (m : result A) (f : A -> result B) b :
  rbind m f = Ok b <-> exists a, m = Ok a /\ f a = Ok b.
Proof. destruct m; simpl; split; try done; [by eauto|by intros (?&[= <-]&?)|]; by intros (?&?&?). Qed.

(** Runs [f] over a list, threading a state, as a Go [for range] loop does. *)
Fixpoint ofold {A S} (f : S -> A -> outcome S) (s : S) (l : list A) : outcome S :=
  match l with
  | [] => Done s
  | a :: l' => obind (f s a) (fun s' => ofold f s' l')
  end.

Lemma ofold_app {A S} (f : S -> A -> outcome S) s l1 l2 :
  ofold f s (l1 ++ l2) = obind (ofold f s l1) (fun s' => ofold f s' l2).
Proof.
  revert s; induction l1 as [|a l1 IH]; intros s; simpl; [done|].
  destruct (f s a); simpl; auto.
Qed.

(** An invariant of every step is an invariant of the loop. *)
Lemma ofold_inv {A S} (f : S -> A -> outcome S) (P : S -> Prop) s l s' :
  (forall s0 a s1, a ∈ l -> P s0 -> f s0 a = Done s1 -> P s1) ->
  P s -> ofold f s l = Done s' -> P s'.
Proof.
  revert s; induction l as [|a l IH]; intros s Hstep Hs; simpl.
  - by intros [= <-].
  - rewrite obind_Done. intros (s1 & Hf & Hl).
    eapply (IH s1); [|eapply Hstep; [left|exact Hs|exact Hf]|exact Hl].
    intros s2 b s3 Hb. apply Hstep. by right.
Qed.

(** A loop whose steps all return, returns. *)
Lemma ofold_total {A S} (f : S -> A -> outcome S) s l :
  (forall s0 a, a ∈ l -> exists s1, f s0 a = Done s1) ->
  exists s', ofold f s l = Done s'.
Proof.
  revert s; induction l as [|a l IH]; intros s Hstep; simpl; [eauto|].
  destruct (Hstep s a) as [s1 ->]; [left|]. simpl.
  apply IH. intros s0 b Hb. apply Hstep. by right.
Qed.

#[local] Open Scope go_scope.

(** A loop that appends what its body reports for each element. *)
Fixpoint oflat_map {A B} (f : A -> outcome (list B)) (l : list A) : outcome (list B) :=
  match l with
  | [] => Done []
  | x :: rest =>
      let* found := f x in
      let* others := oflat_map f rest in
      Done (found ++ others)
  end.

Lemma oflat_map_cons {A B} (f : A -> outcome (list B)) x l r :
  oflat_map f (x :: l) = Done r <->
  exists d ds, f x = Done d /\ oflat_map f l = Done ds /\ r = d ++ ds.
Proof.
  simpl. split.
  - intros (d & Hd & (ds & Hds & [= <-])%obind_Done)%obind_Done. by exists d, ds.
  - intros (d & ds & -> & Hds & ->). simpl. by rewrite Hds.
Qed.

Lemma elem_of_oflat_map {A B} (f : A -> outcome (list B)) l r b :
  oflat_map f l = Done r -> b ∈ r <-> exists x d, x ∈ l /\ f x = Done d /\ b ∈ d.
Proof.
  revert r. induction l as [|x l IH]; intros r.
  - intros [= <-]. split; [by intros ?%elem_of_nil|by intros (? & ? & ?%elem_of_nil & _)].
  - intros (d & ds & Hd & Hds & ->)%oflat_map_cons. rewrite elem_of_app, (IH _ Hds). split.
    + intros [Hb|(y & e & Hy & He & Hb)].
      * exists x, d. by split; [left|].
      * exists y, e. by split; [right|].
    + intros (y & e & [->|Hy]%elem_of_cons & He & Hb); [left|right; by exists y, e].
      rewrite Hd in He. by injection He as ->.
Qed.

Lemma oflat_map_each {A B} (f : A -> outcome (list B)) l r x :
  oflat_map f l = Done r -> x ∈ l -> exists d, f x = Done d.
Proof.
  revert r. induction l as [|y l IH]; intros r; [by intros _ ?%elem_of_nil|].
  intros (d & ds & Hd & Hds & ->)%oflat_map_cons [->|Hx]%elem_of_cons; eauto.
Qed.

Lemma oflat_map_total {A B} (f : A -> outcome (list B)) l :
  (forall x, x ∈ l -> exists d, f x = Done d) -> exists r, oflat_map f l = Done r.
Proof.
  induction l as [|x l IH]; intros H; [by eexists|].
  destruct (H x) as [d Hd]; [by left|]. destruct IH as [ds Hds]; [intros y Hy; apply H; by right|].
  exists (d ++ ds). apply oflat_map_cons. eauto.
Qed.


(** * Strings as Go's byte strings *)

Abbreviation chr := ascii_of_nat (only parsing).

Fixpoint str_drop (n : nat) (s : string) : string :=
  match n, s with
  | S n', String _ s' => str_drop n' s'
  | _, _ => s
  end.

Fixpoint str_take (n : nat) (s : string) : string :=
  match n, s with
  | S n', String c s' => String c (str_take n' s')
  | _, _ => EmptyString
  end.

(** [strings.HasPrefix]. *)
Fixpoint has_prefix (p s : string) : bool :=
  match p, s with
  | EmptyString, _ => true
  | String a p', String b s' => Ascii.eqb a b && has_prefix p' s'
  | String _ _, EmptyString => false
  end.

(** [strings.HasSuffix]. *)
Definition has_suffix (suf s : string) : bool :=
  (String.length suf <=? String.length s)%nat &&
  String.eqb (str_drop (String.length s - String.length suf) s) suf.

(** [strings.Contains]. *)
Fixpoint str_contains (s sub : string) : bool :=
  has_prefix sub s ||
  match s with
  | EmptyString => false
  | String _ s' => str_contains s' sub
  end.

(** [strings.CutPrefix]. *)
Definition cut_prefix (s p : string) : option string :=
  if has_prefix p s then Some (str_drop (String.length p) s) else None.

(** [strings.TrimSuffix]. *)
Definition trim_suffix (s suf : string) : string :=
  if has_suffix suf s then str_take (String.length s - String.length suf) s else s.

Fixpoint str_map (f : ascii -> ascii) (s : string) : string :=
  match s with
  | EmptyString => EmptyString
  | String c s' => String (f c) (str_map f s')
  end.

(** [unicode.ToLower] on the ASCII range. *)
Definition lower_ascii (c : ascii) : ascii :=
  let n := nat_of_ascii c in
  if ((65 <=? n) && (n <=? 90))%nat then ascii_of_nat (n + 32) else c.

Definition to_lower (s : string) : string := str_map lower_ascii s.

(** ASCII white space, and [strings.TrimSpace] with the trims it is made of. *)
Definition is_space (c : ascii) : bool :=
  let n := nat_of_ascii c in ((9 <=? n)%nat && (n <=? 13)%nat) || (n =? 32)%nat.

Fixpoint trim_left (cut : ascii -> bool) (s : string) : string :=
  match s with
  | EmptyString => EmptyString
  | String c rest => if cut c then trim_left cut rest else s
  end.

Fixpoint trim_right (cut : ascii -> bool) (s : string) : string :=
  match s with
  | EmptyString => EmptyString
  | String c rest =>
      match trim_right cut rest with
      | EmptyString => if cut c then EmptyString else String c EmptyString
      | kept => String c kept
      end
  end.

Definition trim_space (s : string) : string := trim_right is_space (trim_left is_space s).

(** [strings.Join]. *)
Fixpoint str_join (sep : string) (l : list string) : string :=
  match l with
  | [] => EmptyString
  | [s] => s
  | s :: l' => s +:+ sep +:+ str_join sep l'
  end.

Definition quote_char : ascii := chr 34.
Definition backslash_char : ascii := chr 92.

(** The escapes of [strconv.Quote], the model of the [%q] verb; bytes outside
    printable ASCII other than the named escapes are left as they are. *)
Fixpoint quote_body (s : string) : string :=
  match s with
  | EmptyString => EmptyString
  | String c s' =>
      let rest := quote_body s' in
      if Ascii.eqb c quote_char || Ascii.eqb c backslash_char
      then String backslash_char (String c rest)
      else if Ascii.eqb c (chr 10) then String backslash_char (String "n"%char rest)
      else if Ascii.eqb c (chr 9) then String backslash_char (String "t"%char rest)
      else if Ascii.eqb c (chr 13) then String backslash_char (String "r"%char rest)
      else String c rest
  end.

Definition quote (s : string) : string :=
  String quote_char (quote_body s +:+ String quote_char EmptyString).

Definition newline : string := String (chr 10) EmptyString.

(** The NUL byte Go code joins composite map keys with. *)
Definition nul : string := String (chr 0) EmptyString.

(** Decimal rendering, the model of [%d] and [strconv.FormatInt]. *)
Definition show_Z (z : Z) : string := pretty z.

(** ** Facts about the string operations *)

#[local] Arguments String.append !_ _ : simpl nomatch.

Lemma str_app_nil_r (s : string) : s +:+ "" = s.
Proof. induction s; simpl; congruence. Qed.

Lemma str_app_assoc (a b c : string) : (a +:+ b) +:+ c = a +:+ (b +:+ c).
Proof. induction a; simpl; congruence. Qed.

Lemma str_length_app (a b : string) :
  String.length (a +:+ b) = (String.length a + String.length b)%nat.
Proof. induction a; simpl; congruence. Qed.

Lemma str_app_inv_l (a b c : string) : a +:+ b = a +:+ c -> b = c.
Proof. induction a; simpl; [done|]. intros [=]; auto. Qed.

Lemma str_drop_app (a b : string) : str_drop (String.length a) (a +:+ b) = b.
Proof. by induction a. Qed.

Lemma str_take_app (a b : string) : str_take (String.length a) (a +:+ b) = a.
Proof. induction a; simpl; [by destruct b|congruence]. Qed.

Lemma str_drop_0 (s : string) : str_drop 0 s = s.
Proof. by destruct s. Qed.

Lemma str_take_drop n (s : string) : str_take n s +:+ str_drop n s = s.
Proof. revert s; induction n as [|n IH]; intros [|c s]; simpl; [done..|]. by rewrite IH. Qed.

Lemma str_length_drop n (s : string) :
  String.length (str_drop n s) = (String.length s - n)%nat.
Proof. revert s; induction n as [|n IH]; intros [|c s]; simpl; auto. Qed.

Lemma str_length_take n (s : string) :
  String.length (str_take n s) = Nat.min n (String.length s).
Proof. revert s; induction n as [|n IH]; intros [|c s]; simpl; auto. Qed.

Lemma has_prefix_spec p s : has_prefix p s = true <-> exists r, s = p +:+ r.
Proof.
  revert s; induction p as [|a p IH]; intros s; simpl.
  { split; [eauto|done]. }
  destruct s as [|b s]; [split; [done|by intros [? ?]]|].
  rewrite andb_true_iff, Ascii.eqb_eq, IH. split.
  - intros [-> [r ->]]. eauto.
  - intros [r [= -> ->]]. eauto.
Qed.

Lemma has_prefix_app p r : has_prefix p (p +:+ r) = true.
Proof. apply has_prefix_spec. eauto. Qed.

Lemma has_prefix_refl s : has_prefix s s = true.
Proof. apply has_prefix_spec. exists "". by rewrite str_app_nil_r. Qed.

Lemma has_prefix_length p s :
  has_prefix p s = true -> (String.length p <= String.length s)%nat.
Proof. rewrite has_prefix_spec. intros [r ->]. rewrite str_length_app. lia. Qed.

Lemma has_prefix_trans a b c :
  has_prefix a b = true -> has_prefix b c = true -> has_prefix a c = true.
Proof.
  rewrite !has_prefix_spec. intros [r ->] [r' ->].
  exists (r +:+ r'). apply str_app_assoc.
Qed.

(** Two prefixes of one string with the same length are the same string. *)
Lemma has_prefix_unique a b s :
  has_prefix a s = true -> has_prefix b s = true ->
  String.length a = String.length b -> a = b.
Proof.
  rewrite !has_prefix_spec. intros [r ->] [r' Heq] Hlen.
  rewrite <- (str_take_app a r), <- (str_take_app b r'), Heq, Hlen. done.
Qed.

Lemma has_suffix_spec suf s : has_suffix suf s = true <-> exists r, s = r +:+ suf.
Proof.
  unfold has_suffix. rewrite andb_true_iff, Nat.leb_le, String.eqb_eq. split.
  - intros [_ H]. exists (str_take (String.length s - String.length suf) s).
    pose proof (str_take_drop (String.length s - String.length suf) s) as E.
    rewrite H in E. by rewrite E.
  - intros [r ->]. rewrite str_length_app.
    replace (String.length r + String.length suf - String.length suf)%nat
      with (String.length r) by lia.
    rewrite str_drop_app. split; [lia|done].
Qed.

Lemma cut_prefix_Some s p r : cut_prefix s p = Some r <-> s = p +:+ r.
Proof.
  unfold cut_prefix. destruct (has_prefix p s) eqn:E.
  - apply has_prefix_spec in E as [r' ->]. rewrite str_drop_app. split.
    + by intros [= ->].
    + intros H%str_app_inv_l. by subst.
  - split; [done|]. intros ->. by rewrite has_prefix_app in E.
Qed.

Lemma trim_suffix_app r suf : trim_suffix (r +:+ suf) suf = r.
Proof.
  unfold trim_suffix. assert (has_suffix suf (r +:+ suf) = true) as ->
    by (apply has_suffix_spec; eauto).
  rewrite str_length_app.
  replace (String.length r + String.length suf - String.length suf)%nat
    with (String.length r) by lia.
  apply str_take_app.
Qed.

(** * Sorting *)

Section sorting.
Context {A K : Type} (key : A -> K) (lt : K -> K -> bool).

(** Insertion before the first element that is not smaller, so equal
  elements keep their order: the contract of [sort.SliceStable]. *)
Fixpoint sort_insert (x : A) (l : list A) : list A :=
match l with
| [] => [x]
| y :: l' => if lt (key y) (key x) then y :: sort_insert x l' else x :: l
end.

Fixpoint stable_sort (l : list A) : list A :=
match l with
| [] => []
| x :: l' => sort_insert x (stable_sort l')
end.

Lemma sort_insert_perm x l : sort_insert x l ≡ₚ x :: l.
Proof.
induction l as [|y l IH]; simpl; [done|].
destruct (lt _ _); [|done]. rewrite IH. apply Permutation_swap.
Qed.

Lemma stable_sort_perm l : stable_sort l ≡ₚ l.
Proof.
induction l as [|x l IH]; simpl; [done|].
by rewrite sort_insert_perm, IH.
Qed.

Lemma stable_sort_nil l : stable_sort l = [] <-> l = [].
Proof.
split; [|by intros ->]. intros H. apply Permutation_nil.
rewrite <- H. apply stable_sort_perm.
Qed.

Lemma elem_of_stable_sort x l : x ∈ stable_sort l <-> x ∈ l.
Proof. by rewrite stable_sort_perm. Qed.

(** The order being a strict weak one, the output is in order. *)
Hypothesis lt_trans : forall a b c, lt a b = false -> lt b c = false -> lt a c = false.
Hypothesis lt_asym : forall a b, lt a b = true -> lt b a = false.

Definition in_order (x y : A) : Prop := lt (key y) (key x) = false.

Lemma sort_insert_sorted x l :
StronglySorted in_order l -> StronglySorted in_order (sort_insert x l).
Proof.
induction 1 as [|y l Hs IH Hall]; simpl; [repeat constructor|].
destruct (lt (key y) (key x)) eqn:E.
- constructor; [done|]. rewrite sort_insert_perm. constructor; [|done].
  by apply lt_asym.
- constructor; [by constructor|]. constructor; [done|].
  eapply Forall_impl; [exact Hall|]. intros z Hz.
  by eapply lt_trans.
Qed.

Lemma stable_sort_sorted l : StronglySorted in_order (stable_sort l).
Proof. induction l; simpl; [constructor|by apply sort_insert_sorted]. Qed.

(** Sorting commutes with leaving elements out. *)
Lemma sort_insert_head x l : Forall (fun z => lt (key z) (key x) = false) l -> sort_insert x l = x :: l.
Proof. destruct 1 as [|z l Hz _]; simpl; [done|]. by rewrite Hz. Qed.

Lemma sort_insert_keep q x l :
StronglySorted in_order l ->
List.filter q (sort_insert x l) = if q x then sort_insert x (List.filter q l) else List.filter q l.
Proof.
induction 1 as [|y l Hs IH Hall]; simpl; [done|].
destruct (lt (key y) (key x)) eqn:E; simpl.
- rewrite IH. destruct (q y), (q x); simpl; by rewrite ?E.
- destruct (q x); [|done]. symmetry.
  change (if q y then y :: List.filter q l else List.filter q l) with (List.filter q (y :: l)).
  apply sort_insert_head. apply Forall_forall. intros z.
  rewrite list_elem_of_In, filter_In, <- list_elem_of_In. intros [[->|Hz]%elem_of_cons _]; [done|].
  rewrite Forall_forall in Hall. eapply lt_trans; [by apply Hall|done].
Qed.

Lemma stable_sort_keep q l : List.filter q (stable_sort l) = stable_sort (List.filter q l).
Proof.
induction l as [|x l IH]; simpl; [done|].
rewrite sort_insert_keep by apply stable_sort_sorted. rewrite IH. by destruct (q x).
Qed.

(** Elements the order cannot tell apart keep their relative order. *)
Hypothesis lt_irrefl : forall a, lt a a = false.
Context `{!EqDecision K}.

Lemma sort_insert_filter k x l :
filter (fun y => key y = k) (sort_insert x l) =
filter (fun y => key y = k) (x :: l).
Proof.
induction l as [|y l IH]; [done|]. simpl.
destruct (lt (key y) (key x)) eqn:E; [|done].
rewrite (filter_cons _ y), IH, !filter_cons.
repeat case_decide; subst; try done.
rewrite H0, lt_irrefl in E. done.
Qed.

Lemma stable_sort_filter k l :
filter (fun y => key y = k) (stable_sort l) = filter (fun y => key y = k) l.
Proof.
induction l as [|x l IH]; [done|]. simpl.
rewrite sort_insert_filter, !filter_cons, IH. done.
Qed.
End sorting.

(** ** Byte-wise string order, the order of Go's [<] on strings *)

Lemma ascii_compare_trans a b c :
  Ascii.compare a b <> Gt -> Ascii.compare b c <> Gt ->
  Ascii.compare a c <> Gt /\ (Ascii.compare a c = Eq -> a = b /\ b = c).
Proof.
  unfold Ascii.compare. intros H1 H2.
  rewrite N.compare_le_iff in *. split.
  - lia.
  - rewrite N.compare_eq_iff. intros H.
    assert (N_of_ascii a = N_of_ascii b /\ N_of_ascii b = N_of_ascii c) as [E1 E2] by lia.
    split; [rewrite <- (ascii_N_embedding a), E1|rewrite <- (ascii_N_embedding b), E2];
      apply ascii_N_embedding.
Qed.

Lemma ascii_compare_refl a : Ascii.compare a a = Eq.
Proof. apply N.compare_refl. Qed.

Lemma str_compare_cons a b s t :
  String.compare (String a s) (String b t) =
  match Ascii.compare a b with Eq => String.compare s t | Lt => Lt | Gt => Gt end.
Proof. done. Qed.

Lemma str_compare_trans s t u :
  String.compare s t <> Gt -> String.compare t u <> Gt -> String.compare s u <> Gt.
Proof.
  revert t u; induction s as [|a s IH]; intros [|b t] [|c u]; try done.
  rewrite !str_compare_cons. intros H1 H2.
  destruct (ascii_compare_trans a b c) as [H3 H4].
  { by destruct (Ascii.compare a b). }
  { by destruct (Ascii.compare b c). }
  destruct (Ascii.compare a c) eqn:E; [|done..].
  destruct (H4 eq_refl) as [-> ->]. rewrite !ascii_compare_refl in *. eauto.
Qed.

Lemma str_ltb_compare s t : String.ltb s t = true <-> String.compare s t = Lt.
Proof. unfold String.ltb. by destruct (String.compare s t). Qed.

Lemma str_ltb_false s t : String.ltb s t = false <-> String.compare t s <> Gt.
Proof.
  unfold String.ltb. rewrite String.compare_antisym.
  by destruct (String.compare t s).
Qed.

Lemma str_ltb_irrefl s : String.ltb s s = false.
Proof. unfold String.ltb. induction s; simpl; [done|]. by rewrite ascii_compare_refl. Qed.

Lemma str_ltb_asym s t : String.ltb s t = true -> String.ltb t s = false.
Proof. rewrite str_ltb_compare, str_ltb_false. by intros ->. Qed.

Lemma str_ltb_trans s t u :
  String.ltb s t = false -> String.ltb t u = false -> String.ltb s u = false.
Proof. rewrite !str_ltb_false. intros. by eapply str_compare_trans. Qed.

(** [sort.Strings]. *)
Definition sort_strings (l : list string) : list string :=
  stable_sort (fun s => s) String.ltb l.

Lemma sort_strings_perm l : sort_strings l ≡ₚ l.
Proof. apply stable_sort_perm. Qed.

Lemma elem_of_sort_strings s l : s ∈ sort_strings l <-> s ∈ l.
Proof. by rewrite sort_strings_perm. Qed.

Lemma sort_strings_length l : length (sort_strings l) = length l.
Proof. by rewrite sort_strings_perm. Qed.

(** * Map iteration order *)

(** Go ranges over a map in an order the language leaves open, and may choose
    another one the next time. [map_order site keys] is the order chosen at
    the loop named by [site]; all that is known of it is that it visits every
    key once. *)
Class MapOrder : Type := {
  map_order : list string -> list string -> list string;
  map_order_perm : forall site ks, map_order site ks ≡ₚ ks;
}.

Section map_order.
Context {MO : MapOrder}.

(** The entries of a map in the order a [range] loop visits them. *)
Definition range_map {V} (site : list string) (m : gmap string V) : list (string * V) :=
omap (fun k => pair k <$> m !! k) (map_order site (map_to_list m).*1).

Lemma elem_of_range_map {V} site (m : gmap string V) k v :
(k, v) ∈ range_map site m <-> m !! k = Some v.
Proof.
unfold range_map. rewrite list_elem_of_omap. split.
- intros (k' & _ & H). apply fmap_Some in H as (v' & Hm & [= -> ->]). done.
- intros H. exists k. rewrite H. split; [|done].
  rewrite map_order_perm. apply list_elem_of_fmap.
  exists (k, v). split; [done|]. by apply elem_of_map_to_list.
Qed.

Lemma range_map_perm {V} site (m : gmap string V) : range_map site m ≡ₚ map_to_list m.
Proof.
unfold range_map. rewrite map_order_perm.
assert (forall l : list (string * V), (forall e, e ∈ l -> m !! e.1 = Some e.2) -> omap (fun k => pair k <$> m !! k) l.*1 = l) as Hl.
{ induction l as [|[k v] l IH]; intros Hin; [done|]. cbn. pose proof (Hin (k, v) ltac:(by left)) as Hkv. cbn in Hkv.
  rewrite Hkv. cbn. rewrite IH; [done|]. intros e He. apply Hin. by right. }
rewrite Hl; [done|]. intros [k v] Hin. by apply elem_of_map_to_list.
Qed.

(** The elements of a [map[string]bool] used as a set. *)
Definition range_set (site : list string) (s : gset string) : list string :=
map_order site (elements s).

Lemma elem_of_range_set site s k : k ∈ range_set site s <-> k ∈ s.
Proof. unfold range_set. rewrite map_order_perm. apply elem_of_elements. Qed.
End map_order.

(** The order that keeps the keys as they are enumerated: the instance the
    examples compute with. *)
Definition enumeration_order : MapOrder :=
  {| map_order := fun _ ks => ks; map_order_perm := fun _ _ => reflexivity _ |}.

(** * Composite keys *)

(** [splitKey]: the text before the first NUL and the text after it. *)
Fixpoint splitKey (key : string) : string * string :=
  match key with
  | EmptyString => (EmptyString, EmptyString)
  | String c rest =>
      if Ascii.eqb c (chr 0) then (EmptyString, rest)
      else let '(nodeID, port) := splitKey rest in (String c nodeID, port)
  end.

(** The key [nodeID + "\x00" + port] the validator indexes ports by. *)
Definition portKey (nodeID port : string) : string := nodeID +:+ nul +:+ port.

Definition nul_free (s : string) : bool := String.eqb (splitKey s).1 s.

Lemma splitKey_portKey nodeID port :
  nul_free nodeID = true -> splitKey (portKey nodeID port) = (nodeID, port).
Proof.
  unfold nul_free, portKey. induction nodeID as [|c s IH]; [done|].
  cbn [splitKey String.append]. destruct (Ascii.eqb c (chr 0)); [done|].
  destruct (splitKey s) as [n p]. cbn [fst]. rewrite String.eqb_eq. intros [= ->].
  change ((String c s ++ nul ++ port)%string) with (String c (s +:+ nul +:+ port)).
  cbn [splitKey]. by rewrite IH by apply String.eqb_refl.
Qed.

Lemma portKey_inj id port id' port' :
  nul_free id = true -> nul_free id' = true ->
  portKey id port = portKey id' port' -> id = id' /\ port = port'.
Proof.
  intros H1 H2 H. pose proof (splitKey_portKey id port H1) as E1.
  rewrite H, splitKey_portKey in E1 by done. by injection E1 as -> ->.
Qed.

(** * Automation *)

Create HintDb go.
#[export] Hint Resolve has_prefix_app has_prefix_refl has_prefix_trans : go.
#[export] Hint Resolve str_ltb_irrefl str_ltb_asym str_ltb_trans : go.
Create Rewrite HintDb go.
#[export] Hint Rewrite str_app_nil_r str_app_assoc str_length_app str_drop_app str_take_app : go.

(** Splits boolean conjunctions and turns the tests of this library into the
    propositions they decide. *)
Ltac bool_prop :=
  repeat match goal with
  | H : _ && _ = true |- _ => apply andb_true_iff in H as [? ?]
  | H : _ || _ = false |- _ => apply orb_false_iff in H as [? ?]
  | H : negb _ = true |- _ => apply negb_true_iff in H
  | H : negb _ = false |- _ => apply negb_false_iff in H
  | H : String.eqb _ _ = true |- _ => apply String.eqb_eq in H
  | H : String.eqb _ _ = false |- _ => apply String.eqb_neq in H
  | H : bool_decide _ = true |- _ => apply bool_decide_eq_true in H
  | H : bool_decide _ = false |- _ => apply bool_decide_eq_false in H
  end.

(** Case analysis on the scrutinee of the first match of the goal. *)
Ltac case_goal :=
  match goal with
  | |- context [match ?x with _ => _ end] => destruct x eqn:?
  end.

(** * Finite sets of strings *)

Lemma size_subseteq_eq (X Y : gset string) : X ⊆ Y -> size X = size Y -> X = Y.
Proof.
  intros Hsub Hsize. apply set_eq. intros x. split; [apply Hsub|].
  intros Hy. destruct (decide (x ∈ X)); [done|].
  assert (size X < size Y); [|lia].
  apply subset_size. split; [done|]. intros H. by apply n, H.
Qed.

(** A set listed by [l] has at most [length l] elements. *)
Lemma size_le_length (X : gset string) l :
  (forall x, x ∈ X -> x ∈ l) -> (size X <= length l)%nat.
Proof.
  intros H. unfold size, set_size. simpl.
  apply submseteq_length, NoDup_submseteq; [apply NoDup_elements|].
  intros x Hx. apply H. by apply elem_of_elements.
Qed.

(** * Lists with distinct keys *)

Lemma NoDup_map_inj {A B} (f : A -> B) (l : list A) :
  NoDup (map f l) -> forall x y, x ∈ l -> y ∈ l -> f x = f y -> x = y.
Proof.
  induction l as [|z l IH]; simpl; [by intros _ ?? ?%elem_of_nil|].
  intros [Hz Hnd]%NoDup_cons x y Hx Hy Heq.
  apply elem_of_cons in Hx as [->|Hx], Hy as [->|Hy]; [done| | |by apply IH].
  - destruct Hz. rewrite Heq. by apply list_elem_of_fmap_2.
  - destruct Hz. rewrite <- Heq. by apply list_elem_of_fmap_2.
Qed.

Lemma NoDup_map_filter {A B} (f : A -> B) (p : A -> bool) (l : list A) :
  NoDup (map f l) -> NoDup (map f (List.filter p l)).
Proof.
  induction l as [|x l IH]; simpl; [done|]. intros [Hx Hnd]%NoDup_cons.
  destruct (p x); simpl; [|by apply IH]. apply NoDup_cons. split; [|by apply IH].
  intros Hin. apply Hx. apply list_elem_of_fmap in Hin as (y & -> & Hy%list_elem_of_In%filter_In).
  apply list_elem_of_fmap_2, list_elem_of_In, Hy.
Qed.
