(* ===== verification/Runes.v ===== *)
(** Go strings as runes: how utf8.DecodeRuneInString and a range over a string
    read bytes, utf8.ValidString, and strings.EqualFold with the simple case
    folding of unicode.SimpleFold (Unicode 15). Strings are byte strings; a byte
    that begins no rune reads as U+FFFD and is one byte wide. *)
From stdpp Require Import strings list.
From Stdlib Require Import Ascii ZArith Lia.
From S2P Require Import Prelude.
#[local] Open Scope Z_scope.
#[local] Open Scope go_scope.

(** * Decoding *)

Definition byte_at (c : ascii) : Z := Z.of_nat (nat_of_ascii c).
Definition within (lo hi x : Z) : bool := (lo <=? x) && (x <=? hi).
Definition continuation (c : ascii) : bool := within 0x80 0xBF (byte_at c).

Definition RuneError : Z := 0xFFFD.
Definition RuneSelf : Z := 0x80.

(** The bytes that begin a rune of two, three and four bytes, with the second
    bytes that keep out overlong forms, surrogates and what is above U+10FFFF. *)
Definition leads2 (a b : ascii) : bool := within 0xC2 0xDF (byte_at a) && continuation b.
Definition leads3 (a b : ascii) : bool :=
  (byte_at a =? 0xE0) && within 0xA0 0xBF (byte_at b) ||
  (byte_at a =? 0xED) && within 0x80 0x9F (byte_at b) ||
  (within 0xE1 0xEC (byte_at a) || within 0xEE 0xEF (byte_at a)) && continuation b.
Definition leads4 (a b : ascii) : bool :=
  (byte_at a =? 0xF0) && within 0x90 0xBF (byte_at b) ||
  (byte_at a =? 0xF4) && within 0x80 0x8F (byte_at b) ||
  within 0xF1 0xF3 (byte_at a) && continuation b.

Definition low6 (c : ascii) : Z := byte_at c - 0x80.
Definition rune1 (a : ascii) : Z := if byte_at a <? RuneSelf then byte_at a else RuneError.
Definition rune2 (a b : ascii) : Z := (byte_at a - 0xC0) * 64 + low6 b.
Definition rune3 (a b c : ascii) : Z := ((byte_at a - 0xE0) * 64 + low6 b) * 64 + low6 c.
Definition rune4 (a b c d : ascii) : Z := (((byte_at a - 0xF0) * 64 + low6 b) * 64 + low6 c) * 64 + low6 d.

(** The runes of a string, each with the bytes it was read from. *)
Fixpoint decode_runes (s : string) : list (Z * string) :=
  match s with
  | EmptyString => []
  | String a s1 =>
      let one := (rune1 a, String a "") in
      match s1 with
      | String b s2 =>
          if leads2 a b then (rune2 a b, String a (String b "")) :: decode_runes s2
          else
            match s2 with
            | String c s3 =>
                if leads3 a b && continuation c then (rune3 a b c, String a (String b (String c ""))) :: decode_runes s3
                else
                  match s3 with
                  | String d s4 =>
                      if leads4 a b && continuation c && continuation d
                      then (rune4 a b c d, String a (String b (String c (String d "")))) :: decode_runes s4
                      else one :: decode_runes s1
                  | EmptyString => one :: decode_runes s1
                  end
            | EmptyString => one :: decode_runes s1
            end
      | EmptyString => [one]
      end
  end.

Definition runes (s : string) : list Z := map fst (decode_runes s).

(** A byte that is no rune. *)
Definition invalid (e : Z * string) : bool := (e.1 =? RuneError) && (String.length e.2 =? 1)%nat.

(** utf8.ValidString. *)
Definition ValidString (s : string) : bool := forallb (fun e => negb (invalid e)) (decode_runes s).

(** strings.ToValidUTF8(s, "\uFFFD"), which is also what encoding/json does to
    the strings it writes, byte by byte. *)
Definition replacement : string := String (ascii_of_nat 239) (String (ascii_of_nat 191) (String (ascii_of_nat 189) "")).
Definition to_valid (s : string) : string := String.concat "" (map (fun e => if invalid e then replacement else e.2) (decode_runes s)).

(** * Folding *)

(** The simple case folding of Unicode: from, to, step, and the distance to the
    rune that stands for the class. *)
Definition fold_ranges : list (Z * Z * Z * Z) := [
  (65, 90, 1, 32); (181, 181, 1, 775); (192, 214, 1, 32); (216, 222, 1, 32); (256, 302, 2, 1); (306, 310, 2, 1);
  (313, 327, 2, 1); (330, 374, 2, 1); (376, 376, 1, -121); (377, 381, 2, 1); (383, 383, 1, -268); (385, 385, 1, 210);
  (386, 388, 2, 1); (390, 390, 1, 206); (391, 391, 1, 1); (393, 394, 1, 205); (395, 395, 1, 1); (398, 398, 1, 79);
  (399, 399, 1, 202); (400, 400, 1, 203); (401, 401, 1, 1); (403, 403, 1, 205); (404, 404, 1, 207); (406, 406, 1, 211);
  (407, 407, 1, 209); (408, 408, 1, 1); (412, 412, 1, 211); (413, 413, 1, 213); (415, 415, 1, 214); (416, 420, 2, 1);
  (422, 422, 1, 218); (423, 423, 1, 1); (425, 425, 1, 218); (428, 428, 1, 1); (430, 430, 1, 218); (431, 431, 1, 1);
  (433, 434, 1, 217); (435, 437, 2, 1); (439, 439, 1, 219); (440, 440, 1, 1); (444, 444, 1, 1); (452, 452, 1, 2);
  (453, 453, 1, 1); (455, 455, 1, 2); (456, 456, 1, 1); (458, 458, 1, 2); (459, 475, 2, 1); (478, 494, 2, 1); (497, 497, 1, 2);
  (498, 500, 2, 1); (502, 502, 1, -97); (503, 503, 1, -56); (504, 542, 2, 1); (544, 544, 1, -130); (546, 562, 2, 1);
  (570, 570, 1, 10795); (571, 571, 1, 1); (573, 573, 1, -163); (574, 574, 1, 10792); (577, 577, 1, 1); (579, 579, 1, -195);
  (580, 580, 1, 69); (581, 581, 1, 71); (582, 590, 2, 1); (837, 837, 1, 116); (880, 882, 2, 1); (886, 886, 1, 1);
  (895, 895, 1, 116); (902, 902, 1, 38); (904, 906, 1, 37); (908, 908, 1, 64); (910, 911, 1, 63); (913, 929, 1, 32);
  (931, 939, 1, 32); (962, 962, 1, 1); (975, 975, 1, 8); (976, 976, 1, -30); (977, 977, 1, -25); (981, 981, 1, -15);
  (982, 982, 1, -22); (984, 1006, 2, 1); (1008, 1008, 1, -54); (1009, 1009, 1, -48); (1012, 1012, 1, -60); (1013, 1013, 1, -64);
  (1015, 1015, 1, 1); (1017, 1017, 1, -7); (1018, 1018, 1, 1); (1021, 1023, 1, -130); (1024, 1039, 1, 80); (1040, 1071, 1, 32);
  (1120, 1152, 2, 1); (1162, 1214, 2, 1); (1216, 1216, 1, 15); (1217, 1229, 2, 1); (1232, 1326, 2, 1); (1329, 1366, 1, 48);
  (4256, 4293, 1, 7264); (4295, 4295, 1, 7264); (4301, 4301, 1, 7264); (5112, 5117, 1, -8); (7296, 7296, 1, -6222);
  (7297, 7297, 1, -6221); (7298, 7298, 1, -6212); (7299, 7300, 1, -6210); (7301, 7301, 1, -6211); (7302, 7302, 1, -6204);
  (7303, 7303, 1, -6180); (7304, 7304, 1, 35267); (7312, 7354, 1, -3008); (7357, 7359, 1, -3008); (7680, 7828, 2, 1);
  (7835, 7835, 1, -58); (7838, 7838, 1, -7615); (7840, 7934, 2, 1); (7944, 7951, 1, -8); (7960, 7965, 1, -8);
  (7976, 7983, 1, -8); (7992, 7999, 1, -8); (8008, 8013, 1, -8); (8025, 8031, 2, -8); (8040, 8047, 1, -8); (8072, 8079, 1, -8);
  (8088, 8095, 1, -8); (8104, 8111, 1, -8); (8120, 8121, 1, -8); (8122, 8123, 1, -74); (8124, 8124, 1, -9);
  (8126, 8126, 1, -7173); (8136, 8139, 1, -86); (8140, 8140, 1, -9); (8152, 8153, 1, -8); (8154, 8155, 1, -100);
  (8168, 8169, 1, -8); (8170, 8171, 1, -112); (8172, 8172, 1, -7); (8184, 8185, 1, -128); (8186, 8187, 1, -126);
  (8188, 8188, 1, -9); (8486, 8486, 1, -7517); (8490, 8490, 1, -8383); (8491, 8491, 1, -8262); (8498, 8498, 1, 28);
  (8544, 8559, 1, 16); (8579, 8579, 1, 1); (9398, 9423, 1, 26); (11264, 11311, 1, 48); (11360, 11360, 1, 1);
  (11362, 11362, 1, -10743); (11363, 11363, 1, -3814); (11364, 11364, 1, -10727); (11367, 11371, 2, 1);
  (11373, 11373, 1, -10780); (11374, 11374, 1, -10749); (11375, 11375, 1, -10783); (11376, 11376, 1, -10782);
  (11378, 11378, 1, 1); (11381, 11381, 1, 1); (11390, 11391, 1, -10815); (11392, 11490, 2, 1); (11499, 11501, 2, 1);
  (11506, 11506, 1, 1); (42560, 42604, 2, 1); (42624, 42650, 2, 1); (42786, 42798, 2, 1); (42802, 42862, 2, 1);
  (42873, 42875, 2, 1); (42877, 42877, 1, -35332); (42878, 42886, 2, 1); (42891, 42891, 1, 1); (42893, 42893, 1, -42280);
  (42896, 42898, 2, 1); (42902, 42920, 2, 1); (42922, 42922, 1, -42308); (42923, 42923, 1, -42319); (42924, 42924, 1, -42315);
  (42925, 42925, 1, -42305); (42926, 42926, 1, -42308); (42928, 42928, 1, -42258); (42929, 42929, 1, -42282);
  (42930, 42930, 1, -42261); (42931, 42931, 1, 928); (42932, 42946, 2, 1); (42948, 42948, 1, -48); (42949, 42949, 1, -42307);
  (42950, 42950, 1, -35384); (42951, 42953, 2, 1); (42960, 42960, 1, 1); (42966, 42968, 2, 1); (42997, 42997, 1, 1);
  (43888, 43967, 1, -38864); (65313, 65338, 1, 32); (66560, 66599, 1, 40); (66736, 66771, 1, 40); (66928, 66938, 1, 39);
  (66940, 66954, 1, 39); (66956, 66962, 1, 39); (66964, 66965, 1, 39); (68736, 68786, 1, 64); (71840, 71871, 1, 32);
  (93760, 93791, 1, 32); (125184, 125217, 1, 34)].

Definition in_range (r : Z) (e : Z * Z * Z * Z) : bool :=
  let '(lo, hi, step, _) := e in within lo hi r && ((r - lo) mod step =? 0).

(** The representative of the runes unicode.SimpleFold goes through from [r]. *)
Definition fold_rune (r : Z) : Z :=
  match List.find (in_range r) fold_ranges with Some (_, _, _, delta) => r + delta | None => r end.

Definition folded_runes (s : string) : list Z := map fold_rune (runes s).

(** strings.EqualFold. *)
Definition EqualFold (a b : string) : bool := bool_decide (folded_runes a = folded_runes b).

Example EqualFold_examples :
  EqualFold "Films" "fILMS" = true /\
  EqualFold "Séries" "SÉRIES" = true /\
  EqualFold "K" "K" = true /\ EqualFold "season" "ſeaſon" = true /\
  EqualFold "Straße" "STRASSE" = false /\ EqualFold "İ" "i" = false /\
  EqualFold (String (ascii_of_nat 255) "") (String (ascii_of_nat 254) "") = true.
Proof. by vm_compute. Qed.

(** * Lemmas *)

Lemma byte_at_range c : 0 <= byte_at c < 256.
Proof. unfold byte_at. pose proof (nat_ascii_bounded c). lia. Qed.

Lemma within_spec lo hi x : within lo hi x = true <-> lo <= x <= hi.
Proof. unfold within. rewrite andb_true_iff, !Z.leb_le. lia. Qed.

(** Induction along the runes of a string. *)
Lemma decode_runes_ind (P : string -> list (Z * string) -> Prop) :
  P "" [] ->
  (forall a s, P s (decode_runes s) -> P (String a s) ((rune1 a, String a "") :: decode_runes s)) ->
  (forall a b s, leads2 a b = true -> P s (decode_runes s) ->
    P (String a (String b s)) ((rune2 a b, String a (String b "")) :: decode_runes s)) ->
  (forall a b c s, leads3 a b = true -> continuation c = true -> P s (decode_runes s) ->
    P (String a (String b (String c s))) ((rune3 a b c, String a (String b (String c ""))) :: decode_runes s)) ->
  (forall a b c d s, leads4 a b = true -> continuation c = true -> continuation d = true -> P s (decode_runes s) ->
    P (String a (String b (String c (String d s)))) ((rune4 a b c d, String a (String b (String c (String d "")))) :: decode_runes s)) ->
  forall s, P s (decode_runes s).
Proof.
  intros H0 H1 H2 H3 H4 s. remember (String.length s) as n eqn:Hn. revert s Hn.
  induction n as [n IH] using lt_wf_ind. intros s ->.
  assert (forall t, (String.length t < String.length s)%nat -> P t (decode_runes t)) as Hrec by (intros t Ht; by eapply IH). clear IH.
  destruct s as [|a [|b [|c [|d s]]]]; cbn [decode_runes].
  - done.
  - apply (H1 a ""), (Hrec ""). cbn. lia.
  - destruct (leads2 a b) eqn:E2; [apply H2; [done|apply (Hrec "")]; cbn; lia|]. apply H1, Hrec. cbn. lia.
  - destruct (leads2 a b) eqn:E2; [apply H2; [done|apply Hrec]; cbn; lia|].
    destruct (leads3 a b && continuation c) eqn:E3; [apply andb_prop in E3 as [? ?]; apply H3; [done..|apply (Hrec ""); cbn; lia]|].
    apply H1, Hrec. cbn. lia.
  - destruct (leads2 a b) eqn:E2; [apply H2; [done|apply Hrec]; cbn; lia|].
    destruct (leads3 a b && continuation c) eqn:E3; [apply andb_prop in E3 as [? ?]; apply H3; [done..|apply Hrec; cbn; lia]|].
    destruct (leads4 a b && continuation c && continuation d) eqn:E4.
    + apply andb_prop in E4 as [[? ?]%andb_prop ?]. apply H4; [done..|apply Hrec; cbn; lia].
    + apply (H1 a (String b (String c (String d s)))), Hrec. cbn. lia.
Qed.

Lemma runes_wide s : forall r bs, (r, bs) ∈ decode_runes s -> r < RuneSelf -> exists c, bs = String c "" /\ byte_at c = r.
Proof.
  apply (decode_runes_ind (fun _ d => forall r bs, (r, bs) ∈ d -> r < RuneSelf -> exists c, bs = String c "" /\ byte_at c = r)).
  - by intros r bs ?%elem_of_nil.
  - intros a s' IH r bs [[= -> ->]|Hin]%elem_of_cons; [|by apply IH]. unfold rune1. destruct (Z.ltb_spec (byte_at a) RuneSelf); [by exists a|by unfold RuneError, RuneSelf].
  - intros a b s' Hl IH r bs [[= -> ->]|Hin]%elem_of_cons; [|by apply IH]. intros Hr. exfalso. revert Hr Hl.
    unfold leads2, continuation, rune2, low6, RuneSelf. rewrite andb_true_iff, !within_spec. lia.
  - intros a b c s' Hl Hc IH r bs [[= -> ->]|Hin]%elem_of_cons; [|by apply IH]. intros Hr. exfalso. revert Hr Hl Hc.
    unfold leads3, continuation, rune3, low6, RuneSelf. rewrite ?orb_true_iff, ?andb_true_iff, ?orb_true_iff, !within_spec, !Z.eqb_eq. lia.
  - intros a b c d s' Hl Hc Hd IH r bs [[= -> ->]|Hin]%elem_of_cons; [|by apply IH]. intros Hr. exfalso. revert Hr Hl Hc Hd.
    unfold leads4, continuation, rune4, low6, RuneSelf. rewrite ?orb_true_iff, ?andb_true_iff, !within_spec, !Z.eqb_eq. lia.
Qed.

Lemma decode_runes_bytes s : String.concat "" (map snd (decode_runes s)) = s.
Proof.
  apply (decode_runes_ind (fun s d => String.concat "" (map snd d) = s)); [done|intros *; cbn [map snd]..].
  all: intros; match goal with H : String.concat "" (map snd (decode_runes ?t)) = ?t |- _ => rewrite <- H at 2 end.
  all: by destruct (map snd _).
Qed.

(** ** Cutting at an ASCII byte *)

Definition is_ascii (c : ascii) : Prop := byte_at c < RuneSelf.

Lemma ascii_alone c x : is_ascii c -> continuation c = false /\ leads2 x c = false /\ leads3 x c = false /\ leads4 x c = false.
Proof.
  unfold is_ascii, RuneSelf. intros Hc.
  assert (forall lo hi, 0x80 <= lo -> within lo hi (byte_at c) = false) as Hw
    by (intros lo hi Hlo; apply not_true_iff_false; rewrite within_spec; lia).
  unfold leads2, leads3, leads4, continuation. rewrite !Hw by lia. by rewrite !andb_false_r.
Qed.

Lemma decode_runes_ascii c t : is_ascii c -> decode_runes (String c t) = (byte_at c, String c "") :: decode_runes t.
Proof.
  unfold is_ascii. intros Hc. assert (rune1 c = byte_at c) as Hr by (unfold rune1; by destruct (Z.ltb_spec (byte_at c) RuneSelf); [|lia]).
  assert (forall x, leads2 c x = false /\ leads3 c x = false /\ leads4 c x = false) as Hl.
  { intros x. unfold RuneSelf in Hc.
    assert (forall lo hi, 0x80 <= lo -> within lo hi (byte_at c) = false) as Hw
      by (intros lo hi Hlo; apply not_true_iff_false; rewrite within_spec; lia).
    assert (forall k, 0x80 <= k -> (byte_at c =? k) = false) as He by (intros k Hk; apply Z.eqb_neq; lia).
    unfold leads2, leads3, leads4. rewrite !Hw, !He by lia. done. }
  destruct t as [|b [|d [|e t]]]; cbn [decode_runes]; rewrite ?Hr; [done|..]; destruct (Hl b) as (E2 & E3 & E4); rewrite E2, ?E3, ?E4; done.
Qed.

(** The first rune of a string, and what follows it. *)
Definition first_rune (a : ascii) (s1 : string) : (Z * string) * string :=
  let one := ((rune1 a, String a ""), s1) in
  match s1 with
  | String b s2 =>
      if leads2 a b then ((rune2 a b, String a (String b "")), s2)
      else
        match s2 with
        | String c s3 =>
            if leads3 a b && continuation c then ((rune3 a b c, String a (String b (String c ""))), s3)
            else
              match s3 with
              | String d s4 =>
                  if leads4 a b && continuation c && continuation d
                  then ((rune4 a b c d, String a (String b (String c (String d "")))), s4)
                  else one
              | EmptyString => one
              end
        | EmptyString => one
        end
  | EmptyString => one
  end.

Lemma decode_runes_first a s : decode_runes (String a s) = (first_rune a s).1 :: decode_runes (first_rune a s).2.
Proof.
  destruct s as [|b [|c [|d s]]]; cbn [decode_runes first_rune]; [done|..]; destruct (leads2 a b); try done;
    destruct (leads3 a b && _); try done; by destruct (leads4 a b && _ && _).
Qed.

Lemma first_rune_shorter a s : (String.length (first_rune a s).2 <= String.length s)%nat.
Proof.
  destruct s as [|b [|c [|d s]]]; cbn [first_rune]; [done|..]; destruct (leads2 a b); cbn; try lia;
    destruct (leads3 a b && _); cbn; try lia; destruct (leads4 a b && _ && _); cbn; lia.
Qed.

Lemma first_rune_app a s c t : is_ascii c ->
  first_rune a (s +:+ String c t) = ((first_rune a s).1, (first_rune a s).2 +:+ String c t).
Proof.
  intros Hc. destruct (ascii_alone c a Hc) as (Hk & E2 & E3 & E4). destruct s as [|b [|d [|e s]]].
  - change ("" +:+ String c t) with (String c t). cbn [first_rune]. rewrite E2. destruct t as [|x t]; [done|]. rewrite E3. cbn [andb].
    destruct t as [|y t]; [done|]. by rewrite E4.
  - change (String b "" +:+ String c t) with (String b (String c t)). cbn [first_rune]. destruct (leads2 a b); [done|].
    rewrite Hk, !andb_false_r. by destruct t.
  - change (String b (String d "") +:+ String c t) with (String b (String d (String c t))). cbn [first_rune]. destruct (leads2 a b); [done|].
    destruct (leads3 a b && _); [done|]. by rewrite Hk, !andb_false_r.
  - change (String b (String d (String e s)) +:+ String c t) with (String b (String d (String e (s +:+ String c t)))). cbn [first_rune].
    destruct (leads2 a b); [done|]. destruct (leads3 a b && _); [done|]. by destruct (leads4 a b && _ && _).
Qed.

Lemma decode_runes_app_ascii s c t : is_ascii c -> decode_runes (s +:+ String c t) = decode_runes s ++ decode_runes (String c t).
Proof.
  intros Hc. remember (String.length s) as n eqn:Hn. revert s Hn.
  induction n as [n IH] using lt_wf_ind. intros [|a s] ->; [done|].
  change (String a s +:+ String c t) with (String a (s +:+ String c t)).
  rewrite (decode_runes_first a (s +:+ String c t)), (decode_runes_first a s), first_rune_app by done. cbn [fst snd app]. f_equal.
  eapply IH; [|reflexivity]. pose proof (first_rune_shorter a s). cbn. lia.
Qed.

Lemma decode_runes_app_cut s c t : is_ascii c -> decode_runes (s +:+ String c t) = decode_runes s ++ (byte_at c, String c "") :: decode_runes t.
Proof. intros Hc. by rewrite decode_runes_app_ascii, decode_runes_ascii. Qed.

Lemma folded_runes_cut s c t : is_ascii c -> folded_runes (s +:+ String c t) = folded_runes s ++ fold_rune (byte_at c) :: folded_runes t.
Proof. intros Hc. unfold folded_runes, runes. by rewrite decode_runes_app_cut, !map_app. Qed.

Lemma folded_runes_nil s : folded_runes s = [] <-> s = "".
Proof. split; [|by intros ->]. destruct s as [|a s]; [done|]. unfold folded_runes, runes. by rewrite decode_runes_first. Qed.

(** ** Folding moves nothing to the first 65 runes *)

Lemma fold_ranges_high : Forall (fun e => 65 <= e.1.1.1 + e.2 /\ 65 <= e.1.1.1) fold_ranges.
Proof. apply (bool_decide_unpack _). by vm_compute. Qed.

Lemma fold_rune_low r : r < 65 \/ fold_rune r < 65 -> fold_rune r = r.
Proof.
  unfold fold_rune. destruct (List.find (in_range r) fold_ranges) as [[[[lo hi] step] delta]|] eqn:Hf; [|done].
  apply find_some in Hf as [Hin Hr]. pose proof fold_ranges_high as Hall. rewrite Forall_forall in Hall.
  apply list_elem_of_In in Hin. destruct (Hall _ Hin) as [H1 H2]. cbn in H1, H2. unfold in_range in Hr. apply andb_prop in Hr as [Hr _].
  apply within_spec in Hr. lia.
Qed.

(** A string whose folding is an ASCII text without letters is that text. *)
Lemma folded_runes_low s p : Forall (fun c => byte_at c < 65) (String.list_ascii_of_string p) -> folded_runes s = folded_runes p -> s = p.
Proof.
  assert (forall c s, byte_at c < 65 -> folded_runes (String c s) = byte_at c :: folded_runes s) as Hcons.
  { intros c u Hc. unfold folded_runes, runes. rewrite decode_runes_ascii by (unfold is_ascii, RuneSelf; lia). cbn. f_equal. by apply fold_rune_low; left. }
  revert s. induction p as [|c p IH]; intros s Hp; [by intros ?%folded_runes_nil|]. apply Forall_cons in Hp as [Hc Hp]. rewrite Hcons by done.
  destruct s as [|a s]; [done|]. pose proof (decode_runes_bytes (String a s)) as Hb. pose proof (runes_wide (String a s)) as Hw.
  unfold folded_runes, runes. rewrite decode_runes_first in *. destruct (first_rune a s) as [[r bs] rest]. cbn [fst snd map] in *. intros [= Hr Hrest].
  assert (fold_rune r = r) as Hfr by (apply fold_rune_low; right; lia). rewrite Hfr in Hr.
  destruct (Hw r bs ltac:(by left) ltac:(unfold RuneSelf; lia)) as (x & -> & Hx).
  assert (x = c) as ->.
  { unfold byte_at in *. rewrite <- (ascii_nat_embedding x), <- (ascii_nat_embedding c). f_equal. lia. }
  assert (String.concat "" (map snd (decode_runes rest)) = rest) as Hrb by apply decode_runes_bytes.
  assert (String a s = String c rest) as ->.
  { rewrite <- Hb. destruct (map snd (decode_runes rest)) as [|y l] eqn:E; cbn in Hrb |- *; [by rewrite <- Hrb|]. by rewrite <- Hrb. }
  f_equal. by apply IH.
Qed.

Lemma EqualFold_spec a b : EqualFold a b = true <-> folded_runes a = folded_runes b.
Proof. apply bool_decide_eq_true. Qed.

(** ** Valid strings *)

Lemma to_valid_id s : ValidString s = true -> to_valid s = s.
Proof.
  unfold ValidString, to_valid. intros Hv. rewrite <- (decode_runes_bytes s) at 2. f_equal. induction (decode_runes s) as [|e l IH]; [done|].
  cbn in Hv |- *. apply andb_prop in Hv as [He%negb_true_iff Hl]. rewrite He. f_equal. by apply IH.
Qed.
