(* ===== verification/Types.v ===== *)
(** The workflow type system: src/internal/shared/workflow/types.go.

    A [Type] is a name; names form a dotted-prefix hierarchy with one generic
    constructor, [list<T>]. The file models the subtype test, the shared
    representations, the transform registry and [CanConnect], and proves the
    hierarchy a partial order with [any] on top, the connection verdicts, and
    that a conversion the editor is offered passes the validator's re-check. *)
From S2P Require Import Prelude.
From stdpp Require Import strings list.
From Stdlib Require Import Ascii Lia.

(** Go's [type Type string]. *)
Abbreviation Type_ := string (only parsing).

Definition TypeAny : Type_ := "any".
Definition TypeBool : Type_ := "bool".
Definition TypeNumber : Type_ := "number".
Definition TypeString : Type_ := "string".
Definition TypeDatetime : Type_ := "datetime".
Definition TypePath : Type_ := "path".
Definition TypePathDir : Type_ := "path.dir".
Definition TypePathFile : Type_ := "path.file".
Definition TypeMedia : Type_ := "media".
Definition TypeMediaFile : Type_ := "media.file".
Definition TypeTVSeries : Type_ := "tvseries".
Definition TypeMovie : Type_ := "movie".
Definition TypeAgent : Type_ := "agent".
Definition TypeAgentSlug : Type_ := "agent.slug".
Definition TypeScanner : Type_ := "scanner".
Definition TypeScannerSlug : Type_ := "scanner.slug".
Definition TypeError : Type_ := "error".

Definition listPrefix : string := "list<".
Definition listSuffix : string := ">".

(** [ListOf]. *)
Definition ListOf (element : Type_) : Type_ := listPrefix +:+ element +:+ listSuffix.

Definition TypePathList : Type_ := ListOf TypePath.
Definition TypePathListDir : Type_ := ListOf TypePathDir.
Definition TypePathListFile : Type_ := ListOf TypePathFile.

(** [Type.IsList]. *)
Definition IsList (t : Type_) : bool :=
  has_prefix listPrefix t && has_suffix listSuffix t.

(** [Type.ElementType]: [None] is Go's [("", false)]. The slice bounds are in
    range for every list: the prefix ends in another character than the
    suffix, so the two cannot overlap ([IsList_spec]). *)
Definition ElementType (t : Type_) : option Type_ :=
  if IsList t then
    Some (str_take (String.length t - String.length listPrefix - String.length listSuffix)
            (str_drop (String.length listPrefix) t))
  else None.

(** [IsSubtypeOf] with the recursion on element types bounded by [fuel]; the
    element of a list is shorter than the list, so the length of [sub] is
    enough ([IsSubtypeOf_fuel_enough]). *)
Fixpoint IsSubtypeOf_fuel (fuel : nat) (sub super : Type_) : bool :=
  if String.eqb super TypeAny || String.eqb sub super then true
  else
    match ElementType sub, ElementType super with
    | None, None => has_prefix (super +:+ ".") sub
    | Some subElement, Some superElement =>
        match fuel with
        | O => false
        | S fuel' => IsSubtypeOf_fuel fuel' subElement superElement
        end
    | _, _ => false
    end.

Definition IsSubtypeOf (sub super : Type_) : bool :=
  IsSubtypeOf_fuel (String.length sub) sub super.

(** The [representationOf] table. *)
Definition representationOf (t : Type_) : option string :=
  if String.eqb t TypeString then Some "primitive.string"
  else if String.eqb t TypeAgentSlug then Some "primitive.string"
  else if String.eqb t TypeScannerSlug then Some "primitive.string"
  else if String.eqb t TypeMediaFile then Some "io/fs.File"
  else if String.eqb t TypePathFile then Some "io/fs.File"
  else None.

(** [SameRepresentation], bounded the same way. *)
Fixpoint SameRepresentation_fuel (fuel : nat) (a b : Type_) : bool :=
  match ElementType a, ElementType b with
  | None, None =>
      match representationOf a, representationOf b with
      | Some aRep, Some bRep => String.eqb aRep bRep
      | _, _ => false
      end
  | Some aElement, Some bElement =>
      match fuel with
      | O => false
      | S fuel' => SameRepresentation_fuel fuel' aElement bElement
      end
  | _, _ => false
  end.

Definition SameRepresentation (a b : Type_) : bool :=
  SameRepresentation_fuel (String.length a) a b.

(** The generated WorkflowTransform message. *)
Record Transform : Type := {
  tName : string;
  tFrom : Type_;
  tTo : Type_;
  tAmbiguous : bool;
  tSummary : string;
  tImpliesIteration : bool;
}.

Definition transformRegistry : list Transform := [
  {| tName := "parentDir"; tFrom := TypePathFile; tTo := TypePathDir; tAmbiguous := false;
     tSummary := "The directory containing the file"; tImpliesIteration := false |};
  {| tName := "eachFile"; tFrom := TypePathDir; tTo := TypePathFile; tAmbiguous := false;
     tSummary := "Every file in the directory, one per downstream run"; tImpliesIteration := true |};
  {| tName := "toString"; tFrom := TypePath; tTo := TypeString; tAmbiguous := false;
     tSummary := "The path as text"; tImpliesIteration := false |};
  {| tName := "media.file.parentDir"; tFrom := TypeMediaFile; tTo := TypePathDir; tAmbiguous := false;
     tSummary := "The directory containing the record's file"; tImpliesIteration := false |};
  {| tName := "parseNumber"; tFrom := TypeString; tTo := TypeNumber; tAmbiguous := false;
     tSummary := "Parse text as a number (may fail at run time)"; tImpliesIteration := false |};
  {| tName := "format"; tFrom := TypeNumber; tTo := TypeString; tAmbiguous := false;
     tSummary := "Format the number as text"; tImpliesIteration := false |}
].

(** [FindTransform]: the first registered transform of that name. *)
Definition FindTransform (name : string) : option Transform :=
  List.find (fun transform => String.eqb (tName transform) name) transformRegistry.

(** [wrapTransform]: the synthetic [T -> list<T>]. *)
Definition wrapTransform (from to : Type_) : option Transform :=
  match ElementType from with
  | Some _ => None
  | None =>
      match ElementType to with
      | None => None
      | Some element =>
          if negb (IsSubtypeOf from element) then None
          else Some {| tName := "wrap"; tFrom := from; tTo := to; tAmbiguous := false;
                       tSummary := "Wraps the single value into a one-element list";
                       tImpliesIteration := false |}
      end
  end.

(** [ResolveTransform]. *)
Definition ResolveTransform (name : string) (from to : Type_) : option Transform :=
  match FindTransform name with
  | Some transform => Some transform
  | None => if String.eqb name "wrap" then wrapTransform from to else None
  end.

(** [Transforms]: a copy of the registry. *)
Definition Transforms : list Transform := transformRegistry.

(** [Connection]. *)
Record Connection : Type := {
  Direct : bool;
  Candidates : list Transform;
  TypeUnsafe : bool;
}.

(** [Connection.Allowed]. *)
Definition Allowed (c : Connection) : bool :=
  Direct c || (0 <? length (Candidates c))%nat.

(** [Connection.AutoApply]. *)
Definition AutoApply (c : Connection) : option Transform :=
  if Direct c then None
  else match Candidates c with
       | [transform] => if tAmbiguous transform then None else Some transform
       | _ => None
       end.

(** [CanConnect]. *)
Definition CanConnect (from to : Type_) : Connection :=
  if IsSubtypeOf from to then {| Direct := true; Candidates := []; TypeUnsafe := false |}
  else if IsSubtypeOf to from then {| Direct := true; Candidates := []; TypeUnsafe := true |}
  else if SameRepresentation from to then {| Direct := true; Candidates := []; TypeUnsafe := false |}
  else
    let candidates :=
      List.filter (fun transform =>
        IsSubtypeOf from (tFrom transform) && IsSubtypeOf (tTo transform) to) transformRegistry in
    let candidates :=
      match wrapTransform from to with
      | Some wrap => candidates ++ [wrap]
      | None => candidates
      end in
    {| Direct := false; Candidates := candidates; TypeUnsafe := false |}.

(** [ExplainIncompatible]. *)
Definition ExplainIncompatible (from to : Type_) : string :=
  match ElementType from, ElementType to with
  | Some _, None =>
      "A collection cannot feed a single value. Use a For Each node to work through it one item at a time."
  | None, Some _ =>
      "A single value cannot feed a collection. Collect values inside a loop instead."
  | _, _ => from +:+ " cannot connect to " +:+ to +:+ "."
  end.

(** * Lists of types *)

#[local] Arguments String.append !_ _ : simpl nomatch.

Lemma IsList_spec t : IsList t = true <-> exists e, t = ListOf e.
Proof.
  unfold IsList, ListOf. rewrite andb_true_iff, has_prefix_spec, has_suffix_spec. split.
  - intros [[r ->] [q Hq]].
    assert (exists e, r = e +:+ listSuffix) as [e ->]; [|eauto].
    unfold listPrefix, listSuffix in *.
    do 5 (destruct q as [|? q]; simpl in Hq; [discriminate Hq|injection Hq as <- Hq]).
    eauto.
  - intros [e ->]. split; [eauto|]. exists (listPrefix +:+ e). by rewrite str_app_assoc.
Qed.

Lemma ElementType_ListOf e : ElementType (ListOf e) = Some e.
Proof.
  unfold ElementType. rewrite (proj2 (IsList_spec _)) by eauto.
  unfold ListOf. rewrite str_drop_app, !str_length_app.
  replace (_ - _ - _)%nat with (String.length e) by lia.
  by rewrite str_take_app.
Qed.

Lemma ElementType_Some t e : ElementType t = Some e <-> t = ListOf e.
Proof.
  split; [|intros ->; apply ElementType_ListOf].
  intros H. assert (IsList t = true) as [e' ->]%IsList_spec.
  { revert H. unfold ElementType. by destruct (IsList t). }
  rewrite ElementType_ListOf in H. by simplify_eq.
Qed.

Lemma ElementType_length t e :
  ElementType t = Some e -> (String.length e < String.length t)%nat.
Proof.
  intros ->%ElementType_Some. unfold ListOf. rewrite !str_length_app. simpl. lia.
Qed.

Lemma ListOf_inj e e' : ListOf e = ListOf e' -> e = e'.
Proof. intros H. apply (f_equal ElementType) in H. rewrite !ElementType_ListOf in H. by simplify_eq. Qed.

Lemma ListOf_not_any e : ListOf e <> TypeAny.
Proof. done. Qed.

(** * The subtype relation *)

Lemma IsSubtypeOf_fuel_enough n m sub super :
  (String.length sub <= n)%nat -> (String.length sub <= m)%nat ->
  IsSubtypeOf_fuel n sub super = IsSubtypeOf_fuel m sub super.
Proof.
  revert m sub super; induction n as [|n IH]; intros m sub super Hn Hm; destruct m as [|m]; simpl;
    destruct (_ || _); try done;
    destruct (ElementType sub) as [e|] eqn:Es; destruct (ElementType super) as [e'|] eqn:Et; try done;
    pose proof (ElementType_length _ _ Es); try lia.
  apply IH; lia.
Qed.

(** The recursive equation of the source. *)
Lemma IsSubtypeOf_eq sub super :
  IsSubtypeOf sub super =
  if String.eqb super TypeAny || String.eqb sub super then true
  else match ElementType sub, ElementType super with
       | None, None => has_prefix (super +:+ ".") sub
       | Some subElement, Some superElement => IsSubtypeOf subElement superElement
       | _, _ => false
       end.
Proof.
  unfold IsSubtypeOf at 1.
  destruct (String.length sub) as [|n] eqn:Hn; simpl; destruct (_ || _); try done;
    destruct (ElementType sub) as [e|] eqn:Es; destruct (ElementType super) as [e'|] eqn:Et; try done;
    pose proof (ElementType_length _ _ Es); try lia.
  apply IsSubtypeOf_fuel_enough; lia.
Qed.

(** The hierarchy as a relation on names: [any] on top, a dotted extension
    below what it extends, lists covariant, nothing else. *)
Inductive subtype : Type_ -> Type_ -> Prop :=
| subtype_any t : subtype t TypeAny
| subtype_refl t : subtype t t
| subtype_dot super rest :
    ElementType (super +:+ "." +:+ rest) = None -> ElementType super = None ->
    subtype (super +:+ "." +:+ rest) super
| subtype_list s t : subtype s t -> subtype (ListOf s) (ListOf t).
#[export] Hint Constructors subtype : go.

Lemma IsSubtypeOf_subtype n sub super :
  (String.length sub <= n)%nat -> IsSubtypeOf sub super = true -> subtype sub super.
Proof.
  revert sub super; induction n as [|n IH]; intros sub super Hn; rewrite IsSubtypeOf_eq;
    (destruct (String.eqb super TypeAny) eqn:E1; simpl;
      [apply String.eqb_eq in E1 as ->; constructor|]);
    (destruct (String.eqb sub super) eqn:E2; simpl;
      [apply String.eqb_eq in E2 as ->; constructor|]);
    destruct (ElementType sub) as [e|] eqn:Es; destruct (ElementType super) as [e'|] eqn:Et; try done.
  - pose proof (ElementType_length _ _ Es). lia.
  - intros [r Hr]%has_prefix_spec. rewrite str_app_assoc in Hr. subst. by constructor.
  - pose proof (ElementType_length _ _ Es).
    apply ElementType_Some in Es as ->, Et as ->. intros H'. constructor. apply IH; [lia|done].
  - intros [r Hr]%has_prefix_spec. rewrite str_app_assoc in Hr. subst. by constructor.
Qed.

Lemma subtype_IsSubtypeOf sub super : subtype sub super -> IsSubtypeOf sub super = true.
Proof.
  induction 1 as [t|t|super rest H1 H2|s t Hst IH]; rewrite IsSubtypeOf_eq.
  - done.
  - by rewrite String.eqb_refl, orb_true_r.
  - rewrite H1, H2, <- str_app_assoc, has_prefix_app. by destruct (_ || _).
  - rewrite !ElementType_ListOf, IH. by destruct (_ || _).
Qed.

Lemma IsSubtypeOf_spec sub super : IsSubtypeOf sub super = true <-> subtype sub super.
Proof. split; [by apply (IsSubtypeOf_subtype (String.length sub))|apply subtype_IsSubtypeOf]. Qed.

Lemma IsSubtypeOf_refl t : IsSubtypeOf t t = true.
Proof. rewrite IsSubtypeOf_spec. constructor. Qed.
#[export] Hint Resolve IsSubtypeOf_refl : go.

Lemma any_no_dot super rest : super +:+ "." +:+ rest <> TypeAny.
Proof.
  intros Ha. do 3 (destruct super as [|? super]; [done|]; injection Ha as -> Ha).
  by destruct super.
Qed.

Lemma subtype_of_any t : subtype TypeAny t -> t = TypeAny.
Proof.
  intros H. remember TypeAny as a eqn:Ha. destruct H as [t|t|super rest _ _|s t _]; try done.
  by apply any_no_dot in Ha.
Qed.

Lemma dot_shorter super rest :
  (String.length super < String.length (super +:+ "." +:+ rest))%nat.
Proof. rewrite str_length_app. simpl. lia. Qed.

Lemma subtype_ListOf_l e t :
  subtype (ListOf e) t -> t = TypeAny \/ exists e', t = ListOf e' /\ subtype e e'.
Proof.
  intros H. remember (ListOf e) as l eqn:Hl.
  destruct H as [t|t|super rest H1 _|s t Hst]; [by left|right..].
  - exists e. split; [done|constructor].
  - by rewrite Hl, ElementType_ListOf in H1.
  - apply ListOf_inj in Hl as ->. eauto.
Qed.

(** Below a name that is not a list: [any], itself, or a dotted extension. *)
Lemma subtype_scalar_l s t :
  subtype s t -> ElementType s = None ->
  t = TypeAny \/ t = s \/
  (ElementType t = None /\ exists rest, s = t +:+ "." +:+ rest).
Proof.
  intros H. destruct H as [t|t|super rest H1 H2|s t Hst]; eauto 6.
  by rewrite ElementType_ListOf.
Qed.

Lemma subtype_trans s t u : subtype s t -> subtype t u -> subtype s u.
Proof.
  intros Hst. revert u. induction Hst as [t|t|super rest H1 H2|s t Hst IH]; intros u Htu.
  - apply subtype_of_any in Htu as ->. constructor.
  - done.
  - apply subtype_scalar_l in Htu as [->|[->|(H3 & rest' & ->)]];
      [apply subtype_any|by apply subtype_dot| |done].
    rewrite !str_app_assoc in *. by apply subtype_dot.
  - apply subtype_ListOf_l in Htu as [->|(e' & -> & Hu)]; constructor. auto.
Qed.

Lemma subtype_antisym s t : subtype s t -> subtype t s -> s = t.
Proof.
  induction 1 as [t|t|super rest H1 H2|s t Hst IH]; intros Hts.
  - by apply subtype_of_any in Hts.
  - done.
  - apply subtype_scalar_l in Hts as [E|[E|(_ & rest' & E)]]; [|done| |done].
    + by apply any_no_dot in E.
    + apply (f_equal String.length) in E. rewrite !str_length_app in E. simpl in E.
      rewrite ?str_length_app in E. simpl in E. lia.
  - apply subtype_ListOf_l in Hts as [Heq|(e' & Heq & Hu)]; [done|].
    apply ListOf_inj in Heq as ->. f_equal. auto.
Qed.

(** * Connections *)

Lemma registry_scalar transform :
  transform ∈ transformRegistry ->
  ElementType (tFrom transform) = None /\ ElementType (tTo transform) = None /\
  tFrom transform <> TypeAny /\ tTo transform <> TypeAny /\
  FindTransform (tName transform) = Some transform.
Proof.
  revert transform. apply Forall_forall.
  repeat (constructor; [by vm_compute|]). constructor.
Qed.

(** A list is below nothing but [any] and lists, and above nothing but lists. *)
Lemma IsSubtypeOf_mixed s t :
  ElementType s <> None -> ElementType t = None -> t <> TypeAny ->
  IsSubtypeOf s t = false /\ IsSubtypeOf t s = false.
Proof.
  intros Hs Ht Hany. rewrite !IsSubtypeOf_eq, Ht.
  destruct (ElementType s) as [e|] eqn:He; [|done].
  assert (s <> TypeAny) by (intros ->; done).
  assert (s <> t) by (intros ->; congruence).
  rewrite !(proj2 (String.eqb_neq _ _)) by congruence. done.
Qed.

Lemma SameRepresentation_eq a b :
  SameRepresentation a b =
  match ElementType a, ElementType b with
  | None, None =>
      match representationOf a, representationOf b with
      | Some aRep, Some bRep => String.eqb aRep bRep
      | _, _ => false
      end
  | Some aElement, Some bElement => SameRepresentation aElement bElement
  | _, _ => false
  end.
Proof.
  assert (Hfuel : forall n m a b, (String.length a <= n)%nat -> (String.length a <= m)%nat ->
    SameRepresentation_fuel n a b = SameRepresentation_fuel m a b).
  { clear. induction n as [|n IH]; intros m a b Hn Hm; destruct m as [|m]; simpl;
      destruct (ElementType a) as [e|] eqn:Ea; destruct (ElementType b) as [e'|]; try done;
      pose proof (ElementType_length _ _ Ea); try lia.
    apply IH; lia. }
  unfold SameRepresentation at 1.
  destruct (String.length a) as [|n] eqn:Hn; simpl;
    destruct (ElementType a) as [e|] eqn:Ea; destruct (ElementType b) as [e'|]; try done;
    pose proof (ElementType_length _ _ Ea); try lia.
  apply Hfuel; lia.
Qed.

Lemma wrapTransform_Some from to wrap :
  wrapTransform from to = Some wrap <->
  exists element, to = ListOf element /\ ElementType from = None /\
    IsSubtypeOf from element = true /\
    wrap = {| tName := "wrap"; tFrom := from; tTo := to; tAmbiguous := false;
              tSummary := "Wraps the single value into a one-element list";
              tImpliesIteration := false |}.
Proof.
  unfold wrapTransform. split.
  - destruct (ElementType from) eqn:Ef; [done|].
    destruct (ElementType to) as [e|] eqn:Et; [|done].
    destruct (IsSubtypeOf from e) eqn:Es; [|done]. intros [= <-].
    apply ElementType_Some in Et. eauto.
  - intros (e & -> & Hf & Hs & ->). by rewrite Hf, ElementType_ListOf, Hs.
Qed.

(** The candidates of a connection, whichever verdict produced them. *)
Lemma elem_of_candidates from to transform :
  transform ∈ Candidates (CanConnect from to) ->
  (transform ∈ transformRegistry /\ IsSubtypeOf from (tFrom transform) = true /\
     IsSubtypeOf (tTo transform) to = true) \/
  wrapTransform from to = Some transform.
Proof.
  unfold CanConnect. repeat (case_goal; [by intros ?%elem_of_nil|]). simpl.
  assert (Hreg : transform ∈ List.filter (fun t =>
      IsSubtypeOf from (tFrom t) && IsSubtypeOf (tTo t) to) transformRegistry ->
    transform ∈ transformRegistry /\ IsSubtypeOf from (tFrom transform) = true /\
      IsSubtypeOf (tTo transform) to = true).
  { rewrite list_elem_of_In, filter_In, andb_true_iff, <- list_elem_of_In. done. }
  destruct (wrapTransform from to) as [wrap|].
  - intros [H|H%list_elem_of_singleton]%elem_of_app; [by left; auto|by right; subst].
  - auto.
Qed.

(** Every conversion offered for a connection, recorded on an edge by its name,
    resolves back to itself and fits both ends. *)
Lemma candidate_resolves from to transform :
  transform ∈ Candidates (CanConnect from to) ->
  ResolveTransform (tName transform) from to = Some transform /\
  IsSubtypeOf from (tFrom transform) = true /\ IsSubtypeOf (tTo transform) to = true.
Proof.
  unfold ResolveTransform. intros [(Hreg & H1 & H2)|Hw]%elem_of_candidates.
  - apply registry_scalar in Hreg as (_ & _ & _ & _ & ->). done.
  - pose proof Hw as (e & -> & _ & _ & ->)%wrapTransform_Some. simpl.
    rewrite Hw. auto with go.
Qed.

(** The verdict's two flags, in terms of the hierarchy. *)
Lemma CanConnect_Direct from to :
  Direct (CanConnect from to) = true <->
  subtype from to \/ subtype to from \/ SameRepresentation from to = true.
Proof.
  rewrite <- !IsSubtypeOf_spec. unfold CanConnect.
  destruct (IsSubtypeOf from to), (IsSubtypeOf to from), (SameRepresentation from to);
    simpl; intuition congruence.
Qed.

Lemma CanConnect_TypeUnsafe from to :
  TypeUnsafe (CanConnect from to) = true <-> subtype to from /\ from <> to.
Proof.
  rewrite <- IsSubtypeOf_spec. unfold CanConnect.
  destruct (IsSubtypeOf from to) eqn:E1; simpl.
  { split; [done|]. intros [H Hne]. destruct Hne.
    apply subtype_antisym; by apply IsSubtypeOf_spec. }
  destruct (IsSubtypeOf to from) eqn:E2; simpl.
  - split; [|done]. intros _. split; [done|]. intros ->. by rewrite IsSubtypeOf_refl in E1.
  - destruct (SameRepresentation from to); simpl; intuition congruence.
Qed.

(** * Properties *)

(** C40: IsSubtypeOf is a partial order: reflexive, transitive through dotted
    names, nested lists and [any] alike, and antisymmetric, so no two different
    type names are interchangeable by subtyping. *)
Theorem IsSubtypeOf_partial_order : PartialOrder (fun sub super => IsSubtypeOf sub super = true).
Proof.
  repeat split.
  - intros t. apply IsSubtypeOf_refl.
  - intros s t u. rewrite !IsSubtypeOf_spec. apply subtype_trans.
  - intros s t. rewrite !IsSubtypeOf_spec. apply subtype_antisym.
Qed.

(** What CanConnect answers. It is direct exactly for a subtype, a
    supertype (narrowing) or a shared representation; it is flagged type-unsafe
    exactly for a strict narrowing; and a direct connection offers no
    conversion. *)
Theorem CanConnect_verdict from to :
  (Direct (CanConnect from to) = true <->
     subtype from to \/ subtype to from \/ SameRepresentation from to = true) /\
  (TypeUnsafe (CanConnect from to) = true <-> subtype to from /\ from <> to) /\
  (Direct (CanConnect from to) = true -> Candidates (CanConnect from to) = []).
Proof.
  split; [apply CanConnect_Direct|]. split; [apply CanConnect_TypeUnsafe|].
  unfold CanConnect. by repeat case_goal.
Qed.

Lemma CanConnect_verdict_witness :
  TypeUnsafe (CanConnect TypePath TypePathDir) = true /\
  Candidates (CanConnect TypePath TypePathDir) = [].
Proof.
  destruct (CanConnect_verdict TypePath TypePathDir) as (_ & _ & H).
  split; [reflexivity|]. apply H. reflexivity.
Defined.

(** A collection never feeds a single-value socket: no connection from a
    list to a scalar other than [any] is allowed, with or without a conversion;
    and a scalar other than [any] reaches a list only by being wrapped. *)
Theorem list_scalar_separation from to :
  IsList from = true -> IsList to = false -> to <> TypeAny ->
  Allowed (CanConnect from to) = false /\
  Candidates (CanConnect to from) = match wrapTransform to from with Some w => [w] | None => [] end /\
  Direct (CanConnect to from) = false.
Proof.
  intros Hf Ht Hany. pose proof Hf as [e ->]%IsList_spec.
  assert (Het : ElementType to = None) by (unfold ElementType; by rewrite Ht).
  destruct (IsSubtypeOf_mixed (ListOf e) to) as [H1 H2]; [by rewrite ElementType_ListOf|done..|].
  assert (Hnil : forall l, (forall t, t ∈ l -> t ∈ transformRegistry) ->
    List.filter (fun t => IsSubtypeOf (ListOf e) (tFrom t) && IsSubtypeOf (tTo t) to) l = [] /\
    List.filter (fun t => IsSubtypeOf to (tFrom t) && IsSubtypeOf (tTo t) (ListOf e)) l = []).
  { induction l as [|t l IH]; intros Hl; [done|]. simpl.
    destruct (registry_scalar t) as (Hs1 & Hs2 & Ha1 & Ha2 & _); [apply Hl; by left|].
    destruct (IsSubtypeOf_mixed (ListOf e) (tFrom t)) as [-> _]; [by rewrite ElementType_ListOf|done..|].
    destruct (IsSubtypeOf_mixed (ListOf e) (tTo t)) as [_ ->]; [by rewrite ElementType_ListOf|done..|].
    rewrite andb_false_r. apply IH. intros u Hu. apply Hl. by right. }
  destruct (Hnil transformRegistry (fun _ H => H)) as [E1 E2].
  unfold Allowed, CanConnect. rewrite H1, H2, !SameRepresentation_eq, Het, ElementType_ListOf.
  unfold wrapTransform at 1 2. rewrite ElementType_ListOf.
  revert E1 E2. generalize transformRegistry as reg. intros reg E1 E2. simpl. rewrite E1, E2.
  split; [done|]. split; [|done]. by destruct (wrapTransform to (ListOf e)).
Qed.

Lemma list_scalar_separation_witness :
  Allowed (CanConnect TypePathListFile TypePathFile) = false.
Proof.
  apply (list_scalar_separation TypePathListFile TypePathFile);
    [reflexivity|reflexivity|discriminate].
Defined.
