(* ===== verification/Catalog.v ===== *)
(** The node-type catalog: src/internal/shared/workflow/catalog.go, the effects
    vocabulary of handler.go, and the catalog loader's immutability rule of
    src/internal/server/workflow/catalog/catalog.go.

    Entries are the generated WorkflowNodeType messages; a nil message pointer
    is [None]. [NewCatalog] validates every entry and indexes them by id. *)
From S2P Require Import Prelude Types.
From stdpp Require Import strings list gmap.
From Stdlib Require Import QArith ZArith Lia.
#[local] Open Scope nat_scope.

#[local] Open Scope go_scope.

(** ** Data *)

#[local] Set Warnings "-register-all".

(** structpb.Value, as [AsInterface] presents it; numbers are float64 there and
    rationals here. *)
Inductive Value : Type :=
| VNull
| VBool (b : bool)
| VNumber (q : Q)
| VString (s : string)
| VStruct (fields : list (string * Value))
| VList (values : list Value).

(** NodeKind is an open protobuf enum: [KindOther] is a number without a name. *)
Inductive NodeKind : Type :=
| KindTask
| KindStart
| KindEnd
| KindFail
| KindSource
| KindBranch
| KindForEach
| KindCollect
| KindParallel
| KindJoin
| KindBreak
| KindNote
| KindOther (n : Z).

#[export] Instance NodeKind_eq_dec : EqDecision NodeKind.
Proof. solve_decision. Defined.

(** Effects, with the unspecified zero value and unnamed numbers. *)
Inductive Effects : Type :=
| EffectsUnspecified
| EffectsRead
| EffectsWrite
| EffectsDestructive
| EffectsOther (n : Z).

#[export] Instance Effects_eq_dec : EqDecision Effects.
Proof. solve_decision. Defined.

Record ControlPorts : Type := { cpIn : list string; cpOut : list string; cpError : bool }.

(** The fields of WorkflowSocket the server reads. *)
Record Socket : Type := { sockName : string; sockType : string }.

(** The fields of WorkflowSetting the server reads. *)
Record Setting : Type := { setName : string; setDefault : option Value }.

(** The fields of WorkflowExecSpec the server reads. *)
Record ExecSpec : Type := { RunsOn : string; AgentSelector : string; execEffects : Effects }.

Record NodeType : Type := {
  ntId : string;
  ntType : string;
  ntName : string;
  ntKind : NodeKind;
  ntControl : option ControlPorts;
  ntDataIn : list Socket;
  ntDataOut : list Socket;
  ntSettings : list Setting;
  ntExec : option ExecSpec;
}.

Definition AgentSelectorPath : string := "path".
Definition AgentSelectorAny : string := "any".
Definition AgentSelectorSettingPrefix : string := "setting:".
Definition RunsOnServer : string := "server".
Definition RunsOnAgent : string := "agent".
Definition ErrorPort : string := "error".

(** ** Lookups on one entry *)

Definition EffectsValid (e : Effects) : bool :=
  bool_decide (e = EffectsRead) || bool_decide (e = EffectsWrite) ||
  bool_decide (e = EffectsDestructive).

Definition EffectsMutates (e : Effects) : bool :=
  bool_decide (e = EffectsWrite) || bool_decide (e = EffectsDestructive).

Definition RunsOnAgentNode (n : NodeType) : bool :=
  match ntExec n with
  | Some exec => String.eqb (RunsOn exec) RunsOnAgent
  | None => false
  end.

Definition findSocket (sockets : list Socket) (name : string) : option Socket :=
  List.find (fun socket => String.eqb (sockName socket) name) sockets.

Definition DataInSocket (n : NodeType) (name : string) : option Socket :=
  findSocket (ntDataIn n) name.

Definition DataOutSocket (n : NodeType) (name : string) : option Socket :=
  findSocket (ntDataOut n) name.

Fixpoint containsString (values : list string) (want : string) : bool :=
  match values with
  | [] => false
  | value :: rest => if String.eqb value want then true else containsString rest want
  end.

Definition HasControlIn (n : NodeType) (name : string) : bool :=
  match ntControl n with
  | Some control => containsString (cpIn control) name
  | None => false
  end.

Definition HasControlOut (n : NodeType) (name : string) : bool :=
  match ntControl n with
  | None => false
  | Some control =>
      if cpError control && String.eqb name ErrorPort then true
      else containsString (cpOut control) name
  end.

Definition findSetting (settings : list Setting) (name : string) : option Setting :=
  List.find (fun setting => String.eqb (setName setting) name) settings.

(** ** Validation of one entry *)

(** The loop of [duplicateProblems], with the set of names seen so far. *)
Fixpoint duplicateProblems_loop (where_ : string) (seen : gset string) (names : list string)
  : list string :=
  match names with
  | [] => []
  | name :: rest =>
      if String.eqb name "" then
        (where_ +:+ " has an entry with no name") :: duplicateProblems_loop where_ seen rest
      else
        (if decide (name ∈ seen) then [where_ +:+ " declares " +:+ name +:+ " more than once"] else [])
          ++ duplicateProblems_loop where_ ({[name]} ∪ seen) rest
  end.

Definition duplicateProblems (where_ : string) (names : list string) : list string :=
  duplicateProblems_loop where_ ∅ names.

(** The problems of the sockets of one direction that declare no type. *)
Definition untypedProblems (where_ : string) (sockets : list Socket) : list string :=
  flat_map (fun socket =>
    if String.eqb (sockType socket) "" then [where_ +:+ " " +:+ sockName socket +:+ " has no type"]
    else []) sockets.

Definition portProblems (n : NodeType) : list string :=
  let control := default {| cpIn := []; cpOut := []; cpError := false |} (ntControl n) in
  (if containsString (cpOut control) ErrorPort
   then ["control.out must not list " +:+ ErrorPort +:+ " — set control.error instead"] else [])
  ++ duplicateProblems "control.in" (cpIn control)
  ++ duplicateProblems "control.out" (cpOut control)
  ++ untypedProblems "dataIn" (ntDataIn n)
  ++ duplicateProblems "dataIn" (map sockName (ntDataIn n))
  ++ untypedProblems "dataOut" (ntDataOut n)
  ++ duplicateProblems "dataOut" (map sockName (ntDataOut n))
  ++ duplicateProblems "settings" (map setName (ntSettings n)).

(** The problems of an agent selector. *)
Definition selectorProblems (n : NodeType) (selector : string) : list string :=
  let valid := String.eqb selector "" || String.eqb selector AgentSelectorPath
    || String.eqb selector AgentSelectorAny
    || has_prefix AgentSelectorSettingPrefix selector in
  (if valid then [] else ["exec.agentSelector must be path, any, or setting:<name>"])
  ++ match cut_prefix selector AgentSelectorSettingPrefix with
     | Some settingName =>
         match findSetting (ntSettings n) settingName with
         | Some _ => []
         | None => ["exec.agentSelector names setting " +:+ settingName +:+
                    ", which this type does not declare"]
         end
     | None => []
     end.

(** The problems [ValidateNodeType] collects about [exec]. *)
Definition execProblems (n : NodeType) : list string :=
  match ntExec n with
  | None => ["exec is required"]
  | Some exec =>
      (if EffectsValid (execEffects exec) then []
       else ["exec.effects must be one of read, write, destructive"])
      ++ (if String.eqb (RunsOn exec) "" || String.eqb (RunsOn exec) RunsOnServer
             || String.eqb (RunsOn exec) RunsOnAgent then []
          else ["exec.runsOn must be server or agent"])
      ++ (if String.eqb (RunsOn exec) RunsOnAgent then
            selectorProblems n (AgentSelector exec)
          else [])
  end.

(** Every problem [ValidateNodeType] collects, in its order. *)
Definition nodeTypeProblems (n : NodeType) : list string :=
  (if String.eqb (ntId n) "" then ["id is required"] else [])
  ++ (if String.eqb (ntType n) "" then ["type is required"]
      else if negb (str_contains (ntType n) "/")
           then ["type must be namespaced, e.g. core/trickplay"] else [])
  ++ (if String.eqb (ntName n) "" then ["name is required"] else [])
  ++ execProblems n
  ++ portProblems n.

Definition ValidateNodeType (n : NodeType) : result unit :=
  match nodeTypeProblems n with
  | [] => Ok tt
  | problems =>
      Err ("node type " +:+ ntType n +:+ " (" +:+ ntId n +:+ "): " +:+ str_join "; " problems)
  end.

(** ** The catalog *)

Record Catalog : Type := { entries : gmap string NodeType; ordered : list NodeType }.

Definition ErrCatalogEmpty : string := "workflow: catalog contains no node types".

(** The loop of [NewCatalog]. *)
Fixpoint NewCatalog_loop (indexed : gmap string NodeType) (ordered_ : list NodeType)
    (todo : list NodeType) : result Catalog :=
  match todo with
  | [] => Ok {| entries := indexed; ordered := ordered_ |}
  | entry :: rest =>
      try _ := ValidateNodeType entry in
      match indexed !! ntId entry with
      | Some _ => Err ("workflow: catalog declares id " +:+ ntId entry +:+ " more than once")
      | None => NewCatalog_loop (<[ntId entry := entry]> indexed) (ordered_ ++ [entry]) rest
      end
  end.

Definition NewCatalog (entries_ : list NodeType) : result Catalog :=
  if (length entries_ =? 0)%nat then Err ErrCatalogEmpty
  else NewCatalog_loop ∅ [] entries_.

Definition Catalog_Lookup (c : Catalog) (id : string) : option NodeType := entries c !! id.

Definition LookupByType (c : Catalog) (nodeType : string) : option NodeType :=
  List.find (fun entry => String.eqb (ntType entry) nodeType) (ordered c).

Definition All (c : Catalog) : list NodeType := ordered c.

Definition Len (c : Catalog) : nat := size (entries c).

(** ** The loader *)

(** The loader keeps, per entry id, the hash of the content it was published
    with. Decoding protojson, the deterministic protobuf encoding and SHA-256
    are the environment's; what os.ReadFile returns is an argument of each
    call, since the file may be edited between two loads. *)
Class CatalogEnv : Type := {
  unmarshal : string -> result (list NodeType);
  marshal : NodeType -> result string;
  sha256hex : string -> string;
}.

Record Loader : Type := { lPath : string; lHashes : gmap string string }.

Definition NewLoader (path : string) : Loader := {| lPath := path; lHashes := ∅ |}.

Definition Loader_Path (l : Loader) : string := lPath l.

Section loader.
Context {CE : CatalogEnv}.

(** [checkImmutability]: the hashes of the entries before the one that fails
  stay recorded. *)
Fixpoint checkImmutability (hashes : gmap string string) (todo : list NodeType)
: result unit * gmap string string :=
match todo with
| [] => (Ok tt, hashes)
| entry :: rest =>
    match marshal entry with
    | Err e => (Err ("catalog: hashing " +:+ ntType entry +:+ " (" +:+ ntId entry +:+ "): " +:+ e), hashes)
    | Ok encoded =>
        let hash := sha256hex encoded in
        if (match hashes !! ntId entry with
            | Some previous => negb (String.eqb previous hash)
            | None => false
            end)
        then (Err ("catalog: " +:+ ntType entry +:+ " (" +:+ ntId entry +:+ ") changed — a catalog entry must not change silently once "
                +:+ "published, because runs in flight have frozen the previous definition; "
                +:+ "give it a new id instead"), hashes)
        else checkImmutability (<[ntId entry := hash]> hashes) rest
    end
end.

(** [Load], given what reading the file returned: the catalog or an error,
  and the loader afterwards. *)
Definition Load (file : result string) (l : Loader) : result Catalog * Loader :=
match file with
| Err e => (Err ("catalog: reading " +:+ lPath l +:+ ": " +:+ e), l)
| Ok data =>
    match unmarshal data with
    | Err e => (Err ("catalog: parsing " +:+ lPath l +:+ ": " +:+ e), l)
    | Ok nodeTypes =>
        match NewCatalog nodeTypes with
        | Err e => (Err ("catalog: " +:+ lPath l +:+ ": " +:+ e), l)
        | Ok loaded =>
            let '(err, hashes) := checkImmutability (lHashes l) nodeTypes in
            (match err with Err e => Err e | Ok _ => Ok loaded end,
             {| lPath := lPath l; lHashes := hashes |})
        end
    end
end.
End loader.

(** * One entry *)

Lemma containsString_spec values want : containsString values want = true <-> want ∈ values.
Proof.
  induction values as [|v values IH]; simpl; [by rewrite elem_of_nil|].
  rewrite elem_of_cons. destruct (String.eqb_spec v want) as [->|Hne]; [naive_solver|].
  rewrite IH. naive_solver.
Qed.

Lemma find_name {A} (name : A -> string) l want x :
  List.find (fun y => String.eqb (name y) want) l = Some x -> x ∈ l /\ name x = want.
Proof.
  intros [Hin Heq]%find_some. split; [by apply list_elem_of_In|by apply String.eqb_eq].
Qed.

Lemma find_name_None {A} (name : A -> string) l want :
  List.find (fun y => String.eqb (name y) want) l = None <-> want ∉ map name l.
Proof.
  induction l as [|y l IH]; simpl; [rewrite elem_of_nil; naive_solver|].
  rewrite not_elem_of_cons. destruct (String.eqb_spec (name y) want) as [->|Hne]; [naive_solver|].
  rewrite IH. naive_solver.
Qed.

(** With distinct names the lookup finds the one entry of that name. *)
Lemma find_name_NoDup {A} (name : A -> string) l x :
  NoDup (map name l) -> x ∈ l -> List.find (fun y => String.eqb (name y) (name x)) l = Some x.
Proof.
  induction l as [|y l IH]; simpl; [by intros _ ?%elem_of_nil|].
  intros [Hni Hnd]%NoDup_cons [->|Hin]%elem_of_cons; [by rewrite String.eqb_refl|].
  destruct (String.eqb_spec (name y) (name x)) as [He|_]; [|auto].
  destruct Hni. rewrite He. apply list_elem_of_fmap. eauto.
Qed.

Lemma duplicateProblems_loop_nil where_ seen names :
  duplicateProblems_loop where_ seen names = [] <->
  "" ∉ names /\ NoDup names /\ forall name, name ∈ names -> name ∉ seen.
Proof.
  revert seen; induction names as [|name names IH]; intros seen; simpl.
  { split; [|done]. intros _. split; [apply not_elem_of_nil|]. split; [constructor|].
    by intros ? ?%elem_of_nil. }
  rewrite not_elem_of_cons, NoDup_cons.
  destruct (String.eqb_spec name "") as [->|Hne]; [split; [done|naive_solver]|].
  case_decide as Hin.
  - split; [done|]. intros (_ & _ & H). destruct (H name); [by left|done].
  - simpl. rewrite IH. split.
    + intros (H1 & H2 & H3). split; [done|]. split.
      * split; [|done]. intros Hn. apply H3 in Hn. set_solver.
      * intros n [->|Hn]%elem_of_cons; [done|]. apply H3 in Hn. set_solver.
    + intros ([_ H1] & [H2 H3] & H4). split_and!; [done..|].
      intros n Hn. rewrite not_elem_of_union, not_elem_of_singleton. split.
      * by intros ->.
      * apply H4. by right.
Qed.

Lemma duplicateProblems_nil where_ names :
  duplicateProblems where_ names = [] <-> "" ∉ names /\ NoDup names.
Proof.
  unfold duplicateProblems. rewrite duplicateProblems_loop_nil. set_solver.
Qed.

Lemma untypedProblems_nil where_ sockets :
  untypedProblems where_ sockets = [] <-> forall socket, socket ∈ sockets -> sockType socket <> "".
Proof.
  unfold untypedProblems. induction sockets as [|socket sockets IH]; simpl.
  { split; [|done]. by intros _ ? ?%elem_of_nil. }
  destruct (String.eqb_spec (sockType socket) "") as [He|Hne]; simpl.
  - split; [done|]. intros H. by destruct (H socket); [left|].
  - rewrite IH. split.
    + intros H x [->|Hx]%elem_of_cons; auto.
    + intros H x Hx. apply H. by right.
Qed.

Lemma app_nil {A} (l k : list A) : l ++ k = [] <-> l = [] /\ k = [].
Proof. destruct l; naive_solver. Qed.

Lemma if_nil {A} (b : bool) (x : A) : (if b then [x] else []) = [] <-> b = false.
Proof. by destruct b. Qed.

Lemma if_nil' {A} (b : bool) (x : A) : (if b then [] else [x]) = [] <-> b = true.
Proof. by destruct b. Qed.

Lemma portProblems_nil n :
  portProblems n = [] <->
  (forall control, ntControl n = Some control ->
     ErrorPort ∉ cpOut control /\
     "" ∉ cpIn control /\ NoDup (cpIn control) /\ "" ∉ cpOut control /\ NoDup (cpOut control)) /\
  ("" ∉ map sockName (ntDataIn n) /\ NoDup (map sockName (ntDataIn n)) /\
    forall socket, socket ∈ ntDataIn n -> sockType socket <> "") /\
  ("" ∉ map sockName (ntDataOut n) /\ NoDup (map sockName (ntDataOut n)) /\
    forall socket, socket ∈ ntDataOut n -> sockType socket <> "") /\
  "" ∉ map setName (ntSettings n) /\ NoDup (map setName (ntSettings n)).
Proof.
  unfold portProblems.
  rewrite !app_nil, !duplicateProblems_nil, !untypedProblems_nil, if_nil.
  assert (Hc : forall l, containsString l ErrorPort = false <-> ErrorPort ∉ l).
  { intros l. rewrite <- containsString_spec. by destruct containsString; naive_solver. }
  rewrite Hc. destruct (ntControl n) as [control|]; simpl.
  - naive_solver.
  - assert (ErrorPort ∉ ([] : list string) /\ "" ∉ ([] : list string) /\ NoDup ([] : list string))
      as (? & ? & ?) by (split_and!; [apply not_elem_of_nil..|constructor]).
    naive_solver.
Qed.

Lemma EffectsValid_spec e :
  EffectsValid e = true <-> e ∈ [EffectsRead; EffectsWrite; EffectsDestructive].
Proof.
  unfold EffectsValid. rewrite !orb_true_iff, !bool_decide_eq_true, !elem_of_cons, elem_of_nil.
  tauto.
Qed.

(** A usable agent selector: one of the two strategies, the default, or a
    setting the entry declares. *)
Definition wf_selector (n : NodeType) (selector : string) : Prop :=
  selector ∈ [""; AgentSelectorPath; AgentSelectorAny] \/
  exists settingName, selector = AgentSelectorSettingPrefix +:+ settingName /\
    settingName ∈ map setName (ntSettings n).

Lemma selectorProblems_nil n selector :
  selectorProblems n selector = [] <-> wf_selector n selector.
Proof.
  unfold selectorProblems, wf_selector, findSetting.
  rewrite app_nil, if_nil', !orb_true_iff, !String.eqb_eq, !elem_of_cons, elem_of_nil.
  destruct (cut_prefix selector AgentSelectorSettingPrefix) as [name|] eqn:Hcut.
  - apply cut_prefix_Some in Hcut. rewrite Hcut, has_prefix_app.
    destruct (List.find _ _) as [setting|] eqn:Hf.
    + apply find_name in Hf as [Hin <-]. split; [|naive_solver].
      intros _. right. exists (setName setting). split; [done|]. apply list_elem_of_fmap. eauto.
    + apply find_name_None in Hf. split; [by intros [_ ?]|].
      intros [H|(name' & Heq%str_app_inv_l & Hin)]; [|by subst].
      by destruct H as [H|[H|[H|[]]]].
  - unfold cut_prefix in Hcut.
    destruct (has_prefix AgentSelectorSettingPrefix selector) eqn:Hp; [done|].
    split; [naive_solver|]. intros [H|(name' & Hs & _)]; [naive_solver|].
    by rewrite Hs, has_prefix_app in Hp.
Qed.

(** A usable [exec] block. *)
Definition wf_ExecSpec (n : NodeType) (exec : ExecSpec) : Prop :=
  execEffects exec ∈ [EffectsRead; EffectsWrite; EffectsDestructive] /\
  RunsOn exec ∈ [""; RunsOnServer; RunsOnAgent] /\
  (RunsOn exec = RunsOnAgent -> wf_selector n (AgentSelector exec)).

Lemma execProblems_nil n :
  execProblems n = [] <-> exists exec, ntExec n = Some exec /\ wf_ExecSpec n exec.
Proof.
  unfold execProblems, wf_ExecSpec.
  destruct (ntExec n) as [exec|]; [|split; [done|by intros (? & ? & _)]].
  rewrite !app_nil, !if_nil', EffectsValid_spec, !orb_true_iff, !String.eqb_eq.
  assert (Hruns : (RunsOn exec = "" \/ RunsOn exec = RunsOnServer) \/ RunsOn exec = RunsOnAgent <->
    RunsOn exec ∈ [""; RunsOnServer; RunsOnAgent]).
  { rewrite !elem_of_cons, elem_of_nil. tauto. }
  assert (Hsel : (if String.eqb (RunsOn exec) RunsOnAgent
      then selectorProblems n (AgentSelector exec) else []) = [] <->
    (RunsOn exec = RunsOnAgent -> wf_selector n (AgentSelector exec))).
  { destruct (String.eqb_spec (RunsOn exec) RunsOnAgent); rewrite ?selectorProblems_nil; naive_solver. }
  rewrite Hsel, Hruns. split; [eauto|]. by intros (exec' & [= <-] & H).
Qed.

Lemma ValidateNodeType_Ok n : ValidateNodeType n = Ok tt <-> nodeTypeProblems n = [].
Proof. unfold ValidateNodeType. by destruct (nodeTypeProblems n). Qed.

(** What the rest of the system may assume of a catalog entry. *)
Record wf_NodeType (n : NodeType) : Prop := {
  wf_id : ntId n <> "";
  wf_type : ntType n <> "" /\ str_contains (ntType n) "/" = true;
  wf_name : ntName n <> "";
  wf_exec : exists exec, ntExec n = Some exec /\ wf_ExecSpec n exec;
  wf_control : forall control, ntControl n = Some control ->
    ErrorPort ∉ cpOut control /\
    "" ∉ cpIn control /\ NoDup (cpIn control) /\ "" ∉ cpOut control /\ NoDup (cpOut control);
  wf_dataIn : "" ∉ map sockName (ntDataIn n) /\ NoDup (map sockName (ntDataIn n)) /\
    forall socket, socket ∈ ntDataIn n -> sockType socket <> "";
  wf_dataOut : "" ∉ map sockName (ntDataOut n) /\ NoDup (map sockName (ntDataOut n)) /\
    forall socket, socket ∈ ntDataOut n -> sockType socket <> "";
  wf_settings : "" ∉ map setName (ntSettings n) /\ NoDup (map setName (ntSettings n));
}.

Lemma nodeTypeProblems_nil n : nodeTypeProblems n = [] <-> wf_NodeType n.
Proof.
  unfold nodeTypeProblems.
  rewrite !app_nil, !if_nil, execProblems_nil, portProblems_nil, !String.eqb_neq.
  assert ((if String.eqb (ntType n) "" then ["type is required"]
      else if negb (str_contains (ntType n) "/")
           then ["type must be namespaced, e.g. core/trickplay"] else []) = [] <->
    ntType n <> "" /\ str_contains (ntType n) "/" = true) as ->.
  { destruct (String.eqb_spec (ntType n) ""); [naive_solver|]. rewrite if_nil, negb_false_iff. tauto. }
  split.
  - intros (H1 & H2 & H3 & H4 & H5 & H6 & H7 & H8). by constructor.
  - intros []. done.
Qed.

(** * The catalog *)

(** The catalog built from accepted entries. *)
Definition catalog_of (l : list NodeType) : Catalog :=
  {| entries := list_to_map (map (fun e => (ntId e, e)) l); ordered := l |}.

Lemma NewCatalog_loop_Ok done_ todo c :
  NoDup (map ntId done_) ->
  NewCatalog_loop (list_to_map (map (fun e => (ntId e, e)) done_)) done_ todo = Ok c <->
  Forall wf_NodeType todo /\ NoDup (map ntId (done_ ++ todo)) /\ c = catalog_of (done_ ++ todo).
Proof.
  revert done_; induction todo as [|entry todo IH]; intros done_ Hnd; simpl.
  { rewrite app_nil_r. split; [intros [= <-]; auto|]. by intros (_ & _ & ->). }
  unfold rbind. rewrite Forall_cons, <- nodeTypeProblems_nil, <- ValidateNodeType_Ok.
  destruct (ValidateNodeType entry) as [[]|e]; [|split; [done|by intros ([? _] & _)]].
  assert (Hfst : forall l : list NodeType, (map (fun e => (ntId e, e)) l).*1 = map ntId l).
  { intros l. by rewrite <- list_fmap_compose. }
  destruct (list_to_map _ !! ntId entry) as [prev|] eqn:Hl.
  { split; [done|]. intros (_ & Hn & _). exfalso.
    apply elem_of_list_to_map_2 in Hl. apply list_elem_of_fmap in Hl as (e' & [= He ->] & Hin).
    rewrite map_app in Hn. apply NoDup_app in Hn as (_ & Hdisj & _).
    apply (Hdisj (ntId entry)); [|left]. rewrite He. apply list_elem_of_fmap. eauto. }
  assert (Hni : ntId entry ∉ map ntId done_).
  { apply not_elem_of_list_to_map_2 in Hl. by rewrite Hfst in Hl. }
  assert (Hnd' : NoDup (map ntId (done_ ++ [entry]))).
  { rewrite map_app. apply NoDup_app. split; [done|]. split; [|apply NoDup_singleton].
    intros x Hx ->%list_elem_of_singleton. done. }
  replace (<[ntId entry:=entry]> (list_to_map (map (fun e => (ntId e, e)) done_)))
    with (list_to_map (map (fun e => (ntId e, e)) (done_ ++ [entry])) : gmap string NodeType).
  2:{ rewrite map_app, list_to_map_app. simpl. rewrite insert_empty.
      rewrite map_union_comm; [by rewrite insert_union_singleton_l|].
      by apply map_disjoint_singleton_r. }
  rewrite IH by done. rewrite <- app_assoc. simpl. tauto.
Qed.

Lemma catalog_of_Lookup l id e :
  NoDup (map ntId l) -> Catalog_Lookup (catalog_of l) id = Some e <-> e ∈ l /\ ntId e = id.
Proof.
  intros Hnd. unfold Catalog_Lookup, catalog_of; simpl.
  assert (Hnd' : NoDup (map (fun e => (ntId e, e)) l).*1).
  { by rewrite <- list_fmap_compose. }
  rewrite <- (elem_of_list_to_map _ _ _ Hnd'), list_elem_of_fmap. naive_solver.
Qed.

Lemma catalog_of_Len l : NoDup (map ntId l) -> Len (catalog_of l) = length l.
Proof.
  intros Hnd. unfold Len, catalog_of; simpl.
  induction l as [|e l IH]; simpl; [by rewrite map_size_empty|].
  apply NoDup_cons in Hnd as [Hni Hnd]. rewrite map_size_insert_None, IH; [done..|].
  apply not_elem_of_list_to_map_1. by rewrite <- list_fmap_compose.
Qed.

Lemma NewCatalog_Ok l c :
  NewCatalog l = Ok c <->
  l <> [] /\ Forall wf_NodeType l /\ NoDup (map ntId l) /\ c = catalog_of l.
Proof.
  unfold NewCatalog. destruct l as [|e l]; [split; [done|naive_solver]|].
  cbn [length Nat.eqb]. pose proof (NewCatalog_loop_Ok [] (e :: l) c (NoDup_nil_2)) as H.
  simpl in H. change (list_to_map []) with (∅ : gmap string NodeType) in H.
  rewrite H. split; [|naive_solver]. intros. split; [done|naive_solver].
Qed.

(** NewCatalog accepts exactly the non-empty lists of well-formed entries
    with pairwise different ids, and then holds exactly those entries: every
    entry is found under its own id, nothing is found under another id, and
    All serves them in the order given. *)
Theorem NewCatalog_spec entries_ c :
  NewCatalog entries_ = Ok c <->
  entries_ <> [] /\ Forall wf_NodeType entries_ /\ NoDup (map ntId entries_) /\
  All c = entries_ /\ Len c = length entries_ /\
  forall id e, Catalog_Lookup c id = Some e <-> e ∈ entries_ /\ ntId e = id.
Proof.
  rewrite NewCatalog_Ok. split.
  - intros (H1 & H2 & H3 & ->). split_and!; [done..|by apply catalog_of_Len|].
    intros id e. by apply catalog_of_Lookup.
  - intros (H1 & H2 & H3 & H4 & _ & H5). split_and!; [done..|].
    destruct c as [m o]. unfold All, Catalog_Lookup in *. simpl in *. subst.
    unfold catalog_of. f_equal. apply map_eq. intros id. apply option_eq. intros e.
    rewrite H5. symmetry. by apply (catalog_of_Lookup entries_).
Qed.

(** ValidateNodeType accepts an entry exactly when it satisfies every
    invariant the rest of the system assumes of it. *)
Theorem ValidateNodeType_spec n : is_ok (ValidateNodeType n) = true <-> wf_NodeType n.
Proof.
  rewrite <- nodeTypeProblems_nil. unfold ValidateNodeType.
  by destruct (nodeTypeProblems n).
Qed.

(** * Immutability across reloads *)

Section immutability.
Context {CE : CatalogEnv}.

(** What a loader has recorded of an entry. *)
Definition recorded (hashes : gmap string string) (e : NodeType) : Prop :=
exists encoded, marshal e = Ok encoded /\ hashes !! ntId e = Some (sha256hex encoded).

(** One pass never changes a recorded hash, and an accepted entry is recorded. *)
Lemma checkImmutability_mono hashes todo err hashes' id h :
checkImmutability hashes todo = (err, hashes') ->
hashes !! id = Some h -> hashes' !! id = Some h.
Proof.
revert hashes. induction todo as [|e todo IH]; intros hashes; simpl; [by intros [= <- <-]|].
destruct (marshal e) as [encoded|msg]; [|by intros [= <- <-]].
destruct (hashes !! ntId e) as [previous|] eqn:Hp.
- destruct (String.eqb_spec previous (sha256hex encoded)) as [->|Hne]; simpl; [|by intros [= <- <-]].
  intros Hc Hid. apply (IH _ Hc). by rewrite insert_id.
- intros Hc Hid. apply (IH _ Hc). rewrite lookup_insert_ne; [done|]. congruence.
Qed.

Lemma checkImmutability_recorded hashes todo hashes' :
checkImmutability hashes todo = (Ok tt, hashes') -> Forall (recorded hashes') todo.
Proof.
revert hashes. induction todo as [|e todo IH]; intros hashes; simpl; [constructor|].
destruct (marshal e) as [encoded|msg] eqn:Hm; [|done].
destruct (match hashes !! ntId e with Some _ => _ | None => _ end); [done|].
intros Hc. constructor; [|eauto]. exists encoded. split; [done|].
eapply checkImmutability_mono; [exact Hc|]. apply lookup_insert_eq.
Qed.

(** A history of calls to [Load], each against a possibly different file and
  each with any outcome. *)
Inductive history : Loader -> Loader -> Prop :=
| history_refl l : history l l
| history_step l file r l1 l2 : Load file l = (r, l1) -> history l1 l2 -> history l l2.

Lemma Load_mono file l r l' id h :
Load file l = (r, l') -> lHashes l !! id = Some h -> lHashes l' !! id = Some h.
Proof.
unfold Load. destruct file as [data|]; [|by intros [= _ <-]].
destruct (unmarshal data) as [nodeTypes|]; [|by intros [= _ <-]].
destruct (NewCatalog nodeTypes) as [loaded|]; [|by intros [= _ <-]].
destruct (checkImmutability _ _) as [err hashes'] eqn:Hc. intros [= _ <-]. simpl.
by eapply checkImmutability_mono.
Qed.

Lemma history_mono l l' id h :
history l l' -> lHashes l !! id = Some h -> lHashes l' !! id = Some h.
Proof. induction 1 as [|l file r l1 l2 HL _ IH]; [done|]. intros H. by eapply IH, Load_mono. Qed.

Lemma Load_recorded file l c l' :
Load file l = (Ok c, l') -> Forall (recorded (lHashes l')) (All c).
Proof.
unfold Load. destruct file as [data|]; [|done].
destruct (unmarshal data) as [nodeTypes|]; [|done].
destruct (NewCatalog nodeTypes) as [loaded|] eqn:Hn; [|done].
destruct (checkImmutability _ _) as [err hashes'] eqn:Hc.
destruct err as [[]|]; [|done]. intros [= <- <-]. simpl.
apply NewCatalog_Ok in Hn as (_ & _ & _ & ->). by eapply checkImmutability_recorded.
Qed.

(** a published entry never changes silently. However many loads, failed
  or not, and whatever edits of the file lie between two successful loads of
  one loader, an id both catalogs carry stands for contents with the same
  hash in both. *)
Theorem catalog_immutable f1 l0 c1 l1 l2 f2 c2 l3 e1 e2 :
Load f1 l0 = (Ok c1, l1) -> history l1 l2 -> Load f2 l2 = (Ok c2, l3) ->
e1 ∈ All c1 -> e2 ∈ All c2 -> ntId e1 = ntId e2 ->
exists b1 b2, marshal e1 = Ok b1 /\ marshal e2 = Ok b2 /\ sha256hex b1 = sha256hex b2.
Proof.
intros H1 Hh H2 Hin1 Hin2 Hid.
pose proof (Load_recorded _ _ _ _ H1) as R1. pose proof (Load_recorded _ _ _ _ H2) as R2.
rewrite Forall_forall in R1, R2.
destruct (R1 e1 Hin1) as (b1 & M1 & S1). destruct (R2 e2 Hin2) as (b2 & M2 & S2).
exists b1, b2. split_and!; [done..|].
apply (history_mono _ _ _ _ Hh), (Load_mono _ _ _ _ _ _ H2) in S1.
rewrite Hid in S1. congruence.
Qed.
End immutability.

(** A small catalog, and an environment that decodes to it: the encoding is the
    name and the hash the identity. *)
Module Sample.
Definition exec_read : ExecSpec :=
{| RunsOn := "server"; AgentSelector := ""; execEffects := EffectsRead |}.

Definition start : NodeType :=
{| ntId := "id-start"; ntType := "core/start"; ntName := "Start"; ntKind := KindStart;
   ntControl := Some {| cpIn := []; cpOut := ["next"]; cpError := false |};
   ntDataIn := []; ntDataOut := []; ntSettings := []; ntExec := Some exec_read |}.

Definition finish : NodeType :=
{| ntId := "id-end"; ntType := "core/end"; ntName := "End"; ntKind := KindEnd;
   ntControl := Some {| cpIn := ["in"]; cpOut := []; cpError := false |};
   ntDataIn := []; ntDataOut := []; ntSettings := []; ntExec := Some exec_read |}.

#[export] Instance env : CatalogEnv := {|
unmarshal := fun data => if String.eqb data "" then Err "empty" else Ok [start; finish];
marshal := fun n => Ok (ntName n);
sha256hex := fun s => s;
|}.
End Sample.

Lemma catalog_immutable_witness :
  exists b1 b2, marshal (CatalogEnv := Sample.env) Sample.start = Ok b1 /\
    marshal (CatalogEnv := Sample.env) Sample.start = Ok b2 /\
    sha256hex (CatalogEnv := Sample.env) b1 = sha256hex (CatalogEnv := Sample.env) b2.
Proof.
  set (l0 := NewLoader "catalog.json").
  pose (l1 := (Load (CE := Sample.env) (Ok "v1") l0).2).
  pose (l2 := (Load (CE := Sample.env) (Err "gone") l1).2).
  pose (l3 := (Load (CE := Sample.env) (Ok "v2") l2).2).
  pose (c := catalog_of [Sample.start; Sample.finish]).
  apply (catalog_immutable (CE := Sample.env) (Ok "v1") l0 c l1 l2 (Ok "v2") c l3
           Sample.start Sample.start).
  - vm_compute. reflexivity.
  - apply (history_step (CE := Sample.env) l1 (Err "gone") (Err "catalog: reading catalog.json: gone") l2 l2).
    + vm_compute. reflexivity.
    + apply history_refl.
  - vm_compute. reflexivity.
  - left.
  - left.
  - reflexivity.
Defined.
