(* ===== verification/Graph.v ===== *)
(** The stored workflow graph: src/internal/shared/workflow/graph.go.

    Nodes and edges are the generated metarr.v1 messages, reduced to the fields
    the server reads (positions, viewport, promoted settings and unknown extra
    content only travel through). The two ends of an edge are messages that a
    request may leave out; [edgeFrom] and [edgeTo] are what is read of them. *)
From S2P Require Import Prelude Catalog.
From stdpp Require Import strings list gmap.
From Stdlib Require Import ZArith.

Definition SchemaVersion : Z := 1.

(** EdgeKind is an open protobuf enum. *)
Inductive EdgeKind : Type :=
| EdgeKindUnspecified
| EdgeControl
| EdgeData
| EdgeKindOther (n : Z).

#[export] Instance EdgeKind_eq_dec : EqDecision EdgeKind.
Proof. solve_decision. Defined.

Record Endpoint : Type := { epNode : string; epPort : string }.

Record Edge : Type := {
  edgeId : string;
  edgeKind : EdgeKind;
  edgeFromMessage : option Endpoint;
  edgeToMessage : option Endpoint;
  edgeTransform : string;
}.

(** The code reads through the two pointers without a look at them, first in
    checkPortsExist, which panics where one is missing ([has_ends]); past it both
    are there, and the default is never read. *)
Definition edgeFrom (edge : Edge) : Endpoint := default {| epNode := ""; epPort := "" |} (edgeFromMessage edge).
Definition edgeTo (edge : Edge) : Endpoint := default {| epNode := ""; epPort := "" |} (edgeToMessage edge).

Definition has_ends (edge : Edge) : bool :=
  match edgeFromMessage edge, edgeToMessage edge with
  | Some _, Some _ => true
  | _, _ => false
  end.

Record Node : Type := {
  nodeId : string;
  nodeType : string;
  nodeCatalogId : string;
  nodeLabel : string;
  nodeSettings : option (list (string * Value));
}.

Record Graph : Type := {
  graphSchemaVersion : Z;
  graphNodes : list Node;
  graphEdges : list Edge;
}.

(** [NodeByID]: a repeated id keeps the last node. *)
Definition NodeByID (g : Graph) : gmap string Node :=
  foldl (fun indexed node => <[nodeId node := node]> indexed) ∅ (graphNodes g).

Definition edgesOfKind (g : Graph) (kind : EdgeKind) : list Edge :=
  List.filter (fun edge => bool_decide (edgeKind edge = kind)) (graphEdges g).

Definition ControlEdges (g : Graph) : list Edge := edgesOfKind g EdgeControl.

Definition DataEdges (g : Graph) : list Edge := edgesOfKind g EdgeData.

(** Appends [v] to the list a Go [map[string][]T] holds at [k]. *)
Definition map_append {V} (k : string) (v : V) (m : gmap string (list V)) : gmap string (list V) :=
  <[k := default [] (m !! k) ++ [v]]> m.

(** Groups a list by a key, in the order of the list. *)
Definition group_by {A V} (key : A -> string) (val : A -> V) (l : list A) : gmap string (list V) :=
  foldl (fun m a => map_append (key a) (val a) m) ∅ l.

Definition ControlSuccessors (g : Graph) : gmap string (list string) :=
  group_by (fun e => epNode (edgeFrom e)) (fun e => epNode (edgeTo e)) (ControlEdges g).

Definition ControlPredecessors (g : Graph) : gmap string (list string) :=
  group_by (fun e => epNode (edgeTo e)) (fun e => epNode (edgeFrom e)) (ControlEdges g).

(** * Facts *)

Lemma elem_of_edgesOfKind g kind e :
  e ∈ edgesOfKind g kind <-> e ∈ graphEdges g /\ edgeKind e = kind.
Proof.
  unfold edgesOfKind. by rewrite !list_elem_of_In, filter_In, bool_decide_eq_true.
Qed.

Lemma elem_of_ControlEdges g e : e ∈ ControlEdges g <-> e ∈ graphEdges g /\ edgeKind e = EdgeControl.
Proof. apply elem_of_edgesOfKind. Qed.

Lemma elem_of_DataEdges g e : e ∈ DataEdges g <-> e ∈ graphEdges g /\ edgeKind e = EdgeData.
Proof. apply elem_of_edgesOfKind. Qed.

Section group_by.
Context {A V : Type} (key : A -> string) (val : A -> V).

(** A group is the sublist of the elements with its key. *)
Lemma group_by_lookup l k :
default [] (group_by key val l !! k) =
map val (List.filter (fun a => String.eqb (key a) k) l).
Proof.
unfold group_by. induction l as [|a l IH] using rev_ind; [done|].
rewrite foldl_app, List.filter_app, map_app. simpl. unfold map_append.
destruct (String.eqb_spec (key a) k) as [<-|Hne].
- rewrite lookup_insert_eq. simpl. f_equal. exact IH.
- rewrite lookup_insert_ne, app_nil_r by done. exact IH.
Qed.

Lemma group_by_Some l k vs :
group_by key val l !! k = Some vs ->
vs = map val (List.filter (fun a => String.eqb (key a) k) l) /\ vs <> [].
Proof.
intros H. split.
- pose proof (group_by_lookup l k) as Hl. by rewrite H in Hl.
- revert vs H. unfold group_by. induction l as [|a l IH] using rev_ind; intros vs; [done|].
  rewrite foldl_app. simpl. unfold map_append.
  destruct (decide (key a = k)) as [<-|Hne].
  + rewrite lookup_insert_eq. intros [= <-]. by destruct (default _ _).
  + rewrite lookup_insert_ne by done. apply IH.
Qed.

Lemma elem_of_group_by l k v :
v ∈ default [] (group_by key val l !! k) <-> exists a, a ∈ l /\ key a = k /\ val a = v.
Proof.
rewrite group_by_lookup, list_elem_of_fmap. split.
- intros (a & -> & Ha). rewrite list_elem_of_In, filter_In, String.eqb_eq in Ha.
  destruct Ha. exists a. by rewrite list_elem_of_In.
- intros (a & Ha & Hk & <-). exists a. split; [done|].
  rewrite list_elem_of_In, filter_In, String.eqb_eq. by rewrite <- list_elem_of_In.
Qed.

Lemma group_by_is_Some l k :
is_Some (group_by key val l !! k) <-> exists a, a ∈ l /\ key a = k.
Proof.
split.
- intros [vs H]. apply group_by_Some in H as [-> H].
  destruct (List.filter _ l) as [|a l'] eqn:E; [done|].
  assert (In a (List.filter (fun a => String.eqb (key a) k) l)) as Ha by (rewrite E; by left).
  rewrite filter_In, String.eqb_eq, <- list_elem_of_In in Ha. naive_solver.
- intros (a & Ha & Hk). destruct (group_by key val l !! k) as [vs|] eqn:E; [eauto|].
  assert (val a ∈ default [] (group_by key val l !! k)) as H by (apply elem_of_group_by; eauto).
  rewrite E in H. by apply elem_of_nil in H.
Qed.
End group_by.

Lemma elem_of_ControlSuccessors g n m :
  m ∈ default [] (ControlSuccessors g !! n) <->
  exists e, e ∈ ControlEdges g /\ epNode (edgeFrom e) = n /\ epNode (edgeTo e) = m.
Proof. apply elem_of_group_by. Qed.

Lemma NodeByID_lookup g id node : NodeByID g !! id = Some node -> node ∈ graphNodes g /\ nodeId node = id.
Proof.
  unfold NodeByID. induction (graphNodes g) as [|n l IH] using rev_ind; [done|].
  rewrite foldl_app. simpl. destruct (decide (nodeId n = id)) as [<-|Hne].
  - rewrite lookup_insert_eq. intros [= ->]. rewrite elem_of_app, list_elem_of_singleton. auto.
  - rewrite lookup_insert_ne by done. intros [H ->]%IH. rewrite elem_of_app. auto.
Qed.
