(* ===== verification/Analysis.v ===== *)
(** The validator's working state: the [analysis] struct of
    src/internal/server/workflow/validate/validate.go, the diagnostics it
    reports, and the node-type resolution every later pass reads.

    The Go passes append to one shared slice; here each pass returns the
    diagnostics it appends, and [Validate.Graph] concatenates them in the order
    the passes run. *)
From S2P Require Import Prelude Catalog Graph.
From stdpp Require Import strings list gmap.
From Stdlib Require Import ZArith.

Inductive Severity : Type := SeverityError | SeverityWarning.

#[export] Instance Severity_eq_dec : EqDecision Severity.
Proof. solve_decision. Defined.

Record Diagnostic : Type := {
  dSeverity : Severity;
  dCode : string;
  dMessage : string;
  dNodeIds : list string;
  dEdgeIds : list string;
  dWitnessPath : list string;
}.

(** [analysis.report]: a diagnostic with no witness path. *)
Definition report (severity : Severity) (code message : string) (nodeIDs edgeIDs : list string)
  : Diagnostic :=
  {| dSeverity := severity; dCode := code; dMessage := message;
     dNodeIds := nodeIDs; dEdgeIds := edgeIDs; dWitnessPath := [] |}.

(** What every pass reads: the graph, its nodes by id, and the resolved type of
    each node id. *)
Record analysis : Type := {
  a_graph : Graph;
  a_nodes : gmap string Node;
  a_types : gmap string NodeType;
}.

(** ** Resolving node types *)

(** How [checkNodeTypes] resolves one node: by catalog id, or by type for a
    node saved before entries carried one. *)
Definition resolveNode (catalog : Catalog) (node : Node) : option NodeType :=
  match Catalog_Lookup catalog (nodeCatalogId node) with
  | Some nodeType => Some nodeType
  | None =>
      if String.eqb (nodeCatalogId node) "" then LookupByType catalog (nodeType node) else None
  end.

Definition missingType (node : Node) : Diagnostic :=
  report SeverityError "type.missing"
    ("No node type " +:+ nodeType node +:+ " is installed, so this node cannot run. Its settings and connections are preserved.")
    [nodeId node] [].

(** The [types] map [checkNodeTypes] fills. *)
Definition resolvedTypes (catalog : Catalog) (nodes : list Node) : gmap string NodeType :=
  foldl (fun types node =>
    match resolveNode catalog node with
    | Some nodeType => <[nodeId node := nodeType]> types
    | None => types
    end) ∅ nodes.

(** The diagnostics [checkNodeTypes] reports. *)
Definition checkNodeTypes (catalog : Catalog) (nodes : list Node) : list Diagnostic :=
  flat_map (fun node =>
    match resolveNode catalog node with
    | Some _ => []
    | None => [missingType node]
    end) nodes.

(** [newAnalysis], with [types] as [checkNodeTypes] leaves it: nothing reads it
    before that pass. *)
Definition newAnalysis (graph : Graph) (catalog : Catalog) : analysis :=
  {| a_graph := graph; a_nodes := NodeByID graph;
     a_types := resolvedTypes catalog (graphNodes graph) |}.

Section queries.
Context (a : analysis).

(** The kind of a node, when its type resolved. *)
Definition kindOf (nodeID : string) : option NodeKind := ntKind <$> a_types a !! nodeID.

(** The test [resolved && nodeType.Kind == kind]. *)
Definition hasKind (kind : NodeKind) (nodeID : string) : bool :=
bool_decide (kindOf nodeID = Some kind).

(** [analysis.executable]. *)
Definition executable (nodeID : string) : bool :=
match a_types a !! nodeID with
| None => false
| Some nodeType =>
    negb (bool_decide (ntKind nodeType = KindNote)) &&
    negb (bool_decide (ntKind nodeType = KindSource))
end.

(** The ids of the nodes of one kind, in graph order. *)
Definition nodesOfKind (kind : NodeKind) : list string :=
List.filter (hasKind kind) (map nodeId (graphNodes (a_graph a))).

(** The loop of [analysis.startNode], with the id found so far. *)
Fixpoint startNode_loop (found : string) (nodes : list Node) : string :=
match nodes with
| [] => found
| node :: rest =>
    if hasKind KindStart (nodeId node) then
      if negb (String.eqb found "") then ""
      else startNode_loop (nodeId node) rest
    else startNode_loop found rest
end.

Definition startNode : string := startNode_loop "" (graphNodes (a_graph a)).

(** [analysis.nodeLabel]. *)
Definition nodeLabelOf (nodeID : string) : string :=
match a_nodes a !! nodeID with
| Some node =>
    if negb (String.eqb (nodeLabel node) "") then nodeLabel node
    else match a_types a !! nodeID with Some nodeType => ntName nodeType | None => nodeID end
| None =>
    match a_types a !! nodeID with Some nodeType => ntName nodeType | None => nodeID end
end.
End queries.

(** * Facts *)

Lemma resolvedTypes_lookup catalog nodes id nt :
  resolvedTypes catalog nodes !! id = Some nt -> id ∈ map nodeId nodes.
Proof.
  unfold resolvedTypes. induction nodes as [|n l IH] using rev_ind; [done|].
  rewrite foldl_app, map_app, elem_of_app. simpl.
  destruct (resolveNode catalog n) as [nt'|]; [|auto].
  destruct (decide (nodeId n = id)) as [<-|Hne]; [right; left|].
  rewrite lookup_insert_ne by done. auto.
Qed.

Section facts.
Context (a : analysis).

Lemma hasKind_spec kind id : hasKind a kind id = true <-> kindOf a id = Some kind.
Proof. apply bool_decide_eq_true. Qed.

Lemma executable_hasKind kind id :
hasKind a kind id = true -> kind <> KindNote -> kind <> KindSource -> executable a id = true.
Proof.
rewrite hasKind_spec. unfold kindOf, executable.
destruct (a_types a !! id) as [nt|]; [|done]. intros [= ->] H1 H2.
by rewrite !bool_decide_eq_false_2.
Qed.

Lemma elem_of_nodesOfKind kind id :
id ∈ nodesOfKind a kind <-> id ∈ map nodeId (graphNodes (a_graph a)) /\ hasKind a kind id = true.
Proof. unfold nodesOfKind. by rewrite !list_elem_of_In, filter_In. Qed.

(** [startNode] is the one start node of the graph, or empty. *)
Lemma startNode_loop_spec found nodes :
startNode_loop a found nodes <> "" ->
(startNode_loop a found nodes = found /\
   List.filter (hasKind a KindStart) (map nodeId nodes) = []) \/
(found = "" /\
 exists pre post, List.filter (hasKind a KindStart) (map nodeId nodes) =
   pre ++ startNode_loop a found nodes :: post /\ Forall (eq "") pre /\ post = []).
Proof.
revert found; induction nodes as [|n l IH]; intros found; simpl; [by left|].
destruct (hasKind a KindStart (nodeId n)) eqn:Hk; [|apply IH].
destruct (String.eqb_spec found "") as [->|Hne]; simpl; [|done].
intros Hs. destruct (IH (nodeId n) Hs) as [[Heq Hnil]|[Hid (pre & post & Heq & Hpre & Hpost)]].
- right. split; [done|]. exists [], []. rewrite Heq, Hnil. done.
- right. split; [done|]. exists ("" :: pre), post. rewrite Heq, Hid. split; [done|].
  split; [|done]. by constructor.
Qed.

Lemma startNode_kind : startNode a <> "" ->
hasKind a KindStart (startNode a) = true /\
startNode a ∈ map nodeId (graphNodes (a_graph a)).
Proof.
intros Hs. unfold startNode in *.
destruct (startNode_loop_spec _ _ Hs) as [[Heq _]|[_ (pre & post & Heq & _)]]; [done|].
assert (startNode_loop a "" (graphNodes (a_graph a)) ∈
  List.filter (hasKind a KindStart) (map nodeId (graphNodes (a_graph a)))) as Hin.
{ rewrite Heq. rewrite elem_of_app. right. left. }
rewrite list_elem_of_In, filter_In, <- list_elem_of_In in Hin. tauto.
Qed.

(** With a single start node of non-empty id, [startNode] is its id. *)
Lemma startNode_unique id :
nodesOfKind a KindStart = [id] -> startNode a = id.
Proof.
unfold nodesOfKind, startNode. generalize (graphNodes (a_graph a)) as nodes.
assert (Hdone : forall found nodes,
  List.filter (hasKind a KindStart) (map nodeId nodes) = [] -> startNode_loop a found nodes = found).
{ intros found nodes. induction nodes as [|n l IH]; simpl; [done|].
  by destruct (hasKind a KindStart (nodeId n)). }
induction nodes as [|n l IH]; simpl; [done|].
destruct (hasKind a KindStart (nodeId n)); [|done].
intros [= -> H]. by apply Hdone.
Qed.
End facts.

Lemma newAnalysis_types_nodes graph catalog id :
  is_Some (a_types (newAnalysis graph catalog) !! id) -> id ∈ map nodeId (graphNodes graph).
Proof. intros [nt H]. by apply resolvedTypes_lookup in H. Qed.
