(* ===== verification/Samples.v ===== *)
(** Small catalogs and workflows: the concrete inputs the other files evaluate
    their definitions on. *)
From S2P Require Import Prelude Types Catalog Graph.
From stdpp Require Import strings list gmap.
From Stdlib Require Import QArith ZArith.
#[local] Open Scope nat_scope.

Module Flow.
Definition entry (type : string) (kind : NodeKind) (ins outs : list string)
(dataIn dataOut : list (string * string)) : NodeType :=
{| ntId := type; ntType := type; ntName := type; ntKind := kind;
 ntControl := Some {| cpIn := ins; cpOut := outs; cpError := false |};
 ntDataIn := map (fun s => {| sockName := s.1; sockType := s.2 |}) dataIn;
 ntDataOut := map (fun s => {| sockName := s.1; sockType := s.2 |}) dataOut;
 ntSettings := []; ntExec := Some Sample.exec_read |}.

Definition start : NodeType := entry "start" KindStart [] ["next"] [] [].
Definition finish : NodeType := entry "end" KindEnd ["in"] [] [] [].
Definition source : NodeType := entry "source" KindSource [] [] [] [("files", "list<path.file>")].
Definition task : NodeType :=
entry "task" KindTask ["in"] ["next"] [("input", "path")] [("output", "path.dir")].
Definition summary : NodeType := entry "report" KindTask ["in"] ["next"] [("paths", "list<path.dir>")] [].
Definition branch : NodeType := entry "branch" KindBranch ["in"] ["yes"; "no"] [] [].
Definition forEach : NodeType :=
entry "forEach" KindForEach ["in"] ["body"; "done"] [("collection", "list<any>")] [].
Definition collect : NodeType := entry "collect" KindCollect ["in"] ["next"] [("value", "any")] [].
Definition parallel : NodeType := entry "parallel" KindParallel ["in"] ["a"; "b"] [] [].
Definition join : NodeType := entry "join" KindJoin ["a"; "b"] ["next"] [] [].

(** A parallel entry without control ports, which ValidateNodeType accepts. *)
Definition portless : NodeType :=
{| ntId := "portless"; ntType := "portless"; ntName := "portless"; ntKind := KindParallel;
 ntControl := None; ntDataIn := []; ntDataOut := []; ntSettings := [];
 ntExec := Some Sample.exec_read |}.

Definition sampleTypes : list NodeType :=
[start; finish; source; task; summary; branch; forEach; collect; parallel; join; portless].

Definition sampleCatalog : Catalog := catalog_of sampleTypes.

Definition node (id type : string) : Node :=
{| nodeId := id; nodeType := type; nodeCatalogId := type; nodeLabel := ""; nodeSettings := None |}.

Definition edge (kind : EdgeKind) (id from fromPort to toPort : string) : Edge :=
{| edgeId := id; edgeKind := kind; edgeFromMessage := Some {| epNode := from; epPort := fromPort |};
 edgeToMessage := Some {| epNode := to; epPort := toPort |}; edgeTransform := "" |}.

Definition ctl := edge EdgeControl.
Definition dat := edge EdgeData.

(** Every file is turned into its directory inside a loop, the directories are
collected, and a report reads the collection after the loop. *)
Definition loopGraph : Graph :=
{| graphSchemaVersion := 1;
 graphNodes := [node "s" "start"; node "f" "source"; node "L" "forEach"; node "t" "task";
                node "c" "collect"; node "r" "report"; node "e" "end"];
 graphEdges := [ctl "1" "s" "next" "L" "in"; ctl "2" "L" "body" "t" "in";
                ctl "3" "t" "next" "c" "in"; ctl "4" "L" "done" "r" "in";
                ctl "5" "r" "next" "e" "in"; dat "6" "f" "files" "L" "collection";
                dat "7" "L" "item" "t" "input"; dat "8" "t" "output" "c" "value";
                dat "9" "c" "collected" "r" "paths"] |}.

(** A task that turns a collection into one directory. *)
Definition merge : NodeType :=
entry "merge" KindTask ["in"] ["next"] [("paths", "list<path.dir>")] [("output", "path.dir")].

(** The same with a task of the body that reads the collection the loop's own
collect makes, and is what it collects. *)
Definition innerCollectCatalog : Catalog := catalog_of (merge :: sampleTypes).
Definition innerCollectGraph : Graph :=
{| graphSchemaVersion := 1;
 graphNodes := [node "s" "start"; node "f" "source"; node "L" "forEach"; node "m" "merge";
                node "c" "collect"; node "e" "end"];
 graphEdges := [ctl "1" "s" "next" "L" "in"; ctl "2" "L" "body" "m" "in";
                ctl "3" "m" "next" "c" "in"; ctl "4" "L" "done" "e" "in";
                dat "5" "f" "files" "L" "collection"; dat "6" "c" "collected" "m" "paths";
                dat "7" "m" "output" "c" "value"] |}.

(** A workflow of one edge that leads nowhere. *)
Definition endlessGraph : Graph :=
{| graphSchemaVersion := 1; graphNodes := [node "s" "start"; node "e" "end"];
 graphEdges := [{| edgeId := "1"; edgeKind := EdgeControl;
                   edgeFromMessage := Some {| epNode := "s"; epPort := "next" |};
                   edgeToMessage := None; edgeTransform := "" |}] |}.

(** Two tasks at once, joined before the end. *)
Definition parallelGraph : Graph :=
{| graphSchemaVersion := 1;
 graphNodes := [node "s" "start"; node "p" "parallel"; node "t" "task"; node "u" "task";
                node "j" "join"; node "e" "end"];
 graphEdges := [ctl "1" "s" "next" "p" "in"; ctl "2" "p" "a" "t" "in"; ctl "3" "p" "b" "u" "in";
                ctl "4" "t" "next" "j" "a"; ctl "5" "u" "next" "j" "b"; ctl "6" "j" "next" "e" "in"] |}.

(** The same with one task reading from the other: a mistake. *)
Definition siblingGraph : Graph :=
{| graphSchemaVersion := 1;
 graphNodes := graphNodes parallelGraph;
 graphEdges := graphEdges parallelGraph ++ [dat "7" "t" "output" "u" "input"] |}.

(** A branch around the task another task reads from: the value may be missing. *)
Definition skipGraph : Graph :=
{| graphSchemaVersion := 1;
 graphNodes := [node "s" "start"; node "b" "branch"; node "t" "task"; node "u" "task"; node "e" "end"];
 graphEdges := [ctl "1" "s" "next" "b" "in"; ctl "2" "b" "yes" "t" "in"; ctl "3" "b" "no" "u" "in";
                ctl "4" "t" "next" "u" "in"; ctl "5" "u" "next" "e" "in";
                dat "6" "t" "output" "u" "input"] |}.

(** Loop [L] follows loop [M]; the body of [L] leads back to [L], and a task in
it reads from the body of [M]. *)
Definition backEdgeGraph : Graph :=
{| graphSchemaVersion := 1;
 graphNodes := [node "s" "start"; node "M" "forEach"; node "u" "task"; node "L" "forEach";
                node "t" "task"; node "e" "end"];
 graphEdges := [ctl "1" "s" "next" "M" "in"; ctl "2" "M" "body" "u" "in";
                ctl "3" "M" "done" "L" "in"; ctl "4" "L" "body" "t" "in";
                ctl "5" "t" "next" "L" "in"; ctl "6" "L" "done" "e" "in";
                dat "7" "u" "output" "t" "input"] |}.

(** A parallel whose catalog entry has no control ports. *)
Definition portlessGraph : Graph :=
{| graphSchemaVersion := 1;
 graphNodes := [node "s" "start"; node "p" "portless"; node "e" "end"];
 graphEdges := [ctl "1" "s" "next" "e" "in"] |}.

(** Two tasks no control edge leads to, each reading from the other. *)
Definition islandGraph : Graph :=
{| graphSchemaVersion := 1;
 graphNodes := [node "s" "start"; node "e" "end"; node "t" "task"; node "u" "task"];
 graphEdges := [ctl "1" "s" "next" "e" "in"; ctl "2" "t" "next" "u" "in"; ctl "3" "u" "next" "t" "in";
                dat "4" "t" "output" "u" "input"; dat "5" "u" "output" "t" "input"] |}.
End Flow.
