(* ===== verification/Reach.v ===== *)
(** Control-flow reachability and loop nesting: the first half of
    src/internal/server/workflow/validate/flow.go (controlSuccessors,
    reachableFromPort, branchRegion, computeLoopScopes, effectiveScope,
    scopeVisible, witnessPath).

    The Go traversals are worklist loops; here they run on fuel. For the two
    breadth-first searches the fuel given is proved enough, so they are total
    functions. The walk up the loop scopes of [scopeVisible] need not end; its
    model returns [Diverge] exactly when the Go loop runs forever. *)
From S2P Require Import Prelude Catalog Graph Analysis Samples.
From stdpp Require Import strings list gmap relations.
From Stdlib Require Import ZArith Lia.

(** * Worklist traversal *)

Section worklist.
Context (succ : gmap string (list string)) (stop : string -> bool).

Definition succ_of (n : string) : list string := default [] (succ !! n).

(** The loop of [reachableFromPortBounded]: [stop n] is the test that a node
  closes the region. *)
Fixpoint reach_loop (fuel : nat) (queue : list string) (reached : gset string)
: outcome (gset string) :=
match queue with
| [] => Done reached
| current :: queue' =>
    match fuel with
    | O => Diverge
    | S fuel' =>
        if decide (current ∈ reached) then reach_loop fuel' queue' reached
        else
          let reached' := {[current]} ∪ reached in
          if stop current then reach_loop fuel' queue' reached'
          else reach_loop fuel' (queue' ++ succ_of current) reached'
    end
end.

Definition weight (reached : gset string) : nat :=
sum_list_with (fun kv : string * list string =>
  if decide (kv.1 ∈ reached) then 0%nat else length kv.2) (map_to_list succ).

(** Steps enough to empty any queue: every node's successors are queued at
  most once. *)
Definition reach_fuel (queue : list string) : nat := (length queue + weight ∅)%nat.

Lemma weight_mark n reached :
n ∉ reached -> weight reached = (weight ({[n]} ∪ reached) + length (succ_of n))%nat.
Proof.
intros Hn. unfold weight, succ_of.
assert (Hother : forall l : list (string * list string), n ∉ l.*1 ->
  sum_list_with (fun kv => if decide (kv.1 ∈ reached) then 0%nat else length kv.2) l =
  sum_list_with (fun kv => if decide (kv.1 ∈ {[n]} ∪ reached) then 0%nat else length kv.2) l).
{ induction l as [|[k v] l IH]; simpl; [done|].
  rewrite not_elem_of_cons. intros [Hk Hl]. rewrite IH by done.
  destruct (decide (k ∈ reached)), (decide (k ∈ {[n]} ∪ reached)); set_solver. }
destruct (succ !! n) as [v|] eqn:E; simpl.
- rewrite <- (insert_delete_id _ _ _ E).
  rewrite !(map_to_list_insert (delete n succ) n v) by apply lookup_delete_eq. simpl.
  rewrite decide_False, decide_True by set_solver.
  rewrite <- Hother; [lia|].
  intros ([? ?] & -> & H)%list_elem_of_fmap. simpl in H.
  apply elem_of_map_to_list in H. by rewrite lookup_delete_eq in H.
- rewrite Nat.add_0_r. apply Hother.
  intros ([k v] & -> & H%elem_of_map_to_list)%list_elem_of_fmap. simpl in E. congruence.
Qed.

Lemma reach_loop_Done fuel queue reached :
(length queue + weight reached <= fuel)%nat ->
exists r, reach_loop fuel queue reached = Done r.
Proof.
revert queue reached; induction fuel as [|fuel IH]; intros [|n queue] reached Hf;
  simpl in *; eauto; [lia|].
case_decide as Hin; [apply IH; lia|].
pose proof (weight_mark n reached Hin).
destruct (stop n); apply IH; rewrite ?length_app; lia.
Qed.

(** Reachable from the nodes of [queue] without going through a stop node. *)
Inductive reachable (queue : list string) : string -> Prop :=
| reachable_init n : n ∈ queue -> reachable queue n
| reachable_step n m :
  reachable queue n -> stop n = false -> m ∈ succ_of n -> reachable queue m.

Lemma reachable_mono q1 q2 n :
(forall m, m ∈ q1 -> reachable q2 m) -> reachable q1 n -> reachable q2 n.
Proof. intros H. induction 1 as [n Hn|n m _ IH Hs Hm]; [auto|by eapply reachable_step]. Qed.

Lemma reach_loop_sound fuel queue reached r n :
reach_loop fuel queue reached = Done r -> n ∈ r -> n ∈ reached \/ reachable queue n.
Proof.
revert queue reached; induction fuel as [|fuel IH]; intros [|c queue] reached; simpl; try done;
  try by (intros [= <-]; auto).
assert (Hq : forall m, reachable queue m -> reachable (c :: queue) m).
{ intros m. apply reachable_mono. intros k Hk. apply reachable_init. by right. }
assert (Hc : reachable (c :: queue) c) by (apply reachable_init; left).
case_decide as Hin; [|destruct (stop c) eqn:Hs]; intros Hr Hn.
- destruct (IH _ _ Hr Hn); auto.
- destruct (IH _ _ Hr Hn) as [[->%elem_of_singleton|?]%elem_of_union|?]; auto.
- destruct (IH _ _ Hr Hn) as [[->%elem_of_singleton|?]%elem_of_union|Hre]; auto.
  right. revert Hre. apply reachable_mono. intros m [Hm|Hm]%elem_of_app.
  + apply reachable_init. by right.
  + by eapply reachable_step.
Qed.

Lemma reach_loop_closed fuel queue reached r :
(forall n m, n ∈ reached -> stop n = false -> m ∈ succ_of n -> m ∈ reached \/ m ∈ queue) ->
reach_loop fuel queue reached = Done r ->
reached ⊆ r /\ (forall n, n ∈ queue -> n ∈ r) /\
(forall n m, n ∈ r -> stop n = false -> m ∈ succ_of n -> m ∈ r).
Proof.
revert queue reached; induction fuel as [|fuel IH]; intros [|c queue] reached Hinv; simpl; try done;
  try (intros [= <-]; split_and!; [done|by intros ? ?%elem_of_nil|];
       intros n m Hn Hs Hm; destruct (Hinv n m Hn Hs Hm) as [?|?%elem_of_nil]; done).
case_decide as Hin; [|destruct (stop c) eqn:Hs]; intros Hr.
- destruct (IH queue reached) as (H1 & H2 & H3); [|done|set_solver].
  intros n m Hn Hs Hm. destruct (Hinv n m Hn Hs Hm); set_solver.
- destruct (IH queue ({[c]} ∪ reached)) as (H1 & H2 & H3); [|done|set_solver].
  intros n m [->%elem_of_singleton|Hn]%elem_of_union Hs' Hm; [congruence|].
  destruct (Hinv n m Hn Hs' Hm); set_solver.
- destruct (IH (queue ++ succ_of c) ({[c]} ∪ reached)) as (H1 & H2 & H3); [|done|set_solver].
  intros n m [->%elem_of_singleton|Hn]%elem_of_union Hs' Hm; [set_solver|].
  destruct (Hinv n m Hn Hs' Hm); set_solver.
Qed.

Definition reach (queue : list string) : gset string :=
match reach_loop (reach_fuel queue) queue ∅ with
| Done r => r
| _ => ∅
end.

Lemma elem_of_reach queue n : n ∈ reach queue <-> reachable queue n.
Proof.
unfold reach. destruct (reach_loop_Done (reach_fuel queue) queue ∅) as [r Hr]; [done|].
rewrite Hr. split.
- intros Hn. destruct (reach_loop_sound _ _ _ _ _ Hr Hn); [set_solver|done].
- apply reach_loop_closed in Hr as (_ & H1 & H2); [|set_solver].
  induction 1 as [k Hk|k m _ IH Hs Hm]; eauto.
Qed.
End worklist.

(** * The validator's traversals *)

Section traversals.
Context {MO : MapOrder}.
Context (a : analysis).

(** [controlSuccessors], restricted to executable nodes. *)
Definition executableEdges : list Edge :=
List.filter (fun edge =>
  executable a (epNode (edgeFrom edge)) && executable a (epNode (edgeTo edge)))
  (ControlEdges (a_graph a)).

Definition controlSuccessors : gmap string (list string) :=
group_by (fun e => epNode (edgeFrom e)) (fun e => epNode (edgeTo e)) executableEdges.

(** The targets of the control edges leaving one out-port. *)
Definition portTargets (nodeID port : string) : list string :=
map (fun edge => epNode (edgeTo edge))
  (List.filter (fun edge =>
     String.eqb (epNode (edgeFrom edge)) nodeID && String.eqb (epPort (edgeFrom edge)) port)
     (ControlEdges (a_graph a))).

Definition reachableFromPortBounded (nodeID port : string) (stopAtJoins : bool) : gset string :=
reach controlSuccessors (fun current => stopAtJoins && hasKind a KindJoin current)
  (portTargets nodeID port).

Definition reachableFromPort (nodeID port : string) : gset string :=
reachableFromPortBounded nodeID port false.

Definition branchRegion (parallelID port : string) : gset string :=
reachableFromPortBounded parallelID port true.

(** ** Loop scopes *)

(** The body region of every loop. *)
Definition loopRegions : gmap string (gset string) :=
foldl (fun regions id => <[id := reachableFromPort id "body"]> regions) ∅
  (nodesOfKind a KindForEach).

(** One step of the search for the innermost loop around a node: the loop
  found so far with the size of its region, [None] before the first. *)
Definition innermost_step (nodeID : string) (found : option (string * nat))
  (loop : string * gset string) : option (string * nat) :=
if decide (nodeID ∈ loop.2) then
  match found with
  | None => Some (loop.1, size loop.2)
  | Some (_, smallest) =>
      if (size loop.2 <? smallest)%nat then Some (loop.1, size loop.2) else found
  end
else found.

Definition innermostLoop (nodeID : string) : string :=
match foldl (innermost_step nodeID) None (range_map ["loopScopes"; nodeID] loopRegions) with
| Some (loopID, _) => loopID
| None => ""
end.

(** [computeLoopScopes]. *)
Definition loopScopes : gmap string string :=
foldl (fun scopes node => <[nodeId node := innermostLoop (nodeId node)]> scopes) ∅
  (graphNodes (a_graph a)).

Definition loopScope (nodeID : string) : string := default "" (loopScopes !! nodeID).

Definition effectiveScope (nodeID : string) : string :=
if hasKind a KindCollect nodeID then
  let enclosingLoop := loopScope nodeID in
  if String.eqb enclosingLoop "" then "" else loopScope enclosingLoop
else loopScope nodeID.

(** The loop of [scopeVisible], walking up from [scope]. *)
Fixpoint scopeVisible_loop (fuel : nat) (sourceScope scope : string) : outcome bool :=
if String.eqb scope "" then Done false
else if String.eqb scope sourceScope then Done true
else match fuel with
     | O => Diverge
     | S fuel' => scopeVisible_loop fuel' sourceScope (loopScope scope)
     end.

(** Steps enough for every walk that ends: one per loop of the graph, and one
  for the scope the walk starts from. *)
Definition scope_fuel : nat := S (length (nodesOfKind a KindForEach)).

Definition scopeVisible (sourceScope targetScope : string) : outcome bool :=
if String.eqb sourceScope "" then Done true
else scopeVisible_loop scope_fuel sourceScope targetScope.

(** ** Witness paths *)

(** The inner loop of [witnessPath] over the successors of [current]. *)
Definition witness_visit (avoid current : string)
  (st : gmap string string * list string) (next : string) : gmap string string * list string :=
let '(cameFrom, queue) := st in
if String.eqb next avoid then st
else match cameFrom !! next with
     | Some _ => st
     | None => (<[next := current]> cameFrom, queue ++ [next])
     end.

(** Following [cameFrom] back from a node, the path built front first. *)
Fixpoint unwind (fuel : nat) (cameFrom : gmap string string) (node : string) (path : list string)
: outcome (list string) :=
if String.eqb node "" then Done path
else match fuel with
     | O => Diverge
     | S fuel' => unwind fuel' cameFrom (default "" (cameFrom !! node)) (node :: path)
     end.

Fixpoint witness_loop (fuel : nat) (target avoid : string) (cameFrom : gmap string string)
  (queue : list string) : outcome (list string) :=
match queue with
| [] => Done []
| current :: queue' =>
    match fuel with
    | O => Diverge
    | S fuel' =>
        if String.eqb current target then unwind (size cameFrom) cameFrom target []
        else
          let '(cameFrom', queue'') :=
            foldl (witness_visit avoid current) (cameFrom, queue') (succ_of controlSuccessors current) in
          witness_loop fuel' target avoid cameFrom' queue''
    end
end.

(** [witnessPath]; [[]] is Go's nil. *)
Definition witnessPath (target avoid : string) : outcome (list string) :=
let start := startNode a in
if String.eqb start "" || String.eqb start avoid then Done []
else witness_loop (S (length executableEdges)) target avoid {[start := ""]} [start].
End traversals.

(** * What the traversals compute *)

Section facts.
Context {MO : MapOrder}.
Context (a : analysis).

Lemma elem_of_executableEdges e :
e ∈ executableEdges a <->
e ∈ ControlEdges (a_graph a) /\ executable a (epNode (edgeFrom e)) = true /\
executable a (epNode (edgeTo e)) = true.
Proof.
unfold executableEdges. by rewrite !list_elem_of_In, filter_In, andb_true_iff.
Qed.

Lemma elem_of_succ n m :
m ∈ succ_of (controlSuccessors a) n <->
exists e, e ∈ executableEdges a /\ epNode (edgeFrom e) = n /\ epNode (edgeTo e) = m.
Proof. apply elem_of_group_by. Qed.

Lemma elem_of_portTargets id port n :
n ∈ portTargets a id port <->
exists e, e ∈ ControlEdges (a_graph a) /\ epNode (edgeFrom e) = id /\
  epPort (edgeFrom e) = port /\ epNode (edgeTo e) = n.
Proof.
unfold portTargets. rewrite list_elem_of_fmap. split.
- intros (e & -> & He).
  rewrite list_elem_of_In, filter_In, andb_true_iff, !String.eqb_eq, <- list_elem_of_In in He.
  naive_solver.
- intros (e & He & Hi & Hp & <-). exists e. split; [done|].
  by rewrite list_elem_of_In, filter_In, andb_true_iff, !String.eqb_eq, <- list_elem_of_In.
Qed.

(** The nodes control may be at after leaving [id] by [port]: the target of
  an edge from that port, then any executable node behind executable nodes
  that do not close the region. *)
Inductive flows_to (stopAtJoins : bool) (id port : string) : string -> Prop :=
| flows_first e :
  e ∈ ControlEdges (a_graph a) ->
  epNode (edgeFrom e) = id -> epPort (edgeFrom e) = port ->
  flows_to stopAtJoins id port (epNode (edgeTo e))
| flows_next e :
  flows_to stopAtJoins id port (epNode (edgeFrom e)) ->
  stopAtJoins && hasKind a KindJoin (epNode (edgeFrom e)) = false ->
  e ∈ ControlEdges (a_graph a) ->
  executable a (epNode (edgeFrom e)) = true -> executable a (epNode (edgeTo e)) = true ->
  flows_to stopAtJoins id port (epNode (edgeTo e)).

Lemma elem_of_region stopAtJoins id port n :
n ∈ reachableFromPortBounded a id port stopAtJoins <-> flows_to stopAtJoins id port n.
Proof.
unfold reachableFromPortBounded. rewrite elem_of_reach. split.
- induction 1 as [n Hn|n m _ IH Hs Hm].
  + apply elem_of_portTargets in Hn as (e & He & Hi & Hp & <-). by apply flows_first.
  + apply elem_of_succ in Hm as (e & He & <- & <-).
    apply elem_of_executableEdges in He as (He & H1 & H2). by apply flows_next.
- induction 1 as [e He Hi Hp|e _ IH Hs He H1 H2].
  + apply reachable_init, elem_of_portTargets. eauto.
  + eapply reachable_step; [exact IH|exact Hs|]. apply elem_of_succ. exists e.
    by rewrite elem_of_executableEdges.
Qed.

(** ** Loop scopes *)

Lemma loopRegions_lookup id region :
loopRegions a !! id = Some region <->
id ∈ nodesOfKind a KindForEach /\ region = reachableFromPort a id "body".
Proof.
unfold loopRegions. induction (nodesOfKind a KindForEach) as [|x l IH] using rev_ind.
{ simpl. split; [done|]. by intros [?%elem_of_nil _]. }
rewrite foldl_app. simpl. rewrite elem_of_app, list_elem_of_singleton.
destruct (decide (x = id)) as [->|Hne].
- rewrite lookup_insert_eq. naive_solver.
- rewrite lookup_insert_ne by done. rewrite IH. naive_solver.
Qed.

(** The search over the loops ends with a smallest region around the node. *)
Lemma innermost_fold nodeID loops :
match foldl (innermost_step nodeID) None loops with
| None => forall loop, loop ∈ loops -> nodeID ∉ loop.2
| Some (id, n) =>
    (exists region, (id, region) ∈ loops /\ nodeID ∈ region /\ n = size region) /\
    (forall loop, loop ∈ loops -> nodeID ∈ loop.2 -> (n <= size loop.2)%nat)
end.
Proof.
induction loops as [|[id region] loops IH] using rev_ind; [by intros ? ?%elem_of_nil|].
assert (Hold : forall P : string * gset string -> Prop,
  (forall loop, loop ∈ loops -> P loop) -> P (id, region) ->
  forall loop, loop ∈ loops ++ [(id, region)] -> P loop).
{ intros P H1 H2 loop Hl. apply elem_of_app in Hl as [?|Hl]; [by auto|].
  by apply list_elem_of_singleton in Hl as ->. }
assert (Hnew : (id, region) ∈ loops ++ [(id, region)])
  by (rewrite elem_of_app, list_elem_of_singleton; auto).
rewrite foldl_app. simpl. unfold innermost_step at 1. simpl.
destruct (foldl (innermost_step nodeID) None loops) as [[id0 n0]|]; case_decide as Hin.
- destruct IH as [(r & Hr & Hn & ->) Hmin].
  destruct (Nat.ltb_spec (size region) (size r)).
  + split; [by exists region|].
    refine (Hold (fun loop => nodeID ∈ loop.2 -> (_ <= size loop.2)%nat) _ _); [|done].
    intros loop Hl Hl'. specialize (Hmin loop Hl Hl'). lia.
  + split; [exists r; rewrite elem_of_app; auto|].
    refine (Hold (fun loop => nodeID ∈ loop.2 -> (_ <= size loop.2)%nat) _ _); [done|]. simpl. lia.
- destruct IH as [(r & Hr & Hn & ->) Hmin].
  split; [exists r; rewrite elem_of_app; auto|].
  by refine (Hold (fun loop => nodeID ∈ loop.2 -> (_ <= size loop.2)%nat) _ _).
- split; [by exists region|].
  refine (Hold (fun loop => nodeID ∈ loop.2 -> (_ <= size loop.2)%nat) _ _); [|done].
  intros loop Hl Hl'. by destruct (IH loop Hl).
- by refine (Hold (fun loop => nodeID ∉ loop.2) _ _).
Qed.

Lemma innermostLoop_spec id :
innermostLoop a id <> "" ->
innermostLoop a id ∈ nodesOfKind a KindForEach /\
id ∈ reachableFromPort a (innermostLoop a id) "body" /\
forall L, L ∈ nodesOfKind a KindForEach -> id ∈ reachableFromPort a L "body" ->
  (size (reachableFromPort a (innermostLoop a id) "body") <= size (reachableFromPort a L "body"))%nat.
Proof.
unfold innermostLoop.
pose proof (innermost_fold id (range_map ["loopScopes"; id] (loopRegions a))) as H.
destruct (foldl _ _ _) as [[L n]|]; [|done]. intros _.
destruct H as ((region & Hr & Hin & ->) & H2).
apply elem_of_range_map, loopRegions_lookup in Hr as [HL ->].
split_and!; [done..|]. intros L' HL' Hin'.
apply (H2 (L', reachableFromPort a L' "body")); [|done].
by apply elem_of_range_map, loopRegions_lookup.
Qed.

Lemma innermostLoop_empty id :
innermostLoop a id = "" -> "" ∉ nodesOfKind a KindForEach ->
forall L, L ∈ nodesOfKind a KindForEach -> id ∉ reachableFromPort a L "body".
Proof.
unfold innermostLoop. intros Hemp Hne L HL.
pose proof (innermost_fold id (range_map ["loopScopes"; id] (loopRegions a))) as H.
destruct (foldl _ _ _) as [[L' n]|].
- destruct H as ((region & Hr & Hin & ->) & H2). subst L'.
  by apply elem_of_range_map, loopRegions_lookup in Hr as [HL' ->].
- apply (H (L, reachableFromPort a L "body")). by apply elem_of_range_map, loopRegions_lookup.
Qed.

Lemma loopScopes_lookup id :
loopScopes a !! id =
if decide (id ∈ map nodeId (graphNodes (a_graph a))) then Some (innermostLoop a id) else None.
Proof.
unfold loopScopes. induction (graphNodes (a_graph a)) as [|n l IH] using rev_ind; [done|].
rewrite foldl_app, map_app. simpl.
destruct (decide (nodeId n = id)) as [<-|Hne].
- rewrite lookup_insert_eq, decide_True; [done|]. rewrite elem_of_app. right. left.
- rewrite lookup_insert_ne, IH by done.
  assert (id ∈ map nodeId l ++ [nodeId n] <-> id ∈ map nodeId l) as Hiff
    by (rewrite elem_of_app, list_elem_of_singleton; naive_solver).
  by destruct (decide (id ∈ map nodeId l)), (decide (id ∈ map nodeId l ++ [nodeId n])); naive_solver.
Qed.

Lemma loopScope_cases id :
loopScope a id = "" \/
(id ∈ map nodeId (graphNodes (a_graph a)) /\ loopScope a id = innermostLoop a id).
Proof. unfold loopScope. rewrite loopScopes_lookup. case_decide; simpl; auto. Qed.
Lemma loopScope_spec id :
loopScope a id <> "" ->
loopScope a id ∈ nodesOfKind a KindForEach /\
id ∈ reachableFromPort a (loopScope a id) "body".
Proof.
destruct (loopScope_cases id) as [|[_ ->]]; [done|].
intros H. apply innermostLoop_spec in H as (? & ? & _). done.
Qed.

(** ** The walk of scopeVisible *)

Notation walk := (scopeVisible_loop a).

Lemma walk_Done_mono s n k x b : walk n s x = Done b -> walk (n + k) s x = Done b.
Proof.
revert x. induction n as [|n IH]; intros x; simpl.
- destruct k; simpl; by repeat case_goal.
- destruct (String.eqb x ""); [done|]. destruct (String.eqb x s); [done|]. apply IH.
Qed.

(** A walk never panics; it answers or runs out. *)
Lemma walk_cases s n x : walk n s x = Diverge \/ exists b, walk n s x = Done b.
Proof.
revert x. induction n as [|n IH]; intros x; simpl;
  (destruct (String.eqb x ""); [eauto|]); (destruct (String.eqb x s); [eauto|]); auto.
Qed.

Lemma walk_Diverge_mono s n m x : walk n s x = Diverge -> (m <= n)%nat -> walk m s x = Diverge.
Proof.
intros Hn Hm. destruct (walk_cases s m x) as [|[b Hb]]; [done|].
apply (walk_Done_mono _ _ (n - m)) in Hb.
replace (m + (n - m))%nat with n in Hb by lia. congruence.
Qed.

(** A step of a walk that does not stop at [x]. *)
Lemma walk_step s x : walk 0 s x = Diverge -> forall m, walk (S m) s x = walk m s (loopScope a x).
Proof.
simpl. intros H m. destruct (String.eqb x ""); [done|]. by destruct (String.eqb x s).
Qed.

(** A walk that needs [n] steps visits [n] different scopes: at each one it
  needs a different number of further steps. *)
Lemma walk_chain s n x :
walk n s x <> Diverge -> (forall m, (m < n)%nat -> walk m s x = Diverge) ->
exists l, length l = n /\ NoDup l /\
  (forall y, y ∈ l -> y = x \/ y ∈ nodesOfKind a KindForEach) /\
  (forall y, y ∈ l -> exists m, (m < n)%nat /\ walk (S m) s y <> Diverge /\ walk m s y = Diverge).
Proof.
revert x. induction n as [|n IH]; intros x Hn Hlt.
{ exists []. split_and!; [done|constructor|by intros ? ?%elem_of_nil..]. }
pose proof (walk_step s x (Hlt 0%nat ltac:(lia))) as Hf. rewrite Hf in Hn.
destruct (IH (loopScope a x)) as (l & Hl & Hnd & Hin & Hrank); [done| |].
{ intros m Hm. rewrite <- Hf. apply Hlt. lia. }
exists (x :: l). split_and!.
- simpl. congruence.
- constructor; [|done]. intros Hxl. destruct (Hrank x Hxl) as (m & Hm & Hok & _).
  apply Hok, Hlt. lia.
- intros y [->|Hy]%elem_of_cons; [by left|]. destruct (Hin y Hy) as [->|?]; [|by right].
  right. destruct (decide (loopScope a x = "")) as [E|E]; [|by apply loopScope_spec in E as [? _]].
  destruct (Hrank _ Hy) as (m & _ & _ & Hd). rewrite E in Hd. by destruct m.
- intros y [->|Hy]%elem_of_cons.
  + exists n. split_and!; [lia|by rewrite Hf|apply Hlt; lia].
  + destruct (Hrank y Hy) as (m & ? & ? & ?). exists m. split_and!; [lia|done..].
Qed.

(** The fuel of [scopeVisible] is enough for every walk that ends at all. *)
Lemma walk_fuel_enough s n x b : walk n s x = Done b -> walk (scope_fuel a) s x = Done b.
Proof.
induction n as [|n IH]; intros Hn; [by apply (walk_Done_mono s 0)|].
destruct (walk_cases s n x) as [Hd|[b' Hb']].
2:{ apply IH. pose proof (walk_Done_mono s n 1 x b' Hb') as H.
    rewrite Nat.add_1_r, Hn in H. by injection H as ->. }
destruct (walk_chain s (S n) x) as (l & Hlen & Hnd & Hin & _); [by rewrite Hn| |].
{ intros m Hm. apply (walk_Diverge_mono s n); [done|lia]. }
assert (length l <= length (x :: nodesOfKind a KindForEach))%nat.
{ apply submseteq_length, NoDup_submseteq; [done|].
  intros y Hy. rewrite elem_of_cons. by apply Hin. }
replace (scope_fuel a) with (S n + (scope_fuel a - S n))%nat; [by apply walk_Done_mono|].
unfold scope_fuel. simpl in *. lia.
Qed.

(** The scopes around [x], innermost first. *)
Inductive encloses (s : string) : string -> Prop :=
| encloses_here : s <> "" -> encloses s s
| encloses_outer x : x <> "" -> encloses s (loopScope a x) -> encloses s x.

Lemma walk_Done s n x b : walk n s x = Done b -> (b = true <-> encloses s x).
Proof.
revert x. induction n as [|n IH]; intros x; simpl;
  (destruct (String.eqb_spec x "") as [->|Hx];
    [intros [= <-]; split; [done|]; by inversion 1|]);
  (destruct (String.eqb_spec x s) as [->|Hs]; [intros [= <-]; split; [by constructor|done]|]);
  [done|].
intros Hd. rewrite (IH _ Hd). split; [by apply encloses_outer|]. by inversion 1.
Qed.

Lemma scopeVisible_cases s t :
match scopeVisible a s t with
| Done b => b = true <-> s = "" \/ encloses s t
| Panic => False
| Diverge => s <> "" /\ forall fuel, walk fuel s t = Diverge
end.
Proof.
unfold scopeVisible. destruct (String.eqb_spec s "") as [->|Hs]; [naive_solver|].
destruct (walk_cases s (scope_fuel a) t) as [Hd|[b Hb]].
- rewrite Hd. split; [done|]. intros fuel.
  destruct (walk_cases s fuel t) as [|[b Hb]]; [done|].
  apply walk_fuel_enough in Hb. congruence.
- rewrite Hb. apply walk_Done in Hb. rewrite Hb. naive_solver.
Qed.
(** ** Nesting *)

(** The executable part of a loop's body region. *)
Definition bodyNodes (L : string) : gset string :=
filter (fun n => executable a n = true) (reachableFromPort a L "body").

Lemma executable_node n : executable a n = true -> is_Some (a_types a !! n).
Proof. unfold executable. destruct (a_types a !! n); [eauto|done]. Qed.

Lemma loop_executable L : L ∈ nodesOfKind a KindForEach -> executable a L = true.
Proof. intros [_ H]%elem_of_nodesOfKind. by eapply executable_hasKind. Qed.

(** What flows out of the body port of a loop that sits in a region, flows
  into that region. *)
Lemma body_nested L L' n :
L ∈ nodesOfKind a KindForEach -> L ∈ reachableFromPort a L' "body" ->
n ∈ bodyNodes L -> n ∈ bodyNodes L'.
Proof.
intros HL Hin. unfold bodyNodes, reachableFromPort in *.
rewrite !elem_of_filter, !elem_of_region in *. intros [Hex Hn]. split; [done|].
assert (HLx : executable a L = true) by by apply loop_executable.
induction Hn as [e He Hi Hp|e _ IH _ He H1 H2]; [|by apply flows_next, H2; auto].
apply flows_next; [by rewrite Hi|done..|by rewrite Hi|done].
Qed.

(** No loop lies in its own body. *)
Definition loops_well_nested : Prop :=
forall L, L ∈ nodesOfKind a KindForEach -> L ∉ reachableFromPort a L "body".

Lemma nested_body_smaller L :
loops_well_nested -> L ∈ nodesOfKind a KindForEach -> loopScope a L <> "" ->
(size (bodyNodes L) < size (bodyNodes (loopScope a L)))%nat.
Proof.
intros Hwn HL [HP Hin]%loopScope_spec. apply subset_size. split.
- intros n. by apply body_nested.
- intros Hsub. apply (Hwn L HL).
  assert (L ∈ bodyNodes (loopScope a L)) as H%Hsub.
  { unfold bodyNodes. rewrite elem_of_filter. split; [by apply loop_executable|done]. }
  unfold bodyNodes in H. by rewrite elem_of_filter in H; destruct H.
Qed.

Lemma walk_terminates s x :
loops_well_nested -> x = "" \/ x ∈ nodesOfKind a KindForEach ->
exists n b, walk n s x = Done b.
Proof.
intros Hwn.
assert (Hbound : forall L, (size (bodyNodes L) <= size (dom (a_types a)))%nat).
{ intros L. apply subseteq_size. intros n. unfold bodyNodes.
  rewrite elem_of_filter, elem_of_dom. intros [H _]. by apply executable_node. }
remember (size (dom (a_types a)) - size (bodyNodes x))%nat as k eqn:Hk.
revert x Hk. induction k as [k IH] using lt_wf_ind. intros x Hk [->|Hx].
{ exists 0%nat, false. done. }
destruct (walk_cases s 0 x) as [Hd|[b Hb]]; [|eauto].
destruct (decide (loopScope a x = "")) as [E|E].
{ exists 1%nat, false. rewrite walk_step by done. by rewrite E. }
pose proof (nested_body_smaller x Hwn Hx E). pose proof (Hbound (loopScope a x)).
destruct (IH (size (dom (a_types a)) - size (bodyNodes (loopScope a x)))%nat) with (x := loopScope a x)
  as (n & b & Hn); [lia|done|right; by apply loopScope_spec|].
exists (S n), b. by rewrite walk_step.
Qed.
End facts.

(** * Witness paths *)

Section witness.
Context (a : analysis) (avoid : string).
Context (no_empty : forall e, e ∈ executableEdges a -> epNode (edgeTo e) <> "").

Notation succs := (succ_of (controlSuccessors a)).
Notation start := (startNode a).

(** A control path from the start node to [n] that never enters [avoid]. *)
Inductive path_to : string -> list string -> Prop :=
| path_here : path_to start [start]
| path_next p l n : path_to p l -> n ∈ succs p -> n <> avoid -> path_to n (l ++ [n]).

(** The same path, recorded in a [cameFrom] map. *)
Inductive trace (cf : gmap string string) : string -> list string -> Prop :=
| trace_start : cf !! start = Some "" -> trace cf start [start]
| trace_step p l n :
  trace cf p l -> cf !! n = Some p -> n ∈ succs p -> n <> avoid -> trace cf n (l ++ [n]).

Lemma trace_path cf n l : trace cf n l -> path_to n l.
Proof. induction 1; [constructor|by eapply path_next]. Qed.

Lemma trace_weaken cf cf' n l : cf ⊆ cf' -> trace cf n l -> trace cf' n l.
Proof.
intros Hsub. induction 1 as [H|p l n _ IH Hn].
- apply trace_start. by eapply lookup_weaken.
- eapply trace_step; [done|by eapply lookup_weaken|done..].
Qed.

Lemma succs_nonempty n m : m ∈ succs n -> m <> "".
Proof. intros (e & He & _ & <-)%elem_of_succ. by apply no_empty. Qed.

Lemma unwind_trace cf n l fuel acc :
start <> "" -> trace cf n l -> (length l <= fuel)%nat -> unwind fuel cf n acc = Done (l ++ acc).
Proof.
intros Hs Ht. revert fuel acc. induction Ht as [H|p l n _ IH Hn Hin _]; intros fuel acc.
- simpl. destruct fuel as [|fuel]; [lia|]. intros _. simpl.
  rewrite (proj2 (String.eqb_neq _ _) Hs), H. simpl. by destruct fuel.
- rewrite length_app. simpl. destruct fuel as [|fuel]; [lia|]. intros Hl. simpl.
  rewrite (proj2 (String.eqb_neq _ _) (succs_nonempty _ _ Hin)), Hn. simpl.
  rewrite IH by lia. by rewrite <- app_assoc.
Qed.

(** What one round of the search adds: fresh successors of [current], each
  reached from it. *)
Lemma witness_visit_fold current nexts cf queue cf' queue' :
foldl (witness_visit avoid current) (cf, queue) nexts = (cf', queue') ->
exists new, queue' = queue ++ new /\ cf ⊆ cf' /\ size cf' = (size cf + length new)%nat /\
  (forall n, is_Some (cf' !! n) <-> is_Some (cf !! n) \/ n ∈ new) /\
  (forall n, n ∈ new -> cf !! n = None /\ cf' !! n = Some current /\ n ∈ nexts /\ n <> avoid) /\
  NoDup new /\
  (forall n, n ∈ nexts -> n <> avoid -> is_Some (cf' !! n)).
Proof.
revert cf queue. induction nexts as [|m nexts IH]; intros cf queue; simpl.
{ intros [= <- <-]. exists []. rewrite app_nil_r.
  split_and!; [done..|simpl; lia| | |constructor|]; set_solver. }
destruct (String.eqb_spec m avoid) as [->|Hm].
{ intros (new & ? & ? & ? & ? & Hnew & ? & Hall)%IH. exists new. split_and!; [done..| |done|].
  - intros n Hn. destruct (Hnew n Hn) as (? & ? & ? & ?). rewrite elem_of_cons. auto.
  - intros n [->|Hn]%elem_of_cons Hne; [done|auto]. }
destruct (cf !! m) as [q|] eqn:Eq.
{ intros (new & ? & Hsub & ? & ? & Hnew & ? & Hall)%IH. exists new. split_and!; [done..| |done|].
  - intros n Hn. destruct (Hnew n Hn) as (? & ? & ? & ?). rewrite elem_of_cons. auto.
  - intros n [->|Hn]%elem_of_cons Hne; [|auto]. exists q. by eapply lookup_weaken. }
intros (new & -> & Hsub & Hsz & Hdom & Hnew & Hnd & Hall)%IH.
assert (Hmf : cf' !! m = Some current) by (eapply lookup_weaken; [|done]; apply lookup_insert_eq).
exists (m :: new). split_and!.
- by rewrite <- app_assoc.
- etrans; [by apply insert_subseteq|done].
- rewrite Hsz, map_size_insert_None by done. simpl. lia.
- intros n. rewrite Hdom, elem_of_cons, lookup_insert_is_Some'. naive_solver.
- intros n [->|Hn]%elem_of_cons; [by rewrite elem_of_cons; auto|].
  destruct (Hnew n Hn) as (H1 & ? & ? & ?). rewrite elem_of_cons. split_and!; auto.
  destruct (decide (m = n)) as [->|]; [by rewrite lookup_insert_eq in H1|].
  by rewrite lookup_insert_ne in H1.
- constructor; [|done]. intros H%Hnew. destruct H as [H _]. by rewrite lookup_insert_eq in H.
- intros n [->|Hn]%elem_of_cons Hne; [eauto|auto].
Qed.
(** Every node a control edge leads to. *)
Definition targets : gset string := list_to_set (map (fun e => epNode (edgeTo e)) (executableEdges a)).

Lemma succs_targets n m : m ∈ succs n -> m ∈ targets.
Proof.
intros (e & He & _ & <-)%elem_of_succ. unfold targets.
rewrite elem_of_list_to_set, list_elem_of_fmap. eauto.
Qed.

Lemma fresh_measure (cf cf' : gmap string string) (new : list string) :
NoDup new -> (forall n, n ∈ new -> cf !! n = None /\ n ∈ targets /\ is_Some (cf' !! n)) -> cf ⊆ cf' ->
(size (targets ∖ dom cf') + length new <= size (targets ∖ dom cf))%nat.
Proof.
intros Hnd Hnew Hsub. rewrite <- (size_list_to_set (C := gset string) new) by done.
rewrite <- size_union.
- apply subseteq_size. intros n. rewrite elem_of_union, !elem_of_difference, elem_of_list_to_set, !elem_of_dom.
  intros [[H1 H2]|Hn].
  + split; [done|]. intros [q Hq]. apply H2. exists q. by eapply lookup_weaken.
  + destruct (Hnew n Hn) as (H1 & H2 & _). split; [done|]. rewrite H1. by intros [? ?].
- intros n. rewrite elem_of_difference, elem_of_list_to_set, elem_of_dom.
  intros [_ H] Hn. by apply H, Hnew.
Qed.

Lemma path_to_nonempty n l : path_to n l -> l <> [].
Proof. destruct 1 as [|p l n]; [done|]. by destruct l. Qed.

(** The search state: every node found has its recorded path, and every node
  already taken off the queue is not the target and has all its successors
  found. *)
Record search_ok (target : string) (cf : gmap string string) (queue : list string) : Prop := {
so_trace n : is_Some (cf !! n) -> exists l, trace cf n l /\ (length l <= size cf)%nat;
so_queue n : n ∈ queue -> is_Some (cf !! n);
so_done n : is_Some (cf !! n) -> n ∉ queue ->
  n <> target /\ forall m, m ∈ succs n -> m <> avoid -> is_Some (cf !! m);
so_start : is_Some (cf !! start);
}.

Lemma search_step target cf current queue cf' queue' :
search_ok target cf (current :: queue) -> current <> target ->
foldl (witness_visit avoid current) (cf, queue) (succs current) = (cf', queue') ->
search_ok target cf' queue' /\
(length queue' + size (targets ∖ dom cf') < S (length queue) + size (targets ∖ dom cf))%nat /\
cf ⊆ cf'.
Proof.
intros [Ht Hq Hd Hs] Hne Hf.
apply witness_visit_fold in Hf as (new & -> & Hsub & Hsz & Hdom & Hnew & Hnd & Hall).
split_and!; [constructor| |done].
- intros n [Hn|Hn]%Hdom.
  + destruct (Ht n Hn) as (l & Hl & Hlen). exists l.
    split; [by eapply trace_weaken|lia].
  + destruct (Hnew n Hn) as (_ & Hc & Hin & Hav).
    destruct (Ht current) as (l & Hl & Hlen); [apply Hq; left|].
    exists (l ++ [n]). split; [eapply trace_step; [by eapply trace_weaken|done..]|].
    rewrite length_app. simpl.
    destruct new as [|x new]; [by apply elem_of_nil in Hn|]. simpl in Hsz. lia.
- intros n Hn. apply Hdom. rewrite elem_of_app in Hn. destruct Hn as [Hn|]; [|by right].
  left. apply Hq. by right.
- intros n Hn Hnq. rewrite elem_of_app in Hnq.
  destruct (decide (n = current)) as [->|Hnc]; [split; [done|]; intros m; apply Hall|].
  destruct (Hd n) as [H1 H2].
  + apply Hdom in Hn as [|]; [done|]. destruct Hnq. by right.
  + rewrite elem_of_cons. intros [|]; [done|]. destruct Hnq. by left.
  + split; [done|]. intros m Hm Hma. destruct (H2 m Hm Hma) as [q Hqm].
    exists q. by eapply lookup_weaken.
- destruct Hs as [q Hqs]. exists q. by eapply lookup_weaken.
- rewrite length_app. assert (size (targets ∖ dom cf') + length new <= size (targets ∖ dom cf))%nat; [|lia].
  apply fresh_measure; [done| |done]. intros n Hn.
  destruct (Hnew n Hn) as (? & ? & ? & ?). split_and!; [done|by eapply succs_targets|eauto].
Qed.

Lemma search_closed target cf n l : search_ok target cf [] -> path_to n l -> is_Some (cf !! n).
Proof.
intros Hok Hl. induction Hl as [|q l n _ IH Hn Ha]; [exact (so_start _ _ _ Hok)|].
destruct (so_done _ _ _ Hok q IH) as [_ H]; [apply not_elem_of_nil|]. by apply H.
Qed.

Lemma search_exhausted target cf l : search_ok target cf [] -> ~ path_to target l.
Proof.
intros Hok Hl. pose proof (search_closed _ _ _ _ Hok Hl) as Ht.

apply (so_done _ _ _ Hok) in Ht as [Ht _]; [done|apply not_elem_of_nil].
Qed.

Lemma witness_loop_spec target fuel cf queue :
start <> "" -> search_ok target cf queue ->
(length queue + size (targets ∖ dom cf) <= fuel)%nat ->
exists p, witness_loop a fuel target avoid cf queue = Done p /\
  (p <> [] -> path_to target p) /\ (p = [] -> forall l, ~ path_to target l).
Proof.
intros Hstart. revert cf queue. induction fuel as [|fuel IH]; intros cf [|current queue] Hok Hf;
  simpl in *; try lia.
1,2: exists []; split_and!; [done..|]; intros _ l; by eapply search_exhausted.
destruct (String.eqb_spec current target) as [->|Hne].
- destruct (so_trace _ _ _ Hok target) as (l & Hl & Hlen); [apply Hok; left|].
  exists l. rewrite (unwind_trace cf target l) by done. rewrite app_nil_r.
  pose proof (trace_path _ _ _ Hl). split_and!; [done..|].
  intros ->. by apply path_to_nonempty in H.
- destruct (foldl _ _ _) as [cf' queue'] eqn:Hfold.
  destruct (search_step target cf current queue cf' queue' Hok Hne Hfold) as (Hok' & Hm & _).
  apply IH; [done|lia].
Qed.

Lemma witnessPath_spec target :
start <> "" -> start <> avoid ->
exists p, witnessPath a target avoid = Done p /\
  (p <> [] -> path_to target p) /\ (p = [] -> forall l, ~ path_to target l).
Proof.
intros Hs Ha. unfold witnessPath.
rewrite (proj2 (String.eqb_neq _ _) Hs), (proj2 (String.eqb_neq _ _) Ha). cbn [orb].
apply witness_loop_spec; [done|constructor|].
- intros n [q [<- <-]%lookup_singleton_Some]. exists [start]. split.
  + apply trace_start, lookup_singleton_eq.
  + by rewrite map_size_singleton.
- intros n ->%list_elem_of_singleton. rewrite lookup_singleton_eq. eauto.
- intros n [q [<- <-]%lookup_singleton_Some] Hn. destruct Hn. left.
- rewrite lookup_singleton_eq. eauto.
- simpl. assert (size (targets ∖ dom ({[start := ""]} : gmap string string)) <= length (executableEdges a))%nat; [|lia].
  rewrite <- (length_map (fun e => epNode (edgeTo e))). apply size_le_length.
  intros n. rewrite elem_of_difference. unfold targets. rewrite elem_of_list_to_set. tauto.
Qed.
End witness.

Section properties.
Context {MO : MapOrder}.

(** A region is exactly what control can reach. For every node and
  out-port the breadth-first search of reachableFromPortBounded ends, and
  returns the nodes behind that port along control edges between executable
  nodes, continuing past joins only when it is not told to stop at them. *)
Theorem reachableFromPortBounded_spec a nodeID port stopAtJoins n :
(exists r, reach_loop (controlSuccessors a)
   (fun current => stopAtJoins && hasKind a KindJoin current)
   (reach_fuel (controlSuccessors a) (portTargets a nodeID port))
   (portTargets a nodeID port) ∅ = Done r) /\
(n ∈ reachableFromPortBounded a nodeID port stopAtJoins <-> flows_to a stopAtJoins nodeID port n).
Proof. split; [by apply reach_loop_Done|apply elem_of_region]. Qed.

(** The loop scope of a node is its innermost loop, whatever order Go
  ranges over the loops in: empty when no loop body contains the node, else
  a loop whose body contains it and no loop containing it has a smaller
  body. *)
Theorem loopScope_innermost a id :
id ∈ map nodeId (graphNodes (a_graph a)) -> "" ∉ nodesOfKind a KindForEach ->
(loopScope a id = "" ->
   forall L, L ∈ nodesOfKind a KindForEach -> id ∉ reachableFromPort a L "body") /\
(loopScope a id <> "" ->
   loopScope a id ∈ nodesOfKind a KindForEach /\
   id ∈ reachableFromPort a (loopScope a id) "body" /\
   forall L, L ∈ nodesOfKind a KindForEach -> id ∈ reachableFromPort a L "body" ->
     (size (reachableFromPort a (loopScope a id) "body") <= size (reachableFromPort a L "body"))%nat).
Proof.
intros Hid Hne. unfold loopScope. rewrite loopScopes_lookup, decide_True by done. simpl.
split; [|apply innermostLoop_spec]. intros H. by apply innermostLoop_empty.
Qed.

(** ScopeVisible decides visibility and always answers on well-nested
  loops. When no loop can be reached from its own body, the walk up the
  scopes ends, and it answers true exactly when the source is top-level or
  its scope is one of the scopes around the target. *)
Theorem scopeVisible_well_nested a sourceScope id :
loops_well_nested a ->
exists b, scopeVisible a sourceScope (loopScope a id) = Done b /\
  (b = true <-> sourceScope = "" \/ encloses a sourceScope (loopScope a id)).
Proof.
intros Hwn. pose proof (scopeVisible_cases a sourceScope (loopScope a id)) as H.
destruct (scopeVisible a sourceScope (loopScope a id)) as [b| |]; [by exists b|done|].
exfalso. destruct H as [_ H].
destruct (walk_terminates a sourceScope (loopScope a id)) as (n & b & Hn); [done| |].
- destruct (decide (loopScope a id = "")); [by left|right; by apply loopScope_spec].
- by rewrite H in Hn.
Qed.

(** When scopeVisible has not answered within the number of loops of the
  graph, it never does: the Go loop then runs forever. *)
Theorem scopeVisible_Diverge a sourceScope targetScope :
scopeVisible a sourceScope targetScope = Diverge ->
forall fuel, scopeVisible_loop a fuel sourceScope targetScope = Diverge.
Proof.
intros H. pose proof (scopeVisible_cases a sourceScope targetScope) as Hc.
rewrite H in Hc. apply Hc.
Qed.

(** The witness a diagnostic shows is genuine and complete. When no
  control edge leads to an empty id and there is a single start node other
  than [avoid], witnessPath ends; what it returns is a control path from
  the start to the target that never enters [avoid], and it returns none
  only when there is no such path. *)
Theorem witnessPath_genuine a target avoid :
(forall e, e ∈ executableEdges a -> epNode (edgeTo e) <> "") ->
startNode a <> "" -> startNode a <> avoid ->
exists p, witnessPath a target avoid = Done p /\
  (p <> [] -> path_to a avoid target p) /\
  (p = [] -> forall l, ~ path_to a avoid target l).
Proof. intros. by apply witnessPath_spec. Qed.
End properties.

(** ** Concrete workflows *)

#[local] Existing Instance enumeration_order.

Definition sampleAnalysis (g : Graph) : analysis := newAnalysis g Flow.sampleCatalog.

Lemma loopScope_innermost_witness :
  "t" ∈ reachableFromPort (sampleAnalysis Flow.loopGraph) "L" "body" /\
  (loopScope (sampleAnalysis Flow.loopGraph) "t" <> "" ->
   loopScope (sampleAnalysis Flow.loopGraph) "t" ∈ nodesOfKind (sampleAnalysis Flow.loopGraph) KindForEach).
Proof.
  split; [apply (bool_decide_unpack _); vm_compute; exact I|].
  intros H. destruct (loopScope_innermost (sampleAnalysis Flow.loopGraph) "t") as [_ H2].
  - apply (bool_decide_unpack _). vm_compute. exact I.
  - apply (bool_decide_unpack _). vm_compute. exact I.
  - apply H2. exact H.
Defined.

(** The loops of a graph are well nested when the search says so. *)
Lemma loops_well_nested_dec a :
  forallb (fun L => negb (bool_decide (L ∈ reachableFromPort a L "body"))) (nodesOfKind a KindForEach) = true ->
  loops_well_nested a.
Proof.
  rewrite forallb_forall. intros H L HL. specialize (H L).
  rewrite <- list_elem_of_In, negb_true_iff, bool_decide_eq_false in H. auto.
Qed.

Lemma scopeVisible_well_nested_witness :
  exists b, scopeVisible (sampleAnalysis Flow.loopGraph) "L" (loopScope (sampleAnalysis Flow.loopGraph) "t") = Done b /\
    (b = true <-> "L" = "" \/ encloses (sampleAnalysis Flow.loopGraph) "L"
       (loopScope (sampleAnalysis Flow.loopGraph) "t")).
Proof.
  apply scopeVisible_well_nested. apply loops_well_nested_dec. vm_compute. reflexivity.
Defined.

Lemma scopeVisible_Diverge_witness :
  scopeVisible_loop (sampleAnalysis Flow.backEdgeGraph) 1000 "M" "L" = Diverge.
Proof. apply scopeVisible_Diverge. vm_compute. reflexivity. Defined.

Lemma witnessPath_genuine_witness :
  exists p, witnessPath (sampleAnalysis Flow.skipGraph) "u" "t" = Done p /\
    (p <> [] -> path_to (sampleAnalysis Flow.skipGraph) "t" "u" p) /\
    (p = [] -> forall l, ~ path_to (sampleAnalysis Flow.skipGraph) "t" "u" l).
Proof.
  apply witnessPath_genuine.
  - apply Forall_forall. apply (bool_decide_unpack _). vm_compute. exact I.
  - apply (bool_decide_unpack _). vm_compute. exact I.
  - apply (bool_decide_unpack _). vm_compute. exact I.
Defined.
