(* ===== verification/MustHaveRun.v ===== *)
(** The availability analysis: computeMustHaveRun, through, ordinaryMeet,
    joinMeet, intersect and sameSet of
    src/internal/server/workflow/validate/flow.go.

    [mustHaveRun[n]] is meant to be the set of nodes guaranteed to have run when
    control arrives at [n]. The Go code computes it as a fixed point, starting
    from the whole universe and shrinking. Against it stands [may_run], an
    operational description of control arriving at a node with a given history:
    one predecessor ran for an ordinary node, one per branch for a join. The
    file proves that the iteration terminates within the fuel given and that
    its result is exactly what every history has in common. *)
From S2P Require Import Prelude Catalog Graph Analysis Samples Reach.
From stdpp Require Import strings list gmap relations.
From Stdlib Require Import ZArith Lia.

Abbreviation ran_map := (gmap string (gset string)).

(** Go's [m[k]] on a map of sets. *)
Definition ran (M : ran_map) (n : string) : gset string := default ∅ (M !! n).

(** [intersect]. *)
Definition intersect (left right : gset string) : gset string :=
  filter (fun nodeID => nodeID ∈ right) left.

(** [sameSet]: equal sizes, and every element of one in the other. *)
Definition sameSet (left right : gset string) : bool :=
  (size left =? size right)%nat && forallb (fun nodeID => bool_decide (nodeID ∈ right)) (elements left).

(** [through]. *)
Definition through (M : ran_map) (edge : Edge) : gset string :=
  {[epNode (edgeFrom edge)]} ∪ ran M (epNode (edgeFrom edge)).

(** [ordinaryMeet]; the caller has checked that there is an edge. *)
Definition ordinaryMeet (M : ran_map) (edges : list Edge) : gset string :=
  match edges with
  | [] => ∅
  | edge :: rest => foldl (fun result e => intersect result (through M e)) (through M edge) rest
  end.

Section must_have_run.
Context {MO : MapOrder}.

(** [joinMeet]: meets within each branch, unions across them. *)
Definition joinMeet (M : ran_map) (edges : list Edge) : gset string :=
foldl (fun result branch => result ∪ ordinaryMeet M branch.2) ∅
  (range_map ["joinMeet"] (group_by (fun e => epPort (edgeTo e)) (fun e => e) edges)).

Context (a : analysis).

(** The executable nodes, sorted. *)
Definition universe : list string :=
sort_strings (List.filter (executable a) (map nodeId (graphNodes (a_graph a)))).

Definition inbound : gmap string (list Edge) :=
group_by (fun e => epNode (edgeTo e)) (fun e => e) (executableEdges a).

Definition inboundOf (nodeID : string) : list Edge := default [] (inbound !! nodeID).

(** The value the loop computes for one node. *)
Definition meet (M : ran_map) (nodeID : string) : gset string :=
if hasKind a KindJoin nodeID then joinMeet M (inboundOf nodeID)
else ordinaryMeet M (inboundOf nodeID).

(** The body of the inner loop. *)
Definition visit (st : ran_map * bool) (nodeID : string) : ran_map * bool :=
let '(M, changed) := st in
if String.eqb nodeID (startNode a) then st
else match inboundOf nodeID with
     | [] => st
     | _ :: _ =>
         let updated := meet M nodeID in
         if sameSet updated (ran M nodeID) then st else (<[nodeID := updated]> M, true)
     end.

(** [for changed := true; changed; { ... }]. *)
Fixpoint iterate (fuel : nat) (M : ran_map) : outcome ran_map :=
match fuel with
| O => Diverge
| S fuel' =>
    let '(M', changed) := foldl visit (M, false) universe in
    if changed then iterate fuel' M' else Done M'
end.

(** The optimistic start: nothing before the start node, everything before
  the others. *)
Definition initial : ran_map :=
foldl (fun M nodeID =>
  if String.eqb nodeID (startNode a) then <[nodeID := ∅]> M
  else <[nodeID := list_to_set universe]> M) ∅ universe.

(** Each round but the last removes a node from some set. *)
Definition run_fuel : nat := S (length universe * length universe).

(** [computeMustHaveRun]. *)
Definition computeMustHaveRun : outcome ran_map :=
if String.eqb (startNode a) "" then Done ∅ else iterate run_fuel initial.
End must_have_run.

(** * The set operations *)

Lemma elem_of_intersect l r n : n ∈ intersect l r <-> n ∈ l /\ n ∈ r.
Proof. unfold intersect. rewrite elem_of_filter. tauto. Qed.

Lemma sameSet_spec l r : sameSet l r = true <-> l = r.
Proof.
  unfold sameSet. rewrite andb_true_iff, Nat.eqb_eq, forallb_forall. split.
  - intros [Hs Hf]. apply size_subseteq_eq; [|done]. intros n Hn.
    specialize (Hf n). rewrite <- list_elem_of_In, elem_of_elements, bool_decide_eq_true in Hf. auto.
  - intros ->. split; [done|]. intros n.
    by rewrite <- list_elem_of_In, elem_of_elements, bool_decide_eq_true.
Qed.

Lemma elem_of_ordinaryMeet M edges n :
  edges <> [] -> n ∈ ordinaryMeet M edges <-> forall e, e ∈ edges -> n ∈ through M e.
Proof.
  destruct edges as [|e0 edges]; [done|]. intros _. simpl.
  assert (Hf : forall acc, n ∈ foldl (fun result e => intersect result (through M e)) acc edges <->
    n ∈ acc /\ forall e, e ∈ edges -> n ∈ through M e).
  { induction edges as [|e edges IH]; intros acc; simpl.
    - split; [|tauto]. intros H. split; [done|]. by intros ? ?%elem_of_nil.
    - rewrite IH, elem_of_intersect. split.
      + intros ([H1 H2] & H3). split; [done|]. intros e' [->|He]%elem_of_cons; auto.
      + intros [H1 H2]. split; [split; [done|apply H2; left]|].
        intros e' He. apply H2. by right. }
  rewrite Hf. split.
  - intros [H1 H2] e [->|He]%elem_of_cons; auto.
  - intros H. split; [apply H; left|]. intros e He. apply H. by right.
Qed.

Section meets.
Context {MO : MapOrder}.

Lemma elem_of_joinMeet M edges n :
n ∈ joinMeet M edges <->
exists e0, e0 ∈ edges /\
  forall e, e ∈ edges -> epPort (edgeTo e) = epPort (edgeTo e0) -> n ∈ through M e.
Proof.
unfold joinMeet.
assert (Hf : forall (l : list (string * list Edge)) acc,
  n ∈ foldl (fun result branch => result ∪ ordinaryMeet M branch.2) acc l <->
  n ∈ acc \/ exists branch, branch ∈ l /\ n ∈ ordinaryMeet M branch.2).
{ induction l as [|b l IH]; intros acc; simpl.
  - split; [auto|]. intros [|(? & ?%elem_of_nil & _)]; done.
  - rewrite IH, elem_of_union. setoid_rewrite elem_of_cons. naive_solver. }
rewrite Hf. split.
- intros [?|([port es] & Hin & Hn)]; [set_solver|].
  apply elem_of_range_map in Hin. simpl in Hn.
  pose proof (group_by_Some _ _ _ _ _ Hin) as [Hes Hne].
  rewrite map_id in Hes. destruct es as [|e0 es']; [done|].
  assert (Hmem : forall e, e ∈ e0 :: es' <-> e ∈ edges /\ epPort (edgeTo e) = port).
  { intros e. by rewrite Hes, !list_elem_of_In, filter_In, String.eqb_eq. }
  destruct (proj1 (Hmem e0)) as [He0 Hp0]; [left|].
  exists e0. split; [done|]. intros e He Hp.
  rewrite elem_of_ordinaryMeet in Hn by done. apply Hn, Hmem. by rewrite Hp.
- intros (e0 & He0 & Hall). right.
  destruct (proj2 (group_by_is_Some (fun e => epPort (edgeTo e)) (fun e : Edge => e) edges
    (epPort (edgeTo e0)))) as [es Hes]; [eauto|].
  exists (epPort (edgeTo e0), es). split; [by apply elem_of_range_map|]. simpl.
  pose proof (group_by_Some _ _ _ _ _ Hes) as [-> Hne]. rewrite map_id in *.
  rewrite elem_of_ordinaryMeet by done. intros e.
  rewrite list_elem_of_In, filter_In, String.eqb_eq, <- list_elem_of_In. intros [H1 H2]. auto.
Qed.
End meets.

(** * Histories *)

Section histories.
Context {MO : MapOrder}.
Context (a : analysis).

(** [may_run n S]: control can arrive at [n] when exactly the nodes of [S]
  have run. The start node begins with nothing run. An ordinary node is
  entered along one edge from a node that ran. A join is entered once every
  wired branch has delivered: [pick] names the edge each branch came in by. *)
Inductive may_run : string -> gset string -> Prop :=
| run_start : may_run (startNode a) ∅
| run_edge e S :
  e ∈ executableEdges a -> hasKind a KindJoin (epNode (edgeTo e)) = false ->
  may_run (epNode (edgeFrom e)) S ->
  may_run (epNode (edgeTo e)) ({[epNode (edgeFrom e)]} ∪ S)
| run_join n (ports : list string) (pick : string -> Edge) (hist : string -> gset string) :
  hasKind a KindJoin n = true -> ports <> [] ->
  (forall port, port ∈ ports <-> exists e, e ∈ executableEdges a /\ edgeTo e = {| epNode := n; epPort := port |}) ->
  (forall port, port ∈ ports -> pick port ∈ executableEdges a /\
     edgeTo (pick port) = {| epNode := n; epPort := port |}) ->
  (forall port, port ∈ ports -> may_run (epNode (edgeFrom (pick port))) (hist port)) ->
  may_run n (⋃ map (fun port => {[epNode (edgeFrom (pick port))]} ∪ hist port) ports).

Lemma elem_of_inboundOf n e :
e ∈ inboundOf a n <-> e ∈ executableEdges a /\ epNode (edgeTo e) = n.
Proof.
unfold inboundOf, inbound. rewrite elem_of_group_by. split.
- intros (e' & ? & ? & ->). done.
- intros []. by exists e.
Qed.

Lemma elem_of_universe n :
n ∈ universe a <-> n ∈ map nodeId (graphNodes (a_graph a)) /\ executable a n = true.
Proof.
unfold universe. rewrite elem_of_sort_strings, !list_elem_of_In, filter_In. done.
Qed.

(** The analyses the validator builds resolve only nodes of the graph. *)
Hypothesis types_nodes : forall id, is_Some (a_types a !! id) -> id ∈ map nodeId (graphNodes (a_graph a)).

Lemma executable_universe n : executable a n = true -> n ∈ universe a.
Proof. intros H. apply elem_of_universe. split; [|done]. by apply types_nodes, executable_node. Qed.

Lemma edge_universe e :
e ∈ executableEdges a -> epNode (edgeFrom e) ∈ universe a /\ epNode (edgeTo e) ∈ universe a.
Proof. intros (_ & H1 & H2)%elem_of_executableEdges. by split; apply executable_universe. Qed.

(** ** The meet *)

Lemma elem_of_meet M n m :
inboundOf a n <> [] ->
m ∈ meet a M n <->
if hasKind a KindJoin n
then exists e0, e0 ∈ inboundOf a n /\ forall e, e ∈ inboundOf a n ->
       epPort (edgeTo e) = epPort (edgeTo e0) -> m ∈ through M e
else forall e, e ∈ inboundOf a n -> m ∈ through M e.
Proof.
intros Hne. unfold meet. destruct (hasKind a KindJoin n).
- apply elem_of_joinMeet.
- by apply elem_of_ordinaryMeet.
Qed.

Lemma through_mono M M' e : (forall n, ran M n ⊆ ran M' n) -> through M e ⊆ through M' e.
Proof. intros H. unfold through. specialize (H (epNode (edgeFrom e))). set_solver. Qed.

Lemma meet_mono M M' n :
inboundOf a n <> [] -> (forall k, ran M k ⊆ ran M' k) -> meet a M n ⊆ meet a M' n.
Proof.
intros Hne H m. rewrite !elem_of_meet by done.
destruct (hasKind a KindJoin n).
- intros (e0 & He0 & Hall). exists e0. split; [done|]. intros e He Hp.
  by eapply through_mono, Hall.
- intros Hall e He. by eapply through_mono, Hall.
Qed.

(** The nodes the loop recomputes. *)
Definition updated_node (n : string) : Prop := n <> startNode a /\ inboundOf a n <> [].

(** ** The iteration *)

(** The loop's invariant: the sets lie above their recomputed values and
  within the universe, the start has none, and a node missing from a set is
  missing from some history. *)
Record iter_ok (M : ran_map) : Prop := {
io_post n : updated_node n -> meet a M n ⊆ ran M n;
io_univ n m : m ∈ ran M n -> m ∈ universe a;
io_start : ran M (startNode a) = ∅;
io_hist n m : n ∈ universe a -> m ∈ universe a -> m ∉ ran M n ->
  exists S, may_run n S /\ m ∉ S;
}.

Definition below (M' M : ran_map) : Prop := forall n, ran M' n ⊆ ran M n.

Definition measure (M : ran_map) : nat := sum_list_with (fun n => size (ran M n)) (universe a).

Lemma ran_insert M n X k : ran (<[n := X]> M) k = if decide (n = k) then X else ran M k.
Proof. unfold ran. rewrite lookup_insert. by case_decide. Qed.

Lemma measure_update M n X :
n ∈ universe a -> X ⊂ ran M n -> (measure (<[n := X]> M) < measure M)%nat.
Proof.
intros Hn HX. pose proof (subset_size _ _ HX) as Hlt. unfold measure.
assert (Hle : forall l, (sum_list_with (fun k => size (ran (<[n := X]> M) k)) l <=
  sum_list_with (fun k => size (ran M k)) l)%nat).
{ induction l as [|k l IH]; simpl; [lia|]. rewrite ran_insert. case_decide; subst; lia. }
induction (universe a) as [|k l IH]; [by apply elem_of_nil in Hn|]. simpl.
pose proof (Hle l). destruct (decide (n = k)) as [->|Hne].
- rewrite ran_insert, decide_True by done. lia.
- apply elem_of_cons in Hn as [|Hn]; [done|]. specialize (IH Hn).
  rewrite ran_insert, decide_False by done. lia.
Qed.

Lemma finite_choice {B} (P : string -> B -> Prop) (b0 : B) (l : list string) :
(forall p, p ∈ l -> exists b, P p b) -> exists f, forall p, p ∈ l -> P p (f p).
Proof.
induction l as [|p l IH]; intros H.
- exists (fun _ => b0). by intros ? ?%elem_of_nil.
- destruct IH as [f Hf]; [intros q Hq; apply H; by right|].
  destruct (H p) as [b Hb]; [left|].
  exists (fun q => if decide (q = p) then b else f q). intros q Hq.
  case_decide as E; [by subst|]. apply Hf. by apply elem_of_cons in Hq as [|].
Qed.

(** A node missing from what an edge carries is missing from a history of
  its source. *)
Lemma edge_history M n m e :
iter_ok M -> m ∈ universe a -> e ∈ inboundOf a n -> m ∉ through M e ->
exists S, may_run (epNode (edgeFrom e)) S /\ m ∉ {[epNode (edgeFrom e)]} ∪ S.
Proof.
intros Hok Hm [He _]%elem_of_inboundOf Hme. unfold through in Hme.
destruct (io_hist M Hok (epNode (edgeFrom e)) m) as (S & HS & HmS);
  [by apply edge_universe|done|set_solver|].
exists S. split; [done|]. set_solver.
Qed.

(** What fails of all elements of a list fails of one. *)
Lemma not_all_through M (es : list Edge) m (P : Edge -> Prop) `{!forall e, Decision (P e)} :
~ (forall e, e ∈ es -> P e -> m ∈ through M e) -> exists e, e ∈ es /\ P e /\ m ∉ through M e.
Proof.
intros Hnot. destruct (decide (Exists (fun e => P e /\ m ∉ through M e) es)) as [Hex|Hex].
- apply Exists_exists in Hex as (e & ? & ? & ?). eauto.
- exfalso. apply Hnot. intros e He HP.
  destruct (decide (m ∈ through M e)) as [|Hme]; [done|].
  exfalso. apply Hex, Exists_exists. eauto.
Qed.

Lemma ordinary_history M n m :
iter_ok M -> m ∈ universe a -> hasKind a KindJoin n = false ->
~ (forall e, e ∈ inboundOf a n -> m ∈ through M e) -> exists S, may_run n S /\ m ∉ S.
Proof.
intros Hok Hm Hk Hnot.
destruct (not_all_through M (inboundOf a n) m (fun _ => True)) as (e & He & _ & Hme); [eauto|].
destruct (edge_history M n m e Hok Hm He Hme) as (S & HS & HmS).
apply elem_of_inboundOf in He as [He <-].
exists ({[epNode (edgeFrom e)]} ∪ S). split; [by apply run_edge|done].
Qed.

(** The ports of the branches wired into [n]. *)
Definition joinPorts (n : string) : list string := map (fun e => epPort (edgeTo e)) (inboundOf a n).

Lemma elem_of_joinPorts n port :
port ∈ joinPorts n <->
exists e, e ∈ executableEdges a /\ edgeTo e = {| epNode := n; epPort := port |}.
Proof.
unfold joinPorts. rewrite list_elem_of_fmap. setoid_rewrite elem_of_inboundOf. split.
- intros (e & -> & He & <-). exists e. split; [done|]. by destruct (edgeTo e).
- intros (e & He & Heq). exists e. by rewrite Heq.
Qed.

Lemma join_history M n m :
iter_ok M -> m ∈ universe a -> hasKind a KindJoin n = true -> inboundOf a n <> [] ->
~ (exists e0, e0 ∈ inboundOf a n /\ forall e, e ∈ inboundOf a n ->
     epPort (edgeTo e) = epPort (edgeTo e0) -> m ∈ through M e) ->
exists S, may_run n S /\ m ∉ S.
Proof.
intros Hok Hm Hk Hne Hnot.
assert (Hbad : forall port, port ∈ joinPorts n -> exists eS : Edge * gset string,
  eS.1 ∈ inboundOf a n /\ epPort (edgeTo eS.1) = port /\
  may_run (epNode (edgeFrom eS.1)) eS.2 /\ m ∉ {[epNode (edgeFrom eS.1)]} ∪ eS.2).
{ intros port [e0 [-> He0]]%list_elem_of_fmap.
  destruct (not_all_through M (inboundOf a n) m
    (fun e => epPort (edgeTo e) = epPort (edgeTo e0))) as (e & He & Hp & Hme); [naive_solver|].
  destruct (edge_history M n m e Hok Hm He Hme) as (S & HS & HmS). by exists (e, S). }
destruct (inboundOf a n) as [|e0 es] eqn:Hin; [done|]. rewrite <- Hin in *.
destruct (finite_choice _ (e0, ∅) (joinPorts n) Hbad) as [f Hf].
exists (⋃ map (fun port => {[epNode (edgeFrom (f port).1)]} ∪ (f port).2) (joinPorts n)). split.
- apply (run_join n _ (fun p => (f p).1) (fun p => (f p).2)); [done| |apply elem_of_joinPorts| |].
  + unfold joinPorts. by rewrite Hin.
  + intros port Hp. destruct (Hf port Hp) as ([H1 H3]%elem_of_inboundOf & H2 & _).
    split; [done|]. destruct (edgeTo (f port).1); simpl in *. by subst.
  + intros port Hp. by apply Hf.
- rewrite elem_of_union_list. intros (X & [port [-> Hp]]%list_elem_of_fmap & HmX).
  by destruct (Hf port Hp) as (_ & _ & _ & H).
Qed.

(** Not being in the recomputed set is witnessed by a history. *)
Lemma meet_history M n m :
iter_ok M -> updated_node n -> m ∈ universe a -> m ∉ meet a M n ->
exists S, may_run n S /\ m ∉ S.
Proof.
intros Hok [_ Hne] Hm. rewrite elem_of_meet by done.
destruct (hasKind a KindJoin n) eqn:Hk; intros Hnot.
- by eapply join_history.
- by eapply ordinary_history.
Qed.

(** One visit keeps the invariant and only shrinks; if it changes anything
  the measure drops. *)
Lemma visit_ok M changed n M' changed' :
iter_ok M -> n ∈ universe a -> visit a (M, changed) n = (M', changed') ->
iter_ok M' /\
((M' = M /\ changed' = changed /\ (updated_node n -> meet a M n = ran M n)) \/
 (changed' = true /\ (measure M' < measure M)%nat)).
Proof.
intros Hok Hn. simpl.
assert (Hsame : (M, changed) = (M', changed') -> (updated_node n -> meet a M n = ran M n) ->
  iter_ok M' /\ ((M' = M /\ changed' = changed /\ (updated_node n -> meet a M n = ran M n)) \/
    (changed' = true /\ (measure M' < measure M)%nat))).
{ intros [= <- <-]. auto. }
destruct (String.eqb_spec n (startNode a)) as [Hs|Hs].
{ intros H. apply Hsame; [done|]. by intros [? _]. }
destruct (inboundOf a n) as [|e0 es] eqn:Hin.
{ intros H. apply Hsame; [done|]. by intros [_ ?]. }
assert (Hu : updated_node n) by (split; [done|by rewrite Hin]).
destruct (sameSet (meet a M n) (ran M n)) eqn:Hss.
{ intros H. apply Hsame; [done|]. intros _. by apply sameSet_spec. }
intros [= <- <-]. clear Hsame. pose proof (io_post M Hok n Hu) as Hsub.
assert (Hne : meet a M n <> ran M n) by (intros H; apply sameSet_spec in H; congruence).
assert (Hstrict : meet a M n ⊂ ran M n) by set_solver.
split; [|right; split; [done|by apply measure_update]].
assert (Hbelow : below (<[n:=meet a M n]> M) M).
{ intros k. rewrite ran_insert. case_decide; [by subst|done]. }
constructor.
- intros k Hk. etrans; [apply (meet_mono _ M); [apply Hk|done]|].
  rewrite ran_insert. case_decide; [by subst|]. by apply io_post.
- intros k m Hm. eapply (io_univ M Hok k). by apply Hbelow.
- rewrite ran_insert, decide_False by done. apply (io_start M Hok).
- intros k m Hk Hm. rewrite ran_insert. case_decide as E; [subst k|by apply io_hist].
  by apply meet_history.
Qed.

Lemma pass_ok l M changed M' changed' :
iter_ok M -> (forall n, n ∈ l -> n ∈ universe a) ->
foldl (visit a) (M, changed) l = (M', changed') ->
iter_ok M' /\
((M' = M /\ changed' = changed /\ forall n, n ∈ l -> updated_node n -> meet a M n = ran M n) \/
 (changed' = true /\ (measure M' < measure M)%nat)).
Proof.
revert M changed. induction l as [|n l IH]; intros M changed Hok Hl; cbn [foldl].
{ intros [= <- <-]. split; [done|]. left. split_and!; [done..|]. by intros ? ?%elem_of_nil. }
destruct (visit a (M, changed) n) as [M1 c1] eqn:Hv. intros Hf.
destruct (visit_ok _ _ _ _ _ Hok (Hl n ltac:(left)) Hv) as [Hok1 H1].
destruct (IH M1 c1 Hok1 ltac:(set_solver) Hf) as [Hok' H2]. split; [done|].
destruct H1 as [(-> & -> & H1)|[-> H1]], H2 as [(-> & -> & H2)|[-> H2]].
- left. split_and!; [done..|]. intros k [->|Hk]%elem_of_cons; auto.
- right. auto.
- right. auto.
- right. split; [done|lia].
Qed.

(** The result: the invariant, and a fixed point. *)
Definition fixed (M : ran_map) : Prop :=
iter_ok M /\ forall n, n ∈ universe a -> updated_node n -> meet a M n = ran M n.

Lemma iterate_fixed fuel M :
iter_ok M -> (measure M < fuel)%nat -> exists M', iterate a fuel M = Done M' /\ fixed M'.
Proof.
revert M. induction fuel as [|fuel IH]; intros M Hok Hf; [lia|]. simpl.
destruct (foldl (visit a) (M, false) (universe a)) as [M' c] eqn:Hfold.
destruct (pass_ok _ _ _ _ _ Hok ltac:(done) Hfold) as [Hok' [(-> & -> & H)|[-> H]]].
- exists M. split; [done|]. by split.
- apply IH; [done|lia].
Qed.

(** ** The optimistic start *)

(** The start node resolves, being of a kind. *)
Hypothesis start_named : startNode a <> "".

Lemma start_universe : startNode a ∈ universe a.
Proof.
destruct (startNode_kind a start_named) as [Hk _].
by apply executable_universe, (executable_hasKind a KindStart).
Qed.

Lemma ran_initial n :
ran (initial a) n = if decide (n ∈ universe a) then
  (if decide (n = startNode a) then ∅ else list_to_set (universe a)) else ∅.
Proof.
unfold initial. set (full := list_to_set (universe a)). clearbody full.
assert (Hf : forall l M, ran (foldl (fun M nodeID =>
    if String.eqb nodeID (startNode a) then <[nodeID := ∅]> M
    else <[nodeID := full]> M) M l) n =
  if decide (n ∈ l) then (if decide (n = startNode a) then ∅ else full) else ran M n).
{ induction l as [|k l IH]; intros M; cbn [foldl].
{ rewrite decide_False; [done|apply not_elem_of_nil]. }
  rewrite IH. destruct (decide (n ∈ l)) as [Hin|Hin].
  { by rewrite (decide_True (P := n ∈ k :: l)) by (by right). }
  destruct (decide (k = n)) as [->|Hne].
  - rewrite (decide_True (P := n ∈ n :: l)) by left.
    destruct (String.eqb_spec n (startNode a)); rewrite ran_insert; by repeat case_decide.
  - rewrite (decide_False (P := n ∈ k :: l)) by (rewrite elem_of_cons; naive_solver).
    destruct (String.eqb k (startNode a)); rewrite ran_insert; by rewrite decide_False by done. }
rewrite Hf. done.
Qed.

Lemma initial_ok : iter_ok (initial a).
Proof.
assert (Huniv : forall n m, m ∈ ran (initial a) n -> m ∈ universe a).
{ intros n m. rewrite ran_initial. repeat case_decide; try done.
  by rewrite elem_of_list_to_set. }
constructor.
- intros n [Hs Hne] m Hm. rewrite elem_of_meet in Hm by done.
  assert (Hthrough : forall e, e ∈ inboundOf a n -> m ∈ through (initial a) e -> m ∈ universe a).
  { intros e [He _]%elem_of_inboundOf. unfold through. rewrite elem_of_union, elem_of_singleton.
    intros [->|]; [by apply edge_universe|eauto]. }
  assert (n ∈ universe a /\ m ∈ universe a) as [Hn Hmu].
  { destruct (inboundOf a n) as [|e es] eqn:Hin; [done|].
    assert (He : e ∈ inboundOf a n) by (rewrite Hin; left). split.
    - apply elem_of_inboundOf in He as [He <-]. by apply edge_universe.
    - destruct (hasKind a KindJoin n).
      + destruct Hm as (e0 & He0 & Hall). rewrite <- Hin in *. eauto.
      + apply (Hthrough e); [left|]. apply Hm. left. }
  rewrite ran_initial, decide_True, decide_False by done. by apply elem_of_list_to_set.
- exact Huniv.
- rewrite ran_initial. by repeat case_decide.
- intros n m Hn Hm Hnot. rewrite ran_initial, decide_True in Hnot by done.
  case_decide as E; [|by rewrite elem_of_list_to_set in Hnot].
  subst. exists ∅. split; [apply run_start|done].
Qed.

Lemma measure_initial : (measure (initial a) < run_fuel a)%nat.
Proof.
unfold run_fuel, measure. generalize (universe a) at 1 3 as l.
assert (Hle : forall n, (size (ran (initial a) n) <= length (universe a))%nat).
{ intros n. rewrite ran_initial. repeat case_decide;
    apply size_le_length; intros x; set_solver. }
induction l as [|n l IH]; simpl; [lia|]. specialize (Hle n). lia.
Qed.

Lemma computed_fixed : exists M, computeMustHaveRun a = Done M /\ fixed M.
Proof.
unfold computeMustHaveRun. destruct (String.eqb_spec (startNode a) ""); [done|].
apply iterate_fixed; [apply initial_ok|apply measure_initial].
Qed.

(** A fixed point lies within every history. *)
Lemma fixed_sound M n S : fixed M -> may_run n S -> ran M n ⊆ S.
Proof.
intros [Hok Hfix]. induction 1 as [|e S He Hj HS IH|n ports pick hist Hj Hne Hports Hpick Hrun IH].
- by rewrite (io_start M Hok).
- destruct (decide (epNode (edgeTo e) = startNode a)) as [Hs|Hs].
  { rewrite Hs, (io_start M Hok). set_solver. }
  assert (Hin : e ∈ inboundOf a (epNode (edgeTo e))) by (by apply elem_of_inboundOf).
  assert (Hneq : inboundOf a (epNode (edgeTo e)) <> []) by (intros Hnil; rewrite Hnil in Hin; by apply elem_of_nil in Hin).
  rewrite <- Hfix by (by apply edge_universe || done).
  intros m. rewrite elem_of_meet, Hj by done. intros Hall. specialize (Hall e Hin).
  unfold through in Hall. set_solver.
- destruct (decide (n = startNode a)) as [Hs|Hs].
  { rewrite Hs, (io_start M Hok). set_solver. }
  destruct ports as [|p0 ps]; [done|]. set (ports := p0 :: ps) in *.
  assert (Hin : forall p, p ∈ ports -> pick p ∈ inboundOf a n).
  { intros p Hp. destruct (Hpick p Hp) as [H1 H2]. apply elem_of_inboundOf. by rewrite H2. }
  assert (Hp0 : p0 ∈ ports) by left.
  assert (Hneq : inboundOf a n <> []) by (intros Hnil; specialize (Hin _ Hp0); rewrite Hnil in Hin; by apply elem_of_nil in Hin).
  assert (Hn : n ∈ universe a).
  { destruct (Hpick p0 Hp0) as [H1 H2]. apply edge_universe in H1. rewrite H2 in H1. apply H1. }
  rewrite <- Hfix by done. intros m. rewrite elem_of_meet, Hj by done.
  intros (e0 & He0 & Hall). apply elem_of_inboundOf in He0 as [He0 Hto].
  assert (Hp : epPort (edgeTo e0) ∈ ports).
  { apply Hports. exists e0. split; [done|]. rewrite <- Hto. by destruct (edgeTo e0). }
  specialize (Hall _ (Hin _ Hp)). destruct (Hpick _ Hp) as [_ Hto']. rewrite Hto' in Hall.
  specialize (Hall eq_refl). unfold through in Hall.
  apply elem_of_union_list. eexists. split.
  + apply list_elem_of_fmap. by exists (epPort (edgeTo e0)).
  + specialize (IH _ Hp). set_solver.
Qed.

(** Membership in a fixed point, in terms of histories. *)
Lemma fixed_exact M n m :
fixed M -> n ∈ universe a ->
m ∈ ran M n <-> m ∈ universe a /\ forall S, may_run n S -> m ∈ S.
Proof.
intros HM Hn. split.
- intros Hm. split; [by eapply io_univ; [apply HM|]|].
  intros S HS. by eapply fixed_sound.
- intros [Hm Hall]. destruct (decide (m ∈ ran M n)) as [|Hnot]; [done|].
  destruct (io_hist M (proj1 HM) n m) as (S & HS & HmS); [done..|].
  by apply Hall in HS.
Qed.
End histories.

(** * Running before *)

Section before.
Context (a : analysis).

(** [may_run] with the height of the derivation. *)
Inductive may_run_in : nat -> string -> gset string -> Prop :=
| in_start : may_run_in 0 (startNode a) ∅
| in_edge h e S :
  e ∈ executableEdges a -> hasKind a KindJoin (epNode (edgeTo e)) = false ->
  may_run_in h (epNode (edgeFrom e)) S ->
  may_run_in (Datatypes.S h) (epNode (edgeTo e)) ({[epNode (edgeFrom e)]} ∪ S)
| in_join h n (ports : list string) (pick : string -> Edge) (hist : string -> gset string)
  (height : string -> nat) :
  hasKind a KindJoin n = true -> ports <> [] ->
  (forall port, port ∈ ports <-> exists e, e ∈ executableEdges a /\ edgeTo e = {| epNode := n; epPort := port |}) ->
  (forall port, port ∈ ports -> pick port ∈ executableEdges a /\
     edgeTo (pick port) = {| epNode := n; epPort := port |}) ->
  (forall port, port ∈ ports -> (height port < h)%nat /\
     may_run_in (height port) (epNode (edgeFrom (pick port))) (hist port)) ->
  may_run_in h n (⋃ map (fun port => {[epNode (edgeFrom (pick port))]} ∪ hist port) ports).

Lemma may_run_in_sound h n S : may_run_in h n S -> may_run a n S.
Proof.
revert n S. induction h as [h IH] using lt_wf_ind. intros n S H. destruct H as [|h e S He Hj HS|].
- apply run_start.
- apply run_edge; [done..|]. apply (IH h); [lia|done].
- apply (run_join a n ports pick hist); [done..|]. intros p Hp.
  destruct (H3 p Hp) as [Hlt Hp']. by eapply IH.
Qed.

(** The greatest height over a list of ports. *)
Lemma height_bound (height : string -> nat) (ports : list string) :
exists h, forall p, p ∈ ports -> (height p < h)%nat.
Proof.
induction ports as [|p l [h IH]].
- exists 0%nat. by intros ? ?%elem_of_nil.
- exists (Datatypes.S (height p + h)). intros q [->|Hq]%elem_of_cons; [lia|].
  specialize (IH q Hq). lia.
Qed.

Lemma may_run_in_complete n S : may_run a n S -> exists h, may_run_in h n S.
Proof.
induction 1 as [|e S He Hj HS [h IH]|n ports pick hist Hj Hne Hports Hpick Hrun IH].
- exists 0%nat. constructor.
- exists (Datatypes.S h). by constructor.
- destruct (finite_choice (fun p h => may_run_in h (epNode (edgeFrom (pick p))) (hist p)) 0%nat ports)
    as [height Hh]; [intros p Hp; by apply IH|].
  destruct (height_bound height ports) as [h Hlt].
  exists h. apply (in_join h n ports pick hist height); [done..|]. auto.
Qed.

(** What ran before arrived in its turn, with a shorter history. *)
Lemma history_prefix h n S m :
may_run_in h n S -> m ∈ S -> exists h' S', (h' < h)%nat /\ may_run_in h' m S' /\ S' ⊆ S.
Proof.
revert n S. induction h as [h IH] using lt_wf_ind. intros n S H.
destruct H as [|h e S He Hj HS|h n ports pick hist height Hj Hne Hports Hpick Hrun].
- set_solver.
- intros [->%elem_of_singleton|Hm]%elem_of_union.
  + exists h, S. split_and!; [lia|done|set_solver].
  + destruct (IH h ltac:(lia) _ _ HS Hm) as (h' & S' & ? & ? & ?).
    exists h', S'. split_and!; [lia|done|set_solver].
- intros (X & (p & -> & Hp)%list_elem_of_fmap & Hm)%elem_of_union_list.
  destruct (Hrun p Hp) as [Hlt Hin].
  assert (Hsub : {[epNode (edgeFrom (pick p))]} ∪ hist p ⊆
    ⋃ map (fun port => {[epNode (edgeFrom (pick port))]} ∪ hist port) ports).
  { intros x Hx. apply elem_of_union_list. eexists. split; [|exact Hx].
    apply list_elem_of_fmap. eauto. }
  apply elem_of_union in Hm as [->%elem_of_singleton|Hm].
  + exists (height p), (hist p). split_and!; [lia|done|set_solver].
  + destruct (IH _ Hlt _ _ Hin Hm) as (h' & S' & ? & ? & ?).
    exists h', S'. split_and!; [lia|done|set_solver].
Qed.

(** [m] runs in every history of [n]. *)
Definition always_before (m n : string) : Prop := forall S, may_run a n S -> m ∈ S.

Lemma always_before_run m n S :
may_run a n S -> always_before m n -> exists S', may_run a m S' /\ S' ⊆ S.
Proof.
intros HS Hb. pose proof (Hb S HS) as Hm. destruct (may_run_in_complete n S HS) as [h Hh].
destruct (history_prefix h n S m Hh Hm) as (h' & S' & _ & H & ?). exists S'.
split; [by eapply may_run_in_sound|done].
Qed.

Lemma always_before_trans k m n : always_before k m -> always_before m n -> always_before k n.
Proof.
intros H1 H2 S HS. destruct (always_before_run m n S HS H2) as (S' & HS' & Hsub).
apply Hsub, H1, HS'.
Qed.

Lemma always_before_irrefl n S : may_run a n S -> ~ always_before n n.
Proof.
intros [h Hh]%may_run_in_complete Hb. revert S Hh.
induction h as [h IH] using lt_wf_ind. intros S Hh.
destruct (history_prefix h n S n Hh) as (h' & S' & Hlt & H & _).
- apply Hb. by eapply may_run_in_sound.
- by eapply (IH h').
Qed.

(** Chains of such pairs do not return to a node control can arrive at. *)
Lemma always_before_acyclic n S (R : string -> string -> Prop) :
(forall m k T, may_run a k T -> R m k -> always_before m k) ->
may_run a n S -> ~ tc R n n.
Proof.
intros HR HS Hc. apply (always_before_irrefl n S HS).
assert (Hgen : forall m k, tc R m k -> forall T, may_run a k T -> always_before m k).
{ clear n S HS Hc. intros m k Hc.
  induction Hc as [m k Hmk|m l k Hml _ IH]; intros T HT; [by eapply HR|].
  pose proof (IH T HT) as Hlk. eapply always_before_trans; [|exact Hlk].
  destruct (always_before_run l k T HT Hlk) as (T' & HT' & _). by eapply HR. }
by eapply Hgen.
Qed.
End before.

(** * The nodes the result speaks of *)

Section domain.
Context {MO : MapOrder}.
Context (a : analysis).

Lemma visit_dom n st : n ∈ dom st.1 -> dom (visit a st n).1 = dom st.1.
Proof.
destruct st as [M c]. cbn [fst]. intros Hn. unfold visit. repeat case_match; simplify_eq/=; try done.
rewrite dom_insert_L. set_solver.
Qed.

Lemma pass_dom l st : (forall n, n ∈ l -> n ∈ dom st.1) -> dom (foldl (visit a) st l).1 = dom st.1.
Proof.
revert st. induction l as [|n l IH]; intros st H; [done|]. cbn [foldl].
assert (Hd : dom (visit a st n).1 = dom st.1) by (apply visit_dom, H; left).
rewrite IH; [done|]. intros k Hk. rewrite Hd. apply H. by right.
Qed.

Lemma iterate_dom fuel M M' :
(forall n, n ∈ universe a -> n ∈ dom M) -> iterate a fuel M = Done M' -> dom M' = dom M.
Proof.
revert M. induction fuel as [|fuel IH]; intros M H; [done|]. cbn [iterate].
pose proof (pass_dom (universe a) (M, false) H) as Hd.
destruct (foldl (visit a) (M, false) (universe a)) as [M1 [|]]; cbn [fst] in Hd.
- intros HM. rewrite <- Hd. apply IH; [|done]. intros n Hn. rewrite Hd. by apply H.
- by intros [= <-].
Qed.

Lemma initial_dom n : n ∈ dom (initial a) <-> n ∈ universe a.
Proof.
unfold initial. set (full := list_to_set (universe a)). clearbody full.
assert (Hf : forall l (M : ran_map), n ∈ dom (foldl (fun M nodeID =>
    if String.eqb nodeID (startNode a) then <[nodeID := ∅]> M
    else <[nodeID := full]> M) M l) <-> n ∈ dom M \/ n ∈ l).
{ induction l as [|k l IH]; intros M; cbn [foldl]; [rewrite elem_of_nil; tauto|].
  rewrite IH, elem_of_cons. destruct (String.eqb k _); rewrite dom_insert; set_solver. }
rewrite Hf, dom_empty. set_solver.
Qed.

(** The result has an entry for the executable nodes, when there is a single
  start node to begin from. *)
Lemma computed_dom M n :
computeMustHaveRun a = Done M -> is_Some (M !! n) <-> startNode a <> "" /\ n ∈ universe a.
Proof.
rewrite <- elem_of_dom. unfold computeMustHaveRun.
destruct (String.eqb_spec (startNode a) "") as [Hs|Hs].
- intros [= <-]. rewrite dom_empty. set_solver.
- intros H. rewrite (iterate_dom _ _ _ (fun n => proj2 (initial_dom n)) H), initial_dom. tauto.
Qed.
End domain.

Section properties.
Context {MO : MapOrder}.

(** C2: the MustHaveRun fixed point ends and is exact. On any graph with a
  single start node the iteration of computeMustHaveRun stops, and its
  answer for two executable nodes is precisely that one is in every history
  with which control can arrive at the other: along any one edge for an
  ordinary node, along one edge of every wired branch for a join. *)
Theorem computeMustHaveRun_exact graph catalog :
startNode (newAnalysis graph catalog) <> "" ->
exists M, computeMustHaveRun (newAnalysis graph catalog) = Done M /\
  forall n m, executable (newAnalysis graph catalog) n = true ->
    executable (newAnalysis graph catalog) m = true ->
    (m ∈ ran M n <-> forall S, may_run (newAnalysis graph catalog) n S -> m ∈ S).
Proof.
set (a := newAnalysis graph catalog). intros Hs.
pose proof (newAnalysis_types_nodes graph catalog) as Hty. fold a in Hty.
destruct (computed_fixed a Hty Hs) as (M & HM & Hfix). exists M. split; [done|].
intros n m Hn Hm. rewrite (fixed_exact a Hty Hs M n m Hfix) by (by apply executable_universe).
split; [tauto|]. intros H. split; [by apply executable_universe|done].
Qed.
End properties.

Lemma computeMustHaveRun_exact_witness :
  exists M, computeMustHaveRun (MO := enumeration_order) (sampleAnalysis Flow.parallelGraph) = Done M /\
    forall n m, executable (sampleAnalysis Flow.parallelGraph) n = true ->
      executable (sampleAnalysis Flow.parallelGraph) m = true ->
      (m ∈ ran M n <-> forall S, may_run (sampleAnalysis Flow.parallelGraph) n S -> m ∈ S).
Proof.
  apply (computeMustHaveRun_exact (MO := enumeration_order) Flow.parallelGraph Flow.sampleCatalog).
  apply (bool_decide_unpack _). vm_compute. exact I.
Defined.
