(* ===== verification/Structure.v ===== *)
(** The rules on parallels and terminals: checkTerminalPlacement,
    checkParallelJoins, declaredBranches and asInt of
    src/internal/server/workflow/validate/flow.go.

    Each pass returns the diagnostics it appends. checkTerminalPlacement
    dereferences the control ports of a parallel without looking whether the
    catalog entry has any, which is Go's nil panic: [Panic] here. *)
From S2P Require Import Prelude Catalog Graph Analysis Reach MustHaveRun.
From stdpp Require Import strings list gmap.
From Stdlib Require Import QArith ZArith Lia.
#[local] Open Scope nat_scope.
#[local] Open Scope go_scope.

(** [asInt], on the values [structpb.Value.AsInterface] returns: a number is a
    float64, whose conversion to int drops the fraction. *)
Definition asInt (v : Value) : option Z :=
  match v with
  | VNumber q => Some (Z.quot (Qnum q) (Zpos (Qden q)))
  | _ => None
  end.

(** A missing Value reads as null. *)
Definition asInterface (v : option Value) : Value := default VNull v.

Definition structField (settings : option (list (string * Value))) (name : string) : option Value :=
  match settings with
  | None => None
  | Some fields => snd <$> List.find (fun field => String.eqb field.1 name) fields
  end.

(** The loop over the catalog's settings: the first [branches] setting whose
    default is a number. *)
Fixpoint defaultBranches (settings : list Setting) : Z :=
  match settings with
  | [] => 0
  | setting :: rest =>
      if String.eqb (setName setting) "branches" then
        match asInt (asInterface (setDefault setting)) with
        | Some count => count
        | None => defaultBranches rest
        end
      else defaultBranches rest
  end.

Definition declaredBranches (node : option Node) (nodeType : NodeType) : Z :=
  match node ≫= (fun n => structField (nodeSettings n) "branches") with
  | Some raw =>
      match asInt raw with
      | Some count => count
      | None => defaultBranches (ntSettings nodeType)
      end
  | None => defaultBranches (ntSettings nodeType)
  end.

Section structure.
Context {MO : MapOrder}.
Context (a : analysis).

(** The out-ports of a parallel, [nodeType.Control.Out]. *)
Definition parallelPorts (nodeID : string) : outcome (list string) :=
match a_types a !! nodeID with
| Some nodeType =>
    match ntControl nodeType with
    | Some control => Done (cpOut control)
    | None => Panic
    end
| None => Done []
end.

(** Marks the nodes of one branch with their parallel, joins excepted. *)
Definition markBranch (parallelID : string) (nodes : gmap string string) (port : string)
: gmap string string :=
foldl (fun nodes reachedNode =>
  if hasKind a KindJoin reachedNode then nodes else <[reachedNode := parallelID]> nodes)
  nodes (range_set ["terminalPlacement"; parallelID; port] (branchRegion a parallelID port)).

(** The first loop of checkTerminalPlacement. *)
Definition parallelBranchNodes : outcome (gmap string string) :=
ofold (fun nodes id =>
  let* ports := parallelPorts id in
  Done (foldl (markBranch id) nodes ports)) ∅ (nodesOfKind a KindParallel).

Definition isTerminal (nodeID : string) : bool :=
hasKind a KindEnd nodeID || hasKind a KindFail nodeID.

(** The body of its second loop. *)
Definition terminalDiagnostics (branches : gmap string string) (nodeID : string) : list Diagnostic :=
if negb (isTerminal nodeID) then []
else
  let loopID := loopScope a nodeID in
  if negb (String.eqb loopID "") then
    [report SeverityError "terminal.inLoop"
       (nodeLabelOf a nodeID +:+ " ends the run, so it cannot sit inside the body of " +:+
        nodeLabelOf a loopID +:+ ". Use a Break node to leave the loop instead.")
       [nodeID; loopID] []]
  else
    match branches !! nodeID with
    | Some parallelID =>
        [report SeverityError "terminal.inParallelBranch"
           (nodeLabelOf a nodeID +:+ " ends the run, so it cannot sit inside a branch of " +:+
            nodeLabelOf a parallelID +:+
            " — the other branches would never reach the Join. Route to the Join and end after it.")
           [nodeID; parallelID] []]
    | None => []
    end.

Definition checkTerminalPlacement : outcome (list Diagnostic) :=
let* branches := parallelBranchNodes in
Done (flat_map (fun node => terminalDiagnostics branches (nodeId node))
        (graphNodes (a_graph a))).

(** The control out-ports of a node that are wired. *)
Definition usedPorts (nodeID : string) : gset string :=
list_to_set (map (fun edge => epPort (edgeFrom edge))
  (List.filter (fun edge => String.eqb (epNode (edgeFrom edge)) nodeID)
    (ControlEdges (a_graph a)))).

(** The joins behind one port. *)
Definition joinsFrom (nodeID port : string) : gset string :=
filter (fun reached => hasKind a KindJoin reached = true) (reachableFromPort a nodeID port).

(** The joins every branch so far reaches; nil before the first branch. *)
Definition shareJoins (nodeID : string) (shared : option (gset string)) (port : string)
: option (gset string) :=
let joins := joinsFrom nodeID port in
match shared with
| None => Some joins
| Some found => Some (intersect found joins)
end.

(** The joins every wired branch reaches. *)
Definition sharedJoins (nodeID : string) : option (gset string) :=
foldl (shareJoins nodeID) None (range_set ["parallelJoins"; nodeID] (usedPorts nodeID)).

(** The body of the loop over the parallels. *)
Definition parallelDiagnostics (nodeID : string) : list Diagnostic :=
match a_types a !! nodeID with
| None => []
| Some nodeType =>
    if negb (hasKind a KindParallel nodeID) then []
    else
      let used := size (usedPorts nodeID) in
      if (used =? 0)%nat then []
      else
        let declared := declaredBranches (a_nodes a !! nodeID) nodeType in
        (if (used <? 2)%nat then
           [report SeverityWarning "parallel.singleBranch"
              (nodeLabelOf a nodeID +:+ " has only one branch wired, so it runs nothing concurrently.")
              [nodeID] []]
         else []) ++
        (if (0 <? declared)%Z && (declared <? Z.of_nat used)%Z then
           [report SeverityError "parallel.tooManyBranches"
              (nodeLabelOf a nodeID +:+ " is set to " +:+ show_Z declared +:+ " branches but " +:+
               show_Z (Z.of_nat used) +:+ " are wired.")
              [nodeID] []]
         else []) ++
        (if bool_decide (default ∅ (sharedJoins nodeID) = ∅) then
           [report SeverityError "parallel.noSharedJoin"
              ("The branches of " +:+ nodeLabelOf a nodeID +:+
               " do not all reach the same Join, so the run could not tell when they had finished.")
              [nodeID] []]
         else [])
end.

Definition checkParallelJoins : list Diagnostic :=
flat_map (fun node => parallelDiagnostics (nodeId node)) (graphNodes (a_graph a)).
End structure.

(** * What the passes find *)

Section facts.
Context {MO : MapOrder}.
Context (a : analysis).

(** Every parallel of the graph has a catalog entry with control ports. *)
Definition parallels_ported : Prop :=
forall id, id ∈ nodesOfKind a KindParallel -> exists ports, parallelPorts a id = Done ports.

Lemma parallelPorts_no_Diverge id : parallelPorts a id <> Diverge.
Proof. unfold parallelPorts. by repeat case_match. Qed.

Lemma markBranch_spec id nodes port n :
is_Some (markBranch a id nodes port !! n) <->
is_Some (nodes !! n) \/ (n ∈ branchRegion a id port /\ hasKind a KindJoin n = false).
Proof.
unfold markBranch. setoid_rewrite <- (elem_of_range_set ["terminalPlacement"; id; port]).
generalize (range_set ["terminalPlacement"; id; port] (branchRegion a id port)) as l.
intros l. revert nodes. induction l as [|x l IH]; intros nodes; simpl.
{ rewrite elem_of_nil. tauto. }
rewrite IH, elem_of_cons. destruct (hasKind a KindJoin x) eqn:Hx.
- split; [tauto|]. intros [?|[[->|?] ?]]; [tauto|congruence|tauto].
- destruct (decide (x = n)) as [->|Hne].
  + rewrite lookup_insert_eq. split; [auto|]. intros _. left. by eexists.
  + rewrite lookup_insert_ne by done. split; [tauto|].
    intros [?|[[->|?] ?]]; tauto.
Qed.

Lemma markBranches_spec id ports nodes n :
is_Some (foldl (markBranch a id) nodes ports !! n) <->
is_Some (nodes !! n) \/
exists port, port ∈ ports /\ n ∈ branchRegion a id port /\ hasKind a KindJoin n = false.
Proof.
revert nodes. induction ports as [|p l IH]; intros nodes; simpl.
{ setoid_rewrite elem_of_nil. naive_solver. }
rewrite IH, markBranch_spec. setoid_rewrite elem_of_cons. naive_solver.
Qed.

(** A node lies inside a branch of some parallel. *)
Definition in_branch (n : string) : Prop :=
exists id ports port, id ∈ nodesOfKind a KindParallel /\ parallelPorts a id = Done ports /\
  port ∈ ports /\ n ∈ branchRegion a id port.

Lemma parallelBranchNodes_spec branches n :
parallelBranchNodes a = Done branches -> hasKind a KindJoin n = false ->
is_Some (branches !! n) <-> in_branch n.
Proof.
unfold parallelBranchNodes, in_branch. intros H Hj. revert branches H.
induction (nodesOfKind a KindParallel) as [|id l IH] using rev_ind; intros branches.
{ simpl. intros [= <-]. rewrite lookup_empty. setoid_rewrite elem_of_nil.
  split; [by intros []|naive_solver]. }
rewrite ofold_app. intros (nodes & Hf & Hlast)%obind_Done. simpl in Hlast.
destruct (parallelPorts a id) as [ports| |] eqn:Hp; try done. injection Hlast as <-.
rewrite markBranches_spec, (IH _ Hf). split.
- intros [(id' & ps & p & ? & ? & ?)|(p & ? & ? & ?)].
  + exists id', ps, p. rewrite elem_of_app. tauto.
  + exists id, ports, p. rewrite elem_of_app, list_elem_of_singleton. tauto.
- intros (id' & ps & p & [Hin| ->%list_elem_of_singleton]%elem_of_app & Hps & ? & ?).
  + left. by exists id', ps, p.
  + right. exists p. rewrite Hps in Hp. by injection Hp as ->.
Qed.

Lemma parallelBranchNodes_total :
(exists branches, parallelBranchNodes a = Done branches) <-> parallels_ported.
Proof.
unfold parallelBranchNodes, parallels_ported. generalize (∅ : gmap string string) as M.
induction (nodesOfKind a KindParallel) as [|id l IH]; intros M; simpl.
- split; [|by eauto]. by intros _ ? ?%elem_of_nil.
- setoid_rewrite elem_of_cons.
  destruct (parallelPorts a id) as [ports| |] eqn:Hp; simpl.
  + rewrite IH. naive_solver.
  + split; [by intros []|]. intros H. destruct (H id) as [? ?]; [by left|congruence].
  + by apply parallelPorts_no_Diverge in Hp.
Qed.

Lemma flat_map_nil {A B} (f : A -> list B) l : flat_map f l = [] <-> forall x, x ∈ l -> f x = [].
Proof.
induction l as [|x l IH]; simpl.
- split; [|done]. by intros _ ? ?%elem_of_nil.
- rewrite app_nil, IH. setoid_rewrite elem_of_cons. naive_solver.
Qed.

Lemma isTerminal_not_join n : isTerminal a n = true -> hasKind a KindJoin n = false.
Proof.
unfold isTerminal. rewrite orb_true_iff, !hasKind_spec. intros H.
destruct (hasKind a KindJoin n) eqn:Hj; [|done]. apply hasKind_spec in Hj. naive_solver.
Qed.

(** Where ending the run is allowed: outside every loop and branch. *)
Definition terminals_placed : Prop :=
forall id, id ∈ map nodeId (graphNodes (a_graph a)) -> isTerminal a id = true ->
  loopScope a id = "" /\ ~ in_branch id.

Lemma checkTerminalPlacement_nil ds :
checkTerminalPlacement a = Done ds -> ds = [] <-> terminals_placed.
Proof.
unfold checkTerminalPlacement. intros (branches & Hb & [= <-])%obind_Done.
rewrite flat_map_nil. unfold terminals_placed. setoid_rewrite list_elem_of_fmap.
assert (Hone : forall id, terminalDiagnostics a branches id = [] <->
  (isTerminal a id = true -> loopScope a id = "" /\ ~ in_branch id)).
{ intros id. unfold terminalDiagnostics. destruct (isTerminal a id) eqn:Ht; simpl; [|naive_solver].
  rewrite <- (parallelBranchNodes_spec branches) by (done || by apply isTerminal_not_join).
  destruct (String.eqb_spec (loopScope a id) "") as [->|Hne]; simpl; [|naive_solver].
  destruct (branches !! id); split; try done.
  intros H. destruct (H eq_refl) as [_ []]. by eexists. }
setoid_rewrite Hone. split; [|naive_solver].
intros H id (node & -> & Hin). by apply H.
Qed.

(** ** Parallels *)

Lemma elem_of_usedPorts id port :
port ∈ usedPorts a id <->
exists e, e ∈ ControlEdges (a_graph a) /\ epNode (edgeFrom e) = id /\ epPort (edgeFrom e) = port.
Proof.
unfold usedPorts. rewrite elem_of_list_to_set, list_elem_of_fmap. split.
- intros (e & -> & He). exists e.
  rewrite list_elem_of_In, filter_In, <- list_elem_of_In, String.eqb_eq in He. naive_solver.
- intros (e & ? & ? & <-). exists e. split; [done|].
  by rewrite list_elem_of_In, filter_In, <- list_elem_of_In, String.eqb_eq.
Qed.

Lemma elem_of_sharedJoins id j :
usedPorts a id <> ∅ ->
j ∈ default ∅ (sharedJoins a id) <->
forall port, port ∈ usedPorts a id -> j ∈ joinsFrom a id port.
Proof.
intros Hne. unfold sharedJoins.
assert (Hr : (forall port, port ∈ usedPorts a id -> j ∈ joinsFrom a id port) <->
  forall port, port ∈ range_set ["parallelJoins"; id] (usedPorts a id) -> j ∈ joinsFrom a id port).
{ split; intros H p Hp; apply H; by apply (elem_of_range_set ["parallelJoins"; id]). }
rewrite Hr. clear Hr.
assert (Hne' : range_set ["parallelJoins"; id] (usedPorts a id) <> []).
{ intros Hnil. apply Hne. apply set_eq. intros x.
  rewrite <- (elem_of_range_set ["parallelJoins"; id]), Hnil. set_solver. }
destruct (range_set ["parallelJoins"; id] (usedPorts a id)) as [|p0 l]; [done|].
cbn [foldl]. change (shareJoins a id None p0) with (Some (joinsFrom a id p0)).
assert (Hf : forall acc, j ∈ default ∅ (foldl (shareJoins a id) (Some acc) l) <->
  j ∈ acc /\ forall port, port ∈ l -> j ∈ joinsFrom a id port).
{ clear. induction l as [|p l IH]; intros acc; cbn [foldl]; [set_solver|].
  change (shareJoins a id (Some acc) p) with (Some (intersect acc (joinsFrom a id p))).
  rewrite IH, elem_of_intersect. setoid_rewrite elem_of_cons. naive_solver. }
rewrite Hf. setoid_rewrite elem_of_cons. naive_solver.
Qed.

(** The rule on one parallel: no more branches wired than declared, and a
  join all of them reach. *)
Definition parallel_ok (id : string) (nodeType : NodeType) : Prop :=
usedPorts a id <> ∅ ->
(let declared := declaredBranches (a_nodes a !! id) nodeType in
 (0 < declared)%Z -> (Z.of_nat (size (usedPorts a id)) <= declared)%Z) /\
exists j, hasKind a KindJoin j = true /\
  forall port, port ∈ usedPorts a id -> j ∈ reachableFromPort a id port.

Definition error_free (ds : list Diagnostic) : Prop :=
forall d, d ∈ ds -> dSeverity d <> SeverityError.

Lemma error_free_app ds ds' : error_free (ds ++ ds') <-> error_free ds /\ error_free ds'.
Proof. unfold error_free. setoid_rewrite elem_of_app. naive_solver. Qed.

Lemma error_free_nil : error_free [] <-> True.
Proof. unfold error_free. split; [done|]. by intros _ ? ?%elem_of_nil. Qed.

(** A test that reports an error when it fails. *)
Lemma error_free_if (b : bool) d :
dSeverity d = SeverityError -> error_free (if b then [d] else []) <-> b = false.
Proof.
intros Hd. unfold error_free. destruct b; split; try done.
- intros H. exfalso. by apply (H d); [left|].
- by intros _ ? ?%elem_of_nil.
Qed.

Lemma error_free_warning (b : bool) d :
dSeverity d = SeverityWarning -> error_free (if b then [d] else []) <-> True.
Proof.
intros Hd. unfold error_free. destruct b; split; try done.
- intros _ ? ->%list_elem_of_singleton. by rewrite Hd.
- by intros _ ? ?%elem_of_nil.
Qed.

Lemma error_free_flat_map {A} (f : A -> list Diagnostic) l :
error_free (flat_map f l) <-> forall x, x ∈ l -> error_free (f x).
Proof.
induction l as [|x l IH]; simpl.
- rewrite error_free_nil. setoid_rewrite elem_of_nil. naive_solver.
- rewrite error_free_app, IH. setoid_rewrite elem_of_cons. naive_solver.
Qed.

Lemma sharedJoins_empty id :
usedPorts a id <> ∅ ->
default ∅ (sharedJoins a id) <> ∅ <->
exists j, hasKind a KindJoin j = true /\
  forall port, port ∈ usedPorts a id -> j ∈ reachableFromPort a id port.
Proof.
intros Hne. split.
- intros [j Hj]%set_choose_L. rewrite elem_of_sharedJoins in Hj by done.
  setoid_rewrite elem_of_filter in Hj. exists j. split; [|naive_solver].
  apply set_choose_L in Hne as [p Hp]. by apply (Hj p).
- intros (j & Hk & Hj) Hempty. apply (not_elem_of_empty (C := gset string) j).
  rewrite <- Hempty, elem_of_sharedJoins by done. intros p Hp. apply elem_of_filter. auto.
Qed.

Lemma parallelDiagnostics_error_free id :
error_free (parallelDiagnostics a id) <->
forall nodeType, a_types a !! id = Some nodeType -> hasKind a KindParallel id = true ->
  parallel_ok id nodeType.
Proof.
unfold parallelDiagnostics, parallel_ok.
destruct (a_types a !! id) as [nodeType|] eqn:Hty; [|rewrite error_free_nil; naive_solver].
destruct (hasKind a KindParallel id); simpl; [|rewrite error_free_nil; naive_solver].
destruct (Nat.eqb_spec (size (usedPorts a id)) 0) as [Hz|Hz].
{ apply size_empty_inv in Hz. fold_leibniz. rewrite error_free_nil. naive_solver. }
assert (Hne : usedPorts a id <> ∅) by (intros H; apply Hz; rewrite H; apply size_empty).
rewrite !error_free_app, error_free_warning, !error_free_if by done.
rewrite bool_decide_eq_false, sharedJoins_empty by done.
rewrite andb_false_iff, !Z.ltb_ge. split.
- intros (_ & Hd & Hj) ? [= <-] _ _. split; [lia|done].
- intros H. destruct (H nodeType eq_refl eq_refl Hne) as [H1 H2].
  split_and!; [done| |done]. lia.
Qed.
End facts.
