(* ===== verification/Data.v ===== *)
(** The rules on data edges: src/internal/server/workflow/validate/data.go.

    A data edge must satisfy three independent rules: its source is guaranteed
    to have run, its value is visible in the target's loop, and its type fits.
    [resolveOutputType] recurses through the graph; the visiting set that stops
    it on a cycle is one map shared by the whole chain of calls, and a chain
    never forks, so passing the set down is the same as sharing it. *)
From S2P Require Import Prelude Types Catalog Graph Analysis Samples Reach MustHaveRun Structure.
From stdpp Require Import strings list gmap.
From Stdlib Require Import ZArith Lia.
#[local] Open Scope nat_scope.
#[local] Open Scope go_scope.

Section resolution.
Context (a : analysis).

(** The first data edge into a socket. *)
Definition wiredEdge (nodeID port : string) : option Edge :=
List.find (fun edge =>
  String.eqb (epNode (edgeTo edge)) nodeID && String.eqb (epPort (edgeTo edge)) port)
  (DataEdges (a_graph a)).

(** The type arriving over an edge, after its transform if it names a known one. *)
Definition transformedType (nodeID port : string) (edge : Edge) (producedType : Type_) : Type_ :=
if negb (String.eqb (edgeTransform edge) "") then
  let targetType :=
    match a_types a !! nodeID with
    | Some nodeType =>
        match DataInSocket nodeType port with
        | Some socket => sockType socket
        | None => TypeAny
        end
    | None => TypeAny
    end in
  match ResolveTransform (edgeTransform edge) producedType targetType with
  | Some transform => tTo transform
  | None => producedType
  end
else producedType.

(** [wiredInputType], given how to resolve an output. *)
Definition wiredInputType (resolve : string -> string -> outcome Type_) (nodeID port : string)
: outcome (option Type_) :=
match wiredEdge nodeID port with
| None => Done None
| Some edge =>
    let* producedType := resolve (epNode (edgeFrom edge)) (epPort (edgeFrom edge)) in
    Done (Some (transformedType nodeID port edge producedType))
end.

(** The type the catalog declares for a data-out port. *)
Definition declaredOutput (nodeType : NodeType) (port : string) : Type_ :=
match DataOutSocket nodeType port with
| Some socket => sockType socket
| None => TypeAny
end.

Fixpoint resolveOutputType_fuel (fuel : nat) (nodeID port : string) (visiting : gset string)
: outcome Type_ :=
match a_types a !! nodeID with
| None => Done TypeAny
| Some nodeType =>
    let key := portKey nodeID port in
    if decide (key ∈ visiting) then Done TypeAny
    else
      match fuel with
      | O => Diverge
      | S fuel' =>
          let visiting := {[key]} ∪ visiting in
          let resolve := fun nodeID port => resolveOutputType_fuel fuel' nodeID port visiting in
          match ntKind nodeType with
          | KindForEach =>
              if String.eqb port "item" then
                let* collection := wiredInputType resolve nodeID "collection" in
                match collection with
                | Some collection =>
                    match ElementType collection with
                    | Some element => Done element
                    | None => Done TypeAny
                    end
                | None => Done TypeAny
                end
              else Done (declaredOutput nodeType port)
          | KindCollect =>
              if String.eqb port "collected" then
                let* value := wiredInputType resolve nodeID "value" in
                match value with
                | Some value => Done (ListOf value)
                | None => Done (ListOf TypeAny)
                end
              else Done (declaredOutput nodeType port)
          | _ => Done (declaredOutput nodeType port)
          end
      end
end.

(** Each call but the first asks about the source of a data edge that has not
  been visited. *)
Definition resolve_fuel : nat := S (length (DataEdges (a_graph a))).

(** [resolveOutputType(nodeID, port, nil)]. *)
Definition resolveOutputType (nodeID port : string) : outcome Type_ :=
resolveOutputType_fuel resolve_fuel nodeID port ∅.
End resolution.

Section data.
Context {MO : MapOrder}.
Context (a : analysis).

Definition availabilityProducer (nodeID : string) : string :=
if hasKind a KindCollect nodeID then
  let enclosingLoop := loopScope a nodeID in
  if negb (String.eqb enclosingLoop "") then enclosingLoop else nodeID
else nodeID.

(** The branch of a parallel a node lies in: the last port whose region
  contains it, empty for none. *)
Definition branchOf (parallelID : string) (ports : list string) (nodeID : string) : string :=
foldl (fun branch port => if decide (nodeID ∈ branchRegion a parallelID port) then port else branch)
  "" ports.

(** The loop of [parallelSiblings] over the parallels. *)
Fixpoint parallelSiblings_loop (left right : string) (parallels : list string)
: outcome (option string) :=
match parallels with
| [] => Done None
| id :: rest =>
    let* ports := parallelPorts a id in
    let leftBranch := branchOf id ports left in
    let rightBranch := branchOf id ports right in
    if negb (String.eqb leftBranch "") && negb (String.eqb rightBranch "") &&
       negb (String.eqb leftBranch rightBranch)
    then Done (Some id)
    else parallelSiblings_loop left right rest
end.

Definition parallelSiblings (left right : string) : outcome (option string) :=
parallelSiblings_loop left right (nodesOfKind a KindParallel).

Definition checkDataEdgeAvailability (M : ran_map) (edge : Edge) : outcome (list Diagnostic) :=
let from := epNode (edgeFrom edge) in
let to := epNode (edgeTo edge) in
if hasKind a KindSource from then Done []
else
  match M !! to with
  | None => Done []
  | Some guaranteed =>
      if decide (availabilityProducer from ∈ guaranteed) then Done []
      else
        let sourceLabel := nodeLabelOf a from in
        let targetLabel := nodeLabelOf a to in
        let* siblings := parallelSiblings from to in
        match siblings with
        | Some parallelID =>
            Done [report SeverityError "data.parallelSiblings"
              (sourceLabel +:+ " and " +:+ targetLabel +:+
               " run at the same time in different branches of " +:+ nodeLabelOf a parallelID +:+
               ", so " +:+ targetLabel +:+ " cannot read from " +:+ sourceLabel +:+
               ". Connect from a node before the Parallel, or from after the Join.")
              [from; to; parallelID] [edgeId edge]]
        | None =>
            let* path := witnessPath a to from in
            Done [{| dSeverity := SeverityError; dCode := "data.notGuaranteed";
                     dMessage := sourceLabel +:+ " does not run on every path to " +:+ targetLabel +:+
                       ", so the value may not exist when it is needed.";
                     dNodeIds := [from; to]; dEdgeIds := [edgeId edge]; dWitnessPath := path |}]
        end
  end.

Definition checkDataEdgeScope (edge : Edge) : outcome (list Diagnostic) :=
let from := epNode (edgeFrom edge) in
let to := epNode (edgeTo edge) in
let sourceScope := effectiveScope a from in
let targetScope := loopScope a to in
let* visible := scopeVisible a sourceScope targetScope in
if visible then Done []
else
  Done [report SeverityError "data.escapesLoop"
    (nodeLabelOf a from +:+ " runs once per item inside " +:+ nodeLabelOf a sourceScope +:+
     ", but " +:+ nodeLabelOf a to +:+
     " is outside that loop, so there is no single value to read — the loop may even run zero times. Insert a Collect node inside the loop and connect that instead.")
    [from; to; sourceScope] [edgeId edge]].

(** The rule on types once the produced type is known. *)
Definition typeDiagnostics (edge : Edge) (targetSocket : Socket) (producedType : Type_)
: list Diagnostic :=
let targetSocketType := sockType targetSocket in
if negb (String.eqb (edgeTransform edge) "") then
  match ResolveTransform (edgeTransform edge) producedType targetSocketType with
  | None =>
      [report SeverityError "data.unknownTransform"
         ("This connection uses a conversion called " +:+ quote (edgeTransform edge) +:+
          ", which this build does not know about.") [] [edgeId edge]]
  | Some transform =>
      if negb (IsSubtypeOf producedType (tFrom transform)) then
        [report SeverityError "data.transformInputMismatch"
           ("The " +:+ tName transform +:+ " conversion expects " +:+ tFrom transform +:+
            " but receives " +:+ producedType +:+ ".") [] [edgeId edge]]
      else if negb (IsSubtypeOf (tTo transform) targetSocketType) then
        [report SeverityError "data.transformOutputMismatch"
           ("The " +:+ tName transform +:+ " conversion produces " +:+ tTo transform +:+
            ", which " +:+ quote (sockName targetSocket) +:+ " does not accept.") [] [edgeId edge]]
      else []
  end
else
  let connection := CanConnect producedType targetSocketType in
  if Direct connection then []
  else if (0 <? length (Candidates connection))%nat then
    [report SeverityError "data.transformRequired"
       (producedType +:+ " cannot feed " +:+ quote (sockName targetSocket) +:+ " (" +:+
        targetSocketType +:+ ") directly. Choose a conversion: [" +:+
        str_join " " (map tName (Candidates connection)) +:+ "].") [] [edgeId edge]]
  else
    [report SeverityError "data.incompatible"
       (ExplainIncompatible producedType targetSocketType) [] [edgeId edge]].

Definition checkDataEdgeTypes (edge : Edge) (targetType : NodeType) : outcome (list Diagnostic) :=
match DataInSocket targetType (epPort (edgeTo edge)) with
| None => Done []
| Some targetSocket =>
    let* producedType := resolveOutputType a (epNode (edgeFrom edge)) (epPort (edgeFrom edge)) in
    Done (typeDiagnostics edge targetSocket producedType)
end.

(** The body of the loop of [checkDataEdges]. *)
Definition checkDataEdge (M : ran_map) (edge : Edge) : outcome (list Diagnostic) :=
match a_types a !! epNode (edgeFrom edge), a_types a !! epNode (edgeTo edge) with
| Some _, Some targetType =>
    let* availability := checkDataEdgeAvailability M edge in
    let* scope := checkDataEdgeScope edge in
    let* types := checkDataEdgeTypes edge targetType in
    Done (availability ++ scope ++ types)
| _, _ => Done []
end.

Definition checkDataEdges : outcome (list Diagnostic) :=
let* M := computeMustHaveRun a in
oflat_map (checkDataEdge M) (DataEdges (a_graph a)).
End data.

(** * Type resolution *)

Section resolution_facts.
Context (a : analysis).

Lemma wiredEdge_DataEdges id port e :
wiredEdge a id port = Some e -> e ∈ DataEdges (a_graph a).
Proof. unfold wiredEdge. intros [H _]%find_some. by apply list_elem_of_In. Qed.

(** The keys a chain of calls can reach. *)
Definition sourceKeys : list string :=
map (fun e => portKey (epNode (edgeFrom e)) (epPort (edgeFrom e))) (DataEdges (a_graph a)).

Definition unvisited (visiting : gset string) : nat :=
length (List.filter (fun k => negb (bool_decide (k ∈ visiting))) sourceKeys).

Lemma unvisited_mark k visiting :
k ∈ sourceKeys -> k ∉ visiting -> (unvisited ({[k]} ∪ visiting) < unvisited visiting)%nat.
Proof.
unfold unvisited. intros Hk Hv.
assert (Hle : forall l, (length (List.filter (fun x => negb (bool_decide (x ∈ {[k]} ∪ visiting))) l) <=
  length (List.filter (fun x => negb (bool_decide (x ∈ visiting))) l))%nat).
{ induction l as [|x l IH]; simpl; [lia|].
  case_bool_decide as H1; case_bool_decide as H2; simpl; try lia. set_solver. }
induction sourceKeys as [|x l IH]; [by apply elem_of_nil in Hk|]. simpl.
specialize (Hle l). destruct (decide (x = k)) as [->|Hne].
- rewrite bool_decide_eq_true_2, bool_decide_eq_false_2 by set_solver. simpl. lia.
- apply elem_of_cons in Hk as [|Hk]; [done|]. specialize (IH Hk).
  case_bool_decide as H1; case_bool_decide as H2; simpl; try lia; set_solver.
Qed.

Lemma wiredInputType_total resolve id port :
(forall e, e ∈ DataEdges (a_graph a) ->
   exists t, resolve (epNode (edgeFrom e)) (epPort (edgeFrom e)) = Done t) ->
exists t, wiredInputType a resolve id port = Done t.
Proof.
intros H. unfold wiredInputType. destruct (wiredEdge a id port) as [e|] eqn:He; [|eauto].
destruct (H e) as [t ->]; [by eapply wiredEdge_DataEdges|]. simpl. eauto.
Qed.

(** The recursion step: with the sources resolved, so is any output. *)
Lemma resolve_step fuel id port visiting :
(portKey id port ∉ visiting -> forall e, e ∈ DataEdges (a_graph a) ->
   exists t, resolveOutputType_fuel a fuel (epNode (edgeFrom e)) (epPort (edgeFrom e))
               ({[portKey id port]} ∪ visiting) = Done t) ->
exists t, resolveOutputType_fuel a (S fuel) id port visiting = Done t.
Proof.
intros H. simpl. destruct (a_types a !! id) as [nt|]; [|eauto].
case_decide as Hv; [eauto|]. specialize (H Hv).
pose proof (fun p => wiredInputType_total (fun nodeID port0 => resolveOutputType_fuel a fuel nodeID
  port0 ({[portKey id port]} ∪ visiting)) id p H) as Hw.
destruct (ntKind nt); try by eauto.
- destruct (String.eqb port "item"); [|eauto]. destruct (Hw "collection") as [t ->]. simpl.
  repeat case_match; eauto.
- destruct (String.eqb port "collected"); [|eauto]. destruct (Hw "value") as [t ->]. simpl.
  case_match; eauto.
Qed.

Lemma resolve_total_source fuel id port visiting :
portKey id port ∈ sourceKeys -> (unvisited visiting <= fuel)%nat ->
exists t, resolveOutputType_fuel a fuel id port visiting = Done t.
Proof.
revert id port visiting. induction fuel as [|fuel IH]; intros id port visiting Hk Hf.
- simpl. destruct (a_types a !! id); [|eauto]. case_decide as Hv; [eauto|].
  pose proof (unvisited_mark _ _ Hk Hv). lia.
- apply resolve_step. intros Hv e He. apply IH.
  + apply list_elem_of_fmap. eauto.
  + pose proof (unvisited_mark _ _ Hk Hv). lia.
Qed.

Lemma resolveOutputType_total id port : exists t, resolveOutputType a id port = Done t.
Proof.
unfold resolveOutputType, resolve_fuel. apply resolve_step. intros _ e He.
apply resolve_total_source.
- apply list_elem_of_fmap. eauto.
- unfold unvisited. etrans; [apply List.filter_length_le|]. unfold sourceKeys. by rewrite length_map.
Qed.

(** ** What it resolves to *)

(** The socket an inferred port takes its type from. *)
Definition inferredInput (nodeType : NodeType) (port : string) : option string :=
match ntKind nodeType with
| KindForEach => if String.eqb port "item" then Some "collection" else None
| KindCollect => if String.eqb port "collected" then Some "value" else None
| _ => None
end.

(** The type of an inferred port, from the type wired in: the element type of
  a For Each's collection, the list type of a Collect's value. *)
Definition inferredType (nodeType : NodeType) (wired : option Type_) : Type_ :=
match ntKind nodeType with
| KindForEach => default TypeAny (wired ≫= ElementType)
| _ => ListOf (default TypeAny wired)
end.

(** [out_type n id port t]: the port produces [t], as resolved through a chain
  of [n] inferred ports that ends. *)
Inductive out_type : nat -> string -> string -> Type_ -> Prop :=
| out_unresolved id port : a_types a !! id = None -> out_type 0 id port TypeAny
| out_declared id port nodeType :
  a_types a !! id = Some nodeType -> inferredInput nodeType port = None ->
  out_type 0 id port (declaredOutput nodeType port)
| out_unwired id port nodeType input :
  a_types a !! id = Some nodeType -> inferredInput nodeType port = Some input ->
  wiredEdge a id input = None -> out_type 0 id port (inferredType nodeType None)
| out_wired n id port nodeType input e t :
  a_types a !! id = Some nodeType -> inferredInput nodeType port = Some input ->
  wiredEdge a id input = Some e ->
  out_type n (epNode (edgeFrom e)) (epPort (edgeFrom e)) t ->
  out_type (S n) id port (inferredType nodeType (Some (transformedType a id input e t))).

(** The recursive call, in terms of [inferredInput] and [inferredType]. *)
Lemma resolve_unfold fuel id port visiting nodeType :
a_types a !! id = Some nodeType -> portKey id port ∉ visiting ->
resolveOutputType_fuel a (S fuel) id port visiting =
match inferredInput nodeType port with
| None => Done (declaredOutput nodeType port)
| Some input =>
    let* wired := wiredInputType a (fun id' port' =>
      resolveOutputType_fuel a fuel id' port' ({[portKey id port]} ∪ visiting)) id input in
    Done (inferredType nodeType wired)
end.
Proof.
intros Hty Hv. simpl. rewrite Hty, decide_False by done. unfold inferredInput, inferredType.
destruct (ntKind nodeType); try done.
- destruct (String.eqb port "item"); [|done].
  destruct (wiredInputType _ _ _ _) as [[t|]| |]; simpl; [|done..].
  by destruct (ElementType t).
- destruct (String.eqb port "collected"); [|done].
  by destruct (wiredInputType _ _ _ _) as [[t|]| |].
Qed.

Lemma out_type_functional n id port t :
out_type n id port t -> forall n' t', out_type n' id port t' -> n = n' /\ t = t'.
Proof.
induction 1 as [|id port nt Hty Hin|id port nt input Hty Hin Hw|n id port nt input e t Hty Hin Hw _ IH];
  intros n' t'; inversion 1; simplify_eq; try done.
edestruct IH as [-> ->]; [eassumption|done].
Qed.

(** The ids whose keys [splitKey] takes apart. *)
Hypothesis sources_nul_free :
forall e, e ∈ DataEdges (a_graph a) -> nul_free (epNode (edgeFrom e)) = true.

Lemma out_type_resolves n id port t fuel visiting :
out_type n id port t -> nul_free id = true ->
(forall k, k ∈ visiting -> exists id' port', k = portKey id' port' /\ nul_free id' = true /\
   forall n' t', out_type n' id' port' t' -> (n < n')%nat) ->
forall r, resolveOutputType_fuel a fuel id port visiting = Done r -> r = t.
Proof.
intros Hout. revert fuel visiting.
assert (Hfresh : forall n id port t (visiting : gset string), out_type n id port t -> nul_free id = true ->
  (forall k, k ∈ visiting -> exists id' port', k = portKey id' port' /\ nul_free id' = true /\
   forall n' t', out_type n' id' port' t' -> (n < n')%nat) -> portKey id port ∉ visiting).
{ intros m i p u V Hu Hi HV Hk. destruct (HV _ Hk) as (id' & p' & Heq & Hid' & Hlt).
  apply portKey_inj in Heq as [-> ->]; [|done..]. specialize (Hlt _ _ Hu). lia. }
induction Hout as [id port Hty|id port nt Hty Hin|id port nt input Hty Hin Hw|n id port nt input e t Hty Hin Hw Hsrc IH];
  intros fuel visiting Hid HV r Hr.
- destruct fuel; simpl in Hr; rewrite Hty in Hr; by injection Hr.
- assert (Hk : portKey id port ∉ visiting) by (eapply Hfresh; [by eapply out_declared|done..]).
  destruct fuel as [|fuel]; [simpl in Hr; by rewrite Hty, decide_False in Hr|].
  rewrite (resolve_unfold _ _ _ _ nt), Hin in Hr by done. by injection Hr.
- assert (Hk : portKey id port ∉ visiting) by (eapply Hfresh; [by eapply out_unwired|done..]).
  destruct fuel as [|fuel]; [simpl in Hr; by rewrite Hty, decide_False in Hr|].
  rewrite (resolve_unfold _ _ _ _ nt), Hin in Hr by done.
  unfold wiredInputType in Hr. rewrite Hw in Hr. by injection Hr.
- assert (Hk : portKey id port ∉ visiting) by (eapply Hfresh; [by eapply out_wired|done..]).
  destruct fuel as [|fuel]; [simpl in Hr; by rewrite Hty, decide_False in Hr|].
  rewrite (resolve_unfold _ _ _ _ nt), Hin in Hr by done.
  unfold wiredInputType in Hr. rewrite Hw in Hr.
  apply obind_Done in Hr as (w & (t' & Ht' & [= <-])%obind_Done & [= <-]).
  apply IH in Ht' as ->; [done|by eapply sources_nul_free, wiredEdge_DataEdges|].
  intros k [->%elem_of_singleton|Hkv]%elem_of_union.
  + exists id, port. split_and!; [done..|]. intros n' u Hn'.
    pose proof (out_wired _ _ _ _ _ _ _ Hty Hin Hw Hsrc) as Hself.
    destruct (out_type_functional _ _ _ _ Hself _ _ Hn') as [<- _]. lia.
  + destruct (HV k Hkv) as (id' & p' & -> & ? & Hlt). exists id', p'. split_and!; [done..|].
    intros n' u Hn'. specialize (Hlt _ _ Hn'). lia.
Qed.
End resolution_facts.

(** * The three rules *)

Section rules.
Context {MO : MapOrder}.
Context (a : analysis).

Lemma error_free_one d : dSeverity d = SeverityError -> ~ error_free [d].
Proof. intros Hd H. by apply (H d); [left|]. Qed.

(** ** Types *)

(** A value of type [t] may be wired over [edge] into a socket of type
  [target]: directly, or through the conversion the edge names. *)
Definition type_fits (edge : Edge) (t target : Type_) : Prop :=
(edgeTransform edge = "" /\ Direct (CanConnect t target) = true) \/
(edgeTransform edge <> "" /\ exists transform,
   ResolveTransform (edgeTransform edge) t target = Some transform /\
   IsSubtypeOf t (tFrom transform) = true /\ IsSubtypeOf (tTo transform) target = true).

Lemma typeDiagnostics_error_free edge socket t :
error_free (typeDiagnostics edge socket t) <-> type_fits edge t (sockType socket).
Proof.
assert (Hn : forall c m n e, error_free [report SeverityError c m n e] <-> False).
{ intros c m n e. split; [|done]. by apply error_free_one. }
unfold typeDiagnostics, type_fits.
destruct (String.eqb_spec (edgeTransform edge) "") as [E|E]; simpl.
- destruct (Direct _) eqn:Hd; [by rewrite error_free_nil; split; [left|]|].
  case_match; rewrite Hn; (split; [done|]); by intros [[_ ?]|[[] _]].
- destruct (ResolveTransform _ _ _) as [tr|]; [|rewrite Hn; split; [done|]].
  2: { by intros [[? _]|(_ & ? & ? & _)]. }
  destruct (IsSubtypeOf t (tFrom tr)) eqn:H1; simpl.
  + destruct (IsSubtypeOf (tTo tr) (sockType socket)) eqn:H2; simpl.
    * rewrite error_free_nil. split; [|done]. intros _. right. eauto.
    * rewrite Hn. split; [done|]. intros [[? _]|(_ & ? & [= <-] & _ & ?)]; congruence.
  + rewrite Hn. split; [done|]. intros [[? _]|(_ & ? & [= <-] & ? & _)]; congruence.
Qed.

Definition edge_typed (edge : Edge) : Prop :=
forall targetType socket t,
  a_types a !! epNode (edgeTo edge) = Some targetType ->
  DataInSocket targetType (epPort (edgeTo edge)) = Some socket ->
  resolveOutputType a (epNode (edgeFrom edge)) (epPort (edgeFrom edge)) = Done t ->
  type_fits edge t (sockType socket).

Lemma checkDataEdgeTypes_spec edge targetType :
a_types a !! epNode (edgeTo edge) = Some targetType ->
exists ds, checkDataEdgeTypes a edge targetType = Done ds /\ (error_free ds <-> edge_typed edge).
Proof.
intros Hty. unfold checkDataEdgeTypes, edge_typed.
destruct (DataInSocket targetType _) as [socket|] eqn:Hs.
- destruct (resolveOutputType_total a (epNode (edgeFrom edge)) (epPort (edgeFrom edge))) as [t Ht].
  rewrite Ht. simpl. eexists. split; [done|]. rewrite typeDiagnostics_error_free.
  split; [|naive_solver]. intros H tt s u. rewrite Hty. intros [= <-]. rewrite Hs.
  by intros [= <-] [= <-].
- exists []. split; [done|]. rewrite error_free_nil. split; [|done].
  intros _ tt s u. rewrite Hty. intros [= <-]. by rewrite Hs.
Qed.

(** ** Scopes *)

Definition edge_in_scope (edge : Edge) : Prop :=
effectiveScope a (epNode (edgeFrom edge)) = "" \/
encloses a (effectiveScope a (epNode (edgeFrom edge))) (loopScope a (epNode (edgeTo edge))).

Lemma checkDataEdgeScope_error_free edge ds :
checkDataEdgeScope a edge = Done ds -> error_free ds <-> edge_in_scope edge.
Proof.
unfold checkDataEdgeScope, edge_in_scope. intros (visible & Hv & Hds)%obind_Done.
pose proof (scopeVisible_cases a (effectiveScope a (epNode (edgeFrom edge)))
  (loopScope a (epNode (edgeTo edge)))) as Hc.
rewrite Hv in Hc. rewrite <- Hc. destruct visible; injection Hds as <-.
- rewrite error_free_nil. by split.
- split; [|done]. intros H. by apply error_free_one in H.
Qed.

Lemma checkDataEdgeScope_total edge :
loops_well_nested a -> exists ds, checkDataEdgeScope a edge = Done ds.
Proof.
intros Hwn. unfold checkDataEdgeScope.
pose proof (scopeVisible_cases a (effectiveScope a (epNode (edgeFrom edge)))
  (loopScope a (epNode (edgeTo edge)))) as Hc.
destruct (scopeVisible a _ _) as [visible| |]; [|done|].
- simpl. destruct visible; eauto.
- destruct Hc as [_ Hd].
  destruct (walk_terminates a (effectiveScope a (epNode (edgeFrom edge)))
    (loopScope a (epNode (edgeTo edge)))) as (n & b & Hn); [done| |by rewrite Hd in Hn].
  destruct (decide (loopScope a (epNode (edgeTo edge)) = "")); [by left|].
  right. by apply loopScope_spec.
Qed.

(** ** Availability *)

Hypothesis types_nodes : forall id, is_Some (a_types a !! id) -> id ∈ map nodeId (graphNodes (a_graph a)).

(** The value an edge carries exists whenever control arrives at its target. *)
Definition edge_available (edge : Edge) : Prop :=
let from := epNode (edgeFrom edge) in
let to := epNode (edgeTo edge) in
startNode a <> "" -> hasKind a KindSource from = false -> executable a to = true ->
executable a (availabilityProducer a from) = true /\
forall S, may_run a to S -> availabilityProducer a from ∈ S.

Lemma in_universe n : n ∈ universe a <-> executable a n = true.
Proof.
split; [by intros [_ H]%elem_of_universe|]. by apply executable_universe.
Qed.

Lemma checkDataEdgeAvailability_error_free M edge ds :
computeMustHaveRun a = Done M -> checkDataEdgeAvailability a M edge = Done ds ->
error_free ds <-> edge_available edge.
Proof.
intros HM. unfold checkDataEdgeAvailability, edge_available.
destruct (hasKind a KindSource (epNode (edgeFrom edge))).
{ intros [= <-]. rewrite error_free_nil. naive_solver. }
pose proof (computed_dom a M (epNode (edgeTo edge)) HM) as Hdom. rewrite in_universe in Hdom.
destruct (M !! epNode (edgeTo edge)) as [guaranteed|] eqn:Hto.
- destruct (proj1 Hdom) as [Hs Hex]; [eauto|].
  destruct (computed_fixed a types_nodes Hs) as (M' & HM' & Hfix).
  assert (M' = M) as -> by congruence.
  assert (Hexact := fixed_exact a types_nodes Hs M (epNode (edgeTo edge))
    (availabilityProducer a (epNode (edgeFrom edge))) Hfix (proj2 (in_universe _) Hex)).
  unfold ran in Hexact. rewrite Hto, in_universe in Hexact. simpl in Hexact.
  case_decide as Hin.
  + intros [= <-]. rewrite error_free_nil. tauto.
  + intros H. split; [|tauto]. intros Hef. exfalso. revert Hef.
    apply obind_Done in H as (sib & _ & H). destruct sib.
    * injection H as <-. by apply error_free_one.
    * apply obind_Done in H as (path & _ & [= <-]). by apply error_free_one.
- intros [= <-]. rewrite error_free_nil. split; [|done]. intros _ Hs _ Hex.
  by destruct (proj2 Hdom) as [? ?].
Qed.

Lemma parallelSiblings_total left right :
parallels_ported a -> exists r, parallelSiblings a left right = Done r.
Proof.
unfold parallels_ported, parallelSiblings. induction (nodesOfKind a KindParallel) as [|id l IH];
  intros H; simpl; [eauto|].
destruct (H id) as [ports ->]; [by left|]. simpl. case_match; [eauto|].
apply IH. intros id' Hid'. apply H. by right.
Qed.

(** Siblings do lie in different branches of the parallel named. *)
Lemma branchOf_spec id ports n :
branchOf a id ports n <> "" ->
branchOf a id ports n ∈ ports /\ n ∈ branchRegion a id (branchOf a id ports n).
Proof.
unfold branchOf. induction ports as [|p l IH] using rev_ind; [done|].
rewrite foldl_app. cbn [foldl]. case_decide as Hp; intros Hne.
- split; [|done]. apply elem_of_app. right. left.
- destruct (IH Hne). split; [|done]. apply elem_of_app. by left.
Qed.

Lemma parallelSiblings_Some left right id :
parallelSiblings a left right = Done (Some id) ->
id ∈ nodesOfKind a KindParallel /\ exists ports p q, parallelPorts a id = Done ports /\
  p ∈ ports /\ q ∈ ports /\ p <> q /\ left ∈ branchRegion a id p /\ right ∈ branchRegion a id q.
Proof.
unfold parallelSiblings. induction (nodesOfKind a KindParallel) as [|id' l IH]; [done|].
simpl. intros (ports & Hp & H)%obind_Done. case_match eqn:Hc.
- injection H as ->. bool_prop. split; [left|].
  destruct (branchOf_spec id ports left) as [Hl1 Hl2]; [done|].
  destruct (branchOf_spec id ports right) as [Hr1 Hr2]; [done|].
  by exists ports, (branchOf a id ports left), (branchOf a id ports right).
- destruct (IH H) as [Hin ?]. split; [by right|done].
Qed.

Lemma checkDataEdgeAvailability_total M edge :
parallels_ported a -> "" ∉ map nodeId (graphNodes (a_graph a)) ->
exists ds, checkDataEdgeAvailability a M edge = Done ds.
Proof.
intros Hp Hids. unfold checkDataEdgeAvailability.
destruct (hasKind a KindSource _); [eauto|].
destruct (M !! _) as [g|]; [|eauto]. case_decide; [eauto|].
destruct (parallelSiblings_total (epNode (edgeFrom edge)) (epNode (edgeTo edge)) Hp) as [r ->].
simpl. destruct r; [eauto|].
assert (exists p, witnessPath a (epNode (edgeTo edge)) (epNode (edgeFrom edge)) = Done p) as [p ->];
  [|simpl; eauto].
destruct (decide (startNode a = "")) as [E|E].
{ exists []. unfold witnessPath. by rewrite E. }
destruct (decide (startNode a = epNode (edgeFrom edge))) as [E'|E'].
{ exists []. unfold witnessPath. by rewrite E', String.eqb_refl, orb_true_r. }
destruct (witnessPath_spec a (epNode (edgeFrom edge))) with (target := epNode (edgeTo edge))
  as (p & Hpath & _); [|done..|eauto].
intros e (_ & _ & He)%elem_of_executableEdges Hnil. apply Hids, types_nodes.
rewrite <- Hnil. by apply executable_node.
Qed.

(** ** All edges *)

(** The rules on one data edge; an edge with an end that does not resolve is
  left to the other checks. *)
Definition edge_ok (edge : Edge) : Prop :=
is_Some (a_types a !! epNode (edgeFrom edge)) -> is_Some (a_types a !! epNode (edgeTo edge)) ->
edge_available edge /\ edge_in_scope edge /\ edge_typed edge.

Lemma checkDataEdge_error_free M edge ds :
computeMustHaveRun a = Done M -> checkDataEdge a M edge = Done ds ->
error_free ds <-> edge_ok edge.
Proof.
intros HM. unfold checkDataEdge, edge_ok.
destruct (a_types a !! epNode (edgeFrom edge)) as [st|];
  [|intros [= <-]; rewrite error_free_nil; split; [by intros _ []|done]].
destruct (a_types a !! epNode (edgeTo edge)) as [tt|] eqn:Hto;
  [|intros [= <-]; rewrite error_free_nil; split; [by intros _ _ []|done]].
intros (d1 & H1 & (d2 & H2 & (d3 & H3 & [= <-])%obind_Done)%obind_Done)%obind_Done.
destruct (checkDataEdgeTypes_spec edge tt Hto) as (d3' & H3' & Ht).
assert (d3' = d3) as -> by congruence.
rewrite !error_free_app, Ht, (checkDataEdgeScope_error_free _ _ H2),
  (checkDataEdgeAvailability_error_free _ _ _ HM H1).
split; [done|]. intros H. by apply H; eexists.
Qed.

Lemma checkDataEdges_error_free ds :
checkDataEdges a = Done ds ->
error_free ds <-> forall edge, edge ∈ DataEdges (a_graph a) -> edge_ok edge.
Proof.
unfold checkDataEdges. intros (M & HM & Hds)%obind_Done. split.
- intros H edge Hin. destruct (oflat_map_each _ _ _ _ Hds Hin) as [d Hd].
  apply (checkDataEdge_error_free M edge d HM Hd). intros x Hx. apply H.
  apply (elem_of_oflat_map _ _ _ _ Hds). by exists edge, d.
- intros H x (edge & d & Hin & Hd & Hx)%(elem_of_oflat_map _ _ _ _ Hds).
  apply (checkDataEdge_error_free M edge d HM Hd); [by apply H|done].
Qed.

Lemma checkDataEdges_total :
parallels_ported a -> loops_well_nested a -> "" ∉ map nodeId (graphNodes (a_graph a)) ->
exists ds, checkDataEdges a = Done ds.
Proof.
intros Hp Hwn Hids. unfold checkDataEdges.
assert (exists M, computeMustHaveRun a = Done M) as [M ->].
{ destruct (decide (startNode a = "")) as [E|E].
  - exists ∅. unfold computeMustHaveRun. by rewrite E.
  - destruct (computed_fixed a types_nodes E) as (M & HM & _). eauto. }
simpl. apply oflat_map_total. intros edge _. unfold checkDataEdge.
destruct (a_types a !! epNode (edgeFrom edge)); [|eauto].
destruct (a_types a !! epNode (edgeTo edge)) as [tt|] eqn:Hto; [|eauto].
destruct (checkDataEdgeAvailability_total M edge) as [d1 ->]; [done..|].
destruct (checkDataEdgeScope_total edge Hwn) as [d2 ->].
destruct (checkDataEdgeTypes_spec edge tt Hto) as (d3 & -> & _). simpl. eauto.
Qed.
End rules.

(** * Properties *)

Section properties.
Context (a : analysis).

(** resolveOutputType always answers, and answers right. On any graph,
  cyclic ones included, the recursion ends; and when the chain of For Each
  items and Collects behind a port ends, its answer is the type obtained by
  following that chain: the element type of the collection wired in, the
  list type of the value wired in, the declared type, or [any]. *)
Theorem resolveOutputType_spec id port :
(forall e, e ∈ DataEdges (a_graph a) -> nul_free (epNode (edgeFrom e)) = true) ->
nul_free id = true ->
exists r, resolveOutputType a id port = Done r /\
  forall n t, out_type a n id port t -> r = t.
Proof.
intros Hsrc Hid. destruct (resolveOutputType_total a id port) as [r Hr].
exists r. split; [done|]. intros n t Ht.
eapply (out_type_resolves a Hsrc n id port t); [done..| |exact Hr].
by intros k ?%not_elem_of_empty.
Qed.

Lemma candidate_named from to transform :
transform ∈ Candidates (CanConnect from to) -> tName transform <> "".
Proof.
intros [(Hreg & _)|(e & _ & _ & _ & ->)%wrapTransform_Some]%elem_of_candidates; [|done].
assert (H : Forall (fun t => tName t <> "") transformRegistry) by (by repeat constructor).
rewrite Forall_forall in H. by apply H.
Qed.

(** a conversion offered is a conversion accepted. Whenever CanConnect
  offers candidates for a value and a socket, recording any one of them by
  name on the edge makes the validator's type rule report nothing. *)
Theorem offered_conversion_accepted edge socket produced transform :
transform ∈ Candidates (CanConnect produced (sockType socket)) ->
typeDiagnostics
  {| edgeId := edgeId edge; edgeKind := edgeKind edge; edgeFromMessage := edgeFromMessage edge;
     edgeToMessage := edgeToMessage edge; edgeTransform := tName transform |} socket produced = [].
Proof.
intros Hc. pose proof (candidate_named _ _ _ Hc) as Hn.
destruct (candidate_resolves _ _ _ Hc) as (Hr & Hi & Ho).
unfold typeDiagnostics. simpl. rewrite (proj2 (String.eqb_neq _ _) Hn). simpl.
by rewrite Hr, Hi, Ho.
Qed.
End properties.

Lemma resolveOutputType_spec_witness :
  exists r, resolveOutputType (sampleAnalysis Flow.loopGraph) "c" "collected" = Done r /\
    forall n t, out_type (sampleAnalysis Flow.loopGraph) n "c" "collected" t -> r = t.
Proof.
  apply (resolveOutputType_spec (sampleAnalysis Flow.loopGraph)).
  - apply Forall_forall. apply (bool_decide_unpack _). vm_compute. exact I.
  - reflexivity.
Defined.

Lemma offered_conversion_accepted_witness :
  typeDiagnostics
    {| edgeId := "1"; edgeKind := EdgeData; edgeFromMessage := Some {| epNode := "a"; epPort := "p" |};
       edgeToMessage := Some {| epNode := "b"; epPort := "q" |}; edgeTransform := "wrap" |}
    {| sockName := "paths"; sockType := "list<path>" |} "path.dir" = [].
Proof.
  apply (offered_conversion_accepted (Flow.dat "1" "a" "p" "b" "q")
    {| sockName := "paths"; sockType := "list<path>" |} "path.dir"
    {| tName := "wrap"; tFrom := "path.dir"; tTo := "list<path>"; tAmbiguous := false;
       tSummary := "Wraps the single value into a one-element list"; tImpliesIteration := false |}).
  simpl. vm_compute. left.
Defined.
