(* ===== verification/Validate.v ===== *)
(** The validator: the remaining passes and the entry point of
    src/internal/server/workflow/validate/validate.go.

    [Graph] runs the passes in the code's order, concatenates what they report
    and sorts it by code. Its outcome is [Panic] or [Diverge] when a pass
    panics or does not end. *)
From S2P Require Import Prelude Types Catalog Graph Analysis Samples Reach MustHaveRun Structure Data.
From stdpp Require Import strings list gmap relations.
From Stdlib Require Import ZArith Lia Sorting.Sorted.
#[local] Open Scope nat_scope.
#[local] Open Scope go_scope.

Definition Result : Type := list Diagnostic.

(** [Result.Runnable]. *)
Definition Runnable (r : Result) : bool :=
  forallb (fun diagnostic => negb (bool_decide (dSeverity diagnostic = SeverityError))) r.

Definition checkSchemaVersion (g : Graph) : list Diagnostic :=
  if (graphSchemaVersion g =? SchemaVersion)%Z then []
  else if (graphSchemaVersion g <? SchemaVersion)%Z then
    [report SeverityError "schema.legacy"
       ("This workflow was saved in format " +:+ show_Z (graphSchemaVersion g) +:+
        " and predates control and data edges. It opens read-only; it is not migrated automatically because the old and new semantics genuinely differ.")
       [] []]
  else
    [report SeverityError "schema.future"
       ("This workflow was saved in format " +:+ show_Z (graphSchemaVersion g) +:+
        " by a newer build than this one, which understands up to " +:+ show_Z SchemaVersion +:+ ".")
       [] []].

(** [isInferredOutput]. *)
Definition isInferredOutput (nodeType : NodeType) (port : string) : bool :=
  match ntKind nodeType with
  | KindForEach => String.eqb port "item"
  | KindCollect => String.eqb port "collected"
  | _ => false
  end.

(** How an edge kind prints. *)
Definition EdgeKind_String (kind : EdgeKind) : string :=
  match kind with
  | EdgeKindUnspecified => "WORKFLOW_EDGE_KIND_UNSPECIFIED"
  | EdgeControl => "WORKFLOW_EDGE_KIND_CONTROL"
  | EdgeData => "WORKFLOW_EDGE_KIND_DATA"
  | EdgeKindOther n => show_Z n
  end.

Section passes.
Context {MO : MapOrder}.
Context (a : analysis).

(** The body of the loop of [checkPortsExist]. *)
Definition portDiagnostics (edge : Edge) : list Diagnostic :=
match a_types a !! epNode (edgeFrom edge), a_types a !! epNode (edgeTo edge) with
| Some fromType, Some toType =>
    match edgeKind edge with
    | EdgeControl =>
        (if negb (HasControlOut fromType (epPort (edgeFrom edge))) then
           [report SeverityError "port.unknownControlOut"
              (ntName fromType +:+ " has no control output named " +:+
               quote (epPort (edgeFrom edge)) +:+ ".")
              [epNode (edgeFrom edge)] [edgeId edge]]
         else []) ++
        (if negb (HasControlIn toType (epPort (edgeTo edge))) then
           [report SeverityError "port.unknownControlIn"
              (ntName toType +:+ " has no control input named " +:+
               quote (epPort (edgeTo edge)) +:+ ".")
              [epNode (edgeTo edge)] [edgeId edge]]
         else [])
    | EdgeData =>
        (if negb (bool_decide (is_Some (DataOutSocket fromType (epPort (edgeFrom edge))))) &&
            negb (isInferredOutput fromType (epPort (edgeFrom edge))) then
           [report SeverityError "port.unknownDataOut"
              (ntName fromType +:+ " has no data output named " +:+
               quote (epPort (edgeFrom edge)) +:+ ".")
              [epNode (edgeFrom edge)] [edgeId edge]]
         else []) ++
        (if negb (bool_decide (is_Some (DataInSocket toType (epPort (edgeTo edge))))) then
           [report SeverityError "port.unknownDataIn"
              (ntName toType +:+ " has no data input named " +:+
               quote (epPort (edgeTo edge)) +:+ ".")
              [epNode (edgeTo edge)] [edgeId edge]]
         else [])
    | kind =>
        [report SeverityError "edge.unknownKind"
           ("Edge " +:+ edgeId edge +:+ " has kind " +:+ EdgeKind_String kind +:+
            "; expected control or data.") [] [edgeId edge]]
    end
| _, _ => []
end.

(** The first pass that looks at the edges reads both ends of each. *)
Definition checkPortsExist : outcome (list Diagnostic) :=
oflat_map (fun edge => if has_ends edge then Done (portDiagnostics edge) else Panic) (graphEdges (a_graph a)).

(** Which edges leave each control out-port, by port key. *)
Definition controlOutUse : gmap string (list string) :=
group_by (fun e => portKey (epNode (edgeFrom e)) (epPort (edgeFrom e))) edgeId
  (ControlEdges (a_graph a)).

(** Which edges enter each data in-port. *)
Definition dataInUse : gmap string (list string) :=
group_by (fun e => portKey (epNode (edgeTo e)) (epPort (edgeTo e))) edgeId
  (DataEdges (a_graph a)).

(** The body of a loop over one of the two maps. *)
Definition arityDiagnostics (code : string) (message : string -> string)
  (use : string * list string) : list Diagnostic :=
let '(key, edgeIDs) := use in
if (length edgeIDs <=? 1)%nat then []
else
  let '(nodeID, port) := splitKey key in
  [report SeverityError code (message port) [nodeID] (sort_strings edgeIDs)].

Definition checkArity : list Diagnostic :=
flat_map (arityDiagnostics "arity.controlOut" (fun port =>
  quote port +:+ " already leads somewhere. To run two things at once, insert a Parallel node — a second wire here would be an accidental race, not a fork."))
  (range_map ["arity"; "controlOut"] controlOutUse) ++
flat_map (arityDiagnostics "arity.dataIn" (fun port =>
  "Input " +:+ quote port +:+ " is wired from more than one source, so which value it receives is ambiguous."))
  (range_map ["arity"; "dataIn"] dataInUse).

Definition checkStart : list Diagnostic :=
match nodesOfKind a KindStart with
| [_] => []
| [] =>
    [report SeverityError "start.missing"
       "This workflow has no Start node, so there is nowhere for a run to begin." [] []]
| startNodes =>
    [report SeverityError "start.multiple" "A workflow may only have one Start node."
       (sort_strings startNodes) []]
end.

Definition checkEnd : list Diagnostic :=
if existsb (fun node => hasKind a KindEnd (nodeId node)) (graphNodes (a_graph a)) then []
else
  [report SeverityError "end.missing"
     "This workflow has no End node, so a run has nowhere to finish." [] []].
End passes.

Section graph.
Context {MO : MapOrder}.

(** The diagnostics in the order the passes append them. *)
Definition passes (graph : Graph) (catalog : Catalog) : outcome (list Diagnostic) :=
let analysis := newAnalysis graph catalog in
let* ports := checkPortsExist analysis in
let* terminals := checkTerminalPlacement analysis in
let* dataEdges := checkDataEdges analysis in
Done (checkSchemaVersion graph ++ checkNodeTypes catalog (graphNodes graph) ++
      ports ++ checkArity analysis ++ checkStart analysis ++
      checkEnd analysis ++ terminals ++ checkParallelJoins analysis ++ dataEdges).

(** [validate.Graph]. *)
Definition ValidateGraph (graph : Graph) (catalog : Catalog) : outcome Result :=
let* diagnostics := passes graph catalog in
Done (stable_sort dCode String.ltb diagnostics).
End graph.

(** * What each pass finds *)

Section facts.
Context {MO : MapOrder}.
Context (a : analysis).

Lemma Runnable_error_free r : Runnable r = true <-> error_free r.
Proof.
unfold Runnable, error_free. rewrite forallb_forall. setoid_rewrite list_elem_of_In.
setoid_rewrite negb_true_iff. by setoid_rewrite bool_decide_eq_false.
Qed.

Lemma error_free_perm ds ds' : ds ≡ₚ ds' -> error_free ds -> error_free ds'.
Proof. intros Hp H d Hd. apply H. by rewrite Hp. Qed.

Lemma error_free_singleton s c m n e : error_free [report s c m n e] <-> s <> SeverityError.
Proof.
unfold error_free. setoid_rewrite list_elem_of_singleton. split; [|by intros ? ? ->].
intros H. by apply (H (report s c m n e)).
Qed.

Lemma checkSchemaVersion_error_free g :
error_free (checkSchemaVersion g) <-> graphSchemaVersion g = SchemaVersion.
Proof.
unfold checkSchemaVersion. destruct (Z.eqb_spec (graphSchemaVersion g) SchemaVersion) as [E|E].
- rewrite error_free_nil. tauto.
- case_match; rewrite error_free_singleton; tauto.
Qed.

Lemma checkNodeTypes_error_free catalog nodes :
error_free (checkNodeTypes catalog nodes) <->
forall node, node ∈ nodes -> is_Some (resolveNode catalog node).
Proof.
unfold checkNodeTypes. rewrite error_free_flat_map.
apply forall_proper. intros node. split; intros H Hin; specialize (H Hin).
- destruct (resolveNode catalog node); [eauto|]. by apply error_free_singleton in H.
- destruct H as [nt ->]. by apply error_free_nil.
Qed.

(** An edge of a known kind between ports its nodes have. *)
Definition edge_ported (edge : Edge) (fromType toType : NodeType) : Prop :=
match edgeKind edge with
| EdgeControl =>
    HasControlOut fromType (epPort (edgeFrom edge)) = true /\
    HasControlIn toType (epPort (edgeTo edge)) = true
| EdgeData =>
    (is_Some (DataOutSocket fromType (epPort (edgeFrom edge))) \/
     isInferredOutput fromType (epPort (edgeFrom edge)) = true) /\
    is_Some (DataInSocket toType (epPort (edgeTo edge)))
| _ => False
end.

Definition ports_exist : Prop :=
forall edge fromType toType, edge ∈ graphEdges (a_graph a) ->
  a_types a !! epNode (edgeFrom edge) = Some fromType ->
  a_types a !! epNode (edgeTo edge) = Some toType -> edge_ported edge fromType toType.

Lemma portDiagnostics_error_free edge :
error_free (portDiagnostics a edge) <->
forall fromType toType, a_types a !! epNode (edgeFrom edge) = Some fromType ->
  a_types a !! epNode (edgeTo edge) = Some toType -> edge_ported edge fromType toType.
Proof.
unfold portDiagnostics, edge_ported.
destruct (a_types a !! epNode (edgeFrom edge)) as [ft|]; [|rewrite error_free_nil; naive_solver].
destruct (a_types a !! epNode (edgeTo edge)) as [tt|]; [|rewrite error_free_nil; naive_solver].
assert (Hsome : forall P Q : NodeType -> NodeType -> Prop, (Q ft tt <-> P ft tt) ->
  (Q ft tt <-> forall f t, Some ft = Some f -> Some tt = Some t -> P f t)).
{ intros P Q HPQ. rewrite HPQ. split; [by intros ? ? ? [= <-] [= <-]|auto]. }
apply (Hsome (fun f t => edge_ported edge f t) (fun _ _ => _)). unfold edge_ported.
destruct (edgeKind edge); rewrite ?error_free_app, ?error_free_if, ?error_free_singleton by done;
  rewrite ?andb_false_iff, ?negb_false_iff, ?bool_decide_eq_true; tauto.
Qed.

(** Every edge has both its ends. *)
Definition ends_present (g : Graph) : Prop := Forall (fun edge => has_ends edge = true) (graphEdges g).

#[export] Instance ends_present_dec g : Decision (ends_present g).
Proof. unfold ends_present. apply _. Defined.

Lemma checkPortsExist_outcome :
checkPortsExist a =
if decide (ends_present (a_graph a)) then Done (flat_map (portDiagnostics a) (graphEdges (a_graph a))) else Panic.
Proof.
unfold checkPortsExist. case_decide as Hends; unfold ends_present in Hends; revert Hends; generalize (graphEdges (a_graph a)) as l.
- induction 1 as [|edge l He _ IH]; [done|]. cbn [oflat_map]. by rewrite He, IH.
- induction l as [|edge l IH]; intros Hl; [by destruct Hl|]. cbn [oflat_map]. destruct (has_ends edge) eqn:He; [|done].
  cbn [obind]. rewrite IH; [done|]. intros ?. apply Hl. by constructor.
Qed.

Lemma checkPortsExist_error_free ds : checkPortsExist a = Done ds -> error_free ds <-> ports_exist.
Proof.
rewrite checkPortsExist_outcome. case_decide; [|done]. intros [= <-]. unfold ports_exist. rewrite error_free_flat_map.
setoid_rewrite portDiagnostics_error_free. split; eauto.
Qed.

(** ** Arity *)

Lemma group_by_long {A} (key : A -> string) (val : A -> string) l :
(forall k v, group_by key val l !! k = Some v -> (length v <= 1)%nat) <-> NoDup (map key l).
Proof.
split.
- intros H. induction l as [|x l IH] using rev_ind; [constructor|].
  assert (Hlen : (length (List.filter (fun y => String.eqb (key y) (key x)) (l ++ [x])) <= 1)%nat).
  { destruct (group_by_is_Some key val (l ++ [x]) (key x)) as [_ Hs].
    destruct Hs as [v Hv]; [exists x; by rewrite elem_of_app; split; [right; left|]|].
    pose proof (H _ _ Hv) as Hl. destruct (group_by_Some _ _ _ _ _ Hv) as [-> _].
    by rewrite length_map in Hl. }
  rewrite List.filter_app, length_app in Hlen. simpl in Hlen. rewrite String.eqb_refl in Hlen. simpl in Hlen.
  rewrite map_app. apply NoDup_app. split_and!.
  + apply IH. intros k v Hv. destruct (group_by_Some _ _ _ _ _ Hv) as [Heq _].
    destruct (group_by_is_Some key val (l ++ [x]) k) as [_ Hs].
    destruct Hs as [w Hw].
    { destruct (group_by_is_Some key val l k) as [[y [? ?]] _]; [eauto|].
      exists y. by rewrite elem_of_app; split; [left|]. }
    pose proof (H _ _ Hw) as Hl. destruct (group_by_Some _ _ _ _ _ Hw) as [Hw' _].
    rewrite Hw', List.filter_app, map_app, length_app, <- Heq in Hl. lia.
  + intros k Hk [->|?%elem_of_nil]%elem_of_cons; [|done].
    apply list_elem_of_fmap in Hk as (y & Hky & Hy).
    assert (y ∈ List.filter (fun y => String.eqb (key y) (key x)) l) as Hin.
    { rewrite list_elem_of_In, filter_In, <- list_elem_of_In, String.eqb_eq. done. }
    destruct (List.filter _ l); [by apply elem_of_nil in Hin|simpl in Hlen; lia].
  + simpl. constructor; [apply not_elem_of_nil|constructor].
- intros Hnd k v Hv. destruct (group_by_Some _ _ _ _ _ Hv) as [-> _]. rewrite length_map.
  clear Hv. induction l as [|x l IH]; simpl in *; [lia|].
  apply NoDup_cons in Hnd as [Hx Hnd].
  destruct (String.eqb_spec (key x) k) as [<-|]; [|by apply IH]. simpl.
  assert (List.filter (fun y => String.eqb (key y) (key x)) l = []) as ->; [|done].
  destruct (List.filter _ l) as [|y ys] eqn:Hf; [done|]. exfalso. apply Hx.
  assert (y ∈ List.filter (fun y => String.eqb (key y) (key x)) l) as Hy by (rewrite Hf; left).
  rewrite list_elem_of_In, filter_In, <- list_elem_of_In, String.eqb_eq in Hy.
  apply list_elem_of_fmap. exists y. destruct Hy. auto.
Qed.

Lemma arityDiagnostics_error_free code message use :
error_free (arityDiagnostics code message use) <-> (length use.2 <= 1)%nat.
Proof.
destruct use as [key ids]. unfold arityDiagnostics. cbn [snd].
destruct (Nat.leb_spec (length ids) 1).
- rewrite error_free_nil. split; auto.
- destruct (splitKey key). rewrite error_free_singleton. split; [done|lia].
Qed.

(** A control out-port leads one way, a data in-port is fed once. *)
Definition ports_single : Prop :=
NoDup (map (fun e => portKey (epNode (edgeFrom e)) (epPort (edgeFrom e))) (ControlEdges (a_graph a))) /\
NoDup (map (fun e => portKey (epNode (edgeTo e)) (epPort (edgeTo e))) (DataEdges (a_graph a))).

Lemma checkArity_error_free : error_free (checkArity a) <-> ports_single.
Proof.
unfold checkArity, ports_single. rewrite error_free_app, !error_free_flat_map.
rewrite <- !(group_by_long _ edgeId). fold (controlOutUse a) (dataInUse a).
setoid_rewrite arityDiagnostics_error_free.
assert (Hr : forall site (m : gmap string (list string)),
  (forall x, x ∈ range_map site m -> (length x.2 <= 1)%nat) <->
  (forall k v, m !! k = Some v -> (length v <= 1)%nat)).
{ intros site m. split.
  - intros H k v Hk. apply (H (k, v)). by apply elem_of_range_map.
  - intros H [k v] Hk%elem_of_range_map. by apply (H k). }
by rewrite !Hr.
Qed.

(** ** Start and end *)

Lemma checkStart_error_free :
error_free (checkStart a) <-> exists id, nodesOfKind a KindStart = [id].
Proof.
unfold checkStart. destruct (nodesOfKind a KindStart) as [|id [|]].
- rewrite error_free_singleton. split; [done|]. by intros [].
- rewrite error_free_nil. split; eauto.
- rewrite error_free_singleton. split; [done|]. by intros [].
Qed.

Lemma checkEnd_error_free :
error_free (checkEnd a) <-> exists id, id ∈ nodesOfKind a KindEnd.
Proof.
unfold checkEnd. setoid_rewrite elem_of_nodesOfKind.
destruct (existsb _ _) eqn:He.
- rewrite error_free_nil. split; [|done]. intros _.
  apply existsb_exists in He as (node & Hin & Hk). exists (nodeId node). split; [|done].
  apply list_elem_of_fmap. exists node. by rewrite list_elem_of_In.
- rewrite error_free_singleton. split; [done|]. intros (id & Hin & Hk).
  apply list_elem_of_fmap in Hin as (node & -> & Hin).
  assert (existsb (fun node => hasKind a KindEnd (nodeId node)) (graphNodes (a_graph a)) = true);
    [|congruence].
  apply existsb_exists. exists node. by rewrite <- list_elem_of_In.
Qed.

Lemma checkTerminalPlacement_error_free ds :
checkTerminalPlacement a = Done ds -> error_free ds <-> terminals_placed a.
Proof.
intros H. rewrite <- (checkTerminalPlacement_nil a ds H). split; [|intros ->; by apply error_free_nil].
intros Hef. apply obind_Done in H as (branches & _ & [= <-]).
apply flat_map_nil. intros node Hin. unfold error_free in Hef.
setoid_rewrite list_elem_of_In in Hef. setoid_rewrite in_flat_map in Hef.
destruct (terminalDiagnostics a branches (nodeId node)) as [|d l] eqn:Hd; [done|]. exfalso.
apply (Hef d).
- exists node. rewrite <- list_elem_of_In, Hd. split; [done|left; done].
- revert Hd. unfold terminalDiagnostics. repeat case_match; by intros [= <-].
Qed.

Lemma checkParallelJoins_error_free :
error_free (checkParallelJoins a) <->
forall id nodeType, id ∈ nodesOfKind a KindParallel -> a_types a !! id = Some nodeType ->
  parallel_ok a id nodeType.
Proof.
unfold checkParallelJoins. rewrite error_free_flat_map.
setoid_rewrite parallelDiagnostics_error_free. setoid_rewrite elem_of_nodesOfKind. split.
- intros H id nt [Hin Hk] Hty. apply list_elem_of_fmap in Hin as (node & -> & Hin).
  by apply (H node).
- intros H node Hin nt Hty Hk. apply H; [split; [|done]|done]. by apply list_elem_of_fmap; eauto.
Qed.
End facts.

(** * The verdict *)

Section verdict.
Context {MO : MapOrder}.

(** What a workflow must satisfy to be run. *)
Record runnable_graph (graph : Graph) (catalog : Catalog) : Prop := {
rg_schema : graphSchemaVersion graph = SchemaVersion;
rg_types node : node ∈ graphNodes graph -> is_Some (resolveNode catalog node);
rg_ports : ports_exist (newAnalysis graph catalog);
rg_single : ports_single (newAnalysis graph catalog);
rg_start : exists id, nodesOfKind (newAnalysis graph catalog) KindStart = [id];
rg_end : exists id, id ∈ nodesOfKind (newAnalysis graph catalog) KindEnd;
rg_terminals : terminals_placed (newAnalysis graph catalog);
rg_parallels id nodeType :
  id ∈ nodesOfKind (newAnalysis graph catalog) KindParallel ->
  a_types (newAnalysis graph catalog) !! id = Some nodeType ->
  parallel_ok (newAnalysis graph catalog) id nodeType;
rg_data edge : edge ∈ DataEdges graph -> edge_ok (newAnalysis graph catalog) edge;
}.

Lemma passes_error_free graph catalog ds :
passes graph catalog = Done ds -> error_free ds <-> runnable_graph graph catalog.
Proof.
intros (ps & Hps & (ts & Hts & (des & Hdes & [= <-])%obind_Done)%obind_Done)%obind_Done.
rewrite !error_free_app, checkSchemaVersion_error_free, checkNodeTypes_error_free,
  (checkPortsExist_error_free _ _ Hps), checkArity_error_free, checkStart_error_free,
  checkEnd_error_free, (checkTerminalPlacement_error_free _ _ Hts),
  checkParallelJoins_error_free,
  (checkDataEdges_error_free _ (newAnalysis_types_nodes graph catalog) _ Hdes).
split; [intros (? & ? & ? & ? & ? & ? & ? & ? & ?); by constructor|by intros []].
Qed.

Lemma ValidateGraph_Done graph catalog r :
ValidateGraph graph catalog = Done r ->
exists ds, passes graph catalog = Done ds /\ r = stable_sort dCode String.ltb ds.
Proof. intros (ds & Hds & [= <-])%obind_Done. eauto. Qed.

Lemma runnable_verdict graph catalog r :
ValidateGraph graph catalog = Done r ->
Runnable r = true <-> runnable_graph graph catalog.
Proof.
intros (ds & Hds & ->)%ValidateGraph_Done.
rewrite Runnable_error_free, <- (passes_error_free _ _ _ Hds).
split; apply error_free_perm; [|symmetry]; apply stable_sort_perm.
Qed.

Lemma parallelBranchNodes_Panic a : ~ parallels_ported a -> parallelBranchNodes a = Panic.
Proof.
intros H. destruct (parallelBranchNodes a) as [b| |] eqn:Hb; [|done|].
- destruct H. apply parallelBranchNodes_total. eauto.
- exfalso. revert Hb. unfold parallelBranchNodes. generalize (∅ : gmap string string) as M.
  induction (nodesOfKind a KindParallel) as [|id l IH]; intros M; simpl; [done|].
  destruct (parallelPorts a id) eqn:Hp; simpl; [by apply IH|done|].
  by apply parallelPorts_no_Diverge in Hp.
Qed.

(** Nodes are data-dependent: an edge reads, at [n], a value that [m] makes. A
  pure source makes nothing. *)
Definition reads (a : analysis) (m n : string) : Prop :=
exists edge, edge ∈ DataEdges (a_graph a) /\
  is_Some (a_types a !! epNode (edgeFrom edge)) /\
  hasKind a KindSource (epNode (edgeFrom edge)) = false /\
  epNode (edgeFrom edge) = m /\ epNode (edgeTo edge) = n.

(** What a collect inside a loop makes is answered for by the loop. *)
Definition depends (a : analysis) (m n : string) : Prop :=
exists k, reads a k n /\ availabilityProducer a k = m.

Definition collects_in_loop (a : analysis) (c : string) : Prop :=
hasKind a KindCollect c = true /\ loopScope a c <> "".

Lemma availabilityProducer_other a m : availabilityProducer a m = m \/ collects_in_loop a m.
Proof.
unfold availabilityProducer, collects_in_loop. destruct (hasKind a KindCollect m); [|by left].
destruct (String.eqb_spec (loopScope a m) ""); [by left|by right].
Qed.

(** A chain either stays within a part of the relation or leaves it somewhere. *)
Lemma tc_leaves {A} (R : relation A) (P Q : A -> Prop) : (forall x, P x \/ Q x) -> forall x y, tc R x y ->
  tc (fun u v => P u /\ R u v) x y \/ exists u v, rtc R x u /\ Q u /\ R u v /\ rtc R v y.
Proof.
intros HPQ x y Hc. induction Hc as [x y Hxy|x z y Hxz Hzy IH]; (destruct (HPQ x) as [Hx|Hx]; [|right]).
- left. by apply tc_once.
- exists x, y. split_and!; [apply rtc_refl|done|done|apply rtc_refl].
- destruct IH as [IH|(u & v & Hzu & Hu & Huv & Hvy)].
  + left. by eapply tc_l.
  + right. exists u, v. split_and!; [by eapply rtc_l|done|done|done].
- exists x, z. split_and!; [apply rtc_refl|done|done|by apply tc_rtc].
Qed.

Lemma run_executable a n S : startNode a <> "" -> may_run a n S -> executable a n = true.
Proof.
intros Hs H. destruct H as [|e S He|n ports pick hist _ Hne _ Hpick].
- destruct (startNode_kind a Hs) as [Hk _]. by eapply executable_hasKind.
- by apply elem_of_executableEdges in He as (_ & _ & ?).
- destruct ports as [|p l]; [done|]. destruct (Hpick p) as [He Heq]; [left|].
  apply elem_of_executableEdges in He as (_ & _ & He). by rewrite Heq in He.
Qed.

(** C1: the validator's verdict is exact. When validate.Graph returns, its
  result is Runnable precisely for the workflows that satisfy every rule,
  the rules stated without the validator's algorithms: the schema version,
  resolved types, existing ports, single control-out and data-in wires, one
  start, an end, no terminal in a loop body or parallel branch, parallels
  that meet in a join, and data edges whose value exists in every history
  of the target, is visible from the target's loop, and has a type that
  fits. *)
Theorem Runnable_exact graph catalog r :
ValidateGraph graph catalog = Done r ->
(Runnable r = true <-> runnable_graph graph catalog).
Proof. apply runnable_verdict. Qed.

(** C39: validate.Graph returns on every workflow whose nodes have ids, whose
  edges have both their ends, whose parallels have control ports and whose
  loops are well nested, whatever else is wrong with it; an edge that lacks
  an end makes it panic, whatever else is right. *)
Theorem ValidateGraph_total graph catalog :
(ends_present graph -> "" ∉ map nodeId (graphNodes graph) ->
 parallels_ported (newAnalysis graph catalog) -> loops_well_nested (newAnalysis graph catalog) ->
 exists r, ValidateGraph graph catalog = Done r) /\
(~ ends_present graph -> ValidateGraph graph catalog = Panic).
Proof.
unfold ValidateGraph, passes. rewrite checkPortsExist_outcome. split; [|by intros; rewrite decide_False].
intros Hends Hids Hp Hwn. rewrite decide_True by done. cbn [obind]. unfold checkTerminalPlacement.
destruct (proj2 (parallelBranchNodes_total (newAnalysis graph catalog)) Hp) as [b ->]. simpl.
destruct (checkDataEdges_total (newAnalysis graph catalog)
  (newAnalysis_types_nodes graph catalog)) as [ds ->]; [done..|]. simpl. eauto.
Qed.

(** In a runnable workflow no node that control can arrive at depends on itself,
  what a collect inside a loop makes being the loop's. *)
Lemma runnable_depends_acyclic graph catalog r n S :
"" ∉ map nodeId (graphNodes graph) ->
ValidateGraph graph catalog = Done r -> Runnable r = true ->
may_run (newAnalysis graph catalog) n S -> ~ tc (depends (newAnalysis graph catalog)) n n.
Proof.
intros Hids Hr Hrun%(runnable_verdict _ _ _ Hr). apply always_before_acyclic.
intros m k T HT (src & (edge & Hin & Hfrom & Hsrc & <- & <-) & <-).
destruct (rg_start _ _ Hrun) as [id Hid].
assert (Hs : startNode (newAnalysis graph catalog) <> "").
{ rewrite (startNode_unique _ _ Hid). intros ->. apply Hids.
  assert ("" ∈ nodesOfKind (newAnalysis graph catalog) KindStart) as H by (rewrite Hid; left).
  by apply elem_of_nodesOfKind in H as [? _]. }
pose proof (run_executable _ _ _ Hs HT) as Hex.
destruct (rg_data _ _ Hrun edge Hin Hfrom) as (Hav & _); [by apply executable_node|].
by destruct (Hav Hs Hsrc Hex) as [_ H].
Qed.


(** The diagnostics are the ones the passes reported, each as often,
  ordered by code, and those of one code keep the order they were reported
  in. *)
Theorem ValidateGraph_stable graph catalog r :
ValidateGraph graph catalog = Done r ->
exists ds, passes graph catalog = Done ds /\ r ≡ₚ ds /\
  StronglySorted (fun d d' => String.ltb (dCode d') (dCode d) = false) r /\
  forall code, filter (fun d => dCode d = code) r = filter (fun d => dCode d = code) ds.
Proof.
intros (ds & Hds & ->)%ValidateGraph_Done. exists ds. split; [done|].
split; [apply stable_sort_perm|]. split.
- apply stable_sort_sorted; [apply str_ltb_trans|apply str_ltb_asym].
- intros code. apply stable_sort_filter, str_ltb_irrefl.
Qed.

(** validate.Graph panics on every workflow with a parallel whose catalog
  entry declares no control ports. *)
Theorem ValidateGraph_Panic graph catalog id nodeType :
id ∈ nodesOfKind (newAnalysis graph catalog) KindParallel ->
a_types (newAnalysis graph catalog) !! id = Some nodeType -> ntControl nodeType = None ->
ValidateGraph graph catalog = Panic.
Proof.
intros Hid Hty Hc. unfold ValidateGraph, passes. rewrite checkPortsExist_outcome. case_decide; [|done].
cbn [obind]. unfold checkTerminalPlacement. rewrite parallelBranchNodes_Panic; [done|]. intros Hall. destruct (Hall id Hid) as [ports Hp].
unfold parallelPorts in Hp. by rewrite Hty, Hc in Hp.
Qed.
End verdict.

(** * Concrete workflows *)

#[local] Existing Instance enumeration_order.

(** A decidable fact that evaluates to true. *)
Ltac decide_now := apply (bool_decide_unpack _); vm_compute; exact I.

(** An element of a list that evaluates. *)
Ltac member_now := apply list_elem_of_In; vm_compute; tauto.

(** validate.Graph does not return on a workflow in which a loop's body
    leads back to the loop and a task of the body reads from another loop: the
    walk up the scopes of scopeVisible never ends, whatever fuel it is given. *)
Theorem back_edge_diverges :
  ValidateGraph Flow.backEdgeGraph Flow.sampleCatalog = Diverge /\
  (forall fuel, scopeVisible_loop (sampleAnalysis Flow.backEdgeGraph) fuel "M"
     (loopScope (sampleAnalysis Flow.backEdgeGraph) "t") = Diverge) /\
  loopScope (sampleAnalysis Flow.backEdgeGraph) "L" = "L".
Proof.
  split; [vm_compute; reflexivity|]. split; [|vm_compute; reflexivity].
  intros fuel. pose proof (scopeVisible_cases (sampleAnalysis Flow.backEdgeGraph) "M"
    (loopScope (sampleAnalysis Flow.backEdgeGraph) "t")) as H.
  assert (Hd : scopeVisible (sampleAnalysis Flow.backEdgeGraph) "M"
    (loopScope (sampleAnalysis Flow.backEdgeGraph) "t") = Diverge) by (vm_compute; reflexivity).
  rewrite Hd in H. by destruct H as [_ H].
Qed.

(** the limit of acyclicity: two tasks no control edge leads to may read
    from each other, and the workflow is runnable without a diagnostic. *)
Theorem unreachable_data_cycle :
  ValidateGraph Flow.islandGraph Flow.sampleCatalog = Done [] /\ Runnable [] = true /\
  tc (depends (sampleAnalysis Flow.islandGraph)) "t" "t".
Proof.
  split; [vm_compute; reflexivity|]. split; [done|].
  apply (tc_l _ _ "u").
  - exists "t". split; [|decide_now].
    exists (Flow.dat "4" "t" "output" "u" "input"). split_and!; (decide_now || member_now).
  - apply tc_once. exists "u". split; [|decide_now]. exists (Flow.dat "5" "u" "output" "t" "input").
    split_and!; (decide_now || member_now).
Qed.

(** What the theorem on cycles leaves open is real: a task in a loop's body may
    read the collection that the loop's own collect makes and be what it
    collects; the workflow is runnable, though the value it reads is complete
    only when the loop is done. *)
Example inner_collect_cycle :
  ValidateGraph Flow.innerCollectGraph Flow.innerCollectCatalog = Done [] /\
  tc (reads (newAnalysis Flow.innerCollectGraph Flow.innerCollectCatalog)) "m" "m".
Proof.
  split; [vm_compute; reflexivity|]. apply (tc_l _ _ "c").
  - exists (Flow.dat "7" "m" "output" "c" "value"). split_and!; (decide_now || member_now).
  - apply tc_once. exists (Flow.dat "6" "c" "collected" "m" "paths"). split_and!; (decide_now || member_now).
Qed.

Lemma Runnable_exact_witness : runnable_graph Flow.loopGraph Flow.sampleCatalog.
Proof.
  apply (Runnable_exact Flow.loopGraph Flow.sampleCatalog []); vm_compute; reflexivity.
Defined.

Lemma parallels_ported_dec a :
  forallb (fun id => match parallelPorts a id with Done _ => true | _ => false end)
    (nodesOfKind a KindParallel) = true -> parallels_ported a.
Proof.
  rewrite forallb_forall. intros H id Hid. specialize (H id).
  rewrite <- list_elem_of_In in H. destruct (parallelPorts a id); [eauto|by specialize (H Hid)..].
Qed.

Lemma ValidateGraph_total_witness :
  (exists r, ValidateGraph Flow.siblingGraph Flow.sampleCatalog = Done r) /\
  ValidateGraph Flow.endlessGraph Flow.sampleCatalog = Panic.
Proof.
  split; [apply (ValidateGraph_total Flow.siblingGraph)|apply (ValidateGraph_total Flow.endlessGraph); decide_now].
  - decide_now.
  - decide_now.
  - apply parallels_ported_dec. vm_compute. reflexivity.
  - apply loops_well_nested_dec. vm_compute. reflexivity.
Defined.


Lemma ValidateGraph_stable_witness :
  exists ds, passes Flow.skipGraph Flow.sampleCatalog = Done ds /\ length ds = 1%nat.
Proof.
  destruct (ValidateGraph Flow.skipGraph Flow.sampleCatalog) as [r| |] eqn:Hr;
    [|vm_compute in Hr; discriminate Hr..].
  destruct (ValidateGraph_stable Flow.skipGraph Flow.sampleCatalog r Hr) as (ds & Hds & Hp & _).
  exists ds. split; [exact Hds|]. rewrite <- (Permutation_length Hp).
  vm_compute in Hr. injection Hr as <-. reflexivity.
Defined.

Lemma ValidateGraph_Panic_witness : ValidateGraph Flow.portlessGraph Flow.sampleCatalog = Panic.
Proof.
  apply (ValidateGraph_Panic Flow.portlessGraph Flow.sampleCatalog "p" Flow.portless).
  - decide_now.
  - vm_compute. reflexivity.
  - reflexivity.
Defined.
