(* ===== verification/GoPath.v ===== *)
(** Lexical path processing of Go's standard library, on slash-separated paths:
    path.Clean, and filepath.Clean, Join, Dir and Base as they are on a Unix
    server. Used by the agent path translation and the dry-run filesystem. *)
From S2P Require Import Prelude.
From stdpp Require Import strings list.
From Stdlib Require Import Ascii Lia.
#[local] Open Scope nat_scope.

Definition slash : ascii := "/"%char.

(** [strings.Split(s, "/")]. *)
Fixpoint split_slash (s : string) : list string :=
  match s with
  | EmptyString => [EmptyString]
  | String c rest =>
      if Ascii.eqb c slash then EmptyString :: split_slash rest
      else
        match split_slash rest with
        | first :: others => String c first :: others
        | [] => [String c EmptyString]
        end
  end.

Definition rooted (p : string) : bool := has_prefix "/" p.

(** One element of the path, the elements kept so far being in reverse. *)
Definition clean_step (root : bool) (kept : list string) (element : string) : list string :=
  if String.eqb element "" || String.eqb element "." then kept
  else if String.eqb element ".." then
    match kept with
    | [] => if root then [] else [".."]
    | top :: below => if String.eqb top ".." then ".." :: kept else below
    end
  else element :: kept.

(** The elements that remain. *)
Definition path_elements (p : string) : list string :=
  rev (foldl (clean_step (rooted p)) [] (split_slash p)).

Definition show_path (root : bool) (elements : list string) : string :=
  if root then "/" +:+ str_join "/" elements
  else match elements with [] => "." | _ => str_join "/" elements end.

(** [path.Clean]. *)
Definition Clean (p : string) : string := show_path (rooted p) (path_elements p).

(** [filepath.Join] of two elements. *)
Definition JoinPath (a b : string) : string :=
  if String.eqb a "" then (if String.eqb b "" then "" else Clean b)
  else Clean (a +:+ "/" +:+ b).

(** The text up to the last slash, and the text after it. *)
Definition split_last (p : string) : string * string :=
  let parts := split_slash p in
  (match removelast parts with
   | [] => ""
   | front => str_join "/" front +:+ "/"
   end, List.last parts "").

(** [filepath.Dir]. *)
Definition Dir (p : string) : string := Clean (split_last p).1.

Fixpoint trim_slashes (fuel : nat) (p : string) : string :=
  match fuel with
  | O => p
  | S fuel' => if has_suffix "/" p then trim_slashes fuel' (trim_suffix p "/") else p
  end.

(** [filepath.Base]. *)
Definition Base (p : string) : string :=
  if String.eqb p "" then "."
  else
    let trimmed := trim_slashes (String.length p) p in
    if String.eqb trimmed "" then "/" else (split_last trimmed).2.

Example Clean_examples :
  map Clean [""; "/"; "a//b/./c"; "/../a"; "../a/../../b"; "a/.."; "/a/b/../.."] =
  ["."; "/"; "a/b/c"; "/a"; "../../b"; "."; "/"].
Proof. reflexivity. Qed.

Example Dir_Base_examples :
  map Dir ["/a/b"; "a"; "/a"; "a/b/"] = ["/a"; "."; "/"; "a/b"] /\
  map Base ["/a/b"; "a"; "/"; "a/b//"; ""] = ["b"; "a"; "/"; "b"; "."].
Proof. split; reflexivity. Qed.

(** * Facts *)

#[local] Arguments String.append !_ _ : simpl nomatch.

(** A path element that survives cleaning. *)
Definition plain (element : string) : Prop :=
  element <> "" /\ element <> "." /\ str_contains element "/" = false.

Lemma split_slash_nonempty s : split_slash s <> [].
Proof.
  induction s as [|c s IH]; [done|]. simpl. destruct (Ascii.eqb c slash); [done|].
  by destruct (split_slash s).
Qed.

Lemma split_slash_app a b : split_slash (a +:+ "/" +:+ b) = split_slash a ++ split_slash b.
Proof.
  change (a +:+ "/" +:+ b) with (a +:+ String slash b).
  induction a as [|c a IH]; [done|]. simpl. destruct (Ascii.eqb c slash).
  - by rewrite IH.
  - rewrite IH. destruct (split_slash a) eqn:E; [by apply split_slash_nonempty in E|done].
Qed.

Lemma contains_slash_cons c s :
  str_contains (String c s) "/" = Ascii.eqb c slash || str_contains s "/".
Proof.
  change (has_prefix "/" (String c s) || str_contains s "/" = Ascii.eqb c slash || str_contains s "/").
  cbn [has_prefix]. rewrite andb_true_r. unfold slash. by rewrite Ascii.eqb_sym.
Qed.

Lemma contains_slash_app a b : str_contains (a +:+ b) "/" = str_contains a "/" || str_contains b "/".
Proof.
  induction a as [|c a IH]; [done|]. change (String c a +:+ b) with (String c (a +:+ b)).
  by rewrite !contains_slash_cons, IH, orb_assoc.
Qed.

Lemma rooted_cons c s : rooted (String c s) = Ascii.eqb c slash.
Proof.
  unfold rooted. cbn [has_prefix]. rewrite andb_true_r. unfold slash. by rewrite Ascii.eqb_sym.
Qed.

Lemma split_slash_plain s : str_contains s "/" = false -> split_slash s = [s].
Proof.
  induction s as [|c s IH]; [done|]. rewrite contains_slash_cons, orb_false_iff.
  intros [Hc Hs]. simpl. by rewrite Hc, IH.
Qed.

Lemma split_slash_elements s e : e ∈ split_slash s -> str_contains e "/" = false.
Proof.
  revert e. induction s as [|c s IH]; intros e; simpl.
  - by intros ->%list_elem_of_singleton.
  - destruct (Ascii.eqb c slash) eqn:Hc.
    + intros [->|He]%elem_of_cons; [done|auto].
    + destruct (split_slash s) as [|f others]; [by intros ->%list_elem_of_singleton; rewrite contains_slash_cons, Hc|].
      intros [->|He]%elem_of_cons.
      * rewrite contains_slash_cons, Hc. apply IH. left.
      * apply IH. by right.
Qed.

Lemma split_slash_join l :
  l <> [] -> Forall (fun e => str_contains e "/" = false) l -> split_slash (str_join "/" l) = l.
Proof.
  induction l as [|e l IH]; [done|]. intros _ [He Hl]%Forall_cons.
  destruct l as [|e' l]; [by apply split_slash_plain|].
  change (str_join "/" (e :: e' :: l)) with (e +:+ "/" +:+ str_join "/" (e' :: l)).
  by rewrite split_slash_app, IH, split_slash_plain.
Qed.

(** ** The elements of a clean path *)

(** Reversed elements: plain ones on top of a run of [..], which is empty in a
    rooted path. *)
Definition clean_elements (root : bool) (kept : list string) : Prop :=
  exists names ups, kept = names ++ ups /\ Forall (fun e => plain e /\ e <> "..") names /\
    Forall (eq "..") ups /\ (root = true -> ups = []).

Lemma clean_step_ok root kept e :
  clean_elements root kept -> str_contains e "/" = false -> clean_elements root (clean_step root kept e).
Proof.
  intros (names & ups & -> & Hn & Hu & Hr) He. unfold clean_step.
  destruct (String.eqb_spec e "") as [|H1]; simpl; [by exists names, ups|].
  destruct (String.eqb_spec e ".") as [|H2]; simpl; [by exists names, ups|].
  destruct (String.eqb_spec e "..") as [->|H3].
  - destruct names as [|n names]; simpl.
    + destruct ups as [|u ups].
      * destruct root; [by exists [], []|]. exists [], [".."]. split_and!; by repeat constructor.
      * assert (u = "..") as -> by (by inversion Hu). simpl.
        exists [], (".." :: ".." :: ups). split_and!; [done..| |].
        -- by constructor.
        -- intros H. by specialize (Hr H).
    + apply Forall_cons in Hn as [[Hp Hne] Hn].
      rewrite (proj2 (String.eqb_neq _ _) Hne). by exists names, ups.
  - exists (e :: names), ups. split_and!; [done| |done..].
    constructor; [|done]. done.
Qed.

Lemma clean_fold_ok root kept l :
  clean_elements root kept -> Forall (fun e => str_contains e "/" = false) l ->
  clean_elements root (foldl (clean_step root) kept l).
Proof.
  revert kept. induction l as [|e l IH]; intros kept Hk; [done|].
  intros [He Hl]%Forall_cons. apply IH; [|done]. by apply clean_step_ok.
Qed.

Lemma split_slash_Forall s : Forall (fun e => str_contains e "/" = false) (split_slash s).
Proof. apply Forall_forall. apply split_slash_elements. Qed.

Lemma path_elements_ok p : clean_elements (rooted p) (rev (path_elements p)).
Proof.
  unfold path_elements. rewrite rev_involutive. apply clean_fold_ok; [|apply split_slash_Forall].
  exists [], []. by repeat constructor.
Qed.

(** Elements without [..] are kept as they are. *)
Lemma clean_fold_names root kept l :
  Forall (fun e => plain e /\ e <> "..") l ->
  foldl (clean_step root) kept l = rev l ++ kept.
Proof.
  revert kept. induction l as [|e l IH]; intros kept; [done|].
  intros [[(H1 & H2 & _) H3] Hl]%Forall_cons. cbn [foldl]. unfold clean_step at 2.
  rewrite (proj2 (String.eqb_neq _ _) H1), (proj2 (String.eqb_neq _ _) H2), (proj2 (String.eqb_neq _ _) H3).
  cbn [orb]. rewrite IH by done. simpl. by rewrite <- app_assoc.
Qed.

Lemma clean_fold_ups kept ups :
  Forall (eq "..") ups -> Forall (eq "..") kept ->
  foldl (clean_step false) kept ups = ups ++ kept.
Proof.
  revert kept. induction ups as [|u ups IH]; intros kept Hu Hk; [done|].
  apply Forall_cons in Hu as [<- Hu]. cbn [foldl].
  assert (clean_step false kept ".." = ".." :: kept) as ->.
  { destruct kept; [done|]. by apply Forall_cons in Hk as [<- _]. }
  rewrite IH; [|done|by constructor]. clear -Hu Hk.
  assert (H : forall l, Forall (eq "..") l -> l ++ ".." :: kept = ".." :: l ++ kept).
  { induction 1 as [|? ? <- _ IH]; [done|]. simpl. by rewrite IH. }
  by apply H.
Qed.

(** Cleaning clean elements again changes nothing. *)
Lemma clean_fold_again root kept :
  clean_elements root kept -> foldl (clean_step root) [] (rev kept) = kept.
Proof.
  intros (names & ups & -> & Hn & Hu & Hr). rewrite rev_app_distr, foldl_app.
  assert (foldl (clean_step root) [] (rev ups) = ups) as ->.
  { destruct root; [by rewrite Hr|]. rewrite clean_fold_ups by (by try apply Forall_rev).
    rewrite app_nil_r. clear -Hu. induction Hu as [|u l <- Hu IH]; [done|]. simpl. rewrite IH.
    clear IH. induction Hu as [|? ? <- _ IH]; [done|]. simpl. by rewrite IH. }
  rewrite clean_fold_names by by apply Forall_rev. by rewrite rev_involutive.
Qed.

Lemma clean_elements_slash root l :
  clean_elements root (rev l) -> Forall (fun e => str_contains e "/" = false) l.
Proof.
  intros (names & ups & Heq & Hn & Hu & _). rewrite <- (rev_involutive l), Heq.
  apply Forall_rev, Forall_app. split.
  - eapply Forall_impl; [exact Hn|]. by intros e [(_ & _ & ?) _].
  - eapply Forall_impl; [exact Hu|]. by intros e <-.
Qed.

Lemma clean_elements_head root e l : clean_elements root (rev (e :: l)) -> e <> "" /\ e <> ".".
Proof.
  intros (names & ups & Heq & Hn & Hu & _).
  assert (e ∈ names ++ ups) as [H|H]%elem_of_app.
  { rewrite <- Heq. simpl. apply elem_of_app. right. left. }
  - rewrite Forall_forall in Hn. by apply Hn in H as [(? & ? & _) _].
  - rewrite Forall_forall in Hu. by apply Hu in H as <-.
Qed.

Lemma rooted_show root l : clean_elements root (rev l) -> rooted (show_path root l) = root.
Proof.
  intros Hl. unfold show_path, rooted. destruct root; [done|].
  destruct l as [|e l]; [done|]. pose proof (clean_elements_slash _ _ Hl) as [He _]%Forall_cons.
  destruct (clean_elements_head _ _ _ Hl) as [Hne _].
  destruct e as [|c e]; [done|]. rewrite contains_slash_cons, orb_false_iff in He. destruct He as [Hc _].
  destruct l; (etrans; [apply rooted_cons|done]).
Qed.

Lemma path_elements_show root l : clean_elements root (rev l) -> path_elements (show_path root l) = l.
Proof.
  intros Hl. pose proof (rooted_show root l Hl) as Hr. unfold path_elements. rewrite Hr.
  pose proof (clean_elements_slash _ _ Hl) as Hs. unfold show_path.
  assert (Hfold : foldl (clean_step root) [] l = rev l) by (rewrite <- (rev_involutive l) at 1; by apply clean_fold_again).
  destruct root.
  - change ("/" +:+ str_join "/" l) with ("" +:+ "/" +:+ str_join "/" l). rewrite split_slash_app.
    destruct l as [|e l]; [done|]. rewrite split_slash_join by done.
    rewrite foldl_app. change (foldl (clean_step true) [] (split_slash "")) with (@nil string).
    by rewrite Hfold, rev_involutive.
  - destruct l as [|e l]; [done|]. by rewrite split_slash_join, Hfold, rev_involutive.
Qed.

Lemma path_elements_Clean p : path_elements (Clean p) = path_elements p.
Proof. apply path_elements_show, path_elements_ok. Qed.

Lemma rooted_Clean p : rooted (Clean p) = rooted p.
Proof. apply rooted_show, path_elements_ok. Qed.

Lemma Clean_idempotent p : Clean (Clean p) = Clean p.
Proof. unfold Clean at 1. by rewrite path_elements_Clean, rooted_Clean. Qed.

(** A cleaned path is its elements. *)
Lemma Clean_inj p q : rooted p = rooted q -> path_elements p = path_elements q -> Clean p = Clean q.
Proof. unfold Clean. by intros -> ->. Qed.

(** Joining names below a directory appends them. *)
Lemma JoinPath_names a l :
  a <> "" -> l <> [] -> Forall (fun e => plain e /\ e <> "..") l ->
  rooted (JoinPath a (str_join "/" l)) = rooted a /\
  path_elements (JoinPath a (str_join "/" l)) = path_elements a ++ l.
Proof.
  intros Ha Hne Hl. unfold JoinPath. rewrite (proj2 (String.eqb_neq _ _) Ha).
  rewrite rooted_Clean, path_elements_Clean.
  assert (Hr : rooted (a +:+ "/" +:+ str_join "/" l) = rooted a) by (by destruct a).
  split; [done|]. unfold path_elements. rewrite Hr, split_slash_app, foldl_app.
  rewrite split_slash_join; [|done|].
  - rewrite clean_fold_names by done. by rewrite rev_app_distr, rev_involutive.
  - eapply Forall_impl; [exact Hl|]. by intros e [(_ & _ & ?) _].
Qed.
