(* ===== verification/Paths.v ===== *)
(** Translation of an agent's paths into the server's:
    src/internal/server/agentregistry/paths.go.

    Paths are byte strings, compared rune by rune where the code folds case
    ([Runes]); the server is a Unix
    machine, so filepath is [GoPath] and FromSlash changes nothing. [Result]
    rewrites a scan result in place: it is a function to the rewritten result
    and the error, the result as it is left when the error occurs. *)
From S2P Require Import Prelude Runes GoPath.
From stdpp Require Import strings list.
From Stdlib Require Import Ascii ZArith Lia.
#[local] Open Scope nat_scope.
#[local] Open Scope go_scope.

Record PathTranslator : Type := {
  agentRoot : string;
  serverRoot : string;
  agentIsWindows : bool;
}.

Definition backslash : string := String backslash_char "".

Definition is_letter (c : ascii) : bool :=
  let n := nat_of_ascii (lower_ascii c) in (97 <=? n)%nat && (n <=? 122)%nat.

(** The match of [windowsRoot]: a drive letter and a colon, or two backslashes. *)
Definition windowsRoot (p : string) : bool :=
  match p with
  | String c (String d _) =>
      (is_letter c && Ascii.eqb d ":"%char) ||
      (Ascii.eqb c backslash_char && Ascii.eqb d backslash_char)
  | _ => false
  end.

(** [strings.ReplaceAll(p, `\`, "/")]. *)
Definition slashes (p : string) : string :=
  str_map (fun c => if Ascii.eqb c backslash_char then slash else c) p.

Definition normalizeAgentPath (p : string) : string := trim_suffix (Clean (slashes p)) "/".

Definition NewPathTranslator (agentRoot serverRoot : string) : PathTranslator :=
  {| agentRoot := normalizeAgentPath agentRoot;
     serverRoot := Clean serverRoot;
     agentIsWindows := windowsRoot agentRoot || str_contains agentRoot backslash |}.

(** [PathTranslator.equal]. *)
Definition pathEqual (t : PathTranslator) (a b : string) : bool :=
  if agentIsWindows t then EqualFold a b else String.eqb a b.

(** [PathTranslator.hasPrefix]. *)
Definition pathHasPrefix (t : PathTranslator) (value prefix : string) : bool :=
  if (String.length value <? String.length prefix)%nat then false
  else pathEqual t (str_take (String.length prefix) value) prefix.

(** [PathTranslator.Path]. *)
Definition Path (t : PathTranslator) (agentPath : string) : result string :=
  let cleaned := normalizeAgentPath agentPath in
  if pathEqual t cleaned (agentRoot t) then Ok (serverRoot t)
  else
    let prefix := agentRoot t +:+ "/" in
    if negb (pathHasPrefix t cleaned prefix) then
      Err ("path " +:+ quote agentPath +:+ " is not under the agent's library root " +:+ quote (agentRoot t))
    else Ok (JoinPath (serverRoot t) (str_drop (String.length prefix) cleaned)).

(** [PathTranslator.rewrite], on the string the pointer names. *)
Definition rewrite (t : PathTranslator) (path : string) : string * result unit :=
  match Path t path with
  | Ok translated => (translated, Ok tt)
  | Err e => (path, Err e)
  end.

(** [PathTranslator.rewriteIfSet]. *)
Definition rewriteIfSet (t : PathTranslator) (path : string) : string * result unit :=
  if String.eqb path "" then (path, Ok tt) else rewrite t path.

(** The fields of a scan result that hold absolute paths; the others, of types
    [D] and [F], only travel. *)
Record Directory (D : Type) : Type := {
  dirPath : string;
  dirScanRootPath : string;
  dirOther : D;
}.
Arguments dirPath {D} _.
Arguments dirScanRootPath {D} _.
Arguments dirOther {D} _.

Record MediaFile (F : Type) : Type := {
  filePath : string;
  fileDirectoryPath : string;
  fileScanRootPath : string;
  fileOther : F;
}.
Arguments filePath {F} _.
Arguments fileDirectoryPath {F} _.
Arguments fileScanRootPath {F} _.
Arguments fileOther {F} _.

Record ScanResult (D F : Type) : Type := {
  srDirectory : option (Directory D);
  srMediaFiles : list (MediaFile F);
}.
Arguments srDirectory {D F} _.
Arguments srMediaFiles {D F} _.

Section result.
Context {D F : Type}.
Context (t : PathTranslator).

(** The two assignments to a directory, in order. *)
Definition rewriteDirectory (d : Directory D) : Directory D * result unit :=
let '(path, e) := rewrite t (dirPath d) in
let d1 := {| dirPath := path; dirScanRootPath := dirScanRootPath d; dirOther := dirOther d |} in
match e with
| Err _ => (d1, e)
| Ok _ =>
    let '(root, e') := rewriteIfSet t (dirScanRootPath d) in
    ({| dirPath := path; dirScanRootPath := root; dirOther := dirOther d |}, e')
end.

(** The three assignments to a media file, in order. *)
Definition rewriteFile (f : MediaFile F) : MediaFile F * result unit :=
let '(path, e) := rewrite t (filePath f) in
let f1 := {| filePath := path; fileDirectoryPath := fileDirectoryPath f;
             fileScanRootPath := fileScanRootPath f; fileOther := fileOther f |} in
match e with
| Err _ => (f1, e)
| Ok _ =>
    let '(directory, e') := rewriteIfSet t (fileDirectoryPath f) in
    let f2 := {| filePath := path; fileDirectoryPath := directory;
                 fileScanRootPath := fileScanRootPath f; fileOther := fileOther f |} in
    match e' with
    | Err _ => (f2, e')
    | Ok _ =>
        let '(root, e'') := rewriteIfSet t (fileScanRootPath f) in
        ({| filePath := path; fileDirectoryPath := directory;
            fileScanRootPath := root; fileOther := fileOther f |}, e'')
    end
end.

(** The loop over the media files, which stops at the first error. *)
Fixpoint rewriteFiles (l : list (MediaFile F)) : list (MediaFile F) * result unit :=
match l with
| [] => ([], Ok tt)
| f :: rest =>
    let '(f', e) := rewriteFile f in
    match e with
    | Err _ => (f' :: rest, e)
    | Ok _ => let '(rest', e') := rewriteFiles rest in (f' :: rest', e')
    end
end.

(** [PathTranslator.Result]. *)
Definition Result (r : option (ScanResult D F)) : option (ScanResult D F) * result unit :=
match r with
| None => (None, Ok tt)
| Some r =>
    let '(directory, e) :=
      match srDirectory r with
      | None => (None, Ok tt)
      | Some d => let '(d', e) := rewriteDirectory d in (Some d', e)
      end in
    match e with
    | Err _ => (Some {| srDirectory := directory; srMediaFiles := srMediaFiles r |}, e)
    | Ok _ =>
        let '(files, e') := rewriteFiles (srMediaFiles r) in
        (Some {| srDirectory := directory; srMediaFiles := files |}, e')
    end
end.
End result.

Example Path_examples :
  Path (NewPathTranslator "D:\Media\" "/srv/media") "d:\media\Movies\x.mkv" = Ok "/srv/media/Movies/x.mkv" /\
  Path (NewPathTranslator "/media/tv" "/srv") "/media/tv/../tv/a" = Ok "/srv/a" /\
  is_ok (Path (NewPathTranslator "/media/tv" "/srv") "/media/tv2/a") = false /\
  Path (NewPathTranslator "D:\Séries" "/srv") "d:\SÉRIES\x" = Ok "/srv/x" /\
  (** The Kelvin sign folds to k, but is longer. *)
  Path (NewPathTranslator "D:\K" "/srv") "D:\K" = Ok "/srv" /\
  is_ok (Path (NewPathTranslator "D:\K" "/srv") "D:\K\x") = false.
Proof. split_and!; reflexivity. Qed.

(** * What a translation is *)

#[local] Arguments String.append !_ _ : simpl nomatch.

(** What the comparison sees of a string. *)
Definition folded (t : PathTranslator) (s : string) : list Z :=
  if agentIsWindows t then folded_runes s else map byte_at (String.list_ascii_of_string s).

Lemma bytes_inj a b : map byte_at (String.list_ascii_of_string a) = map byte_at (String.list_ascii_of_string b) -> a = b.
Proof.
  revert b. induction a as [|x a IH]; intros [|y b]; cbn; try done. intros [= Hx Hl]. f_equal; [|by apply IH].
  unfold byte_at in Hx. rewrite <- (ascii_nat_embedding x), <- (ascii_nat_embedding y). f_equal. lia.
Qed.

Lemma pathEqual_spec t a b : pathEqual t a b = true <-> folded t a = folded t b.
Proof.
  unfold pathEqual, folded. destruct (agentIsWindows t); [apply EqualFold_spec|]. rewrite String.eqb_eq. split; [by intros ->|apply bytes_inj].
Qed.

(** A Unix agent's paths are compared as they are. *)
Lemma folded_unix t a b : agentIsWindows t = false -> folded t a = folded t b -> a = b.
Proof. unfold folded. intros ->. apply bytes_inj. Qed.

Lemma folded_unix_all t X R : agentIsWindows t = false -> map (folded t) X = map (folded t) R -> X = R.
Proof.
  intros Hw. revert R. induction X as [|x X IH]; intros [|r R]; try done. cbn. intros [= Hx HX]. f_equal; [by eapply folded_unix|by apply IH].
Qed.

Lemma list_ascii_app a b : String.list_ascii_of_string (a +:+ b) = String.list_ascii_of_string a ++ String.list_ascii_of_string b.
Proof. induction a as [|c a IH]; [done|]. cbn. by f_equal. Qed.

(** The rune a slash is, and only a slash. *)
Notation slash_rune := 47%Z.

Lemma folded_cut t a b : folded t (a +:+ "/" +:+ b) = folded t a ++ slash_rune :: folded t b.
Proof.
  unfold folded. destruct (agentIsWindows t).
  - change ("/" +:+ b) with (String slash b). by rewrite folded_runes_cut.
  - by rewrite !list_ascii_app, map_app.
Qed.

Lemma folded_nil t s : folded t s = [] <-> s = "".
Proof. unfold folded. destruct (agentIsWindows t); [apply folded_runes_nil|]. destruct s; by split. Qed.

Lemma folded_low t s p : Forall (fun c => (byte_at c < 65)%Z) (String.list_ascii_of_string p) -> folded t s = folded t p -> s = p.
Proof. intros Hp. unfold folded. destruct (agentIsWindows t); [by apply folded_runes_low|apply bytes_inj]. Qed.

Lemma slash_byte c : byte_at c = slash_rune -> c = slash.
Proof. unfold byte_at. intros Hc. rewrite <- (ascii_nat_embedding c). replace (nat_of_ascii c) with 47%nat by lia. done. Qed.

Lemma concat_cons x l : String.concat "" (x :: l) = x +:+ String.concat "" l.
Proof. destruct l as [|y l]; [|done]. cbn. by rewrite str_app_nil_r. Qed.

Lemma concat_snoc l x : String.concat "" (l ++ [x]) = String.concat "" l +:+ x.
Proof. induction l as [|y l IH]; [done|]. cbn [app]. by rewrite !concat_cons, IH, str_app_assoc. Qed.

Lemma concat_contains l : "/" ∈ l -> str_contains (String.concat "" l) "/" = true.
Proof.
  induction l as [|x l IH]; [by intros ?%elem_of_nil|]. rewrite concat_cons, contains_slash_app.
  intros [<-|Hl]%elem_of_cons; [done|]. by rewrite IH, orb_true_r.
Qed.

(** A comparison that ends in a slash is of a string that does. *)
Lemma folded_slash_end t v l : folded t v = l ++ [slash_rune] -> exists x, v = x +:+ "/".
Proof.
  unfold folded. destruct (agentIsWindows t).
  - unfold folded_runes, runes. rewrite map_map. intros Hf. pose proof (decode_runes_bytes v) as Hb. pose proof (runes_wide v) as Hw.
    destruct (decode_runes v) as [|e d _] using rev_ind; [by destruct l|]. rewrite map_app in Hf. apply app_inj_tail in Hf as [_ He].
    assert (e.1 = slash_rune) as Hr by (rewrite <- He; symmetry; apply fold_rune_low; right; lia).
    destruct e as [r bs]. cbn in Hr. subst r. destruct (Hw slash_rune bs) as (c & -> & Hc%slash_byte); [rewrite elem_of_app; right; by left|done|]. subst c.
    exists (String.concat "" (map snd d)). rewrite <- Hb, map_app. apply concat_snoc.
  - intros Hf. rewrite <- (String.string_of_list_ascii_of_string v).
    destruct (String.list_ascii_of_string v) as [|c d _] using rev_ind; [by destruct l|]. rewrite map_app in Hf. apply app_inj_tail in Hf as [_ Hc%slash_byte].
    subst c. exists (String.string_of_list_ascii d). clear. induction d as [|x d IH]; [done|]. cbn. by f_equal.
Qed.

Lemma folded_no_slash t s : str_contains s "/" = false -> slash_rune ∉ folded t s.
Proof.
  intros Hs Hin. enough (str_contains s "/" = true) by congruence. revert Hin. clear Hs. unfold folded. destruct (agentIsWindows t).
  - unfold folded_runes, runes. rewrite map_map. intros (e & He & Hin)%list_elem_of_fmap.
    assert (e.1 = slash_rune) as Hr by (rewrite He; symmetry; apply fold_rune_low; right; lia).
    destruct e as [r bs]. cbn in Hr. subst r. destruct (runes_wide s slash_rune bs Hin) as (c & -> & ->%slash_byte); [done|].
    rewrite <- (decode_runes_bytes s). apply concat_contains. apply list_elem_of_fmap.
    exists (slash_rune, String slash ""). split; [done|exact Hin].
  - intros (c & Hc & Hin)%list_elem_of_fmap. symmetry in Hc. apply slash_byte in Hc as ->.
    induction s as [|x s IH]; [by apply elem_of_nil in Hin|]. rewrite contains_slash_cons.
    apply elem_of_cons in Hin as [<-|Hin]; [by rewrite Ascii.eqb_refl|]. by rewrite IH, orb_true_r.
Qed.

(** Two lists cut at their first slash. *)
Lemma cut_inj (x y r r' : list Z) : slash_rune ∉ x -> slash_rune ∉ y -> x ++ slash_rune :: r = y ++ slash_rune :: r' -> x = y /\ r = r'.
Proof.
  revert y. induction x as [|c x IH]; intros [|d y]; cbn; rewrite ?not_elem_of_cons.
  - by intros _ _ [= ->].
  - intros _ [Hd _] Heq. by destruct Hd; injection Heq.
  - intros [Hc _] _ Heq. by destruct Hc; injection Heq.
  - intros [_ Hx] [_ Hy] Heq. injection Heq as -> Heq. by destruct (IH y Hx Hy Heq) as [-> ->].
Qed.

Definition slashless (l : list string) : Prop := Forall (fun e => str_contains e "/" = false) l.

Lemma folded_join t la lb : la <> [] -> lb <> [] -> slashless la -> slashless lb ->
  folded t (str_join "/" la) = folded t (str_join "/" lb) <-> map (folded t) la = map (folded t) lb.
Proof.
  revert lb. induction la as [|x la IH]; intros lb Hla Hlb Ha Hb; [done|]. destruct lb as [|y lb]; [done|].
  apply Forall_cons in Ha as [Hx Ha], Hb as [Hy Hb]. apply (folded_no_slash t) in Hx, Hy. clear Hla Hlb.
  assert (forall u z l, str_join "/" (u :: z :: l) = u +:+ "/" +:+ str_join "/" (z :: l)) as Hj by done.
  destruct la as [|x' la], lb as [|y' lb]; rewrite ?Hj, ?folded_cut; cbn [map].
  - change (str_join "/" [x]) with x. change (str_join "/" [y]) with y. split; [by intros ->|by intros [= ->]].
  - change (str_join "/" [x]) with x. split; [|done]. intros Heq. rewrite Heq in Hx. destruct Hx. rewrite elem_of_app. right. by left.
  - change (str_join "/" [y]) with y. split; [|done]. intros Heq. rewrite <- Heq in Hy. destruct Hy. rewrite elem_of_app. right. by left.
  - specialize (IH (y' :: lb) ltac:(done) ltac:(done) Ha Hb). cbn [map] in IH. split.
    + intros [-> H2]%cut_inj; [|done..]. apply IH in H2. by rewrite H2.
    + intros [= -> H2 H3]. f_equal. f_equal. apply IH. by rewrite H2, H3.
Qed.

Lemma join_split s : str_join "/" (split_slash s) = s.
Proof.
  induction s as [|c s IH]; [done|]. simpl. destruct (Ascii.eqb_spec c slash) as [->|Hc].
  - destruct (split_slash s) eqn:E; [by apply split_slash_nonempty in E|].
    change (str_join "/" ("" :: s0 :: l)) with (String slash (str_join "/" (s0 :: l))). by rewrite IH.
  - destruct (split_slash s) as [|f l] eqn:E; [by apply split_slash_nonempty in E|].
    destruct l as [|g l]; [by simpl in *; rewrite IH|].
    change (str_join "/" (String c f :: g :: l)) with (String c (str_join "/" (f :: g :: l))). by rewrite IH.
Qed.

(** The elements a comparison goes through: a rooted path begins with an empty
    one, and the empty relative path is a dot. *)
Definition compared (root : bool) (elements : list string) : list string :=
  if root then "" :: elements else match elements with [] => ["."] | _ => elements end.

Lemma compared_show root l :
  clean_elements root (rev l) -> split_slash (trim_suffix (show_path root l) "/") = compared root l.
Proof.
  intros Hl. pose proof (clean_elements_slash _ _ Hl) as Hs.
  destruct l as [|e l]; [by destruct root|].
  assert (Hsplit : split_slash (show_path root (e :: l)) = compared root (e :: l)).
  { unfold show_path, compared. destruct root; [|by apply split_slash_join].
    change ("/" +:+ str_join "/" (e :: l)) with ("" +:+ "/" +:+ str_join "/" (e :: l)).
    by rewrite split_slash_app, split_slash_join. }
  unfold trim_suffix. destruct (has_suffix "/" (show_path root (e :: l))) eqn:Hsuf; [|done].
  exfalso. apply has_suffix_spec in Hsuf as [r Hr]. rewrite Hr in Hsplit.
  change (r +:+ "/") with (r +:+ "/" +:+ "") in Hsplit. rewrite split_slash_app in Hsplit.
  assert (Hlast : "" ∈ e :: l).
  { assert (last (split_slash r ++ split_slash "") = Some "") as Hlast by apply last_snoc.
    rewrite Hsplit in Hlast. unfold compared in Hlast.
    destruct root; [rewrite last_cons_cons in Hlast|]; by apply last_Some_elem_of in Hlast. }
  destruct Hl as (names & ups & Heq & Hn & Hu & _).
  assert ("" ∈ names ++ ups) as [H|H]%elem_of_app.
  { rewrite <- Heq, list_elem_of_In, <- in_rev, <- list_elem_of_In. done. }
  - rewrite Forall_forall in Hn. by apply Hn in H as [[? _] _].
  - rewrite Forall_forall in Hu. by apply Hu in H.
Qed.

Lemma normalize_split p :
  split_slash (normalizeAgentPath p) = compared (rooted (slashes p)) (path_elements (slashes p)).
Proof. apply compared_show, path_elements_ok. Qed.

Lemma folded_elements t a b :
  folded t a = folded t b <-> map (folded t) (split_slash a) = map (folded t) (split_slash b).
Proof.
  rewrite <- (join_split a) at 1. rewrite <- (join_split b) at 1.
  apply folded_join; [apply split_slash_nonempty..|apply split_slash_Forall|apply split_slash_Forall].
Qed.

Lemma pathHasPrefix_spec t value root :
  pathHasPrefix t value (root +:+ "/") = true <->
  exists x rel, value = x +:+ "/" +:+ rel /\ folded t x = folded t root /\ String.length x = String.length root.
Proof.
  unfold pathHasPrefix. set (n := String.length (root +:+ "/")).
  assert (n = (String.length root + 1)%nat) as Hn by (unfold n; by rewrite str_length_app).
  assert (forall x, folded t (x +:+ "/") = folded t x ++ [slash_rune]) as Hcut.
  { intros x. change (x +:+ "/") with (x +:+ "/" +:+ ""). rewrite folded_cut. do 2 f_equal. by apply folded_nil. }
  split.
  - destruct (Nat.ltb_spec (String.length value) n) as [|Hle]; [done|]. rewrite pathEqual_spec, Hcut. intros Heq.
    assert (Hlen : String.length (str_take n value) = n) by (rewrite str_length_take; lia).
    destruct (folded_slash_end _ _ _ Heq) as [x Hx]. rewrite Hx in Heq, Hlen. rewrite Hcut in Heq. apply app_inj_tail in Heq as [Heq _].
    rewrite str_length_app in Hlen. cbn in Hlen. exists x, (str_drop n value). split_and!; [|done|lia].
    by rewrite <- (str_take_drop n value) at 1; rewrite Hx, str_app_assoc.
  - intros (x & rel & -> & Hx & Hl).
    assert (String.length (x +:+ "/") = n) as Hxn by (rewrite str_length_app, Hl; cbn; lia).
    rewrite <- str_app_assoc, <- Hxn, str_take_app.
    destruct (Nat.ltb_spec (String.length ((x +:+ "/") +:+ rel)) (String.length (x +:+ "/"))) as [Hlt|_].
    + rewrite str_length_app in Hlt. lia.
    + apply pathEqual_spec. by rewrite !Hcut, Hx.
Qed.

(** Elements after a name are names. *)
Lemma names_after root X rest :
  clean_elements root (rev (X ++ rest)) -> root = true \/ Exists (fun e => e <> "..") X ->
  Forall (fun e => plain e /\ e <> "..") rest.
Proof.
  intros (names & ups & Heq & Hn & Hu & Hr) Hroot. rewrite rev_app_distr in Heq.
  apply app_eq_app in Heq as (k & [[H1 H2]|[H1 H2]]).
  - assert (k = []) as ->.
    { destruct Hroot as [Ht|Hex].
      - specialize (Hr Ht). destruct k; [done|]. subst ups. done.
      - exfalso. rewrite H2 in Hu. apply Forall_app in Hu as [_ Hu].
        apply Exists_exists in Hex as (e & He & Hne). rewrite Forall_forall in Hu. apply Hne.
        symmetry. apply Hu. by rewrite list_elem_of_In, <- in_rev, <- list_elem_of_In. }
    rewrite app_nil_r in H1. rewrite <- (rev_involutive rest), H1. by apply Forall_rev.
  - rewrite H1 in Hn. apply Forall_app in Hn as [Hn _]. rewrite <- (rev_involutive rest).
    by apply Forall_rev.
Qed.

(** An agent root that names a directory: not a bare dot or dot-dot path. *)
Definition proper_root (root : string) : Prop :=
  rooted (slashes root) = true \/ Exists (fun e => e <> "..") (path_elements (slashes root)).

Definition bytes (l : list string) : nat := list_sum (map String.length l).

(** [Path t p] lies [rest] below the agent root: its first elements are the
    root's as they are compared and, when there are more, of as many bytes,
    since the code cuts the path at the length of the root. *)
Definition below_root (t : PathTranslator) (root p : string) (rest : list string) : Prop :=
  rooted (slashes p) = rooted (slashes root) /\
  exists X, path_elements (slashes p) = X ++ rest /\
    map (folded t) X = map (folded t) (path_elements (slashes root)) /\
    (rest = [] \/ bytes X = bytes (path_elements (slashes root))).

Lemma length_join l : l <> [] -> (String.length (str_join "/" l) + 1 = bytes l + length l)%nat.
Proof.
  unfold bytes. induction l as [|x l IH]; [done|]. intros _. destruct l as [|y l]; [cbn; lia|].
  change (str_join "/" (x :: y :: l)) with (x +:+ "/" +:+ str_join "/" (y :: l)). rewrite !str_length_app.
  specialize (IH ltac:(done)). cbn [map list_sum length] in *. change (String.length "/") with 1%nat. cbn [list_sum foldr] in *. lia.
Qed.

Lemma folded_dots t s : folded t s = folded t ".." <-> s = "..".
Proof. split; [|by intros ->]. apply folded_low. repeat constructor. Qed.

Lemma folded_Exists t X R :
  map (folded t) X = map (folded t) R -> Exists (fun e => e <> "..") R -> Exists (fun e => e <> "..") X.
Proof.
  revert R. induction X as [|x X IH]; intros [|r R]; try done.
  simpl. intros [= Hx HX] [H|H]%Exists_cons.
  - left. intros ->. apply H. by apply (folded_dots t).
  - right. by eapply IH.
Qed.

(** The elements of a comparison, and the bytes before the rest. *)
Definition comparison_below (t : PathTranslator) (root p : string) (rest : list string) (X : list string) : Prop :=
  compared (rooted (slashes p)) (path_elements (slashes p)) = X ++ rest /\
  map (folded t) X = map (folded t) (compared (rooted (slashes root)) (path_elements (slashes root))) /\
  (rest = [] \/ bytes X = bytes (compared (rooted (slashes root)) (path_elements (slashes root)))).

Lemma compared_below t root p rest :
  proper_root root -> (exists X, comparison_below t root p rest X) <-> below_root t root p rest.
Proof.
  unfold proper_root, below_root, comparison_below. intros Hproper.
  set (r := rooted (slashes root)) in *. set (R := path_elements (slashes root)) in *.
  pose proof (path_elements_ok (slashes root)) as HR. fold r R in HR.
  pose proof (path_elements_ok (slashes p)) as HP.
  set (q := rooted (slashes p)) in *. set (P := path_elements (slashes p)) in *.
  assert (Hempty : forall s, folded t s = folded t "" -> s = "").
  { intros s Hs. apply (folded_nil t). rewrite Hs. by apply folded_nil. }
  clearbody r R q P. destruct r; unfold compared.
  - split.
    + intros (X & HX & Hf & Hb). destruct X as [|x X]; [done|]. simpl in Hf. injection Hf as Hx%Hempty Hf. subst x.
      destruct q; [injection HX as HX; eauto|]. exfalso.
      destruct P as [|e P']; [done|]. injection HX as -> _.
      by destruct (clean_elements_head _ _ _ HP).
    + intros (-> & X & HX & Hf & Hb). exists ("" :: X). simpl. by rewrite HX, Hf.
  - destruct Hproper as [Hc|Hex]; [done|].
    destruct R as [|r0 R']; [by inversion Hex|].
    destruct (clean_elements_head _ _ _ HR) as [H1 H2]. split.
    + intros (X & HX & Hf & Hb). destruct X as [|x X]; [done|]. simpl in Hf.
      pose proof Hf as Hf'. injection Hf' as Hx _.
      destruct q.
      * injection HX as <- _. exfalso. apply H1, Hempty. by rewrite <- Hx.
      * destruct P as [|e P']; [|eauto].
        injection HX as <- _. exfalso. apply H2. apply (folded_low t); [|by rewrite <- Hx]. repeat constructor.
    + intros (-> & X & HX & Hf & Hb). exists X. split; [|done]. rewrite <- HX.
      destruct P; [|done]. destruct X; [by simpl in Hf|done].
Qed.

Lemma below_root_names t root p rest :
  proper_root root -> below_root t root p rest -> Forall (fun e => plain e /\ e <> "..") rest.
Proof.
  intros Hproper (Hr & X & HX & Hf & _). eapply (names_after (rooted (slashes p)) X).
  - rewrite <- HX. apply path_elements_ok.
  - destruct Hproper as [Hp|Hp]; [left; congruence|right; by eapply folded_Exists].
Qed.

(** A path lies below the root in one way. *)
Lemma below_root_unique t root p rest rest' : below_root t root p rest -> below_root t root p rest' -> rest = rest'.
Proof.
  intros (_ & X & HX & Hf & _) (_ & X' & HX' & Hf' & _). rewrite HX in HX'. apply app_inj_1 in HX' as [_ ->]; [done|].
  apply (f_equal length) in Hf, Hf'. rewrite !length_map in Hf, Hf'. lia.
Qed.

Lemma join_app X e rest : X <> [] -> str_join "/" (X ++ e :: rest) = str_join "/" X +:+ "/" +:+ str_join "/" (e :: rest).
Proof.
  induction X as [|y X IH]; [done|]. intros _. destruct X as [|z X]; [done|].
  change (str_join "/" ((y :: z :: X) ++ e :: rest)) with (y +:+ "/" +:+ str_join "/" ((z :: X) ++ e :: rest)).
  rewrite IH by done. change (str_join "/" (y :: z :: X)) with (y +:+ "/" +:+ str_join "/" (z :: X)).
  by rewrite !str_app_assoc.
Qed.

Lemma pathEqual_below t root p : proper_root root ->
  pathEqual t (normalizeAgentPath p) (normalizeAgentPath root) = true <-> below_root t root p [].
Proof.
  intros Hproper. rewrite pathEqual_spec, folded_elements, !normalize_split, <- compared_below by done. unfold comparison_below. split.
  - intros Hf. eexists. rewrite app_nil_r. split; [done|]. by split; [|left].
  - intros (X & HX & Hf & _). rewrite app_nil_r in HX. by rewrite HX.
Qed.

Lemma compared_nonempty root l : compared root l <> [].
Proof. unfold compared. destruct root; [done|]. by destruct l. Qed.

Lemma hasPrefix_below t root p : proper_root root ->
  pathHasPrefix t (normalizeAgentPath p) (normalizeAgentPath root +:+ "/") = true <->
  exists e rest, below_root t root p (e :: rest) /\
    str_drop (String.length (normalizeAgentPath root +:+ "/")) (normalizeAgentPath p) = str_join "/" (e :: rest).
Proof.
  intros Hproper. rewrite pathHasPrefix_spec.
  assert (forall x rel, normalizeAgentPath p = x +:+ "/" +:+ rel -> String.length x = String.length (normalizeAgentPath root) ->
    str_drop (String.length (normalizeAgentPath root +:+ "/")) (normalizeAgentPath p) = rel) as Hdrop.
  { intros x rel -> Hl. replace (String.length (normalizeAgentPath root +:+ "/")) with (String.length (x +:+ "/")) by (rewrite !str_length_app; lia).
    by rewrite <- str_app_assoc, str_drop_app. }
  assert (forall x, split_slash x <> [] /\ str_join "/" (split_slash x) = x) as Hsp by (intros x; split; [apply split_slash_nonempty|apply join_split]).
  split.
  - intros (x & rel & Hval & Hx & Hl). destruct (split_slash rel) as [|e rest] eqn:Hrel; [by apply split_slash_nonempty in Hrel|].
    exists e, rest. rewrite <- Hrel, join_split. split; [|by eapply Hdrop]. rewrite Hrel. apply compared_below; [done|]. exists (split_slash x).
    assert (map (folded t) (split_slash x) = map (folded t) (compared (rooted (slashes root)) (path_elements (slashes root)))) as Hfx.
    { rewrite <- normalize_split. by apply folded_elements. }
    split_and!; [by rewrite <- normalize_split, Hval, split_slash_app, Hrel|done|right].
    pose proof (length_join (split_slash x) (split_slash_nonempty x)) as H1.
    pose proof (length_join (split_slash (normalizeAgentPath root)) (split_slash_nonempty _)) as H2. rewrite !join_split in H1, H2.
    rewrite normalize_split in H2. apply (f_equal length) in Hfx. rewrite !length_map in Hfx. lia.
  - intros (e & rest & Hb & Hrel). apply compared_below in Hb as (X & HX & Hf & [|Hbytes]); [done| |done].
    assert (HXne : X <> []) by (intros ->; symmetry in Hf; by apply map_eq_nil, compared_nonempty in Hf).
    assert (slashless X) as Hslash.
    { assert (slashless (X ++ e :: rest)) as Hall by (rewrite <- HX, <- normalize_split; apply split_slash_Forall).
      apply Forall_app in Hall as [? _]. done. }
    exists (str_join "/" X), (str_join "/" (e :: rest)). split_and!.
    + by rewrite <- join_app, <- HX, <- normalize_split, join_split.
    + apply folded_elements. by rewrite split_slash_join, normalize_split.
    + pose proof (length_join X HXne) as H1.
      pose proof (length_join (split_slash (normalizeAgentPath root)) (split_slash_nonempty _)) as H2. rewrite join_split in H2.
      rewrite normalize_split in H2. apply (f_equal length) in Hf. rewrite !length_map in Hf. lia.
Qed.

Lemma Path_below t root p q :
  agentRoot t = normalizeAgentPath root -> proper_root root -> serverRoot t = Clean (serverRoot t) ->
  Path t p = Ok q <->
  exists rest, below_root t root p rest /\
    q = show_path (rooted (serverRoot t)) (path_elements (serverRoot t) ++ rest).
Proof.
  intros Hroot Hproper Hserver. unfold Path. rewrite Hroot.
  assert (Hsne : serverRoot t <> "").
  { rewrite Hserver. unfold Clean, show_path. destruct (rooted _); [done|].
    destruct (path_elements (serverRoot t)) as [|e l] eqn:E; [done|].
    pose proof (path_elements_ok (serverRoot t)) as H. rewrite E in H.
    destruct (clean_elements_head _ _ _ H) as [Hne _]. destruct e; [done|]. by destruct l. }
  assert (Hself : show_path (rooted (serverRoot t)) (path_elements (serverRoot t)) = serverRoot t)
    by (rewrite Hserver at 3; done).
  destruct (pathEqual t _ _) eqn:Heq.
  - apply pathEqual_below in Heq; [|done]. split.
    + intros [= <-]. exists []. by rewrite app_nil_r.
    + intros (rest & Hb & ->). assert (rest = []) as -> by by eapply below_root_unique. by rewrite app_nil_r, Hself.
  - assert (Hne : ~ below_root t root p []) by (intros Hb%pathEqual_below; [congruence|done]).
    destruct (pathHasPrefix t _ _) eqn:Hpre; simpl.
    + apply hasPrefix_below in Hpre as (e & rest & Hb & Hdrop); [|done]. rewrite Hdrop.
      destruct (JoinPath_names (serverRoot t) (e :: rest)) as [Hj1 Hj2]; [done|done|by eapply below_root_names|].
      assert (Hq : JoinPath (serverRoot t) (str_join "/" (e :: rest)) =
        show_path (rooted (serverRoot t)) (path_elements (serverRoot t) ++ e :: rest)).
      { rewrite <- Hj1, <- Hj2. unfold JoinPath. rewrite (proj2 (String.eqb_neq _ _) Hsne).
        by rewrite <- (Clean_idempotent (serverRoot t +:+ "/" +:+ str_join "/" (e :: rest))) at 1. }
      split.
      * intros [= <-]. by exists (e :: rest).
      * intros (rest' & Hb' & ->). assert (rest' = e :: rest) as -> by by eapply below_root_unique. by rewrite Hq.
    + split; [done|]. intros (rest & Hb & _). exfalso. destruct rest as [|e rest]; [done|].
      assert (pathHasPrefix t (normalizeAgentPath p) (normalizeAgentPath root +:+ "/") = true); [|congruence].
      apply hasPrefix_below; [done|]. exists e, rest. split; [done|].
      apply compared_below in Hb as (X & HX & Hf & [|Hbytes]); [done| |done].
      assert (HXne : X <> []) by (intros ->; symmetry in Hf; by apply map_eq_nil, compared_nonempty in Hf).
      assert (normalizeAgentPath p = str_join "/" X +:+ "/" +:+ str_join "/" (e :: rest)) as ->
        by (by rewrite <- join_app, <- HX, <- normalize_split, join_split).
      assert (String.length (normalizeAgentPath root +:+ "/") = String.length (str_join "/" X +:+ "/")) as ->; [|by rewrite <- str_app_assoc, str_drop_app].
      pose proof (length_join X HXne) as H1.
      pose proof (length_join (split_slash (normalizeAgentPath root)) (split_slash_nonempty _)) as H2. rewrite join_split in H2.
      rewrite normalize_split in H2. apply (f_equal length) in Hf. rewrite !length_map in Hf. rewrite !str_length_app. lia.
Qed.

(** * Properties *)

Lemma New_server root server : serverRoot (NewPathTranslator root server) = Clean (serverRoot (NewPathTranslator root server)).
Proof. symmetry. apply Clean_idempotent. Qed.

Lemma show_path_inj root a b :
  clean_elements root (rev a) -> clean_elements root (rev b) -> show_path root a = show_path root b -> a = b.
Proof. intros Ha Hb H. rewrite <- (path_elements_show root a), H by done. by apply path_elements_show. Qed.

Lemma clean_elements_app root l names :
  clean_elements root (rev l) -> Forall (fun e => plain e /\ e <> "..") names ->
  clean_elements root (rev (l ++ names)).
Proof.
  intros (ns & ups & Heq & Hn & Hu & Hr) Hnames. exists (rev names ++ ns), ups.
  rewrite rev_app_distr, Heq, app_assoc. split_and!; [done| |done..].
  apply Forall_app. split; [by apply Forall_rev|done].
Qed.

Lemma slashes_plain p : str_contains p backslash = false -> slashes p = p.
Proof.
  unfold slashes, backslash. induction p as [|c p IH]; [done|].
  change (str_contains (String c p) (String backslash_char ""))
    with (has_prefix (String backslash_char "") (String c p) || str_contains p (String backslash_char "")).
  rewrite orb_false_iff. cbn [has_prefix str_map]. rewrite andb_true_r, Ascii.eqb_sym.
  intros [-> Hp]. by rewrite IH.
Qed.

(** C18: what a path translates to. For an agent root that names a directory
    (absolute, or with an element other than dot-dot), Path succeeds exactly on
    the paths whose cleaned elements begin with the root's, element by element
    and on Windows up to the simple case folding of Unicode, and the result is
    the server root with the remaining elements below it. When elements remain
    the folded ones must be as many bytes as the root's: the code cuts the path
    where the root ends. *)
Theorem Path_exact root server p q :
  proper_root root ->
  (Path (NewPathTranslator root server) p = Ok q <->
   exists rest, below_root (NewPathTranslator root server) root p rest /\
     q = show_path (rooted server) (path_elements server ++ rest)).
Proof.
  intros Hp. rewrite (Path_below _ root); [|done..|apply New_server].
  cbn [serverRoot NewPathTranslator]. by rewrite rooted_Clean, path_elements_Clean.
Qed.

(** no translated path leaves the library. Whatever an agent reports, dot
    segments included, a path that translates is the server root or names
    elements below it, none of them [..]. *)
Theorem Path_contained root server p q :
  proper_root root -> Path (NewPathTranslator root server) p = Ok q ->
  rooted q = rooted server /\ exists rest, Forall (fun e => plain e /\ e <> "..") rest /\
    path_elements q = path_elements server ++ rest.
Proof.
  intros Hp H. apply (Path_below _ root) in H as (rest & Hb & ->); [|done..|apply New_server].
  cbn [serverRoot NewPathTranslator]. rewrite rooted_Clean, path_elements_Clean.
  pose proof (below_root_names _ _ _ _ Hp Hb) as Hn.
  pose proof (clean_elements_app _ _ _ (path_elements_ok server) Hn) as Hc.
  split; [by apply rooted_show|]. exists rest. split; [done|]. by apply path_elements_show.
Qed.

(** On a Unix agent distinct files stay distinct: two paths without
    backslashes that translate to the same server path have the same cleaned
    form. *)
Theorem Path_injective root server p p' q :
  proper_root root -> agentIsWindows (NewPathTranslator root server) = false ->
  str_contains p backslash = false -> str_contains p' backslash = false ->
  Path (NewPathTranslator root server) p = Ok q -> Path (NewPathTranslator root server) p' = Ok q ->
  Clean p = Clean p'.
Proof.
  intros Hp Hw Hb Hb' H H'.
  apply (Path_below _ root) in H as (rest & Hr & ->); [|done..|apply New_server].
  apply (Path_below _ root) in H' as (rest' & Hr' & Hq); [|done..|apply New_server].
  pose proof (below_root_names _ _ _ _ Hp Hr) as Hn. pose proof (below_root_names _ _ _ _ Hp Hr') as Hn'.
  apply show_path_inj in Hq; [|by apply clean_elements_app; [apply path_elements_ok|]..].
  apply app_inv_head in Hq as ->. destruct Hr as (H1 & X & H2 & H3%folded_unix_all & _); [|done]. destruct Hr' as (H1' & X' & H2' & H3'%folded_unix_all & _); [|done].
  subst. rewrite !slashes_plain in * by done.
  apply Clean_inj; congruence.
Qed.

(** the backslash of a Unix file name is taken for a separator: two
    different files of a Unix agent translate to one server path. *)
Theorem unix_backslash_collision :
  agentIsWindows (NewPathTranslator "/m" "/srv") = false /\
  Path (NewPathTranslator "/m" "/srv") "/m/a\b" = Ok "/srv/a/b" /\
  Path (NewPathTranslator "/m" "/srv") "/m/a/b" = Ok "/srv/a/b" /\
  Clean "/m/a\b" <> Clean "/m/a/b".
Proof. split_and!; [reflexivity..|]. vm_compute. discriminate. Qed.

Lemma Path_exact_witness :
  exists rest, below_root (NewPathTranslator "D:\Media" "/srv") "D:\Media" "d:\media\x" rest /\
    "/srv/x" = show_path (rooted "/srv") (path_elements "/srv" ++ rest).
Proof.
  apply (Path_exact "D:\Media" "/srv" "d:\media\x" "/srv/x").
  - right. left. vm_compute. discriminate.
  - vm_compute. reflexivity.
Defined.

Lemma Path_contained_witness :
  rooted "/srv/x" = rooted "/srv" /\ exists rest, Forall (fun e => plain e /\ e <> "..") rest /\
    path_elements "/srv/x" = path_elements "/srv" ++ rest.
Proof.
  apply (Path_contained "/m" "/srv" "/m/../../m/./x" "/srv/x").
  - left. reflexivity.
  - vm_compute. reflexivity.
Defined.

Lemma Path_injective_witness : Clean "/m//a" = Clean "/m/b/../a".
Proof.
  apply (Path_injective "/m" "/srv" "/m//a" "/m/b/../a" "/srv/a"); try reflexivity.
  left. reflexivity.
Defined.

(** ** Whole results *)

Section results.
Context {D F : Type}.
Context (t : PathTranslator).

(** A field after translation: unchanged when it was absent. *)
Definition translated (old new : string) : Prop := Path t old = Ok new.
Definition translated_if_set (old new : string) : Prop :=
(old = "" /\ new = "") \/ (old <> "" /\ translated old new).

Definition directory_translated (d d' : Directory D) : Prop :=
translated (dirPath d) (dirPath d') /\
translated_if_set (dirScanRootPath d) (dirScanRootPath d') /\ dirOther d' = dirOther d.

Definition file_translated (f f' : MediaFile F) : Prop :=
translated (filePath f) (filePath f') /\
translated_if_set (fileDirectoryPath f) (fileDirectoryPath f') /\
translated_if_set (fileScanRootPath f) (fileScanRootPath f') /\ fileOther f' = fileOther f.

Lemma rewrite_Ok path path' : rewrite t path = (path', Ok tt) <-> translated path path'.
Proof. unfold rewrite, translated. destruct (Path t path); split; by intros [= <-]. Qed.

Lemma rewriteIfSet_Ok path path' : rewriteIfSet t path = (path', Ok tt) <-> translated_if_set path path'.
Proof.
unfold rewriteIfSet, translated_if_set. destruct (String.eqb_spec path "") as [->|Hne].
- split; [by intros [= <-]; left|]. by intros [[_ ->]|[? _]].
- rewrite rewrite_Ok. split; [by right|]. by intros [[? _]|[_ ?]].
Qed.

Lemma rewriteDirectory_Ok d d' : rewriteDirectory t d = (d', Ok tt) <-> directory_translated d d'.
Proof.
unfold rewriteDirectory, directory_translated.
rewrite <- rewrite_Ok, <- rewriteIfSet_Ok. destruct d' as [p r o]. simpl.
destruct (rewrite t (dirPath d)) as [p' [[]|e]]; [|naive_solver].
destruct (rewriteIfSet t (dirScanRootPath d)) as [r' e']. naive_solver.
Qed.

Lemma rewriteFile_Ok f f' : rewriteFile t f = (f', Ok tt) <-> file_translated f f'.
Proof.
unfold rewriteFile, file_translated.
rewrite <- rewrite_Ok, <- !rewriteIfSet_Ok. destruct f' as [p d r o]. simpl.
destruct (rewrite t (filePath f)) as [p' [[]|e]]; [|naive_solver].
destruct (rewriteIfSet t (fileDirectoryPath f)) as [d' [[]|e]]; [|naive_solver].
destruct (rewriteIfSet t (fileScanRootPath f)) as [r' e']. naive_solver.
Qed.

Lemma rewriteFiles_Ok l l' : rewriteFiles t l = (l', Ok tt) <-> Forall2 file_translated l l'.
Proof.
revert l'. induction l as [|f l IH]; intros l'; simpl.
- split; [by intros [= <-]|]. by intros ->%Forall2_nil_inv_l.
- destruct (rewriteFile t f) as [f' [[]|e]] eqn:Hf.
  + apply rewriteFile_Ok in Hf. destruct (rewriteFiles t l) as [rest e] eqn:Hl. split.
    * intros [= <- ->]. constructor; [done|]. by apply IH.
    * intros (f2 & l2 & H1 & H2 & ->)%Forall2_cons_inv_l.
      apply rewriteFile_Ok in H1, Hf. rewrite Hf in H1. injection H1 as ->.
      apply IH in H2. by injection H2 as -> ->.
  + split; [done|]. intros (f2 & l2 & H1 & H2 & ->)%Forall2_cons_inv_l.
    apply rewriteFile_Ok in H1. rewrite Hf in H1. done.
Qed.

Lemma Result_Ok (r r' : ScanResult D F) :
Result t (Some r) = (Some r', Ok tt) <->
match srDirectory r, srDirectory r' with
| None, None => True
| Some d, Some d' => directory_translated d d'
| _, _ => False
end /\ Forall2 file_translated (srMediaFiles r) (srMediaFiles r').
Proof.
destruct r as [d fs], r' as [d' fs']. simpl. destruct d as [d|].
- destruct (rewriteDirectory t d) as [d2 [[]|e]] eqn:Hd.
  + destruct (rewriteFiles t fs) as [fs2 e] eqn:Hfs. rewrite <- rewriteFiles_Ok, Hfs.
    destruct d' as [d'|]; [rewrite <- rewriteDirectory_Ok, Hd|]; naive_solver.
  + split; [done|]. destruct d' as [d'|]; [|naive_solver].
    rewrite <- rewriteDirectory_Ok, Hd. naive_solver.
- destruct (rewriteFiles t fs) as [fs2 e] eqn:Hfs. rewrite <- rewriteFiles_Ok, Hfs.
  destruct d' as [d'|]; naive_solver.
Qed.

(** a scan result is translated whole or rejected: Result reports no error
  exactly when the directory's two paths and every media file's three
  translate, and then those five fields hold the translations, absent ones
  stay absent, and nothing else has changed. *)
Theorem Result_translated (r r' : ScanResult D F) :
Result t (Some r) = (Some r', Ok tt) <->
match srDirectory r, srDirectory r' with
| None, None => True
| Some d, Some d' => directory_translated d d'
| _, _ => False
end /\ Forall2 file_translated (srMediaFiles r) (srMediaFiles r').
Proof. apply Result_Ok. Qed.
End results.
