(* ===== verification/DryRun.v ===== *)
(** The dry-run gate: src/internal/shared/workflow/dryrun.go, over the WorkFS,
    Command and Runner interfaces of handler.go.

    A filesystem is a type class of operations on a state. DryRunFS builds one
    on the wrapped filesystem's state paired with the log. A handler is a
    [program]: it holds no filesystem but the one it is given, and only the
    writers that filesystem returned to it. *)
From stdpp Require Import strings list gmap.
From Stdlib Require Import ZArith.
From S2P Require Import Prelude GoPath.

(** An object with a Write and a Close method, on a state [T]. *)
Record WriteCloser (T : Type) : Type := {
  wcWrite : string -> T -> result Z * T;
  wcClose : T -> result unit * T;
}.
Arguments wcWrite {T} _ _ _.
Arguments wcClose {T} _ _.

(** Command and CommandResult of handler.go. *)
Record Command : Type := {
  cmdPath : string;
  cmdArgs : list string;
  cmdDir : string;
  cmdMutates : bool;
}.

Record CommandResult : Type := {
  crExitCode : Z;
  crStdout : string;
  crStderr : string;
  crSimulated : bool;
}.

(** The values reading returns are opaque: an open file, file information,
    directory entries. *)
Class ReadTypes : Type := { ReadCloser : Type; FileInfo : Type; DirEntry : Type }.

(** The WorkFS interface. *)
Class WorkFS `{ReadTypes} (T : Type) : Type := {
  fsOpen : string -> T -> result ReadCloser * T;
  fsStat : string -> T -> result FileInfo * T;
  fsReadDir : string -> T -> result (list DirEntry) * T;
  fsMkdirAll : string -> T -> result unit * T;
  fsWriteFile : string -> string -> T -> result unit * T;
  fsCreate : string -> T -> result (WriteCloser T) * T;
  fsRename : string -> string -> T -> result unit * T;
  fsRemove : string -> T -> result unit * T;
  fsRemoveAll : string -> T -> result unit * T;
  fsTempFileIn : string -> T -> result (string * WriteCloser T) * T;
}.

(** The Runner interface. *)
Class Runner (T : Type) : Type := { runCommand : Command -> T -> result CommandResult * T }.

(** A line of the log: the message and its attributes. *)
Inductive Attr : Type :=
| AString (s : string)
| AInt (n : Z)
| ABool (b : bool)
| AStrings (l : list string).

Record LogEntry : Type := { leMessage : string; leAttrs : list (string * Attr) }.

(** The line [simulated] writes. *)
Definition effect (operation : string) (attributes : list (string * Attr)) : LogEntry :=
  {| leMessage := "filesystem effect simulated";
     leAttrs := [("operation", AString operation); ("dry_run", ABool true)] ++ attributes |}.

(** The line for a skipped command. *)
Definition commandEntry (command : Command) : LogEntry :=
  {| leMessage := "command simulated";
     leAttrs := [("command", AString (cmdPath command)); ("args", AStrings (cmdArgs command));
                 ("dir", AString (cmdDir command)); ("dry_run", ABool true)] |}.

Definition CommandSimulated : CommandResult :=
  {| crExitCode := 0; crStdout := ""; crStderr := ""; crSimulated := true |}.

Section dry_run.
Context `{ReadTypes} {T : Type}.

(** A state with the log next to it. *)
Definition logged : Type := T * list LogEntry.

(** [simulated]. *)
Definition simulated (operation : string) (attributes : list (string * Attr)) (s : logged) : logged :=
(s.1, s.2 ++ [effect operation attributes]).

(** Runs an operation of the wrapped object; the log is kept. *)
Definition passed {A} (op : T -> A * T) (s : logged) : A * logged :=
let '(a, t) := op s.1 in (a, (t, s.2)).

Definition discardWriteCloser : WriteCloser logged :=
{| wcWrite := fun p s => (Ok (Z.of_nat (String.length p)), s);
   wcClose := fun s => (Ok tt, s) |}.

(** The path a simulated temporary file would have. *)
Definition simulatedPath (destination : string) : string :=
JoinPath (Dir destination) ("." +:+ Base destination +:+ ".dryrun").

(** [DryRunFS]. *)
Definition DryRunFS {inner : WorkFS T} : WorkFS logged := {|
fsOpen name := passed (fsOpen name);
fsStat name := passed (fsStat name);
fsReadDir name := passed (fsReadDir name);
fsMkdirAll path s :=
  (Ok tt, simulated "mkdir_all" [("path", AString path)] s);
fsWriteFile name data s :=
  (Ok tt, simulated "write_file" [("path", AString name); ("bytes", AInt (Z.of_nat (String.length data)))] s);
fsCreate name s :=
  (Ok discardWriteCloser,
   simulated "create" [("path", AString name)] s);
fsRename oldPath newPath s :=
  (Ok tt, simulated "rename" [("from", AString oldPath); ("to", AString newPath)] s);
fsRemove name s :=
  (Ok tt, simulated "remove" [("path", AString name)] s);
fsRemoveAll path s :=
  (Ok tt, simulated "remove_all" [("path", AString path)] s);
fsTempFileIn destination s :=
  let path := simulatedPath destination in
  (Ok (path, discardWriteCloser),
   simulated "temp_file" [("path", AString path); ("destination", AString destination)] s);
|}.

#[export] Existing Instance DryRunFS.

(** [DryRunRunner]. *)
Definition DryRunRunner {inner : Runner T} : Runner logged := {|
runCommand command s :=
  if negb (cmdMutates command) then passed (runCommand command) s
  else
    (Ok CommandSimulated,
     (s.1, s.2 ++ [commandEntry command]))
|}.

#[export] Existing Instance DryRunRunner.
End dry_run.
Arguments logged T : clear implicits.

(** * Handlers *)

(** The calls of a handler, one after the other, each choosing the next from
    what the last returned. A writer is named by the order it was obtained in. *)
Inductive program `{ReadTypes} (A : Type) : Type :=
| Return (a : A)
| COpen (name : string) (k : result ReadCloser -> program A)
| CStat (name : string) (k : result FileInfo -> program A)
| CReadDir (name : string) (k : result (list DirEntry) -> program A)
| CMkdirAll (path : string) (k : result unit -> program A)
| CWriteFile (name data : string) (k : result unit -> program A)
| CCreate (name : string) (k : result unit -> program A)
| CRename (oldPath newPath : string) (k : result unit -> program A)
| CRemove (name : string) (k : result unit -> program A)
| CRemoveAll (path : string) (k : result unit -> program A)
| CTempFileIn (destination : string) (k : result string -> program A)
| CWrite (writer : nat) (data : string) (k : result Z -> program A)
| CClose (writer : nat) (k : result unit -> program A)
| CRun (command : Command) (k : result CommandResult -> program A).
Arguments Return {_ A} _.
Arguments COpen {_ A} _ _.
Arguments CStat {_ A} _ _.
Arguments CReadDir {_ A} _ _.
Arguments CMkdirAll {_ A} _ _.
Arguments CWriteFile {_ A} _ _ _.
Arguments CCreate {_ A} _ _.
Arguments CRename {_ A} _ _ _.
Arguments CRemove {_ A} _ _.
Arguments CRemoveAll {_ A} _ _.
Arguments CTempFileIn {_ A} _ _.
Arguments CWrite {_ A} _ _ _.
Arguments CClose {_ A} _ _.
Arguments CRun {_ A} _ _.

Section execute.
Context `{ReadTypes} {T : Type} {fs : WorkFS T} {runner : Runner T}.

(** Runs a handler against a filesystem and a runner. Using a writer that was
  never obtained is an error that changes nothing. *)
Fixpoint execute {A} (p : program A) (writers : list (WriteCloser T)) (s : T) : A * T :=
match p with
| Return a => (a, s)
| COpen name k => let '(r, s') := fsOpen name s in execute (k r) writers s'
| CStat name k => let '(r, s') := fsStat name s in execute (k r) writers s'
| CReadDir name k => let '(r, s') := fsReadDir name s in execute (k r) writers s'
| CMkdirAll path k => let '(r, s') := fsMkdirAll path s in execute (k r) writers s'
| CWriteFile name data k => let '(r, s') := fsWriteFile name data s in execute (k r) writers s'
| CCreate name k =>
    match fsCreate name s with
    | (Ok w, s') => execute (k (Ok tt)) (writers ++ [w]) s'
    | (Err e, s') => execute (k (Err e)) writers s'
    end
| CRename oldPath newPath k =>
    let '(r, s') := fsRename oldPath newPath s in execute (k r) writers s'
| CRemove name k => let '(r, s') := fsRemove name s in execute (k r) writers s'
| CRemoveAll path k => let '(r, s') := fsRemoveAll path s in execute (k r) writers s'
| CTempFileIn destination k =>
    match fsTempFileIn destination s with
    | (Ok (path, w), s') => execute (k (Ok path)) (writers ++ [w]) s'
    | (Err e, s') => execute (k (Err e)) writers s'
    end
| CWrite writer data k =>
    match writers !! writer with
    | Some w => let '(r, s') := wcWrite w data s in execute (k r) writers s'
    | None => execute (k (Err "no such writer")) writers s
    end
| CClose writer k =>
    match writers !! writer with
    | Some w => let '(r, s') := wcClose w s in execute (k r) writers s'
    | None => execute (k (Err "no such writer")) writers s
    end
| CRun command k => let '(r, s') := runCommand command s in execute (k r) writers s'
end.
End execute.

(** * The guarantee *)

(** What the wrapped filesystem promises: reading leaves the state as it is. Of
    commands nothing is promised: whether one changes the disk is for its
    program to say, and the mark is only what the handler says. *)
Class ReadsOnly `{ReadTypes} (T : Type) {fs : WorkFS T} : Prop := {
  open_pure name s : (fsOpen name s).2 = s;
  stat_pure name s : (fsStat name s).2 = s;
  readdir_pure name s : (fsReadDir name s).2 = s;
}.

Section guarantee.
Context `{ReadTypes} {T : Type} {fs : WorkFS T} {runner : Runner T}.

Lemma passed_pure {A} (op : T -> A * T) s l :
(op s).2 = s -> passed op (s, l) = ((op s).1, (s, l)).
Proof. unfold passed. simpl. destruct (op s) as [a s']. by intros <-. Qed.

(** What a dry run amounts to: the lines it logs and the commands it really
    runs, when reads answer as they do in [s], mutations as the dry run answers
    them, and the commands not marked as mutating as they do. *)
Fixpoint rehearse {A} (p : program A) (writers : nat) (s : T) : list LogEntry * list Command :=
let logging entry rest := (entry :: rest.1, rest.2) in
match p with
| Return _ => ([], [])
| COpen name k => rehearse (k (fsOpen name s).1) writers s
| CStat name k => rehearse (k (fsStat name s).1) writers s
| CReadDir name k => rehearse (k (fsReadDir name s).1) writers s
| CMkdirAll path k => logging (effect "mkdir_all" [("path", AString path)]) (rehearse (k (Ok tt)) writers s)
| CWriteFile name data k =>
    logging (effect "write_file" [("path", AString name); ("bytes", AInt (Z.of_nat (String.length data)))]) (rehearse (k (Ok tt)) writers s)
| CCreate name k => logging (effect "create" [("path", AString name)]) (rehearse (k (Ok tt)) (S writers) s)
| CRename oldPath newPath k => logging (effect "rename" [("from", AString oldPath); ("to", AString newPath)]) (rehearse (k (Ok tt)) writers s)
| CRemove name k => logging (effect "remove" [("path", AString name)]) (rehearse (k (Ok tt)) writers s)
| CRemoveAll path k => logging (effect "remove_all" [("path", AString path)]) (rehearse (k (Ok tt)) writers s)
| CTempFileIn destination k =>
    logging (effect "temp_file" [("path", AString (simulatedPath destination)); ("destination", AString destination)])
      (rehearse (k (Ok (simulatedPath destination))) (S writers) s)
| CWrite writer data k =>
    rehearse (k (if (writer <? writers)%nat then Ok (Z.of_nat (String.length data)) else Err "no such writer")) writers s
| CClose writer k => rehearse (k (if (writer <? writers)%nat then Ok tt else Err "no such writer")) writers s
| CRun command k =>
    if cmdMutates command then logging (commandEntry command) (rehearse (k (Ok CommandSimulated)) writers s)
    else let rest := rehearse (k (runCommand command s).1) writers (runCommand command s).2 in (rest.1, command :: rest.2)
end.

(** The disk after commands run one after the other. *)
Definition afterCommands (s : T) (commands : list Command) : T := fold_left (fun s command => (runCommand command s).2) commands s.

Lemma lookup_writer (writers : list (WriteCloser (logged T))) i :
Forall (eq discardWriteCloser) writers ->
writers !! i = if (i <? length writers)%nat then Some discardWriteCloser else None.
Proof.
intros Hw. destruct (Nat.ltb_spec i (length writers)) as [Hi|Hi].
- destruct (lookup_lt_is_Some_2 _ _ Hi) as [w Hl]. rewrite Hl. f_equal.
  rewrite Forall_forall in Hw. symmetry. apply Hw. by eapply list_elem_of_lookup_2.
- by apply lookup_ge_None_2.
Qed.

Lemma discards_snoc (writers : list (WriteCloser (logged T))) :
Forall (eq discardWriteCloser) writers ->
Forall (eq discardWriteCloser) (writers ++ [discardWriteCloser]) /\
length (writers ++ [discardWriteCloser (T := T)]) = S (length writers).
Proof. intros Hw. rewrite length_app, Nat.add_1_r. split; [|done]. apply Forall_app. by repeat constructor. Qed.

(** A handler whose writers all discard. *)
Lemma execute_dry `{!ReadsOnly T} {A} (p : program A) (writers : list (WriteCloser (logged T))) s l :
Forall (eq discardWriteCloser) writers ->
(execute p writers (s, l)).2 = (afterCommands s (rehearse p (length writers) s).2, l ++ (rehearse p (length writers) s).1).
Proof.
revert writers s l. induction p as [a|n k IH|n k IH|n k IH|n k IH|n d k IH|n k IH|o n k IH|n k IH|n k IH|n k IH|i d k IH|i k IH|c k IH];
  intros writers s l Hw; cbn [execute rehearse fsOpen fsStat fsReadDir fsMkdirAll fsWriteFile fsCreate fsRename
    fsRemove fsRemoveAll fsTempFileIn DryRunFS runCommand DryRunRunner fst snd].
- by rewrite app_nil_r.
- rewrite passed_pure by apply open_pure. by apply IH.
- rewrite passed_pure by apply stat_pure. by apply IH.
- rewrite passed_pure by apply readdir_pure. by apply IH.
- unfold simulated. by rewrite IH, <- app_assoc.
- unfold simulated. by rewrite IH, <- app_assoc.
- destruct (discards_snoc writers Hw) as [Hw' Hlen]. unfold simulated. by rewrite IH, <- app_assoc, Hlen.
- unfold simulated. by rewrite IH, <- app_assoc.
- unfold simulated. by rewrite IH, <- app_assoc.
- unfold simulated. by rewrite IH, <- app_assoc.
- destruct (discards_snoc writers Hw) as [Hw' Hlen]. unfold simulated. by rewrite IH, <- app_assoc, Hlen.
- rewrite lookup_writer by done. destruct (i <? length writers)%nat; by apply IH.
- rewrite lookup_writer by done. destruct (i <? length writers)%nat; by apply IH.
- destruct (cmdMutates c) eqn:Hm; cbn [negb fst snd]; [by rewrite IH, <- app_assoc|].
  unfold passed. cbn [fst snd]. destruct (runCommand c s) as [r s'] eqn:Hr. cbn [fst snd]. rewrite IH by done.
  unfold afterCommands. cbn [fold_left]. by rewrite Hr.
Qed.

Lemma rehearse_unmarked {A} (p : program A) writers s : Forall (fun command => cmdMutates command = false) (rehearse p writers s).2.
Proof.
revert writers s. induction p as [a|n k IH|n k IH|n k IH|n k IH|n d k IH|n k IH|o n k IH|n k IH|n k IH|n k IH|i d k IH|i k IH|c k IH];
  intros writers s; cbn [rehearse fst snd]; auto.
destruct (cmdMutates c) eqn:Hm; cbn [fst snd]; auto.
Qed.

End guarantee.

(** * A filesystem in memory *)

Module Memory.
#[export] Instance types : ReadTypes := {| ReadCloser := string; FileInfo := Z; DirEntry := string |}.

Definition files : Type := gmap string string.

Definition found (name : string) (s : files) : result string :=
match s !! name with Some data => Ok data | None => Err "no such file" end.

Definition writer (name : string) : WriteCloser files :=
{| wcWrite := fun p s => (Ok (Z.of_nat (String.length p)), <[name := default "" (s !! name) +:+ p]> s);
   wcClose := fun s => (Ok tt, s) |}.

#[export] Instance fs : WorkFS files := {|
fsOpen name s := (found name s, s);
fsStat name s := (try data := found name s in Ok (Z.of_nat (String.length data)), s)%go;
fsReadDir name s := (Ok (map fst (map_to_list s)), s);
fsMkdirAll path s := (Ok tt, s);
fsWriteFile name data s := (Ok tt, <[name := data]> s);
fsCreate name s := (Ok (writer name), <[name := ""]> s);
fsRename oldPath newPath s :=
  match s !! oldPath with
  | Some data => (Ok tt, <[newPath := data]> (delete oldPath s))
  | None => (Err "no such file", s)
  end;
fsRemove name s := (Ok tt, delete name s);
fsRemoveAll path s := (Ok tt, filter (fun file => has_prefix path file.1 = false) s);
fsTempFileIn destination s := (Ok (destination +:+ ".tmp", writer (destination +:+ ".tmp")), s);
|}.

(** "touch" creates a file whatever it is marked as. *)
#[export] Instance runner : Runner files := {|
runCommand command s :=
  (Ok {| crExitCode := 0; crStdout := "ok"; crStderr := ""; crSimulated := false |},
   if String.eqb (cmdPath command) "touch" then <["/lib/touched" := ""]> s else if cmdMutates command then ∅ else s)
|}.

#[export] Instance reads_only : ReadsOnly files.
Proof. by constructor. Qed.

(** Stage a copy of a file, publish it over the original, delete the rest. *)
Definition handler : program Z :=
COpen "/lib/a" (fun opened =>
match opened with
| Err _ => Return 1%Z
| Ok data =>
    CTempFileIn "/lib/a" (fun temp =>
    match temp with
    | Err _ => Return 2%Z
    | Ok path =>
        CWrite 0 data (fun _ => CClose 0 (fun _ =>
        CRename path "/lib/a" (fun _ => CRemoveAll "/lib/old" (fun _ => Return 0%Z))))
    end)
end).

Definition disk : files := <["/lib/a" := "data"]> (<["/lib/old/b" := "x"]> ∅).
End Memory.
Import Memory.


(** A command that is not marked does what it does, in a dry run too. *)
Example unmarked_command_writes :
  (execute (T := logged Memory.files) (fs := DryRunFS) (runner := DryRunRunner)
     (CRun {| cmdPath := "touch"; cmdArgs := []; cmdDir := ""; cmdMutates := false |} (fun _ => Return 0%Z)) [] (Memory.disk, [])).2.1
    !! "/lib/touched" = Some "".
Proof. vm_compute. reflexivity. Qed.

(** The same handler outside the dry run does change the disk. *)
Example live_run_changes :
  (execute Memory.handler [] Memory.disk).2 !! "/lib/old/b" = None.
Proof. vm_compute. reflexivity. Qed.
