(* ===== verification/Versioned.v ===== *)
(** Append-only versioned documents:
    src/internal/server/mongostore/versioned/versioned.go.

    The Mongo collection is outside the repository: it is the class
    [Collection], whose operations may fail at any call and whose laws are what
    the driver documents (a failed insert may still have happened, a failed
    update may be partly done, the unique index on document and version holds).
    [Listed] implements it by a list, with a schedule of faults. Ids are
    numbers, zero for the nil id; the fresh ids and the clock reading a save
    uses are arguments. *)
From stdpp Require Import strings list sorting gmap.
From Stdlib Require Import ZArith Lia.
From S2P Require Import Prelude.
#[local] Open Scope Z_scope.
#[local] Open Scope go_scope.

Definition ObjectID : Type := Z.
Definition NilObjectID : ObjectID := 0.

Record Envelope : Type := {
  ID : ObjectID;
  DocumentID : ObjectID;
  Version : Z;
  IsLatest : bool;
  CreatedAt : Z;
}.

(** The getEnvelope and setEnvelope closures of a Store. *)
Class Document (T : Type) : Type := {
  getEnvelope : T -> Envelope;
  setEnvelope : T -> Envelope -> T;
  get_set d e : getEnvelope (setEnvelope d e) = e;
}.

Section queries.
Context `{Document T}.

(** [bson.M{"document_id": documentID}] and its variants. *)
Definition ofDocument (documentID : ObjectID) (d : T) : bool := DocumentID (getEnvelope d) =? documentID.
Definition latestOf (documentID : ObjectID) (d : T) : bool :=
ofDocument documentID d && IsLatest (getEnvelope d).
Definition versionOf (documentID : ObjectID) (version : Z) (d : T) : bool :=
ofDocument documentID d && (Version (getEnvelope d) =? version).

(** [{"$set": {"is_latest": false}}]. *)
Definition unmark (d : T) : T :=
let e := getEnvelope d in
setEnvelope d {| ID := ID e; DocumentID := DocumentID e; Version := Version e;
                 IsLatest := false; CreatedAt := CreatedAt e |}.

(** Documents the unique indexes keep apart. *)
Definition conflict (d d' : T) : bool :=
(ID (getEnvelope d) =? ID (getEnvelope d')) ||
((DocumentID (getEnvelope d) =? DocumentID (getEnvelope d')) &&
 (Version (getEnvelope d) =? Version (getEnvelope d'))).

(** Newest first, by a numeric field. *)
Definition descending (field : T -> Z) (l : list T) : list T := stable_sort field (fun a b => b <? a) l.
End queries.

(** A Mongo collection of documents, as [docs] lists them. Every operation
    threads the collection, whose hidden state decides which calls fail. *)
Class Collection (C T : Type) `{Document T} : Type := {
  docs : C -> list T;
  findOne : (T -> bool) -> C -> result (option T) * C;
  find : (T -> bool) -> (T -> Z) -> option nat -> C -> result (list T) * C;
  updateMany : (T -> bool) -> (T -> T) -> C -> result unit * C;
  insertOne : T -> C -> result unit * C;
  deleteMany : (T -> bool) -> C -> result nat * C;

  findOne_docs p c : docs (findOne p c).2 = docs c;
  findOne_Some p c d c' : findOne p c = (Ok (Some d), c') -> d ∈ docs c /\ p d = true;
  findOne_None p c c' : findOne p c = (Ok None, c') -> forall d, d ∈ docs c -> p d = false;
  find_docs p field limit c : docs (find p field limit c).2 = docs c;
  find_Ok p field limit c l c' : find p field limit c = (Ok l, c') ->
    l = let sorted := descending field (List.filter p (docs c)) in
        match limit with Some n => take n sorted | None => sorted end;
  updateMany_Ok p f c c' : updateMany p f c = (Ok tt, c') ->
    docs c' = map (fun d => if p d then f d else d) (docs c);
  updateMany_Err p f c e c' : updateMany p f c = (Err e, c') ->
    Forall2 (fun d d' => d' = d \/ (p d = true /\ d' = f d)) (docs c) (docs c');
  insertOne_Ok d c c' : insertOne d c = (Ok tt, c') ->
    Forall (fun d' => conflict d' d = false) (docs c) /\ docs c' = docs c ++ [d];
  insertOne_Err d c e c' : insertOne d c = (Err e, c') ->
    docs c' = docs c \/
    (Forall (fun d' => conflict d' d = false) (docs c) /\ docs c' = docs c ++ [d]);
  deleteMany_Ok p c n c' : deleteMany p c = (Ok n, c') ->
    n = length (List.filter p (docs c)) /\ docs c' = List.filter (fun d => negb (p d)) (docs c);
  deleteMany_Err p c e c' : deleteMany p c = (Err e, c') ->
    sublist (docs c') (docs c) /\
    List.filter (fun d => negb (p d)) (docs c') = List.filter (fun d => negb (p d)) (docs c);
}.

(** The errors a call returns: the sentinel, or another with its text. *)
Inductive error : Type := ErrNotFound | Failure (what : string).

Definition defaultListLimit : Z := 20.

Section store.
Context {C T : Type} `{Document T} `{!Collection C T}.

Definition GetLatest (documentID : ObjectID) (c : C) : (T + error) * C :=
match findOne (latestOf documentID) c with
| (Ok (Some d), c') => (inl d, c')
| (Ok None, c') => (inr ErrNotFound, c')
| (Err e, c') => (inr (Failure ("versioned: fetching latest version of " +:+ show_Z documentID +:+ ": " +:+ e)), c')
end.

Definition GetVersion (documentID : ObjectID) (version : Z) (c : C) : (T + error) * C :=
match findOne (versionOf documentID version) c with
| (Ok (Some d), c') => (inl d, c')
| (Ok None, c') => (inr ErrNotFound, c')
| (Err e, c') => (inr (Failure ("versioned: fetching version " +:+ show_Z version +:+ " of " +:+
                                show_Z documentID +:+ ": " +:+ e)), c')
end.

(** The version a save writes next. *)
Definition nextVersion (documentID : ObjectID) (c : C) : (Z + error) * C :=
if documentID =? NilObjectID then (inl 1, c)
else
  match GetLatest documentID c with
  | (inl current, c') => (inl (Version (getEnvelope current) + 1), c')
  | (inr ErrNotFound, c') => (inl 1, c')
  | (inr (Failure e), c') => (inr (Failure ("versioned: reading current version: " +:+ e)), c')
  end.

(** The document a save goes to: a new one for the nil id. *)
Definition targetOf (newDocumentID documentID : ObjectID) : ObjectID :=
if documentID =? NilObjectID then newDocumentID else documentID.

(** [Save]: [newDocumentID] and [newID] are the ids bson.NewObjectID mints, and
  [now] the clock. *)
Definition Save (newDocumentID newID : ObjectID) (now : Z) (documentID : ObjectID) (doc : T) (c : C)
: (T + error) * C :=
match nextVersion documentID c with
| (inr e, c1) => (inr e, c1)
| (inl next, c1) =>
    let documentID := targetOf newDocumentID documentID in
    match updateMany (latestOf documentID) unmark c1 with
    | (Err e, c2) => (inr (Failure ("versioned: unmarking previous latest version: " +:+ e)), c2)
    | (Ok _, c2) =>
        let doc := setEnvelope doc {| ID := newID; DocumentID := documentID; Version := next;
                                      IsLatest := true; CreatedAt := now |} in
        match insertOne doc c2 with
        | (Err e, c3) => (inr (Failure ("versioned: inserting version " +:+ show_Z next +:+ ": " +:+ e)), c3)
        | (Ok _, c3) => (inl doc, c3)
        end
    end
end.

(** [ListLatest]: the page, the id of its last row when there is another page,
  and whether there is. *)
Definition ListLatest (filterLimit : Z) (cursor : ObjectID) (c : C)
: (list T * option ObjectID * bool + error) * C :=
let limit := if filterLimit <=? 0 then defaultListLimit else filterLimit in
let query d := IsLatest (getEnvelope d) &&
  (if cursor =? NilObjectID then true else ID (getEnvelope d) <? cursor) in
match find query (fun d => ID (getEnvelope d)) (Some (Z.to_nat (limit + 1))) c with
| (Err e, c') => (inr (Failure ("versioned: listing latest versions: " +:+ e)), c')
| (Ok items, c') =>
    let hasMore := limit <? Z.of_nat (length items) in
    let items := if hasMore then take (Z.to_nat limit) items else items in
    let nextCursor :=
      if hasMore then (fun d => ID (getEnvelope d)) <$> last items else None in
    (inl (items, nextCursor, hasMore), c')
end.

Definition DeleteAllVersions (documentID : ObjectID) (c : C) : (unit + error) * C :=
match deleteMany (ofDocument documentID) c with
| (Err e, c') => (inr (Failure ("versioned: deleting all versions of " +:+ show_Z documentID +:+ ": " +:+ e)), c')
| (Ok O, c') => (inr ErrNotFound, c')
| (Ok _, c') => (inl tt, c')
end.

Definition ListVersions (documentID : ObjectID) (c : C) : (list T + error) * C :=
match find (ofDocument documentID) (fun d => Version (getEnvelope d)) None c with
| (Err e, c') => (inr (Failure ("versioned: listing versions of " +:+ show_Z documentID +:+ ": " +:+ e)), c')
| (Ok items, c') => (inl items, c')
end.
End store.

(** * The invariant *)

Section invariant.
Context {C T : Type} `{Document T} `{!Collection C T}.

Definition doc_id (d : T) : ObjectID := DocumentID (getEnvelope d).
Definition version (d : T) : Z := Version (getEnvelope d).
Definition latest (d : T) : bool := IsLatest (getEnvelope d).

(** Version numbers of a document start at 1 without gaps, no two versions of
  it share a number, and a version marked latest is the highest. *)
Record versions_ok (l : list T) : Prop := {
vo_unique : NoDup (map (fun d => (doc_id d, version d)) l);
vo_positive d : d ∈ l -> 1 <= version d;
vo_contiguous d n : d ∈ l -> 1 <= n <= version d ->
  exists d', d' ∈ l /\ doc_id d' = doc_id d /\ version d' = n;
vo_latest d d' : d ∈ l -> latest d = true -> d' ∈ l -> doc_id d' = doc_id d -> version d' <= version d;
}.

Lemma unmark_fields d : doc_id (unmark d) = doc_id d /\ version (unmark d) = version d /\ latest (unmark d) = false.
Proof. unfold unmark, doc_id, version, latest. by rewrite get_set. Qed.

(** Documents whose marks were cleared, some or all of those asked for. *)
Definition unmarked (p : T -> bool) (l l' : list T) : Prop :=
Forall2 (fun d d' => d' = d \/ (p d = true /\ d' = unmark d)) l l'.

Lemma unmarked_keys p l l' : unmarked p l l' ->
map (fun d => (doc_id d, version d)) l' = map (fun d => (doc_id d, version d)) l.
Proof.
induction 1 as [|d d' l l' Hd Hl IH]; [done|]. simpl. rewrite IH. f_equal.
destruct Hd as [->|[_ ->]]; [done|]. by destruct (unmark_fields d) as (-> & -> & _).
Qed.

Lemma unmarked_elem p l l' d' : unmarked p l l' -> d' ∈ l' ->
exists d, d ∈ l /\ doc_id d = doc_id d' /\ version d = version d' /\ (latest d' = true -> latest d = true /\ d = d').
Proof.
intros Hl Hd'. apply list_elem_of_lookup in Hd' as [i Hi].
destruct (Forall2_lookup_r _ _ _ _ _ Hl Hi) as (d & Hd & Hor). exists d.
split; [by eapply list_elem_of_lookup_2|].
destruct Hor as [->|[_ ->]]; [done|]. destruct (unmark_fields d) as (-> & -> & ->). done.
Qed.

Lemma unmarked_elem_back p l l' d : unmarked p l l' -> d ∈ l ->
exists d', d' ∈ l' /\ doc_id d' = doc_id d /\ version d' = version d.
Proof.
intros Hl Hd. apply list_elem_of_lookup in Hd as [i Hi].
destruct (Forall2_lookup_l _ _ _ _ _ Hl Hi) as (d' & Hd' & Hor). exists d'.
split; [by eapply list_elem_of_lookup_2|].
destruct Hor as [->|[_ ->]]; [done|]. by destruct (unmark_fields d) as (-> & -> & _).
Qed.

Lemma unmarked_ok p l l' : unmarked p l l' -> versions_ok l -> versions_ok l'.
Proof.
intros Hu [H1 H2 H3 H4]. constructor.
- by rewrite (unmarked_keys p l l').
- intros d' (d & Hd & _ & <- & _)%(unmarked_elem p l); auto.
- intros d' n (d & Hd & Hid & Hv & _)%(unmarked_elem p l) Hn; [|done].
  destruct (H3 d n Hd) as (e & He & Hei & Hev); [by rewrite Hv|].
  destruct (unmarked_elem_back p l l' e Hu He) as (e' & He' & Hi' & Hv').
  exists e'. split_and!; [done|congruence|congruence].
- intros d e Hd Hl He Hi. destruct (unmarked_elem p l l' d Hu Hd) as (d0 & Hd0 & Hid & Hv & Hlat).
  destruct (unmarked_elem p l l' e Hu He) as (e0 & He0 & Hie & Hve & _).
  rewrite <- Hv, <- Hve. destruct (Hlat Hl) as [Hl0 _]. apply H4; [done..|congruence].
Qed.

Lemma updateMany_unmarked p c r c' : updateMany p unmark c = (r, c') -> unmarked p (docs c) (docs c').
Proof.
destruct r as [[]|e].
- intros ->%updateMany_Ok. unfold unmarked. induction (docs c) as [|d l IH]; constructor; [|done].
  destruct (p d); auto.
- apply updateMany_Err.
Qed.

(** Adding a version that follows the highest one. *)
Lemma append_ok l d :
versions_ok l -> Forall (fun d' => conflict d' d = false) l -> 1 <= version d ->
(forall n, 1 <= n < version d -> exists d', d' ∈ l /\ doc_id d' = doc_id d /\ version d' = n) ->
(forall d', d' ∈ l -> doc_id d' = doc_id d -> version d' <= version d /\ latest d' = false) ->
versions_ok (l ++ [d]).
Proof.
intros [H1 H2 H3 H4] Hc Hpos Hcont Hmax. constructor.
- rewrite map_app. apply NoDup_app. split_and!; [done| |by apply NoDup_singleton].
  intros k Hk ->%list_elem_of_singleton. apply list_elem_of_fmap in Hk as (d' & [= Hi Hv] & Hd').
  rewrite Forall_forall in Hc. specialize (Hc d' Hd'). unfold conflict in Hc.
  unfold doc_id, version in Hi, Hv. rewrite Hi, Hv, !Z.eqb_refl, orb_true_r in Hc. done.
- intros d' [Hd'| ->%list_elem_of_singleton]%elem_of_app; auto.
- intros d' n [Hd'| ->%list_elem_of_singleton]%elem_of_app Hn.
  + destruct (H3 d' n Hd' Hn) as (e & ? & ?). exists e. rewrite elem_of_app. auto.
  + destruct (decide (n = version d)) as [->|Hne].
    * exists d. rewrite elem_of_app, list_elem_of_singleton. auto.
    * destruct (Hcont n) as (e & ? & ?); [lia|]. exists e. rewrite elem_of_app. auto.
- intros d1 d2 [Hd1| ->%list_elem_of_singleton]%elem_of_app Hl
    [Hd2| ->%list_elem_of_singleton]%elem_of_app Hi; [by apply H4| | |done].
  + destruct (Hmax d1 Hd1) as [_ Hf]; congruence.
  + by apply Hmax.
Qed.

(** What [nextVersion] returns, and that it changes no document. *)
Lemma nextVersion_spec documentID c r c' :
nextVersion documentID c = (r, c') ->
docs c' = docs c /\
(forall next, r = inl next -> documentID = NilObjectID -> next = 1) /\
forall next, r = inl next -> documentID <> NilObjectID ->
  (exists d, d ∈ docs c /\ doc_id d = documentID /\ latest d = true /\ next = version d + 1) \/
  (next = 1 /\ forall d, d ∈ docs c -> doc_id d = documentID -> latest d = false).
Proof.
unfold nextVersion, GetLatest. destruct (Z.eqb_spec documentID NilObjectID) as [E|E].
{ intros [= <- <-]. split_and!; [done|by intros ? [= <-]|done]. }
destruct (findOne (latestOf documentID) c) as [[[d|]|e] c1] eqn:Hf;
  pose proof (findOne_docs (latestOf documentID) c) as Hd; rewrite Hf in Hd; simpl in Hd; intros [= <- <-].
- split_and!; [done..|]. intros next [= <-] _. left. apply findOne_Some in Hf as [Hin Hp].
  unfold latestOf, ofDocument in Hp. apply andb_true_iff in Hp as [Hp Hl]. apply Z.eqb_eq in Hp.
  exists d. done.
- split_and!; [done..|]. intros next [= <-] _. right. split; [done|]. intros d Hin Hi.
  pose proof (findOne_None _ _ _ Hf d Hin) as Hp. unfold latestOf, ofDocument in Hp.
  unfold doc_id in Hi. by rewrite Hi, Z.eqb_refl in Hp.
- by split_and!.
Qed.

(** The new version follows what is stored under its document. *)
Lemma append_next l l2 p d id next :
versions_ok l -> unmarked p l l2 -> doc_id d = id -> version d = next ->
(forall d', d' ∈ l2 -> doc_id d' = id -> latest d' = false) ->
Forall (fun d' => conflict d' d = false) l2 ->
((exists d0, d0 ∈ l /\ doc_id d0 = id /\ latest d0 = true /\ next = version d0 + 1) \/ next = 1) ->
versions_ok (l2 ++ [d]).
Proof.
intros Hok Hun Hid Hv Hlatest Hc Hcase. pose proof (unmarked_ok _ _ _ Hun Hok) as Hok2.
destruct Hcase as [(d0 & Hd0 & Hi0 & Hl0 & Hn)|Hn].
- apply append_ok; [done..| | |].
  + rewrite Hv, Hn. pose proof (vo_positive _ Hok d0 Hd0). lia.
  + intros n Hlt. destruct (vo_contiguous _ Hok d0 n Hd0) as (e & He & Hie & Hve); [lia|].
    destruct (unmarked_elem_back _ _ _ _ Hun He) as (e' & ? & ? & ?). exists e'. split_and!; congruence.
  + intros d' Hd' Hi. split; [|apply Hlatest; congruence].
    destruct (unmarked_elem _ _ _ _ Hun Hd') as (e & He & Hie & Hve & _).
    pose proof (vo_latest _ Hok d0 e Hd0 Hl0 He). rewrite <- Hve, Hv, Hn.
    assert (version e <= version d0); [|lia]. apply H0. congruence.
- assert (Hnone : forall d', d' ∈ l2 -> doc_id d' = id -> False).
  { intros d' Hd' Hi. destruct (vo_contiguous _ Hok2 d' 1 Hd') as (e & He & Hie & Hve).
    { pose proof (vo_positive _ Hok2 d' Hd'). lia. }
    rewrite Forall_forall in Hc. specialize (Hc e He). unfold conflict in Hc.
    unfold doc_id, version in *. rewrite Hve, Hv, Hn, Hie, Hi, Hid, !Z.eqb_refl, orb_true_r in Hc. done. }
  apply append_ok; [done..|lia| |].
  + intros n Hlt. lia.
  + intros d' Hd' Hi. exfalso. eapply Hnone; [exact Hd'|congruence].
Qed.

(** What a save may leave, whatever call of it fails: marks cleared, and
  possibly one new version of its document after them. *)
Definition saved (id : ObjectID) (l l' : list T) : Prop :=
exists l2 p, unmarked p l l2 /\
(l' = l2 \/
 exists d next, l' = l2 ++ [d] /\ doc_id d = id /\ version d = next /\
  (forall d', d' ∈ l2 -> doc_id d' = id -> latest d' = false) /\
  Forall (fun d' => conflict d' d = false) l2 /\
  ((exists d0, d0 ∈ l /\ doc_id d0 = id /\ latest d0 = true /\ next = version d0 + 1) \/ next = 1)).

Lemma unmarked_refl p l : unmarked p l l.
Proof. apply Forall_Forall2_diag, Forall_forall. by left. Qed.

Lemma Save_saved newDocumentID newID now documentID doc c r c' :
Save newDocumentID newID now documentID doc c = (r, c') ->
saved (targetOf newDocumentID documentID) (docs c) (docs c').
Proof.
unfold Save.
destruct (nextVersion documentID c) as [[next|e] c1] eqn:Hn;
  apply nextVersion_spec in Hn as (Hd & Hnil & Hnext);
  [|intros [= <- <-]; rewrite Hd; exists (docs c), (fun _ => false); split; [apply unmarked_refl|by left]].
set (id := targetOf newDocumentID documentID).
set (d := setEnvelope doc _).
assert (Hfields : doc_id d = id /\ version d = next)
  by (unfold d, doc_id, version; by rewrite get_set).
destruct Hfields as [Hdi Hdv].
destruct (updateMany (latestOf id) unmark c1) as [ru c2] eqn:Hu.
pose proof (updateMany_unmarked _ _ _ _ Hu) as Hun. rewrite Hd in Hun.
assert (Hkeep : saved id (docs c) (docs c2)) by (eexists _, _; split; [exact Hun|by left]).
destruct ru as [[]|e]; [|by intros [= <- <-]].
assert (Hlatest : forall d', d' ∈ docs c2 -> doc_id d' = id -> latest d' = false).
{ apply updateMany_Ok in Hu. rewrite Hu, Hd. intros d' (d0 & -> & Hd0)%list_elem_of_fmap Hid.
  destruct (latestOf id d0) eqn:Hl; [by apply unmark_fields|].
  unfold latestOf, ofDocument in Hl. unfold doc_id in Hid. by rewrite Hid, Z.eqb_refl in Hl. }
assert (Happ : Forall (fun d' => conflict d' d = false) (docs c2) -> saved id (docs c) (docs c2 ++ [d])).
{ intros Hc. eexists _, _. split; [exact Hun|]. right. exists d, next. split_and!; try done.
  unfold id, targetOf. destruct (Z.eqb_spec documentID NilObjectID) as [E|E]; [right; auto|].
  destruct (Hnext next eq_refl E) as [?|[? _]]; auto. }
destruct (insertOne d c2) as [[[]|e] c3] eqn:Hi; intros [= <- <-].
- apply insertOne_Ok in Hi as [Hc ->]. auto.
- apply insertOne_Err in Hi as [->|[Hc ->]]; [done|auto].
Qed.

Lemma saved_ok id l l' : saved id l l' -> versions_ok l -> versions_ok l'.
Proof.
intros (l2 & p & Hun & [->|(d & next & -> & Hid & Hv & Hlat & Hc & Hcase)]) Hok; [by eapply unmarked_ok|].
by eapply (append_next l l2 p d id next).
Qed.

(** A save, whatever call of it fails, keeps the invariant. *)
Lemma Save_ok newDocumentID newID now documentID doc c r c' :
versions_ok (docs c) -> Save newDocumentID newID now documentID doc c = (r, c') ->
versions_ok (docs c').
Proof. intros Hok Hs%Save_saved. by eapply saved_ok. Qed.

(** ** One document at a time *)

Definition of_document (id : ObjectID) (l : list T) : list T := List.filter (ofDocument id) l.

Lemma of_document_elem id l d : d ∈ of_document id l <-> d ∈ l /\ doc_id d = id.
Proof. unfold of_document. rewrite !list_elem_of_In, filter_In. unfold ofDocument, doc_id. by rewrite Z.eqb_eq. Qed.

Lemma unmarked_of_document id p l l' : unmarked p l l' -> unmarked p (of_document id l) (of_document id l').
Proof.
unfold unmarked, of_document. induction 1 as [|d d' l l' Hd Hl IH]; [constructor|]. cbn.
assert (ofDocument id d' = ofDocument id d) as ->.
{ destruct Hd as [->|[_ ->]]; [done|]. destruct (unmark_fields d) as [Hi _]. unfold doc_id in Hi. unfold ofDocument. by rewrite Hi. }
destruct (ofDocument id d); [by constructor|done].
Qed.

Lemma saved_of_document id id' l l' : saved id l l' -> saved id (of_document id' l) (of_document id' l').
Proof.
intros (l2 & p & Hun & Hor). exists (of_document id' l2), p. split; [by apply unmarked_of_document|].
destruct Hor as [->|(d & next & -> & Hid & Hv & Hlat & Hc & Hcase)]; [by left|].
assert (of_document id' (l2 ++ [d]) = of_document id' l2 ++ (if doc_id d =? id' then [d] else [])) as ->
  by (unfold of_document; by rewrite List.filter_app).
rewrite Hid. destruct (Z.eqb_spec id id') as [<-|Hne]; [|left; by rewrite app_nil_r].
right. exists d, next. split_and!; try done.
- intros d' [? ?]%of_document_elem. auto.
- rewrite Forall_forall in *. intros d' [? ?]%of_document_elem. auto.
- destruct Hcase as [(d0 & ? & ? & ? & ?)|]; [|by right]. left. exists d0. by rewrite of_document_elem.
Qed.

(** What holds of every document, whatever became of it: no two versions of it
  share a number, the numbers start at 1, and at most one version is latest. *)
Record versions_distinct (l : list T) : Prop := {
vd_unique : NoDup (map (fun d => (doc_id d, version d)) l);
vd_positive d : d ∈ l -> 1 <= version d;
vd_latest d d' : d ∈ l -> latest d = true -> d' ∈ l -> latest d' = true -> doc_id d' = doc_id d -> d' = d;
}.

Lemma unmarked_distinct p l l' : unmarked p l l' -> versions_distinct l -> versions_distinct l'.
Proof.
intros Hu [H1 H2 H3]. constructor.
- by rewrite (unmarked_keys p l l').
- intros d' (d & Hd & _ & <- & _)%(unmarked_elem p l); auto.
- intros d e Hd Hl He Hle Hi. destruct (unmarked_elem p l l' d Hu Hd) as (d0 & Hd0 & _ & _ & Hlat).
  destruct (unmarked_elem p l l' e Hu He) as (e0 & He0 & _ & _ & Hlat').
  destruct (Hlat Hl) as [? ->]. destruct (Hlat' Hle) as [? ->]. by apply H3.
Qed.

Lemma key_apart l d : NoDup (map (fun d => (doc_id d, version d)) l) -> Forall (fun d' => conflict d' d = false) l ->
NoDup (map (fun d => (doc_id d, version d)) (l ++ [d])).
Proof.
intros H1 Hc. rewrite map_app. apply NoDup_app. split_and!; [done| |by apply NoDup_singleton].
intros k Hk ->%list_elem_of_singleton. apply list_elem_of_fmap in Hk as (d' & [= Hi Hv] & Hd').
rewrite Forall_forall in Hc. specialize (Hc d' Hd'). unfold conflict in Hc.
unfold doc_id, version in Hi, Hv. rewrite Hi, Hv, !Z.eqb_refl, orb_true_r in Hc. done.
Qed.

Lemma saved_distinct id l l' : saved id l l' -> versions_distinct l -> versions_distinct l'.
Proof.
intros (l2 & p & Hun & [->|(d & next & -> & Hid & Hv & Hlat & Hc & Hcase)]) Hok; [by eapply unmarked_distinct|].
destruct (unmarked_distinct _ _ _ Hun Hok) as [H1 H2 H3]. constructor; [by apply key_apart|..].
- intros d' [Hd'| ->%list_elem_of_singleton]%elem_of_app; [auto|]. rewrite Hv.
  destruct Hcase as [(d0 & Hd0 & _ & _ & ->)| ->]; [|done]. pose proof (vd_positive _ Hok d0 Hd0). lia.
- intros d1 d2 [Hd1| ->%list_elem_of_singleton]%elem_of_app Hl
    [Hd2| ->%list_elem_of_singleton]%elem_of_app Hl2 Hi; [by apply H3| | |done].
  + rewrite (Hlat d1) in Hl; [done..|congruence].
  + rewrite (Hlat d2) in Hl2; [done..|congruence].
Qed.

Lemma sublist_distinct l l' : sublist l' l -> versions_distinct l -> versions_distinct l'.
Proof.
intros Hs [H1 H2 H3]. assert (Hin : forall d, d ∈ l' -> d ∈ l) by (intros d Hd; by eapply elem_of_sublist).
constructor; [|auto|by eauto].
assert (Hm : sublist (map (fun d => (doc_id d, version d)) l') (map (fun d => (doc_id d, version d)) l)).
{ clear -Hs. induction Hs; cbn; by constructor. }
by eapply sublist_NoDup.
Qed.

Lemma filter_sublist {A} (p : A -> bool) l : sublist (List.filter p l) l.
Proof. induction l as [|d l IH]; simpl; [constructor|]. destruct (p d); by constructor. Qed.

Lemma filter_idemp {A} (p : A -> bool) l : List.filter p (List.filter p l) = List.filter p l.
Proof. induction l as [|d l IH]; [done|]. cbn. destruct (p d) eqn:E; cbn; by rewrite ?E, IH. Qed.

(** What a delete leaves: some of its document's versions may be gone, and
  nothing of the others. *)
Lemma DeleteAllVersions_leaves documentID c r c' : DeleteAllVersions documentID c = (r, c') ->
sublist (docs c') (docs c) /\
(forall id, id <> documentID -> of_document id (docs c') = of_document id (docs c)) /\
((forall e, r <> inr (Failure e)) -> of_document documentID (docs c') = []).
Proof.
intros H1. assert (Hsub : sublist (docs c') (docs c) /\
  List.filter (fun d => negb (ofDocument documentID d)) (docs c') =
  List.filter (fun d => negb (ofDocument documentID d)) (docs c) /\
  ((forall e, r <> inr (Failure e)) -> docs c' = List.filter (fun d => negb (ofDocument documentID d)) (docs c))).
{ unfold DeleteAllVersions in H1. destruct (deleteMany (ofDocument documentID) c) as [[n|e] c1] eqn:Hd.
  - apply deleteMany_Ok in Hd as [_ Hd]. assert (c' = c1) as -> by (destruct n; congruence). rewrite Hd.
    split_and!; [by apply filter_sublist|by apply filter_idemp|done].
  - apply deleteMany_Err in Hd as [Hs Hf]. injection H1 as <- <-. split_and!; [done..|]. intros Hne. by edestruct Hne. }
destruct Hsub as (Hs & Hf & Hall). split_and!; [done| |].
- intros id Hne. assert (Heq : forall l, of_document id l = of_document id (List.filter (fun d => negb (ofDocument documentID d)) l)).
  { intros l. unfold of_document, ofDocument. induction l as [|d l IH]; [done|]. cbn.
    destruct (Z.eqb_spec (DocumentID (getEnvelope d)) id) as [E|E];
    destruct (Z.eqb_spec (DocumentID (getEnvelope d)) documentID) as [E'|E']; cbn;
    rewrite ?(proj2 (Z.eqb_eq _ _) E), ?(proj2 (Z.eqb_neq _ _) E), <- ?IH; congruence. }
  by rewrite Heq, Hf, <- Heq.
- intros Hne. rewrite (Hall Hne). unfold of_document. clear. induction (docs c) as [|d l IH]; [done|]. cbn.
  destruct (ofDocument documentID d) eqn:E; cbn; [done|by rewrite E].
Qed.

(** A successful save: what it returns and what it leaves. *)
Lemma Save_inl newDocumentID newID now documentID doc c d c' :
Save newDocumentID newID now documentID doc c = (inl d, c') ->
forall id, id = targetOf newDocumentID documentID ->
exists next, d = setEnvelope doc {| ID := newID; DocumentID := id; Version := next; IsLatest := true; CreatedAt := now |} /\
  docs c' = map (fun x => if latestOf id x then unmark x else x) (docs c) ++ [d] /\
  Forall (fun x => conflict x d = false) (map (fun x => if latestOf id x then unmark x else x) (docs c)) /\
  ((exists d0, d0 ∈ docs c /\ doc_id d0 = documentID /\ latest d0 = true /\ next = version d0 + 1) \/ next = 1).
Proof.
unfold Save. destruct (nextVersion documentID c) as [[next|e] c1] eqn:Hn; [|done].
apply nextVersion_spec in Hn as (Hd & Hnil & Hnext). intros H1 id ->. set (id := targetOf newDocumentID documentID) in *.
destruct (updateMany (latestOf id) unmark c1) as [[[]|e] c2] eqn:Hu; [|done].
destruct (insertOne _ c2) as [[[]|e] c3] eqn:Hi; [|done]. injection H1 as <- <-.
apply updateMany_Ok in Hu. rewrite Hd in Hu. apply insertOne_Ok in Hi as [Hc Hi]. rewrite Hu in Hc, Hi.
exists next. split_and!; [done..|].
destruct (Z.eqb_spec documentID NilObjectID) as [E|E]; [right; auto|].
destruct (Hnext next eq_refl E) as [?|[? _]]; auto.
Qed.
End invariant.

(** * Order *)

Section order.
Context `{Document T}.

Lemma descending_sorted field l : StronglySorted (fun x y : T => field y <= field x) (descending field l).
Proof.
assert (Hs : StronglySorted (in_order field (fun a b => b <? a)) (descending field l)).
{ apply stable_sort_sorted; intros a b; [intros c|]; rewrite ?Z.ltb_ge, ?Z.ltb_lt; lia. }
induction Hs as [|x l' Hs IH Hall]; constructor; [done|].
eapply Forall_impl; [exact Hall|]. intros y. unfold in_order. rewrite Z.ltb_ge. done.
Qed.

Lemma descending_perm (field : T -> Z) l : descending field l ≡ₚ l.
Proof. apply stable_sort_perm. Qed.

Lemma descending_keep (field : T -> Z) q l : List.filter q (descending field l) = descending field (List.filter q l).
Proof. apply stable_sort_keep; intros a b; [intros c|]; rewrite ?Z.ltb_ge, ?Z.ltb_lt; lia. Qed.

Lemma sorted_strict (field : T -> Z) l :
StronglySorted (fun x y => field y <= field x) l -> NoDup (map field l) ->
StronglySorted (fun x y => field y < field x) l.
Proof.
induction 1 as [|x l Hs IH Hall]; simpl; [constructor|]. intros [Hx Hnd]%NoDup_cons.
constructor; [auto|]. rewrite Forall_forall in *. intros y Hy. specialize (Hall y Hy).
assert (field y <> field x); [|lia]. intros Heq. apply Hx. apply list_elem_of_fmap. eauto.
Qed.

Lemma descending_strict (field : T -> Z) l :
NoDup (map field l) -> StronglySorted (fun x y => field y < field x) (descending field l).
Proof.
intros Hnd. apply sorted_strict; [apply descending_sorted|].
by rewrite (Permutation_map field (descending_perm field l)).
Qed.

(** Of a strictly descending list, what comes after an element is what is
  smaller. *)
Lemma strict_after (field : T -> Z) l1 x l2 :
StronglySorted (fun x y => field y < field x) (l1 ++ x :: l2) ->
List.filter (fun y => field y <? field x) (l1 ++ x :: l2) = l2.
Proof.
induction l1 as [|y l1 IH]; simpl; intros Hs; apply StronglySorted_inv in Hs as [Hs Hall].
- rewrite Z.ltb_irrefl. clear Hs. induction l2 as [|z l2 IH]; [done|].
  apply Forall_cons in Hall as [Hz Hall]. simpl. rewrite (proj2 (Z.ltb_lt _ _) Hz). f_equal. auto.
- rewrite Forall_forall in Hall. specialize (Hall x). rewrite (proj2 (Z.ltb_ge _ _)).
  + by apply IH.
  + assert (field x < field y); [|lia]. apply Hall. rewrite elem_of_app. right. left.
Qed.

(** A strictly descending list of numbers closed downwards counts down to 1. *)
Lemma countdown (l : list Z) :
StronglySorted (fun x y => y < x) l -> (forall x, x ∈ l -> 1 <= x) ->
(forall x n, x ∈ l -> 1 <= n <= x -> n ∈ l) ->
l = rev (seqZ 1 (Z.of_nat (length l))).
Proof.
induction 1 as [|x l Hs IH Hall]; intros Hpos Hdown; [done|].
rewrite Forall_forall in Hall.
assert (Hl : l = rev (seqZ 1 (Z.of_nat (length l)))).
{ apply IH.
  - intros y Hy. apply Hpos. by right.
  - intros y n Hy Hn. destruct (elem_of_cons l n x) as [Hin _].
    destruct Hin as [->|]; [|specialize (Hall y Hy); lia|done].
    apply (Hdown y); [by right|done]. }
assert (Hmem : forall n, n ∈ l <-> 1 <= n < 1 + Z.of_nat (length l)).
{ intros n. rewrite Hl at 1. rewrite list_elem_of_In, <- in_rev, <- list_elem_of_In, elem_of_seqZ. done. }
assert (Hx : x = 1 + Z.of_nat (length l)).
{ pose proof (Hpos x ltac:(left)) as Hx1.
  destruct (Z.lt_trichotomy x (1 + Z.of_nat (length l))) as [Hlt|[|Hgt]]; [|done|].
  - specialize (Hall x). rewrite Hmem in Hall. lia.
  - assert (1 + Z.of_nat (length l) ∈ x :: l) as [|Hin]%elem_of_cons; [|lia|rewrite Hmem in Hin; lia].
    apply (Hdown x); [left|lia]. }
cbn [length]. rewrite Nat2Z.inj_succ, <- Z.add_1_r.
replace (seqZ 1 (Z.of_nat (length l) + 1)) with (seqZ 1 (Z.of_nat (length l)) ++ [x]).
- rewrite rev_app_distr. simpl. by rewrite <- Hl.
- rewrite (seqZ_app 1 (Z.of_nat (length l)) 1) by lia. by rewrite Hx.
Qed.
End order.

(** * Properties *)

Section properties.
Context {C T : Type} `{Document T} `{!Collection C T}.

(** The calls that change a collection, with the documents of which a delete
  failed and none has succeeded since. Such a delete may have removed any of
  the versions. *)
Inductive step : C * gset ObjectID -> C * gset ObjectID -> Prop :=
| step_save newDocumentID newID now documentID doc r c c' torn :
  Save newDocumentID newID now documentID doc c = (r, c') -> step (c, torn) (c', torn)
| step_delete documentID r c c' torn :
  DeleteAllVersions documentID c = (r, c') -> (forall e, r <> inr (Failure e)) ->
  step (c, torn) (c', torn ∖ {[documentID]})
| step_delete_fails documentID e c c' torn :
  DeleteAllVersions documentID c = (inr (Failure e), c') -> step (c, torn) (c', {[documentID]} ∪ torn).

(** The invariant: distinct numbers everywhere, and gapless ones of every
  document that no failed delete has torn. *)
Definition sound (s : C * gset ObjectID) : Prop :=
versions_distinct (docs s.1) /\ forall id, id ∉ s.2 -> versions_ok (of_document id (docs s.1)).

Lemma versions_ok_nil : versions_ok (@nil T).
Proof. constructor; [constructor|..]; by intros ? ?%elem_of_nil || by intros ? ? ?%elem_of_nil. Qed.

Lemma step_sound s s' : step s s' -> sound s -> sound s'.
Proof.
intros [newDocumentID newID now documentID doc r c c' torn Hs|documentID r c c' torn Hd Hne|documentID e c c' torn Hd] [Hw Hok]; cbn in *.
- apply Save_saved in Hs. split; [by eapply saved_distinct|]. intros id Hid. eapply saved_ok; [|by apply Hok].
  by apply saved_of_document.
- apply DeleteAllVersions_leaves in Hd as (Hs & Ho & Hz). split; [by eapply sublist_distinct|]. intros id Hid. cbn in *.
  destruct (decide (id = documentID)) as [->|Hn]; [rewrite Hz by done; apply versions_ok_nil|].
  rewrite Ho by done. apply Hok. set_solver.
- apply DeleteAllVersions_leaves in Hd as (Hs & Ho & _). split; [by eapply sublist_distinct|]. intros id Hid. cbn in *.
  rewrite Ho by set_solver. apply Hok. set_solver.
Qed.

(** C4: version numbers stay sound. From an empty collection, through any
  sequence of saves and deletes, of which any call may fail at any point,
  no two versions of a document share a number, the numbers are at least 1,
  and at most one version of a document is latest. The versions of a document
  of which no delete has failed part way since it was last deleted whole are
  moreover numbered 1, 2, ... without gaps, and the one marked latest is the
  highest ([torn_restarts] below: without that condition it need not be). *)
Theorem versions_invariant c0 c torn :
docs c0 = [] -> rtc step (c0, ∅) (c, torn) ->
versions_distinct (docs c) /\ forall id, id ∉ torn -> versions_ok (of_document id (docs c)).
Proof.
intros H0 Hr. change (sound (c, torn)). assert (sound (c0, ∅)) as Hok.
{ unfold sound. cbn. rewrite H0. split; [|intros; apply versions_ok_nil].
  constructor; [constructor|..]; by intros ? ?%elem_of_nil || by intros ? ? ?%elem_of_nil. }
clear H0. induction Hr as [|s0 s1 s2 Hs _ IH]; [done|]. apply IH. by eapply step_sound.
Qed.

(** a save appends. When it succeeds it returns the new latest version of
  its document, numbered one above all others; every stored version is still
  there, unchanged but for the latest mark of that document. *)
Theorem Save_appends newDocumentID newID now documentID doc c d c' :
versions_ok (docs c) -> Save newDocumentID newID now documentID doc c = (inl d, c') ->
doc_id d = targetOf newDocumentID documentID /\ latest d = true /\ ID (getEnvelope d) = newID /\
docs c' = map (fun x => if latestOf (doc_id d) x then unmark x else x) (docs c) ++ [d] /\
(forall x, x ∈ docs c -> doc_id x = doc_id d -> version x < version d) /\
(forall x, x ∈ docs c' -> doc_id x = doc_id d -> latest x = true -> x = d).
Proof.
intros Hok Hs. pose proof (Save_ok _ _ _ _ _ _ _ _ Hok Hs) as Hok'.
destruct (Save_inl _ _ _ _ _ _ _ _ Hs _ eq_refl) as (next & Hd & Hdocs & Hc & _).
assert (Hid : doc_id d = targetOf newDocumentID documentID) by (rewrite Hd; unfold doc_id; by rewrite get_set).
assert (Hl : latest d = true) by (rewrite Hd; unfold latest; by rewrite get_set).
assert (Hi : ID (getEnvelope d) = newID) by (rewrite Hd; by rewrite get_set).
rewrite <- Hid in *. split_and!; [done..| |].
- intros x Hx Hxi. set (x' := if latestOf (doc_id d) x then unmark x else x).
  assert (Hx' : x' ∈ docs c').
  { rewrite Hdocs, elem_of_app. left. apply list_elem_of_fmap. by exists x. }
  assert (Hf : doc_id x' = doc_id x /\ version x' = version x).
  { unfold x'. destruct (latestOf _ _); [|done]. by destruct (unmark_fields x) as (? & ? & _). }
  destruct Hf as [Hf1 Hf2].
  assert (version x' <= version d).
  { eapply (vo_latest _ Hok'); [|exact Hl|exact Hx'|congruence]. rewrite Hdocs, elem_of_app. right. left. }
  assert (version x' <> version d); [|lia]. intros Heq.
  rewrite Forall_forall in Hc. specialize (Hc x'). unfold conflict in Hc.
  unfold doc_id, version in *. rewrite Hf1, Hxi, Heq, !Z.eqb_refl, orb_true_r in Hc.
  discriminate Hc. apply list_elem_of_fmap. by exists x.
- intros x. rewrite Hdocs. intros [(y & -> & Hy)%list_elem_of_fmap| ->%list_elem_of_singleton]%elem_of_app; [|done].
  intros Hxi Hxl. exfalso. destruct (latestOf (doc_id d) y) eqn:E.
  + by destruct (unmark_fields y) as (_ & _ & ?); congruence.
  + unfold latestOf, ofDocument in E. unfold doc_id, latest in *. by rewrite Hxi, Hxl, Z.eqb_refl in E.
Qed.

(** A document without a latest version, whose first version is stored. *)
Definition latestless (documentID : ObjectID) (l : list T) : Prop :=
(exists d, d ∈ l /\ doc_id d = documentID /\ version d = 1) /\
(forall d, d ∈ l -> doc_id d = documentID -> latest d = false).

(** a save does not repair a document that a failed insert left without a
  latest version: that save fails, and leaves it so for the next one. *)
Theorem latestless_forever newDocumentID newID now documentID doc c r c' :
documentID <> NilObjectID -> latestless documentID (docs c) ->
Save newDocumentID newID now documentID doc c = (r, c') ->
(exists e, r = inr e) /\ latestless documentID (docs c').
Proof.
intros Hnil [(d1 & Hd1 & Hi1 & Hv1) Hnone]. unfold Save.
destruct (nextVersion documentID c) as [[next|e] c1] eqn:Hn;
  apply nextVersion_spec in Hn as (Hd & _ & Hnext).
2: { intros [= <- <-]. rewrite Hd. split; [eauto|]. split; [eauto|done]. }
assert (next = 1) as ->.
{ destruct (Hnext next eq_refl Hnil) as [(d & Hin & Hi & Hl & _)|[-> _]]; [|done].
  by rewrite Hnone in Hl. }
unfold targetOf. rewrite (proj2 (Z.eqb_neq _ _) Hnil).
destruct (updateMany (latestOf documentID) unmark c1) as [ru c2] eqn:Hu.
pose proof (updateMany_unmarked _ _ _ _ Hu) as Hun. rewrite Hd in Hun.
assert (Hless : latestless documentID (docs c2)).
{ split.
  - destruct (unmarked_elem_back _ _ _ _ Hun Hd1) as (e & ? & ? & ?). exists e. split_and!; congruence.
  - intros d Hin Hi. destruct (unmarked_elem _ _ _ _ Hun Hin) as (e & He & Hie & _ & Hle).
    destruct (latest d) eqn:Hl; [|done]. destruct (Hle eq_refl) as [Hl' _].
    rewrite Hnone in Hl'; congruence. }
destruct ru as [[]|e]; [|intros [= <- <-]; eauto].
destruct Hless as [(e1 & He1 & Hie1 & Hve1) Hnone2].
set (d := setEnvelope doc _).
assert (Hconf : ~ Forall (fun d' => conflict d' d = false) (docs c2)).
{ intros Hall. rewrite Forall_forall in Hall. specialize (Hall e1 He1). unfold conflict, d in Hall.
  rewrite get_set in Hall. cbn [ID DocumentID Version] in Hall. unfold doc_id, version in *.
  by rewrite Hie1, Hve1, !Z.eqb_refl, orb_true_r in Hall. }
destruct (insertOne d c2) as [[[]|e] c3] eqn:Hi.
- by apply insertOne_Ok in Hi as [? _].
- intros [= <- <-]. apply insertOne_Err in Hi as [->|[? _]]; [|done].
  split; [eauto|]. split; [eauto|done].
Qed.

(** ListVersions shows the whole history: for a sound collection it returns
  the versions of the document, all of them, numbered downwards to 1. *)
Theorem ListVersions_countdown documentID c items c' :
versions_ok (docs c) -> ListVersions documentID c = (inl items, c') ->
(forall d, d ∈ items <-> d ∈ docs c /\ doc_id d = documentID) /\
map version items = rev (seqZ 1 (Z.of_nat (length items))).
Proof.
intros Hok. unfold ListVersions.
destruct (find _ _ None c) as [[l|e] c1] eqn:Hf; [|done]. intros [= <- <-].
apply find_Ok in Hf. simpl in Hf.
assert (Hin : forall d, d ∈ l <-> d ∈ docs c /\ doc_id d = documentID).
{ intros d. rewrite Hf, descending_perm, !list_elem_of_In, filter_In. unfold ofDocument. by rewrite Z.eqb_eq. }
split; [done|].
assert (Hnd : NoDup (map version (List.filter (ofDocument documentID) (docs c)))).
{ pose proof (vo_unique _ Hok) as Hu. clear -Hu. induction (docs c) as [|d l IH]; simpl; [constructor|].
  simpl in Hu. apply NoDup_cons in Hu as [Hx Hu]. destruct (ofDocument documentID d) eqn:Ed; [|auto].
  simpl. apply NoDup_cons. split; [|auto]. intros Hin. apply Hx.
  apply list_elem_of_fmap in Hin as (e & Hv & He). apply list_elem_of_fmap. exists e.
  rewrite list_elem_of_In, filter_In, <- list_elem_of_In in He. destruct He as [He Hoe].
  unfold ofDocument, doc_id in *. apply Z.eqb_eq in Ed, Hoe. split; [|done]. congruence. }
rewrite <- (length_map version). apply countdown.
- assert (Hs := descending_strict version _ Hnd). fold (version (T := T)) in Hf.
  change (fun d : T => Version (getEnvelope d)) with (version (T := T)) in Hf. rewrite <- Hf in Hs.
  clear -Hs. induction Hs as [|d l Hs IH Hall]; simpl; constructor; [done|].
  apply Forall_forall. intros v (e & -> & He)%list_elem_of_fmap. rewrite Forall_forall in Hall. auto.
- intros v (d & -> & [Hd _]%Hin)%list_elem_of_fmap. by apply (vo_positive _ Hok).
- intros v n (d & -> & [Hd Hi]%Hin)%list_elem_of_fmap Hn.
  destruct (vo_contiguous _ Hok d n Hd Hn) as (e & He & Hie & <-).
  apply list_elem_of_fmap. exists e. split; [done|]. apply Hin. split; [done|congruence].
Qed.

(** Reading the pages of ListLatest one after the other. *)
Fixpoint pages (fuel : nat) (limit : Z) (cursor : ObjectID) (c : C) : (list (list T) + error) * C :=
match fuel with
| O => (inl [], c)
| S fuel' =>
    match ListLatest limit cursor c with
    | (inr e, c') => (inr e, c')
    | (inl (items, Some next, _), c') =>
        match pages fuel' limit next c' with
        | (inl rest, c'') => (inl (items :: rest), c'')
        | (inr e, c'') => (inr e, c'')
        end
    | (inl (items, None, _), c') => (inl [items], c')
    end
end.

(** The latest versions, newest first. *)
Definition latest_list (c : C) : list T := descending (fun d => ID (getEnvelope d)) (List.filter latest (docs c)).

(** The rows a page call selects from. *)
Definition selected (cursor : ObjectID) (d : T) : bool :=
IsLatest (getEnvelope d) && (if cursor =? NilObjectID then true else ID (getEnvelope d) <? cursor).

Definition rows (cursor : ObjectID) (l : list T) : list T :=
descending (fun d => ID (getEnvelope d)) (List.filter (selected cursor) l).

Definition pageLimit (limit : Z) : Z := if limit <=? 0 then defaultListLimit else limit.

Lemma ListLatest_Ok limit cursor c items next more c' :
ListLatest limit cursor c = (inl (items, next, more), c') ->
docs c' = docs c /\
((more = false /\ next = None /\ items = rows cursor (docs c)) \/
 (exists l1 y, next = Some (ID (getEnvelope y)) /\ items = l1 ++ [y] /\
    rows cursor (docs c) = items ++ drop (Z.to_nat (pageLimit limit)) (rows cursor (docs c)))).
Proof.
unfold ListLatest, pageLimit. set (lim := if limit <=? 0 then defaultListLimit else limit).
assert (Hlim : 1 <= lim) by (unfold lim, defaultListLimit; case_goal; bool_prop; lia).
destruct (find _ _ _ c) as [[l|e] c1] eqn:Hf; [|done].
assert (Hd := find_docs (selected cursor) (fun d => ID (getEnvelope d)) (Some (Z.to_nat (lim + 1))) c).
change (fun d : T => IsLatest (getEnvelope d) && _) with (selected cursor) in Hf.
rewrite Hf in Hd. simpl in Hd. apply find_Ok in Hf. cbn in Hf. fold (rows cursor (docs c)) in Hf.
destruct (Z.ltb_spec lim (Z.of_nat (length l))) as [Hmore|Hmore]; intros [= <- <- <- <-].
- split; [done|]. right. set (R := rows cursor (docs c)) in *.
  assert (Hlen : (Z.to_nat lim < length R)%nat).
  { rewrite Hf, length_take in Hmore. lia. }
  assert (Htake : take (Z.to_nat lim) l = take (Z.to_nat lim) R) by (rewrite Hf, take_take; f_equal; lia).
  rewrite Htake.
  destruct (take (Z.to_nat lim) R) as [|y l1 _] eqn:HR using rev_ind.
  { apply (f_equal length) in HR. rewrite length_take in HR. simpl in HR. lia. }
  exists l1, y. rewrite last_snoc. split_and!; [done..|]. by rewrite <- HR, take_drop.
- split; [done|]. left. split_and!; [done..|]. rewrite Hf, take_ge; [done|].
  rewrite Hf, length_take in Hmore. lia.
Qed.

(** The rows behind the cursor of the next page. *)
Lemma rows_next cursor l l1 y l2 :
NoDup (map (fun d => ID (getEnvelope d)) l) -> (forall d, d ∈ l -> ID (getEnvelope d) <> NilObjectID) ->
rows cursor l = l1 ++ y :: l2 -> rows (ID (getEnvelope y)) l = l2.
Proof.
intros Hnd Hnil HR. set (key := fun d : T => ID (getEnvelope d)).
assert (Hs : StronglySorted (fun a b => key b < key a) (rows cursor l)).
{ apply descending_strict. clear -Hnd. induction l as [|d l IH]; simpl; [constructor|].
  simpl in Hnd. apply NoDup_cons in Hnd as [Hx Hnd]. destruct (selected cursor d); [|auto].
  simpl. apply NoDup_cons. split; [|auto]. intros Hin. apply Hx.
  apply list_elem_of_fmap in Hin as (e & Heq & He). apply list_elem_of_fmap. exists e.
  split; [done|]. by rewrite list_elem_of_In, filter_In, <- list_elem_of_In in He; destruct He. }
rewrite HR in Hs. rewrite <- (strict_after key l1 y l2 Hs), <- HR. unfold rows. rewrite descending_keep.
f_equal.
assert (Hy : y ∈ l /\ selected cursor y = true).
{ assert (y ∈ rows cursor l) as Hin by (rewrite HR, elem_of_app; right; left).
  unfold rows in Hin. by rewrite descending_perm, list_elem_of_In, filter_In, <- list_elem_of_In in Hin. }
destruct Hy as [Hyl Hys]. specialize (Hnil y Hyl). clear -Hys Hnil.
induction l as [|d l IH]; [done|]. simpl. rewrite IH. unfold selected in *.
rewrite (proj2 (Z.eqb_neq _ _) Hnil). unfold key.
destruct (IsLatest (getEnvelope d)); simpl; [|done].
apply andb_true_iff in Hys as [_ Hys].
destruct (cursor =? NilObjectID); simpl; [done|].
destruct (Z.ltb_spec (ID (getEnvelope d)) (ID (getEnvelope y))) as [Hlt|Hge].
- apply Z.ltb_lt in Hys. rewrite (proj2 (Z.ltb_lt _ _)) by lia. simpl.
  by rewrite (proj2 (Z.ltb_lt _ _)).
- destruct (ID (getEnvelope d) <? cursor); simpl; [|done]. by rewrite (proj2 (Z.ltb_ge _ _)).
Qed.

Lemma pages_rows fuel limit cursor c ps c' :
NoDup (map (fun d => ID (getEnvelope d)) (docs c)) ->
(forall d, d ∈ docs c -> ID (getEnvelope d) <> NilObjectID) ->
(length (rows cursor (docs c)) < fuel)%nat ->
pages fuel limit cursor c = (inl ps, c') -> concat ps = rows cursor (docs c).
Proof.
intros Hnd Hnil. revert cursor c ps c' Hnd Hnil. induction fuel as [|fuel IH]; intros cursor c ps c' Hnd Hnil Hf;
  [lia|]. simpl.
destruct (ListLatest limit cursor c) as [[[[items next] more]|e] c1] eqn:Hl; [|done].
destruct (ListLatest_Ok _ _ _ _ _ _ _ Hl) as [Hd [(-> & -> & ->)|(l1 & y & -> & -> & Hrows)]].
- intros [= <- <-]. simpl. by rewrite app_nil_r.
- rewrite <- app_assoc in Hrows. cbn [app] in Hrows.
  pose proof (rows_next _ _ _ _ _ Hnd Hnil Hrows) as Hnext.
  destruct (pages fuel limit (ID (getEnvelope y)) c1) as [[rest|e] c2] eqn:Hp; [|done].
  intros [= <- <-]. apply IH in Hp; [|by rewrite Hd..|].
  + simpl. rewrite Hp, Hd, Hnext, <- app_assoc. done.
  + rewrite Hd, Hnext. rewrite Hrows, length_app in Hf. simpl in Hf. lia.
Qed.

(** reading ListLatest page after page, each call given the cursor the last
  one returned, yields every document's latest version exactly once, newest
  id first, whatever the page size; it takes one call more than there are
  such versions at the most. *)
Theorem ListLatest_pages limit c ps c' :
NoDup (map (fun d => ID (getEnvelope d)) (docs c)) ->
(forall d, d ∈ docs c -> ID (getEnvelope d) <> NilObjectID) ->
pages (S (length (latest_list c))) limit NilObjectID c = (inl ps, c') ->
concat ps = latest_list c.
Proof.
intros Hnd Hnil Hp.
assert (Heq : rows NilObjectID (docs c) = latest_list c).
{ unfold rows, latest_list. f_equal. apply filter_ext. intros d. unfold selected, latest.
  by rewrite Z.eqb_refl, andb_true_r. }
rewrite <- Heq in *. eapply pages_rows; [done..| |exact Hp]. lia.
Qed.
End properties.

(** * A collection in memory *)

Module Listed.
(** A document that is its envelope and a payload. *)
Definition document : Type := Envelope * string.

#[export] Instance Document_document : Document document.
Proof. by refine {| getEnvelope := fst; setEnvelope := fun d e => (e, d.2) |}. Defined.

(** What happens to a call: it works, fails before the write, after it, or,
  for a delete, when it has removed one document. *)
Inductive fault : Type := Works | Fails | FailsAfter | FailsMidway.

Section collections.
Context `{Document T}.

Record collection : Type := { stored : list T; faults : list fault }.

Definition next_fault (c : collection) : fault := hd Works (faults c).
Definition with_docs (l : list T) (c : collection) : collection :=
{| stored := l; faults := tl (faults c) |}.

Definition write {A} (ok : A) (l : list T) (c : collection) : result A * collection :=
match next_fault c with
| Works => (Ok ok, with_docs l c)
| Fails | FailsMidway => (Err "connection lost", with_docs (stored c) c)
| FailsAfter => (Err "acknowledgement lost", with_docs l c)
end.

(** A read, which leaves the documents alone. *)
Definition read {A} (ok : A) (c : collection) : result A * collection :=
match next_fault c with
| Works => (Ok ok, with_docs (stored c) c)
| _ => (Err "connection lost", with_docs (stored c) c)
end.

Definition find_list (p : T -> bool) (field : T -> Z) (limit : option nat) (c : collection)
: list T :=
let sorted := descending field (List.filter p (stored c)) in
match limit with Some n => take n sorted | None => sorted end.

Definition insert_list (d : T) (c : collection) : result unit * collection :=
if existsb (fun d' => conflict d' d) (stored c) then (Err "duplicate key", with_docs (stored c) c)
else write tt (stored c ++ [d]) c.

Lemma no_conflict d c :
existsb (fun d' => conflict d' d) (stored c) = false -> Forall (fun d' => conflict d' d = false) (stored c).
Proof.
intros He. apply Forall_forall. intros d' Hd'. destruct (conflict d' d) eqn:E; [|done].
assert (existsb (fun d' => conflict d' d) (stored c) = true); [|congruence].
apply existsb_exists. exists d'. by rewrite <- list_elem_of_In.
Qed.

(** Without the last of those a delete asks for. *)
Fixpoint remove_one (p : T -> bool) (l : list T) : list T :=
match l with
| [] => []
| d :: l => if p d && negb (existsb p l) then l else d :: remove_one p l
end.

Lemma remove_one_sublist p l : sublist (remove_one p l) l.
Proof. induction l as [|d l IH]; cbn; [constructor|]. destruct (_ && _); [by apply sublist_cons|by constructor]. Qed.

Lemma remove_one_others p l : List.filter (fun d => negb (p d)) (remove_one p l) = List.filter (fun d => negb (p d)) l.
Proof.
induction l as [|d l IH]; [done|]. cbn. destruct (p d) eqn:E; cbn; [|by rewrite E; cbn; rewrite IH].
destruct (existsb p l); cbn; [by rewrite E|done].
Qed.

Definition delete_list (p : T -> bool) (c : collection) : result nat * collection :=
match next_fault c with
| FailsMidway => (Err "connection lost", with_docs (remove_one p (stored c)) c)
| _ => write (length (List.filter p (stored c))) (List.filter (fun d => negb (p d)) (stored c)) c
end.

#[export] Instance Collection_list : Collection collection T.
Proof.
refine {|
  docs := stored;
  findOne := fun p c => read (List.find p (stored c)) c;
  find := fun p field limit c => read (find_list p field limit c) c;
  updateMany := fun p f c => write tt (map (fun d => if p d then f d else d) (stored c)) c;
  insertOne := insert_list;
  deleteMany := delete_list;
  findOne_docs := _; findOne_Some := _; findOne_None := _; find_docs := _; find_Ok := _;
  updateMany_Ok := _; updateMany_Err := _; insertOne_Ok := _; insertOne_Err := _;
  deleteMany_Ok := _; deleteMany_Err := _ |}.
- intros p c. unfold read. by destruct (next_fault c).
- intros p c d c'. unfold read. destruct (next_fault c); intros [= Hf <-].
  apply find_some in Hf. by rewrite list_elem_of_In.
- intros p c c'. unfold read. destruct (next_fault c); intros [= Hf <-] d.
  rewrite list_elem_of_In. by apply find_none.
- intros p field limit c. unfold read. by destruct (next_fault c).
- intros p field limit c l c'. unfold read. destruct (next_fault c); by intros [= <- <-].
- intros p f c c'. unfold write. destruct (next_fault c); by intros [= <-].
- intros p f c e c'. unfold write. destruct (next_fault c); intros [= <- <-]; simpl;
    try (apply Forall_Forall2_diag, Forall_forall; by auto).
  apply Forall2_fmap_r, Forall_Forall2_diag, Forall_forall. intros d _. simpl. destruct (p d) eqn:E; [by right|by left].
- intros d c c'. unfold insert_list, write. destruct (existsb _ _) eqn:He; [done|].
  destruct (next_fault c); intros [= <-]. split; [by apply no_conflict|done].
- intros d c e c'. unfold insert_list, write. destruct (existsb _ _) eqn:He; [intros [= <- <-]; by left|].
  destruct (next_fault c); intros [= <- <-]; try (by left). right. split; [by apply no_conflict|done].
- intros p c n c'. unfold delete_list, write. destruct (next_fault c); by intros [= <- <-].
- intros p c e c'. unfold delete_list, write. destruct (next_fault c); intros [= <- <-]; [done| |].
  + split; [by apply filter_sublist|by apply filter_idemp].
  + split; [apply remove_one_sublist|apply remove_one_others].
Defined.

Definition empty (f : list fault) : collection := {| stored := []; faults := f |}.
End collections.
Arguments collection : clear implicits.
#[export] Existing Instance Collection_list.
Definition blank : document :=
({| ID := 0; DocumentID := 0; Version := 0; IsLatest := false; CreatedAt := 0 |}, "flow").

(** Two saves of one document, then a save whose insert fails. *)
Definition one : collection document := (Save 7 1 100 0 blank (empty [])).2.
Definition two : collection document := (Save 9 2 101 7 blank one).2.
Definition broken : collection document :=
(Save 9 3 102 7 blank {| stored := stored two; faults := [Works; Works; Fails] |}).2.
End Listed.
Import Listed.

(** A failed delete that took the latest version of the two: the first one is
  left, none is latest, the document cannot be saved, and once the delete has
  gone further it starts again below what is left. *)
Definition fragile : collection document := empty (replicate 5 Works ++ [FailsMidway]).
Definition one' : collection document := (Save 7 1 100 0 blank fragile).2.
Definition two' : collection document := (Save 9 2 101 7 blank one').2.
Definition torn : collection document := (DeleteAllVersions 7 two').2.

Example torn_restarts :
map (fun d => (version d, latest d)) (docs torn) = [(1, false)] /\
(exists e, (Save 9 3 102 7 blank torn).1 = inr (Failure e)) /\
map (fun d => (version d, latest d))
  (docs (Save 9 3 102 7 blank {| stored := [(({| ID := 2; DocumentID := 7; Version := 2; IsLatest := false; CreatedAt := 101 |}), "flow")]; faults := [] |}).2)
= [(2, false); (1, true)].
Proof. split_and!; [by vm_compute|eexists; by vm_compute|by vm_compute]. Qed.

Lemma versions_invariant_witness :
versions_distinct (docs torn) /\ forall id, id ∉ ({[7]} ∪ ∅ : gset ObjectID) -> versions_ok (of_document id (docs torn)).
Proof.
  apply (versions_invariant fragile); [reflexivity|].
  eapply (rtc_l _ _ (one', ∅)); [|eapply (rtc_l _ _ (two', ∅)); [|eapply rtc_once]].
  - by eapply (step_save 7 1 100 0 blank).
  - by eapply (step_save 9 2 101 7 blank).
  - by eapply (step_delete_fails 7).
Defined.

Lemma versions_two : versions_ok (docs two).
Proof.
  eapply (Save_ok 9 2 101 7 blank one); [|reflexivity].
  eapply (Save_ok 7 1 100 0 blank (empty [])); [|reflexivity].
  constructor; [constructor|..]; by intros ? ?%elem_of_nil || by intros ? ? ?%elem_of_nil.
Qed.

Lemma Save_appends_witness : exists d c', Save 9 3 102 7 blank two = (inl d, c') /\ version d = 3 /\ doc_id d = 7.
Proof.
  destruct (Save 9 3 102 7 blank two) as [[d|e] c'] eqn:Hs; [|vm_compute in Hs; discriminate Hs].
  exists d, c'. destruct (Save_appends 9 3 102 7 blank two d c' versions_two Hs) as (Hid & _).
  split_and!; [reflexivity| |exact Hid]. vm_compute in Hs. by injection Hs as <- _.
Defined.

Lemma latestless_forever_witness :
  exists e c', Save 9 4 103 7 blank broken = (inr e, c') /\ latestless 7 (docs c').
Proof.
  destruct (Save 9 4 103 7 blank broken) as [r c'] eqn:Hs.
  destruct (latestless_forever 9 4 103 7 blank broken r c') as [[e ->] Hl]; [discriminate| |exact Hs|].
  - split.
    + eexists. split; [left|]. split; reflexivity.
    + intros d Hd Hi. repeat (apply elem_of_cons in Hd as [->|Hd]; [reflexivity|]). by apply elem_of_nil in Hd.
  - by exists e, c'.
Defined.

Lemma ListVersions_countdown_witness :
  exists items c', ListVersions 7 two = (inl items, c') /\ map version items = [2; 1].
Proof.
  destruct (ListVersions 7 two) as [[items|e] c'] eqn:Hl; [|vm_compute in Hl; discriminate Hl].
  exists items, c'. split; [reflexivity|].
  destruct (ListVersions_countdown 7 two items c' versions_two Hl) as [_ ->].
  vm_compute in Hl. injection Hl as <- _. reflexivity.
Defined.

Lemma ListLatest_pages_witness :
  exists ps c', pages (S (length (latest_list two))) 1 NilObjectID two = (inl ps, c') /\
    concat ps = latest_list two.
Proof.
  destruct (pages (S (length (latest_list two))) 1 NilObjectID two) as [[ps|e] c'] eqn:Hp;
    [|vm_compute in Hp; discriminate Hp].
  exists ps, c'. split; [reflexivity|]. apply (ListLatest_pages 1 two ps c'); [| |exact Hp].
  - apply (bool_decide_unpack _). vm_compute. exact I.
  - intros d Hd. repeat (apply elem_of_cons in Hd as [->|Hd]; [discriminate|]). by apply elem_of_nil in Hd.
Defined.
