(* ===== verification/Regex.v ===== *)
(** The part of Go's [regexp] the scanner and the link extraction use: RE2
    syntax as a datatype, and leftmost-first matching with capture groups.

    A state holds the position, the character before it and the text after it,
    and the groups captured so far. [paths] lists every way an expression can
    match from a state, most preferred first: an alternative before the next, a
    repetition before its end. [find] takes the head at the leftmost position
    that has one, which is the match the package documents. [Matches] is the
    same thing as a relation, and [elem_of_paths] that the two agree.

    Patterns are matched on bytes, and [(?i)] folds ASCII letters. No pattern of
    the program repeats an expression that can match the empty string. *)
From stdpp Require Import strings list.
From Stdlib Require Import Ascii ZArith Lia.
From Stdlib Require String.
From S2P Require Import Prelude.

(** * Syntax *)

Inductive regex : Type :=
| REmpty
| RSet (accept : ascii -> bool)
| RSeq (first second : regex)
| RAlt (first second : regex)
| RStar (body : regex)
| RGroup (index : nat) (body : regex)
| RBegin
| REnd
| RBoundary.

Definition RPlus (r : regex) : regex := RSeq r (RStar r).
Definition ROpt (r : regex) : regex := RAlt r REmpty.

(** [r{m,m+n}]: greedy, so the longer count first. *)
Fixpoint RUpTo (n : nat) (r : regex) : regex :=
  match n with 0 => REmpty | S n => ROpt (RSeq r (RUpTo n r)) end.
Fixpoint RTimes (n : nat) (r : regex) : regex :=
  match n with 0 => REmpty | S n => RSeq r (RTimes n r) end.
Definition RBetween (low high : nat) (r : regex) : regex := RSeq (RTimes low r) (RUpTo (high - low) r).

Definition RChar (c : ascii) : regex := RSet (Ascii.eqb c).
Definition ROneOf (chars : string) : regex := RSet (fun c => existsb (Ascii.eqb c) (String.list_ascii_of_string chars)).
Definition RNoneOf (chars : string) : regex := RSet (fun c => negb (existsb (Ascii.eqb c) (String.list_ascii_of_string chars))).

Fixpoint RText (s : string) : regex :=
  match s with EmptyString => REmpty | String c rest => RSeq (RChar c) (RText rest) end.

(** Text under [(?i)], given in lower case. *)
Fixpoint RFold (s : string) : regex :=
  match s with
  | EmptyString => REmpty
  | String c rest => RSeq (RSet (fun x => Ascii.eqb (lower_ascii x) c)) (RFold rest)
  end.

Fixpoint RAny (l : list regex) : regex :=
  match l with [] => RSet (fun _ => false) | [r] => r | r :: rest => RAlt r (RAny rest) end.

Fixpoint RSeqs (l : list regex) : regex :=
  match l with [] => REmpty | [r] => r | r :: rest => RSeq r (RSeqs rest) end.

Definition is_digit (c : ascii) : bool := let n := nat_of_ascii c in (48 <=? n)%nat && (n <=? 57)%nat.

Definition is_word (c : ascii) : bool :=
  let n := nat_of_ascii (lower_ascii c) in
  is_digit c || ((97 <=? n)%nat && (n <=? 122)%nat) || (n =? 95)%nat.

(** [\d] and RE2's [\s], which leaves out the vertical tab. *)
Definition RDigit : regex := RSet is_digit.
Definition RSpace : regex := RSet (fun c => is_space c && negb (nat_of_ascii c =? 11)%nat).

(** * Matching *)

Record state : Type := {
  position : nat;
  before : option ascii;
  rest : string;
  groups : list (nat * (nat * nat));
}.

Definition advance (c : ascii) (tail : string) (st : state) : state :=
  {| position := S (position st); before := Some c; rest := tail; groups := groups st |}.

Definition capture (index start : nat) (st : state) : state :=
  {| position := position st; before := before st; rest := rest st;
     groups := (index, (start, position st)) :: groups st |}.

Definition word_at (c : option ascii) : bool := match c with Some c => is_word c | None => false end.
Definition next_char (s : string) : option ascii := match s with EmptyString => None | String c _ => Some c end.

Definition at_boundary (st : state) : bool := xorb (word_at (before st)) (word_at (next_char (rest st))).

(** Repetitions of [body], at most [n] of them, each making progress. *)
Fixpoint repeated (body : state -> list state) (n : nat) (st : state) : list state :=
  match n with
  | 0 => [st]
  | S n =>
      flat_map (fun st' => if (position st' =? position st)%nat then [] else repeated body n st') (body st) ++ [st]
  end.

Fixpoint paths (r : regex) (st : state) : list state :=
  match r with
  | REmpty => [st]
  | RSet accept =>
      match rest st with
      | String c tail => if accept c then [advance c tail st] else []
      | EmptyString => []
      end
  | RSeq first second => flat_map (paths second) (paths first st)
  | RAlt first second => paths first st ++ paths second st
  | RStar body => repeated (paths body) (String.length (rest st)) st
  | RGroup index body => map (capture index (position st)) (paths body st)
  | RBegin => match before st with None => [st] | Some _ => [] end
  | REnd => match rest st with EmptyString => [st] | String _ _ => [] end
  | RBoundary => if at_boundary st then [st] else []
  end.

(** A match: where it begins, and the state it ends in. *)
Record found : Type := { fStart : nat; fState : state }.

Definition fEnd (m : found) : nat := position (fState m).

(** The leftmost match from [st] on, at most [fuel] characters further. *)
Fixpoint find_from (fuel : nat) (r : regex) (st : state) : option found :=
  match paths r st with
  | st' :: _ => Some {| fStart := position st; fState := st' |}
  | [] =>
      match fuel, rest st with
      | S fuel, String c tail => find_from fuel r (advance c tail st)
      | _, _ => None
      end
  end.

Definition start_state (s : string) : state := {| position := 0; before := None; rest := s; groups := [] |}.

(** [FindStringSubmatchIndex]. *)
Definition find (r : regex) (s : string) : option found := find_from (String.length s) r (start_state s).

(** [MatchString]. *)
Definition is_match (r : regex) (s : string) : bool := if find r s then true else false.

(** The text between two offsets. *)
Definition slice (s : string) (low high : nat) : string := str_take (high - low) (str_drop low s).

Definition fText (s : string) (m : found) : string := slice s (fStart m) (fEnd m).

(** Where a group matched, and what. *)
Definition fGroup (index : nat) (m : found) : option (nat * nat) :=
  snd <$> List.find (fun g => Nat.eqb g.1 index) (groups (fState m)).

Definition fGroupText (s : string) (index : nat) (m : found) : string :=
  match fGroup index m with Some (low, high) => slice s low high | None => "" end.

Lemma fGroupText_slice s i m low high :
  List.find (fun g => Nat.eqb g.1 i) (groups (fState m)) = Some (i, (low, high)) -> fGroupText s i m = slice s low high.
Proof. unfold fGroupText, fGroup. by intros ->. Qed.

(** [FindAllStringSubmatchIndex] with no limit, each match beginning where the
    last one ended. *)
Fixpoint find_all_from (fuel : nat) (r : regex) (st : state) : list found :=
  match fuel with
  | 0 => []
  | S fuel =>
      match find_from (String.length (rest st)) r st with
      | None => []
      | Some m =>
          m :: find_all_from fuel r
            {| position := position (fState m); before := before (fState m); rest := rest (fState m); groups := [] |}
      end
  end.

Definition find_all (r : regex) (s : string) : list found :=
  find_all_from (S (String.length s)) r (start_state s).

(** [ReplaceAllString] with a literal replacement. *)
Fixpoint replace_from (position : nat) (s replacement : string) (matches : list found) : string :=
  match matches with
  | [] => str_drop position s
  | m :: others => slice s position (fStart m) +:+ replacement +:+ replace_from (fEnd m) s replacement others
  end.

Definition replace_all (r : regex) (s replacement : string) : string := replace_from 0 s replacement (find_all r s).

(** * Matching as a relation *)

Inductive Matches : regex -> state -> state -> Prop :=
| MEmpty st : Matches REmpty st st
| MSet accept st c tail : rest st = String c tail -> accept c = true -> Matches (RSet accept) st (advance c tail st)
| MSeq first second st st1 st2 : Matches first st st1 -> Matches second st1 st2 -> Matches (RSeq first second) st st2
| MAltL first second st st' : Matches first st st' -> Matches (RAlt first second) st st'
| MAltR first second st st' : Matches second st st' -> Matches (RAlt first second) st st'
| MStarEnd body st : Matches (RStar body) st st
| MStarMore body st st1 st2 :
    Matches body st st1 -> position st1 <> position st -> Matches (RStar body) st1 st2 -> Matches (RStar body) st st2
| MGroup index body st st' : Matches body st st' -> Matches (RGroup index body) st (capture index (position st) st')
| MBegin st : before st = None -> Matches RBegin st st
| MEnd st : rest st = "" -> Matches REnd st st
| MBoundary st : at_boundary st = true -> Matches RBoundary st st.

(** A match consumes a prefix of the text and moves the position past it. *)
Lemma Matches_consumes r st st' :
  Matches r st st' -> exists w, rest st = w +:+ rest st' /\ position st' = (position st + String.length w)%nat.
Proof.
  assert (forall st, exists w, rest st = w +:+ rest st /\ position st = (position st + String.length w)%nat) as Hself.
  { intros s. exists "". simpl. split; [done|lia]. }
  induction 1 as [| |? ? ? ? ? _ (w1 & H1 & P1) _ (w2 & H2 & P2)| | | |? ? ? ? _ (w1 & H1 & P1) _ _ (w2 & H2 & P2)| | | |]; try done.
  - exists (String c ""). simpl. split; [done|lia].
  - exists (w1 +:+ w2). rewrite H1, H2, str_app_assoc, str_length_app. split; [done|lia].
  - exists (w1 +:+ w2). rewrite H1, H2, str_app_assoc, str_length_app. split; [done|lia].
Qed.

Lemma Matches_progress r st st' :
  Matches r st st' -> position st' <> position st -> (String.length (rest st') < String.length (rest st))%nat.
Proof.
  intros (w & -> & Hp)%Matches_consumes Hne. rewrite str_length_app. lia.
Qed.

Lemma repeated_sound body n st st' :
  (forall st st', st' ∈ paths body st -> Matches body st st') ->
  st' ∈ repeated (paths body) n st -> Matches (RStar body) st st'.
Proof.
  intros Hb. revert st. induction n as [|n IH]; intros st; simpl.
  { intros ->%list_elem_of_singleton. constructor. }
  rewrite elem_of_app, list_elem_of_singleton. intros [Hin| ->]; [|constructor].
  apply list_elem_of_In, in_flat_map in Hin as (st1 & H1 & H2). rewrite <- list_elem_of_In in H1, H2.
  destruct (Nat.eqb_spec (position st1) (position st)); [by apply elem_of_nil in H2|].
  econstructor; [by apply Hb|done|by apply IH].
Qed.

Lemma repeated_complete body n st st' :
  (forall st st', Matches body st st' -> st' ∈ paths body st) ->
  Matches (RStar body) st st' -> (String.length (rest st) <= n)%nat -> st' ∈ repeated (paths body) n st.
Proof.
  intros Hb Hm. remember (RStar body) as r eqn:Hr. revert n.
  induction Hm as [| | | | |b s|b s s1 s2 H1 _ Hne H2 IH2| | | |]; try done; intros n Hn; injection Hr as ->.
  - destruct n; simpl; [by left|]. apply elem_of_app. right. by left.
  - pose proof (Matches_progress _ _ _ H1 Hne) as Hlt. destruct n as [|n]; [lia|]. simpl.
    apply elem_of_app. left. apply list_elem_of_In, in_flat_map. exists s1.
    rewrite <- !list_elem_of_In. split; [by apply Hb|].
    rewrite (proj2 (Nat.eqb_neq _ _) Hne). apply IH2; [done|lia].
Qed.

(** The matcher finds every match and nothing else. *)
Lemma elem_of_paths r st st' : st' ∈ paths r st <-> Matches r st st'.
Proof.
  revert st st'. induction r as [|accept|r1 IH1 r2 IH2|r1 IH1 r2 IH2|body IH|index body IH| | |]; intros st st'; simpl.
  - rewrite list_elem_of_singleton. split; [intros ->; constructor|by inversion 1].
  - split.
    + destruct (rest st) as [|c tail] eqn:Hr; [by intros ?%elem_of_nil|].
      destruct (accept c) eqn:Ha; [|by intros ?%elem_of_nil]. intros ->%list_elem_of_singleton. by constructor.
    + inversion 1 as [|? ? c tail Hr Ha| | | | | | | | |]; subst. rewrite Hr, Ha. by left.
  - rewrite list_elem_of_In, in_flat_map. setoid_rewrite <- list_elem_of_In. setoid_rewrite IH1. setoid_rewrite IH2. split.
    + intros (st1 & H1 & H2). by econstructor.
    + inversion 1; subst. eauto.
  - rewrite elem_of_app, IH1, IH2. split; [intros [?|?]; by constructor|]. inversion 1; subst; auto.
  - split.
    + apply repeated_sound. apply IH.
    + intros Hm. apply repeated_complete; [apply IH|done|done].
  - rewrite list_elem_of_fmap. setoid_rewrite IH. split; [intros (? & -> & ?); by constructor|].
    inversion 1; subst. eauto.
  - split.
    + destruct (before st) eqn:Hb; [by intros ?%elem_of_nil|]. intros ->%list_elem_of_singleton. by constructor.
    + inversion 1 as [| | | | | | | |? Hb| |]; subst. rewrite Hb. by left.
  - split.
    + destruct (rest st) eqn:Hb; [|by intros ?%elem_of_nil]. intros ->%list_elem_of_singleton. by constructor.
    + inversion 1 as [| | | | | | | | |? Hb|]; subst. rewrite Hb. by left.
  - split.
    + destruct (at_boundary st) eqn:Hb; [|by intros ?%elem_of_nil]. intros ->%list_elem_of_singleton. by constructor.
    + inversion 1 as [| | | | | | | | | |? Hb]; subst. rewrite Hb. by left.
Qed.

(** ** Leftmost matches *)

(** The state at an offset of the text. *)
Fixpoint state_from (n : nat) (st : state) : state :=
  match n, rest st with
  | S n, String c tail => state_from n (advance c tail st)
  | _, _ => st
  end.

Definition state_at (s : string) (n : nat) : state := state_from n (start_state s).

Lemma find_from_spec fuel r st :
  (String.length (rest st) <= fuel)%nat ->
  match find_from fuel r st with
  | Some m =>
      exists n, fStart m = position (state_from n st) /\ Matches r (state_from n st) (fState m) /\
        (n <= String.length (rest st))%nat /\
        forall k st', (k < n)%nat -> ~ Matches r (state_from k st) st'
  | None => forall n st', ~ Matches r (state_from n st) st'
  end.
Proof.
  revert st. induction fuel as [|fuel IH]; intros st Hlen; simpl.
  - destruct (paths r st) as [|st' others] eqn:Hp.
    + intros n st'. replace (state_from n st) with st.
      * intros Hm%elem_of_paths. rewrite Hp in Hm. by apply elem_of_nil in Hm.
      * destruct (rest st) eqn:Hr; [|simpl in Hlen; lia]. destruct n; simpl; by rewrite ?Hr.
    + exists 0. simpl. split_and!; [done| |lia|intros; lia]. apply elem_of_paths. rewrite Hp. by left.
  - destruct (paths r st) as [|st' others] eqn:Hp.
    + assert (forall st', ~ Matches r st st') as Hno.
      { intros st' Hm%elem_of_paths. rewrite Hp in Hm. by apply elem_of_nil in Hm. }
      destruct (rest st) as [|c tail] eqn:Hr.
      * intros n st'. destruct n; simpl; rewrite ?Hr; apply Hno.
      * specialize (IH (advance c tail st)). simpl in IH, Hlen. specialize (IH ltac:(lia)).
        destruct (find_from fuel r (advance c tail st)) as [m|].
        -- destruct IH as (n & H1 & H2 & H3 & H4). exists (S n). simpl. rewrite Hr. split_and!; [done..|lia|].
           intros [|k] st' Hk; simpl; [apply Hno|]. rewrite Hr. apply H4. lia.
        -- intros [|n] st'; simpl; [apply Hno|]. rewrite Hr. apply IH.
    + exists 0. simpl. split_and!; [done| |lia|intros; lia]. apply elem_of_paths. rewrite Hp. by left.
Qed.

Lemma state_from_rest n st : rest (state_from n st) = str_drop n (rest st).
Proof. revert st. induction n as [|n IH]; intros st; simpl; [done|]. destruct (rest st) eqn:Hr; [done|]. by rewrite IH. Qed.

Lemma state_from_position n st :
  (n <= String.length (rest st))%nat -> position (state_from n st) = (position st + n)%nat.
Proof.
  revert st. induction n as [|n IH]; intros st Hn; simpl; [lia|].
  destruct (rest st) eqn:Hr; simpl in Hn; [lia|]. rewrite IH; simpl; lia.
Qed.

Lemma state_at_rest s n : rest (state_at s n) = str_drop n s.
Proof. apply state_from_rest. Qed.

Lemma find_spec r s :
  match find r s with
  | Some m =>
      (fStart m <= String.length s)%nat /\ Matches r (state_at s (fStart m)) (fState m) /\
      forall k st', (k < fStart m)%nat -> ~ Matches r (state_at s k) st'
  | None => forall n st', ~ Matches r (state_at s n) st'
  end.
Proof.
  unfold find. pose proof (find_from_spec (String.length s) r (start_state s) (Nat.le_refl _)) as Hf.
  destruct (find_from _ _ _) as [m|]; [|done]. destruct Hf as (n & H1 & H2 & H3 & H4). simpl in H3.
  rewrite state_from_position in H1 by done. simpl in H1. subst n. done.
Qed.

Lemma is_match_spec r s : is_match r s = true <-> exists n st', Matches r (state_at s n) st'.
Proof.
  unfold is_match. pose proof (find_spec r s) as Hf. destruct (find r s) as [m|].
  - split; [|done]. intros _. destruct Hf as (_ & Hm & _). eauto.
  - split; [done|]. intros (n & st' & Hm). by apply Hf in Hm.
Qed.

(** ** What simple expressions match *)

(** The state after the text [w] has been read, nothing captured. *)
Fixpoint consume (w : string) (st : state) : state :=
  match w with
  | EmptyString => st
  | String c w => consume w (advance c (str_drop 1 (rest st)) st)
  end.

Lemma consume_rest w st : rest (consume w st) = str_drop (String.length w) (rest st).
Proof.
  revert st. induction w as [|c w IH]; intros st; cbn [consume String.length]; [by rewrite str_drop_0|].
  rewrite IH. simpl. by destruct (rest st); simpl; rewrite ?str_drop_0; destruct (String.length w).
Qed.

Lemma consume_position w st : position (consume w st) = (position st + String.length w)%nat.
Proof. revert st. induction w as [|c w IH]; intros st; simpl; [lia|]. rewrite IH. simpl. lia. Qed.

Lemma consume_groups w st : groups (consume w st) = groups st.
Proof. revert st. induction w as [|c w IH]; intros st; simpl; [done|]. by rewrite IH. Qed.

Lemma consume_before w st : w <> "" -> before (consume w st) <> None.
Proof.
  intros Hw. assert (forall w st, before st <> None -> before (consume w st) <> None) as Hk.
  { clear. induction w as [|c w IH]; intros st Hb; simpl; [done|]. by apply IH. }
  destruct w as [|c w]; [done|]. simpl. by apply Hk.
Qed.

(** Every character of [w] is one of [f]'s. *)
Fixpoint str_forall (f : ascii -> bool) (w : string) : bool :=
  match w with EmptyString => true | String c w => f c && str_forall f w end.

(** [w] is next, and the match reads exactly it. *)
Definition reads (w : string) (st st' : state) : Prop := has_prefix w (rest st) = true /\ st' = consume w st.

Lemma reads_rest w st st' : reads w st st' -> rest st = w +:+ rest st'.
Proof. intros [(tail & Ht)%has_prefix_spec ->]. rewrite consume_rest, Ht. by rewrite str_drop_app. Qed.

Lemma Matches_RSet f st st' :
  Matches (RSet f) st st' <-> exists c, f c = true /\ reads (String c "") st st'.
Proof.
  split.
  - inversion 1 as [|? ? c tail Hr Hf| | | | | | | | |]; subst. exists c. split; [done|]. unfold reads.
    simpl. rewrite Hr. by rewrite Ascii.eqb_refl.
  - intros (c & Hf & [(tail & Ht)%has_prefix_spec ->]). simpl in Ht. simpl. rewrite Ht. by constructor.
Qed.

Lemma reads_cons c w st st1 st2 : reads (String c "") st st1 -> reads w st1 st2 -> reads (String c w) st st2.
Proof.
  intros [(t1 & H1)%has_prefix_spec ->] [(t2 & H2)%has_prefix_spec ->].
  rewrite consume_rest, H1 in H2. change (t1 = w +:+ t2) in H2. subst t1.
  unfold reads. rewrite H1. split; [|done]. change (has_prefix (String c w) (String c w +:+ t2) = true).
  apply has_prefix_app.
Qed.

Lemma reads_split c w st st2 :
  reads (String c w) st st2 -> exists st1, reads (String c "") st st1 /\ reads w st1 st2.
Proof.
  intros [(t & Ht)%has_prefix_spec ->]. exists (consume (String c "") st). unfold reads.
  rewrite consume_rest, Ht. split.
  - split; [|done]. change (String c w +:+ t) with (String c "" +:+ (w +:+ t)). apply has_prefix_app.
  - split; [|done]. change (has_prefix w (w +:+ t) = true). apply has_prefix_app.
Qed.

Lemma Matches_RText t st st' : Matches (RText t) st st' <-> reads t st st'.
Proof.
  revert st. induction t as [|c t IH]; intros st; simpl.
  - unfold reads. simpl. split; [by inversion 1|]. intros [_ ->]. constructor.
  - split.
    + inversion 1 as [| |? ? ? st1 ? H1 H2| | | | | | | |]; subst. apply Matches_RSet in H1 as (x & Hx & H1).
      apply Ascii.eqb_eq in Hx as <-. apply IH in H2. by eapply reads_cons.
    + intros (st1 & H1 & H2)%reads_split. econstructor; [|by apply IH]. apply Matches_RSet. exists c.
      by rewrite Ascii.eqb_refl.
Qed.

Lemma Matches_RFold t st st' :
  to_lower t = t -> Matches (RFold t) st st' <-> exists w, to_lower w = t /\ reads w st st'.
Proof.
  revert st. induction t as [|c t IH]; intros st Hl; simpl.
  - unfold reads. split.
    + inversion 1; subst. by exists "".
    + intros ([|c w] & Hw & [_ ->]); [constructor|done].
  - simpl in Hl. injection Hl as Hc Ht. split.
    + inversion 1 as [| |? ? ? st1 ? H1 H2| | | | | | | |]; subst. apply Matches_RSet in H1 as (x & Hx & H1).
      apply Ascii.eqb_eq in Hx. apply (IH _ Ht) in H2 as (w & Hw & H2). exists (String x w).
      split; [change (String (lower_ascii x) (to_lower w) = String c t); by rewrite Hx, Hw|]. by eapply reads_cons.
    + intros ([|x w] & Hw & Hr); [done|]. injection Hw as Hx Hw. apply reads_split in Hr as (st1 & H1 & H2).
      econstructor; [|apply IH; eauto]. apply Matches_RSet. exists x. by rewrite Hx, Ascii.eqb_refl.
Qed.

Lemma Matches_RStar_RSet f st st' :
  Matches (RStar (RSet f)) st st' <-> exists w, str_forall f w = true /\ reads w st st'.
Proof.
  split.
  - intros Hm. remember (RStar (RSet f)) as r eqn:Hr.
    induction Hm as [| | | | |b s|b s s1 s2 H1 _ Hne H2 IH2| | | |]; try done; injection Hr as ->.
    + exists "". done.
    + destruct (IH2 eq_refl) as (w & Hw & Hr2). apply Matches_RSet in H1 as (c & Hc & H1).
      exists (String c w). simpl. rewrite Hc. split; [done|]. by eapply reads_cons.
  - intros (w & Hw & Hr). revert st Hw Hr. induction w as [|c w IH]; intros st Hw Hr; simpl in Hw.
    + destruct Hr as [_ ->]. constructor.
    + apply andb_true_iff in Hw as [Hc Hw]. apply reads_split in Hr as (st1 & H1 & H2). econstructor.
      * apply Matches_RSet. by exists c.
      * destruct H1 as [_ ->]. rewrite consume_position. simpl. lia.
      * by apply IH.
Qed.

Lemma Matches_RPlus_RSet f st st' :
  Matches (RPlus (RSet f)) st st' <-> exists w, w <> "" /\ str_forall f w = true /\ reads w st st'.
Proof.
  split.
  - inversion 1 as [| |? ? ? st1 ? H1 H2| | | | | | | |]; subst. apply Matches_RSet in H1 as (c & Hc & H1).
    apply Matches_RStar_RSet in H2 as (w & Hw & H2). exists (String c w). simpl. rewrite Hc.
    split_and!; [done..|]. by eapply reads_cons.
  - intros ([|c w] & Hne & Hw & Hr); [done|]. simpl in Hw. apply andb_true_iff in Hw as [Hc Hw].
    apply reads_split in Hr as (st1 & H1 & H2). econstructor; [apply Matches_RSet; eauto|].
    apply Matches_RStar_RSet. eauto.
Qed.

Lemma Matches_RUpTo_RSet n f st st' :
  Matches (RUpTo n (RSet f)) st st' <-> exists w, (String.length w <= n)%nat /\ str_forall f w = true /\ reads w st st'.
Proof.
  revert st. induction n as [|n IH]; intros st; simpl.
  - split.
    + inversion 1; subst. by exists "".
    + intros ([|c w] & Hw & _ & Hr); simpl in Hw; [|lia]. destruct Hr as [_ ->]. constructor.
  - split.
    + inversion 1 as [| | |? ? ? ? Hm|? ? ? ? Hm| | | | | |]; subst; inversion Hm as [| |? ? ? st1 ? H1 H2| | | | | | | |]; subst.
      * apply Matches_RSet in H1 as (c & Hc & H1). apply IH in H2 as (w & Hlen & Hw & H2).
        exists (String c w). simpl. rewrite Hc. split_and!; [lia|done|]. by eapply reads_cons.
      * exists "". simpl. split_and!; [lia|done|done].
    + intros ([|c w] & Hlen & Hw & Hr).
      * destruct Hr as [_ ->]. apply MAltR. constructor.
      * simpl in Hlen, Hw. apply andb_true_iff in Hw as [Hc Hw]. apply reads_split in Hr as (st1 & H1 & H2).
        apply MAltL. econstructor; [apply Matches_RSet; eauto|]. apply IH. exists w. split_and!; [lia|done..].
Qed.

Lemma Matches_RBetween_RSet low high f st st' :
  (low <= high)%nat ->
  Matches (RBetween low high (RSet f)) st st' <->
  exists w, (low <= String.length w <= high)%nat /\ str_forall f w = true /\ reads w st st'.
Proof.
  unfold RBetween. intros Hle. rewrite <- (Nat.sub_add low high Hle). set (n := (high - low)%nat).
  replace (n + low - low)%nat with n by lia. clearbody n. clear Hle high.
  revert st. induction low as [|low IH]; intros st; simpl.
  - split.
    + inversion 1 as [| |? ? ? st1 ? H1 H2| | | | | | | |]; subst. inversion H1; subst.
      apply Matches_RUpTo_RSet in H2 as (w & ? & ? & ?). exists w. split_and!; [lia|lia|done..].
    + intros (w & Hlen & Hw & Hr). econstructor; [constructor|]. apply Matches_RUpTo_RSet.
      exists w. split_and!; [lia|done..].
  - split.
    + inversion 1 as [| |? ? ? st1 ? H1 H2| | | | | | | |]; subst.
      inversion H1 as [| |? ? ? st2 ? H3 H4| | | | | | | |]; subst. apply Matches_RSet in H3 as (c & Hc & H3).
      assert (Matches (RSeq (RTimes low (RSet f)) (RUpTo n (RSet f))) st2 st') as Hs by (by econstructor).
      apply IH in Hs as (w & Hlen & Hw & Hr). exists (String c w). simpl. rewrite Hc.
      split_and!; [lia|lia|done|]. by eapply reads_cons.
    + intros ([|c w] & Hlen & Hw & Hr); simpl in Hlen; [lia|]. simpl in Hw. apply andb_true_iff in Hw as [Hc Hw].
      apply reads_split in Hr as (st1 & H1 & H2).
      assert (Matches (RSeq (RTimes low (RSet f)) (RUpTo n (RSet f))) st1 st') as Hs.
      { apply IH. exists w. split_and!; [lia|lia|done|done]. }
      inversion Hs as [| |? ? ? st2 ? H3 H4| | | | | | | |]; subst. econstructor; [|done].
      econstructor; [apply Matches_RSet; eauto|done].
Qed.

(** ** Removing matches *)

(** Expressions that never match the empty text. *)
Fixpoint never_empty (r : regex) : bool :=
  match r with
  | RSet _ => true
  | RSeq first second => never_empty first || never_empty second
  | RAlt first second => never_empty first && never_empty second
  | RGroup _ body => never_empty body
  | REmpty | RStar _ | RBegin | REnd | RBoundary => false
  end.

Lemma Matches_position r st st' : Matches r st st' -> (position st <= position st')%nat.
Proof. intros (w & _ & ->)%Matches_consumes. lia. Qed.

Lemma Matches_never_empty r st st' :
  Matches r st st' -> never_empty r = true -> (position st < position st')%nat.
Proof.
  induction 1 as [| |? ? ? ? ? H1 IH1 H2 IH2| | | | | | | |]; simpl; try done; try (intros; lia).
  - apply Matches_position in H1, H2. intros [Hn|Hn]%orb_true_iff; [specialize (IH1 Hn)|specialize (IH2 Hn)]; lia.
  - intros [? ?]%andb_true_iff. auto.
  - intros [? ?]%andb_true_iff. auto.
Qed.

(** A state of a search of [s]. *)
Definition at_offset (s : string) (st : state) : Prop :=
  (position st <= String.length s)%nat /\ rest st = str_drop (position st) s.

Lemma str_drop_drop n m (s : string) : str_drop n (str_drop m s) = str_drop (m + n) s.
Proof. revert s. induction m as [|m IH]; intros s; [by rewrite str_drop_0|]. destruct s; simpl; [by destruct n|apply IH]. Qed.

Lemma at_offset_Matches s r st st' : at_offset s st -> Matches r st st' -> at_offset s st'.
Proof.
  intros [Hp Hr] (w & Hw & Hpos)%Matches_consumes. pose proof (str_length_drop (position st) s) as Hlen.
  rewrite <- Hr, Hw, str_length_app in Hlen. split; [lia|].
  by rewrite Hpos, <- str_drop_drop, <- Hr, Hw, str_drop_app.
Qed.

Lemma at_offset_from s n st : at_offset s st -> (n <= String.length (rest st))%nat -> at_offset s (state_from n st).
Proof.
  intros [Hp Hr] Hn. pose proof (str_length_drop (position st) s) as Hlen. rewrite <- Hr in Hlen. split.
  - rewrite state_from_position by done. lia.
  - rewrite state_from_rest, Hr, str_drop_drop. by rewrite state_from_position.
Qed.

Lemma at_offset_start s : at_offset s (start_state s).
Proof. split; simpl; [lia|done]. Qed.

Lemma find_from_placed r s st m :
  at_offset s st -> find_from (String.length (rest st)) r st = Some m ->
  (position st <= fStart m <= fEnd m)%nat /\ at_offset s (fState m) /\
  (never_empty r = true -> (fStart m < fEnd m)%nat).
Proof.
  intros Ho Hf. pose proof (find_from_spec _ r st (Nat.le_refl _)) as Hs. rewrite Hf in Hs.
  destruct Hs as (n & H1 & H2 & H3 & _). pose proof (at_offset_from s n st Ho H3) as Ho'.
  rewrite state_from_position in H1 by done. unfold fEnd.
  pose proof (Matches_position _ _ _ H2) as Hle. rewrite state_from_position in Hle by done. split_and!; [lia|lia| |].
  - by apply (at_offset_Matches s r (state_from n st)).
  - intros Hne. apply (Matches_never_empty _ _ _ H2) in Hne. rewrite state_from_position in Hne by done. lia.
Qed.

(** Matches listed from an offset on, in order and apart. *)
Fixpoint placed (s : string) (low : nat) (l : list found) : Prop :=
  match l with
  | [] => True
  | m :: others =>
      (low <= fStart m)%nat /\ (fStart m < fEnd m)%nat /\ (fEnd m <= String.length s)%nat /\ placed s (fEnd m) others
  end.

Lemma find_all_placed r s fuel st :
  never_empty r = true -> at_offset s st -> placed s (position st) (find_all_from fuel r st).
Proof.
  intros Hne. revert st. induction fuel as [|fuel IH]; intros st Ho; simpl; [done|].
  destruct (find_from _ r st) as [m|] eqn:Hf; [|done].
  destruct (find_from_placed _ _ _ _ Ho Hf) as (Hle & Ho' & Hlt). simpl. split_and!; [lia|by apply Hlt|apply Ho'|].
  exact (IH {| position := position (fState m); before := before (fState m); rest := rest (fState m); groups := [] |} Ho').
Qed.

Lemma slice_length s low high :
  (low <= high <= String.length s)%nat -> String.length (slice s low high) = (high - low)%nat.
Proof. intros Hle. unfold slice. rewrite str_length_take, str_length_drop. lia. Qed.

Lemma replace_from_length s low l :
  (low <= String.length s)%nat -> placed s low l ->
  (String.length (replace_from low s "" l) + length l <= String.length s - low)%nat.
Proof.
  revert low. induction l as [|m l IH]; intros low Hlow; simpl.
  - intros _. rewrite str_length_drop. lia.
  - intros (H1 & H2 & H3 & H4). specialize (IH (fEnd m) H3 H4).
    rewrite str_length_app, slice_length by lia. change ("" +:+ ?x) with x. lia.
Qed.

(** Removing the matches of an expression shortens the text, unless there
    are none. *)
Lemma replace_all_shrinks r s :
  never_empty r = true -> replace_all r s "" = s \/ (String.length (replace_all r s "") < String.length s)%nat.
Proof.
  intros Hne. unfold replace_all, find_all.
  pose proof (find_all_placed r s (S (String.length s)) (start_state s) Hne (at_offset_start s)) as Hp.
  pose proof (replace_from_length s 0 _ (Nat.le_0_l _) Hp) as Hlen.
  destruct (find_all_from _ _ _) as [|m l]; [left; apply str_drop_0|right]. simpl in Hlen |- *. lia.
Qed.

Lemma fEnd_le r s m : find r s = Some m -> (fStart m <= fEnd m <= String.length s)%nat.
Proof.
  intros Hf. destruct (find_from_placed r s (start_state s) m (at_offset_start s) Hf) as (? & [? _] & _).
  unfold fEnd in *. lia.
Qed.

(** ** Inversion and captures *)

Lemma Matches_RSeq first second st st' :
  Matches (RSeq first second) st st' <-> exists st1, Matches first st st1 /\ Matches second st1 st'.
Proof. split; [inversion 1; subst; eauto|]. intros (st1 & ? & ?). by econstructor. Qed.

Lemma Matches_RAlt first second st st' :
  Matches (RAlt first second) st st' <-> Matches first st st' \/ Matches second st st'.
Proof. split; [inversion 1; subst; auto|]. intros [?|?]; by constructor. Qed.

Lemma Matches_RGroup i body st st' :
  Matches (RGroup i body) st st' <-> exists st1, Matches body st st1 /\ st' = capture i (position st) st1.
Proof. split; [inversion 1; subst; eauto|]. intros (st1 & ? & ->). by constructor. Qed.

Lemma Matches_RBegin st st' : Matches RBegin st st' <-> before st = None /\ st' = st.
Proof. split; [inversion 1; subst; eauto|]. intros [? ->]. by constructor. Qed.

Lemma Matches_REnd st st' : Matches REnd st st' <-> rest st = "" /\ st' = st.
Proof. split; [inversion 1; subst; eauto|]. intros [? ->]. by constructor. Qed.

Lemma Matches_REmpty st st' : Matches REmpty st st' <-> st' = st.
Proof. split; [by inversion 1|]. intros ->. constructor. Qed.

Lemma Matches_ROpt r st st' : Matches (ROpt r) st st' <-> Matches r st st' \/ st' = st.
Proof. unfold ROpt. by rewrite Matches_RAlt, Matches_REmpty. Qed.

(** Only the start of the text has nothing before it. *)
Lemma state_at_begin s n : before (state_at s n) = None -> state_at s n = start_state s.
Proof.
  unfold state_at. assert (forall n st, state_from n st = st \/ before (state_from n st) <> None) as Hs.
  { clear. induction n as [|n IH]; intros st; simpl; [by left|]. destruct (rest st) as [|c tail]; [by left|].
    right. destruct (IH (advance c tail st)) as [->|]; done. }
  by destruct (Hs n (start_state s)) as [->|].
Qed.

Lemma reads_before w st st' : reads w st st' -> before st' = None -> w = "" /\ st' = st.
Proof. intros [_ ->] Hb. destruct (decide (w = "")) as [->|Hne]; [done|]. by apply consume_before in Hb. Qed.

(** [slice] and concatenation. *)
Lemma slice_mid a b c : slice (a +:+ b +:+ c) (String.length a) (String.length a + String.length b) = b.
Proof.
  unfold slice. rewrite str_drop_app.
  replace (String.length a + String.length b - String.length a)%nat with (String.length b) by lia. apply str_take_app.
Qed.

Lemma str_forall_app f a b : str_forall f (a +:+ b) = str_forall f a && str_forall f b.
Proof. induction a as [|c a IH]; [done|]. change (String c a +:+ b) with (String c (a +:+ b)). simpl. by rewrite IH, andb_assoc. Qed.

(** Where a run of [f]'s characters ends is determined by the text. *)
Lemma run_unique f a a' x y r r' :
  str_forall f a = true -> str_forall f a' = true -> f x = false -> f y = false ->
  a +:+ String x r = a' +:+ String y r' -> a = a' /\ x = y /\ r = r'.
Proof.
  revert a'. induction a as [|c a IH]; intros [|c' a'] Ha Ha' Hx Hy Heq.
  - by injection Heq as -> ->.
  - injection Heq as -> ->. simpl in Ha'. by rewrite Hx in Ha'.
  - injection Heq as -> <-. simpl in Ha. by rewrite Hy in Ha.
  - injection Heq as -> Heq. simpl in Ha, Ha'. bool_prop.
    destruct (IH a') as (-> & -> & ->); try done. 
Qed.

(** ** What the groups hold *)

(** The groups of an expression. *)
Fixpoint group_bodies (r : regex) : list (nat * regex) :=
  match r with
  | RSeq first second | RAlt first second => group_bodies first ++ group_bodies second
  | RStar body => group_bodies body
  | RGroup index body => (index, body) :: group_bodies body
  | REmpty | RSet _ | RBegin | REnd | RBoundary => []
  end.

(** The texts an expression can match, whatever surrounds them. *)
Definition lang (r : regex) (w : string) : Prop := exists st st', Matches r st st' /\ rest st = w +:+ rest st'.

(** A captured span holds a text of its group's body. *)
Definition span_ok (s : string) (bodies : list (nat * regex)) (g : nat * (nat * nat)) : Prop :=
  exists body, (g.1, body) ∈ bodies /\ lang body (slice s g.2.1 g.2.2).

Lemma span_ok_mono s l l' g : (forall x, x ∈ l -> x ∈ l') -> span_ok s l g -> span_ok s l' g.
Proof. intros Hl (body & Hin & Hb). exists body. auto. Qed.

Lemma Matches_slice s r st st' :
  at_offset s st -> Matches r st st' -> lang r (slice s (position st) (position st')).
Proof.
  intros [Hp Hr] Hm. pose proof (Matches_consumes _ _ _ Hm) as (w & Hw & Hpos). exists st, st'. split; [done|].
  rewrite Hw. f_equal. unfold slice. rewrite <- Hr, Hw, Hpos.
  replace (position st + String.length w - position st)%nat with (String.length w) by lia. by rewrite str_take_app.
Qed.

Lemma Matches_groups s r st st' :
  Matches r st st' -> at_offset s st ->
  forall g, g ∈ groups st' -> g ∈ groups st \/ span_ok s (group_bodies r) g.
Proof.
  induction 1 as [| |first second st st1 st2 H1 IH1 H2 IH2|first second st st' H IH|first second st st' H IH| |
    body st st1 st2 H1 IH1 Hne H2 IH2|i body st st' H IH| | |]; intros Ho g Hg; try (by left).
  - specialize (IH2 (at_offset_Matches _ _ _ _ Ho H1) g Hg). cbn [group_bodies]. destruct IH2 as [Hg'|Hs].
    + destruct (IH1 Ho g Hg') as [?|Hs]; [by left|right]. eapply span_ok_mono; [|done]. intros x Hx. apply elem_of_app. by left.
    + right. eapply span_ok_mono; [|done]. intros x Hx. apply elem_of_app. by right.
  - destruct (IH Ho g Hg) as [?|Hs]; [by left|right]. eapply span_ok_mono; [|done]. intros x Hx. apply elem_of_app. by left.
  - destruct (IH Ho g Hg) as [?|Hs]; [by left|right]. eapply span_ok_mono; [|done]. intros x Hx. apply elem_of_app. by right.
  - destruct (IH2 (at_offset_Matches _ _ _ _ Ho H1) g Hg) as [Hg'|Hs]; [by apply IH1|by right].
  - cbn [groups capture] in Hg. apply elem_of_cons in Hg as [->|Hg].
    + right. exists body. split; [by left|]. by apply Matches_slice.
    + destruct (IH Ho g Hg) as [?|Hs]; [by left|right]. eapply span_ok_mono; [|done]. intros x Hx. by right.
Qed.

(** A match of [r] somewhere in [s]. *)
Definition found_in (r : regex) (s : string) (m : found) : Prop :=
  exists st, position st = fStart m /\ at_offset s st /\ groups st = [] /\ Matches r st (fState m).

Lemma state_from_groups n st : groups (state_from n st) = groups st.
Proof. revert st. induction n as [|n IH]; intros st; simpl; [done|]. destruct (rest st); [done|]. by rewrite IH. Qed.

Lemma find_from_found r s st m :
  at_offset s st -> groups st = [] -> find_from (String.length (rest st)) r st = Some m -> found_in r s m.
Proof.
  intros Ho Hg Hf. pose proof (find_from_spec _ r st (Nat.le_refl _)) as Hs. rewrite Hf in Hs.
  destruct Hs as (n & H1 & H2 & H3 & _). exists (state_from n st). split_and!; [done|by apply at_offset_from| |done].
  by rewrite state_from_groups.
Qed.

Lemma find_found r s m : find r s = Some m -> found_in r s m.
Proof. apply (find_from_found r s (start_state s)); [apply at_offset_start|done]. Qed.

Lemma find_all_from_found r s fuel st m :
  at_offset s st -> groups st = [] -> m ∈ find_all_from fuel r st -> found_in r s m.
Proof.
  revert st. induction fuel as [|fuel IH]; intros st Ho Hg; simpl; [by intros ?%elem_of_nil|].
  destruct (find_from _ r st) as [m'|] eqn:Hf; [|by intros ?%elem_of_nil].
  intros [->|Hm]%elem_of_cons; [by eapply find_from_found|]. revert Hm. apply IH; [|done].
  apply (find_from_placed _ _ _ _ Ho Hf).
Qed.

Lemma find_all_found r s m : m ∈ find_all r s -> found_in r s m.
Proof. apply find_all_from_found; [apply at_offset_start|done]. Qed.

(** The text of a group is one of its body's, or empty if it took no part. *)
Lemma fGroupText_lang r s i m :
  found_in r s m ->
  fGroupText s i m = "" \/ exists body, (i, body) ∈ group_bodies r /\ lang body (fGroupText s i m).
Proof.
  intros (st & _ & Ho & Hg & Hm). unfold fGroupText, fGroup.
  destruct (List.find _ (groups (fState m))) as [[j [low high]]|] eqn:Hf; [|by left]. right. cbn [fmap option_fmap option_map snd].
  apply find_some in Hf as [Hin Hj%Nat.eqb_eq]. cbn [fst] in Hj. subst j. rewrite <- list_elem_of_In in Hin.
  destruct (Matches_groups s r st _ Hm Ho _ Hin) as [Hin'|Hs]; [|exact Hs]. rewrite Hg in Hin'. by apply elem_of_nil in Hin'.
Qed.

Lemma fText_lang r s m : found_in r s m -> lang r (fText s m).
Proof. intros (st & Hp & Ho & _ & Hm). unfold fText, fEnd. rewrite <- Hp. by apply Matches_slice. Qed.

Lemma str_app_inv_r (a b c : string) : a +:+ c = b +:+ c -> a = b.
Proof.
  intros He. assert (String.length a = String.length b) as Hl.
  { apply (f_equal String.length) in He. rewrite !str_length_app in He. lia. }
  by rewrite <- (str_take_app a c), He, Hl, str_take_app.
Qed.

Lemma reads_unique w w' st st' : reads w st st' -> rest st = w' +:+ rest st' -> w = w'.
Proof. intros Hr He. apply reads_rest in Hr. rewrite He in Hr. by apply str_app_inv_r in Hr. Qed.

Lemma lang_RSeq first second w : lang (RSeq first second) w -> exists w1 w2, w = w1 +:+ w2 /\ lang first w1 /\ lang second w2.
Proof.
  intros (st & st' & (st1 & H1 & H2)%Matches_RSeq & Hw).
  pose proof (Matches_consumes _ _ _ H1) as (w1 & Hw1 & _). pose proof (Matches_consumes _ _ _ H2) as (w2 & Hw2 & _).
  exists w1, w2. split; [|split; [by exists st, st1|by exists st1, st']].
  rewrite Hw1, Hw2, <- str_app_assoc in Hw. by apply str_app_inv_r in Hw.
Qed.

Lemma lang_RAlt first second w : lang (RAlt first second) w -> lang first w \/ lang second w.
Proof. intros (st & st' & [H|H]%Matches_RAlt & Hw); [left|right]; by exists st, st'. Qed.

Lemma lang_RText t w : lang (RText t) w -> w = t.
Proof. intros (st & st' & H%Matches_RText & Hw). symmetry. by eapply reads_unique. Qed.

Lemma lang_RFold t w : to_lower t = t -> lang (RFold t) w -> to_lower w = t.
Proof.
  intros Ht (st & st' & H & Hw). apply Matches_RFold in H as (x & Hx & Hr); [|done].
  by rewrite <- (reads_unique _ _ _ _ Hr Hw).
Qed.

Lemma lang_RBetween low high f w :
  (low <= high)%nat -> lang (RBetween low high (RSet f)) w ->
  (low <= String.length w <= high)%nat /\ str_forall f w = true.
Proof.
  intros Hle (st & st' & H & Hw). apply Matches_RBetween_RSet in H as (x & Hx & Hf & Hr); [|done].
  by rewrite <- (reads_unique _ _ _ _ Hr Hw).
Qed.

Lemma lang_RTimes n f w : lang (RTimes n (RSet f)) w -> String.length w = n /\ str_forall f w = true.
Proof.
  intros (st & st' & H & Hw). assert (lang (RBetween n n (RSet f)) w) as Hl.
  { exists st, st'. split; [|done]. unfold RBetween. rewrite Nat.sub_diag. econstructor; [done|constructor]. }
  apply lang_RBetween in Hl as [? ?]; [|lia]. split; [lia|done].
Qed.

Lemma lang_RGroup i body w : lang (RGroup i body) w -> lang body w.
Proof. intros (st & st' & (st1 & H & ->)%Matches_RGroup & Hw). by exists st, st1. Qed.

Lemma lang_RAny l w : lang (RAny l) w -> exists r, r ∈ l /\ lang r w.
Proof.
  induction l as [|r [|r' l] IH]; cbn [RAny].
  - intros (st & st' & (c & Hc & _)%Matches_RSet & _). done.
  - intros Hl. exists r. by split; [left|].
  - intros [Hl|(x & Hx & Hl)%IH]%lang_RAlt; [exists r; by split; [left|]|exists x; by split; [right|]].
Qed.

(** Groups every match of an expression goes through. *)
Fixpoint always_captures (i : nat) (r : regex) : bool :=
  match r with
  | RSeq first second => always_captures i first || always_captures i second
  | RAlt first second => always_captures i first && always_captures i second
  | RGroup index body => Nat.eqb index i || always_captures i body
  | RStar _ | REmpty | RSet _ | RBegin | REnd | RBoundary => false
  end.

Lemma Matches_keeps r st st' g : Matches r st st' -> g ∈ groups st -> g ∈ groups st'.
Proof. induction 1; auto. intros Hg. cbn. right. auto. Qed.

Lemma Matches_captures i r st st' :
  Matches r st st' -> always_captures i r = true -> exists span, (i, span) ∈ groups st'.
Proof.
  induction 1 as [| |first second st st1 st2 H1 IH1 H2 IH2|first second st st' H IH|first second st st' H IH| |
    |j body st st' H IH| | |]; cbn [always_captures]; try done.
  - intros [Ha|Ha]%orb_true_iff; [|by apply IH2]. destruct (IH1 Ha) as (span & Hs). exists span. by eapply Matches_keeps.
  - intros [Ha _]%andb_true_iff. by apply IH.
  - intros [_ Ha]%andb_true_iff. by apply IH.
  - cbn [groups capture]. intros [->%Nat.eqb_eq|Ha]%orb_true_iff; [eexists; by left|].
    destruct (IH Ha) as (span & Hs). exists span. by right.
Qed.

Lemma fGroupText_always r s i m :
  found_in r s m -> always_captures i r = true -> exists body, (i, body) ∈ group_bodies r /\ lang body (fGroupText s i m).
Proof.
  intros (st & _ & Ho & Hg & Hm) Ha. destruct (Matches_captures _ _ _ _ Hm Ha) as (span & Hspan).
  unfold fGroupText, fGroup. destruct (List.find _ (groups (fState m))) as [[j [low high]]|] eqn:Hf.
  - cbn [fmap option_fmap option_map snd]. apply find_some in Hf as [Hin Hj%Nat.eqb_eq]. cbn [fst] in Hj. subst j.
    rewrite <- list_elem_of_In in Hin. destruct (Matches_groups s r st _ Hm Ho _ Hin) as [Hin'|Hs]; [|exact Hs].
    rewrite Hg in Hin'. by apply elem_of_nil in Hin'.
  - rewrite list_elem_of_In in Hspan. pose proof (find_none _ _ Hf _ Hspan) as Hne. cbn [fst] in Hne. by rewrite Nat.eqb_refl in Hne.
Qed.
