(* ===== verification/GoText.v ===== *)
(** Go's text functions that the scanner and the link extraction use, on byte
    strings: searching ([strings.Index], [strings.LastIndex]), trimming
    ([strings.Trim], [strings.TrimLeft]), numbers ([strconv.Atoi], the [%0nd]
    verb), and what trimming and lower-casing do to each other. *)
From stdpp Require Import strings list pretty.
From Stdlib Require Import Ascii ZArith Lia.
From Stdlib Require String.
From S2P Require Import Prelude Regex.

(** * Searching *)

(** [strings.Index], with [None] for -1. *)
Fixpoint index (s sub : string) : option nat :=
  if has_prefix sub s then Some 0
  else match s with EmptyString => None | String _ tail => S <$> index tail sub end.

(** [strings.LastIndex]. *)
Fixpoint last_index (s sub : string) : option nat :=
  match s with
  | EmptyString => if has_prefix sub s then Some 0 else None
  | String _ tail =>
      match last_index tail sub with
      | Some n => Some (S n)
      | None => if has_prefix sub s then Some 0 else None
      end
  end.

Lemma index_Some s sub n : index s sub = Some n -> s = str_take n s +:+ sub +:+ str_drop (n + String.length sub) s.
Proof.
  revert n. induction s as [|c s IH]; intros n; cbn [index].
  - destruct (has_prefix sub "") eqn:Hp; [|done]. intros [= <-]. destruct sub; [done|done].
  - destruct (has_prefix sub (String c s)) eqn:Hp.
    + intros [= <-]. apply has_prefix_spec in Hp as [r Hr]. rewrite Hr. cbn [str_take Nat.add].
      by rewrite str_drop_app.
    + intros (m & Hm & ->)%fmap_Some. apply IH in Hm. cbn [str_take Nat.add str_drop].
      change (String c s = String c (str_take m s +:+ sub +:+ str_drop (m + String.length sub) s)). by rewrite <- Hm.
Qed.

Lemma last_index_Some s sub n :
  last_index s sub = Some n -> s = str_take n s +:+ sub +:+ str_drop (n + String.length sub) s.
Proof.
  revert n. induction s as [|c s IH]; intros n; cbn [last_index].
  - destruct (has_prefix sub "") eqn:Hp; [|done]. intros [= <-]. by destruct sub.
  - destruct (last_index s sub) as [m|] eqn:Hm.
    + intros [= <-]. specialize (IH m eq_refl). cbn [str_take Nat.add str_drop].
      change (String c s = String c (str_take m s +:+ sub +:+ str_drop (m + String.length sub) s)). by rewrite <- IH.
    + destruct (has_prefix sub (String c s)) eqn:Hp; [|done]. intros [= <-].
      apply has_prefix_spec in Hp as [r Hr]. rewrite Hr. cbn [str_take Nat.add]. by rewrite str_drop_app.
Qed.

(** * Trimming *)

Definition in_cutset (cutset : string) (c : ascii) : bool := existsb (Ascii.eqb c) (String.list_ascii_of_string cutset).

(** [strings.TrimLeft] and [strings.Trim]. *)
Definition TrimLeft (s cutset : string) : string := trim_left (in_cutset cutset) s.
Definition Trim (s cutset : string) : string := trim_right (in_cutset cutset) (trim_left (in_cutset cutset) s).

Fixpoint last_char (s : string) : option ascii :=
  match s with
  | EmptyString => None
  | String c EmptyString => Some c
  | String _ tail => last_char tail
  end.

(** Nothing of the cut set at either end. *)
Definition trimmed (cut : ascii -> bool) (s : string) : Prop :=
  (forall c, next_char s = Some c -> cut c = false) /\ (forall c, last_char s = Some c -> cut c = false).

Lemma trim_left_head cut s c : next_char (trim_left cut s) = Some c -> cut c = false.
Proof. induction s as [|x s IH]; simpl; [done|]. destruct (cut x) eqn:Hx; [done|]. by intros [= <-]. Qed.

Lemma trim_right_cons cut c s :
  trim_right cut (String c s) =
  match trim_right cut s with EmptyString => if cut c then "" else String c "" | kept => String c kept end.
Proof. done. Qed.

Lemma trim_right_last cut s c : last_char (trim_right cut s) = Some c -> cut c = false.
Proof.
  induction s as [|x s IH]; [done|]. rewrite trim_right_cons. destruct (trim_right cut s) as [|y t] eqn:Ht.
  - destruct (cut x) eqn:Hx; [done|]. by intros [= <-].
  - intros Hl. by apply IH.
Qed.

Lemma trim_right_head cut s c : next_char (trim_right cut s) = Some c -> next_char s = Some c.
Proof.
  destruct s as [|x s]; [done|]. rewrite trim_right_cons. destruct (trim_right cut s); [|done].
  by destruct (cut x).
Qed.

Lemma trim_trimmed cut s : trimmed cut (trim_right cut (trim_left cut s)).
Proof.
  split; intros c Hc; [|by eapply trim_right_last].
  by apply trim_right_head, trim_left_head in Hc.
Qed.

Lemma trim_left_id cut s : (forall c, next_char s = Some c -> cut c = false) -> trim_left cut s = s.
Proof. destruct s as [|c s]; simpl; [done|]. intros Hc. by rewrite (Hc c). Qed.

Lemma trim_right_id cut s : (forall c, last_char s = Some c -> cut c = false) -> trim_right cut s = s.
Proof.
  induction s as [|c s IH]; [done|]. intros Hc. rewrite trim_right_cons. destruct s as [|d s].
  - simpl. by rewrite (Hc c).
  - rewrite IH; [done|]. intros x Hx. by apply Hc.
Qed.

Lemma trimmed_id cut s : trimmed cut s -> trim_right cut (trim_left cut s) = s.
Proof. intros [H1 H2]. rewrite trim_left_id by done. by apply trim_right_id. Qed.

Lemma trim_space_idem s : trim_space (trim_space s) = trim_space s.
Proof. unfold trim_space. apply trimmed_id, trim_trimmed. Qed.

(** ** Trimming and lower-casing *)

Lemma lower_ascii_idem c : lower_ascii (lower_ascii c) = lower_ascii c.
Proof. by destruct c as [[] [] [] [] [] [] [] []]; vm_compute. Qed.

Lemma is_space_lower c : is_space (lower_ascii c) = is_space c.
Proof. by destruct c as [[] [] [] [] [] [] [] []]; vm_compute. Qed.

Lemma to_lower_cons c s : to_lower (String c s) = String (lower_ascii c) (to_lower s).
Proof. done. Qed.

Lemma to_lower_idem s : to_lower (to_lower s) = to_lower s.
Proof. induction s as [|c s IH]; [done|]. by rewrite !to_lower_cons, lower_ascii_idem, IH. Qed.

Lemma to_lower_trim_left s : to_lower (trim_left is_space s) = trim_left is_space (to_lower s).
Proof.
  induction s as [|c s IH]; [done|]. rewrite to_lower_cons. simpl. rewrite is_space_lower.
  by destruct (is_space c).
Qed.

Lemma to_lower_trim_right s : to_lower (trim_right is_space s) = trim_right is_space (to_lower s).
Proof.
  induction s as [|c s IH]; [done|]. rewrite to_lower_cons, !trim_right_cons, <- IH, is_space_lower.
  destruct (trim_right is_space s); [|done]. by destruct (is_space c).
Qed.

Lemma to_lower_trim_space s : to_lower (trim_space s) = trim_space (to_lower s).
Proof. unfold trim_space. by rewrite to_lower_trim_right, to_lower_trim_left. Qed.

(** * Numbers *)

Fixpoint digits_value (acc : Z) (s : string) : option Z :=
  match s with
  | EmptyString => Some acc
  | String c tail =>
      if is_digit c then digits_value (acc * 10 + Z.of_nat (nat_of_ascii c - 48)) tail else None
  end.

Definition fits_int (z : Z) : bool := (-9223372036854775808 <=? z)%Z && (z <=? 9223372036854775807)%Z.

(** [strconv.Atoi], with [None] for an error. *)
Definition Atoi (s : string) : option Z :=
  let '(negative, body) :=
    match s with
    | String c tail => if Ascii.eqb c "-"%char then (true, tail) else if Ascii.eqb c "+"%char then (false, tail) else (false, s)
    | EmptyString => (false, s)
    end in
  if String.eqb body "" then None
  else
    match digits_value 0 body with
    | Some value => let value := if negative then (- value)%Z else value in if fits_int value then Some value else None
    | None => None
    end.

Fixpoint zeros (n : nat) : string := match n with 0 => "" | S n => String "0"%char (zeros n) end.

(** The [%0nd] verb: the width counts the sign. *)
Definition pad_Z (width : nat) (z : Z) : string :=
  let digits := show_Z (Z.abs z) in
  let sign := if (z <? 0)%Z then "-" else "" in
  sign +:+ zeros (width - String.length sign - String.length digits) +:+ digits.

Lemma digits_value_app acc a b :
  digits_value acc (a +:+ b) = match digits_value acc a with Some v => digits_value v b | None => None end.
Proof.
  revert acc. induction a as [|c a IH]; intros acc; [done|].
  change (String c a +:+ b) with (String c (a +:+ b)). simpl. destruct (is_digit c); [apply IH|done].
Qed.

Lemma digits_value_Some acc s v : digits_value acc s = Some v -> str_forall is_digit s = true.
Proof. revert acc. induction s as [|c s IH]; intros acc; simpl; [done|]. destruct (is_digit c); [|done]. apply IH. Qed.

(** [n] digits stand for less than [10 ^ n]. *)
Lemma digits_value_bound s acc :
  str_forall is_digit s = true -> (0 <= acc)%Z ->
  exists v, digits_value acc s = Some v /\
    (acc * 10 ^ Z.of_nat (String.length s) <= v < (acc + 1) * 10 ^ Z.of_nat (String.length s))%Z.
Proof.
  revert acc. induction s as [|c s IH]; intros acc Hs Hacc.
  - exists acc. simpl. split; [done|lia].
  - simpl in Hs. apply andb_true_iff in Hs as [Hc Hs]. cbn [digits_value]. rewrite Hc.
    pose proof Hc as Hd. unfold is_digit in Hd. apply andb_true_iff in Hd as [H1%Nat.leb_le H2%Nat.leb_le].
    destruct (IH (acc * 10 + Z.of_nat (nat_of_ascii c - 48))%Z Hs) as (v & Hv & Hb); [lia|].
    exists v. split; [done|]. cbn [String.length]. rewrite Nat2Z.inj_succ, Z.pow_succ_r by lia.
    assert (0 < 10 ^ Z.of_nat (String.length s))%Z by (apply Z.pow_pos_nonneg; lia). nia.
Qed.

(** Up to eighteen digits always parse. *)
Lemma Atoi_digits s :
  s <> "" -> str_forall is_digit s = true -> (String.length s <= 18)%nat ->
  exists v, Atoi s = Some v /\ digits_value 0 s = Some v /\ (0 <= v < 10 ^ Z.of_nat (String.length s))%Z.
Proof.
  intros Hne Hd Hlen. destruct (digits_value_bound s 0 Hd ltac:(lia)) as (v & Hv & Hb).
  exists v. split_and!; [|done|lia|lia]. unfold Atoi. destruct s as [|c s]; [done|].
  assert (Ascii.eqb c "-"%char = false /\ Ascii.eqb c "+"%char = false) as [-> ->].
  { simpl in Hd. apply andb_true_iff in Hd as [Hc _]. by destruct c as [[] [] [] [] [] [] [] []]. }
  simpl String.eqb. rewrite Hv. assert (fits_int v = true) as ->; [|done].
  assert (10 ^ Z.of_nat (String.length (String c s)) <= 10 ^ 18)%Z by (apply Z.pow_le_mono_r; lia).
  unfold fits_int. apply andb_true_iff. rewrite !Z.leb_le. lia.
Qed.

(** ** Reading back what [%d] writes *)

Lemma pretty_char_digit n : (n < 10)%N ->
  is_digit (pretty_N_char n) = true /\ Z.of_nat (nat_of_ascii (pretty_N_char n) - 48) = Z.of_N n.
Proof.
  intros Hn. assert (Forall (fun i => is_digit (pretty_N_char (N.of_nat i)) = true /\
    Z.of_nat (nat_of_ascii (pretty_N_char (N.of_nat i)) - 48) = Z.of_nat i) (seq 0 10)) as Hall by (by repeat constructor).
  rewrite Forall_forall in Hall. specialize (Hall (N.to_nat n)). rewrite N2Nat.id in Hall.
  rewrite <- N_nat_Z. apply Hall, elem_of_seq. lia.
Qed.

Lemma digits_pretty_go n s : digits_value 0 (pretty_N_go n s) = digits_value (Z.of_N n) s.
Proof.
  revert s. induction (N.lt_wf_0 n) as [n _ IH]; intros s. destruct (decide (0 < n)%N) as [Hn|Hn].
  - rewrite pretty_N_go_step by done. rewrite IH by (by apply N.div_lt).
    cbn [digits_value]. destruct (pretty_char_digit (n `mod` 10)%N) as [-> ->]; [by apply N.mod_lt|].
    f_equal. rewrite (N.div_mod n 10) at 3 by done. lia.
  - assert (n = 0%N) as -> by lia. done.
Qed.

Lemma digits_show_Z z : (0 <= z)%Z -> digits_value 0 (show_Z z) = Some z.
Proof.
  intros Hz. unfold show_Z. destruct z as [|p|p]; [done| |lia].
  change (digits_value 0 (pretty (N.pos p)) = Some (Z.pos p)).
  change (pretty (N.pos p)) with (pretty_N_go (N.pos p) ""). by rewrite digits_pretty_go.
Qed.

Lemma show_Z_digits z : (0 <= z)%Z -> str_forall is_digit (show_Z z) = true /\ show_Z z <> "".
Proof.
  intros Hz. pose proof (digits_show_Z z Hz) as Hv. split; [by eapply digits_value_Some|].
  intros He. rewrite He in Hv. simpl in Hv. injection Hv as <-. done.
Qed.

Lemma Atoi_value s v :
  s <> "" -> digits_value 0 s = Some v -> (0 <= v <= 9223372036854775807)%Z -> Atoi s = Some v.
Proof.
  intros Hne Hv Hb. pose proof (digits_value_Some _ _ _ Hv) as Hd. unfold Atoi. destruct s as [|c s]; [done|].
  assert (Ascii.eqb c "-"%char = false /\ Ascii.eqb c "+"%char = false) as [-> ->].
  { simpl in Hd. apply andb_true_iff in Hd as [Hc _]. by destruct c as [[] [] [] [] [] [] [] []]. }
  simpl String.eqb. rewrite Hv. assert (fits_int v = true) as ->; [|done].
  unfold fits_int. apply andb_true_iff. rewrite !Z.leb_le. lia.
Qed.

Lemma Atoi_show_Z z : (0 <= z <= 9223372036854775807)%Z -> Atoi (show_Z z) = Some z.
Proof.
  intros Hz. apply Atoi_value; [|apply digits_show_Z; lia|done]. apply show_Z_digits. lia.
Qed.

(** Any int at all is read back. *)
Lemma Atoi_show_int z : fits_int z = true -> Atoi (show_Z z) = Some z.
Proof.
  intros Hz. pose proof Hz as Hb. unfold fits_int in Hb. apply andb_true_iff in Hb. rewrite !Z.leb_le in Hb.
  destruct (decide (0 <= z)%Z) as [Hp|Hn]; [by apply Atoi_show_Z; lia|].
  destruct z as [|p|p]; [lia|lia|]. change (show_Z (Z.neg p)) with (String "-"%char (show_Z (Z.pos p))).
  destruct (show_Z_digits (Z.pos p)) as [_ Hne]; [lia|]. unfold Atoi. simpl Ascii.eqb. cbv iota.
  destruct (String.eqb_spec (show_Z (Z.pos p)) "") as [|_]; [done|]. rewrite digits_show_Z by lia.
  change (- Z.pos p)%Z with (Z.neg p). by rewrite Hz.
Qed.

(** * Numbers of a fixed width *)

Lemma digits_value_zeros n s acc : acc = 0%Z -> digits_value acc (zeros n +:+ s) = digits_value acc s.
Proof. intros ->. induction n as [|n IH]; [done|]. change (zeros (S n) +:+ s) with (String "0"%char (zeros n +:+ s)). cbn. apply IH. Qed.

Lemma pretty_go_length k n s : (n < 10 ^ N.of_nat k)%N -> (String.length (pretty_N_go n s) <= k + String.length s)%nat.
Proof.
  revert n s. induction k as [|k IH]; intros n s Hn.
  - assert (n = 0%N) as -> by (simpl in Hn; lia). done.
  - destruct (decide (0 < n)%N) as [Hp|]; [|assert (n = 0%N) as -> by lia; change (pretty_N_go 0 s) with s; lia].
    rewrite pretty_N_go_step by done. etrans; [apply IH|simpl; lia].
    apply N.Div0.div_lt_upper_bound. rewrite Nat2N.inj_succ, N.pow_succ_r' in Hn. lia.
Qed.

Lemma show_Z_length k z : (0 < k)%nat -> (0 <= z < 10 ^ Z.of_nat k)%Z -> (String.length (show_Z z) <= k)%nat.
Proof.
  intros Hk Hz. destruct z as [|p|p]; [done| |lia].
  change (show_Z (Z.pos p)) with (pretty_N_go (N.pos p) ""). pose proof (pretty_go_length k (N.pos p) "") as Hl.
  simpl String.length in Hl. rewrite Nat.add_0_r in Hl. apply Hl. apply N2Z.inj_lt. rewrite N2Z.inj_pow. simpl. lia.
Qed.

Lemma zeros_length n : String.length (zeros n) = n.
Proof. by induction n as [|n IH]; [|cbn; rewrite IH]. Qed.

Lemma zeros_digits n : str_forall is_digit (zeros n) = true.
Proof. by induction n. Qed.

(** A number that fits its width is written in that many digits. *)
Lemma pad_Z_spec k z : (0 < k)%nat -> (0 <= z < 10 ^ Z.of_nat k)%Z ->
  String.length (pad_Z k z) = k /\ str_forall is_digit (pad_Z k z) = true /\ digits_value 0 (pad_Z k z) = Some z.
Proof.
  intros Hk Hz. pose proof (show_Z_length k z Hk Hz) as Hl. unfold pad_Z. rewrite Z.abs_eq by lia.
  assert ((z <? 0)%Z = false) as -> by lia. change ("" +:+ ?s) with s.
  destruct (show_Z_digits z) as [Hd _]; [lia|]. split_and!.
  - rewrite str_length_app, zeros_length. simpl. lia.
  - by rewrite str_forall_app, zeros_digits, Hd.
  - rewrite digits_value_zeros by done. apply digits_show_Z. lia.
Qed.
