(* ===== verification/Sidecar.v ===== *)
(** The sidecar classification table: src/internal/shared/scanmodel/sidecar.go
    and type.go, and the merge of built-in types into a stored table of
    src/internal/shared/appconfig/sidecar_types.go.

    Patterns are configuration, so the regular-expression engine is the class
    [Regexp]: what is proved holds for any. Orders are int32 in storage and int
    in a registry. The registry the process classifies against is a value the
    helpers take and [SetSidecarRegistry] replaces. *)
From stdpp Require Import strings list gmap sorting.
From Stdlib Require Import Ascii ZArith Lia.
From S2P Require Import Prelude GoPath.
#[local] Open Scope go_scope.

(** ** Vocabularies *)

Definition SidecarCategory : Type := string.
Definition SidecarType : Type := string.

Definition SidecarDiscStructure : SidecarType := "disc_structure".
Definition SidecarTrickplay : SidecarType := "trickplay".
Definition SidecarUnknown : SidecarType := "unknown".
Definition SidecarCategoryUnknown : SidecarCategory := "unknown".

Definition validSidecarCategories : list SidecarCategory :=
  ["image"; "video_extra"; "subtitle"; "metadata"; "audio"; "disc_structure"; "trickplay"; "unknown"].

(** The loop of [joinQuoted], the value at [i] of [n] being next. *)
Fixpoint joinQuoted_loop (i n : nat) (result : string) (quoted : list string) : string :=
  match quoted with
  | [] => result
  | value :: rest =>
      let result :=
        if (i =? 0)%nat then value
        else if (i =? n - 1)%nat then result +:+ " or " +:+ value
        else result +:+ ", " +:+ value in
      joinQuoted_loop (S i) n result rest
  end.

Definition joinQuoted (values : list string) : string :=
  let quoted := map quote values in
  match quoted with
  | [] => ""
  | [one] => one
  | _ => joinQuoted_loop 0 (length quoted) "" quoted
  end.

Definition ValidSidecarCategoriesText : string := joinQuoted validSidecarCategories.

Definition ParseSidecarCategory (category : string) : result SidecarCategory :=
  match List.find (fun candidate => String.eqb category candidate) validSidecarCategories with
  | Some candidate => Ok candidate
  | None =>
      Err ("mediascan: unknown sidecar category " +:+ quote category +:+ ", expected one of " +:+
           ValidSidecarCategoriesText)
  end.

Definition DirectoryType : Type := string.
Definition TypeMovie : DirectoryType := "movie".
Definition TypeTV : DirectoryType := "tv".
Definition TypeMusicVideo : DirectoryType := "music_video".

Definition validDirectoryTypes : list DirectoryType := [TypeMovie; TypeTV; TypeMusicVideo].

Definition ValidDirectoryTypesText : string := joinQuoted validDirectoryTypes.

Definition ParseDirectoryType (scanType : string) : result DirectoryType :=
  match List.find (fun candidate => String.eqb scanType candidate) validDirectoryTypes with
  | Some candidate => Ok candidate
  | None =>
      Err ("mediascan: unknown scan type " +:+ quote scanType +:+ ", expected one of " +:+
           ValidDirectoryTypesText)
  end.

Example ValidDirectoryTypesText_value :
  str_map (fun c => if Ascii.eqb c quote_char then "'"%char else c) ValidDirectoryTypesText =
  "'movie', 'tv' or 'music_video'".
Proof. reflexivity. Qed.

(** ** The table *)

(** appconfig.SidecarTypeDefinition, a stored entry. *)
Record Entry : Type := {
  eId : string;
  eType : string;
  eCategory : string;
  eOrder : Z;
  ePatterns : list string;
  eExtensions : list string;
}.

(** The built-in table of builtin_defaults.json. *)
Definition DefaultSidecarTypes : list Entry := [
  {| eId := "d6dd8837-3f91-4aa5-99a9-d2a8f35608e7"; eType := "poster"; eCategory := "image"; eOrder := 10;
     ePatterns := ["(?i)^(poster|folder|cover|default|movie)(?:[-._ ]?\d+)?$"; "(?i)[-._ ]poster(?:[-._ ]?\d+)?$"; "(?i)^season\d+([-._ ]?poster)?$"; "(?i)^season[-._ ]?specials([-._ ]?poster)?$"];
     eExtensions := [".jpg"; ".jpeg"; ".png"; ".tbn"; ".webp"; ".gif"; ".bmp"] |};
  {| eId := "32a37ee3-4f16-443a-9d94-3623216e3f1f"; eType := "fanart"; eCategory := "image"; eOrder := 20;
     ePatterns := ["(?i)^(fanart|backdrop|background|art)(?:[-._ ]?\d+)?$"; "(?i)[-._ ](fanart|backdrop|background)(?:[-._ ]?\d+)?$"];
     eExtensions := [".jpg"; ".jpeg"; ".png"; ".tbn"; ".webp"; ".gif"; ".bmp"] |};
  {| eId := "d760c51d-d54d-4edc-ab95-eb3495ba0444"; eType := "banner"; eCategory := "image"; eOrder := 30;
     ePatterns := ["(?i)^banner(?:[-._ ]?\d+)?$"; "(?i)[-._ ]banner(?:[-._ ]?\d+)?$"; "(?i)^season\d+[-._ ]?banner$"];
     eExtensions := [".jpg"; ".jpeg"; ".png"; ".tbn"; ".webp"; ".gif"; ".bmp"] |};
  {| eId := "bc68f4a4-1b0b-4e6d-850a-0de6c248740b"; eType := "clearlogo"; eCategory := "image"; eOrder := 40;
     ePatterns := ["(?i)^(clearlogo|logo)(?:[-._ ]?\d+)?$"; "(?i)[-._ ](clearlogo|logo)(?:[-._ ]?\d+)?$"];
     eExtensions := [".jpg"; ".jpeg"; ".png"; ".tbn"; ".webp"; ".gif"; ".bmp"] |};
  {| eId := "2c2d8be2-0416-47b1-a0ba-cf5b5b16710f"; eType := "clearart"; eCategory := "image"; eOrder := 50;
     ePatterns := ["(?i)^clearart(?:[-._ ]?\d+)?$"; "(?i)[-._ ]clearart(?:[-._ ]?\d+)?$"];
     eExtensions := [".jpg"; ".jpeg"; ".png"; ".tbn"; ".webp"; ".gif"; ".bmp"] |};
  {| eId := "547f0c65-6f82-4391-9453-3ff312d1d7ab"; eType := "discart"; eCategory := "image"; eOrder := 60;
     ePatterns := ["(?i)^(discart|disc|cdart)(?:[-._ ]?\d+)?$"; "(?i)[-._ ](discart|cdart)(?:[-._ ]?\d+)?$"];
     eExtensions := [".jpg"; ".jpeg"; ".png"; ".tbn"; ".webp"; ".gif"; ".bmp"] |};
  {| eId := "7175d6ee-ce4d-4f0c-91bc-e04a1838a434"; eType := "landscape"; eCategory := "image"; eOrder := 70;
     ePatterns := ["(?i)^landscape(?:[-._ ]?\d+)?$"; "(?i)[-._ ]landscape(?:[-._ ]?\d+)?$"];
     eExtensions := [".jpg"; ".jpeg"; ".png"; ".tbn"; ".webp"; ".gif"; ".bmp"] |};
  {| eId := "685ca281-7d66-4807-8d79-acdbaf13aa94"; eType := "thumb"; eCategory := "image"; eOrder := 80;
     ePatterns := ["(?i)^(thumb|thumbnail|characterart|keyart)(?:[-._ ]?\d+)?$"; "(?i)[-._ ]thumb(?:[-._ ]?\d+)?$"; "(?i)^season\d+[-._ ]?thumb$"];
     eExtensions := [".jpg"; ".jpeg"; ".png"; ".tbn"; ".webp"; ".gif"; ".bmp"] |};
  {| eId := "e6646d3b-ab5c-4edd-8d9a-064977042a57"; eType := "trailer"; eCategory := "video_extra"; eOrder := 90;
     ePatterns := ["(?i)^trailers?(?:[-._ ]?\d+)?$"; "(?i)[-._ ]trailer(?:[-._ ]?\d+)?$"];
     eExtensions := [".mkv"; ".mp4"; ".avi"; ".m4v"; ".mov"; ".wmv"; ".mpg"; ".mpeg"; ".ts"; ".webm"; ".flv"; ".iso"] |};
  {| eId := "b41b9fcf-17fc-4681-a6b0-5034f271f285"; eType := "behind_the_scenes"; eCategory := "video_extra"; eOrder := 100;
     ePatterns := ["(?i)^behind[-._ ]?the[-._ ]?scenes(?:[-._ ]?\d+)?$"; "(?i)[-._ ]behind[-._ ]?the[-._ ]?scenes(?:[-._ ]?\d+)?$"];
     eExtensions := [".mkv"; ".mp4"; ".avi"; ".m4v"; ".mov"; ".wmv"; ".mpg"; ".mpeg"; ".ts"; ".webm"; ".flv"; ".iso"] |};
  {| eId := "1459de00-b20f-4566-a8a4-75bc50625d7c"; eType := "deleted_scene"; eCategory := "video_extra"; eOrder := 110;
     ePatterns := ["(?i)^deleted[-._ ]?scenes?(?:[-._ ]?\d+)?$"; "(?i)[-._ ]deleted[-._ ]?scenes?(?:[-._ ]?\d+)?$"];
     eExtensions := [".mkv"; ".mp4"; ".avi"; ".m4v"; ".mov"; ".wmv"; ".mpg"; ".mpeg"; ".ts"; ".webm"; ".flv"; ".iso"] |};
  {| eId := "232fff23-0d11-4225-9ec3-f550d285a606"; eType := "featurette"; eCategory := "video_extra"; eOrder := 120;
     ePatterns := ["(?i)^featurettes?(?:[-._ ]?\d+)?$"; "(?i)[-._ ]featurette(?:[-._ ]?\d+)?$"];
     eExtensions := [".mkv"; ".mp4"; ".avi"; ".m4v"; ".mov"; ".wmv"; ".mpg"; ".mpeg"; ".ts"; ".webm"; ".flv"; ".iso"] |};
  {| eId := "7576c484-3fd9-42dd-b126-0dc7afb1bf07"; eType := "interview"; eCategory := "video_extra"; eOrder := 130;
     ePatterns := ["(?i)^interviews?(?:[-._ ]?\d+)?$"; "(?i)[-._ ]interview(?:[-._ ]?\d+)?$"];
     eExtensions := [".mkv"; ".mp4"; ".avi"; ".m4v"; ".mov"; ".wmv"; ".mpg"; ".mpeg"; ".ts"; ".webm"; ".flv"; ".iso"] |};
  {| eId := "26bde3ff-72eb-4a0d-a566-46d6e7705b8f"; eType := "scene"; eCategory := "video_extra"; eOrder := 140;
     ePatterns := ["(?i)^scenes?(?:[-._ ]?\d+)?$"; "(?i)[-._ ]scene(?:[-._ ]?\d+)?$"];
     eExtensions := [".mkv"; ".mp4"; ".avi"; ".m4v"; ".mov"; ".wmv"; ".mpg"; ".mpeg"; ".ts"; ".webm"; ".flv"; ".iso"] |};
  {| eId := "8e276e7a-f85c-4df7-ad97-c90c278a91a3"; eType := "short"; eCategory := "video_extra"; eOrder := 150;
     ePatterns := ["(?i)^shorts?(?:[-._ ]?\d+)?$"; "(?i)[-._ ]short(?:[-._ ]?\d+)?$"];
     eExtensions := [".mkv"; ".mp4"; ".avi"; ".m4v"; ".mov"; ".wmv"; ".mpg"; ".mpeg"; ".ts"; ".webm"; ".flv"; ".iso"] |};
  {| eId := "4e644b41-5075-4b67-bbbc-83c334bb4111"; eType := "other_extra"; eCategory := "video_extra"; eOrder := 160;
     ePatterns := ["(?i)^(extras?|other|sample)(?:[-._ ]?\d+)?$"; "(?i)[-._ ](extra|other|sample)(?:[-._ ]?\d+)?$"];
     eExtensions := [".mkv"; ".mp4"; ".avi"; ".m4v"; ".mov"; ".wmv"; ".mpg"; ".mpeg"; ".ts"; ".webm"; ".flv"; ".iso"] |};
  {| eId := "c1311474-10c3-4d91-8862-4aed1aca9bae"; eType := "theme"; eCategory := "audio"; eOrder := 170;
     ePatterns := ["(?i)^theme(?:[-._ ]?\d+)?$"; "(?i)[-._ ]theme(?:[-._ ]?\d+)?$"];
     eExtensions := [".mp3"; ".flac"; ".m4a"; ".wav"; ".ogg"; ".opus"; ".aac"] |};
  {| eId := "e905c3d8-2e1e-4d37-b2de-bea29fc0c7b4"; eType := "subtitle"; eCategory := "subtitle"; eOrder := 180;
     ePatterns := ["(?i)^.+$"];
     eExtensions := [".srt"; ".ass"; ".ssa"; ".sub"; ".idx"; ".vtt"; ".smi"; ".sup"] |};
  {| eId := "25325770-1dca-4999-a14d-9100908a1124"; eType := "nfo"; eCategory := "metadata"; eOrder := 190;
     ePatterns := ["(?i)^.+$"];
     eExtensions := [".nfo"] |};
  {| eId := "d76d6f3f-0675-42b5-b849-7ba4ac675508"; eType := "disc_structure"; eCategory := "disc_structure"; eOrder := 200;
     ePatterns := ["(?i)^.+$"];
     eExtensions := [".ifo"; ".bup"; ".vob"; ".bdmv"; ".m2ts"; ".mpls"; ".clpi"] |};
  {| eId := "9f6b1a2c-58e4-4c7f-9c4a-2f0f6f4b1d3e"; eType := "trickplay"; eCategory := "trickplay"; eOrder := 210;
     ePatterns := ["(?i)^\d+$"];
     eExtensions := [".jpg"] |}
].

(** A regular-expression engine: regexp.Compile and Regexp.MatchString. *)
Class Regexp : Type := {
  regexp : Type;
  Compile : string -> result regexp;
  MatchString : regexp -> string -> bool;
}.

Definition MaxInt : Z := 9223372036854775807.

(** [filepath.Ext]: the last dot of the last path element and what follows. *)
Fixpoint Ext_loop (s : string) : option string :=
  match s with
  | EmptyString => None
  | String c rest =>
      match Ext_loop rest with
      | Some extension => Some extension
      | None => if Ascii.eqb c "."%char then Some s else None
      end
  end.

Definition Ext (path : string) : string := default "" (Ext_loop (split_last path).2).

Definition normalizedExtensions (extensions : list string) : list string :=
  flat_map (fun extension =>
    let extension := to_lower (trim_space extension) in
    if String.eqb extension "" then []
    else [if has_prefix "." extension then extension else "." +:+ extension]) extensions.

Section registry.
Context `{Regexp}.

(** SidecarTypeDefinition, a compiled entry. *)
Record SidecarTypeDefinition : Type := {
dId : string;
dType : SidecarType;
dCategory : SidecarCategory;
dOrder : Z;
dPatterns : list string;
dExtensions : list string;
dCompiled : list regexp;
}.

Definition Enabled (d : SidecarTypeDefinition) : bool := negb (dOrder d =? 0)%Z.

Definition Matches (d : SidecarTypeDefinition) (baseName : string) : bool :=
existsb (fun pattern => MatchString pattern baseName) (dCompiled d).

Definition AcceptsExtension (d : SidecarTypeDefinition) (extension : string) : bool :=
match dExtensions d with
| [] => true
| extensions => existsb (fun accepted => String.eqb accepted extension) extensions
end.

Record SidecarRegistry : Type := {
rDefinitions : list SidecarTypeDefinition;
rAll : list SidecarTypeDefinition;
rByName : gmap string SidecarTypeDefinition;
rByCategory : gmap string (list SidecarTypeDefinition);
}.

(** What the loop of [NewSidecarRegistry] builds: the registry, the problems,
  the ids and the enabled orders taken so far with the type that took them. *)
Record builder : Type := {
bRegistry : SidecarRegistry;
bProblems : list string;
bIds : gmap string string;
bOrders : gmap Z string;
}.

Definition entryText (index : nat) (entry : Entry) : string :=
"entry " +:+ show_Z (Z.of_nat index) +:+ " (" +:+ quote (eType entry) +:+ "): ".

Definition problem (b : builder) (texts : list string) : builder :=
{| bRegistry := bRegistry b; bProblems := bProblems b ++ texts; bIds := bIds b; bOrders := bOrders b |}.

(** Compiles the patterns of an entry, reporting the ones that do not compile. *)
Fixpoint compilePatterns (index : nat) (entry : Entry) (patterns : list string)
: list regexp * list string :=
match patterns with
| [] => ([], [])
| pattern :: rest =>
    let '(compiled, problems) := compilePatterns index entry rest in
    match Compile pattern with
    | Ok one => (one :: compiled, problems)
    | Err err =>
        (compiled, (entryText index entry +:+ "pattern " +:+ quote pattern +:+ ": " +:+ err) :: problems)
    end
end.

(** Records a definition in the registry. *)
Definition addDefinition (r : SidecarRegistry) (d : SidecarTypeDefinition) : SidecarRegistry :=
{| rDefinitions := if Enabled d then rDefinitions r ++ [d] else rDefinitions r;
   rAll := rAll r ++ [d];
   rByName := <[dType d := d]> (rByName r);
   rByCategory :=
     if Enabled d
     then <[dCategory d := default [] (rByCategory r !! dCategory d) ++ [d]]> (rByCategory r)
     else rByCategory r |}.

(** The body of the loop, for the entry at an index. *)
Definition addEntry (b : builder) (index : nat) (entry : Entry) : builder :=
if String.eqb (eType entry) "" then
  problem b ["entry " +:+ show_Z (Z.of_nat index) +:+ ": type is required"]
else if String.eqb (eId entry) "" then
  problem b [entryText index entry +:+ "id is required"]
else
  match bIds b !! eId entry with
  | Some existing =>
      problem b [entryText index entry +:+ "id " +:+ quote (eId entry) +:+ " is already used by " +:+ quote existing]
  | None =>
  match rByName (bRegistry b) !! eType entry with
  | Some _ => problem b [entryText index entry +:+ "duplicate type"]
  | None =>
  match (if (eOrder entry =? 0)%Z then None else bOrders b !! eOrder entry) with
  | Some existing =>
      problem b [entryText index entry +:+ "order " +:+ show_Z (eOrder entry) +:+ " is already used by " +:+ quote existing]
  | None =>
  match ParseSidecarCategory (eCategory entry) with
  | Err err => problem b [entryText index entry +:+ err]
  | Ok category =>
  match ePatterns entry with
  | [] => problem b [entryText index entry +:+ "at least one pattern is required"]
  | patterns =>
      let '(compiled, problems) := compilePatterns index entry patterns in
      match problems with
      | _ :: _ => problem b problems
      | [] =>
          let definition :=
            {| dId := eId entry; dType := eType entry; dCategory := category; dOrder := eOrder entry;
               dPatterns := patterns; dExtensions := normalizedExtensions (eExtensions entry);
               dCompiled := compiled |} in
          {| bRegistry := addDefinition (bRegistry b) definition;
             bProblems := bProblems b;
             bIds := <[eId entry := eType entry]> (bIds b);
             bOrders := if (eOrder entry =? 0)%Z then bOrders b else <[eOrder entry := eType entry]> (bOrders b) |}
      end
  end end end end end.

Fixpoint addEntries (b : builder) (index : nat) (entries : list Entry) : builder :=
match entries with
| [] => b
| entry :: rest => addEntries (addEntry b index entry) (S index) rest
end.

Definition emptyRegistry : SidecarRegistry :=
{| rDefinitions := []; rAll := []; rByName := ∅; rByCategory := ∅ |}.

Definition emptyBuilder : builder :=
{| bRegistry := emptyRegistry; bProblems := []; bIds := ∅; bOrders := ∅ |}.

Definition sortKeyFor (d : SidecarTypeDefinition) : Z := if negb (Enabled d) then MaxInt else dOrder d.

Definition NewSidecarRegistry (definitions : list Entry) : result SidecarRegistry :=
let definitions := match definitions with [] => DefaultSidecarTypes | _ => definitions end in
let b := addEntries emptyBuilder 0 definitions in
match bProblems b with
| _ :: _ =>
    Err ("mediascan: invalid sidecar type table:" +:+ newline +:+ "  " +:+
         str_join (newline +:+ "  ") (bProblems b))
| [] =>
    Ok {| rDefinitions := stable_sort dOrder Z.ltb (rDefinitions (bRegistry b));
          rAll := stable_sort sortKeyFor Z.ltb (rAll (bRegistry b));
          rByName := rByName (bRegistry b);
          rByCategory := rByCategory (bRegistry b) |}
end.

(** ** Questions *)

Definition Match (r : SidecarRegistry) (fileName : string) : option SidecarTypeDefinition :=
let extension := to_lower (Ext fileName) in
let baseName := trim_suffix (Base fileName) (Ext fileName) in
List.find (fun definition => AcceptsExtension definition extension && Matches definition baseName)
  (rDefinitions r).

Definition ByCategory (r : SidecarRegistry) (category : SidecarCategory) : list SidecarTypeDefinition :=
default [] (rByCategory r !! category).

Definition Lookup (r : SidecarRegistry) (sidecarType : SidecarType) : option SidecarTypeDefinition :=
rByName r !! sidecarType.

Definition IsEnabled (r : SidecarRegistry) (sidecarType : SidecarType) : bool :=
match Lookup r sidecarType with Some definition => Enabled definition | None => false end.

Definition Definitions (r : SidecarRegistry) : list SidecarTypeDefinition := rDefinitions r.
Definition AllDefinitions (r : SidecarRegistry) : list SidecarTypeDefinition := rAll r.

(** The table in force before any is set: the built-in one, or a panic. *)
Definition initialRegistry : outcome SidecarRegistry :=
match NewSidecarRegistry [] with Ok registry => Done registry | Err _ => Panic end.

(** [SetSidecarRegistry], to the table in force afterwards; nil is ignored. *)
Definition SetSidecarRegistry (registry : option SidecarRegistry) (active : SidecarRegistry) : SidecarRegistry :=
default active registry.

Definition MatchSidecarType (active : SidecarRegistry) := Match active.
Definition SidecarTypesByCategory (active : SidecarRegistry) := ByCategory active.
Definition LookupSidecarType (active : SidecarRegistry) := Lookup active.

Definition CategoryOf (active : SidecarRegistry) (sidecarType : SidecarType) : SidecarCategory :=
match LookupSidecarType active sidecarType with
| Some definition => dCategory definition
| None => SidecarCategoryUnknown
end.

Definition ValidSidecarTypesText (active : SidecarRegistry) : string :=
joinQuoted (map dType (Definitions active)).

Definition ParseSidecarType (active : SidecarRegistry) (sidecarType : string) : result SidecarType :=
match LookupSidecarType active sidecarType with
| Some _ => Ok sidecarType
| None =>
    Err ("mediascan: unknown sidecar type " +:+ quote sidecarType +:+ ", expected one of " +:+
         ValidSidecarTypesText active)
end.
End registry.

(** ** Merging the built-in types *)

(** int32 arithmetic. *)
Definition wrap32 (z : Z) : Z := (z + 2147483648) mod 4294967296 - 2147483648.

Record merge : Type := {
  mMerged : list Entry;
  mAdded : nat;
  mIds : gset string;
  mOrders : gset Z;
  mHighest : Z;
}.

(** What the stored table takes: its ids, its enabled orders, the highest. *)
Definition mergeStored (stored : list Entry) : merge :=
  foldl (fun m entry =>
    {| mMerged := mMerged m; mAdded := mAdded m;
       mIds := {[eId entry]} ∪ mIds m;
       mOrders := if (eOrder entry =? 0)%Z then mOrders m else {[eOrder entry]} ∪ mOrders m;
       mHighest :=
         if (eOrder entry =? 0)%Z then mHighest m
         else if (mHighest m <? eOrder entry)%Z then eOrder entry else mHighest m |})
    {| mMerged := stored; mAdded := 0; mIds := ∅; mOrders := ∅; mHighest := 0 |} stored.

Definition withOrder (entry : Entry) (order : Z) : Entry :=
  {| eId := eId entry; eType := eType entry; eCategory := eCategory entry; eOrder := order;
     ePatterns := ePatterns entry; eExtensions := eExtensions entry |}.

(** The body of the loop over the defaults. *)
Definition mergeOne (m : merge) (missing : Entry) : merge :=
  if decide (eId missing ∈ mIds m) then m
  else
    let '(missing, highest) :=
      if decide (eOrder missing ∈ mOrders m) then
        let highest := wrap32 (mHighest m + 10) in (withOrder missing highest, highest)
      else (missing, if (mHighest m <? eOrder missing)%Z then eOrder missing else mHighest m) in
    {| mMerged := mMerged m ++ [missing]; mAdded := S (mAdded m);
       mIds := {[eId missing]} ∪ mIds m; mOrders := {[eOrder missing]} ∪ mOrders m;
       mHighest := highest |}.

Definition MergeMissingSidecarTypes (stored : list Entry) : list Entry * nat :=
  match stored with
  | [] => (stored, 0%nat)
  | _ =>
      let m := foldl mergeOne (mergeStored stored) DefaultSidecarTypes in
      (mMerged m, mAdded m)
  end.

(** * What a table must satisfy *)

Section table.
Context `{Regexp}.

Definition entry_ok (e : Entry) : Prop :=
eType e <> "" /\ eId e <> "" /\ eCategory e ∈ validSidecarCategories /\ ePatterns e <> [] /\
forall pattern, pattern ∈ ePatterns e -> is_ok (Compile pattern) = true.

(** The orders of the entries that are switched on. *)
Definition enabledOrders (l : list Entry) : list Z := List.filter (fun o => negb (o =? 0)%Z) (map eOrder l).

Record table_ok (l : list Entry) : Prop := {
to_entries e : e ∈ l -> entry_ok e;
to_ids : NoDup (map eId l);
to_types : NoDup (map eType l);
to_orders : NoDup (enabledOrders l);
}.

(** The compiled form of a valid entry. *)
Definition definitionOf (e : Entry) : SidecarTypeDefinition :=
{| dId := eId e; dType := eType e; dCategory := eCategory e; dOrder := eOrder e;
   dPatterns := ePatterns e; dExtensions := normalizedExtensions (eExtensions e);
   dCompiled := omap (fun pattern => match Compile pattern with Ok one => Some one | Err _ => None end) (ePatterns e) |}.

(** The builder after the entries [pre], all of them accepted. *)
Record built (pre : list Entry) (b : builder) : Prop := {
bu_problems : bProblems b = [];
bu_all : rAll (bRegistry b) = map definitionOf pre;
bu_definitions : rDefinitions (bRegistry b) = List.filter Enabled (map definitionOf pre);
bu_byName t d : rByName (bRegistry b) !! t = Some d <-> d ∈ map definitionOf pre /\ dType d = t;
bu_byCategory c : default [] (rByCategory (bRegistry b) !! c) =
  List.filter (fun d => Enabled d && String.eqb (dCategory d) c) (map definitionOf pre);
bu_ids i : is_Some (bIds b !! i) <-> i ∈ map eId pre;
bu_orders o : is_Some (bOrders b !! o) <-> o ∈ enabledOrders pre;
}.

Lemma ParseSidecarCategory_spec c :
ParseSidecarCategory c = Ok c /\ c ∈ validSidecarCategories \/
(exists err, ParseSidecarCategory c = Err err) /\ c ∉ validSidecarCategories.
Proof.
unfold ParseSidecarCategory. destruct (List.find _ _) as [c'|] eqn:Hf.
- left. apply find_some in Hf as [Hin ->%String.eqb_eq]. by rewrite list_elem_of_In.
- right. split; [eauto|]. intros Hin. apply list_elem_of_In in Hin.
  apply (find_none _ _ Hf) in Hin. by rewrite String.eqb_refl in Hin.
Qed.

Lemma compilePatterns_spec index e l :
(compilePatterns index e l).1 =
  omap (fun pattern => match Compile pattern with Ok one => Some one | Err _ => None end) l /\
((compilePatterns index e l).2 = [] <-> forall pattern, pattern ∈ l -> is_ok (Compile pattern) = true).
Proof.
induction l as [|p l [IH1 IH2]]; simpl.
{ split; [done|]. split; [|done]. by intros _ ? ?%elem_of_nil. }
destruct (compilePatterns index e l) as [compiled problems]. simpl in *. subst compiled.
setoid_rewrite elem_of_cons. destruct (Compile p) as [one|err] eqn:Hc; simpl.
- split; [done|]. rewrite IH2. split; [|auto]. intros Hall q [->|Hq]; [by rewrite Hc|auto].
- split; [done|]. split; [done|]. intros Hall. specialize (Hall p (or_introl eq_refl)). by rewrite Hc in Hall.
Qed.

(** What the body of the loop asks of an entry, given the entries before it. *)
Definition admissible (pre : list Entry) (e : Entry) : Prop :=
entry_ok e /\ eId e ∉ map eId pre /\ eType e ∉ map eType pre /\
(eOrder e <> 0%Z -> eOrder e ∉ enabledOrders pre).

Lemma byName_None pre b t : built pre b -> rByName (bRegistry b) !! t = None <-> t ∉ map eType pre.
Proof.
intros Hb. split.
- intros Hn Hin. apply list_elem_of_fmap in Hin as (e & -> & He).
  assert (rByName (bRegistry b) !! eType e = Some (definitionOf e)) as Hs.
  { apply (bu_byName _ _ Hb). split; [|done]. apply list_elem_of_fmap. eauto. }
  congruence.
- intros Hn. destruct (rByName (bRegistry b) !! t) as [d|] eqn:Hd; [|done]. exfalso. apply Hn.
  apply (bu_byName _ _ Hb) in Hd as [Hd <-]. apply list_elem_of_fmap in Hd as (e & -> & He).
  apply list_elem_of_fmap. by exists e.
Qed.

Lemma enabledOrders_snoc pre e :
enabledOrders (pre ++ [e]) = enabledOrders pre ++ (if (eOrder e =? 0)%Z then [] else [eOrder e]).
Proof. unfold enabledOrders. rewrite map_app, List.filter_app. simpl. by destruct (eOrder e =? 0)%Z. Qed.

(** Storing a definition keeps the registry in step with the entries. *)
Lemma built_snoc pre b e :
built pre b -> eType e ∉ map eType pre ->
built (pre ++ [e])
  {| bRegistry := addDefinition (bRegistry b) (definitionOf e); bProblems := bProblems b;
     bIds := <[eId e := eType e]> (bIds b);
     bOrders := if (eOrder e =? 0)%Z then bOrders b else <[eOrder e := eType e]> (bOrders b) |}.
Proof.
intros Hb Hty. pose proof (proj2 (byName_None _ _ _ Hb) Hty) as Hnone. destruct Hb as [H1 H2 H3 H4 H5 H6 H7].
constructor; cbn [bRegistry bProblems bIds bOrders addDefinition rAll rDefinitions rByName rByCategory].
- done.
- by rewrite H2, map_app.
- rewrite H3, map_app, List.filter_app. simpl. by destruct (Enabled (definitionOf e)); rewrite ?app_nil_r.
- intros t d. rewrite map_app, elem_of_app. simpl. rewrite list_elem_of_singleton.
  change (dType (definitionOf e)) with (eType e). destruct (decide (eType e = t)) as [<-|Hne].
  + rewrite lookup_insert_eq. split.
    * intros [= <-]. by split; [right|].
    * intros [[Hd| ->] Ht]; [|done]. assert (rByName (bRegistry b) !! eType e = Some d); [by apply H4|congruence].
  + rewrite lookup_insert_ne, H4 by done. split; [tauto|]. by intros [[?| ->] ?].
- intros c. rewrite map_app, List.filter_app, <- H5. simpl.
  change (dCategory (definitionOf e)) with (eCategory e).
  destruct (Enabled (definitionOf e)); simpl; [|by rewrite app_nil_r].
  destruct (String.eqb_spec (eCategory e) c) as [<-|Hne].
  + by rewrite lookup_insert_eq.
  + by rewrite lookup_insert_ne, app_nil_r.
- intros i. rewrite map_app, elem_of_app, <- H6. simpl. rewrite list_elem_of_singleton.
  destruct (decide (eId e = i)) as [->|Hne].
  + rewrite lookup_insert_eq. split; [auto|]. by eexists.
  + rewrite lookup_insert_ne by done. split; [auto|]. by intros [?| ->].
- intros o. rewrite enabledOrders_snoc, elem_of_app, <- H7. destruct (eOrder e =? 0)%Z.
  + split; [auto|]. by intros [?|?%elem_of_nil].
  + rewrite list_elem_of_singleton. destruct (decide (eOrder e = o)) as [->|Hne].
    * rewrite lookup_insert_eq. split; [auto|]. by eexists.
    * rewrite lookup_insert_ne by done. split; [auto|]. by intros [?| ->].
Qed.

Lemma addEntry_built pre b index e :
built pre b ->
(admissible pre e /\ built (pre ++ [e]) (addEntry b index e)) \/
(~ admissible pre e /\ bProblems (addEntry b index e) <> []).
Proof.
intros Hb. unfold addEntry, admissible, entry_ok.
assert (Hp : forall t texts, bProblems (problem b (t :: texts)) <> []).
{ intros t texts. simpl. by rewrite (bu_problems _ _ Hb). }
destruct (String.eqb_spec (eType e) "") as [Ht|Ht]; [right; split; [tauto|apply Hp]|].
destruct (String.eqb_spec (eId e) "") as [Hi|Hi]; [right; split; [tauto|apply Hp]|].
pose proof (bu_ids _ _ Hb (eId e)) as Hids.
destruct (bIds b !! eId e) as [ex|].
{ right. split; [|apply Hp]. intros (_ & Hn & _). apply Hn, Hids. by eexists. }
pose proof (byName_None _ _ (eType e) Hb) as Hty.
destruct (rByName (bRegistry b) !! eType e) as [d|].
{ right. split; [|apply Hp]. intros (_ & _ & Hn & _). by apply Hty in Hn. }
pose proof (bu_orders _ _ Hb (eOrder e)) as Hord.
destruct (if (eOrder e =? 0)%Z then None else bOrders b !! eOrder e) as [ex|] eqn:Ho.
{ right. split; [|apply Hp]. destruct (Z.eqb_spec (eOrder e) 0) as [|Hz]; [done|].
  intros (_ & _ & _ & Hn). apply (Hn Hz), Hord. rewrite Ho. by eexists. }
assert (Hfree : eOrder e <> 0%Z -> eOrder e ∉ enabledOrders pre).
{ intros Hz. rewrite (proj2 (Z.eqb_neq _ _) Hz) in Ho. rewrite Ho in Hord. rewrite <- Hord. by intros []. }
destruct (ParseSidecarCategory_spec (eCategory e)) as [[-> Hc]|[[err ->] Hc]];
  [|right; split; [tauto|apply Hp]].
destruct (ePatterns e) as [|p ps] eqn:Hpat; [right; split; [tauto|apply Hp]|]. rewrite <- Hpat.
destruct (compilePatterns_spec index e (ePatterns e)) as [Hcomp Hok].
destruct (compilePatterns index e (ePatterns e)) as [compiled [|pr problems]]; simpl in Hcomp, Hok.
- left. subst compiled. split.
  + split_and!; [done..|rewrite Hpat; done|by apply Hok| | |done].
    * intros Hin. apply Hids in Hin. by destruct Hin.
    * by apply Hty.
  + apply (built_snoc pre b e); [done|]. by apply Hty.
- right. split; [|apply Hp]. intros ((_ & _ & _ & _ & Hall) & _). by apply Hok in Hall.
Qed.

Lemma addEntry_problems b index e : bProblems b <> [] -> bProblems (addEntry b index e) <> [].
Proof.
intros Hne. assert (Hp : forall texts, bProblems (problem b texts) <> []).
{ intros texts. simpl. intros Hnil. by apply app_nil in Hnil as [? _]. }
unfold addEntry. repeat case_match; first [apply Hp | exact Hne].
Qed.

Lemma addEntries_problems b index l : bProblems b <> [] -> bProblems (addEntries b index l) <> [].
Proof. revert b index. induction l; intros b index; simpl; [done|]. intros Hb. by apply IHl, addEntry_problems. Qed.

Lemma table_ok_snoc pre e : table_ok pre -> table_ok (pre ++ [e]) <-> admissible pre e.
Proof.
intros [H1 H2 H3 H4]. unfold admissible. split.
- intros [G1 G2 G3 G4]. rewrite map_app in G2, G3. simpl in G2, G3. rewrite enabledOrders_snoc in G4.
  apply NoDup_app in G2 as (_ & G2 & _), G3 as (_ & G3 & _), G4 as (_ & G4 & _). split_and!.
  + apply G1, elem_of_app. right. left.
  + intros Hin. apply (G2 _ Hin). left.
  + intros Hin. apply (G3 _ Hin). left.
  + intros Hz Hin. apply (G4 _ Hin). rewrite (proj2 (Z.eqb_neq _ _) Hz). left.
- intros (G1 & G2 & G3 & G4). constructor.
  + intros x [Hx| ->%list_elem_of_singleton]%elem_of_app; auto.
  + rewrite map_app. apply NoDup_app. split_and!; [done| |apply NoDup_singleton].
    by intros k Hk ->%list_elem_of_singleton.
  + rewrite map_app. apply NoDup_app. split_and!; [done| |apply NoDup_singleton].
    by intros k Hk ->%list_elem_of_singleton.
  + rewrite enabledOrders_snoc. destruct (Z.eqb_spec (eOrder e) 0) as [Hz|Hz]; [by rewrite app_nil_r|].
    apply NoDup_app. split_and!; [done| |apply NoDup_singleton].
    intros k Hk ->%list_elem_of_singleton. by apply G4.
Qed.

Lemma table_ok_prefix pre post : table_ok (pre ++ post) -> table_ok pre.
Proof.
intros [G1 G2 G3 G4]. rewrite map_app in G2, G3. unfold enabledOrders in G4.
rewrite map_app, List.filter_app in G4.
apply NoDup_app in G2 as (G2 & _), G3 as (G3 & _), G4 as (G4 & _).
constructor; [|done..]. intros e He. apply G1, elem_of_app. by left.
Qed.

Lemma addEntries_spec pre b index l :
built pre b -> table_ok pre ->
(table_ok (pre ++ l) /\ built (pre ++ l) (addEntries b index l)) \/
(~ table_ok (pre ++ l) /\ bProblems (addEntries b index l) <> []).
Proof.
revert pre b index. induction l as [|e l IH]; intros pre b index Hb Hok; simpl.
- rewrite app_nil_r. by left.
- replace (pre ++ e :: l) with ((pre ++ [e]) ++ l) by (by rewrite <- app_assoc).
  destruct (addEntry_built pre b index e Hb) as [[Ha Hb']|[Ha Hp]].
  + apply IH; [done|]. by apply table_ok_snoc.
  + right. split; [|by apply addEntries_problems]. intros Hall%table_ok_prefix.
    by apply table_ok_snoc in Hall.
Qed.

(** The table [NewSidecarRegistry] compiles. *)
Definition effective (l : list Entry) : list Entry := match l with [] => DefaultSidecarTypes | _ => l end.

Lemma built_nil : built [] emptyBuilder.
Proof.
constructor; try done.
- intros t d. cbn. rewrite lookup_empty, elem_of_nil. naive_solver.
- intros i. cbn. rewrite lookup_empty, elem_of_nil. split; [by intros []|done].
- intros o. cbn. rewrite lookup_empty, elem_of_nil. split; [by intros []|done].
Qed.

Lemma table_ok_nil : table_ok [].
Proof. constructor; [by intros e ?%elem_of_nil|constructor..]. Qed.

Lemma NewSidecarRegistry_Ok l r :
NewSidecarRegistry l = Ok r ->
table_ok (effective l) /\
rDefinitions r = stable_sort dOrder Z.ltb (List.filter Enabled (map definitionOf (effective l))) /\
rAll r = stable_sort sortKeyFor Z.ltb (map definitionOf (effective l)) /\
(forall t d, rByName r !! t = Some d <-> d ∈ map definitionOf (effective l) /\ dType d = t) /\
(forall c, ByCategory r c =
   List.filter (fun d => Enabled d && String.eqb (dCategory d) c) (map definitionOf (effective l))).
Proof.
unfold NewSidecarRegistry. fold (effective l).
destruct (addEntries_spec [] emptyBuilder 0 (effective l) built_nil table_ok_nil) as [[Hok Hb]|[_ Hp]].
- simpl in Hok, Hb. rewrite (bu_problems _ _ Hb). intros [= <-]. unfold ByCategory.
  cbn [rDefinitions rAll rByName rByCategory].
  rewrite (bu_definitions _ _ Hb), (bu_all _ _ Hb). split_and!; [done..|apply Hb|apply Hb].
- destruct (bProblems _); [done|]. done.
Qed.

Lemma NewSidecarRegistry_iff l : is_ok (NewSidecarRegistry l) = true <-> table_ok (effective l).
Proof.
unfold NewSidecarRegistry. fold (effective l).
destruct (addEntries_spec [] emptyBuilder 0 (effective l) built_nil table_ok_nil) as [[Hok Hb]|[Hok Hp]].
- simpl in Hok, Hb. by rewrite (bu_problems _ _ Hb).
- simpl in Hok. destruct (bProblems _); [done|]. by split.
Qed.
End table.

(** * Classification *)

Section classify.
Context `{Regexp}.

(** What [Match] asks of a definition for a file name. *)
Definition accepts (d : SidecarTypeDefinition) (fileName : string) : bool :=
AcceptsExtension d (to_lower (Ext fileName)) &&
Matches d (trim_suffix (Base fileName) (Ext fileName)).

(** The enabled definitions of a table, in the table's order. *)
Definition enabledDefinitions (l : list Entry) : list SidecarTypeDefinition :=
List.filter Enabled (map definitionOf l).

Lemma enabled_orders l : map dOrder (enabledDefinitions l) = enabledOrders l.
Proof.
unfold enabledDefinitions, enabledOrders. induction l as [|e l IH]; simpl; [done|].
unfold Enabled at 1. simpl. destruct (eOrder e =? 0)%Z; simpl; by rewrite IH.
Qed.

Lemma Z_ltb_total (a b c : Z) : (a <? b)%Z = false -> (b <? c)%Z = false -> (a <? c)%Z = false.
Proof. rewrite !Z.ltb_ge. lia. Qed.

Lemma Z_ltb_asym (a b : Z) : (a <? b)%Z = true -> (b <? a)%Z = false.
Proof. rewrite Z.ltb_lt, Z.ltb_ge. lia. Qed.

(** A sorted table with distinct orders does not depend on how it was stored. *)
Lemma sorted_orders_unique (l l' : list SidecarTypeDefinition) :
l ≡ₚ l' -> NoDup (map dOrder l) ->
StronglySorted (in_order dOrder Z.ltb) l -> StronglySorted (in_order dOrder Z.ltb) l' -> l = l'.
Proof.
intros Hp Hnd Hs Hs'. pose proof (NoDup_map_inj dOrder l Hnd) as Hinj.
revert l' Hp Hs'. induction Hs as [|x l Hs IH Hall]; intros l' Hp Hs'.
{ by apply Permutation_nil in Hp as ->. }
destruct Hs' as [|y l' Hs' Hall']; [by apply Permutation_sym, Permutation_nil in Hp|].
assert (x = y) as ->.
{ assert (y ∈ x :: l) as Hy by (rewrite Hp; left). assert (x ∈ y :: l') as Hx by (rewrite <- Hp; left).
  apply Hinj; [left|done|]. apply elem_of_cons in Hy as [->|Hy]; [done|].
  apply elem_of_cons in Hx as [->|Hx]; [done|].
  rewrite Forall_forall in Hall, Hall'. specialize (Hall _ Hy). specialize (Hall' _ Hx).
  unfold in_order in *. apply Z.ltb_ge in Hall, Hall'. lia. }
f_equal. apply Permutation_cons_inv in Hp. simpl in Hnd. apply NoDup_cons in Hnd as [_ Hnd].
apply IH; [done| |done|done]. intros a b Ha Hb. apply Hinj; by right.
Qed.

Lemma rDefinitions_spec l r :
NewSidecarRegistry l = Ok r ->
rDefinitions r = stable_sort dOrder Z.ltb (enabledDefinitions (effective l)) /\
StronglySorted (in_order dOrder Z.ltb) (rDefinitions r).
Proof.
intros (_ & -> & _)%NewSidecarRegistry_Ok. split; [done|].
apply stable_sort_sorted; [apply Z_ltb_total|apply Z_ltb_asym].
Qed.

Lemma enabledDefinitions_perm l l' : l ≡ₚ l' -> enabledDefinitions l ≡ₚ enabledDefinitions l'.
Proof.
unfold enabledDefinitions. induction 1 as [|x a b _ IH|x y a|a b c _ IH1 _ IH2]; simpl.
- done.
- destruct (Enabled _); by rewrite IH.
- destruct (Enabled (definitionOf x)), (Enabled (definitionOf y)); try done. apply Permutation_swap.
- by rewrite IH1.
Qed.

Lemma table_ok_perm l l' : l ≡ₚ l' -> table_ok l -> table_ok l'.
Proof.
intros Hp [H1 H2 H3 H4]. constructor.
- intros e He. apply H1. by rewrite Hp.
- by rewrite <- (Permutation_map _ Hp).
- by rewrite <- (Permutation_map _ Hp).
- rewrite <- enabled_orders in *. by rewrite <- (Permutation_map _ (enabledDefinitions_perm _ _ Hp)).
Qed.

Lemma find_first {A} (P : A -> bool) R (l : list A) x :
StronglySorted R l -> List.find P l = Some x -> x ∈ l /\ P x = true /\ forall y, y ∈ l -> P y = true -> y = x \/ R x y.
Proof.
induction 1 as [|y l Hs IH Hall]; simpl; [done|]. destruct (P y) eqn:Hy.
- intros [= <-]. split; [left|]. split; [done|]. intros z [->|Hz]%elem_of_cons _; [by left|right].
  rewrite Forall_forall in Hall. by apply Hall.
- intros (Hx & HP & Hr)%IH. split; [by right|]. split; [done|].
  intros z [->|Hz]%elem_of_cons Hz'; [congruence|by apply Hr].
Qed.

(** [NewSidecarRegistry] accepts a table exactly when it is a valid one:
  every entry has an id, a type, a known category and at least one pattern,
  every pattern compiles, and ids, type names and the orders of the enabled
  entries are each distinct. An empty table stands for the built-in one. *)
Theorem NewSidecarRegistry_accepts l : is_ok (NewSidecarRegistry l) = true <-> table_ok (effective l).
Proof. apply NewSidecarRegistry_iff. Qed.

(** First match wins by order: a file name is classified as the
  lowest-ordered enabled entry that accepts it, every other enabled entry
  accepting it having a strictly higher order, and is left unclassified
  only when no enabled entry accepts it. *)
Theorem Match_lowest_order l r fileName :
NewSidecarRegistry l = Ok r ->
match Match r fileName with
| Some d =>
    d ∈ enabledDefinitions (effective l) /\ accepts d fileName = true /\
    forall d', d' ∈ enabledDefinitions (effective l) -> accepts d' fileName = true ->
      d' = d \/ (dOrder d < dOrder d')%Z
| None => forall d, d ∈ enabledDefinitions (effective l) -> accepts d fileName = false
end.
Proof.
intros Hr. pose proof (NewSidecarRegistry_Ok l r Hr) as (Hok & _).
apply rDefinitions_spec in Hr as [Hd Hs]. unfold Match. fold (accepts).
change (List.find _ (rDefinitions r)) with (List.find (fun d => accepts d fileName) (rDefinitions r)).
destruct (List.find _ _) as [d|] eqn:Hf.
- destruct (find_first _ _ _ _ Hs Hf) as (Hin & Hacc & Hfirst).
  rewrite Hd, elem_of_stable_sort in Hin. split_and!; [done..|].
  intros d' Hin' Hacc'. destruct (Hfirst d') as [->|Hle]; [|done|by left|].
  { by rewrite Hd, elem_of_stable_sort. }
  unfold in_order in Hle. apply Z.ltb_ge in Hle.
  destruct (decide (dOrder d = dOrder d')) as [Heq|]; [left|right; lia].
  apply (NoDup_map_inj dOrder (enabledDefinitions (effective l))); [|done..].
  rewrite enabled_orders. apply Hok.
- intros d Hin. apply (find_none _ _ Hf d). by rewrite Hd, <- list_elem_of_In, elem_of_stable_sort.
Qed.

(** Position in the stored array means nothing to classification: any
  reordering of an accepted table is accepted and classifies every file
  name the same. *)
Theorem Match_permutation l l' r :
NewSidecarRegistry l = Ok r -> l ≡ₚ l' ->
exists r', NewSidecarRegistry l' = Ok r' /\ forall fileName, Match r' fileName = Match r fileName.
Proof.
intros Hr Hp. assert (effective l ≡ₚ effective l') as He.
{ destruct l as [|e l]; [by apply Permutation_nil in Hp as ->|].
  destruct l'; [by apply Permutation_sym, Permutation_nil in Hp|done]. }
pose proof (NewSidecarRegistry_Ok l r Hr) as (Hok & _).
pose proof (proj2 (NewSidecarRegistry_iff l') (table_ok_perm _ _ He Hok)) as Hr'.
destruct (NewSidecarRegistry l') as [r'|] eqn:Hreg; [|done]. exists r'. split; [done|].
apply rDefinitions_spec in Hr as [Hd Hs], Hreg as [Hd' Hs']. intros fileName. unfold Match. f_equal.
symmetry. apply sorted_orders_unique; [| |done..].
- rewrite Hd, Hd', !stable_sort_perm. by apply enabledDefinitions_perm.
- rewrite Hd, (Permutation_map dOrder (stable_sort_perm _ _ _)), enabled_orders. apply Hok.
Qed.

(** The built-in table is valid under every engine that compiles its patterns,
  so the process starts. *)
Lemma default_table_ok :
(forall e pattern, e ∈ DefaultSidecarTypes -> pattern ∈ ePatterns e -> is_ok (Compile pattern) = true) ->
table_ok DefaultSidecarTypes.
Proof.
intros Hc. constructor.
- assert (Forall (fun e => eType e <> "" /\ eId e <> "" /\ eCategory e ∈ validSidecarCategories /\ ePatterns e <> [])
    DefaultSidecarTypes) as Hall.
  { apply (bool_decide_unpack _). by vm_compute. }
  rewrite Forall_forall in Hall. intros e He. destruct (Hall e He) as (?&?&?&?). split_and!; [done..|].
  intros pattern Hp. by apply (Hc e).
- apply (bool_decide_unpack _). by vm_compute.
- apply (bool_decide_unpack _). by vm_compute.
- apply (bool_decide_unpack _). by vm_compute.
Qed.
End classify.

(** * Merging the built-in types into a stored table *)

Section merging.

(** The built-in entries among [ds] whose id the stored table does not carry. *)
Definition missingFrom (stored ds : list Entry) : list Entry :=
List.filter (fun d => negb (bool_decide (eId d ∈ map eId stored))) ds.

(** An entry up to its order. *)
Definition unordered (e : Entry) : Entry := withOrder e 0.

(** The merge after the built-in entries [done]. *)
Record merging (stored done_ : list Entry) (bound : Z) (m : merge) : Prop := {
mg_merged : exists extra, mMerged m = stored ++ extra /\ mAdded m = length extra /\
  map unordered extra = map unordered (missingFrom stored done_) /\ Forall (fun e => eOrder e <> 0%Z) extra;
mg_ids i : i ∈ mIds m <-> i ∈ map eId (mMerged m);
mg_orders o : o ∈ mOrders m <-> o ∈ enabledOrders (mMerged m);
mg_nodup : NoDup (map eId (mMerged m)) /\ NoDup (enabledOrders (mMerged m));
mg_highest o : o ∈ mOrders m -> (o <= mHighest m)%Z;
mg_bound : (0 <= mHighest m <= bound)%Z;
}.

Lemma elem_of_enabledOrders o l : o ∈ enabledOrders l <-> o <> 0%Z /\ o ∈ map eOrder l.
Proof.
unfold enabledOrders. rewrite list_elem_of_In, filter_In, <- list_elem_of_In, negb_true_iff, Z.eqb_neq. tauto.
Qed.

Lemma mergeStored_spec stored :
NoDup (map eId stored) -> NoDup (enabledOrders stored) ->
(forall e, e ∈ stored -> (eOrder e <= 2000000000)%Z) ->
merging stored [] 2000000000 (mergeStored stored).
Proof.
intros Hi Ho Hb. unfold mergeStored.
set (init := {| mMerged := stored; mAdded := 0; mIds := ∅; mOrders := ∅; mHighest := 0 |}).
set (step := fun m entry => _).
assert (forall l pre m, (forall e, e ∈ l -> (eOrder e <= 2000000000)%Z) ->
  (forall i, i ∈ mIds m <-> i ∈ map eId pre) -> (forall o, o ∈ mOrders m <-> o ∈ enabledOrders pre) ->
  (forall o, o ∈ mOrders m -> (o <= mHighest m)%Z) -> (0 <= mHighest m <= 2000000000)%Z ->
  let m' := foldl step m l in
  mMerged m' = mMerged m /\ mAdded m' = mAdded m /\
  (forall i, i ∈ mIds m' <-> i ∈ map eId (pre ++ l)) /\ (forall o, o ∈ mOrders m' <-> o ∈ enabledOrders (pre ++ l)) /\
  (forall o, o ∈ mOrders m' -> (o <= mHighest m')%Z) /\ (0 <= mHighest m' <= 2000000000)%Z) as Hfold.
{ induction l as [|e l IH]; intros pre m Hl H1 H2 H3 H4; cbn [foldl].
  { by rewrite app_nil_r. }
  replace (pre ++ e :: l) with ((pre ++ [e]) ++ l) by (by rewrite <- app_assoc).
  assert (eOrder e <= 2000000000)%Z by (apply Hl; left).
  apply (IH (pre ++ [e]) (step m e)); unfold step; cbn [mMerged mAdded mIds mOrders mHighest].
  - intros x Hx. apply Hl. by right.
  - intros i. rewrite map_app, elem_of_union, elem_of_singleton, elem_of_app, <- H1. simpl.
    rewrite list_elem_of_singleton. tauto.
  - intros o. rewrite enabledOrders_snoc, elem_of_app, <- H2. destruct (eOrder e =? 0)%Z.
    + rewrite elem_of_nil. tauto.
    + rewrite elem_of_union, elem_of_singleton, list_elem_of_singleton. tauto.
  - intros o. destruct (eOrder e =? 0)%Z; [by apply H3|]. rewrite elem_of_union, elem_of_singleton.
    destruct (Z.ltb_spec (mHighest m) (eOrder e)); intros [->|Hx%H3]; lia.
  - destruct (eOrder e =? 0)%Z; [done|]. destruct (Z.ltb_spec (mHighest m) (eOrder e)); lia. }
destruct (Hfold stored [] init) as (F1 & F2 & F3 & F4 & F5 & F6); try done.
- intros i. subst init. cbn. rewrite elem_of_empty, elem_of_nil. done.
- intros o. subst init. cbn. rewrite elem_of_empty, elem_of_nil. done.
- constructor; rewrite ?F1; cbn [init mMerged]; [|done..].
  exists []. rewrite app_nil_r, F2. by split_and!.
Qed.

Lemma wrap32_small z : (0 <= z <= 2147483647)%Z -> wrap32 z = z.
Proof. intros Hz. unfold wrap32. rewrite Z.mod_small; lia. Qed.

(** Storing an entry under a free id and a free, non-zero order. *)
Lemma merging_snoc stored done_ bound bound' m d order highest :
merging stored done_ bound m -> eId d ∉ mIds m -> order ∉ mOrders m -> order <> 0%Z ->
(order <= highest)%Z -> (mHighest m <= highest <= bound')%Z ->
merging stored (done_ ++ [d]) bound'
  {| mMerged := mMerged m ++ [withOrder d order]; mAdded := S (mAdded m);
     mIds := {[eId d]} ∪ mIds m; mOrders := {[order]} ∪ mOrders m; mHighest := highest |}.
Proof.
intros [(extra & H1 & H1' & H1'' & H1''') H2 H3 [H4 H4'] H5 H6] Hid Hord Hz Hle Hb.
assert (enabledOrders (mMerged m ++ [withOrder d order]) = enabledOrders (mMerged m) ++ [order]) as Heo.
{ rewrite enabledOrders_snoc. simpl. by rewrite (proj2 (Z.eqb_neq _ _) Hz). }
constructor; cbn [mMerged mAdded mIds mOrders mHighest]; rewrite ?Heo, ?map_app; cbn [map withOrder eId].
- exists (extra ++ [withOrder d order]). split_and!.
  + by rewrite H1, <- app_assoc.
  + rewrite H1', length_app. simpl. lia.
  + unfold missingFrom. rewrite List.filter_app, !map_app. unfold missingFrom in H1''. rewrite H1''. f_equal.
    simpl. rewrite bool_decide_eq_false_2; [done|]. rewrite H2, H1, map_app, elem_of_app in Hid. tauto.
  + apply Forall_app. by repeat constructor.
- intros i. rewrite elem_of_union, elem_of_singleton, elem_of_app, <- H2, list_elem_of_singleton. tauto.
- intros o. rewrite elem_of_union, elem_of_singleton, elem_of_app, <- H3, list_elem_of_singleton. tauto.
- split; apply NoDup_app; (split_and!; [done| |apply NoDup_singleton]);
    intros k Hk ->%list_elem_of_singleton; [by apply Hid, H2|by apply Hord, H3].
- intros o. rewrite elem_of_union, elem_of_singleton. intros [->|Ho%H5]; lia.
- lia.
Qed.

Lemma mergeOne_spec stored done_ bound m d :
merging stored done_ bound m -> eId d ∉ map eId done_ -> (0 < eOrder d <= 210)%Z ->
(210 <= bound <= 2100000000)%Z ->
merging stored (done_ ++ [d]) (bound + 10) (mergeOne m d).
Proof.
intros Hm Hd Hord Hb. pose proof Hm as [(extra & H1 & H1' & H1'' & H1''') H2 H3 [H4 H4'] H5 H6].
unfold mergeOne. destruct (decide (eId d ∈ mIds m)) as [Hin|Hnin].
- assert (missingFrom stored (done_ ++ [d]) = missingFrom stored done_) as Hmf.
  { unfold missingFrom. rewrite List.filter_app. simpl. rewrite bool_decide_eq_true_2; [by rewrite app_nil_r|].
    apply H2 in Hin. rewrite H1, map_app, elem_of_app in Hin. destruct Hin as [|Hin]; [done|].
    exfalso. apply Hd. assert (map eId extra = map eId (missingFrom stored done_)) as He.
    { assert (forall l, map eId (map unordered l) = map eId l) as Hu by (intros l; by rewrite map_map).
      by rewrite <- Hu, H1'', Hu. }
    rewrite He in Hin. apply list_elem_of_fmap in Hin as (x & -> & Hx%list_elem_of_In%filter_In).
    apply list_elem_of_fmap_2, list_elem_of_In. tauto. }
  constructor; [|done..|lia]. exists extra. by rewrite Hmf.
- destruct (decide (eOrder d ∈ mOrders m)) as [Ho|Ho].
  + rewrite wrap32_small by lia. change (eId (withOrder d (mHighest m + 10))) with (eId d).
    change (eOrder (withOrder d (mHighest m + 10))) with (mHighest m + 10)%Z.
    apply (merging_snoc stored done_ bound); try done; [intros Hx%H5|..]; lia.
  + replace d with (withOrder d (eOrder d)) at 2 by (by destruct d).
    apply (merging_snoc stored done_ bound); try done; try lia;
      destruct (Z.ltb_spec (mHighest m) (eOrder d)); lia.
Qed.

Lemma merge_fold stored ds done_ bound m :
merging stored done_ bound m -> NoDup (map eId (done_ ++ ds)) ->
Forall (fun d => 0 < eOrder d <= 210)%Z ds ->
(210 <= bound)%Z -> (bound + 10 * Z.of_nat (length ds) <= 2100000000)%Z ->
merging stored (done_ ++ ds) (bound + 10 * Z.of_nat (length ds)) (foldl mergeOne m ds).
Proof.
revert done_ bound m. induction ds as [|d ds IH]; intros done_ bound m Hm Hnd Hall Hlo Hb; cbn [foldl length].
{ rewrite app_nil_r. by replace (bound + 10 * Z.of_nat 0)%Z with bound by lia. }
cbn [length] in Hb. apply Forall_cons in Hall as [Hd Hall].
replace (bound + 10 * Z.of_nat (S (length ds)))%Z with ((bound + 10) + 10 * Z.of_nat (length ds))%Z by lia.
replace (done_ ++ d :: ds) with ((done_ ++ [d]) ++ ds) in * by (by rewrite <- app_assoc).
apply IH; [|done|done|lia|lia]. apply mergeOne_spec; [done| |done|lia].
rewrite map_app in Hnd. apply NoDup_app in Hnd as (Hnd & _). rewrite map_app in Hnd.
apply NoDup_app in Hnd as (_ & Hnd & _). intros Hin. apply (Hnd _ Hin). left.
Qed.

Lemma default_ids : NoDup (map eId DefaultSidecarTypes).
Proof. apply (bool_decide_unpack _). by vm_compute. Qed.

Lemma default_orders : Forall (fun d => 0 < eOrder d <= 210)%Z DefaultSidecarTypes.
Proof. apply (bool_decide_unpack _). by vm_compute. Qed.

Lemma Merge_merging stored :
stored <> [] -> NoDup (map eId stored) -> NoDup (enabledOrders stored) ->
(forall e, e ∈ stored -> (eOrder e <= 2000000000)%Z) ->
exists m, merging stored DefaultSidecarTypes 2000000210 m /\ MergeMissingSidecarTypes stored = (mMerged m, mAdded m).
Proof.
intros Hne Hi Ho Hb. exists (foldl mergeOne (mergeStored stored) DefaultSidecarTypes). split.
- apply (merge_fold stored DefaultSidecarTypes [] 2000000000); [by apply mergeStored_spec|apply default_ids|apply default_orders|lia|].
  simpl. lia.
- by destruct stored.
Qed.

Lemma MergeMissingSidecarTypes_core stored :
stored <> [] -> NoDup (map eId stored) -> NoDup (enabledOrders stored) ->
(forall e, e ∈ stored -> (eOrder e <= 2000000000)%Z) ->
exists extra, MergeMissingSidecarTypes stored = (stored ++ extra, length extra) /\
  map unordered extra = map unordered (missingFrom stored DefaultSidecarTypes) /\
  NoDup (map eId (stored ++ extra)) /\ NoDup (enabledOrders (stored ++ extra)) /\
  Forall (fun e => eOrder e <> 0%Z) extra.
Proof.
intros Hne Hi Ho Hb. destruct (Merge_merging stored Hne Hi Ho Hb) as (m & [(extra & H1 & H2 & H3 & H4) _ _ [H5 H6] _ _] & ->).
exists extra. rewrite <- H1, H2. done.
Qed.

(** Merging the built-in types into a stored table with distinct ids and
  distinct enabled orders, none of them above two thousand million, keeps
  the stored entries first and unchanged, appends exactly the built-in
  entries whose id the table does not carry (up to their order), counts
  them, and leaves ids and enabled orders distinct: no clash of orders is
  ever introduced, and no appended entry is switched off. *)
Theorem MergeMissingSidecarTypes_spec stored :
stored <> [] -> NoDup (map eId stored) -> NoDup (enabledOrders stored) ->
(forall e, e ∈ stored -> (eOrder e <= 2000000000)%Z) ->
exists extra, MergeMissingSidecarTypes stored = (stored ++ extra, length extra) /\
  map unordered extra = map unordered (missingFrom stored DefaultSidecarTypes) /\
  NoDup (map eId (stored ++ extra)) /\ NoDup (enabledOrders (stored ++ extra)) /\
  Forall (fun e => eOrder e <> 0%Z) extra.
Proof. apply MergeMissingSidecarTypes_core. Qed.

Context `{Regexp}.

(** What an entry must satisfy does not look at its order. *)
Lemma entry_ok_unordered e e' : unordered e = unordered e' -> entry_ok e -> entry_ok e'.
Proof. intros [= H1 H2 H3 H4 H5]. unfold entry_ok. by rewrite H1, H2, H3, H4. Qed.

(** A valid table extended by the missing entries of another valid one. *)
Lemma merged_table_ok stored extra ds :
table_ok stored -> table_ok ds -> map unordered extra = map unordered (missingFrom stored ds) ->
NoDup (map eId (stored ++ extra)) -> NoDup (enabledOrders (stored ++ extra)) ->
table_ok (stored ++ extra) <-> forall e, e ∈ missingFrom stored ds -> eType e ∉ map eType stored.
Proof.
intros [H1 H2 H3 H4] [D1 D2 D3 D4] Hu Hids Hords.
assert (forall l, map eType (map unordered l) = map eType l) as Hty by (intros l; by rewrite map_map).
assert (map eType extra = map eType (missingFrom stored ds)) as Hte by (by rewrite <- Hty, Hu, Hty).
split.
- intros [_ _ Hnd _] e He Hin. rewrite map_app in Hnd. apply NoDup_app in Hnd as (_ & Hnd & _).
  apply (Hnd _ Hin). rewrite Hte. by apply list_elem_of_fmap_2.
- intros Hfree. constructor; [|done| |done].
  + intros e [He|He]%elem_of_app; [by apply H1|].
    assert (unordered e ∈ map unordered extra) as Hue by (by apply list_elem_of_fmap_2).
    rewrite Hu in Hue. apply list_elem_of_fmap in Hue as (d & Hd & Hin%list_elem_of_In%filter_In).
    apply (entry_ok_unordered d); [done|]. apply D1, list_elem_of_In, Hin.
  + rewrite map_app. apply NoDup_app. split_and!; [done| |].
    * intros t Ht Ht'. rewrite Hte in Ht'. apply list_elem_of_fmap in Ht' as (e & -> & He). by apply (Hfree e).
    * rewrite Hte. by apply NoDup_map_filter.
Qed.

(** The registry accepts the merged table of a valid stored one exactly
  when no stored entry uses the type name of a built-in entry it does not
  carry. So a custom entry that happens to use a later built-in's type name
  turns a valid table into one the registry refuses. *)
Theorem MergeMissingSidecarTypes_accepted stored :
stored <> [] -> table_ok stored -> (forall e, e ∈ stored -> (eOrder e <= 2000000000)%Z) ->
(forall e pattern, e ∈ DefaultSidecarTypes -> pattern ∈ ePatterns e -> is_ok (Compile pattern) = true) ->
is_ok (NewSidecarRegistry (MergeMissingSidecarTypes stored).1) = true <->
forall e, e ∈ missingFrom stored DefaultSidecarTypes -> eType e ∉ map eType stored.
Proof.
intros Hne Hok Hb Hc. rewrite NewSidecarRegistry_iff.
destruct (MergeMissingSidecarTypes_core stored Hne (to_ids _ Hok) (to_orders _ Hok) Hb) as (extra & -> & Hu & Hids & Hords & _).
cbn [fst]. replace (effective (stored ++ extra)) with (stored ++ extra) by (by destruct stored).
apply merged_table_ok; try done. by apply default_table_ok.
Qed.
End merging.

(** * A concrete engine, and tables the theorems apply to *)

Module Literal.
(** Patterns without metacharacters: literal text, found anywhere; a lone
  opening parenthesis does not compile. *)
Fixpoint contains (text s : string) : bool :=
has_prefix text s || match s with EmptyString => false | String _ rest => contains text rest end.

#[local] Instance engine : Regexp :=
{| regexp := string;
   Compile p := if String.eqb p "(" then Err "missing closing )" else Ok p;
   MatchString p s := contains p s |}.

Definition entry (id type category : string) (order : Z) (pattern : string) : Entry :=
{| eId := id; eType := type; eCategory := category; eOrder := order; ePatterns := [pattern]; eExtensions := ["JPG"] |}.

(** Two entries stored in the opposite of their evaluation order. *)
Definition posters : list Entry :=
[entry "2" "any_art" "image" 20 "art"; entry "1" "fan_art" "image" 10 "fanart"].

Definition registryOf (l : list Entry) : SidecarRegistry :=
match NewSidecarRegistry l with Ok r => r | Err _ => emptyRegistry end.

Lemma Match_lowest_order_witness :
dType <$> Match (registryOf posters) "movie-fanart.jpg" = Some "fan_art" /\
match Match (registryOf posters) "movie-fanart.jpg" with
| Some d =>
    d ∈ enabledDefinitions (effective posters) /\ accepts d "movie-fanart.jpg" = true /\
    forall d', d' ∈ enabledDefinitions (effective posters) -> accepts d' "movie-fanart.jpg" = true ->
      d' = d \/ (dOrder d < dOrder d')%Z
| None => forall d, d ∈ enabledDefinitions (effective posters) -> accepts d "movie-fanart.jpg" = false
end.
Proof. split; [by vm_compute|]. apply (Match_lowest_order posters). reflexivity. Defined.

Lemma Match_permutation_witness :
exists r', NewSidecarRegistry (rev posters) = Ok r' /\
  forall fileName, Match r' fileName = Match (registryOf posters) fileName.
Proof. apply (Match_permutation posters); [reflexivity|]. apply Permutation_rev. Defined.

(** [ByCategory] lists a category's types in the order they were stored,
  not in the order they are evaluated: in an accepted table of two image
  types, the one [Match] tries first is listed last. *)
Theorem ByCategory_stored_order :
is_ok (NewSidecarRegistry posters) = true /\
map dType (ByCategory (registryOf posters) "image") = ["any_art"; "fan_art"] /\
map dType (Definitions (registryOf posters)) = ["fan_art"; "any_art"] /\
dType <$> Match (registryOf posters) "movie-fanart.jpg" = Some "fan_art".
Proof. by vm_compute. Qed.

(** A stored table using the type name of a built-in it does not carry, and
  one holding the orders of the first two built-ins. *)
Definition customPoster : list Entry := [entry "mine" "poster" "image" 5 "cover"].
Definition customArt : list Entry := [entry "a" "art" "image" 10 "art"; entry "b" "arts" "image" 20 "arts"].

Lemma MergeMissingSidecarTypes_spec_witness :
exists extra, MergeMissingSidecarTypes customArt = (customArt ++ extra, length extra) /\
  map unordered extra = map unordered (missingFrom customArt DefaultSidecarTypes) /\
  NoDup (map eId (customArt ++ extra)) /\ NoDup (enabledOrders (customArt ++ extra)) /\
  Forall (fun e => eOrder e <> 0%Z) extra.
Proof.
apply (MergeMissingSidecarTypes_spec customArt); [done|apply (bool_decide_unpack _); by vm_compute..|].
apply Forall_forall, (bool_decide_unpack _). by vm_compute.
Defined.

Lemma customPoster_ok : table_ok customPoster.
Proof. apply (NewSidecarRegistry_iff customPoster). by vm_compute. Qed.

Lemma defaults_compile e pattern :
e ∈ DefaultSidecarTypes -> pattern ∈ ePatterns e -> is_ok (Compile pattern) = true.
Proof.
assert (Forall (fun e => Forall (fun pattern => is_ok (Compile pattern) = true) (ePatterns e)) DefaultSidecarTypes) as Hall.
{ apply (bool_decide_unpack _). by vm_compute. }
intros He Hp. rewrite Forall_forall in Hall. specialize (Hall e He). rewrite Forall_forall in Hall. by apply Hall.
Qed.

Lemma MergeMissingSidecarTypes_accepted_witness :
is_ok (NewSidecarRegistry customPoster) = true /\
is_ok (NewSidecarRegistry (MergeMissingSidecarTypes customPoster).1) = false /\
(is_ok (NewSidecarRegistry (MergeMissingSidecarTypes customPoster).1) = true <->
 forall e, e ∈ missingFrom customPoster DefaultSidecarTypes -> eType e ∉ map eType customPoster).
Proof.
split; [by vm_compute|]. split; [by vm_compute|].
apply (MergeMissingSidecarTypes_accepted customPoster); [done|apply customPoster_ok| |apply defaults_compile].
apply Forall_forall, (bool_decide_unpack _). by vm_compute.
Defined.
End Literal.
