(* ===== verification/Links.v ===== *)
(** The external identifiers of a media item: src/internal/shared/metadata/links.go.

    A [linkCollector] is its links in order and the set of identities seen. The
    pattern of the YouTube plugin and of an IMDb id are [Regex] expressions;
    [url.Parse] and [URL.Query] are the class [URLs], of which nothing is
    assumed. *)
From stdpp Require Import strings list gmap.
From Stdlib Require Import Ascii ZArith Lia.
From S2P Require Import Prelude Regex GoText.
#[local] Open Scope go_scope.

(** * Links and tags *)

(** metadata.Link, and metadata.UniqueID: a <uniqueid> tag. *)
Record Link : Type := { Key : string; Value : string; Default : bool }.
Record UniqueID : Type := { uType : string; uValue : string; uDefault : bool }.

#[export] Instance Link_eq_dec : EqDecision Link.
Proof. solve_decision. Defined.

(** The fields of metadata.Metadata that carry identifiers. *)
Record Metadata : Type := { mExternalLinks : list Link; mId : string; mTrailer : string }.

Definition canonicalLinkKeys : gmap string string := list_to_map [
  ("tvdb", "tvdb"); ("tvdbid", "tvdb"); ("thetvdb", "tvdb");
  ("tmdb", "tmdb"); ("tmdbid", "tmdb"); ("themoviedb", "tmdb");
  ("imdb", "imdb"); ("imdbid", "imdb");
  ("tvmaze", "tvmaze"); ("tvmazeid", "tvmaze");
  ("tvrage", "tvrage"); ("anidb", "anidb"); ("trakt", "trakt");
  ("musicbrainz", "musicbrainz"); ("youtube", "youtube")].

(** [^tt\d+$] *)
Definition imdbIDPattern : regex := RSeqs [RBegin; RText "tt"; RPlus RDigit; REnd].

(** [(?i)videoid=([A-Za-z0-9_-]{6,})] *)
Definition video_id_char (c : ascii) : bool := is_word c || Ascii.eqb c "-"%char.
Definition youtubePluginVideoIDPattern : regex :=
  RSeqs [RFold "videoid="; RGroup 1 (RSeq (RTimes 6 (RSet video_id_char)) (RStar (RSet video_id_char)))].

(** The keys of [derivedLinkKeys]; its texts are comments. *)
Definition derivedLinkKeys : gset string := {["id"; "youtube"]}.

(** * The collector *)

Record linkCollector : Type := { links : list Link; seen : gset string }.

Definition newCollector : linkCollector := {| links := []; seen := ∅ |}.

Definition linkIdentity (key value : string) : string := key +:+ nul +:+ value.

Definition markDefault (key value : string) (link : Link) : Link :=
  if String.eqb (Key link) key && String.eqb (Value link) value
  then {| Key := Key link; Value := Value link; Default := true |} else link.

Definition add (c : linkCollector) (key value : string) (isDefault : bool) : linkCollector :=
  let key := trim_space (to_lower key) in
  let value := trim_space value in
  if String.eqb key "" || String.eqb value "" then c
  else
    let key := default key (canonicalLinkKeys !! key) in
    let identity := linkIdentity key value in
    if decide (identity ∈ seen c) then
      if isDefault then {| links := map (markDefault key value) (links c); seen := seen c |} else c
    else
      {| links := links c ++ [{| Key := key; Value := value; Default := isDefault |}];
         seen := {[identity]} ∪ seen c |}.

Definition addLinks (c : linkCollector) (l : list Link) : linkCollector :=
  foldl (fun c link => add c (Key link) (Value link) (Default link)) c l.

Definition addLegacyID (c : linkCollector) (id : string) : linkCollector :=
  let value := trim_space id in
  if String.eqb value "" then c
  else if is_match imdbIDPattern value then add c "imdb" value false
  else add c "id" value false.

(** What the program reads of a parsed URL: [url.URL]'s Host and Path, and
    [Query().Get]. *)
Record URL : Type := { Host : string; Path : string; QueryGet : string -> string }.

Class URLs : Type := { url_Parse : string -> option URL }.

Definition trim_prefix (s p : string) : string := default s (cut_prefix s p).

Definition addTrailer `{URLs} (c : linkCollector) (trailer : string) : linkCollector :=
  let value := trim_space trailer in
  if String.eqb value "" then c
  else
    match find youtubePluginVideoIDPattern value with
    | Some m => add c "youtube" (fGroupText value 1 m) false
    | None =>
        match url_Parse value with
        | None => c
        | Some parsed =>
            let host := trim_prefix (to_lower (Host parsed)) "www." in
            if String.eqb host "youtube.com" || String.eqb host "m.youtube.com" then
              let videoID := QueryGet parsed "v" in
              if String.eqb videoID "" then c else add c "youtube" videoID false
            else if String.eqb host "youtu.be" then
              let videoID := Trim (Path parsed) "/" in
              if String.eqb videoID "" then c else add c "youtube" videoID false
            else c
        end
    end.

(** * Reading and writing *)

Definition ExtractLinks `{URLs} (m : option Metadata) : list Link :=
  match m with
  | None => []
  | Some m => links (addTrailer (addLegacyID (addLinks newCollector (mExternalLinks m)) (mId m)) (mTrailer m))
  end.

Definition addUniqueID (c : linkCollector) (u : UniqueID) : linkCollector :=
  if String.eqb (uType u) "" then addLegacyID c (uValue u) else add c (uType u) (uValue u) (uDefault u).

Definition LinksFromUniqueIDs (uniqueIDs : list UniqueID) : list Link :=
  links (foldl addUniqueID newCollector uniqueIDs).

Definition written (link : Link) : bool :=
  negb (bool_decide (Key link ∈ derivedLinkKeys)) && negb (String.eqb (Key link) "" || String.eqb (Value link) "").

Definition UniqueIDsFromLinks (l : list Link) : list UniqueID :=
  map (fun link => {| uType := Key link; uValue := Value link; uDefault := Default link |}) (List.filter written l).

(** * The collector's contract *)

(** A key and a value as [add] stores them. *)
Definition canonical (key : string) : string :=
  let key := trim_space (to_lower key) in default key (canonicalLinkKeys !! key).

Lemma canonical_values k c : canonicalLinkKeys !! k = Some c -> canonicalLinkKeys !! c = Some c /\
  trim_space (to_lower c) = c /\ c <> "" /\ nul_free c = true.
Proof.
  intros Hk. assert (map_Forall (fun _ c => canonicalLinkKeys !! c = Some c /\ trim_space (to_lower c) = c /\ c <> "" /\
    nul_free c = true) canonicalLinkKeys) as Hall by (apply (bool_decide_unpack _); by vm_compute).
  by apply (Hall k).
Qed.

Lemma canonical_idem key : canonical (canonical key) = canonical key.
Proof.
  unfold canonical. set (k := trim_space (to_lower key)).
  assert (trim_space (to_lower k) = k) as Hk.
  { subst k. rewrite to_lower_trim_space, to_lower_idem. apply trim_space_idem. }
  destruct (canonicalLinkKeys !! k) as [c|] eqn:Hc; simpl.
  - destruct (canonical_values _ _ Hc) as (Hcc & -> & _). by rewrite Hcc.
  - by rewrite Hk, Hc.
Qed.

Lemma canonical_nonempty key : canonical key = "" <-> trim_space (to_lower key) = "".
Proof.
  unfold canonical. set (k := trim_space (to_lower key)).
  destruct (canonicalLinkKeys !! k) as [c|] eqn:Hc; [|done]. simpl.
  destruct (canonical_values _ _ Hc) as (_ & _ & Hne & _). split; [done|]. intros Hk. by rewrite Hk in Hc.
Qed.

(** The identity of a link, and whether a submission names one at all. *)
Definition ident (link : Link) : string * string := (Key link, Value link).

Definition submission (key value : string) (d : bool) : list Link :=
  if String.eqb (trim_space (to_lower key)) "" || String.eqb (trim_space value) "" then []
  else [{| Key := canonical key; Value := trim_space value; Default := d |}].

(** The identities of a list, each where it first occurs. *)
Definition first_step (acc : list (string * string)) (i : string * string) : list (string * string) :=
  if decide (i ∈ acc) then acc else acc ++ [i].

Definition firsts (l : list (string * string)) : list (string * string) := foldl first_step [] l.

Lemma firsts_snoc l i : firsts (l ++ [i]) = first_step (firsts l) i.
Proof. unfold firsts. by rewrite foldl_app. Qed.

Lemma firsts_spec l : NoDup (firsts l) /\ forall i, i ∈ firsts l <-> i ∈ l.
Proof.
  induction l as [|x l [IH1 IH2]] using rev_ind; [by split; [constructor|]|].
  rewrite firsts_snoc. unfold first_step. destruct (decide _) as [Hin|Hnin].
  - split; [done|]. intros i. rewrite elem_of_app, list_elem_of_singleton, IH2. split; [by left|].
    intros [?| ->]; [done|by apply IH2].
  - split.
    + apply NoDup_app. split_and!; [done| |apply NoDup_singleton]. by intros i Hi ->%list_elem_of_singleton.
    + intros i. by rewrite !elem_of_app, IH2.
Qed.

(** A link [add] would store as it is. *)
Definition normal (link : Link) : Prop :=
  canonical (Key link) = Key link /\ trim_space (Value link) = Value link /\
  Key link <> "" /\ Value link <> "" /\ nul_free (Key link) = true.

(** The collector [c] after the submissions [subs]. *)
Record collects (c : linkCollector) (subs : list Link) : Prop := {
  cl_idents : map ident (links c) = firsts (map ident subs);
  cl_normal link : link ∈ links c -> normal link;
  cl_seen i : i ∈ seen c <-> exists link, link ∈ links c /\ linkIdentity (Key link) (Value link) = i;
  cl_default link : link ∈ links c ->
    Default link = existsb (fun s => bool_decide (ident s = ident link) && Default s) subs;
}.

Lemma collects_new : collects newCollector [].
Proof.
  constructor; cbn [newCollector links seen]; [done|by intros ? ?%elem_of_nil| |by intros ? ?%elem_of_nil].
  intros i. split; [by intros ?%elem_of_empty|]. by intros (? & ?%elem_of_nil & _).
Qed.

Lemma linkIdentity_inj k v k' v' :
  nul_free k = true -> nul_free k' = true -> linkIdentity k v = linkIdentity k' v' -> (k, v) = (k', v').
Proof. intros H1 H2 He. by destruct (portKey_inj k v k' v' H1 H2 He) as [-> ->]. Qed.

Lemma canonical_nul_free key : nul_free (trim_space (to_lower key)) = true -> nul_free (canonical key) = true.
Proof.
  intros Hk. unfold canonical. destruct (canonicalLinkKeys !! _) as [c|] eqn:Hc; [|done].
  by destruct (canonical_values _ _ Hc) as (_ & _ & _ & ?).
Qed.

Lemma seen_ident c subs link : collects c subs -> normal link ->
  linkIdentity (Key link) (Value link) ∈ seen c <-> ident link ∈ map ident (links c).
Proof.
  intros Hc (_ & _ & _ & _ & Hn). rewrite (cl_seen _ _ Hc), list_elem_of_fmap. split.
  - intros (x & Hx & He). exists x. split; [|done]. symmetry. apply linkIdentity_inj; [|done|done].
    by apply (cl_normal _ _ Hc) in Hx as (_ & _ & _ & _ & ?).
  - intros (x & He & Hx). exists x. split; [done|]. unfold ident in He. by injection He as -> ->.
Qed.

Lemma markDefault_spec key value link :
  markDefault key value link =
  {| Key := Key link; Value := Value link;
     Default := Default link || bool_decide (ident link = (key, value)) |}.
Proof.
  unfold markDefault, ident. destruct link as [k v d]; cbn [Key Value Default].
  destruct (String.eqb_spec k key) as [->|Hk]; [destruct (String.eqb_spec v value) as [->|Hv]|]; cbn [andb].
  - by rewrite bool_decide_eq_true_2, orb_true_r.
  - rewrite bool_decide_eq_false_2, orb_false_r; [done|]. by intros [=].
  - rewrite bool_decide_eq_false_2, orb_false_r; [done|]. by intros [=].
Qed.

(** Storing a new link. *)
Lemma collects_fresh c subs link :
  collects c subs -> normal link -> ident link ∉ map ident (links c) ->
  collects {| links := links c ++ [link]; seen := {[linkIdentity (Key link) (Value link)]} ∪ seen c |} (subs ++ [link]).
Proof.
  intros [H1 H2 H3 H4] Hn Hnew. constructor; cbn [links seen].
  - rewrite !map_app, H1. cbn [map]. rewrite firsts_snoc. unfold first_step. rewrite <- H1. by rewrite decide_False.
  - intros x [Hx| ->%list_elem_of_singleton]%elem_of_app; auto.
  - intros i. rewrite elem_of_union, elem_of_singleton, H3. setoid_rewrite elem_of_app.
    setoid_rewrite list_elem_of_singleton. split.
    + intros [->|(x & ? & ?)]; eauto.
    + intros (x & [Hx| ->] & He); [right; eauto|by left].
  - intros x Hx. rewrite existsb_app. cbn [existsb]. rewrite orb_false_r. apply elem_of_app in Hx as [Hx| ->%list_elem_of_singleton].
    + rewrite <- (H4 x Hx), bool_decide_eq_false_2, orb_false_r; [done|]. intros He. apply Hnew. rewrite He.
      by apply list_elem_of_fmap_2.
    + rewrite bool_decide_eq_true_2 by done. cbn [andb].
      assert (existsb (fun s => bool_decide (ident s = ident link) && Default s) subs = false) as ->; [|done].
      apply not_true_iff_false. intros (s & Hs & Hb)%existsb_exists. bool_prop. apply Hnew.
      rewrite H1. apply firsts_spec. rewrite <- H. by apply list_elem_of_fmap_2, list_elem_of_In.
Qed.

(** Submitting a link again: at most its flag changes. *)
Lemma collects_again c subs link :
  collects c subs -> ident link ∈ map ident (links c) ->
  collects (if Default link then {| links := map (markDefault (Key link) (Value link)) (links c); seen := seen c |} else c)
    (subs ++ [link]).
Proof.
  intros [H1 H2 H3 H4] Hin.
  assert (forall x, Default x = existsb (fun s => bool_decide (ident s = ident x) && Default s) subs ->
    Default x || (bool_decide (ident x = ident link) && Default link) =
    existsb (fun s => bool_decide (ident s = ident x) && Default s) (subs ++ [link])) as Hd.
  { intros x ->. rewrite existsb_app. cbn [existsb]. rewrite orb_false_r. do 2 f_equal. by apply bool_decide_ext. }
  assert (map ident (links c) = firsts (map ident (subs ++ [link]))) as Hids.
  { rewrite map_app. cbn [map]. rewrite firsts_snoc. unfold first_step. rewrite <- H1. by rewrite decide_True. }
  destruct (Default link) eqn:Hdl.
  - assert (forall x, ident (markDefault (Key link) (Value link) x) = ident x) as Hsame.
    { intros x. by rewrite markDefault_spec. }
    constructor; cbn [links seen].
    + rewrite map_map, <- Hids. apply map_ext. apply Hsame.
    + intros x (y & -> & Hy)%list_elem_of_fmap. rewrite markDefault_spec. by apply (H2 y).
    + intros i. rewrite H3. split.
      * intros (x & Hx & He). eexists. split; [by apply list_elem_of_fmap_2|]. by rewrite markDefault_spec.
      * intros (x & (y & -> & Hy)%list_elem_of_fmap & He). exists y. by rewrite markDefault_spec in He.
    + intros x (y & -> & Hy)%list_elem_of_fmap. rewrite Hsame, <- Hd by (by apply H4).
      by rewrite markDefault_spec, andb_true_r.
  - constructor; [done..|]. intros x Hx. rewrite <- Hd by (by apply H4). by rewrite andb_false_r, orb_false_r.
Qed.

(** [add] is a submission. *)
Lemma add_collects c subs key value d :
  collects c subs -> nul_free (trim_space (to_lower key)) = true ->
  collects (add c key value d) (subs ++ submission key value d).
Proof.
  intros Hc Hn. unfold add, submission. destruct (_ || _) eqn:He; [by rewrite app_nil_r|].
  fold (canonical key). set (link := {| Key := canonical key; Value := trim_space value; Default := d |}).
  bool_prop. assert (normal link) as Hl.
  { unfold normal. cbn [link Key Value]. split_and!; [apply canonical_idem|apply trim_space_idem|by rewrite canonical_nonempty|done|].
    by apply canonical_nul_free. }
  pose proof (seen_ident c subs link Hc Hl) as Hs. cbn [link Key Value] in Hs.
  destruct (decide _) as [Hin|Hnin].
  - apply (collects_again c subs link); [done|]. by apply Hs.
  - apply (collects_fresh c subs link); [done..|]. by rewrite <- Hs.
Qed.

(** ** What each source submits *)

Definition legacySubmission (id : string) : list Link :=
  if is_match imdbIDPattern (trim_space id) then submission "imdb" (trim_space id) false
  else submission "id" (trim_space id) false.

Definition uniqueSubmission (u : UniqueID) : list Link :=
  if String.eqb (uType u) "" then legacySubmission (uValue u) else submission (uType u) (uValue u) (uDefault u).

(** A provider name of a document: XML has no NUL character. *)
Definition document_text (s : string) : Prop := nul_free (trim_space (to_lower s)) = true.

Lemma addLegacyID_collects c subs id :
  collects c subs -> collects (addLegacyID c id) (subs ++ legacySubmission id).
Proof.
  intros Hc. unfold addLegacyID, legacySubmission. destruct (String.eqb_spec (trim_space id) "") as [->|Hne].
  - replace (if is_match imdbIDPattern "" then _ else _) with (@nil Link) by (by vm_compute). by rewrite app_nil_r.
  - destruct (is_match _ _); by apply add_collects.
Qed.

Lemma addLinks_collects c subs l :
  collects c subs -> (forall link, link ∈ l -> document_text (Key link)) ->
  collects (addLinks c l) (subs ++ flat_map (fun link => submission (Key link) (Value link) (Default link)) l).
Proof.
  revert c subs. induction l as [|link l IH]; intros c subs Hc Hl; simpl; [by rewrite app_nil_r|].
  rewrite app_assoc. apply IH; [|intros x Hx; apply Hl; by right].
  apply add_collects; [done|]. apply Hl. by left.
Qed.

Lemma uniqueIDs_collects c subs l :
  collects c subs -> (forall u, u ∈ l -> document_text (uType u)) ->
  collects (foldl addUniqueID c l) (subs ++ flat_map uniqueSubmission l).
Proof.
  revert c subs. induction l as [|u l IH]; intros c subs Hc Hl; simpl; [by rewrite app_nil_r|].
  rewrite app_assoc. apply IH; [|intros x Hx; apply Hl; by right].
  unfold addUniqueID, uniqueSubmission. destruct (String.eqb (uType u) ""); [by apply addLegacyID_collects|].
  apply add_collects; [done|]. apply Hl. by left.
Qed.

Lemma addTrailer_collects `{URLs} c subs trailer :
  collects c subs -> exists t, collects (addTrailer c trailer) (subs ++ t) /\ forall link, link ∈ t -> Key link = "youtube".
Proof.
  intros Hc. assert (forall value, exists t, collects (add c "youtube" value false) (subs ++ t) /\
    forall link, link ∈ t -> Key link = "youtube") as Hadd.
  { intros value. exists (submission "youtube" value false). split; [by apply add_collects|].
    unfold submission. destruct (_ || _); [by intros ? ?%elem_of_nil|]. by intros ? ->%list_elem_of_singleton. }
  assert (exists t, collects c (subs ++ t) /\ forall link, link ∈ t -> Key link = "youtube") as Hnone.
  { exists []. rewrite app_nil_r. split; [done|]. by intros ? ?%elem_of_nil. }
  unfold addTrailer. repeat case_match; first [apply Hnone | apply Hadd].
Qed.

(** The links a collector must produce from its submissions. *)
Record links_of (subs l : list Link) : Prop := {
  lo_order : map ident l = firsts (map ident subs);
  lo_distinct : NoDup (map ident l);
  lo_normal link : link ∈ l -> normal link;
  lo_default link : link ∈ l -> Default link = true <-> exists s, s ∈ subs /\ ident s = ident link /\ Default s = true;
}.

Lemma collects_links_of c subs : collects c subs -> links_of subs (links c).
Proof.
  intros [H1 H2 H3 H4]. constructor; [done|rewrite H1; apply firsts_spec|done|].
  intros link Hl. rewrite (H4 link Hl). split.
  - intros (s & Hs & Hb)%existsb_exists. bool_prop. exists s. by rewrite list_elem_of_In.
  - intros (s & Hs & Hi & Hd). apply existsb_exists. exists s. rewrite <- list_elem_of_In, Hd.
    by rewrite bool_decide_eq_true_2.
Qed.

(** Reading a document's <uniqueid> tags yields one link per distinct
    identifier, in the order they first occur, under the provider's canonical
    key and without surrounding space; a link is the default one exactly when
    one of the tags that spell it was. *)
Theorem LinksFromUniqueIDs_spec uniqueIDs :
  (forall u, u ∈ uniqueIDs -> document_text (uType u)) ->
  links_of (flat_map uniqueSubmission uniqueIDs) (LinksFromUniqueIDs uniqueIDs).
Proof. intros Hu. apply collects_links_of, (uniqueIDs_collects _ [] _ collects_new Hu). Qed.

(** The links of a metadata record are those of its external links, then
    of its legacy id, then at most a YouTube reference from the trailer, with
    duplicates folded across all three. *)
Theorem ExtractLinks_spec `{URLs} m :
  (forall link, link ∈ mExternalLinks m -> document_text (Key link)) ->
  exists trailer, (forall link, link ∈ trailer -> Key link = "youtube") /\
    links_of (flat_map (fun link => submission (Key link) (Value link) (Default link)) (mExternalLinks m) ++
              legacySubmission (mId m) ++ trailer) (ExtractLinks (Some m)).
Proof.
  intros Hm. pose proof (addLinks_collects _ [] _ collects_new Hm) as H1.
  apply (addLegacyID_collects _ _ (mId m)) in H1. destruct (addTrailer_collects _ _ (mTrailer m) H1) as (t & H2 & Ht).
  exists t. split; [done|]. apply collects_links_of in H2. by rewrite <- app_assoc in H2.
Qed.

(** ** Writing the tags back *)

Lemma firsts_NoDup l : NoDup l -> firsts l = l.
Proof.
  induction l as [|x l IH] using rev_ind; [done|]. intros (H1 & H2 & _)%NoDup_app. rewrite firsts_snoc, IH by done.
  unfold first_step. rewrite decide_False; [done|]. intros Hin. apply (H2 _ Hin). by left.
Qed.

Lemma submission_normal link : normal link -> submission (Key link) (Value link) (Default link) = [link].
Proof.
  intros (Hk & Hv & Hk' & Hv' & _). unfold submission. rewrite Hk, Hv.
  assert (String.eqb (trim_space (to_lower (Key link))) "" = false) as ->.
  { apply String.eqb_neq. rewrite <- canonical_nonempty. by rewrite Hk. }
  rewrite (proj2 (String.eqb_neq _ _) Hv'). by destruct link.
Qed.

Lemma normal_key_text link : normal link -> document_text (Key link).
Proof.
  intros (Hk & _ & _ & _ & Hn). unfold document_text. unfold canonical in Hk.
  destruct (canonicalLinkKeys !! _) as [c|] eqn:Hc; simpl in Hk; [|by rewrite Hk].
  subst c. destruct (canonical_values _ _ Hc) as (_ & -> & _). done.
Qed.

Lemma written_submissions l :
  (forall link, link ∈ l -> normal link) ->
  flat_map uniqueSubmission (UniqueIDsFromLinks l) = List.filter (fun link => negb (bool_decide (Key link ∈ derivedLinkKeys))) l.
Proof.
  intros Hn. induction l as [|link l IH]; [done|]. unfold UniqueIDsFromLinks in *. cbn [List.filter].
  specialize (IH (fun x Hx => Hn x (list_elem_of_further _ _ _ Hx))).
  assert (normal link) as Hl by (apply Hn; by left). pose proof Hl as (_ & _ & Hk & Hv & _).
  unfold written at 1. rewrite (proj2 (String.eqb_neq _ _) Hk), (proj2 (String.eqb_neq _ _) Hv), andb_true_r.
  destruct (negb _); [|done]. cbn [map flat_map]. rewrite IH. unfold uniqueSubmission at 1. cbn [uType uValue uDefault].
  rewrite (proj2 (String.eqb_neq _ _) Hk). by rewrite submission_normal.
Qed.

(** Links with the same identities and flags are the same links. *)
Lemma links_of_normal l l' :
  (forall link, link ∈ l -> normal link) -> NoDup (map ident l) -> links_of l l' -> l' = l.
Proof.
  intros Hn Hnd [H1 H2 H3 H4]. rewrite (firsts_NoDup _ Hnd) in H1.
  assert (forall x y, x ∈ l' -> y ∈ l -> ident x = ident y -> x = y) as Heq.
  { intros x y Hx Hy Hi. assert (Default x = Default y) as Hd.
    { apply eq_true_iff_eq. rewrite (H4 x Hx). split.
      - intros (s & Hs & Hsi & Hsd). rewrite <- (NoDup_map_inj ident l Hnd s y Hs Hy); [done|congruence].
      - intros Hd. exists y. done. }
    destruct x, y. unfold ident in Hi. simpl in *. by injection Hi as -> ->; subst. }
  clear -H1 Heq. revert l' H1 Heq. induction l as [|y l IH]; intros [|x l'] H1 Heq; try done.
  injection H1 as Hk Hv H1. f_equal.
  - apply Heq; [by left|by left|]. unfold ident. by rewrite Hk, Hv.
  - apply IH; [done|]. intros a b Ha Hb. apply Heq; by right.
Qed.

(** Reading tags, writing the links back and reading them again loses
    nothing but the links the package synthesises from other fields: the
    legacy id and YouTube references. *)
Theorem LinksFromUniqueIDs_roundtrip uniqueIDs :
  (forall u, u ∈ uniqueIDs -> document_text (uType u)) ->
  let l := LinksFromUniqueIDs uniqueIDs in
  LinksFromUniqueIDs (UniqueIDsFromLinks l) = List.filter (fun link => negb (bool_decide (Key link ∈ derivedLinkKeys))) l.
Proof.
  intros Hu l. pose proof (collects_links_of _ _ (uniqueIDs_collects _ [] _ collects_new Hu)) as Hl.
  change (links_of (flat_map uniqueSubmission uniqueIDs) l) in Hl. pose proof Hl as [H1 H2 H3 H4].
  assert (forall u, u ∈ UniqueIDsFromLinks l -> document_text (uType u)) as Hu'.
  { intros u (link & -> & Hin%list_elem_of_In%filter_In)%list_elem_of_fmap. apply normal_key_text, H3, list_elem_of_In, Hin. }
  pose proof (collects_links_of _ _ (uniqueIDs_collects _ [] _ collects_new Hu')) as Hw.
  rewrite (written_submissions l H3) in Hw. apply links_of_normal in Hw; [done| |].
  - intros link Hin%list_elem_of_In%filter_In. apply H3, list_elem_of_In, Hin.
  - by apply NoDup_map_filter.
Qed.

(** * Examples *)

Module Tags.
Definition tags : list UniqueID := [
{| uType := "IMDB"; uValue := "tt0903747"; uDefault := false |};
{| uType := "thetvdb"; uValue := " 81189 "; uDefault := false |};
{| uType := ""; uValue := "tt0903747"; uDefault := false |};
{| uType := "youtube"; uValue := "abc"; uDefault := false |};
{| uType := "tvdbid"; uValue := "81189"; uDefault := true |}].

Example tags_links : LinksFromUniqueIDs tags = [
{| Key := "imdb"; Value := "tt0903747"; Default := false |};
{| Key := "tvdb"; Value := "81189"; Default := true |};
{| Key := "youtube"; Value := "abc"; Default := false |}].
Proof. reflexivity. Qed.

Lemma tags_text u : u ∈ tags -> document_text (uType u).
Proof. revert u. apply Forall_forall, (bool_decide_unpack _). by vm_compute. Qed.

Lemma LinksFromUniqueIDs_spec_witness : links_of (flat_map uniqueSubmission tags) (LinksFromUniqueIDs tags).
Proof. apply LinksFromUniqueIDs_spec, tags_text. Defined.

Lemma LinksFromUniqueIDs_roundtrip_witness :
length (LinksFromUniqueIDs tags) = 3 /\
LinksFromUniqueIDs (UniqueIDsFromLinks (LinksFromUniqueIDs tags)) =
  List.filter (fun link => negb (bool_decide (Key link ∈ derivedLinkKeys))) (LinksFromUniqueIDs tags).
Proof. split; [reflexivity|]. apply (LinksFromUniqueIDs_roundtrip tags), tags_text. Defined.

(** A parser that knows one URL. *)
#[local] Instance oneURL : URLs :=
{| url_Parse s := if String.eqb s "https://youtu.be/abc" then Some {| Host := "YouTu.be"; Path := "/abc/"; QueryGet := fun _ => "" |} else None |}.

Definition show : Metadata :=
{| mExternalLinks := LinksFromUniqueIDs tags; mId := "81189"; mTrailer := "https://youtu.be/abc" |}.

Lemma ExtractLinks_spec_witness :
map ident (ExtractLinks (Some show)) = [("imdb", "tt0903747"); ("tvdb", "81189"); ("youtube", "abc"); ("id", "81189")] /\
exists trailer, (forall link, link ∈ trailer -> Key link = "youtube") /\
  links_of (flat_map (fun link => submission (Key link) (Value link) (Default link)) (mExternalLinks show) ++
            legacySubmission (mId show) ++ trailer) (ExtractLinks (Some show)).
Proof.
split; [reflexivity|]. apply (ExtractLinks_spec show), Forall_forall, (bool_decide_unpack _). by vm_compute.
Defined.
End Tags.
