(* ===== verification/Tokens.v ===== *)
(** The naming vocabularies of the scanner: src/internal/agent/mediascan/tokens.go.

    The Go maps are association lists read through [assoc]; the one map the
    code ranges over, [extrasSuffixTypes], is a [gmap] visited in the order of
    [MapOrder]. *)
From stdpp Require Import strings list gmap.
From Stdlib Require Import Ascii ZArith Lia.
From S2P Require Import Prelude GoPath Sidecar Regex GoText.

Definition assoc {A} (key : string) (table : list (string * A)) : option A :=
  snd <$> List.find (fun entry => String.eqb key entry.1) table.

(** * Extensions *)

Inductive fileClass : Type :=
| classOther
| classVideo
| classSubtitle
| classImage
| classAudio
| classNFO.

#[export] Instance fileClass_eq_dec : EqDecision fileClass.
Proof. solve_decision. Defined.

Definition extensionClasses : list (string * fileClass) :=
  map (fun e => (e, classVideo))
    ["mkv"; "mp4"; "avi"; "m4v"; "mov"; "wmv"; "mpg"; "mpeg"; "m2ts"; "mts"; "ts"; "vob";
     "iso"; "divx"; "flv"; "webm"; "ogv"; "3gp"; "m2v"; "rm"; "rmvb"; "asf"] ++
  map (fun e => (e, classSubtitle)) ["srt"; "ass"; "ssa"; "sub"; "idx"; "vtt"; "sup"; "smi"; "pgs"] ++
  map (fun e => (e, classImage)) ["jpg"; "jpeg"; "png"; "webp"; "bmp"; "gif"; "tbn"] ++
  map (fun e => (e, classAudio)) ["mp3"; "flac"; "m4a"; "ogg"; "wav"; "opus"] ++
  [("nfo", classNFO)].

Definition classifyExtension (extension : string) : fileClass := default classOther (assoc extension extensionClasses).

(** * Extras *)

Definition ExtraBehindTheScenes : string := "behind_the_scenes".
Definition ExtraDeletedScene : string := "deleted_scene".
Definition ExtraInterview : string := "interview".
Definition ExtraScene : string := "scene".
Definition ExtraSample : string := "sample".
Definition ExtraShort : string := "short".
Definition ExtraFeaturette : string := "featurette".
Definition ExtraClip : string := "clip".
Definition ExtraOther : string := "other".
Definition ExtraExtra : string := "extra".
Definition ExtraTrailer : string := "trailer".
Definition ExtraThemeMusic : string := "theme_music".
Definition ExtraBackdrop : string := "backdrop".

Definition extrasFolderTypes : list (string * string) := [
  ("behind the scenes", ExtraBehindTheScenes); ("deleted scenes", ExtraDeletedScene);
  ("interviews", ExtraInterview); ("scenes", ExtraScene); ("samples", ExtraSample);
  ("shorts", ExtraShort); ("featurettes", ExtraFeaturette); ("clips", ExtraClip);
  ("other", ExtraOther); ("extras", ExtraExtra); ("trailers", ExtraTrailer);
  ("theme-music", ExtraThemeMusic); ("backdrops", ExtraBackdrop)].

Definition extrasFolderType (folderName : string) : option string := assoc (to_lower folderName) extrasFolderTypes.

Definition extraTypeToSidecarType : list (string * SidecarType) := [
  (ExtraTrailer, "trailer"); (ExtraBehindTheScenes, "behind_the_scenes");
  (ExtraDeletedScene, "deleted_scene"); (ExtraInterview, "interview"); (ExtraScene, "scene");
  (ExtraShort, "short"); (ExtraFeaturette, "featurette"); (ExtraSample, "other_extra");
  (ExtraClip, "other_extra"); (ExtraOther, "other_extra"); (ExtraExtra, "other_extra");
  (ExtraThemeMusic, "theme"); (ExtraBackdrop, "fanart")].

Definition extrasSuffixTypes : gmap string string := list_to_map [
  ("trailer", ExtraTrailer); ("sample", ExtraSample); ("scene", ExtraScene); ("clip", ExtraClip);
  ("interview", ExtraInterview); ("behindthescenes", ExtraBehindTheScenes);
  ("deleted", ExtraDeletedScene); ("deletedscene", ExtraDeletedScene);
  ("featurette", ExtraFeaturette); ("short", ExtraShort); ("other", ExtraOther); ("extra", ExtraExtra)].

Definition spaceSeparableExtrasSuffixes : gset string := {["trailer"; "sample"]}.

(** * Folders and files with a meaning of their own *)

Definition discStructureFolders : list string :=
  ["video_ts"; "audio_ts"; "bdmv"; "certificate"; "stream"; "playlist"; "clipinf"; "backup"].

Definition isDiscStructureFolder (folderName : string) : bool :=
  existsb (String.eqb (to_lower folderName)) discStructureFolders.

Definition trickplayFolderSuffix : string := ".trickplay".

Definition trickplayFolderBaseName (folderName : string) : option string :=
  if (String.length folderName <=? String.length trickplayFolderSuffix)%nat then None
  else if negb (has_suffix trickplayFolderSuffix (to_lower folderName)) then None
  else Some (str_take (String.length folderName - String.length trickplayFolderSuffix) folderName).

(** [^(\d+) - (\d+)x(\d+)$] *)
Definition trickplayResolutionPattern : regex :=
  RSeqs [RBegin; RGroup 1 (RPlus RDigit); RText " - "; RGroup 2 (RPlus RDigit); RText "x"; RGroup 3 (RPlus RDigit); REnd].

Definition parseTrickplayResolutionFolder (folderName : string) : option (Z * Z * Z) :=
  match find trickplayResolutionPattern folderName with
  | None => None
  | Some m =>
      match Atoi (fGroupText folderName 1 m) with
      | None => None
      | Some width =>
          match Atoi (fGroupText folderName 2 m) with
          | None => None
          | Some tileWidth =>
              match Atoi (fGroupText folderName 3 m) with
              | None => None
              | Some tileHeight => Some (width, tileWidth, tileHeight)
              end
          end
      end
  end.

Definition ignoredFolders : list string :=
  ["extrafanart"; "extrathumbs"; "@eadir"; ".actors"; ".appledouble"; "lost+found"].

Definition isIgnoredFolder (folderName : string) : bool :=
  if existsb (String.eqb (to_lower folderName)) ignoredFolders then true else has_prefix "." folderName.

Definition ignoredFiles : list string := ["thumbs.db"; ".ds_store"; "desktop.ini"].

Definition isIgnoredFile (fileName : string) : bool :=
  if existsb (String.eqb (to_lower fileName)) ignoredFiles then true else has_prefix "." fileName.

(** * Trickplay folders *)

(** What a resolution folder's name must be. *)
Definition resolution_name (name w tw th : string) : Prop :=
  name = w +:+ " - " +:+ tw +:+ "x" +:+ th /\
  str_forall is_digit w = true /\ str_forall is_digit tw = true /\ str_forall is_digit th = true /\
  w <> "" /\ tw <> "" /\ th <> "".

(** A match spells the three numbers out, in its groups. *)
Lemma trickplay_match_sound name n st' :
  Matches trickplayResolutionPattern (state_at name n) st' ->
  exists w tw th, resolution_name name w tw th /\
    forall m, fState m = st' ->
      fGroupText name 1 m = w /\ fGroupText name 2 m = tw /\ fGroupText name 3 m = th.
Proof.
  unfold trickplayResolutionPattern. cbn [RSeqs]. rewrite Matches_RSeq. setoid_rewrite Matches_RBegin.
  intros (? & [Hb ->] & Hm). rewrite (state_at_begin _ _ Hb) in Hm. clear Hb.
  apply Matches_RSeq in Hm as (? & (s1 & (w & Hw & Hwd & R1)%Matches_RPlus_RSet & ->)%Matches_RGroup & Hm).
  apply Matches_RSeq in Hm as (s2 & R2%Matches_RText & Hm).
  apply Matches_RSeq in Hm as (? & (s3 & (tw & Htw & Htwd & R3)%Matches_RPlus_RSet & ->)%Matches_RGroup & Hm).
  apply Matches_RSeq in Hm as (s4 & R4%Matches_RText & Hm).
  apply Matches_RSeq in Hm as (? & (s5 & (th & Hth & Hthd & R5)%Matches_RPlus_RSet & ->)%Matches_RGroup & Hm).
  apply Matches_REnd in Hm as [He ->]. cbn [rest capture] in He.
  exists w, tw, th. assert (name = w +:+ " - " +:+ tw +:+ "x" +:+ th) as Hname.
  { apply reads_rest in R1, R2, R3, R4, R5. cbn [rest capture start_state] in *.
    rewrite He, str_app_nil_r in R5. rewrite <- R5, <- R4, <- R3, <- R2. exact R1. }
  split; [done|]. destruct R1 as [_ ->], R2 as [_ ->], R3 as [_ ->], R4 as [_ ->], R5 as [_ ->].
  intros m Hm. assert (groups (fState m) =
    [(3, (String.length w + 3 + String.length tw + 1, String.length w + 3 + String.length tw + 1 + String.length th));
     (2, (String.length w + 3, String.length w + 3 + String.length tw)); (1, (0, String.length w))]) as Hg.
  { rewrite Hm. cbn [groups capture position]. rewrite !consume_groups. cbn [groups capture].
    rewrite !consume_groups. cbn [groups capture]. rewrite !consume_groups, !consume_position. cbn [position capture].
    rewrite !consume_position. cbn [position capture]. by rewrite !consume_position. }
  subst name. split_and!; (erewrite fGroupText_slice; [|by rewrite Hg]).
  - apply (slice_mid "").
  - change 3 with (String.length " - "). rewrite <- (str_length_app w), <- (str_app_assoc w). apply slice_mid.
  - change 3 with (String.length " - "). change 1 with (String.length "x").
    rewrite <- (str_length_app w), <- (str_length_app _ tw), <- (str_length_app _ "x").
    replace (w +:+ " - " +:+ tw +:+ "x" +:+ th) with ((((w +:+ " - ") +:+ tw) +:+ "x") +:+ th +:+ "")
      by (by rewrite str_app_nil_r, !str_app_assoc).
    apply slice_mid.
Qed.

Lemma trickplay_match_complete name w tw th :
  resolution_name name w tw th -> exists st', Matches trickplayResolutionPattern (state_at name 0) st'.
Proof.
  intros (-> & Hwd & Htwd & Hthd & Hw & Htw & Hth). set (name := w +:+ _).
  unfold trickplayResolutionPattern. cbn [RSeqs]. setoid_rewrite Matches_RSeq.
  set (s1 := capture 1 0 (consume w (start_state name))). set (s2 := consume " - " s1).
  set (s3 := capture 2 (position s2) (consume tw s2)). set (s4 := consume "x" s3).
  set (s5 := capture 3 (position s4) (consume th s4)).
  assert (rest s1 = " - " +:+ tw +:+ "x" +:+ th) as H1.
  { unfold s1. cbn [rest capture]. rewrite consume_rest. cbn [rest start_state]. apply str_drop_app. }
  assert (rest s2 = tw +:+ "x" +:+ th) as H2 by (unfold s2; by rewrite consume_rest, H1).
  assert (rest s3 = "x" +:+ th) as H3.
  { unfold s3. cbn [rest capture]. by rewrite consume_rest, H2, str_drop_app. }
  assert (rest s4 = th) as H4 by (unfold s4; by rewrite consume_rest, H3).
  exists s5, (start_state name). split; [by apply Matches_RBegin|].
  apply Matches_RSeq. exists s1. split.
  { apply Matches_RGroup. eexists. split; [|done]. apply Matches_RPlus_RSet. exists w. split_and!; [done..|]. split; [|done].
    apply has_prefix_app. }
  apply Matches_RSeq. exists s2. split; [apply Matches_RText; split; [rewrite H1; apply has_prefix_app|done]|].
  apply Matches_RSeq. exists s3. split.
  { apply Matches_RGroup. eexists. split; [|done]. apply Matches_RPlus_RSet. exists tw. split_and!; [done..|]. split; [|done].
    rewrite H2. apply has_prefix_app. }
  apply Matches_RSeq. exists s4. split; [apply Matches_RText; split; [rewrite H3; apply has_prefix_app|done]|].
  apply Matches_RSeq. exists s5. split.
  { apply Matches_RGroup. eexists. split; [|done]. apply Matches_RPlus_RSet. exists th. split_and!; [done..|]. split; [|done].
    rewrite H4. apply has_prefix_refl. }
  apply Matches_REnd. split; [|done]. unfold s5. cbn [rest capture]. rewrite consume_rest, H4.
  rewrite <- (str_app_nil_r th) at 2. apply str_drop_app.
Qed.

Lemma resolution_name_unique name w tw th w' tw' th' :
  resolution_name name w tw th -> resolution_name name w' tw' th' -> w = w' /\ tw = tw' /\ th = th'.
Proof.
  intros (-> & H1 & H2 & H3 & _) (He & H1' & H2' & H3' & _).
  destruct (run_unique is_digit w w' " " " " _ _ H1 H1' eq_refl eq_refl He) as (-> & _ & He').
  injection He' as He'. by destruct (run_unique is_digit tw tw' "x" "x" _ _ H2 H2' eq_refl eq_refl He') as (-> & _ & ->).
Qed.

(** A trickplay folder's name is read as a width and a tile grid exactly
    when it is three numbers that fit an int, written as in "320 - 10x10". *)
Theorem parseTrickplayResolutionFolder_spec name width tileWidth tileHeight :
  parseTrickplayResolutionFolder name = Some (width, tileWidth, tileHeight) <->
  exists w tw th, resolution_name name w tw th /\
    Atoi w = Some width /\ Atoi tw = Some tileWidth /\ Atoi th = Some tileHeight.
Proof.
  unfold parseTrickplayResolutionFolder. pose proof (find_spec trickplayResolutionPattern name) as Hf.
  destruct (find trickplayResolutionPattern name) as [m|].
  - destruct Hf as (_ & Hm & _). destruct (trickplay_match_sound _ _ _ Hm) as (w & tw & th & Hn & Hg).
    destruct (Hg m eq_refl) as (-> & -> & ->). split.
    + intros Hp. exists w, tw, th. split; [done|]. destruct (Atoi w), (Atoi tw), (Atoi th); try done. by injection Hp as -> -> ->.
    + intros (w' & tw' & th' & Hn' & H1 & H2 & H3).
      destruct (resolution_name_unique _ _ _ _ _ _ _ Hn Hn') as (-> & -> & ->). by rewrite H1, H2, H3.
  - split; [done|]. intros (w & tw & th & Hn & _).
    destruct (trickplay_match_complete _ _ _ _ Hn) as (st' & Hm). by apply Hf in Hm.
Qed.

Lemma resolution_folder_roundtrip width tileWidth tileHeight :
  (0 <= width <= MaxInt)%Z -> (0 <= tileWidth <= MaxInt)%Z -> (0 <= tileHeight <= MaxInt)%Z ->
  parseTrickplayResolutionFolder (show_Z width +:+ " - " +:+ show_Z tileWidth +:+ "x" +:+ show_Z tileHeight) =
    Some (width, tileWidth, tileHeight).
Proof.
  intros H1 H2 H3. apply parseTrickplayResolutionFolder_spec.
  exists (show_Z width), (show_Z tileWidth), (show_Z tileHeight). rewrite !Atoi_show_Z by done. split; [|done].
  split; [done|]. split_and!; apply show_Z_digits; lia.
Qed.
