(* ===== verification/Parse.v ===== *)
(** The name parser of the scanner: src/internal/agent/mediascan/parse.go.

    Each package-level pattern is a [Regex] expression beside the source's text
    of it. Go's [int] is [Z]; what [strconv.Atoi] can fail on it fails on here.
    [cleanTitle] has the one loop that is not bounded by the code: its fuel is
    one more than the length of the name, and [cleanTitle_total] shows that it
    is enough. *)
From stdpp Require Import strings list gmap.
From Stdlib Require Import Ascii ZArith Lia.
From S2P Require Import Prelude Runes GoPath Sidecar Regex GoText Tokens.
#[local] Open Scope go_scope.

(** * Patterns *)

Definition separators : string := " ._-".
Definition RSeparator : regex := ROneOf separators.
Definition RYear : regex := RSeq (RAlt (RText "19") (RText "20")) (RTimes 2 RDigit).

Definition seasonArtworkTokens : regex :=
  RAny [RFold "poster"; RFold "banner"; RSeq (RFold "thumb") (ROpt (RFold "s")); RFold "thumbnail"; RFold "fanart";
        RFold "backdrop"; RFold "background"; RFold "landscape"; RFold "clearart"; RFold "clearlogo"; RFold "logo";
        RFold "discart"; RFold "cdart"; RFold "keyart"; RFold "characterart"; RFold "art"; RFold "cover"; RFold "folder"].

(** [(?i)[ ._-]3d(?:[ ._-](hsbs|fsbs|htab|ftab|mvc))?$] *)
Definition threeDPattern : regex :=
  RSeqs [RSeparator; RFold "3d";
         ROpt (RSeq RSeparator (RGroup 1 (RAny [RFold "hsbs"; RFold "fsbs"; RFold "htab"; RFold "ftab"; RFold "mvc"])));
         REnd].

(** [(?i)[ ._-](cd|dvd|part|pt|disc|disk)[ ._-]?(\d{1,2})$] *)
Definition stackPattern : regex :=
  RSeqs [RSeparator; RGroup 1 (RAny [RFold "cd"; RFold "dvd"; RFold "part"; RFold "pt"; RFold "disc"; RFold "disk"]);
         ROpt RSeparator; RGroup 2 (RBetween 1 2 RDigit); REnd].

(** [(?i)\{edition-([^}]+)\}] *)
Definition editionPattern : regex :=
  RSeqs [RFold "{edition-"; RGroup 1 (RPlus (RNoneOf "}")); RText "}"].

(** [(?i)\[(?:imdbid|tmdbid|tvdbid)-[^\]]*\]|\{(?:imdb|tmdb|tvdb)-[^}]*\}] *)
Definition providerIDPattern : regex :=
  RAlt (RSeqs [RText "["; RAny [RFold "imdbid"; RFold "tmdbid"; RFold "tvdbid"]; RText "-"; RStar (RNoneOf "]"); RText "]"])
       (RSeqs [RText "{"; RAny [RFold "imdb"; RFold "tmdb"; RFold "tvdb"]; RText "-"; RStar (RNoneOf "}"); RText "}"]).

(** [\((19|20)\d{2}\)] *)
Definition parenthesizedYearPattern : regex :=
  RSeqs [RText "("; RGroup 1 (RAlt (RText "19") (RText "20")); RTimes 2 RDigit; RText ")"].

(** [(?:^|[ ._-])((?:19|20)\d{2})(?:[ ._-]|$)] *)
Definition bareYearPattern : regex :=
  RSeqs [RAlt RBegin RSeparator; RGroup 1 RYear; RAlt RSeparator REnd].

(** [[ ._-]*[\[(][^\[\]()]*[\])]\s*$] *)
Definition trailingBracketPattern : regex :=
  RSeqs [RStar RSeparator; ROneOf "[("; RStar (RNoneOf "[]()"); ROneOf "])"; RStar RSpace; REnd].

(** [(?i)\bs(\d{1,4})[ ._-]*], then one or more of [e\d{1,4}[ ._-]*-?[ ._-]*] as group 2. *)
Definition seasonEpisodePattern : regex :=
  RSeqs [RBoundary; RFold "s"; RGroup 1 (RBetween 1 4 RDigit); RStar RSeparator;
         RGroup 2 (RPlus (RSeqs [RFold "e"; RBetween 1 4 RDigit; RStar RSeparator; ROpt (RText "-"); RStar RSeparator]))].

(** [(?i)e(\d{1,4})] *)
Definition episodeNumberPattern : regex := RSeq (RFold "e") (RGroup 1 (RBetween 1 4 RDigit)).

(** [(?i)\b(\d{1,2})x(\d{1,3})\b] *)
Definition crossEpisodePattern : regex :=
  RSeqs [RBoundary; RGroup 1 (RBetween 1 2 RDigit); RFold "x"; RGroup 2 (RBetween 1 3 RDigit); RBoundary].

(** [\b((?:19|20)\d{2})[ ._-](\d{1,2})[ ._-](\d{1,2})\b] *)
Definition isoDatePattern : regex :=
  RSeqs [RBoundary; RGroup 1 RYear; RSeparator; RGroup 2 (RBetween 1 2 RDigit); RSeparator; RGroup 3 (RBetween 1 2 RDigit); RBoundary].

(** [\b(\d{1,2})[ ._-](\d{1,2})[ ._-]((?:19|20)\d{2})\b] *)
Definition dayFirstDatePattern : regex :=
  RSeqs [RBoundary; RGroup 1 (RBetween 1 2 RDigit); RSeparator; RGroup 2 (RBetween 1 2 RDigit); RSeparator; RGroup 3 RYear; RBoundary].

(** [(?i)^season[ ._-]*(\d{1,4})$] *)
Definition seasonFolderPattern : regex :=
  RSeqs [RBegin; RFold "season"; RStar RSeparator; RGroup 1 (RBetween 1 4 RDigit); REnd].

(** [(?i)^s(?:e|eason)?[ ._-]*(\d{1,4})$] *)
Definition abbreviatedSeasonFolderPattern : regex :=
  RSeqs [RBegin; RSeq (RFold "s") (ROpt (RAlt (RFold "e") (RFold "eason"))); RStar RSeparator; RGroup 1 (RBetween 1 4 RDigit); REnd].

Definition seasonArtworkPattern : regex :=
  RSeqs [RBegin; RFold "season"; RStar RSeparator; RGroup 1 (RBetween 1 4 RDigit);
         ROpt (RSeq (RStar RSeparator) seasonArtworkTokens); REnd].

Definition seasonSpecialsArtworkPattern : regex :=
  RSeqs [RBegin; RFold "season"; RStar RSeparator; RFold "specials"; ROpt (RSeq (RStar RSeparator) seasonArtworkTokens); REnd].

(** [\s{2,}] *)
Definition whitespaceRun : regex := RSeq RSpace (RPlus RSpace).

(** * Titles *)

Fixpoint dropBrackets (fuel : nat) (title : string) : outcome string :=
  match fuel with
  | 0 => Diverge
  | S fuel =>
      let trimmed := replace_all trailingBracketPattern title "" in
      if String.eqb trimmed title then Done title else dropBrackets fuel trimmed
  end.

Definition cleanTitle (raw : string) : outcome string :=
  let* title := dropBrackets (S (String.length raw)) raw in
  let title :=
    if negb (str_contains title " ")
    then str_map (fun c => if Ascii.eqb c "."%char || Ascii.eqb c "_"%char then " "%char else c) title else title in
  let title := replace_all whitespaceRun title " " in
  Done (Trim title separators).

Definition trimLeadingSeparators (raw : string) : string := TrimLeft raw separators.

(** * Video names *)

Record videoNameParts : Type := {
  Title : string;
  Year : Z;
  Edition : string;
  VersionLabel : string;
  StackType : string;
  StackNumber : Z;
  ThreeDFormat : string;
}.

Definition splitVersionLabel (baseName folderName : string) : string * string :=
  if String.eqb folderName "" then (baseName, "")
  else
    match last_index baseName " - " with
    | None | Some 0 => (baseName, "")
    | Some separatorIndex =>
        let prefix := str_take separatorIndex baseName in
        if negb (EqualFold (trim_space prefix) (trim_space folderName)) then (baseName, "")
        else
          let label := trim_space (str_drop (separatorIndex + 3) baseName) in
          let label := trim_space (Trim label "[]") in
          if String.eqb label "" then (baseName, "") else (prefix, label)
    end.

Definition splitBareYear (baseName : string) (allowYearWithoutParens : bool) : string * Z :=
  if allowYearWithoutParens then
    match last (find_all bareYearPattern baseName) with
    | Some m =>
        if (0 <? fStart m)%nat then
          match Atoi (fGroupText baseName 1 m) with
          | Some parsed => (str_take (fStart m) baseName, parsed)
          | None => (baseName, 0%Z)
          end
        else (baseName, 0%Z)
    | None => (baseName, 0%Z)
    end
  else (baseName, 0%Z).

Definition splitYear (baseName : string) (allowYearWithoutParens : bool) : string * Z :=
  match last (find_all parenthesizedYearPattern baseName) with
  | Some m =>
      match Atoi (slice baseName (fStart m + 1) (fEnd m - 1)) with
      | Some parsed => (str_take (fStart m) baseName +:+ str_drop (fEnd m) baseName, parsed)
      | None => splitBareYear baseName allowYearWithoutParens
      end
  | None => splitBareYear baseName allowYearWithoutParens
  end.

(** What a match at the end of the name leaves of it. *)
Definition cutMatch (working : string) (m : found) : string :=
  str_take (String.length working - String.length (fText working m)) working.

Definition parseVideoName (baseName folderName : string) (allowYearWithoutParens : bool) : outcome videoNameParts :=
  let '(working, threeD) :=
    match find threeDPattern baseName with
    | Some m => (cutMatch baseName m, to_lower (fGroupText baseName 1 m))
    | None => (baseName, "")
    end in
  let '(working, stackType, stackNumber) :=
    match find stackPattern working with
    | Some m =>
        match Atoi (fGroupText working 2 m) with
        | Some number => (cutMatch working m, to_lower (fGroupText working 1 m), number)
        | None => (working, "", 0%Z)
        end
    | None => (working, "", 0%Z)
    end in
  let '(working, edition) :=
    match find editionPattern working with
    | Some m => (replace_all editionPattern working "", trim_space (fGroupText working 1 m))
    | None => (working, "")
    end in
  let working := replace_all providerIDPattern working "" in
  let '(working, versionLabel) := splitVersionLabel working folderName in
  let '(working, year) := splitYear working allowYearWithoutParens in
  let* title := cleanTitle working in
  Done {| Title := title; Year := year; Edition := edition; VersionLabel := versionLabel;
          StackType := stackType; StackNumber := stackNumber; ThreeDFormat := threeD |}.

(** * Episode names *)

Record episodeInfo : Type := {
  SeasonNumber : option Z;
  EpisodeNumbers : list Z;
  AirDate : string;
  SeriesTitle : string;
  EpisodeTitle : string;
  Matched : bool;
}.

Definition noEpisode : episodeInfo :=
  {| SeasonNumber := None; EpisodeNumbers := []; AirDate := ""; SeriesTitle := ""; EpisodeTitle := ""; Matched := false |}.

Definition expandEpisodeRange (episodes : list Z) (matched : string) : list Z :=
  match episodes with
  | [first; last] =>
      if negb (str_contains matched "-") then episodes
      else if (last <=? first)%Z || (32 <? last - first)%Z then episodes
      else map (fun i => first + Z.of_nat i)%Z (seq 0 (Z.to_nat (last - first + 1)))
  | _ => episodes
  end.

(** The numbers of the match's second group. *)
Definition episodeNumbers (group : string) : list Z :=
  omap (fun m => Atoi (fGroupText group 1 m)) (find_all episodeNumberPattern group).

(** The titles on either side of a match. *)
Definition titlesAround (baseName : string) (low high : nat) : outcome (string * string) :=
  let* seriesTitle := cleanTitle (str_take low baseName) in
  let* episodeTitle := cleanTitle (trimLeadingSeparators (str_drop high baseName)) in
  Done (seriesTitle, episodeTitle).

Definition numberedEpisode (baseName : string) (m : found) (season : Z) (episodes : list Z) : outcome episodeInfo :=
  let* (seriesTitle, episodeTitle) := titlesAround baseName (fStart m) (fEnd m) in
  Done {| SeasonNumber := Some season; EpisodeNumbers := episodes; AirDate := "";
          SeriesTitle := seriesTitle; EpisodeTitle := episodeTitle; Matched := true |}.

(** The canonical SxxExx form. *)
Definition seasonEpisodeForm (baseName : string) : outcome (option episodeInfo) :=
  match find seasonEpisodePattern baseName with
  | None => Done None
  | Some m =>
      match Atoi (fGroupText baseName 1 m) with
      | None => Done None
      | Some season =>
          match episodeNumbers (fGroupText baseName 2 m) with
          | [] => Done None
          | episodes =>
              let* info := numberedEpisode baseName m season (expandEpisodeRange episodes (fText baseName m)) in
              Done (Some info)
          end
      end
  end.

(** The alternate 1x05 form. *)
Definition crossForm (baseName : string) : outcome (option episodeInfo) :=
  match find crossEpisodePattern baseName with
  | None => Done None
  | Some m =>
      match Atoi (fGroupText baseName 1 m), Atoi (fGroupText baseName 2 m) with
      | Some season, Some episode =>
          let* info := numberedEpisode baseName m season [episode] in Done (Some info)
      | _, _ => Done None
      end
  end.

Definition isPlausibleDate (month day : Z) : bool :=
  (1 <=? month)%Z && (month <=? 12)%Z && (1 <=? day)%Z && (day <=? 31)%Z.

Definition dateEpisodeInfo (baseName : string) (low high : nat) (year month day : Z) : outcome episodeInfo :=
  let* (seriesTitle, episodeTitle) := titlesAround baseName low high in
  Done {| SeasonNumber := None; EpisodeNumbers := [];
          AirDate := pad_Z 4 year +:+ "-" +:+ pad_Z 2 month +:+ "-" +:+ pad_Z 2 day;
          SeriesTitle := seriesTitle; EpisodeTitle := episodeTitle; Matched := true |}.

(** The three numbers a date pattern captured; they always parse. *)
Definition groupNumber (baseName : string) (i : nat) (m : found) : Z := default 0%Z (Atoi (fGroupText baseName i m)).

Definition dateForm (pattern : regex) (y m d : nat) (baseName : string) : outcome (option episodeInfo) :=
  match find pattern baseName with
  | None => Done None
  | Some f =>
      let year := groupNumber baseName y f in
      let month := groupNumber baseName m f in
      let day := groupNumber baseName d f in
      if isPlausibleDate month day then
        let* info := dateEpisodeInfo baseName (fStart f) (fEnd f) year month day in Done (Some info)
      else Done None
  end.

(** The first form that answers. *)
Definition orElse (first second : outcome (option episodeInfo)) : outcome (option episodeInfo) :=
  let* answer := first in match answer with Some info => Done (Some info) | None => second end.

Definition parseAirDate (baseName : string) : outcome (option episodeInfo) :=
  orElse (dateForm isoDatePattern 1 2 3 baseName) (dateForm dayFirstDatePattern 3 2 1 baseName).

Definition parseEpisodeName (baseName : string) : outcome episodeInfo :=
  let* answer := orElse (seasonEpisodeForm baseName) (orElse (crossForm baseName) (parseAirDate baseName)) in
  Done (default noEpisode answer).

(** * Season folders, season artwork, extras, music videos *)

(** The season number, and whether the name is abbreviated. *)
Definition parseSeasonFolder (folderName : string) : option (Z * bool) :=
  if EqualFold folderName "specials" then Some (0%Z, false)
  else
    match find seasonFolderPattern folderName with
    | Some m => (fun number => (number, false)) <$> Atoi (fGroupText folderName 1 m)
    | None =>
        match find abbreviatedSeasonFolderPattern folderName with
        | Some m => (fun number => (number, true)) <$> Atoi (fGroupText folderName 1 m)
        | None => None
        end
    end.

Definition parseSeasonArtworkName (baseName : string) : option Z :=
  if is_match seasonSpecialsArtworkPattern baseName then Some 0%Z
  else
    match find seasonArtworkPattern baseName with
    | Some m => Atoi (fGroupText baseName 1 m)
    | None => None
    end.

(** The inner loop of [extrasSuffixType], over the separators. *)
Definition suffixIntroduced (lowered stem : string) : bool :=
  existsb (fun separator =>
    if String.eqb separator " " && negb (bool_decide (stem ∈ spaceSeparableExtrasSuffixes)) then false
    else has_suffix (separator +:+ stem) lowered) ["-"; "."; "_"; " "].

Definition extrasSuffixType `{MapOrder} (baseName : string) : option string :=
  let lowered := to_lower baseName in
  snd <$> List.find (fun entry => suffixIntroduced lowered entry.1) (range_map ["extrasSuffixType"; baseName] extrasSuffixTypes).

Definition parseArtistAndTitle (baseName : string) : outcome (string * string) :=
  match index baseName " - " with
  | None | Some 0 => let* title := cleanTitle baseName in Done ("", title)
  | Some separatorIndex =>
      let artist := trim_space (str_take separatorIndex baseName) in
      let* title := cleanTitle (trim_space (str_drop (separatorIndex + 3) baseName)) in
      Done (artist, title)
  end.

(** * Titles: termination *)

Lemma trailingBracket_never_empty : never_empty trailingBracketPattern = true.
Proof. reflexivity. Qed.

Lemma dropBrackets_total fuel title :
  (String.length title < fuel)%nat -> exists t, dropBrackets fuel title = Done t.
Proof.
  revert title. induction fuel as [|fuel IH]; intros title Hlen; [lia|]. cbn [dropBrackets].
  destruct (String.eqb_spec (replace_all trailingBracketPattern title "") title) as [Heq|Hne]; [eauto|].
  apply IH. destruct (replace_all_shrinks trailingBracketPattern title trailingBracket_never_empty); [done|lia].
Qed.

(** Cleaning a title ends for every name, the loop that strips trailing
    bracketed groups included, and leaves no separator at either end. *)
Theorem cleanTitle_total raw :
  exists title, cleanTitle raw = Done title /\ trimmed (in_cutset separators) title.
Proof.
  unfold cleanTitle. destruct (dropBrackets_total (S (String.length raw)) raw ltac:(lia)) as [t ->].
  cbn [obind]. eexists. split; [done|]. apply trim_trimmed.
Qed.

Lemma cleanTitle_Done raw : exists title, cleanTitle raw = Done title.
Proof.
  unfold cleanTitle. destruct (dropBrackets_total (S (String.length raw)) raw ltac:(lia)) as [t ->]. by eexists.
Qed.

Lemma cleanTitle_trimmed raw title : cleanTitle raw = Done title -> trimmed (in_cutset separators) title.
Proof. unfold cleanTitle. destruct (dropBrackets _ _); [|done..]. intros [= <-]. apply trim_trimmed. Qed.

(** * Ranges of what is parsed *)

(** A group of digits is a number below the power of ten of its width. *)
Lemma group_number r s m i low high v :
  found_in r s m -> (1 <= low <= high)%nat -> (high <= 18)%nat ->
  (forall body, (i, body) ∈ group_bodies r -> body = RBetween low high RDigit) ->
  Atoi (fGroupText s i m) = Some v -> (0 <= v < 10 ^ Z.of_nat high)%Z.
Proof.
  intros Hm Hlow Hhigh Hb Hv. destruct (fGroupText_lang _ _ i _ Hm) as [He|(body & Hin & Hl)].
  { rewrite He in Hv. done. }
  apply Hb in Hin as ->. apply lang_RBetween in Hl as [Hlen Hd]; [|lia].
  destruct (Atoi_digits (fGroupText s i m)) as (v' & Hv' & _ & Hr); [by intros He; rewrite He in Hlen; simpl in Hlen; lia|done|lia|].
  assert (v' = v) as -> by congruence. split; [lia|].
  assert (10 ^ Z.of_nat (String.length (fGroupText s i m)) <= 10 ^ Z.of_nat high)%Z by (apply Z.pow_le_mono_r; lia). lia.
Qed.

(** A century and two digits. *)
Lemma year_digits w1 w2 :
  lang (RAlt (RText "19") (RText "20")) w1 -> lang (RTimes 2 RDigit) w2 ->
  exists v, Atoi (w1 +:+ w2) = Some v /\ (1900 <= v <= 2099)%Z.
Proof.
  intros H1%lang_RAlt (Hlen & Hd)%lang_RTimes.
  assert (exists p, (w1 = "19" /\ p = 19 \/ w1 = "20" /\ p = 20)%Z /\ digits_value 0 w1 = Some p) as (p & Hw1 & Hp).
  { destruct H1 as [->%lang_RText| ->%lang_RText]; [exists 19%Z|exists 20%Z]; by split; [tauto|]. }
  destruct (digits_value_bound w2 p Hd) as (v & Hv & Hb); [destruct Hw1 as [[_ ->]|[_ ->]]; lia|].
  rewrite Hlen in Hb. change (10 ^ Z.of_nat 2)%Z with 100%Z in Hb.
  exists v. split; [|destruct Hw1 as [[_ ->]|[_ ->]]; lia]. apply Atoi_value.
  - by destruct Hw1 as [[-> _]|[-> _]].
  - by rewrite digits_value_app, Hp.
  - destruct Hw1 as [[_ ->]|[_ ->]]; lia.
Qed.

Lemma year_text w : lang RYear w -> exists v, Atoi w = Some v /\ (1900 <= v <= 2099)%Z.
Proof. intros (w1 & w2 & -> & H1 & H2)%lang_RSeq. by apply year_digits. Qed.

Definition year_ok (year : Z) : Prop := (year = 0 \/ 1900 <= year <= 2099)%Z.

Lemma last_In {A} (l : list A) x : last l = Some x -> x ∈ l.
Proof. rewrite last_Some. intros [l' ->]. apply elem_of_app. right. by left. Qed.

Lemma splitBareYear_year baseName allow : year_ok (splitBareYear baseName allow).2.
Proof.
  unfold splitBareYear, year_ok. destruct allow; [|by left].
  destruct (last _) as [m|] eqn:Hl; [|by left]. destruct (_ <? _)%nat; [|by left].
  apply last_In, find_all_found in Hl. destruct (fGroupText_lang _ _ 1 _ Hl) as [->|(body & Hin & Hb)]; [by left|].
  cbn in Hin. apply list_elem_of_singleton in Hin. injection Hin as ->.
  destruct (year_text _ Hb) as (v & -> & Hv). by right.
Qed.

(** A parenthesised year, without its parentheses. *)
Lemma parenthesized_text w :
  lang parenthesizedYearPattern w ->
  exists y v, w = "(" +:+ y +:+ ")" /\ Atoi y = Some v /\ (1900 <= v <= 2099)%Z.
Proof.
  intros (w1 & w2 & -> & ->%lang_RText & (w3 & w4 & -> & H3%lang_RGroup & (w5 & w6 & -> & H5 & ->%lang_RText)%lang_RSeq)%lang_RSeq)%lang_RSeq.
  destruct (year_digits _ _ H3 H5) as (v & Hv & Hr). exists (w3 +:+ w5), v. by rewrite str_app_assoc.
Qed.

(** The text between the ends of a match, one character in on either side. *)
Lemma slice_inside s low high y :
  (low <= high <= String.length s)%nat -> slice s low high = "(" +:+ y +:+ ")" -> slice s (low + 1) (high - 1) = y.
Proof.
  intros Hle Hs. assert (s = (str_take low s +:+ "(") +:+ y +:+ (")" +:+ str_drop high s)) as He.
  { rewrite <- (str_take_drop low s) at 1. rewrite <- (str_take_drop (high - low) (str_drop low s)) at 1.
    fold (slice s low high). rewrite Hs, str_drop_drop, !str_app_assoc. do 5 f_equal. lia. }
  pose proof (slice_length s low high Hle) as Hlen. rewrite Hs, !str_length_app in Hlen. simpl in Hlen.
  rewrite He at 1. replace (low + 1)%nat with (String.length (str_take low s +:+ "(")).
  - replace (high - 1)%nat with (String.length (str_take low s +:+ "(") + String.length y)%nat; [apply slice_mid|].
    rewrite str_length_app, str_length_take. simpl. lia.
  - rewrite str_length_app, str_length_take. simpl. lia.
Qed.

Lemma found_in_bounds r s m : found_in r s m -> (fStart m <= fEnd m <= String.length s)%nat.
Proof.
  intros (st & Hp & Ho & _ & Hm). pose proof (Matches_position _ _ _ Hm). pose proof (at_offset_Matches _ _ _ _ Ho Hm) as [? _].
  unfold fEnd. lia.
Qed.

Lemma splitYear_year baseName allow : year_ok (splitYear baseName allow).2.
Proof.
  unfold splitYear. destruct (last _) as [m|] eqn:Hl; [|apply splitBareYear_year].
  apply last_In, find_all_found in Hl. pose proof (found_in_bounds _ _ _ Hl) as Hb.
  apply fText_lang, parenthesized_text in Hl as (y & v & Hy & Hv & Hr).
  rewrite (slice_inside _ _ _ _ Hb Hy), Hv. by right.
Qed.

(** Words a case-insensitive alternative of them can match. *)
Lemma fold_words words w :
  Forall (fun t => to_lower t = t) words -> lang (RAny (map RFold words)) w -> to_lower w ∈ words.
Proof.
  intros Hw (r & (t & -> & Ht)%list_elem_of_fmap & Hl)%lang_RAny. rewrite Forall_forall in Hw.
  apply lang_RFold in Hl; [by rewrite Hl|by apply Hw].
Qed.

(** What a parsed name may hold. *)
Record parts_ok (parts : videoNameParts) : Prop := {
  po_title : trimmed (in_cutset separators) (Title parts);
  po_year : year_ok (Year parts);
  po_stack : StackType parts ∈ [""; "cd"; "dvd"; "part"; "pt"; "disc"; "disk"];
  po_number : (0 <= StackNumber parts <= 99)%Z;
  po_threeD : ThreeDFormat parts ∈ [""; "hsbs"; "fsbs"; "htab"; "ftab"; "mvc"];
}.

Lemma threeD_format s m :
  find threeDPattern s = Some m -> to_lower (fGroupText s 1 m) ∈ [""; "hsbs"; "fsbs"; "htab"; "ftab"; "mvc"].
Proof.
  intros Hm%find_found. destruct (fGroupText_lang _ _ 1 _ Hm) as [->|(body & Hin & Hb)]; [by left|]. right.
  cbn in Hin. apply list_elem_of_singleton in Hin. injection Hin as ->.
  apply (fold_words ["hsbs"; "fsbs"; "htab"; "ftab"; "mvc"]); [by repeat constructor|exact Hb].
Qed.

Lemma stack_type s m v :
  find stackPattern s = Some m -> Atoi (fGroupText s 2 m) = Some v ->
  to_lower (fGroupText s 1 m) ∈ [""; "cd"; "dvd"; "part"; "pt"; "disc"; "disk"] /\ (0 <= v <= 99)%Z.
Proof.
  intros Hm%find_found Hv. split.
  - destruct (fGroupText_lang _ _ 1 _ Hm) as [->|(body & Hin & Hb)]; [by left|]. right.
    cbn in Hin. apply elem_of_cons in Hin as [Hin|Hin%list_elem_of_singleton]; [|done]. injection Hin as ->.
    apply (fold_words ["cd"; "dvd"; "part"; "pt"; "disc"; "disk"]); [by repeat constructor|exact Hb].
  - assert (0 <= v < 10 ^ Z.of_nat 2)%Z as Hr; [|change (10 ^ Z.of_nat 2)%Z with 100%Z in Hr; lia].
    apply (group_number stackPattern s m 2 1 2); [done|lia|lia| |done]. intros body Hin. cbn in Hin.
    apply elem_of_cons in Hin as [Hin|Hin%list_elem_of_singleton]; [done|]. by injection Hin.
Qed.

Lemma parseVideoName_core baseName folderName allow :
  exists parts, parseVideoName baseName folderName allow = Done parts /\ parts_ok parts.
Proof.
  unfold parseVideoName. set (threeD := match find threeDPattern baseName with Some _ => _ | None => _ end).
  assert (threeD.2 ∈ [""; "hsbs"; "fsbs"; "htab"; "ftab"; "mvc"]) as H3.
  { subst threeD. destruct (find threeDPattern baseName) as [m|] eqn:Hm; [by apply threeD_format|by left]. }
  destruct threeD as [w3 threeD]. set (stack := match find stackPattern w3 with Some _ => _ | None => _ end).
  assert (stack.1.2 ∈ [""; "cd"; "dvd"; "part"; "pt"; "disc"; "disk"] /\ (0 <= stack.2 <= 99)%Z) as [Hs Hn].
  { subst stack. destruct (find stackPattern w3) as [m|] eqn:Hm; [|split; [by left|simpl; lia]].
    destruct (Atoi _) as [v|] eqn:Hv; [by eapply stack_type|split; [by left|simpl; lia]]. }
  destruct stack as [[w2 stackType] stackNumber]. destruct (match find editionPattern w2 with Some _ => _ | None => _ end) as [w1 edition].
  destruct (splitVersionLabel _ _) as [w0 label]. pose proof (splitYear_year w0 allow) as Hy.
  destruct (splitYear w0 allow) as [w year]. destruct (cleanTitle_Done w) as [title Ht]. rewrite Ht.
  eexists. split; [done|]. constructor; [by eapply cleanTitle_trimmed|done..].
Qed.

(** Parsing a video's name always returns, and whatever the name is the
    parts are in range: the title has no separator at either end, the year is
    absent or between 1900 and 2099, the part number has at most two digits,
    and the part type and the stereoscopic layout are of their vocabularies. *)
Theorem parseVideoName_ranges baseName folderName allow :
  exists parts, parseVideoName baseName folderName allow = Done parts /\ parts_ok parts.
Proof. apply parseVideoName_core. Qed.

(** ** Season numbers *)

Lemma season_group r s m v :
  find r s = Some m -> (forall body, (1, body) ∈ group_bodies r -> body = RBetween 1 4 RDigit) ->
  Atoi (fGroupText s 1 m) = Some v -> (0 <= v <= 9999)%Z.
Proof.
  intros Hf%find_found Hb Hv. pose proof (group_number r s m 1 1 4 v Hf ltac:(lia) ltac:(lia) Hb Hv) as Hr.
  change (10 ^ Z.of_nat 4)%Z with 10000%Z in Hr. lia.
Qed.

Lemma parseSeasonFolder_range name number abbreviated :
  parseSeasonFolder name = Some (number, abbreviated) -> (0 <= number <= 9999)%Z.
Proof.
  unfold parseSeasonFolder. destruct (EqualFold name "specials"); [by intros [= <- _]|].
  destruct (find seasonFolderPattern name) as [m|] eqn:Hm.
  - intros (v & Hv & [= -> _])%fmap_Some. eapply season_group; [exact Hm| |exact Hv].
    intros body Hin. cbn in Hin. by apply list_elem_of_singleton in Hin as [= ->].
  - destruct (find abbreviatedSeasonFolderPattern name) as [m'|] eqn:Hm'; [|done].
    intros (v & Hv & [= -> _])%fmap_Some. eapply season_group; [exact Hm'| |exact Hv].
    intros body Hin. cbn in Hin. by apply list_elem_of_singleton in Hin as [= ->].
Qed.

Lemma parseSeasonArtworkName_range name number : parseSeasonArtworkName name = Some number -> (0 <= number <= 9999)%Z.
Proof.
  unfold parseSeasonArtworkName. destruct (is_match _ _); [by intros [= <-]|].
  destruct (find seasonArtworkPattern name) as [m|] eqn:Hm; [|done]. intros Hv. eapply season_group; [exact Hm| |exact Hv].
  intros body Hin. cbn in Hin. by apply list_elem_of_singleton in Hin as [= ->].
Qed.

Lemma parseArtistAndTitle_Done baseName : exists parts, parseArtistAndTitle baseName = Done parts.
Proof.
  unfold parseArtistAndTitle. destruct (index baseName " - ") as [[|n]|].
  - destruct (cleanTitle_Done baseName) as [t ->]. by eexists.
  - destruct (cleanTitle_Done (trim_space (str_drop (S n + 3) baseName))) as [t ->]. by eexists.
  - destruct (cleanTitle_Done baseName) as [t ->]. by eexists.
Qed.

(** * Episodes *)

(** What a parsed episode may hold: either numbers, every one of them of four
    digits, or the date of a plausible day. *)
Definition dated (info : episodeInfo) : Prop :=
  SeasonNumber info = None /\ EpisodeNumbers info = [] /\
  exists year month day, (1900 <= year <= 2099)%Z /\ isPlausibleDate month day = true /\
    AirDate info = pad_Z 4 year +:+ "-" +:+ pad_Z 2 month +:+ "-" +:+ pad_Z 2 day.

Definition numbered (info : episodeInfo) : Prop :=
  AirDate info = "" /\ EpisodeNumbers info <> [] /\
  (exists season, SeasonNumber info = Some season /\ (0 <= season <= 9999)%Z) /\
  Forall (fun e => 0 <= e <= 9999)%Z (EpisodeNumbers info).

Lemma expandEpisodeRange_core episodes matched :
  (expandEpisodeRange episodes matched = episodes \/
   exists first last, episodes = [first; last] /\ str_contains matched "-" = true /\ (first < last <= first + 32)%Z /\
     length (expandEpisodeRange episodes matched) = Z.to_nat (last - first + 1) /\
     forall i, (i < Z.to_nat (last - first + 1))%nat ->
       expandEpisodeRange episodes matched !! i = Some (first + Z.of_nat i)%Z) /\
  (forall low high, Forall (fun e => low <= e <= high)%Z episodes ->
     Forall (fun e => low <= e <= high)%Z (expandEpisodeRange episodes matched)) /\
  (expandEpisodeRange episodes matched = [] <-> episodes = []).
Proof.
  unfold expandEpisodeRange. destruct episodes as [|first [|last [|third others]]]; try (split_and!; by auto).
  destruct (str_contains matched "-"); cbn [negb]; [|split_and!; by auto].
  destruct ((last <=? first)%Z || (32 <? last - first)%Z) eqn:Hr; [split_and!; by auto|].
  apply orb_false_iff in Hr as [H1%Z.leb_gt H2%Z.ltb_ge]. split_and!.
  - right. exists first, last. split_and!; [done|done|lia|lia|by rewrite length_map, length_seq|].
    intros i Hi. change (map ?f ?l) with (f <$> l). rewrite list_lookup_fmap, lookup_seq_lt by done. done.
  - intros low high [Hf [Hl _]%Forall_cons]%Forall_cons. apply Forall_forall.
    intros x (i & -> & Hi%elem_of_seq)%list_elem_of_fmap. lia.
  - split; [|done]. intros Hnil. apply (f_equal length) in Hnil. rewrite length_map, length_seq in Hnil. simpl in Hnil. lia.
Qed.

(** A hyphenated pair of episode numbers becomes the consecutive run
    between them when it ascends by at most 32; everything else is left as it
    is. The result is never empty for a non-empty input and stays between the
    lowest and the highest number given. *)
Theorem expandEpisodeRange_spec episodes matched :
  (expandEpisodeRange episodes matched = episodes \/
   exists first last, episodes = [first; last] /\ str_contains matched "-" = true /\ (first < last <= first + 32)%Z /\
     length (expandEpisodeRange episodes matched) = Z.to_nat (last - first + 1) /\
     forall i, (i < Z.to_nat (last - first + 1))%nat ->
       expandEpisodeRange episodes matched !! i = Some (first + Z.of_nat i)%Z) /\
  (forall low high, Forall (fun e => low <= e <= high)%Z episodes ->
     Forall (fun e => low <= e <= high)%Z (expandEpisodeRange episodes matched)) /\
  (expandEpisodeRange episodes matched = [] <-> episodes = []).
Proof. apply expandEpisodeRange_core. Qed.

Lemma titlesAround_Done baseName low high : exists titles, titlesAround baseName low high = Done titles.
Proof.
  unfold titlesAround. destruct (cleanTitle_Done (str_take low baseName)) as [t1 ->].
  destruct (cleanTitle_Done (trimLeadingSeparators (str_drop high baseName))) as [t2 ->]. by eexists.
Qed.

Lemma numberedEpisode_Done baseName m season episodes :
  exists info, numberedEpisode baseName m season episodes = Done info /\ SeasonNumber info = Some season /\
    EpisodeNumbers info = episodes /\ AirDate info = "".
Proof.
  unfold numberedEpisode. destruct (titlesAround_Done baseName (fStart m) (fEnd m)) as [[t1 t2] ->]. by eexists.
Qed.

(** A form that answers within range, or not at all. *)
Definition form_ok (answer : outcome (option episodeInfo)) : Prop :=
  exists a, answer = Done a /\ forall info, a = Some info -> numbered info \/ dated info.

Lemma form_none : form_ok (Done None).
Proof. by exists None. Qed.

Lemma orElse_ok first second : form_ok first -> form_ok second -> form_ok (orElse first second).
Proof. intros ([info|] & -> & H1) H2; [by exists (Some info)|exact H2]. Qed.

Lemma episodeNumbers_range group : Forall (fun e => 0 <= e <= 9999)%Z (episodeNumbers group).
Proof.
  apply Forall_forall. intros e (m & Hm%find_all_found & Hv)%list_elem_of_omap.
  assert (0 <= e < 10 ^ Z.of_nat 4)%Z as Hr; [|change (10 ^ Z.of_nat 4)%Z with 10000%Z in Hr; lia].
  apply (group_number episodeNumberPattern group m 1 1 4); [done|lia|lia| |done].
  intros body Hin. cbn in Hin. apply list_elem_of_singleton in Hin. by injection Hin.
Qed.

Lemma seasonEpisodeForm_ok baseName : form_ok (seasonEpisodeForm baseName).
Proof.
  unfold seasonEpisodeForm. destruct (find seasonEpisodePattern baseName) as [m|] eqn:Hm; [|apply form_none].
  destruct (Atoi (fGroupText baseName 1 m)) as [season|] eqn:Hs; [|apply form_none].
  assert (0 <= season < 10 ^ Z.of_nat 4)%Z as Hr.
  { apply (group_number seasonEpisodePattern baseName m 1 1 4); [by apply find_found|lia|lia| |done].
    intros body Hin. cbn in Hin. apply elem_of_cons in Hin as [Hin|Hin%list_elem_of_singleton]; [by injection Hin|done]. }
  change (10 ^ Z.of_nat 4)%Z with 10000%Z in Hr. pose proof (episodeNumbers_range (fGroupText baseName 2 m)) as He.
  destruct (episodeNumbers (fGroupText baseName 2 m)) as [|e l] eqn:Hn; [apply form_none|].
  destruct (expandEpisodeRange_core (e :: l) (fText baseName m)) as (_ & Hrange & Hnil).
  destruct (numberedEpisode_Done baseName m season (expandEpisodeRange (e :: l) (fText baseName m))) as (info & -> & H1 & H2 & H3).
  eexists. split; [done|]. intros ? [= <-]. left. split_and!; [done|by rewrite H2, Hnil|exists season; split; [done|lia]|].
  rewrite H2. by apply Hrange.
Qed.

Lemma crossForm_ok baseName : form_ok (crossForm baseName).
Proof.
  unfold crossForm. destruct (find crossEpisodePattern baseName) as [m|] eqn:Hm; [|apply form_none].
  destruct (Atoi (fGroupText baseName 1 m)) as [season|] eqn:Hs; [|apply form_none].
  destruct (Atoi (fGroupText baseName 2 m)) as [episode|] eqn:He; [|apply form_none].
  assert (0 <= season < 10 ^ Z.of_nat 2)%Z as Hr.
  { apply (group_number crossEpisodePattern baseName m 1 1 2); [by apply find_found|lia|lia| |done].
    intros body Hin. cbn in Hin. apply elem_of_cons in Hin as [Hin|Hin%list_elem_of_singleton]; [by injection Hin|done]. }
  assert (0 <= episode < 10 ^ Z.of_nat 3)%Z as Hr'.
  { apply (group_number crossEpisodePattern baseName m 2 1 3); [by apply find_found|lia|lia| |done].
    intros body Hin. cbn in Hin. apply elem_of_cons in Hin as [Hin|Hin%list_elem_of_singleton]; [done|by injection Hin]. }
  change (10 ^ Z.of_nat 2)%Z with 100%Z in Hr. change (10 ^ Z.of_nat 3)%Z with 1000%Z in Hr'.
  destruct (numberedEpisode_Done baseName m season [episode]) as (info & -> & H1 & H2 & H3).
  eexists. split; [done|]. intros ? [= <-]. left. split_and!; [done|by rewrite H2|exists season; split; [done|lia]|].
  rewrite H2. repeat constructor; lia.
Qed.

(** A date form whose year group is a year. *)
Lemma dateForm_ok pattern y m d baseName :
  (forall f, find pattern baseName = Some f -> exists v, Atoi (fGroupText baseName y f) = Some v /\ (1900 <= v <= 2099)%Z) ->
  form_ok (dateForm pattern y m d baseName).
Proof.
  intros Hy. unfold dateForm. destruct (find pattern baseName) as [f|] eqn:Hf; [|apply form_none].
  destruct (Hy f eq_refl) as (v & Hv & Hr). destruct (isPlausibleDate _ _) eqn:Hp; [|apply form_none].
  unfold dateEpisodeInfo. destruct (titlesAround_Done baseName (fStart f) (fEnd f)) as [[t1 t2] ->].
  eexists. split; [done|]. intros ? [= <-]. right. split_and!; [done..|].
  exists v, (groupNumber baseName m f), (groupNumber baseName d f). split_and!; [lia|lia|done|].
  assert (groupNumber baseName y f = v) as -> by (unfold groupNumber; by rewrite Hv). done.
Qed.

Lemma year_group pattern baseName i f :
  find pattern baseName = Some f -> always_captures i pattern = true ->
  (forall body, (i, body) ∈ group_bodies pattern -> body = RYear) ->
  exists v, Atoi (fGroupText baseName i f) = Some v /\ (1900 <= v <= 2099)%Z.
Proof.
  intros Hf%find_found Ha Hb. destruct (fGroupText_always _ _ i _ Hf Ha) as (body & Hin & Hl).
  apply Hb in Hin as ->. by apply year_text.
Qed.

Lemma parseAirDate_ok baseName : form_ok (parseAirDate baseName).
Proof.
  apply orElse_ok; apply dateForm_ok; intros f Hf; (eapply year_group; [done|done|]); intros body Hin; cbn in Hin;
    repeat (apply elem_of_cons in Hin as [Hin|Hin]; [by injection Hin|]); by apply elem_of_nil in Hin.
Qed.

Lemma parseEpisodeName_core baseName :
  exists info, parseEpisodeName baseName = Done info /\ (info = noEpisode \/ numbered info \/ dated info).
Proof.
  unfold parseEpisodeName.
  destruct (orElse_ok _ _ (seasonEpisodeForm_ok baseName) (orElse_ok _ _ (crossForm_ok baseName) (parseAirDate_ok baseName)))
    as (answer & -> & Hok).
  eexists. split; [done|]. destruct answer as [info|]; [right; by apply Hok|by left].
Qed.

(** Parsing an episode's name always returns, and an answer is either
    numbered, with a season and at least one episode and all of them of at
    most four digits, or dated, with a year between 1900 and 2099 and a
    plausible month and day. So narrowing them to int32 loses nothing. *)
Theorem parseEpisodeName_ranges baseName :
  exists info, parseEpisodeName baseName = Done info /\ (info = noEpisode \/ numbered info \/ dated info).
Proof. apply parseEpisodeName_core. Qed.

(** Two episode numbers written without a hyphen are expanded into a range
    when a hyphen follows them, as it does before an episode title: the
    pattern's match takes in the separators after the last number, and the
    hyphen is looked for in the whole of it. *)
Theorem unhyphenated_pair_expanded :
  (exists info, parseEpisodeName "Show S01E01E04 Pilot" = Done info /\ EpisodeNumbers info = [1; 4]%Z) /\
  (exists info, parseEpisodeName "Show S01E01E04 - Pilot" = Done info /\ EpisodeNumbers info = [1; 2; 3; 4]%Z).
Proof. split; (eexists; split; [vm_compute; reflexivity|reflexivity]). Qed.

(** * Season folders *)

(** A stem, separators and one to four digits. *)
Definition season_name (stems : list string) (name d : string) : Prop :=
  exists a b, name = a +:+ b +:+ d /\ to_lower a ∈ stems /\ str_forall (in_cutset separators) b = true /\
    str_forall is_digit d = true /\ (1 <= String.length d <= 4)%nat.

Definition seasonShape (stem : regex) : regex :=
  RSeqs [RBegin; stem; RStar RSeparator; RGroup 1 (RBetween 1 4 RDigit); REnd].

Definition reads_one_of (stem : regex) (stems : list string) : Prop :=
  forall st st', Matches stem st st' <-> exists a, to_lower a ∈ stems /\ reads a st st'.

Lemma season_match_sound stem stems name n st' :
  reads_one_of stem stems -> Matches (seasonShape stem) (state_at name n) st' ->
  exists d, season_name stems name d /\ forall m, fState m = st' -> fGroupText name 1 m = d.
Proof.
  intros Hstem. unfold seasonShape. cbn [RSeqs]. rewrite Matches_RSeq. setoid_rewrite Matches_RBegin.
  intros (? & [Hb ->] & Hm). rewrite (state_at_begin _ _ Hb) in Hm. clear Hb.
  apply Matches_RSeq in Hm as (s1 & (a & Ha & R1)%Hstem & Hm).
  apply Matches_RSeq in Hm as (s2 & (b & Hbs & R2)%Matches_RStar_RSet & Hm).
  apply Matches_RSeq in Hm as (? & (s3 & H3 & ->)%Matches_RGroup & Hm).
  apply Matches_RBetween_RSet in H3 as (d & Hlen & Hd & R3); [|lia].
  apply Matches_REnd in Hm as [He ->]. cbn [rest capture] in He. exists d.
  assert (name = a +:+ b +:+ d) as Hname.
  { apply reads_rest in R1, R2, R3. cbn [rest start_state] in *. rewrite He, str_app_nil_r in R3.
    rewrite <- R3, <- R2. exact R1. }
  split; [exists a, b; done|]. intros m Hm. destruct R1 as [_ ->], R2 as [_ ->], R3 as [_ ->].
  assert (groups (fState m) = [(1, (String.length a + String.length b, String.length a + String.length b + String.length d))]) as Hg.
  { rewrite Hm. cbn [groups capture position]. by rewrite !consume_groups, !consume_position. }
  erewrite fGroupText_slice; [|by rewrite Hg]. rewrite <- str_length_app, Hname.
  replace (a +:+ b +:+ d) with ((a +:+ b) +:+ d +:+ "") by (by rewrite str_app_nil_r, str_app_assoc). apply slice_mid.
Qed.

Lemma season_match_complete stem stems name d :
  reads_one_of stem stems -> season_name stems name d -> exists st', Matches (seasonShape stem) (state_at name 0) st'.
Proof.
  intros Hstem (a & b & -> & Ha & Hb & Hd & Hlen). set (name := a +:+ _). unfold seasonShape. cbn [RSeqs].
  set (s1 := consume a (start_state name)). set (s2 := consume b s1).
  set (s3 := capture 1 (position s2) (consume d s2)).
  assert (rest s1 = b +:+ d) as H1 by (unfold s1; rewrite consume_rest; apply str_drop_app).
  assert (rest s2 = d) as H2 by (unfold s2; rewrite consume_rest, H1; apply str_drop_app).
  exists s3. apply Matches_RSeq. exists (start_state name). split; [by apply Matches_RBegin|].
  apply Matches_RSeq. exists s1. split; [apply Hstem; exists a; split; [done|]; split; [apply has_prefix_app|done]|].
  apply Matches_RSeq. exists s2. split.
  { apply Matches_RStar_RSet. exists b. split; [exact Hb|]. split; [rewrite H1; apply has_prefix_app|done]. }
  apply Matches_RSeq. exists s3. split.
  { apply Matches_RGroup. eexists. split; [|done]. apply Matches_RBetween_RSet; [lia|]. exists d.
    split_and!; [lia|lia|done|]. split; [rewrite H2; apply has_prefix_refl|done]. }
  apply Matches_REnd. split; [|done]. unfold s3. cbn [rest capture]. rewrite consume_rest, H2.
  rewrite <- (str_app_nil_r d) at 2. apply str_drop_app.
Qed.

Lemma fold_reads t : to_lower t = t -> reads_one_of (RFold t) [t].
Proof.
  intros Ht st st'. rewrite (Matches_RFold _ _ _ Ht). by setoid_rewrite list_elem_of_singleton.
Qed.

Lemma reads_app a b st st1 st2 : reads a st st1 -> reads b st1 st2 -> reads (a +:+ b) st st2.
Proof.
  revert st. induction a as [|c a IH]; intros st H1 H2.
  - destruct H1 as [_ ->]. exact H2.
  - apply reads_split in H1 as (s & Hc & H1). eapply reads_cons; [exact Hc|]. by apply IH.
Qed.

Lemma reads_app_inv a b st st2 : reads (a +:+ b) st st2 -> exists st1, reads a st st1 /\ reads b st1 st2.
Proof.
  revert st. induction a as [|c a IH]; intros st H1.
  - exists st. split; [by split|exact H1].
  - apply reads_split in H1 as (s & Hc & H1). destruct (IH s H1) as (st1 & H2 & H3).
    exists st1. split; [by eapply reads_cons|done].
Qed.

Lemma to_lower_app a b : to_lower (a +:+ b) = to_lower a +:+ to_lower b.
Proof. induction a as [|c a IH]; [done|]. change (String c a +:+ b) with (String c (a +:+ b)). by rewrite !to_lower_cons, IH. Qed.

Lemma abbreviated_reads :
  reads_one_of (RSeq (RFold "s") (ROpt (RAlt (RFold "e") (RFold "eason")))) ["s"; "se"; "season"].
Proof.
  intros st st'. rewrite Matches_RSeq. setoid_rewrite Matches_ROpt. setoid_rewrite Matches_RAlt.
  setoid_rewrite (Matches_RFold "s"); [|done]. setoid_rewrite (Matches_RFold "e"); [|done].
  setoid_rewrite (Matches_RFold "eason"); [|done]. split.
  - intros (s1 & (a & Ha & R1) & [[(b & Hb & R2)|(b & Hb & R2)]|Hst]).
    + exists (a +:+ b). rewrite to_lower_app, Ha, Hb. split; [right; by left|]. by eapply reads_app.
    + exists (a +:+ b). rewrite to_lower_app, Ha, Hb. split; [right; right; by left|]. by eapply reads_app.
    + subst st'. exists a. rewrite Ha. split; [by left|done].
  - intros (w & Hw & R).
    assert (exists c a, w = String c a /\ lower_ascii c = "s"%char /\ to_lower a ∈ [""; "e"; "eason"]) as (c & a & -> & Hc & Ha).
    { destruct w as [|c a]; [set_unfold in Hw; by destruct Hw as [?|[?|[?|[]]]]|]. exists c, a.
      rewrite to_lower_cons in Hw. set_unfold in Hw. destruct Hw as [Hw|[Hw|[Hw|[]]]];
        injection Hw as Hc Ha; rewrite Ha; split_and!; [done|done|set_solver|done|done|set_solver|done|done|set_solver]. }
    apply reads_split in R as (s1 & R1 & R2). exists s1. split.
    { exists (String c ""). rewrite to_lower_cons, Hc. done. }
    set_unfold in Ha. destruct Ha as [Ha|[Ha|[Ha|[]]]].
    + right. destruct a; [|done]. by destruct R2 as [_ ->].
    + left. left. eauto.
    + left. right. eauto.
Qed.

Lemma season_name_digits stems name d :
  Forall (fun t => str_forall (fun c => negb (is_digit c)) t = true) stems ->
  season_name stems name d -> exists nd c r, name = nd +:+ String c r /\ d = String c r /\
    str_forall (fun c => negb (is_digit c)) nd = true /\ is_digit c = true.
Proof.
  intros Hst (a & b & -> & Ha & Hb & Hd & Hlen). destruct d as [|c r]; [simpl in Hlen; lia|].
  exists (a +:+ b), c, r. simpl in Hd. bool_prop. split_and!; [by rewrite str_app_assoc|done| |done].
  rewrite str_forall_app. apply andb_true_iff. split.
  - rewrite Forall_forall in Hst. specialize (Hst _ Ha). clear -Hst. revert Hst.
    induction a as [|x a IH]; [done|]. rewrite to_lower_cons. simpl. intros [Hx Hl]%andb_true_iff.
    rewrite IH by done. rewrite andb_true_r. by destruct x as [[] [] [] [] [] [] [] []].
  - clear -Hb. induction b as [|x b IH]; [done|]. simpl in Hb. bool_prop. simpl. rewrite IH by done.
    rewrite andb_true_r. by destruct x as [[] [] [] [] [] [] [] []].
Qed.

Lemma season_name_unique stems stems' name d d' :
  Forall (fun t => str_forall (fun c => negb (is_digit c)) t = true) stems ->
  Forall (fun t => str_forall (fun c => negb (is_digit c)) t = true) stems' ->
  season_name stems name d -> season_name stems' name d' -> d = d'.
Proof.
  intros H1 H2 (nd & c & r & He & -> & Hnd & Hc)%(season_name_digits _ _ _ H1)
    (nd' & c' & r' & He' & -> & Hnd' & Hc')%(season_name_digits _ _ _ H2). rewrite He in He'.
  destruct (run_unique (fun c => negb (is_digit c)) nd nd' c c' r r') as (_ & -> & ->); try done; by apply negb_false_iff.
Qed.

(** What the two patterns make of a folder's name. *)
Lemma season_find stem stems name :
  reads_one_of stem stems -> Forall (fun t => str_forall (fun c => negb (is_digit c)) t = true) stems ->
  match find (seasonShape stem) name with
  | Some m => season_name stems name (fGroupText name 1 m) /\ forall d, season_name stems name d -> d = fGroupText name 1 m
  | None => forall d, ~ season_name stems name d
  end.
Proof.
  intros Hstem Hst. pose proof (find_spec (seasonShape stem) name) as Hf. destruct (find _ name) as [m|].
  - destruct Hf as (_ & Hm & _). destruct (season_match_sound _ _ _ _ _ Hstem Hm) as (d & Hd & Hg).
    rewrite (Hg m eq_refl). split; [done|]. intros d' Hd'. by eapply season_name_unique.
  - intros d Hd. destruct (season_match_complete _ _ _ _ Hstem Hd) as (st' & Hm). by apply Hf in Hm.
Qed.

(** A folder is read as a season exactly when it is named "specials", or
    "season" and a number of one to four digits with nothing but separators
    between them, or the abbreviated "s" and "se", which is flagged; letter
    case does not matter. *)
Theorem parseSeasonFolder_spec name number abbreviated :
  parseSeasonFolder name = Some (number, abbreviated) <->
  (EqualFold name "specials" = true /\ number = 0%Z /\ abbreviated = false) \/
  (EqualFold name "specials" = false /\ exists d, Atoi d = Some number /\
    (season_name ["season"] name d /\ abbreviated = false \/
     (forall d', ~ season_name ["season"] name d') /\ season_name ["s"; "se"; "season"] name d /\ abbreviated = true)).
Proof.
  unfold parseSeasonFolder. destruct (EqualFold name "specials") eqn:Hsp.
  { split; [intros [= <- <-]; by left|]. by intros [(_ & -> & ->)|[? _]]. }
  change seasonFolderPattern with (seasonShape (RFold "season")).
  change abbreviatedSeasonFolderPattern with (seasonShape (RSeq (RFold "s") (ROpt (RAlt (RFold "e") (RFold "eason"))))).
  pose proof (season_find (RFold "season") ["season"] name (fold_reads _ eq_refl) ltac:(by repeat constructor)) as H1.
  pose proof (season_find _ _ name abbreviated_reads ltac:(by repeat constructor)) as H2.
  destruct (find (seasonShape (RFold "season")) name) as [m|].
  - destruct H1 as [H1 Hu]. rewrite fmap_Some. split.
    + intros (v & Hv & [= -> ->]). right. split; [done|]. eexists. split; [exact Hv|]. by left.
    + intros [[? _]|(_ & d & Hd & [[Hs ->]|(Hno & _)])]; [done| |by apply Hno in H1].
      exists number. by rewrite <- (Hu d Hs).
  - destruct (find _ name) as [m|].
    + destruct H2 as [H2 Hu]. rewrite fmap_Some. split.
      * intros (v & Hv & [= -> ->]). right. split; [done|]. eexists. split; [exact Hv|]. by right.
      * intros [[? _]|(_ & d & Hd & [[Hs ->]|(_ & Hs & ->)])]; [done|by apply H1 in Hs|].
        exists number. by rewrite <- (Hu d Hs).
    + split; [done|]. intros [[? _]|(_ & d & Hd & [[Hs ->]|(_ & Hs & ->)])]; [done|by apply H1 in Hs|by apply H2 in Hs].
Qed.

(** * Version labels *)

(** A label is only ever split off a name that repeats its folder's. *)
Lemma splitVersionLabel_sound baseName folderName :
  splitVersionLabel baseName folderName = (baseName, "") \/
  exists prefix tail label, splitVersionLabel baseName folderName = (prefix, label) /\
    baseName = prefix +:+ " - " +:+ tail /\ prefix <> "" /\ label <> "" /\ trimmed is_space label /\
    EqualFold (trim_space prefix) (trim_space folderName) = true.
Proof.
  unfold splitVersionLabel. destruct (String.eqb folderName ""); [by left|].
  destruct (last_index baseName " - ") as [[|n]|] eqn:Hi; [by left| |by left].
  destruct (EqualFold _ _) eqn:He; [|by left]. cbn [negb].
  set (label := trim_space (Trim (trim_space (str_drop (S n + 3) baseName)) "[]")).
  destruct (String.eqb_spec label "") as [|Hl]; [by left|]. right. apply last_index_Some in Hi.
  exists (str_take (S n) baseName), (str_drop (S n + 3) baseName), label. split_and!; [done|exact Hi| |done|apply trim_trimmed|done].
  destruct baseName; [|done]. by apply (f_equal String.length) in Hi.
Qed.

(** * Extras suffixes *)

Lemma suffix_run_unique f r r' x x' a a' :
  str_forall f a = true -> str_forall f a' = true -> f x = false -> f x' = false ->
  r +:+ String x a = r' +:+ String x' a' -> a = a'.
Proof.
  intros Ha Ha' Hx Hx'. revert r'. induction r as [|c r IH]; intros [|c' r'] He.
  - by injection He.
  - injection He as -> He. change (a = r' +:+ String x' a') in He. subst a. rewrite str_forall_app in Ha. simpl in Ha.
    rewrite Hx', andb_false_r in Ha. done.
  - injection He as -> He. change (r +:+ String x a = a') in He. subst a'. rewrite str_forall_app in Ha'. simpl in Ha'.
    rewrite Hx, andb_false_r in Ha'. done.
  - injection He as -> He. by apply IH in He.
Qed.

Definition is_letter (c : ascii) : bool := is_word c && negb (is_digit c) && negb (nat_of_ascii c =? 95)%nat.

Lemma suffixIntroduced_spec lowered stem :
  suffixIntroduced lowered stem = true -> exists r x, lowered = r +:+ String x stem /\ is_letter x = false.
Proof.
  unfold suffixIntroduced. intros (separator & Hin & Hs)%existsb_exists.
  destruct (_ && _); [done|]. apply has_suffix_spec in Hs as [r ->]. exists r.
  assert (exists x, separator = String x "" /\ is_letter x = false) as (x & -> & Hx).
  { cbn in Hin. destruct Hin as [<-|[<-|[<-|[<-|[]]]]]; by eexists. }
  by exists x.
Qed.

Lemma extras_stems stem t : extrasSuffixTypes !! stem = Some t -> str_forall is_letter stem = true.
Proof.
  assert (map_Forall (fun stem _ => str_forall is_letter stem = true) extrasSuffixTypes) as Hall
    by (apply (bool_decide_unpack _); by vm_compute).
  apply Hall.
Qed.

(** The order in which Go happens to walk the suffix table does not matter:
    at most one stem can end a name, so every order gives the same answer, the
    type of the stem the name ends in after an allowed separator. *)
Theorem extrasSuffixType_deterministic baseName :
  (forall (M1 M2 : MapOrder), @extrasSuffixType M1 baseName = @extrasSuffixType M2 baseName) /\
  (forall (M : MapOrder) extraType, @extrasSuffixType M baseName = Some extraType <->
     exists stem, extrasSuffixTypes !! stem = Some extraType /\ suffixIntroduced (to_lower baseName) stem = true).
Proof.
  assert (forall (M : MapOrder) t, @extrasSuffixType M baseName = Some t <->
    exists stem, extrasSuffixTypes !! stem = Some t /\ suffixIntroduced (to_lower baseName) stem = true) as Hspec.
  { intros M t. unfold extrasSuffixType. rewrite fmap_Some. split.
    - intros ([stem t'] & Hf & ->). apply find_some in Hf as [Hin Hs]. exists stem.
      by rewrite <- list_elem_of_In, elem_of_range_map in Hin.
    - intros (stem & Hm & Hs). destruct (List.find _ _) as [[stem' t']|] eqn:Hf.
      + exists (stem', t'). split; [done|]. apply find_some in Hf as [Hin Hs'].
        rewrite <- list_elem_of_In, elem_of_range_map in Hin. cbn [fst] in Hs'.
        destruct (suffixIntroduced_spec _ _ Hs) as (r & x & He & Hx). destruct (suffixIntroduced_spec _ _ Hs') as (r' & x' & He' & Hx').
        rewrite He in He'. apply (suffix_run_unique is_letter) in He'; [|by eapply extras_stems|by eapply extras_stems|done|done].
        subst stem'. rewrite Hm in Hin. by injection Hin as ->.
      + eapply find_none in Hf; [|apply list_elem_of_In, elem_of_range_map, Hm]. cbn [fst] in Hf. congruence. }
  split; [|exact Hspec]. intros M1 M2. apply option_eq. intros t. by rewrite !Hspec.
Qed.
