(* ===== verification/Dates.v ===== *)
(** The dates of the metadata model: src/internal/shared/metadata/accessors.go.

    [time.Parse] is Go's: a layout is a list of chunks, each reading from the
    front of the value, and the day is checked against its month at the end.
    Only the chunks the three accepted layouts use are modelled; the fields of
    the clock and the zone are read and checked but not kept, since the code
    formats nothing but the day. *)
From stdpp Require Import strings list.
From Stdlib Require Import Ascii ZArith Lia ZifyBool.
From Stdlib Require String.
From S2P Require Import Prelude Regex GoText.

(** * time.Parse *)

Inductive chunk : Type :=
| Literal (text : string)
| stdLongYear
| stdZeroMonth
| stdZeroDay
| stdHour
| stdZeroMinute
| stdZeroSecond
| stdISO8601ColonTZ.

Record date : Type := { year : Z; month : Z; day : Z }.

Definition digit_value (c : ascii) : Z := Z.of_nat (nat_of_ascii c - 48).

(** [getnum]: one or two digits, exactly two when [fixed]. *)
Definition getnum (s : string) (fixed : bool) : option (Z * string) :=
  match s with
  | String a rest =>
      if is_digit a then
        match rest with
        | String b rest' =>
            if is_digit b then Some (digit_value a * 10 + digit_value b, rest')%Z
            else if fixed then None else Some (digit_value a, rest)
        | EmptyString => if fixed then None else Some (digit_value a, rest)
        end
      else None
  | EmptyString => None
  end.

(** A number below a bound, or from one bound to another. *)
Definition ranged (low high : Z) (read : option (Z * string)) : option (Z * string) :=
  match read with
  | Some (v, rest) => if (low <=? v)%Z && (v <=? high)%Z then Some (v, rest) else None
  | None => None
  end.

Definition is_blank (c : ascii) : bool := Ascii.eqb c " "%char.

(** [skip]: the text of the layout between two chunks. A blank stands for any
    run of blanks, and for nothing at the end of the value. *)
Fixpoint skip (value prefix : string) : option string :=
  match prefix with
  | EmptyString => Some value
  | String p prefix' =>
      if is_blank p then
        match value with
        | String v _ => if is_blank v then skip (trim_left is_blank value) prefix' else None
        | EmptyString => skip value prefix'
        end
      else
        match value with
        | String v value' => if Ascii.eqb v p then skip value' prefix' else None
        | EmptyString => None
        end
  end.

Definition longYear (s : string) : option (Z * string) :=
  if (String.length s <? 4)%nat then None
  else
    let p := str_take 4 s in
    if str_forall is_digit p then (fun v => (v, str_drop 4 s)) <$> digits_value 0 p else None.

(** A fraction of a second the layout does not ask for is read all the same. *)
Definition skipFraction (s : string) : string :=
  match s with
  | String c (String d rest) =>
      if (Ascii.eqb c "."%char || Ascii.eqb c ","%char) && is_digit d then trim_left is_digit rest else s
  | _ => s
  end.

(** [Z], or a sign and an offset of at most 24:60. *)
Definition colonTZ (s : string) : option string :=
  if has_prefix "Z" s then Some (str_drop 1 s)
  else if (String.length s <? 6)%nat then None
  else
    match s with
    | String sign (String h1 (String h2 (String colon (String m1 (String m2 rest))))) =>
        if negb (Ascii.eqb colon ":"%char) then None
        else
          match ranged 0 24 (getnum (String h1 (String h2 "")) true),
                ranged 0 60 (getnum (String m1 (String m2 "")) true) with
          | Some _, Some _ => if Ascii.eqb sign "+"%char || Ascii.eqb sign "-"%char then Some rest else None
          | _, _ => None
          end
    | _ => None
    end.

Fixpoint parseChunks (layout : list chunk) (value : string) (d : date) : option date :=
  match layout with
  | [] => if String.eqb value "" then Some d else None
  | c :: layout =>
      match c with
      | Literal text => match skip value text with Some rest => parseChunks layout rest d | None => None end
      | stdLongYear =>
          match longYear value with
          | Some (v, rest) => parseChunks layout rest {| year := v; month := month d; day := day d |}
          | None => None
          end
      | stdZeroMonth =>
          match ranged 1 12 (getnum value true) with
          | Some (v, rest) => parseChunks layout rest {| year := year d; month := v; day := day d |}
          | None => None
          end
      | stdZeroDay =>
          match getnum value true with
          | Some (v, rest) => parseChunks layout rest {| year := year d; month := month d; day := v |}
          | None => None
          end
      | stdHour =>
          match ranged 0 23 (getnum value false) with Some (_, rest) => parseChunks layout rest d | None => None end
      | stdZeroMinute =>
          match ranged 0 59 (getnum value true) with Some (_, rest) => parseChunks layout rest d | None => None end
      | stdZeroSecond =>
          match ranged 0 59 (getnum value true) with
          | Some (_, rest) => parseChunks layout (skipFraction rest) d
          | None => None
          end
      | stdISO8601ColonTZ =>
          match colonTZ value with Some rest => parseChunks layout rest d | None => None end
      end
  end.

Definition isLeap (y : Z) : bool := (y mod 4 =? 0)%Z && (negb (y mod 100 =? 0)%Z || (y mod 400 =? 0)%Z).

Definition daysIn (m y : Z) : Z :=
  if (m =? 2)%Z then if isLeap y then 29 else 28
  else if existsb (Z.eqb m) [4; 6; 9; 11]%Z then 30 else 31.

(** time.Parse, up to the day. *)
Definition timeParse (layout : list chunk) (value : string) : option date :=
  match parseChunks layout value {| year := 0; month := 1; day := 1 |} with
  | Some d => if (1 <=? day d)%Z && (day d <=? daysIn (month d) (year d))%Z then Some d else None
  | None => None
  end.

(** [parsed.Format] of the layout 2006-01-02. *)
Definition formatDay (d : date) : string :=
  pad_Z 4 (year d) +:+ "-" +:+ pad_Z 2 (month d) +:+ "-" +:+ pad_Z 2 (day d).

(** * ParseDate and FormatDate *)

Definition bareDate : list chunk := [stdLongYear; Literal "-"; stdZeroMonth; Literal "-"; stdZeroDay].
Definition clock : list chunk := [stdHour; Literal ":"; stdZeroMinute; Literal ":"; stdZeroSecond].

Definition dateLayouts : list (list chunk) := [
  bareDate;
  bareDate ++ [Literal " "] ++ clock;
  bareDate ++ [Literal "T"] ++ clock ++ [stdISO8601ColonTZ]].

Fixpoint parseLayouts (layouts : list (list chunk)) (raw : string) : string :=
  match layouts with
  | [] => ""
  | layout :: rest =>
      match timeParse layout raw with
      | Some parsed => formatDay parsed
      | None => parseLayouts rest raw
      end
  end.

Definition ParseDate (raw : string) : string :=
  let raw := trim_space raw in
  if String.eqb raw "" then "" else parseLayouts dateLayouts raw.

Definition FormatDate (date : string) : string := ParseDate date.

(** Numeric tags. *)
Definition parseIntTag (raw : string) : option Z := Atoi (trim_space raw).

Example dates_read :
  map ParseDate ["2024-02-29"; " 2024-2-29"; "2023-02-29"; "2024-02-29  7:05:09.25"; "2024-02-29T07:05:09+24:60";
                 "2024-02-29T07:05:09"; "0000-01-31"; "2024-02-29 07:05:60"; ""] =
  ["2024-02-29"; ""; ""; "2024-02-29"; "2024-02-29"; ""; "0000-01-31"; ""; ""].
Proof. vm_compute. reflexivity. Qed.

(** * What a date is read from *)

Definition valid_date (d : date) : Prop :=
  (0 <= year d <= 9999)%Z /\ (1 <= month d <= 12)%Z /\ (1 <= day d <= daysIn (month d) (year d))%Z.

Definition digits : list ascii := String.list_ascii_of_string "0123456789".

Lemma is_digit_digits c : is_digit c = true -> c ∈ digits.
Proof.
  intros Hc. apply (bool_decide_unpack _). destruct c as [[] [] [] [] [] [] [] []]; try discriminate Hc; by vm_compute.
Qed.

(** Two and four digits are what their value prints as. *)
Lemma pad2_read a b : is_digit a = true -> is_digit b = true ->
  pad_Z 2 (digit_value a * 10 + digit_value b) = String a (String b "").
Proof.
  assert (Forall (fun a => Forall (fun b => pad_Z 2 (digit_value a * 10 + digit_value b) = String a (String b "")) digits)
    digits) as Hall by (apply (bool_decide_unpack _); by vm_compute).
  intros Ha%is_digit_digits Hb%is_digit_digits. rewrite Forall_forall in Hall. specialize (Hall a Ha).
  rewrite Forall_forall in Hall. by apply Hall.
Qed.

Lemma pad2_spec v : (0 <= v < 100)%Z ->
  String.length (pad_Z 2 v) = 2%nat /\ str_forall is_digit (pad_Z 2 v) = true /\ digits_value 0 (pad_Z 2 v) = Some v.
Proof. intros Hv. apply pad_Z_spec; lia. Qed.

Lemma pad4_spec v : (0 <= v < 10000)%Z ->
  String.length (pad_Z 4 v) = 4%nat /\ str_forall is_digit (pad_Z 4 v) = true /\ digits_value 0 (pad_Z 4 v) = Some v.
Proof. intros Hv. apply pad_Z_spec; lia. Qed.

(** Strings of digits of one length are told apart by their value. *)
Lemma digits_value_inj s t acc acc' v :
  String.length s = String.length t -> digits_value acc s = Some v -> digits_value acc' t = Some v -> s = t /\ acc = acc'.
Proof.
  revert t acc acc'. induction s as [|c s IH]; intros [|d t] acc acc'; try done; simpl.
  - by intros _ [= ->] [= ->].
  - destruct (is_digit c) eqn:Hc; [|done]. destruct (is_digit d) eqn:Hd; [|done]. intros [= Hl] H1 H2.
    destruct (IH _ _ _ Hl H1 H2) as [-> Heq]. unfold is_digit in Hc, Hd. cbv zeta in Hc, Hd. bool_prop.
    assert (nat_of_ascii c = nat_of_ascii d /\ acc = acc') as [Hn ->] by lia.
    split; [|done]. f_equal. by rewrite <- (ascii_nat_embedding c), Hn, ascii_nat_embedding.
Qed.

Lemma longYear_spec s y rest : longYear s = Some (y, rest) <-> (0 <= y <= 9999)%Z /\ s = pad_Z 4 y +:+ rest.
Proof.
  unfold longYear. split.
  - destruct (_ <? 4)%nat eqn:Hl; [done|]. apply Nat.ltb_ge in Hl.
    destruct (str_forall _ _) eqn:Hd; [|done]. intros (v & Hv & He)%fmap_Some.
    assert (v = y /\ str_drop 4 s = rest) as [-> <-] by (by split; congruence).
    assert (String.length (str_take 4 s) = 4%nat) as Hlen by (rewrite str_length_take; lia).
    destruct (digits_value_bound (str_take 4 s) 0 Hd ltac:(lia)) as (w & Hw & Hb).
    rewrite Hv in Hw. injection Hw as <-. rewrite Hlen in Hb. change (10 ^ Z.of_nat 4)%Z with 10000%Z in Hb.
    split; [lia|]. destruct (pad4_spec y ltac:(lia)) as (Hpl & _ & Hpv).
    rewrite <- (str_take_drop 4 s) at 1. f_equal.
    destruct (digits_value_inj (str_take 4 s) (pad_Z 4 y) 0 0 y) as [Heq _]; [by rewrite Hlen, Hpl|done|done|done].
  - intros [Hy ->]. destruct (pad4_spec y ltac:(lia)) as (Hpl & Hpd & Hpv).
    rewrite str_length_app, Hpl. assert ((4 + String.length rest <? 4)%nat = false) as -> by (apply Nat.ltb_ge; lia).
    pose proof (str_take_app (pad_Z 4 y) rest) as Ht. rewrite Hpl in Ht. rewrite Ht, Hpd, Hpv. cbn [fmap option_fmap option_map].
    pose proof (str_drop_app (pad_Z 4 y) rest) as Hd. rewrite Hpl in Hd. by rewrite Hd.
Qed.

Lemma getnum_fixed s v rest : getnum s true = Some (v, rest) <-> (0 <= v < 100)%Z /\ s = pad_Z 2 v +:+ rest.
Proof.
  split.
  - destruct s as [|a [|b s]]; simpl; try done; destruct (is_digit a) eqn:Ha; try done.
    destruct (is_digit b) eqn:Hb; [|done]. intros [= <- <-]. rewrite pad2_read by done. split; [|done].
    unfold is_digit in Ha, Hb. unfold digit_value. bool_prop. lia.
  - intros [Hv ->]. destruct (pad2_spec v Hv) as (Hl & Hd & Hp).
    destruct (pad_Z 2 v) as [|a [|b [|]]]; try done. simpl in Hd, Hp.
    destruct (is_digit a) eqn:Ha; [|done]. destruct (is_digit b) eqn:Hb; [|done]. injection Hp as <-.
    change ((String a (String b "") +:+ rest)) with (String a (String b rest)). simpl. by rewrite Ha, Hb.
Qed.

Lemma skip_char value c : is_blank c = false ->
  forall rest, skip value (String c "") = Some rest <-> value = String c rest.
Proof.
  intros Hc rest. simpl. rewrite Hc. destruct value as [|v value]; [done|].
  destruct (Ascii.eqb_spec v c) as [->|Hv]; split; [by intros [= ->]|by intros [= ->]|done|]. by intros [= ? ?].
Qed.

Lemma skip_dash rest : skip ("-" +:+ rest) "-" = Some rest.
Proof. done. Qed.

(** The chunks of a clock leave the date as it is. *)
Definition clock_chunk (c : chunk) : bool :=
  match c with stdLongYear | stdZeroMonth | stdZeroDay => false | _ => true end.

Lemma parseChunks_clock layout value d d' :
  forallb clock_chunk layout = true -> parseChunks layout value d = Some d' -> d' = d.
Proof.
  revert value. induction layout as [|c layout IH]; intros value; simpl.
  - destruct (String.eqb value ""); [|done]. by intros _ [= <-].
  - intros [Hc Hl]%andb_true_iff. destruct c; try done; repeat case_match; try done; by apply IH.
Qed.

Lemma parseChunks_bare tail value d0 d :
  forallb clock_chunk tail = true ->
  parseChunks (bareDate ++ tail) value d0 = Some d <->
  exists rest, value = formatDay d +:+ rest /\ (0 <= year d <= 9999)%Z /\ (1 <= month d <= 12)%Z /\ (0 <= day d < 100)%Z /\
    parseChunks tail rest d = Some d.
Proof.
  intros Htail. unfold bareDate, formatDay. cbn [app parseChunks]. split.
  - destruct (longYear value) as [[y s1]|] eqn:Hy; [|done]. apply longYear_spec in Hy as [Hy ->].
    destruct (skip s1 "-") as [s2|] eqn:H1; [|done]. apply skip_char in H1 as ->; [|done].
    destruct (getnum s2 true) as [[m s3]|] eqn:Hm; [|done]. apply getnum_fixed in Hm as [Hm ->]. cbn [ranged].
    destruct ((1 <=? m)%Z && (m <=? 12)%Z) eqn:Hmr; [|done]. bool_prop.
    destruct (skip s3 "-") as [s4|] eqn:H2; [|done]. apply skip_char in H2 as ->; [|done].
    destruct (getnum s4 true) as [[dd s5]|] eqn:Hd; [|done]. apply getnum_fixed in Hd as [Hd ->].
    cbn [year month day]. intros Hp. pose proof (parseChunks_clock _ _ _ _ Htail Hp) as ->. cbn [year month day] in *.
    exists s5. split_and!; try done; try lia. by rewrite !str_app_assoc.
  - intros (rest & -> & Hy & Hm & Hd & Hp). rewrite !str_app_assoc.
    rewrite (proj2 (longYear_spec _ (year d) _) (conj Hy eq_refl)).
    rewrite skip_dash.
    assert (0 <= month d < 100)%Z as Hm100 by lia. rewrite (proj2 (getnum_fixed _ (month d) _) (conj Hm100 eq_refl)). cbn [ranged].
    assert ((1 <=? month d)%Z && (month d <=? 12)%Z = true) as -> by (apply andb_true_iff; rewrite !Z.leb_le; lia).
    rewrite skip_dash.
    rewrite (proj2 (getnum_fixed _ (day d) _) (conj Hd eq_refl)). cbn [year month day].
    destruct d as [y m dd]. exact Hp.
Qed.

(** * ParseDate *)

(** A layout reads a valid date off the front of the value, and the rest of
    the layout reads the rest. *)
Lemma timeParse_bare tail value d :
  forallb clock_chunk tail = true ->
  timeParse (bareDate ++ tail) value = Some d <->
  valid_date d /\ exists rest, value = formatDay d +:+ rest /\ parseChunks tail rest d = Some d.
Proof.
  intros Htail. unfold timeParse, valid_date. split.
  - destruct (parseChunks _ _ _) as [d'|] eqn:Hp; [|done]. destruct (_ && _) eqn:Hd; [|done]. intros [= ->].
    apply parseChunks_bare in Hp as (rest & -> & Hy & Hm & _ & Hp); [|done]. bool_prop. split; [lia|]. by exists rest.
  - intros ((Hy & Hm & Hd) & rest & -> & Hp).
    assert (day d < 100)%Z by (unfold daysIn in Hd; repeat case_match; lia).
    erewrite (proj2 (parseChunks_bare tail _ _ d Htail)) by (exists rest; split_and!; done || lia).
    assert ((1 <=? day d)%Z && (day d <=? daysIn (month d) (year d))%Z = true) as -> by lia. done.
Qed.

(** What may follow the date: nothing, a time of day, or a time and a zone. *)
Definition reads_clock (layout : list chunk) (rest : string) : bool :=
  bool_decide (is_Some (parseChunks layout rest {| year := 0; month := 1; day := 1 |})).

Definition clock_tails : list (list chunk) := [[]; Literal " " :: clock; Literal "T" :: clock ++ [stdISO8601ColonTZ]].

Definition date_suffix (rest : string) : Prop := exists tail, tail ∈ clock_tails /\ reads_clock tail rest = true.

Lemma parseChunks_any_date layout value d d' :
  forallb clock_chunk layout = true -> parseChunks layout value d = Some d -> parseChunks layout value d' = Some d'.
Proof.
  revert value. induction layout as [|c layout IH]; intros value; simpl.
  - by destruct (String.eqb value "").
  - intros [Hc Hl]%andb_true_iff. destruct c; try done; repeat case_match; try done; by apply IH.
Qed.

Lemma reads_clock_spec tail rest d :
  tail ∈ clock_tails -> reads_clock tail rest = true <-> parseChunks tail rest d = Some d.
Proof.
  intros Hin. assert (forallb clock_chunk tail = true) as Htail.
  { unfold clock_tails in Hin. rewrite !elem_of_cons in Hin. by destruct Hin as [->|[->|[->|?%elem_of_nil]]]. }
  unfold reads_clock. rewrite bool_decide_eq_true. split.
  - intros [d' Hd]. pose proof (parseChunks_clock _ _ _ _ Htail Hd) as ->. by eapply parseChunks_any_date.
  - intros Hd. eexists. by eapply parseChunks_any_date.
Qed.

Lemma parseLayouts_spec raw d :
  valid_date d ->
  (exists layout, layout ∈ dateLayouts /\ timeParse layout raw = Some d) <->
  exists rest, raw = formatDay d +:+ rest /\ date_suffix rest.
Proof.
  intros Hd. assert (dateLayouts = map (app bareDate) clock_tails) as -> by done. unfold date_suffix. split.
  - intros (layout & (tail & -> & Hin)%list_elem_of_fmap & Hp).
    apply timeParse_bare in Hp as (_ & rest & -> & Hp);
      [|unfold clock_tails in Hin; rewrite !elem_of_cons in Hin; by destruct Hin as [->|[->|[->|?%elem_of_nil]]]].
    exists rest. split; [done|]. exists tail. by rewrite (reads_clock_spec tail rest d).
  - intros (rest & -> & tail & Hin & Hr). exists (bareDate ++ tail). split; [apply list_elem_of_fmap; by exists tail|].
    rewrite timeParse_bare; [|unfold clock_tails in Hin; rewrite !elem_of_cons in Hin; by destruct Hin as [->|[->|[->|?%elem_of_nil]]]].
    split; [done|]. exists rest. split; [done|]. by apply reads_clock_spec.
Qed.

Lemma pad4_prefix y y' r r' :
  (0 <= y <= 9999)%Z -> (0 <= y' <= 9999)%Z -> pad_Z 4 y +:+ r = pad_Z 4 y' +:+ r' -> y = y' /\ r = r'.
Proof.
  intros Hy Hy' He. pose proof (proj2 (longYear_spec (pad_Z 4 y +:+ r) y r) (conj Hy eq_refl)) as H1.
  rewrite He, (proj2 (longYear_spec _ y' r') (conj Hy' eq_refl)) in H1. by injection H1 as -> ->.
Qed.

Lemma pad2_prefix v v' r r' :
  (0 <= v < 100)%Z -> (0 <= v' < 100)%Z -> pad_Z 2 v +:+ r = pad_Z 2 v' +:+ r' -> v = v' /\ r = r'.
Proof.
  intros Hv Hv' He. pose proof (proj2 (getnum_fixed (pad_Z 2 v +:+ r) v r) (conj Hv eq_refl)) as H1.
  rewrite He, (proj2 (getnum_fixed _ v' r') (conj Hv' eq_refl)) in H1. by injection H1 as -> ->.
Qed.

Lemma formatDay_prefix d d' rest rest' :
  valid_date d -> valid_date d' -> formatDay d +:+ rest = formatDay d' +:+ rest' -> d = d' /\ rest = rest'.
Proof.
  intros (Hy & Hm & Hd) (Hy' & Hm' & Hd') He. unfold formatDay in He. rewrite !str_app_assoc in He.
  assert (forall m y, daysIn m y < 100)%Z as Hdays by (intros m y; unfold daysIn; repeat case_match; lia).
  pose proof (Hdays (month d) (year d)). pose proof (Hdays (month d') (year d')).
  apply pad4_prefix in He as [E1 He%str_app_inv_l]; [|lia|lia].
  apply pad2_prefix in He as [E2 He%str_app_inv_l]; [|lia|lia].
  apply pad2_prefix in He as [E3 He]; [|lia|lia].
  split; [|done]. destruct d, d'; simpl in *; congruence.
Qed.

Lemma timeParse_layout layout raw d : layout ∈ dateLayouts -> timeParse layout raw = Some d -> valid_date d.
Proof.
  assert (dateLayouts = map (app bareDate) clock_tails) as -> by done.
  intros (tail & -> & Hin)%list_elem_of_fmap Hp. apply timeParse_bare in Hp as [? _]; [done|].
  unfold clock_tails in Hin. rewrite !elem_of_cons in Hin. by destruct Hin as [->|[->|[->|?%elem_of_nil]]].
Qed.

Lemma parseLayouts_cases layouts raw :
  parseLayouts layouts raw = "" /\ (forall layout, layout ∈ layouts -> timeParse layout raw = None) \/
  exists layout d, layout ∈ layouts /\ timeParse layout raw = Some d /\ parseLayouts layouts raw = formatDay d.
Proof.
  induction layouts as [|layout layouts IH]; [left; split; [done|by intros ? ?%elem_of_nil]|]. simpl.
  destruct (timeParse layout raw) as [d|] eqn:Hp; [right; exists layout, d; by split; [left|]|].
  destruct IH as [[-> Hnone]|(l & d & Hl & Hd & ->)]; [left|right].
  - split; [done|]. intros l [->|Hl]%elem_of_cons; [done|by apply Hnone].
  - exists l, d. by split; [right|].
Qed.

Lemma formatDay_nonempty d rest : formatDay d +:+ rest <> "".
Proof.
  unfold formatDay. rewrite !str_app_assoc. intros He. apply (f_equal String.length) in He.
  rewrite !str_length_app in He. simpl in He. lia.
Qed.

Lemma ParseDate_value raw d : valid_date d ->
  ParseDate raw = formatDay d <-> exists rest, trim_space raw = formatDay d +:+ rest /\ date_suffix rest.
Proof.
  intros Hd. rewrite <- parseLayouts_spec by done. unfold ParseDate. split.
  - destruct (String.eqb _ _); [intros He|].
    { destruct (formatDay_nonempty d ""). by rewrite str_app_nil_r. }
    intros He. destruct (parseLayouts_cases dateLayouts (trim_space raw)) as [[Hn _]|(layout & d' & Hin & Hp & Hf)].
    { destruct (formatDay_nonempty d ""). rewrite str_app_nil_r. congruence. }
    exists layout. split; [done|]. rewrite Hp. f_equal.
    destruct (formatDay_prefix d' d "" "") as [-> _]; [by eapply timeParse_layout|done|congruence|done].
  - intros (layout & Hin & Hp). destruct (String.eqb_spec (trim_space raw) "") as [He|_].
    { rewrite He in Hp. exfalso. unfold dateLayouts in Hin. rewrite !elem_of_cons in Hin.
      by destruct Hin as [->|[->|[->|?%elem_of_nil]]]. }
    destruct (parseLayouts_cases dateLayouts (trim_space raw)) as [[_ Hn]|(layout' & d' & Hin' & Hp' & ->)].
    { by rewrite Hn in Hp. }
    pose proof (timeParse_layout _ _ _ Hin' Hp') as Hd'.
    destruct (proj1 (parseLayouts_spec (trim_space raw) d Hd)) as (r & Hr & _); [by exists layout|].
    destruct (proj1 (parseLayouts_spec (trim_space raw) d' Hd')) as (r' & Hr' & _); [by exists layout'|].
    rewrite Hr in Hr'. by destruct (formatDay_prefix _ _ _ _ Hd Hd' Hr') as [-> _].
Qed.

Lemma formatDay_trimmed d : valid_date d -> trim_space (formatDay d) = formatDay d.
Proof.
  intros (Hy & Hm & Hd). unfold trim_space. apply trimmed_id.
  assert (day d < 100)%Z by (unfold daysIn in Hd; repeat case_match; lia).
  destruct (pad4_spec (year d) ltac:(lia)) as (Hl & Hdig & _).
  destruct (pad2_spec (day d) ltac:(lia)) as (Hl2 & Hdig2 & _).
  assert (forall c, is_digit c = true -> is_space c = false) as Hds.
  { intros c Hc. by destruct c as [[] [] [] [] [] [] [] []]. }
  unfold formatDay. destruct (pad_Z 4 (year d)) as [|c y]; [done|].
  destruct (pad_Z 2 (day d)) as [|a [|b [|]]]; try done. simpl in Hdig, Hdig2. bool_prop. split.
  - intros x. change (next_char _) with (Some c). intros [= <-]. by apply Hds.
  - assert (forall s x t, last_char (s +:+ String x t) = last_char (String x t)) as Hlast.
    { induction s as [|z s IH]; intros x t; [done|]. change (String z s +:+ ?u) with (String z (s +:+ u)).
      cbn [last_char]. rewrite IH. destruct s; done. }
    intros x. rewrite <- !str_app_assoc, Hlast. simpl. intros [= <-]. by apply Hds.
Qed.

Lemma ParseDate_cases raw : ParseDate raw = "" \/ exists d, valid_date d /\ ParseDate raw = formatDay d.
Proof.
  unfold ParseDate. destruct (String.eqb _ _); [by left|].
  destruct (parseLayouts_cases dateLayouts (trim_space raw)) as [[? _]|(layout & d & Hin & Hp & He)]; [by left|right].
  exists d. split; [by eapply timeParse_layout|done].
Qed.

Lemma ParseDate_idem raw : ParseDate (ParseDate raw) = ParseDate raw.
Proof.
  destruct (ParseDate_cases raw) as [->|(d & Hd & ->)]; [done|]. apply ParseDate_value; [done|].
  exists "". rewrite formatDay_trimmed, str_app_nil_r by done. split; [done|].
  exists []. by split; [left|].
Qed.

(** What a date tag becomes: the empty string, or a day of the calendar
    written in full; a given day exactly when the tag, trimmed, begins with it
    and goes on with nothing, a time of day, or a time and a zone. Reading what
    was read changes nothing, so a stored date is written as it is. *)
Theorem ParseDate_spec raw :
  (ParseDate raw = "" \/ exists d, valid_date d /\ ParseDate raw = formatDay d) /\
  (forall d, valid_date d ->
     ParseDate raw = formatDay d <-> exists rest, trim_space raw = formatDay d +:+ rest /\ date_suffix rest) /\
  FormatDate (ParseDate raw) = ParseDate raw.
Proof.
  split; [apply ParseDate_cases|]. split; [apply ParseDate_value|apply ParseDate_idem].
Qed.
