(* ===== verification/Model.v ===== *)
(** The metadata model: the messages of src/proto/metarr/v1/metadata.proto that
    src/internal/shared/metadata/model.go names, and the numeric accessors of
    accessors.go.

    A pointer to a message is an option and a repeated field a list: the code
    never tells a nil slice from an empty one, except where it says so and a
    definition here says it too. int32 fields are [Z]; what narrows into them
    wraps around where it does. *)
From stdpp Require Import strings list.
From Stdlib Require Import ZArith.
From S2P Require Import Prelude GoText Links Dates.

(** * Kinds and scopes *)

Definition KindMovie : string := "movie".
Definition KindTVShow : string := "tvshow".
Definition KindEpisode : string := "episodedetails".
Definition KindMusicVideo : string := "musicvideo".
Definition KindURL : string := "url".
Definition KindUnknown : string := "unknown".

Definition ScopeDirectory : string := "directory".
Definition ScopeSeason : string := "season".
Definition ScopeVideo : string := "video".

(** * Messages *)

Record Rating : Type := { rName : string; rMax : string; rDefault : bool; rValue : string; rVotes : string }.
Record Ratings : Type := { rsRating : list Rating }.
Record Thumb : Type := { tAspect : string; tPreview : string; tType : string; tSeason : string; tValue : string }.
Record Fanart : Type := { fThumbs : list Thumb }.
Record Actor : Type := { aName : string; aRole : string; aOrder : string; aThumb : string }.
Record Resume : Type := { rPosition : string; rTotal : string }.
Record EpisodeBookmark : Type := { ebPosition : string }.
Record MovieSet : Type := { msName : string; msOverview : string }.
Record XMLAttr : Type := { xaName : string; xaValue : string }.
Record UnknownElement : Type := { ueName : string; ueAttrs : list XMLAttr; ueInnerXml : string }.
Record CastCrew : Type := { ccDirectors : list string; ccActors : list Actor; ccCredits : list string }.
Record SeasonSummary : Type := { ssSeasonNumber : Z; ssFolderName : string; ssNamedSeason : string; ssSeasonPlot : string }.

Record MovieFields : Type := {
  mfSortTitle : string;
  mfFanart : option Fanart;
  mfSet : option MovieSet;
  mfCountries : list string;
  mfShowLinks : list string;
  mfOriginalLanguage : string;
}.

Record TVShowFields : Type := { tvSeasons : list SeasonSummary }.

Record EpisodeFields : Type := {
  efShowTitle : string;
  efSeason : string;
  efEpisode : string;
  efDisplayEpisode : string;
  efDisplaySeason : string;
  efEpisodeBookmark : option EpisodeBookmark;
}.

Record MusicVideoFields : Type := { mvTrack : string; mvAlbum : string; mvArtists : list string }.

Record VideoAttributes : Type := {
  vaTitle : string;
  vaEpisodeTitle : string;
  vaYear : Z;
  vaSeasonNumber : option Z;
  vaEpisodeNumbers : list Z;
  vaAirDate : string;
  vaIsSpecial : bool;
  vaEdition : string;
  vaVersionLabel : string;
  vaStackType : string;
  vaStackNumber : Z;
  vaThreeDFormat : string;
  vaExtraType : string;
  vaExtraSource : string;
}.

Record Metadata : Type := {
  mdScope : string;
  mdTargetBaseName : string;
  mdExternalLinks : list Link;
  mdKind : string;
  mdTitle : string;
  mdOriginalTitle : string;
  mdRatings : option Ratings;
  mdUserRating : string;
  mdTop250 : string;
  mdOutline : string;
  mdPlot : string;
  mdTagline : string;
  mdRuntime : string;
  mdThumbs : list Thumb;
  mdMpaa : string;
  mdPlayCount : Z;
  mdLastPlayed : string;
  mdId : string;
  mdGenres : list string;
  mdTags : list string;
  mdPremiered : string;
  mdYear : Z;
  mdStatus : string;
  mdCode : string;
  mdAired : string;
  mdStudios : list string;
  mdTrailer : string;
  mdResume : option Resume;
  mdDateAdded : string;
  mdExtra : list UnknownElement;
  mdMovie : option MovieFields;
  mdEpisode : option EpisodeFields;
  mdMusicVideo : option MusicVideoFields;
  mdTvShow : option TVShowFields;
  mdCastCrew : option CastCrew;
  mdParseError : string;
}.

(** [&metadata.Metadata{Kind: kind}]: every other field zero. *)
Definition bareMetadata (kind : string) : Metadata := {|
  mdScope := ""; mdTargetBaseName := ""; mdExternalLinks := []; mdKind := kind; mdTitle := ""; mdOriginalTitle := "";
  mdRatings := None; mdUserRating := ""; mdTop250 := ""; mdOutline := ""; mdPlot := ""; mdTagline := "";
  mdRuntime := ""; mdThumbs := []; mdMpaa := ""; mdPlayCount := 0; mdLastPlayed := ""; mdId := "";
  mdGenres := []; mdTags := []; mdPremiered := ""; mdYear := 0; mdStatus := ""; mdCode := ""; mdAired := "";
  mdStudios := []; mdTrailer := ""; mdResume := None; mdDateAdded := ""; mdExtra := []; mdMovie := None;
  mdEpisode := None; mdMusicVideo := None; mdTvShow := None; mdCastCrew := None; mdParseError := "" |}.

(** * Numeric tags *)

(** [None] where Go answers false. *)
Definition RuntimeMinutes (m : Metadata) : option Z := parseIntTag (mdRuntime m).

Definition SeasonNumber (m : Metadata) : option Z :=
  match mdEpisode m with None => None | Some e => parseIntTag (efSeason e) end.

Definition EpisodeNumber (m : Metadata) : option Z :=
  match mdEpisode m with None => None | Some e => parseIntTag (efEpisode e) end.

Definition TrackNumber (m : Metadata) : option Z :=
  match mdMusicVideo m with None => None | Some v => parseIntTag (mvTrack v) end.

(** The fields the link extraction reads. *)
Definition identifiers (m : Metadata) : Links.Metadata :=
  {| mExternalLinks := mdExternalLinks m; mId := mdId m; mTrailer := mdTrailer m |}.

Definition ExtractLinks `{URLs} (m : Metadata) : list Link := Links.ExtractLinks (Some (identifiers m)).
