(* ===== verification/Xml.v ===== *)
(** The documents of a Kodi NFO file: src/internal/agent/nfo/model.go, and the
    value types they share with the metadata model, translated both ways by
    xmlvalues.go. Encoding and decoding the text is encoding/xml's. *)
From stdpp Require Import strings list.
From Stdlib Require Import ZArith.
From S2P Require Import Prelude Links Model.

(** * Value types *)

Record xmlRating : Type := { xrName : string; xrMax : string; xrDefault : bool; xrValue : string; xrVotes : string }.
Record xmlRatings : Type := { xrsRating : list xmlRating }.
Record xmlUniqueID : Type := { xuType : string; xuDefault : bool; xuValue : string }.
Record xmlThumb : Type := { xtAspect : string; xtPreview : string; xtType : string; xtSeason : string; xtValue : string }.
Record xmlFanart : Type := { xfThumbs : list xmlThumb }.
Record xmlActor : Type := { xaActorName : string; xaRole : string; xaOrder : string; xaThumb : string }.
Record xmlResume : Type := { xrPosition : string; xrTotal : string }.
Record xmlMovieSet : Type := { xmName : string; xmOverview : string }.
Record xmlEpisodeBookmark : Type := { xbPosition : string }.

(** xml.Name and xml.Attr. *)
Record xmlName : Type := { Space : string; Local : string }.
Record xmlAttr : Type := { attrName : xmlName; attrValue : string }.
Record xmlUnknownElement : Type := { xueXMLName : xmlName; xueAttrs : list xmlAttr; xueInnerXML : string }.

(** ** From XML *)

Definition ratingsFromXML (r : option xmlRatings) : option Ratings :=
  (fun r => {| rsRating := map (fun x => {| rName := xrName x; rMax := xrMax x; rDefault := xrDefault x;
                                            rValue := xrValue x; rVotes := xrVotes x |}) (xrsRating r) |}) <$> r.

Definition thumbsFromXML (thumbs : list xmlThumb) : list Thumb :=
  map (fun x => {| tAspect := xtAspect x; tPreview := xtPreview x; tType := xtType x;
                   tSeason := xtSeason x; tValue := xtValue x |}) thumbs.

Definition fanartFromXML (f : option xmlFanart) : option Fanart :=
  (fun f => {| fThumbs := thumbsFromXML (xfThumbs f) |}) <$> f.

Definition actorsFromXML (actors : list xmlActor) : list Actor :=
  map (fun x => {| aName := xaActorName x; aRole := xaRole x; aOrder := xaOrder x; aThumb := xaThumb x |}) actors.

Definition resumeFromXML (r : option xmlResume) : option Resume :=
  (fun r => {| rPosition := xrPosition r; rTotal := xrTotal r |}) <$> r.

Definition movieSetFromXML (s : option xmlMovieSet) : option MovieSet :=
  (fun s => {| msName := xmName s; msOverview := xmOverview s |}) <$> s.

Definition episodeBookmarkFromXML (b : option xmlEpisodeBookmark) : option EpisodeBookmark :=
  (fun b => {| ebPosition := xbPosition b |}) <$> b.

Definition uniqueIDsFromXML (ids : list xmlUniqueID) : list UniqueID :=
  map (fun x => {| uType := xuType x; uValue := xuValue x; uDefault := xuDefault x |}) ids.

Definition extraFromXML (extra : list xmlUnknownElement) : list UnknownElement :=
  map (fun x =>
    {| ueName := Local (xueXMLName x);
       ueAttrs := map (fun attr => {| xaName := Local (attrName attr); xaValue := attrValue attr |}) (xueAttrs x);
       ueInnerXml := xueInnerXML x |}) extra.

(** ** To XML *)

Definition ratingsToXML (r : option Ratings) : option xmlRatings :=
  (fun r => {| xrsRating := map (fun m => {| xrName := rName m; xrMax := rMax m; xrDefault := rDefault m;
                                             xrValue := rValue m; xrVotes := rVotes m |}) (rsRating r) |}) <$> r.

Definition thumbsToXML (thumbs : list Thumb) : list xmlThumb :=
  map (fun m => {| xtAspect := tAspect m; xtPreview := tPreview m; xtType := tType m;
                   xtSeason := tSeason m; xtValue := tValue m |}) thumbs.

Definition fanartToXML (f : option Fanart) : option xmlFanart :=
  (fun f => {| xfThumbs := thumbsToXML (fThumbs f) |}) <$> f.

Definition actorsToXML (actors : list Actor) : list xmlActor :=
  map (fun m => {| xaActorName := aName m; xaRole := aRole m; xaOrder := aOrder m; xaThumb := aThumb m |}) actors.

Definition resumeToXML (r : option Resume) : option xmlResume :=
  (fun r => {| xrPosition := rPosition r; xrTotal := rTotal r |}) <$> r.

Definition movieSetToXML (s : option MovieSet) : option xmlMovieSet :=
  (fun s => {| xmName := msName s; xmOverview := msOverview s |}) <$> s.

Definition episodeBookmarkToXML (b : option EpisodeBookmark) : option xmlEpisodeBookmark :=
  (fun b => {| xbPosition := ebPosition b |}) <$> b.

Definition uniqueIDsToXML (ids : list UniqueID) : list xmlUniqueID :=
  map (fun m => {| xuType := uType m; xuDefault := uDefault m; xuValue := uValue m |}) ids.

Definition extraToXML (extra : list UnknownElement) : list xmlUnknownElement :=
  map (fun m =>
    {| xueXMLName := {| Space := ""; Local := ueName m |};
       xueAttrs := map (fun attr => {| attrName := {| Space := ""; Local := xaName attr |}; attrValue := xaValue attr |}) (ueAttrs m);
       xueInnerXML := ueInnerXml m |}) extra.

(** ** Nothing of the model is lost on the way *)

Lemma map_inverse {A B} (f : A -> B) (g : B -> A) l : (forall x, g (f x) = x) -> map g (map f l) = l.
Proof. intros H. rewrite map_map. rewrite (map_ext _ id); [apply map_id|done]. Qed.

Lemma option_inverse {A B} (f : A -> B) (g : B -> A) (o : option A) : (forall x, g (f x) = x) -> g <$> (f <$> o) = o.
Proof. intros H. destruct o; simpl; [by rewrite H|done]. Qed.

Lemma ratings_roundtrip r : ratingsFromXML (ratingsToXML r) = r.
Proof. apply option_inverse. intros [l]; simpl. f_equal. apply map_inverse. by intros []. Qed.

Lemma thumbs_roundtrip l : thumbsFromXML (thumbsToXML l) = l.
Proof. apply map_inverse. by intros []. Qed.

Lemma fanart_roundtrip f : fanartFromXML (fanartToXML f) = f.
Proof. apply option_inverse. intros [l]; simpl. by rewrite thumbs_roundtrip. Qed.

Lemma actors_roundtrip l : actorsFromXML (actorsToXML l) = l.
Proof. apply map_inverse. by intros []. Qed.

Lemma resume_roundtrip r : resumeFromXML (resumeToXML r) = r.
Proof. apply option_inverse. by intros []. Qed.

Lemma movieSet_roundtrip s : movieSetFromXML (movieSetToXML s) = s.
Proof. apply option_inverse. by intros []. Qed.

Lemma episodeBookmark_roundtrip b : episodeBookmarkFromXML (episodeBookmarkToXML b) = b.
Proof. apply option_inverse. by intros []. Qed.

Lemma uniqueIDs_roundtrip l : uniqueIDsFromXML (uniqueIDsToXML l) = l.
Proof. apply map_inverse. by intros []. Qed.

Lemma extra_roundtrip l : extraFromXML (extraToXML l) = l.
Proof. apply map_inverse. intros [n a i]; simpl. f_equal. apply map_inverse. by intros []. Qed.

Create Rewrite HintDb nfo.
#[export] Hint Rewrite ratings_roundtrip thumbs_roundtrip fanart_roundtrip actors_roundtrip resume_roundtrip
  movieSet_roundtrip episodeBookmark_roundtrip uniqueIDs_roundtrip extra_roundtrip : nfo.

(** * Documents *)

Record movie : Type := {
  mTitle : string;
  mOriginalTitle : string;
  mSortTitle : string;
  mRatings : option xmlRatings;
  mUserRating : string;
  mTop250 : string;
  mOutline : string;
  mPlot : string;
  mTagline : string;
  mRuntime : string;
  mThumbs : list xmlThumb;
  mFanart : option xmlFanart;
  mMPAA : string;
  mPlayCount : string;
  mLastPlayed : string;
  mUniqueIDs : list xmlUniqueID;
  mID : string;
  mGenres : list string;
  mTags : list string;
  mSet : option xmlMovieSet;
  mCountries : list string;
  mCredits : list string;
  mDirectors : list string;
  mPremiered : string;
  mYear : string;
  mStudios : list string;
  mTrailer : string;
  mActors : list xmlActor;
  mShowLinks : list string;
  mResume : option xmlResume;
  mDateAdded : string;
  mOriginalLanguage : string;
  mExtra : list xmlUnknownElement;
}.

Record tvShow : Type := {
  sTitle : string;
  sOriginalTitle : string;
  sShowTitle : string;
  sSortTitle : string;
  sRatings : option xmlRatings;
  sUserRating : string;
  sTop250 : string;
  sSeason : string;
  sEpisode : string;
  sDisplayEpisode : string;
  sDisplaySeason : string;
  sOutline : string;
  sPlot : string;
  sTagline : string;
  sRuntime : string;
  sThumbs : list xmlThumb;
  sFanart : option xmlFanart;
  sMPAA : string;
  sPlayCount : string;
  sLastPlayed : string;
  sEpisodeGuide : string;
  sUniqueIDs : list xmlUniqueID;
  sID : string;
  sGenres : list string;
  sTags : list string;
  sPremiered : string;
  sYear : string;
  sStatus : string;
  sCode : string;
  sAired : string;
  sStudios : list string;
  sTrailer : string;
  sActors : list xmlActor;
  sResume : option xmlResume;
  sDateAdded : string;
  sOriginalLanguage : string;
  sExtra : list xmlUnknownElement;
}.

Record episodeDetails : Type := {
  eTitle : string;
  eOriginalTitle : string;
  eShowTitle : string;
  eRatings : option xmlRatings;
  eUserRating : string;
  eTop250 : string;
  eSeason : string;
  eEpisode : string;
  eDisplayEpisode : string;
  eDisplaySeason : string;
  eOutline : string;
  ePlot : string;
  eTagline : string;
  eRuntime : string;
  eThumbs : list xmlThumb;
  eMPAA : string;
  ePlayCount : string;
  eLastPlayed : string;
  eUniqueIDs : list xmlUniqueID;
  eID : string;
  eGenres : list string;
  eCredits : list string;
  eDirectors : list string;
  ePremiered : string;
  eYear : string;
  eStatus : string;
  eCode : string;
  eAired : string;
  eStudios : list string;
  eTrailer : string;
  eEpisodeBookmark : option xmlEpisodeBookmark;
  eActors : list xmlActor;
  eResume : option xmlResume;
  eDateAdded : string;
  eExtra : list xmlUnknownElement;
}.

Record musicVideo : Type := {
  vTitle : string;
  vUserRating : string;
  vTop250 : string;
  vTrack : string;
  vAlbum : string;
  vOutline : string;
  vPlot : string;
  vTagline : string;
  vRuntime : string;
  vThumbs : list xmlThumb;
  vMPAA : string;
  vPlayCount : string;
  vLastPlayed : string;
  vUniqueIDs : list xmlUniqueID;
  vID : string;
  vGenres : list string;
  vTags : list string;
  vDirectors : list string;
  vPremiered : string;
  vYear : string;
  vStatus : string;
  vCode : string;
  vAired : string;
  vStudios : list string;
  vTrailer : string;
  vArtists : list string;
  vActors : list xmlActor;
  vResume : option xmlResume;
  vDateAdded : string;
  vExtra : list xmlUnknownElement;
}.

(** read.go: what a file parses to. *)
Record document : Type := {
  dKind : string;
  dMovie : option movie;
  dTVShow : option tvShow;
  dEpisodes : list episodeDetails;
  dMusicVideo : option musicVideo;
}.

Definition bareDocument (kind : string) : document :=
  {| dKind := kind; dMovie := None; dTVShow := None; dEpisodes := []; dMusicVideo := None |}.
