(* ===== verification/Nfo.v ===== *)
(** Kodi NFO files, read and rendered: src/internal/agent/nfo, its translate.go,
    charset.go, read.go and the rendering half of write.go.

    encoding/xml is the class [XML]: the tokens of a text, what DecodeElement and
    Skip make of a start element and its subtree, and MarshalIndent. Nothing is
    assumed of it but what a theorem says. *)
From stdpp Require Import strings list.
From Stdlib Require Import Ascii ZArith Lia.
From coqutil Require Import Datatypes.RecordSetters.
Import DoubleBraceUpdate.
From S2P Require Import Prelude GoText Sidecar Links Dates Model Xml.
#[local] Open Scope go_scope.

(** * Between documents and the model *)

(** The narrowing to int32 wraps around. *)
Definition atoiOrZero (raw : string) : Z :=
  match Atoi raw with Some value => wrap32 value | None => 0%Z end.

Definition itoaOrEmpty (value : Z) : string := if (value =? 0)%Z then "" else show_Z value.

Definition castCrew (directors : list string) (actors : list Actor) (credits : list string) : option CastCrew :=
  if (length directors =? 0)%nat && (length actors =? 0)%nat && (length credits =? 0)%nat then None
  else Some {| ccDirectors := directors; ccActors := actors; ccCredits := credits |}.

Definition castCrewParts (cc : option CastCrew) : list string * list Actor * list string :=
  match cc with
  | None => ([], [], [])
  | Some cc => (ccDirectors cc, ccActors cc, ccCredits cc)
  end.

(** ** Reading *)

Definition movieToMetadata (m : movie) : Metadata := {|
  mdScope := ""; mdTargetBaseName := ""; mdExternalLinks := LinksFromUniqueIDs (uniqueIDsFromXML (mUniqueIDs m));
  mdKind := KindMovie; mdTitle := mTitle m; mdOriginalTitle := mOriginalTitle m;
  mdRatings := ratingsFromXML (mRatings m); mdUserRating := mUserRating m; mdTop250 := mTop250 m;
  mdOutline := mOutline m; mdPlot := mPlot m; mdTagline := mTagline m; mdRuntime := mRuntime m;
  mdThumbs := thumbsFromXML (mThumbs m); mdMpaa := mMPAA m; mdPlayCount := atoiOrZero (mPlayCount m);
  mdLastPlayed := mLastPlayed m; mdId := mID m; mdGenres := mGenres m; mdTags := mTags m;
  mdPremiered := ParseDate (mPremiered m); mdYear := atoiOrZero (mYear m); mdStatus := ""; mdCode := "";
  mdAired := ""; mdStudios := mStudios m; mdTrailer := mTrailer m; mdResume := resumeFromXML (mResume m);
  mdDateAdded := ParseDate (mDateAdded m); mdExtra := extraFromXML (mExtra m);
  mdMovie := Some {| mfSortTitle := mSortTitle m; mfFanart := fanartFromXML (mFanart m);
    mfSet := movieSetFromXML (mSet m); mfCountries := mCountries m; mfShowLinks := mShowLinks m;
    mfOriginalLanguage := mOriginalLanguage m |};
  mdEpisode := None; mdMusicVideo := None; mdTvShow := None;
  mdCastCrew := castCrew (mDirectors m) (actorsFromXML (mActors m)) (mCredits m); mdParseError := "" |}.

Definition tvShowToMetadata (s : tvShow) : Metadata := {|
  mdScope := ""; mdTargetBaseName := ""; mdExternalLinks := LinksFromUniqueIDs (uniqueIDsFromXML (sUniqueIDs s));
  mdKind := KindTVShow; mdTitle := sTitle s; mdOriginalTitle := sOriginalTitle s;
  mdRatings := ratingsFromXML (sRatings s); mdUserRating := sUserRating s; mdTop250 := sTop250 s;
  mdOutline := sOutline s; mdPlot := sPlot s; mdTagline := sTagline s; mdRuntime := sRuntime s;
  mdThumbs := thumbsFromXML (sThumbs s); mdMpaa := sMPAA s; mdPlayCount := atoiOrZero (sPlayCount s);
  mdLastPlayed := sLastPlayed s; mdId := sID s; mdGenres := sGenres s; mdTags := sTags s;
  mdPremiered := ParseDate (sPremiered s); mdYear := atoiOrZero (sYear s); mdStatus := sStatus s; mdCode := sCode s;
  mdAired := sAired s; mdStudios := sStudios s; mdTrailer := sTrailer s; mdResume := resumeFromXML (sResume s);
  mdDateAdded := ParseDate (sDateAdded s); mdExtra := extraFromXML (sExtra s); mdMovie := None; mdEpisode := None;
  mdMusicVideo := None; mdTvShow := Some {| tvSeasons := [] |};
  mdCastCrew := castCrew [] (actorsFromXML (sActors s)) []; mdParseError := "" |}.

Definition episodeToMetadata (e : episodeDetails) : Metadata := {|
  mdScope := ""; mdTargetBaseName := ""; mdExternalLinks := LinksFromUniqueIDs (uniqueIDsFromXML (eUniqueIDs e));
  mdKind := KindEpisode; mdTitle := eTitle e; mdOriginalTitle := eOriginalTitle e;
  mdRatings := ratingsFromXML (eRatings e); mdUserRating := eUserRating e; mdTop250 := eTop250 e;
  mdOutline := eOutline e; mdPlot := ePlot e; mdTagline := eTagline e; mdRuntime := eRuntime e;
  mdThumbs := thumbsFromXML (eThumbs e); mdMpaa := eMPAA e; mdPlayCount := atoiOrZero (ePlayCount e);
  mdLastPlayed := eLastPlayed e; mdId := eID e; mdGenres := eGenres e; mdTags := [];
  mdPremiered := ParseDate (ePremiered e); mdYear := atoiOrZero (eYear e); mdStatus := eStatus e; mdCode := eCode e;
  mdAired := eAired e; mdStudios := eStudios e; mdTrailer := eTrailer e; mdResume := resumeFromXML (eResume e);
  mdDateAdded := ParseDate (eDateAdded e); mdExtra := extraFromXML (eExtra e); mdMovie := None;
  mdEpisode := Some {| efShowTitle := eShowTitle e; efSeason := eSeason e; efEpisode := eEpisode e;
    efDisplayEpisode := eDisplayEpisode e; efDisplaySeason := eDisplaySeason e;
    efEpisodeBookmark := episodeBookmarkFromXML (eEpisodeBookmark e) |};
  mdMusicVideo := None; mdTvShow := None;
  mdCastCrew := castCrew (eDirectors e) (actorsFromXML (eActors e)) (eCredits e); mdParseError := "" |}.

Definition musicVideoToMetadata (v : musicVideo) : Metadata := {|
  mdScope := ""; mdTargetBaseName := ""; mdExternalLinks := LinksFromUniqueIDs (uniqueIDsFromXML (vUniqueIDs v));
  mdKind := KindMusicVideo; mdTitle := vTitle v; mdOriginalTitle := ""; mdRatings := None;
  mdUserRating := vUserRating v; mdTop250 := vTop250 v; mdOutline := vOutline v; mdPlot := vPlot v;
  mdTagline := vTagline v; mdRuntime := vRuntime v; mdThumbs := thumbsFromXML (vThumbs v); mdMpaa := vMPAA v;
  mdPlayCount := atoiOrZero (vPlayCount v); mdLastPlayed := vLastPlayed v; mdId := vID v; mdGenres := vGenres v;
  mdTags := vTags v; mdPremiered := ParseDate (vPremiered v); mdYear := atoiOrZero (vYear v); mdStatus := vStatus v;
  mdCode := vCode v; mdAired := vAired v; mdStudios := vStudios v; mdTrailer := vTrailer v;
  mdResume := resumeFromXML (vResume v); mdDateAdded := ParseDate (vDateAdded v); mdExtra := extraFromXML (vExtra v);
  mdMovie := None; mdEpisode := None;
  mdMusicVideo := Some {| mvTrack := vTrack v; mvAlbum := vAlbum v; mvArtists := vArtists v |}; mdTvShow := None;
  mdCastCrew := castCrew (vDirectors v) (actorsFromXML (vActors v)) []; mdParseError := "" |}.

(** The [toMetadata] of a document. *)
Definition toMetadata (doc : option document) : Metadata :=
  match doc with
  | None => bareMetadata ""
  | Some doc =>
      match dMovie doc, dTVShow doc, dEpisodes doc, dMusicVideo doc with
      | Some m, _, _, _ => movieToMetadata m
      | None, Some s, _, _ => tvShowToMetadata s
      | None, None, e :: _, _ => episodeToMetadata e
      | None, None, [], Some v => musicVideoToMetadata v
      | None, None, [], None => bareMetadata (dKind doc)
      end
  end.

(** ** Writing *)

Definition movieFromMetadata (m : Metadata) : movie :=
  let '(directors, actors, credits) := castCrewParts (mdCastCrew m) in {|
  mTitle := mdTitle m; mOriginalTitle := mdOriginalTitle m;
  mSortTitle := match mdMovie m with Some f => mfSortTitle f | None => "" end;
  mRatings := ratingsToXML (mdRatings m); mUserRating := mdUserRating m; mTop250 := mdTop250 m;
  mOutline := mdOutline m; mPlot := mdPlot m; mTagline := mdTagline m; mRuntime := mdRuntime m;
  mThumbs := thumbsToXML (mdThumbs m);
  mFanart := match mdMovie m with Some f => fanartToXML (mfFanart f) | None => None end; mMPAA := mdMpaa m;
  mPlayCount := itoaOrEmpty (mdPlayCount m); mLastPlayed := mdLastPlayed m;
  mUniqueIDs := uniqueIDsToXML (UniqueIDsFromLinks (mdExternalLinks m)); mID := mdId m; mGenres := mdGenres m;
  mTags := mdTags m; mSet := match mdMovie m with Some f => movieSetToXML (mfSet f) | None => None end;
  mCountries := match mdMovie m with Some f => mfCountries f | None => [] end; mCredits := credits;
  mDirectors := directors; mPremiered := FormatDate (mdPremiered m); mYear := itoaOrEmpty (mdYear m);
  mStudios := mdStudios m; mTrailer := mdTrailer m; mActors := actorsToXML actors;
  mShowLinks := match mdMovie m with Some f => mfShowLinks f | None => [] end; mResume := resumeToXML (mdResume m);
  mDateAdded := FormatDate (mdDateAdded m);
  mOriginalLanguage := match mdMovie m with Some f => mfOriginalLanguage f | None => "" end;
  mExtra := extraToXML (mdExtra m) |}.

Definition tvShowFromMetadata (m : Metadata) : tvShow :=
  let '(_, actors, _) := castCrewParts (mdCastCrew m) in {|
  sTitle := mdTitle m; sOriginalTitle := mdOriginalTitle m; sShowTitle := ""; sSortTitle := "";
  sRatings := ratingsToXML (mdRatings m); sUserRating := mdUserRating m; sTop250 := mdTop250 m; sSeason := "";
  sEpisode := ""; sDisplayEpisode := ""; sDisplaySeason := ""; sOutline := mdOutline m; sPlot := mdPlot m;
  sTagline := mdTagline m; sRuntime := mdRuntime m; sThumbs := thumbsToXML (mdThumbs m); sFanart := None;
  sMPAA := mdMpaa m; sPlayCount := itoaOrEmpty (mdPlayCount m); sLastPlayed := mdLastPlayed m; sEpisodeGuide := "";
  sUniqueIDs := uniqueIDsToXML (UniqueIDsFromLinks (mdExternalLinks m)); sID := mdId m; sGenres := mdGenres m;
  sTags := mdTags m; sPremiered := FormatDate (mdPremiered m); sYear := itoaOrEmpty (mdYear m);
  sStatus := mdStatus m; sCode := mdCode m; sAired := mdAired m; sStudios := mdStudios m; sTrailer := mdTrailer m;
  sActors := actorsToXML actors; sResume := resumeToXML (mdResume m); sDateAdded := FormatDate (mdDateAdded m);
  sOriginalLanguage := ""; sExtra := extraToXML (mdExtra m) |}.

Definition episodeFromMetadata (m : Metadata) : episodeDetails :=
  let '(directors, actors, credits) := castCrewParts (mdCastCrew m) in {|
  eTitle := mdTitle m; eOriginalTitle := mdOriginalTitle m;
  eShowTitle := match mdEpisode m with Some f => efShowTitle f | None => "" end;
  eRatings := ratingsToXML (mdRatings m); eUserRating := mdUserRating m; eTop250 := mdTop250 m;
  eSeason := match mdEpisode m with Some f => efSeason f | None => "" end;
  eEpisode := match mdEpisode m with Some f => efEpisode f | None => "" end;
  eDisplayEpisode := match mdEpisode m with Some f => efDisplayEpisode f | None => "" end;
  eDisplaySeason := match mdEpisode m with Some f => efDisplaySeason f | None => "" end; eOutline := mdOutline m;
  ePlot := mdPlot m; eTagline := mdTagline m; eRuntime := mdRuntime m; eThumbs := thumbsToXML (mdThumbs m);
  eMPAA := mdMpaa m; ePlayCount := itoaOrEmpty (mdPlayCount m); eLastPlayed := mdLastPlayed m;
  eUniqueIDs := uniqueIDsToXML (UniqueIDsFromLinks (mdExternalLinks m)); eID := mdId m; eGenres := mdGenres m;
  eCredits := credits; eDirectors := directors; ePremiered := FormatDate (mdPremiered m);
  eYear := itoaOrEmpty (mdYear m); eStatus := mdStatus m; eCode := mdCode m; eAired := mdAired m;
  eStudios := mdStudios m; eTrailer := mdTrailer m;
  eEpisodeBookmark := match mdEpisode m with Some f => episodeBookmarkToXML (efEpisodeBookmark f) | None => None end;
  eActors := actorsToXML actors; eResume := resumeToXML (mdResume m); eDateAdded := FormatDate (mdDateAdded m);
  eExtra := extraToXML (mdExtra m) |}.

Definition musicVideoFromMetadata (m : Metadata) : musicVideo :=
  let '(directors, actors, _) := castCrewParts (mdCastCrew m) in {|
  vTitle := mdTitle m; vUserRating := mdUserRating m; vTop250 := mdTop250 m;
  vTrack := match mdMusicVideo m with Some f => mvTrack f | None => "" end;
  vAlbum := match mdMusicVideo m with Some f => mvAlbum f | None => "" end; vOutline := mdOutline m;
  vPlot := mdPlot m; vTagline := mdTagline m; vRuntime := mdRuntime m; vThumbs := thumbsToXML (mdThumbs m);
  vMPAA := mdMpaa m; vPlayCount := itoaOrEmpty (mdPlayCount m); vLastPlayed := mdLastPlayed m;
  vUniqueIDs := uniqueIDsToXML (UniqueIDsFromLinks (mdExternalLinks m)); vID := mdId m; vGenres := mdGenres m;
  vTags := mdTags m; vDirectors := directors; vPremiered := FormatDate (mdPremiered m);
  vYear := itoaOrEmpty (mdYear m); vStatus := mdStatus m; vCode := mdCode m; vAired := mdAired m;
  vStudios := mdStudios m; vTrailer := mdTrailer m;
  vArtists := match mdMusicVideo m with Some f => mvArtists f | None => [] end; vActors := actorsToXML actors;
  vResume := resumeToXML (mdResume m); vDateAdded := FormatDate (mdDateAdded m); vExtra := extraToXML (mdExtra m) |}.

Definition documentFromMetadata (m : option Metadata) : option document :=
  match m with
  | None => None
  | Some m =>
      Some (
        if String.eqb (mdKind m) KindMovie then
          {| dKind := mdKind m; dMovie := Some (movieFromMetadata m); dTVShow := None; dEpisodes := []; dMusicVideo := None |}
        else if String.eqb (mdKind m) KindTVShow then
          {| dKind := mdKind m; dMovie := None; dTVShow := Some (tvShowFromMetadata m); dEpisodes := []; dMusicVideo := None |}
        else if String.eqb (mdKind m) KindEpisode then
          {| dKind := mdKind m; dMovie := None; dTVShow := None; dEpisodes := [episodeFromMetadata m]; dMusicVideo := None |}
        else if String.eqb (mdKind m) KindMusicVideo then
          {| dKind := mdKind m; dMovie := None; dTVShow := None; dEpisodes := [];
             dMusicVideo := Some (musicVideoFromMetadata m) |}
        else bareDocument (mdKind m))
  end.

(** * Encodings *)

Definition cp1252Replacements : list Z := [
  0x20AC; 0xFFFD; 0x201A; 0x0192; 0x201E; 0x2026; 0x2020; 0x2021;
  0x02C6; 0x2030; 0x0160; 0x2039; 0x0152; 0xFFFD; 0x017D; 0xFFFD;
  0xFFFD; 0x2018; 0x2019; 0x201C; 0x201D; 0x2022; 0x2013; 0x2014;
  0x02DC; 0x2122; 0x0161; 0x203A; 0x0153; 0xFFFD; 0x017E; 0x0178]%Z.

Definition byte (z : Z) : ascii := ascii_of_nat (Z.to_nat z).

(** [bytes.Buffer.WriteRune], below 0x10000. *)
Definition WriteRune (r : Z) : string :=
  if (r <? 0x80)%Z then String (byte r) ""
  else if (r <? 0x800)%Z then
    String (byte (Z.lor 0xC0 (Z.shiftr r 6))) (String (byte (Z.lor 0x80 (Z.land r 0x3F))) "")
  else
    String (byte (Z.lor 0xE0 (Z.shiftr r 12)))
      (String (byte (Z.lor 0x80 (Z.land (Z.shiftr r 6) 0x3F))) (String (byte (Z.lor 0x80 (Z.land r 0x3F))) "")).

(** The rune a byte of a single-byte document stands for. *)
Definition decodedRune (encodedByte : ascii) : Z :=
  let b := Z.of_nat (nat_of_ascii encodedByte) in
  if (b <? 0x80)%Z then b
  else if (b <? 0xA0)%Z then nth (Z.to_nat (b - 0x80)) cp1252Replacements 0%Z
  else b.

Fixpoint newSingleByteReader (encoded : string) : string :=
  match encoded with
  | EmptyString => ""
  | String encodedByte rest =>
      (if (Z.of_nat (nat_of_ascii encodedByte) <? 0x80)%Z then String encodedByte ""
       else WriteRune (decodedRune encodedByte)) +:+ newSingleByteReader rest
  end.

Definition quotes : string := String quote_char (String "'"%char "").

Definition normalizeCharsetName (charset : string) : string := Trim (trim_space (to_lower charset)) quotes.

Definition passThrough : list string := [""; "utf-8"; "utf8"; "us-ascii"; "ascii"].
Definition singleByte : list string :=
  ["iso-8859-1"; "iso8859-1"; "latin1"; "latin-1"; "l1"; "cp819"; "windows-1252"; "cp1252"; "win-1252"; "1252"].

(** The text of the reader that replaces the input's. *)
Definition newCharsetReader (charset input : string) : result string :=
  let name := normalizeCharsetName charset in
  if existsb (String.eqb name) passThrough then Ok input
  else if existsb (String.eqb name) singleByte then Ok (newSingleByteReader input)
  else Err ("nfo: unsupported document encoding " +:+ quote charset).

(** * Parsing *)

(** The root elements [marshal] renders. *)
Inductive root : Type :=
| MovieRoot (m : movie)
| TVShowRoot (s : tvShow)
| EpisodeRoot (e : episodeDetails)
| MusicVideoRoot (v : musicVideo).

(** What [Decoder.Token] returns next, the subtree of a start element being
    consumed by the call that follows it. *)
Inductive xmlToken (element : Type) : Type :=
| StartElement (local : string) (subtree : element)
| OtherToken
| TokenError (err : string).
Arguments StartElement {_} _ _.
Arguments OtherToken {_}.
Arguments TokenError {_} _.

Class XML : Type := {
  xmlElement : Type;
  (** the tokens of a text, up to its end or an error, under a charset reader *)
  xmlTokens : (string -> string -> result string) -> string -> list (xmlToken xmlElement);
  decodeMovie : xmlElement -> result movie;
  decodeTVShow : xmlElement -> result tvShow;
  decodeEpisode : xmlElement -> result episodeDetails;
  decodeMusicVideo : xmlElement -> result musicVideo;
  xmlSkip : xmlElement -> result unit;
  MarshalIndent : root -> string -> string -> result string;
}.

Section reading.
Context `{XML}.

(** The state of the loop: the document, and whether a root was found. *)
Definition setKindOnce (kind : string) (foundRoot : bool) (doc : document) : document * bool :=
  if foundRoot then (doc, foundRoot)
  else ({| dKind := kind; dMovie := dMovie doc; dTVShow := dTVShow doc; dEpisodes := dEpisodes doc;
   dMusicVideo := dMusicVideo doc |}, true).

Definition withMovie (m : movie) (doc : document) : document :=
  {| dKind := dKind doc; dMovie := Some m; dTVShow := dTVShow doc; dEpisodes := dEpisodes doc; dMusicVideo := dMusicVideo doc |}.
Definition withTVShow (s : tvShow) (doc : document) : document :=
  {| dKind := dKind doc; dMovie := dMovie doc; dTVShow := Some s; dEpisodes := dEpisodes doc; dMusicVideo := dMusicVideo doc |}.
Definition withEpisode (e : episodeDetails) (doc : document) : document :=
  {| dKind := dKind doc; dMovie := dMovie doc; dTVShow := dTVShow doc; dEpisodes := dEpisodes doc ++ [e];
 dMusicVideo := dMusicVideo doc |}.
Definition withMusicVideo (v : musicVideo) (doc : document) : document :=
  {| dKind := dKind doc; dMovie := dMovie doc; dTVShow := dTVShow doc; dEpisodes := dEpisodes doc; dMusicVideo := Some v |}.

Definition decodeError (tag err : string) : string := "nfo: decoding <" +:+ tag +:+ ">: " +:+ err.

(** One start element. *)
Definition parseElement (local : string) (subtree : xmlElement) (doc : document) (foundRoot : bool)
  : result (document * bool) :=
  if String.eqb (to_lower local) "movie" then
  match decodeMovie subtree with
  | Err err => Err (decodeError "movie" err)
  | Ok parsed => Ok (setKindOnce KindMovie foundRoot (withMovie parsed doc))
  end
  else if String.eqb (to_lower local) "tvshow" then
  match decodeTVShow subtree with
  | Err err => Err (decodeError "tvshow" err)
  | Ok parsed => Ok (setKindOnce KindTVShow foundRoot (withTVShow parsed doc))
  end
  else if String.eqb (to_lower local) "episodedetails" then
  match decodeEpisode subtree with
  | Err err => Err (decodeError "episodedetails" err)
  | Ok parsed => Ok (setKindOnce KindEpisode foundRoot (withEpisode parsed doc))
  end
  else if String.eqb (to_lower local) "musicvideo" then
  match decodeMusicVideo subtree with
  | Err err => Err (decodeError "musicvideo" err)
  | Ok parsed => Ok (setKindOnce KindMusicVideo foundRoot (withMusicVideo parsed doc))
  end
  else
  match xmlSkip subtree with
  | Err err => Err ("nfo: skipping <" +:+ local +:+ ">: " +:+ err)
  | Ok _ => Ok (doc, foundRoot)
  end.

Fixpoint parseTokens (tokens : list (xmlToken xmlElement)) (doc : document) (foundRoot : bool) : result document :=
  match tokens with
  | [] => Ok doc
  | TokenError err :: _ => Err ("nfo: parsing document: " +:+ err)
  | OtherToken :: tokens => parseTokens tokens doc foundRoot
  | StartElement local subtree :: tokens =>
      match parseElement local subtree doc foundRoot with
      | Err err => Err err
      | Ok (doc, foundRoot) => parseTokens tokens doc foundRoot
      end
  end.

Definition utf8BOM : string := String (chr 239) (String (chr 187) (String (chr 191) "")).

Definition xmlSpace : string := String " "%char (String (chr 9) (String (chr 13) newline)).

Definition parse (data : string) : result document :=
  let trimmed := trim_prefix data utf8BOM in
  if negb (has_prefix "<" (TrimLeft trimmed xmlSpace)) then
  if String.eqb (trim_space trimmed) "" then Ok (bareDocument KindUnknown) else Ok (bareDocument KindURL)
  else parseTokens (xmlTokens newCharsetReader trimmed) (bareDocument KindUnknown) false.

(** [ReadFile], what os.ReadFile returned for the path being given. *)
Definition ReadFile (content : result string) : result Metadata :=
  try data := content in
  try doc := parse data in
  Ok (toMetadata (Some doc)).

(** * Rendering *)

Definition xmlDeclaration : string :=
  "<?xml version=" +:+ quote "1.0" +:+ " encoding=" +:+ quote "UTF-8" +:+ " standalone=" +:+ quote "yes" +:+ " ?>" +:+ newline.

Definition xmlIndent : string := "    ".

Definition marshalRoot (doc : document) : result root :=
  match dMovie doc, dTVShow doc, dMusicVideo doc, dEpisodes doc with
  | Some m, _, _, _ => Ok (MovieRoot m)
  | None, Some s, _, _ => Ok (TVShowRoot s)
  | None, None, Some v, _ => Ok (MusicVideoRoot v)
  | None, None, None, [e] => Ok (EpisodeRoot e)
  | _, _, _, _ => Err ("nfo: document of kind " +:+ quote (dKind doc) +:+ " has no content to marshal")
  end.

Definition marshal (doc : option document) : result string :=
  match doc with
  | None => Err "nfo: cannot marshal a nil document"
  | Some doc =>
      try r := marshalRoot doc in
      match MarshalIndent r "" xmlIndent with
      | Err err => Err ("nfo: encoding document: " +:+ err)
      | Ok body => Ok (xmlDeclaration +:+ body +:+ newline)
      end
  end.
End reading.

(** * A document rewritten *)

Lemma wrap32_range z : (-2147483648 <= wrap32 z <= 2147483647)%Z.
Proof. unfold wrap32. pose proof (Z.mod_pos_bound (z + 2147483648) 4294967296). lia. Qed.

Lemma wrap32_id z : (-2147483648 <= z <= 2147483647)%Z -> wrap32 z = z.
Proof. intros Hz. unfold wrap32. rewrite Z.mod_small; lia. Qed.

Lemma atoiOrZero_range raw : (-2147483648 <= atoiOrZero raw <= 2147483647)%Z.
Proof. unfold atoiOrZero. destruct (Atoi raw); [apply wrap32_range|lia]. Qed.

Lemma atoi_itoa value : (-2147483648 <= value <= 2147483647)%Z -> atoiOrZero (itoaOrEmpty value) = value.
Proof.
  intros Hv. unfold itoaOrEmpty. destruct (Z.eqb_spec value 0) as [->|_]; [done|]. unfold atoiOrZero.
  rewrite Atoi_show_int by (unfold fits_int; apply andb_true_iff; rewrite !Z.leb_le; lia). by apply wrap32_id.
Qed.

Lemma atoi_rewritten raw : atoiOrZero (itoaOrEmpty (atoiOrZero raw)) = atoiOrZero raw.
Proof. apply atoi_itoa, atoiOrZero_range. Qed.

Lemma date_rewritten raw : ParseDate (FormatDate (ParseDate raw)) = ParseDate raw.
Proof. unfold FormatDate. by rewrite !ParseDate_idem. Qed.

Lemma castCrew_parts d a c : castCrewParts (castCrew d a c) = (d, a, c).
Proof. unfold castCrew. destruct d, a, c; done. Qed.

#[export] Hint Rewrite atoi_rewritten date_rewritten : nfo.

(** The identifiers that survive a rewrite. *)
Definition rewrittenLinks (l : list Link) : list Link :=
  List.filter (fun link => negb (bool_decide (Key link ∈ derivedLinkKeys))) l.

Definition document_ids (doc : document) : list xmlUniqueID :=
  match dMovie doc, dTVShow doc, dEpisodes doc, dMusicVideo doc with
  | Some m, _, _, _ => mUniqueIDs m
  | None, Some s, _, _ => sUniqueIDs s
  | None, None, e :: _, _ => eUniqueIDs e
  | None, None, [], Some v => vUniqueIDs v
  | None, None, [], None => []
  end.

Definition has_root (doc : document) : bool :=
  match dMovie doc, dTVShow doc, dEpisodes doc, dMusicVideo doc with
  | None, None, [], None => false
  | _, _, _, _ => true
  end.

Lemma links_rewritten ids :
  (forall u, u ∈ ids -> document_text (xuType u)) ->
  LinksFromUniqueIDs (UniqueIDsFromLinks (LinksFromUniqueIDs (uniqueIDsFromXML ids))) =
  rewrittenLinks (LinksFromUniqueIDs (uniqueIDsFromXML ids)).
Proof.
  intros Hids. apply LinksFromUniqueIDs_roundtrip.
  intros u (x & -> & Hx)%list_elem_of_fmap. by apply Hids.
Qed.

(** Projections of the records built by the translations. *)
Ltac record_projections :=
  cbn -[LinksFromUniqueIDs UniqueIDsFromLinks castCrew ParseDate FormatDate atoiOrZero itoaOrEmpty
        ratingsFromXML ratingsToXML thumbsFromXML thumbsToXML fanartFromXML fanartToXML actorsFromXML actorsToXML
        resumeFromXML resumeToXML movieSetFromXML movieSetToXML episodeBookmarkFromXML episodeBookmarkToXML
        uniqueIDsFromXML uniqueIDsToXML extraFromXML extraToXML].

Lemma movie_rewritten m : (forall u, u ∈ mUniqueIDs m -> document_text (xuType u)) ->
  movieToMetadata (movieFromMetadata (movieToMetadata m)) = (movieToMetadata m) {{ mdExternalLinks ::= rewrittenLinks }}.
Proof.
  intros Hids. unfold movieFromMetadata. cbn [movieToMetadata mdCastCrew]. rewrite castCrew_parts.
  unfold movieToMetadata. record_projections. autorewrite with nfo. by rewrite links_rewritten.
Qed.

Lemma tvShow_rewritten s : (forall u, u ∈ sUniqueIDs s -> document_text (xuType u)) ->
  tvShowToMetadata (tvShowFromMetadata (tvShowToMetadata s)) = (tvShowToMetadata s) {{ mdExternalLinks ::= rewrittenLinks }}.
Proof.
  intros Hids. unfold tvShowFromMetadata. cbn [tvShowToMetadata mdCastCrew]. rewrite castCrew_parts.
  unfold tvShowToMetadata. record_projections. autorewrite with nfo. by rewrite links_rewritten.
Qed.

Lemma episode_rewritten e : (forall u, u ∈ eUniqueIDs e -> document_text (xuType u)) ->
  episodeToMetadata (episodeFromMetadata (episodeToMetadata e)) = (episodeToMetadata e) {{ mdExternalLinks ::= rewrittenLinks }}.
Proof.
  intros Hids. unfold episodeFromMetadata. cbn [episodeToMetadata mdCastCrew]. rewrite castCrew_parts.
  unfold episodeToMetadata. record_projections. autorewrite with nfo. by rewrite links_rewritten.
Qed.

Lemma musicVideo_rewritten v : (forall u, u ∈ vUniqueIDs v -> document_text (xuType u)) ->
  musicVideoToMetadata (musicVideoFromMetadata (musicVideoToMetadata v)) =
  (musicVideoToMetadata v) {{ mdExternalLinks ::= rewrittenLinks }}.
Proof.
  intros Hids. unfold musicVideoFromMetadata. cbn [musicVideoToMetadata mdCastCrew]. rewrite castCrew_parts.
  unfold musicVideoToMetadata. record_projections. autorewrite with nfo. by rewrite links_rewritten.
Qed.

Lemma document_rewritten doc :
  has_root doc = true -> (forall u, u ∈ document_ids doc -> document_text (xuType u)) ->
  let m := toMetadata (Some doc) in
  toMetadata (documentFromMetadata (Some m)) = m {{ mdExternalLinks ::= rewrittenLinks }}.
Proof.
  unfold has_root, document_ids. destruct doc as [k [m|] [s|] [|e es] [v|]]; try done; intros _ Hids.
  all: first [by apply movie_rewritten|by apply tvShow_rewritten|by apply episode_rewritten|by apply musicVideo_rewritten].
Qed.

(** A document's metadata, written and read again, is the same metadata, up to
    the identifiers the writer leaves to other tags. *)
Theorem rewrite_stable doc :
  has_root doc = true -> (forall u, u ∈ document_ids doc -> document_text (xuType u)) ->
  let m := toMetadata (Some doc) in
  toMetadata (documentFromMetadata (Some m)) = m {{ mdExternalLinks ::= rewrittenLinks }}.
Proof. apply document_rewritten. Qed.

(** Of a show, a rewrite keeps nothing the model has no field for, although the
    document reads it: its show title, sort title, guide, fan art, numbering and
    language are gone, where an unknown tag would have been kept. *)
Theorem tvshow_rewrite_drops s :
  let doc := {| dKind := KindTVShow; dMovie := None; dTVShow := Some s; dEpisodes := []; dMusicVideo := None |} in
  exists s', dTVShow <$> documentFromMetadata (Some (toMetadata (Some doc))) = Some (Some s') /\
    (sShowTitle s', sSortTitle s', sEpisodeGuide s', sOriginalLanguage s') = ("", "", "", "") /\
    (sSeason s', sEpisode s', sDisplaySeason s', sDisplayEpisode s') = ("", "", "", "") /\
    sFanart s' = None /\ sExtra s' = extraToXML (extraFromXML (sExtra s)).
Proof.
  eexists. split; [reflexivity|]. unfold tvShowFromMetadata. cbn [toMetadata dTVShow dMovie tvShowToMetadata mdCastCrew].
  by rewrite castCrew_parts.
Qed.

(** * Single-byte documents *)

(** The runes of a UTF-8 text of runes below 0x10000, [None] when it is not one. *)
Definition continues (c : ascii) : bool := (128 <=? nat_of_ascii c)%nat && (nat_of_ascii c <? 192)%nat.
Definition low_bits (c : ascii) (base : Z) : Z := (Z.of_nat (nat_of_ascii c) - base)%Z.

(** The first rune, and what follows it. *)
Definition utf8_rune (s : string) : option (Z * string) :=
  match s with
  | EmptyString => None
  | String a s1 =>
      if (nat_of_ascii a <? 128)%nat then Some (low_bits a 0, s1)
      else if (nat_of_ascii a <? 194)%nat then None
      else
        match s1 with
        | EmptyString => None
        | String b s2 =>
            if negb (continues b) then None
            else if (nat_of_ascii a <? 224)%nat then Some (low_bits a 0xC0 * 64 + low_bits b 0x80, s2)%Z
            else
              match s2 with
              | EmptyString => None
              | String c s3 =>
                  if negb (continues c) then None
                  else if (nat_of_ascii a <? 240)%nat
                  then Some (low_bits a 0xE0 * 4096 + low_bits b 0x80 * 64 + low_bits c 0x80, s3)%Z
                  else None
              end
        end
  end.

Fixpoint utf8_runes (fuel : nat) (s : string) : option (list Z) :=
  match s, fuel with
  | EmptyString, _ => Some []
  | _, O => None
  | _, S fuel => match utf8_rune s with Some (r, rest) => cons r <$> utf8_runes fuel rest | None => None end
  end.

Lemma utf8_rune_app s r t rest : utf8_rune s = Some (r, t) -> utf8_rune (s +:+ rest) = Some (r, t +:+ rest).
Proof.
  destruct s as [|a s1]; [done|]. change (String a s1 +:+ rest) with (String a (s1 +:+ rest)). cbn [utf8_rune].
  destruct (_ <? 128)%nat; [by intros [= <- <-]|]. destruct (_ <? 194)%nat; [done|].
  destruct s1 as [|b s2]; [done|]. change (String b s2 +:+ rest) with (String b (s2 +:+ rest)). cbv iota.
  destruct (negb (continues b)); [done|]. destruct (_ <? 224)%nat; [by intros [= <- <-]|].
  destruct s2 as [|c s3]; [done|]. change (String c s3 +:+ rest) with (String c (s3 +:+ rest)). cbv iota.
  destruct (negb (continues c)); [done|]. destruct (_ <? 240)%nat; [by intros [= <- <-]|done].
Qed.

Definition transcoded (c : ascii) : string :=
  if (Z.of_nat (nat_of_ascii c) <? 0x80)%Z then String c "" else WriteRune (decodedRune c).

Lemma utf8_rune_transcoded c : utf8_rune (transcoded c) = Some (decodedRune c, "").
Proof. by destruct c as [[] [] [] [] [] [] [] []]; vm_compute. Qed.

(** Every single-byte document is transcoded to a valid UTF-8 text, one rune a
    byte, whatever its bytes are. *)
Theorem newSingleByteReader_runes encoded :
  utf8_runes (String.length encoded) (newSingleByteReader encoded) =
  Some (map decodedRune (String.list_ascii_of_string encoded)).
Proof.
  induction encoded as [|c rest IH]; [done|]. cbn [newSingleByteReader String.length String.list_ascii_of_string map].
  fold (transcoded c). pose proof (utf8_rune_app _ _ _ (newSingleByteReader rest) (utf8_rune_transcoded c)) as Hc.
  destruct (transcoded c +:+ newSingleByteReader rest) as [|x s]; [done|]. cbn [utf8_runes]. rewrite Hc.
  change ("" +:+ newSingleByteReader rest) with (newSingleByteReader rest). by rewrite IH.
Qed.

(** * What a text parses to *)

Section parsing.
Context `{XML}.

(** The recognised roots of the tokens, in order. *)
Definition kindOf (r : root) : string :=
  match r with
  | MovieRoot _ => KindMovie
  | TVShowRoot _ => KindTVShow
  | EpisodeRoot _ => KindEpisode
  | MusicVideoRoot _ => KindMusicVideo
  end.

Definition recognised : list (string * (xmlElement -> result root)) := [
  ("movie", fun e => try m := decodeMovie e in Ok (MovieRoot m));
  ("tvshow", fun e => try s := decodeTVShow e in Ok (TVShowRoot s));
  ("episodedetails", fun e => try d := decodeEpisode e in Ok (EpisodeRoot d));
  ("musicvideo", fun e => try v := decodeMusicVideo e in Ok (MusicVideoRoot v))].

Definition element_roots (local : string) (subtree : xmlElement) : result (list root) :=
  match List.find (fun entry => String.eqb (to_lower local) entry.1) recognised with
  | Some (tag, decode) => match decode subtree with Ok r => Ok [r] | Err err => Err (decodeError tag err) end
  | None => match xmlSkip subtree with Ok _ => Ok [] | Err err => Err ("nfo: skipping <" +:+ local +:+ ">: " +:+ err) end
  end.

Fixpoint token_roots (tokens : list (xmlToken xmlElement)) : result (list root) :=
  match tokens with
  | [] => Ok []
  | TokenError err :: _ => Err ("nfo: parsing document: " +:+ err)
  | OtherToken :: tokens => token_roots tokens
  | StartElement local subtree :: tokens =>
      try rs := element_roots local subtree in try rest := token_roots tokens in Ok (rs ++ rest)
  end.

(** The document of some roots: the kind of the first, the last movie, show
    and music video, and every episode. *)
Definition addRoot (doc : document) (r : root) : document :=
  match r with
  | MovieRoot m => withMovie m doc
  | TVShowRoot s => withTVShow s doc
  | EpisodeRoot e => withEpisode e doc
  | MusicVideoRoot v => withMusicVideo v doc
  end.

Definition leading_kind (rs : list root) : string := default KindUnknown (kindOf <$> head rs).

Definition last_of {A} (f : root -> option A) (rs : list root) : option A := last (omap f rs).

Definition document_of (rs : list root) : document := {|
  dKind := leading_kind rs;
  dMovie := last_of (fun r => match r with MovieRoot m => Some m | _ => None end) rs;
  dTVShow := last_of (fun r => match r with TVShowRoot s => Some s | _ => None end) rs;
  dEpisodes := omap (fun r => match r with EpisodeRoot e => Some e | _ => None end) rs;
  dMusicVideo := last_of (fun r => match r with MusicVideoRoot v => Some v | _ => None end) rs;
  |}.

Definition found_any (rs : list root) : bool := match rs with [] => false | _ => true end.

Lemma document_of_snoc rs r :
  document_of (rs ++ [r]) = (setKindOnce (kindOf r) (found_any rs) (addRoot (document_of rs) r)).1 /\
  found_any (rs ++ [r]) = (setKindOnce (kindOf r) (found_any rs) (addRoot (document_of rs) r)).2.
Proof.
  unfold document_of, leading_kind, last_of. rewrite !omap_app, head_app.
  destruct rs as [|r0 rs]; [by destruct r|]. split; [|done].
  destruct r; simpl; rewrite ?app_nil_r, ?last_snoc; done.
Qed.

Lemma parseElement_spec local subtree rs :
  parseElement local subtree (document_of rs) (found_any rs) =
  try more := element_roots local subtree in Ok (document_of (rs ++ more), found_any (rs ++ more)).
Proof.
  assert (forall r, Ok (setKindOnce (kindOf r) (found_any rs) (addRoot (document_of rs) r)) =
              Ok (document_of (rs ++ [r]), found_any (rs ++ [r]))) as Hadd.
  { intros r. destruct (document_of_snoc rs r) as [-> ->]. by destruct (setKindOnce _ _ _). }
  unfold parseElement, element_roots, recognised, rbind. cbn [List.find fst].
  destruct (String.eqb _ "movie"); [destruct (decodeMovie subtree); [apply (Hadd (MovieRoot _))|done]|].
  destruct (String.eqb _ "tvshow"); [destruct (decodeTVShow subtree); [apply (Hadd (TVShowRoot _))|done]|].
  destruct (String.eqb _ "episodedetails"); [destruct (decodeEpisode subtree); [apply (Hadd (EpisodeRoot _))|done]|].
  destruct (String.eqb _ "musicvideo"); [destruct (decodeMusicVideo subtree); [apply (Hadd (MusicVideoRoot _))|done]|].
  destruct (xmlSkip subtree); [by rewrite app_nil_r|done].
Qed.

Lemma parseTokens_spec tokens rs :
  parseTokens tokens (document_of rs) (found_any rs) = try more := token_roots tokens in Ok (document_of (rs ++ more)).
Proof.
  revert rs. induction tokens as [|[local subtree| |err] tokens IH]; intros rs; cbn [parseTokens token_roots]; try done.
  - simpl. by rewrite app_nil_r.
  - rewrite parseElement_spec. destruct (element_roots local subtree) as [more|err]; [|done]. cbn [rbind].
    rewrite IH. destruct (token_roots tokens) as [rest|err]; [|done]. cbn [rbind]. by rewrite app_assoc.
Qed.

(** A text that opens with a tag parses to the document of its recognised roots,
    or fails with the first thing that went wrong; one that does not is a
    scraper URL, or nothing, and never fails. *)
Theorem parse_spec data :
  let trimmed := trim_prefix data utf8BOM in
  parse data =
  if has_prefix "<" (TrimLeft trimmed xmlSpace)
  then try rs := token_roots (xmlTokens newCharsetReader trimmed) in Ok (document_of rs)
  else Ok (bareDocument (if String.eqb (trim_space trimmed) "" then KindUnknown else KindURL)).
Proof.
  intros trimmed. unfold parse. fold trimmed. destruct (has_prefix "<" _); cbn [negb].
  - apply (parseTokens_spec _ []).
  - by destruct (String.eqb _ "").
Qed.

(** The kind of a file's metadata: the first of these that any root has, whatever
    the file led with. *)
Definition winning_kind (rs : list root) : string :=
  default KindUnknown
  (List.find (fun k => existsb (fun r => String.eqb (kindOf r) k) rs) [KindMovie; KindTVShow; KindEpisode; KindMusicVideo]).

Lemma omap_existsb {A} (f : root -> option A) k rs :
  (forall r, match f r with Some _ => true | None => false end = String.eqb (kindOf r) k) ->
  match omap f rs with [] => false | _ => true end = existsb (fun r => String.eqb (kindOf r) k) rs.
Proof.
  intros Hf. induction rs as [|r rs IH]; [done|]. cbn [omap list_omap existsb]. rewrite <- Hf.
  destruct (f r) as [x|]; [done|apply IH].
Qed.

Lemma last_nonempty {A} (l : list A) : match last l with Some _ => true | None => false end = match l with [] => false | _ => true end.
Proof. destruct l as [|x l] using rev_ind; [done|]. rewrite last_snoc. by destruct l. Qed.

Lemma metadata_kind rs : mdKind (toMetadata (Some (document_of rs))) = winning_kind rs.
Proof.
  unfold winning_kind, document_of, last_of, toMetadata. cbn [List.find dMovie dTVShow dEpisodes dMusicVideo dKind].
  rewrite <- (omap_existsb (fun r => match r with MovieRoot m => Some m | _ => None end) KindMovie rs),
  <- (omap_existsb (fun r => match r with TVShowRoot s => Some s | _ => None end) KindTVShow rs),
  <- (omap_existsb (fun r => match r with EpisodeRoot e => Some e | _ => None end) KindEpisode rs),
  <- (omap_existsb (fun r => match r with MusicVideoRoot v => Some v | _ => None end) KindMusicVideo rs)
  by (by intros []).
  pose proof (last_nonempty (omap (fun r => match r with MovieRoot m => Some m | _ => None end) rs)) as HM.
  pose proof (last_nonempty (omap (fun r => match r with TVShowRoot s => Some s | _ => None end) rs)) as HS.
  pose proof (last_nonempty (omap (fun r => match r with MusicVideoRoot v => Some v | _ => None end) rs)) as HV.
  rewrite <- HM. destruct (last _) as [m|]; [done|]. rewrite <- HS. destruct (last _) as [s|]; [done|].
  destruct (omap (fun r => match r with EpisodeRoot e => Some e | _ => None end) rs) as [|e es] eqn:He; [|done].
  rewrite <- HV. destruct (last _) as [v|]; [done|].
  destruct rs as [|r rs]; [done|]. destruct r; simpl in HM, HS, HV, He; done.
Qed.

(** What a file is read as: the roots of its text, or the error that ended the
  reading; the kind is by precedence and not, as [setKindOnce] has it, the
  kind the file led with. *)
Theorem ReadFile_kind data rs :
  has_prefix "<" (TrimLeft (trim_prefix data utf8BOM) xmlSpace) = true ->
  token_roots (xmlTokens newCharsetReader (trim_prefix data utf8BOM)) = Ok rs ->
  exists doc m, parse data = Ok doc /\ ReadFile (Ok data) = Ok m /\
  dKind doc = leading_kind rs /\ mdKind m = winning_kind rs.
Proof.
  intros Hp Hr. exists (document_of rs), (toMetadata (Some (document_of rs))).
  assert (parse data = Ok (document_of rs)) as Hparse.
  { unfold parse. rewrite Hp. cbn [negb]. pose proof (parseTokens_spec (xmlTokens newCharsetReader (trim_prefix data utf8BOM)) []) as Ht.
  rewrite Hr in Ht. exact Ht. }
  split_and!; [done| |done|apply metadata_kind]. unfold ReadFile. cbn [rbind]. by rewrite Hparse.
Qed.
End parsing.

(** ** Concrete documents *)

(** An encoding/xml whose every text holds the given tokens. *)
Definition fixedXML (tokens : list (xmlToken root)) : XML := {|
  xmlElement := root;
  xmlTokens := fun _ _ => tokens;
  decodeMovie := fun r => match r with MovieRoot m => Ok m | _ => Err "not a movie" end;
  decodeTVShow := fun r => match r with TVShowRoot s => Ok s | _ => Err "not a show" end;
  decodeEpisode := fun r => match r with EpisodeRoot e => Ok e | _ => Err "not an episode" end;
  decodeMusicVideo := fun r => match r with MusicVideoRoot v => Ok v | _ => Err "not a music video" end;
  xmlSkip := fun _ => Ok tt;
  MarshalIndent := fun r _ _ => Ok (kindOf r);
|}.

Definition emptyShow : tvShow := tvShowFromMetadata (bareMetadata KindTVShow).
Definition emptyMovie : movie := movieFromMetadata (bareMetadata KindMovie).

Definition mixedTokens : list (xmlToken root) :=
  [OtherToken; StartElement "tvshow" (TVShowRoot emptyShow); OtherToken; StartElement "Movie" (MovieRoot emptyMovie)].

(** A file that leads with a show and goes on with a movie is read as a movie. *)
Lemma ReadFile_kind_witness :
  exists doc m, @parse (fixedXML mixedTokens) "<" = Ok doc /\ @ReadFile (fixedXML mixedTokens) (Ok "<") = Ok m /\
    dKind doc = KindTVShow /\ mdKind m = KindMovie.
Proof.
  apply (@ReadFile_kind (fixedXML mixedTokens) "<" [TVShowRoot emptyShow; MovieRoot emptyMovie]); reflexivity.
Defined.

Definition sampleShow : tvShow := tvShowFromMetadata
  ((bareMetadata KindTVShow) {{ mdTitle := "Show"; mdYear := 2019%Z;
     mdExternalLinks := [{| Key := "imdb"; Value := "tt1"; Default := true |}; {| Key := "TMDBID"; Value := "7"; Default := false |}] }}).

Definition sampleDocument : document :=
  {| dKind := KindTVShow; dMovie := None; dTVShow := Some sampleShow; dEpisodes := []; dMusicVideo := None |}.

Lemma rewrite_stable_witness :
  let m := toMetadata (Some sampleDocument) in
  map Key (mdExternalLinks m) = ["imdb"; "tmdb"] /\
  toMetadata (documentFromMetadata (Some m)) = m {{ mdExternalLinks ::= rewrittenLinks }}.
Proof.
  split; [vm_compute; reflexivity|]. apply (rewrite_stable sampleDocument); [reflexivity|].
  intros u Hu. change (document_ids sampleDocument) with
    [{| xuType := "imdb"; xuDefault := true; xuValue := "tt1" |}; {| xuType := "TMDBID"; xuDefault := false; xuValue := "7" |}] in Hu.
  rewrite !elem_of_cons in Hu. destruct Hu as [->|[->|Hu]]; [reflexivity|reflexivity|by apply elem_of_nil in Hu].
Defined.
