(* ===== verification/NfoWrite.v ===== *)
(** Replacing an NFO file: [WriteFile] of src/internal/agent/nfo/write.go.

    A disk is a map from paths to files. Every system call may fail, a failed
    write leaving any part of what it was given, and the process may die between
    any two calls: [WriteFile] returns every disk there was on the way, so what
    a crash leaves behind is one of them. *)
From stdpp Require Import strings list gmap.
From Stdlib Require Import Ascii ZArith Lia.
From coqutil Require Import Datatypes.RecordSetters.
Import DoubleBraceUpdate.
From S2P Require Import Prelude GoText GoPath Links Model Xml Nfo.
#[local] Open Scope go_scope.

(** * The disk *)

Record file : Type := { content : string; mode : Z }.
Notation disk := (gmap string file).

(** The modes 0o600, 0o644 and 0o777. *)
Definition mode0600 : Z := 6 * 64.
Definition mode0644 : Z := 6 * 64 + 4 * 8 + 4.
Definition modePerm : Z := 7 * 64 + 7 * 8 + 7.

Inductive syscall : Type :=
| SysCreateTemp
| SysWrite
| SysSync
| SysClose
| SysStat
| SysChmod
| SysRename
| SysRemove.

(** What the operating system decides: which calls fail and how, how much a
    failed write wrote, and the digits of a temporary name. *)
Class OS : Type := {
  fault : syscall -> option string;
  written : nat;
  random : string;
  random_plain : str_contains random "/" = false;
}.

Section writing.
Context `{XML, OS}.

(** os.CreateTemp: a star of the pattern stands for the digits, which go at the
    end otherwise; a name that is taken is not given out. *)
Definition tempName (directory pattern : string) : string :=
  let '(prefix, suffix) :=
    match last_index pattern "*" with
    | Some i => (str_take i pattern, str_drop (i + 1) pattern)
    | None => (pattern, "")
    end in
  (if has_suffix "/" directory then directory else directory +:+ "/") +:+ prefix +:+ random +:+ suffix.

Definition CreateTemp (directory pattern : string) (d : disk) : result (string * disk) :=
  if str_contains pattern "/" then Err ("createtemp " +:+ pattern +:+ ": pattern contains path separator")
  else
    let name := tempName directory pattern in
    match fault SysCreateTemp, d !! name with
    | Some err, _ => Err err
    | None, Some _ => Err ("open " +:+ name +:+ ": file exists")
    | None, None => Ok (name, <[name := {| content := ""; mode := mode0600 |}]> d)
    end.

Definition Write (tempPath data : string) (d : disk) : disk :=
  let data := match fault SysWrite with Some _ => str_take written data | None => data end in
  alter (fun f => {| content := content f +:+ data; mode := mode f |}) tempPath d.

Definition Stat (path : string) (d : disk) : option file :=
  match fault SysStat with Some _ => None | None => d !! path end.

Definition Chmod (tempPath : string) (m : Z) (d : disk) : disk :=
  match fault SysChmod with
  | Some _ => d
  | None => alter (fun f => {| content := content f; mode := m |}) tempPath d
  end.

Definition Rename (old new : string) (d : disk) : disk :=
  match fault SysRename, d !! old with
  | None, Some f => <[new := f]> (delete old d)
  | _, _ => d
  end.

Definition Remove (path : string) (d : disk) : disk :=
  match fault SysRemove with Some _ => d | None => delete path d end.

(** * WriteFile *)

(** The disks there were, newest first, and the error. *)
Definition WriteFile (path : string) (m : option Metadata) (d : disk) : list disk * option string :=
  match marshal (documentFromMetadata m) with
  | Err err => ([d], Some err)
  | Ok data =>
      let directory := Dir path in
      match CreateTemp directory ("." +:+ Base path +:+ ".tmp") d with
      | Err err => ([d], Some ("nfo: creating temporary file in " +:+ directory +:+ ": " +:+ err))
      | Ok (tempPath, created) =>
          let filled := Write tempPath data created in
          match fault SysWrite with
          | Some err => ([Remove tempPath filled; filled; created; d], Some ("nfo: writing " +:+ tempPath +:+ ": " +:+ err))
          | None =>
              match fault SysSync with
              | Some err => ([Remove tempPath filled; filled; created; d], Some ("nfo: syncing " +:+ tempPath +:+ ": " +:+ err))
              | None =>
                  match fault SysClose with
                  | Some err =>
                      ([Remove tempPath filled; filled; created; d], Some ("nfo: closing " +:+ tempPath +:+ ": " +:+ err))
                  | None =>
                      let perm := match Stat path filled with Some info => Z.land (mode info) modePerm | None => mode0644 end in
                      let moded := Chmod tempPath perm filled in
                      match fault SysChmod with
                      | Some err =>
                          ([Remove tempPath moded; moded; filled; created; d],
                           Some ("nfo: setting mode on " +:+ tempPath +:+ ": " +:+ err))
                      | None =>
                          let renamed := Rename tempPath path moded in
                          match fault SysRename with
                          | Some err =>
                              ([Remove tempPath renamed; renamed; moded; filled; created; d],
                               Some ("nfo: replacing " +:+ path +:+ ": " +:+ err))
                          | None => ([renamed; moded; filled; created; d], None)
                          end
                      end
                  end
              end
          end
      end
  end.

(** * The temporary name *)

Lemma Base_leaf front leaf :
  leaf <> "" -> str_contains leaf "/" = false -> Base (front +:+ "/" +:+ leaf) = leaf.
Proof.
  intros Hne Hs. unfold Base. destruct (String.eqb_spec (front +:+ "/" +:+ leaf) "") as [He|_]; [by destruct front|].
  assert (has_suffix "/" (front +:+ "/" +:+ leaf) = false) as Hsuf.
  { destruct (has_suffix _ _) eqn:Hh; [|done]. apply has_suffix_spec in Hh as [r Hr].
    apply (f_equal split_slash) in Hr. rewrite split_slash_app, (split_slash_plain leaf Hs) in Hr.
    rewrite <- (str_app_nil_r "/"), split_slash_app in Hr. change (split_slash "") with [""] in Hr.
    by apply app_inj_tail in Hr as [_ Hr]. }
  assert (forall n, trim_slashes n (front +:+ "/" +:+ leaf) = front +:+ "/" +:+ leaf) as ->.
  { intros [|n]; [done|]. cbn [trim_slashes]. by rewrite Hsuf. }
  destruct (String.eqb_spec (front +:+ "/" +:+ leaf) "") as [He|_]; [by destruct front|].
  unfold split_last. cbn [snd]. rewrite split_slash_app, (split_slash_plain leaf Hs). apply List.last_last.
Qed.

Lemma tempName_leaf directory pattern :
  exists front leaf, tempName directory pattern = front +:+ "/" +:+ leaf /\
    (String.length pattern <= S (String.length leaf))%nat /\ (str_contains pattern "/" = false -> str_contains leaf "/" = false).
Proof.
  assert (exists front, (if has_suffix "/" directory then directory else directory +:+ "/") = front +:+ "/") as [front Hf].
  { destruct (has_suffix "/" directory) eqn:Hs; [by apply has_suffix_spec in Hs|by exists directory]. }
  unfold tempName. rewrite Hf. destruct (last_index pattern "*") as [i|] eqn:Hi.
  - apply last_index_Some in Hi. exists front. eexists. rewrite str_app_assoc. split; [done|]. split.
    + rewrite Hi at 1. rewrite !str_length_app. simpl String.length. lia.
    + rewrite Hi at 1. rewrite !contains_slash_app, random_plain. intros Hp. bool_prop.
      by apply orb_false_iff.
  - exists front, (pattern +:+ random +:+ ""). rewrite str_app_assoc. split; [done|]. split.
    + rewrite str_length_app. lia.
    + intros Hp. by rewrite !contains_slash_app, random_plain, Hp.
Qed.

(** The temporary file is never the file it replaces. *)
Lemma tempName_differs directory path :
  let pattern := "." +:+ Base path +:+ ".tmp" in
  str_contains pattern "/" = false -> tempName directory pattern <> path.
Proof.
  intros pattern Hp He. destruct (tempName_leaf directory pattern) as (front & leaf & Ht & Hl & Hs).
  subst pattern. rewrite !str_length_app in Hl. simpl in Hl.
  assert (leaf <> "") as Hne by (intros ->; simpl in Hl; lia).
  pose proof (Base_leaf front leaf Hne (Hs Hp)) as Hb. rewrite <- Ht, He in Hb. rewrite Hb in Hl. lia.
Qed.

(** * Atomicity *)

(** What a disk on the way may differ in from the one before: the temporary
    file, and the file replaced, which is as it was or whole and new. *)
Definition old_or_new (path temp data : string) (d s : disk) : Prop :=
  (forall q, q <> path -> q <> temp -> s !! q = d !! q) /\
  (s !! path = d !! path \/ exists m, s !! path = Some {| content := data; mode := m |}).

Lemma temp_only path temp data d f : temp <> path -> old_or_new path temp data d (<[temp := f]> d).
Proof. intros Hne. split; [intros q _ Hq; by rewrite lookup_insert_ne|left; by rewrite lookup_insert_ne]. Qed.

Lemma nothing_changed path temp data d : old_or_new path temp data d d.
Proof. by split; [|left]. Qed.

Lemma removed path temp data d f : temp <> path -> d !! temp = None ->
  old_or_new path temp data d (Remove temp (<[temp := f]> d)) /\
  (fault SysRemove = None -> Remove temp (<[temp := f]> d) = d).
Proof.
  intros Hne Hd. unfold Remove. destruct (fault SysRemove) as [err|]; [split; [by apply temp_only|done]|].
  rewrite delete_insert_id by done. split; [apply nothing_changed|done].
Qed.

Lemma Write_inserted temp data d f :
  fault SysWrite = None -> content f = "" -> Write temp data (<[temp := f]> d) = <[temp := {| content := data; mode := mode f |}]> d.
Proof. intros Hw Hf. unfold Write. rewrite Hw, alter_insert_eq, Hf. done. Qed.

Lemma Write_any temp data d f : exists f', Write temp data (<[temp := f]> d) = <[temp := f']> d.
Proof. unfold Write. rewrite alter_insert_eq. by eexists. Qed.

(** The mode the new file is given: the old file's, or the default. *)
Definition keptMode (path : string) (d : disk) : Z :=
  match Stat path d with Some info => Z.land (mode info) modePerm | None => mode0644 end.

Definition atomic (path temp : string) (d : disk) (data : string) (run : list disk * option string) : Prop :=
  Forall (old_or_new path temp data d) run.1 /\
  match run.2 with
  | None => head run.1 = Some (<[path := {| content := data; mode := keptMode path d |}]> d)
  | Some _ => fault SysRemove = None -> head run.1 = Some d
  end.

Ltac states_ok := repeat first [apply Forall_nil_2|apply Forall_cons_2]; auto.

(** A run that gives up and removes the temporary file. *)
Lemma atomic_removed path temp data d f rest err :
  temp <> path -> d !! temp = None -> Forall (old_or_new path temp data d) rest ->
  atomic path temp d data (Remove temp (<[temp := f]> d) :: rest, Some err).
Proof.
  intros Hne Hd Hrest. destruct (removed path temp data d f Hne Hd) as [H1 H2]. split; [by constructor|].
  intros Hr. simpl. by rewrite H2.
Qed.

Lemma WriteFile_marshalled path m d data temp created :
  marshal (documentFromMetadata m) = Ok data ->
  CreateTemp (Dir path) ("." +:+ Base path +:+ ".tmp") d = Ok (temp, created) ->
  d !! temp = None /\ temp <> path /\ atomic path temp d data (WriteFile path m d).
Proof.
  intros Hm Hc. unfold WriteFile. cbv zeta. rewrite Hm, Hc. unfold CreateTemp in Hc.
  destruct (str_contains _ "/") eqn:Hslash; [done|]. destruct (fault SysCreateTemp); [done|].
  destruct (d !! tempName _ _) eqn:Hd; [done|]. injection Hc as <- <-.
  pose proof (tempName_differs (Dir path) path Hslash) as Hne.
  set (temp := tempName _ _) in *. split; [done|]. split; [done|].
  destruct (Write_any temp data d {| content := ""; mode := mode0600 |}) as [f' Hf'].
  assert (forall f, old_or_new path temp data d (<[temp := f]> d)) as Ht by (intros f; by apply temp_only).
  pose proof (nothing_changed path temp data d) as Hn.
  destruct (fault SysWrite) eqn:Hw; [rewrite Hf'; apply atomic_removed; try done; states_ok|].
  rewrite Write_inserted by done. cbn [mode]. clear f' Hf'.
  destruct (fault SysSync); [apply atomic_removed; try done; states_ok|].
  destruct (fault SysClose); [apply atomic_removed; try done; states_ok|].
  set (filled := <[temp := {| content := data; mode := mode0600 |}]> d).
  assert (match Stat path filled with Some info => Z.land (mode info) modePerm | None => mode0644 end = keptMode path d) as ->.
  { unfold keptMode, Stat. destruct (fault SysStat); [done|]. subst filled. by rewrite lookup_insert_ne. }
  subst filled. unfold Chmod. destruct (fault SysChmod); [apply atomic_removed; try done; states_ok|].
  rewrite alter_insert_eq. cbn [content]. unfold Rename.
  destruct (fault SysRename); [apply atomic_removed; try done; states_ok|].
  rewrite lookup_insert_eq, delete_insert_id by done. split; [|done].
  states_ok. split; [intros q Hq _; by rewrite lookup_insert_ne|].
  right. eexists. apply lookup_insert_eq.
Qed.

(** C28: Whatever fails and wherever the process dies, the file is as it was or is
    the whole new file, and only the temporary file may be left beside it. A
    reported error leaves the disk as it was if the clean-up can; no error means
    the new file is in place, with the mode the old one had. *)
Theorem WriteFile_atomic path m d :
  let '(states, err) := WriteFile path m d in
  exists temp data, temp <> path /\
    Forall (old_or_new path temp data d) states /\
    match err with
    | None => marshal (documentFromMetadata m) = Ok data /\
        head states = Some (<[path := {| content := data; mode := keptMode path d |}]> d)
    | Some _ => fault SysRemove = None -> head states = Some d
    end.
Proof.
  destruct (WriteFile path m d) as [states err] eqn:He.
  assert (forall data, exists temp, temp <> path /\ Forall (old_or_new path temp data d) [d]) as Hsame.
  { intros data. exists (path +:+ "x"). split; [|constructor; [apply nothing_changed|constructor]].
    intros Hp. apply (f_equal String.length) in Hp. rewrite str_length_app in Hp. simpl in Hp. lia. }
  destruct (marshal (documentFromMetadata m)) as [data|e] eqn:Hm.
  - destruct (CreateTemp (Dir path) ("." +:+ Base path +:+ ".tmp") d) as [[temp created]|e] eqn:Hc.
    + destruct (WriteFile_marshalled path m d data temp created Hm Hc) as (_ & Hne & Hf & Hh). rewrite He in Hf, Hh.
      exists temp, data. split; [done|]. split; [done|]. by destruct err.
    + unfold WriteFile in He. rewrite Hm, Hc in He. injection He as <- <-.
      destruct (Hsame data) as (temp & Hne & Hf). by exists temp, data.
  - unfold WriteFile in He. rewrite Hm in He. injection He as <- <-.
    destruct (Hsame "") as (temp & Hne & Hf). by exists temp, "".
Qed.
End writing.

(** * Reading back what was written *)

Section rewriting.
Context `{XML, OS}.

(** encoding/xml reads what it rendered for a root. *)
Definition reads_back (r : root) : Prop :=
  forall body, MarshalIndent r "" xmlIndent = Ok body ->
    token_roots (xmlTokens newCharsetReader (xmlDeclaration +:+ body +:+ newline)) = Ok [r].

Lemma marshalRoot_metadata m doc r :
  documentFromMetadata (Some m) = Some doc -> marshalRoot doc = Ok r ->
  toMetadata (Some (document_of [r])) = toMetadata (documentFromMetadata (Some m)).
Proof.
  unfold documentFromMetadata. intros [= <-]. repeat case_match; by intros [= <-].
Qed.

Lemma marshal_Ok doc data : marshal (Some doc) = Ok data ->
  exists r body, marshalRoot doc = Ok r /\ MarshalIndent r "" xmlIndent = Ok body /\ data = xmlDeclaration +:+ body +:+ newline.
Proof.
  simpl. destruct (marshalRoot doc) as [r|]; [|done]. simpl. destruct (MarshalIndent r "" xmlIndent) as [body|] eqn:Hb; [|done].
  intros [= <-]. by exists r, body.
Qed.

Lemma declaration_opens body :
  has_prefix "<" (TrimLeft (trim_prefix (xmlDeclaration +:+ body) utf8BOM) xmlSpace) = true /\
  trim_prefix (xmlDeclaration +:+ body) utf8BOM = xmlDeclaration +:+ body.
Proof. done. Qed.

(** C32: A file that was read, written and read again gives the metadata it gave at
    first, up to the identifiers other tags carry, if encoding/xml reads back
    the one root it rendered. *)
Theorem read_write_read doc path d states :
  has_root doc = true -> (forall u, u ∈ document_ids doc -> document_text (xuType u)) ->
  let m := toMetadata (Some doc) in
  (forall doc' r, documentFromMetadata (Some m) = Some doc' -> marshalRoot doc' = Ok r -> reads_back r) ->
  WriteFile path (Some m) d = (states, None) ->
  exists final written, head states = Some final /\ final !! path = Some written /\
    ReadFile (Ok (content written)) = Ok (m {{ mdExternalLinks ::= rewrittenLinks }}).
Proof.
  intros Hroot Hids m Hxml Hw.
  destruct (marshal (documentFromMetadata (Some m))) as [data|e] eqn:Hm; [|unfold WriteFile in Hw; by rewrite Hm in Hw].
  destruct (CreateTemp (Dir path) ("." +:+ Base path +:+ ".tmp") d) as [[temp created]|e] eqn:Hc;
    [|unfold WriteFile in Hw; by rewrite Hm, Hc in Hw].
  destruct (WriteFile_marshalled path (Some m) d data temp created Hm Hc) as (_ & _ & _ & Hh). rewrite Hw in Hh.
  eexists _, {| content := data; mode := keptMode path d |}. split; [exact Hh|]. split; [apply lookup_insert_eq|].
  cbn [content]. destruct (documentFromMetadata (Some m)) as [doc'|] eqn:Hdoc; [|done].
  apply marshal_Ok in Hm as (r & body & Hr & Hb & ->).
  pose proof (Hxml _ _ eq_refl Hr body Hb) as Ht. destruct (declaration_opens (body +:+ newline)) as [Hp Hbom].
  unfold ReadFile. cbn [rbind]. unfold parse. rewrite Hp, Hbom. cbn [negb].
  pose proof (parseTokens_spec (xmlTokens newCharsetReader (xmlDeclaration +:+ body +:+ newline)) []) as Hparse.
  rewrite Ht in Hparse. change (document_of [] : document) with (bareDocument KindUnknown) in Hparse.
  cbn [found_any rbind app] in Hparse. rewrite Hparse. cbn [rbind]. f_equal.
  rewrite (marshalRoot_metadata m doc' r Hdoc Hr). by apply document_rewritten.
Qed.
End rewriting.

(** ** A concrete rewrite *)

Definition rewrittenShow : tvShow := tvShowFromMetadata (toMetadata (Some sampleDocument)).

Definition plainOS : OS :=
  {| fault := fun _ => None; written := 0; random := "42"; random_plain := eq_refl |}.

Lemma read_write_read_witness :
  let xml := fixedXML [OtherToken; StartElement "tvshow" (TVShowRoot rewrittenShow)] in
  let m := toMetadata (Some sampleDocument) in
  exists final written, head (@WriteFile xml plainOS "/tv/tvshow.nfo" (Some m) ∅).1 = Some final /\
    final !! "/tv/tvshow.nfo" = Some written /\
    @ReadFile xml (Ok (content written)) = Ok (m {{ mdExternalLinks ::= rewrittenLinks }}).
Proof.
  intros xml m.
  apply (@read_write_read xml plainOS sampleDocument "/tv/tvshow.nfo" ∅ (@WriteFile xml plainOS "/tv/tvshow.nfo" (Some m) ∅).1).
  - reflexivity.
  - intros u Hu. change (document_ids sampleDocument) with
      [{| xuType := "imdb"; xuDefault := true; xuValue := "tt1" |}; {| xuType := "TMDBID"; xuDefault := false; xuValue := "7" |}] in Hu.
    rewrite !elem_of_cons in Hu. destruct Hu as [->|[->|Hu]]; [reflexivity|reflexivity|by apply elem_of_nil in Hu].
  - intros doc' r [= <-]. cbn [marshalRoot dMovie dTVShow]. intros [= <-] body _. reflexivity.
  - vm_compute. reflexivity.
Defined.
