(* ===== verification/ScanModel.v ===== *)
(** The scan record model (src/proto/metarr/v1/scan.proto, aliased by
    src/internal/shared/scanmodel/model.go), what the file system says of a file
    (src/internal/agent/mediascan/filestat.go and filestat_linux.go), and what an
    image header says (imageinfo.go).

    Times are nanoseconds since the epoch. [fs.FileInfo] is a record of what its
    methods return; the accounts of the host are the class [Accounts]. *)
From stdpp Require Import strings list gmap.
From Stdlib Require Import ZArith Lia.
From coqutil Require Import Datatypes.RecordSetters.
Import DoubleBraceUpdate.
From S2P Require Import Prelude Sidecar Links Model.

(** * Records *)

Record FileStat : Type := {
  fsMode : string;
  fsModeBits : Z;
  fsUid : Z;
  fsGid : Z;
  fsOwnerName : string;
  fsGroupName : string;
  fsInode : Z;
  fsLinkCount : Z;
  fsDeviceId : Z;
  fsSizeBytes : Z;
  fsBlockSize : Z;
  fsBlocks : Z;
  fsAccessedAt : option Z;
  fsModifiedAt : option Z;
  fsChangedAt : option Z;
  fsCreatedAt : option Z;
  fsIsSymlink : bool;
}.

Record ImageInfo : Type := { iiCodec : string; iiWidth : Z; iiHeight : Z; iiError : string }.

Record TrickplayInfo : Type := { tpWidth : Z; tpTileWidth : Z; tpTileHeight : Z; tpTileIndex : option Z }.

Record SidecarFile : Type := {
  scRelativePath : string;
  scFileName : string;
  scExtension : string;
  scSizeBytes : Z;
  scModifiedAt : Z;
  scType : string;
  scCategory : string;
  scStat : FileStat;
  scImage : option ImageInfo;
  scTrickplay : option TrickplayInfo;
}.

Record TVSeason : Type := { tsSeasonNumber : Z; tsFolderName : string; tsSidecars : list SidecarFile }.

(** The fields a scan fills in; the store fills in the others. *)
Record TVSeries : Type := {
  trRecordType : string;
  trPath : string;
  trType : string;
  trFolderName : string;
  trMetadata : Metadata;
  trScannedAt : Z;
  trSeasons : list TVSeason;
  trWarnings : list string;
  trSidecars : list SidecarFile;
}.

Record MediaFile : Type := {
  mfRecordType : string;
  mfDirectoryPath : string;
  mfType : string;
  mfPath : string;
  mfRelativePath : string;
  mfFileName : string;
  mfExtension : string;
  mfSizeBytes : Z;
  mfModifiedAt : Z;
  mfScannedAt : Z;
  mfVideo : VideoAttributes;
  mfStat : FileStat;
  mfMetadata : option Metadata;
  mfSidecars : list SidecarFile;
  mfWarnings : list string;
}.

Record ScanResult : Type := { srDirectory : TVSeries; srMediaFiles : list MediaFile }.

Definition RecordTypeTVSeries : string := "tvseries".
Definition RecordTypeMediaFile : string := "media_file".

(** * What the file system says *)

(** syscall.Stat_t. *)
Record Stat_t : Type := {
  stMode : Z;
  stUid : Z;
  stGid : Z;
  stIno : Z;
  stNlink : Z;
  stDev : Z;
  stBlksize : Z;
  stBlocks : Z;
  stAtim : Z;
  stCtim : Z;
}.

(** fs.FileInfo: [Mode().String()], [Mode().Perm()], [Mode()&fs.ModeSymlink != 0],
    [Size()], [ModTime()] and [Sys()]. *)
Record FileInfo : Type := {
  infoMode : string;
  infoPerm : Z;
  infoSymlink : bool;
  infoSize : Z;
  infoModTime : Z;
  infoSys : option Stat_t;
}.

Definition portableFileStat (info : FileInfo) : FileStat := {|
  fsMode := infoMode info; fsModeBits := infoPerm info; fsUid := 0; fsGid := 0; fsOwnerName := ""; fsGroupName := "";
  fsInode := 0; fsLinkCount := 0; fsDeviceId := 0; fsSizeBytes := infoSize info; fsBlockSize := 0; fsBlocks := 0;
  fsAccessedAt := None; fsModifiedAt := Some (infoModTime info); fsChangedAt := None; fsCreatedAt := None;
  fsIsSymlink := infoSymlink info |}.

(** 0o7777 *)
Definition modeBits : Z := 4095.

(** filestat_linux.go: [statSupportsOwnerIDs] is true. *)
Definition fileStatFrom (info : FileInfo) : FileStat :=
  let fileStat := portableFileStat info in
  match infoSys info with
  | None => fileStat
  | Some st => fileStat {{
      fsModeBits := Z.land (stMode st) modeBits; fsUid := stUid st; fsGid := stGid st; fsInode := stIno st;
      fsLinkCount := stNlink st; fsDeviceId := stDev st; fsBlockSize := stBlksize st; fsBlocks := stBlocks st;
      fsAccessedAt := Some (stAtim st); fsChangedAt := Some (stCtim st) }}
  end.

(** user.LookupId and user.LookupGroupId, by the decimal text of an id. *)
Class Accounts : Type := {
  LookupId : string -> option string;
  LookupGroupId : string -> option string;
}.

(** The names looked up so far, a miss being remembered as the empty name. *)
Record ownerNameCache : Type := { userNames : gmap Z string; groupNames : gmap Z string }.

Definition emptyCache : ownerNameCache := {| userNames := ∅; groupNames := ∅ |}.

(** A name from the cache, or looked up and kept. *)
Definition cachedName (names : gmap Z string) (lookup : string -> option string) (id : Z) : string * gmap Z string :=
  match names !! id with
  | Some name => (name, names)
  | None => let name := default "" (lookup (show_Z id)) in (name, <[id := name]> names)
  end.

Definition resolve `{Accounts} (cache : ownerNameCache) (fileStat : FileStat) : ownerNameCache * FileStat :=
  let '(owner, users) := cachedName (userNames cache) LookupId (fsUid fileStat) in
  let '(group, groups) := cachedName (groupNames cache) LookupGroupId (fsGid fileStat) in
  ({| userNames := users; groupNames := groups |}, fileStat {{ fsOwnerName := owner; fsGroupName := group }}).

(** ** The cache only saves look-ups *)

Definition directName (lookup : string -> option string) (id : Z) : string := default "" (lookup (show_Z id)).

(** Every name of a cache is the one a look-up would give. *)
Definition cache_ok `{Accounts} (cache : ownerNameCache) : Prop :=
  map_Forall (fun id name => name = directName LookupId id) (userNames cache) /\
  map_Forall (fun id name => name = directName LookupGroupId id) (groupNames cache).

Lemma cachedName_ok names lookup id :
  map_Forall (fun id name => name = directName lookup id) names ->
  (cachedName names lookup id).1 = directName lookup id /\
  map_Forall (fun id name => name = directName lookup id) (cachedName names lookup id).2.
Proof.
  intros Hn. unfold cachedName. destruct (names !! id) as [name|] eqn:Hi; [split; [by apply (Hn id)|done]|].
  split; [done|]. by apply map_Forall_insert_2.
Qed.

Lemma resolve_ok `{Accounts} cache fileStat : cache_ok cache ->
  cache_ok (resolve cache fileStat).1 /\
  (resolve cache fileStat).2 =
    fileStat {{ fsOwnerName := directName LookupId (fsUid fileStat);
                fsGroupName := directName LookupGroupId (fsGid fileStat) }}.
Proof.
  intros [Hu Hg]. unfold resolve.
  destruct (cachedName_ok _ LookupId (fsUid fileStat) Hu) as [H1 H2].
  destruct (cachedName_ok _ LookupGroupId (fsGid fileStat) Hg) as [H3 H4].
  destruct (cachedName (userNames cache) _ _) as [owner users]. destruct (cachedName (groupNames cache) _ _) as [group groups].
  simpl in *. subst. by split.
Qed.

(** * What an image header says *)

(** image.DecodeConfig on an opened file: the format, and the dimensions. *)
Class Images : Type := { DecodeConfig : string -> result (string * Z * Z) }.

Definition readImageInfo `{Images} (path : string) : result ImageInfo :=
  match DecodeConfig path with
  | Err err => Err err
  | Ok (format, width, height) => Ok {| iiCodec := format; iiWidth := wrap32 width; iiHeight := wrap32 height; iiError := "" |}
  end.
