(* ===== verification/Scan.v ===== *)
(** The directory scanner: src/internal/agent/mediascan/scan.go.

    A directory is a tree of what [filepath.WalkDir] finds, in its order; the
    scanner's state is the record [scanner], and every method takes it and
    returns it. Relative paths are names joined by slashes, which is what
    [filepath.Rel] makes of the paths the walk builds by joining names.
    Image headers, NFO files and owner names come from the classes [Images],
    [Host] and [Accounts]; the order in which maps are walked from [MapOrder]. *)
From stdpp Require Import strings list gmap sorting.
From Stdlib Require Import Ascii ZArith Lia.
From coqutil Require Import Datatypes.RecordSetters.
Import DoubleBraceUpdate.
From S2P Require Import Prelude Runes GoPath Regex GoText Sidecar Links Tokens Parse Dates Model Xml Nfo ScanModel.
#[local] Open Scope go_scope.

(** * The tree and the state *)

(** A directory entry, with what lstat or ReadDir answers for it. *)
Inductive node : Type :=
| FileNode (name : string) (info : result FileInfo)
| DirNode (name : string) (children : result (list node)).

Definition node_name (n : node) : string :=
  match n with FileNode name _ | DirNode name _ => name end.

(** What the disk holds at a path, and the clock. *)
Class Host : Type := {
  os_ReadFile : string -> result string;
  time_Now : Z;
}.

Record trickplayContext : Type := {
  tkOwnerFolder : string;
  tkBaseName : string;
  tkWidth : Z;
  tkTileWidth : Z;
  tkTileHeight : Z;
}.

Record folderContext : Type := {
  fcSeasonNumber : option Z;
  fcSeasonFolder : string;
  fcExtraType : string;
  fcIsDiscFolder : bool;
  fcTrickplay : option trickplayContext;
}.

(** The zero value, which a map of contexts answers for a missing key. *)
Definition noContext : folderContext :=
  {| fcSeasonNumber := None; fcSeasonFolder := ""; fcExtraType := ""; fcIsDiscFolder := false; fcTrickplay := None |}.

Record walkedFile : Type := {
  wfRelativePath : string;
  wfFolderPath : string;
  wfFileName : string;
  wfBaseName : string;
  wfExtension : string;
  wfClass : fileClass;
  wfSizeBytes : Z;
  wfModifiedAt : Z;
  wfStat : FileStat;
  wfContext : folderContext;
}.

Record mediaCandidate : Type := {
  cdFile : walkedFile;
  cdVideo : VideoAttributes;
  cdSidecars : list SidecarFile;
  cdNfoAttrs : option Metadata;
  cdEpisodeIDs : list Link;
  cdWarnings : list string;
}.

Record scanner : Type := {
  snContexts : gmap string folderContext;
  snFiles : list walkedFile;
  snMediaBaseNames : gmap string (gmap string nat);
  snMediaCandidates : list mediaCandidate;
  snMediaRelativePaths : gset string;
  snDirectorySidecars : list SidecarFile;
  snSeasonSidecars : gmap Z (list SidecarFile);
  snOwnerNames : ownerNameCache;
  snOrphansWarned : gset string;
  snExternalLinks : list Link;
  snLinkSeen : gset string;
  snTvshowMeta : option Metadata;
  snWarnings : list string;
}.

Definition newScanner : scanner := {|
  snContexts := {["." := noContext]};
  snFiles := [];
  snMediaBaseNames := ∅;
  snMediaCandidates := [];
  snMediaRelativePaths := ∅;
  snDirectorySidecars := [];
  snSeasonSidecars := ∅;
  snOwnerNames := emptyCache;
  snOrphansWarned := ∅;
  snExternalLinks := [];
  snLinkSeen := ∅;
  snTvshowMeta := None;
  snWarnings := [];
|}.

Definition warnf (text : string) (s : scanner) : scanner := s {{ snWarnings ::= fun w => w ++ [text] }}.

Definition joinRelative (folder name : string) : string :=
  if String.eqb folder "." then name else folder +:+ "/" +:+ name.

Section scanning.
Context `{Regexp, MapOrder, URLs, XML, Host, Images, Accounts}.

(** What a scan is of: the root's path and name, the directory's type, and the
    active sidecar registry. *)
Variables (rootPath folderName : string) (directoryType : DirectoryType) (registry : SidecarRegistry).

(** * Pass one: the walk *)

Definition contextOf (folder : string) (s : scanner) : folderContext := default noContext (snContexts s !! folder).

Definition seasonOf (name : string) (context : folderContext) : folderContext :=
  match fcSeasonNumber context with
  | Some _ => context
  | None =>
      match parseSeasonFolder name with
      | Some (seasonNumber, _) => context {{ fcSeasonNumber := Some seasonNumber; fcSeasonFolder := name }}
      | None => context
      end
  end.

(** The warning about an abbreviated season folder, when there is one. *)
Definition abbreviatedWarning (relativePath name : string) (context : folderContext) : list string :=
  match fcSeasonNumber context, parseSeasonFolder name with
  | None, Some (seasonNumber, true) =>
      ["season folder " +:+ quote relativePath +:+ " uses the abbreviated form; " +:+
       quote ("Season " +:+ pad_Z 2 seasonNumber) +:+ " is the documented naming"]
  | _, _ => []
  end.

Definition extraOf (name : string) (context : folderContext) : folderContext :=
  if String.eqb (fcExtraType context) ""
  then match extrasFolderType name with Some extraType => context {{ fcExtraType := extraType }} | None => context end
  else context.

Definition discOf (name : string) (context : folderContext) : folderContext :=
  if isDiscStructureFolder name then context {{ fcIsDiscFolder := true }} else context.

Definition trickplayOf (parent name : string) (context : folderContext) : folderContext :=
  match trickplayFolderBaseName name with
  | Some baseName =>
      context {{ fcTrickplay := Some {| tkOwnerFolder := parent; tkBaseName := baseName; tkWidth := 0; tkTileWidth := 0;
                                        tkTileHeight := 0 |} }}
  | None =>
      match fcTrickplay context with
      | Some trickplay =>
          if (tkWidth trickplay =? 0)%Z then
            match parseTrickplayResolutionFolder name with
            | Some (width, tileWidth, tileHeight) =>
                context {{ fcTrickplay := Some {| tkOwnerFolder := tkOwnerFolder trickplay; tkBaseName := tkBaseName trickplay;
                                                  tkWidth := width; tkTileWidth := tileWidth; tkTileHeight := tileHeight |} }}
            | None => context
            end
          else context
      | None => context
      end
  end.

Definition folderContextFor (relativePath name : string) (s : scanner) : scanner * folderContext :=
  let context := contextOf (Dir relativePath) s in
  let s := s {{ snWarnings ::= fun w => w ++ abbreviatedWarning relativePath name context }} in
  (s, trickplayOf (Dir relativePath) name (discOf name (extraOf name (seasonOf name context)))).

Definition extensionOf (fileName : string) : string := to_lower (trim_prefix (Ext fileName) ".").
Definition baseNameOf (fileName : string) : string := trim_suffix fileName (Ext fileName).

(** The callback, for a file. *)
Definition visitFile (relativePath fileName : string) (info : result FileInfo) (s : scanner) : scanner :=
  if isIgnoredFile fileName then s
  else
    match info with
    | Err err => warnf ("could not stat " +:+ relativePath +:+ ": " +:+ err) s
    | Ok info =>
        let folderPath := Dir relativePath in
        let extension := extensionOf fileName in
        let '(owners, fileStat) := resolve (snOwnerNames s) (fileStatFrom info) in
        s {{ snOwnerNames := owners;
             snFiles ::= fun files => files ++ [
               {| wfRelativePath := relativePath; wfFolderPath := folderPath; wfFileName := fileName;
                  wfBaseName := baseNameOf fileName; wfExtension := extension; wfClass := classifyExtension extension;
                  wfSizeBytes := infoSize info; wfModifiedAt := infoModTime info; wfStat := fileStat;
                  wfContext := contextOf folderPath s |}] }}
    end.

(** [filepath.WalkDir] under the callback, below a folder: an unreadable folder
    is visited, reported, and left. *)
Fixpoint walkNode (folder : string) (n : node) (s : scanner) : scanner :=
  let relativePath := joinRelative folder (node_name n) in
  match n with
  | FileNode name info => visitFile relativePath name info s
  | DirNode name children =>
      if isIgnoredFolder name then s
      else
        let '(s, context) := folderContextFor relativePath name s in
        let s := s {{ snContexts ::= fun contexts => <[relativePath := context]> contexts }} in
        match children with
        | Err err => warnf ("could not read " +:+ relativePath +:+ ": " +:+ err) s
        | Ok children => fold_left (fun s child => walkNode relativePath child s) children s
        end
  end.

(** The walk from the root: what lstat answers for it, and what ReadDir does. *)
Definition walkRoot (root : result node) (s : scanner) : scanner :=
  match root with
  | Err err => warnf ("could not read .: " +:+ err) s
  | Ok (FileNode _ _) => s
  | Ok (DirNode _ (Err err)) => warnf ("could not read .: " +:+ err) s
  | Ok (DirNode _ (Ok children)) => fold_left (fun s child => walkNode "." child s) children s
  end.

(** ** Media files *)

Definition int32PtrFromInt (v : option Z) : option Z := wrap32 <$> v.
Definition int32SliceFromInt (l : list Z) : list Z := map wrap32 l.

Definition attributesOf (parts : videoNameParts) : VideoAttributes := {|
  vaTitle := Parse.Title parts;
  vaEpisodeTitle := "";
  vaYear := wrap32 (Parse.Year parts);
  vaSeasonNumber := None;
  vaEpisodeNumbers := [];
  vaAirDate := "";
  vaIsSpecial := false;
  vaEdition := Edition parts;
  vaVersionLabel := VersionLabel parts;
  vaStackType := StackType parts;
  vaStackNumber := wrap32 (StackNumber parts);
  vaThreeDFormat := ThreeDFormat parts;
  vaExtraType := "";
  vaExtraSource := "";
|}.

(** The numbering of an episode: from its name, else from its folder. *)
Definition episodeNumbering (file : walkedFile) (isMediaFile : bool) (episode : episodeInfo) (attributes : VideoAttributes)
  (s : scanner) : scanner * VideoAttributes :=
  if Matched episode then
    (s, attributes {{ vaSeasonNumber := int32PtrFromInt (Parse.SeasonNumber episode);
                      vaEpisodeNumbers := int32SliceFromInt (EpisodeNumbers episode);
                      vaAirDate := ParseDate (AirDate episode);
                      vaEpisodeTitle := EpisodeTitle episode;
                      vaTitle ::= fun title => if String.eqb (SeriesTitle episode) "" then title else SeriesTitle episode }})
  else
    match fcSeasonNumber (wfContext file) with
    | Some season =>
        ((if isMediaFile
          then warnf ("could not resolve an episode number from " +:+ quote (wfRelativePath file) +:+
                      "; recording it under season " +:+ show_Z season +:+ " only") s
          else s),
         attributes {{ vaSeasonNumber := int32PtrFromInt (Some season) }})
    | None =>
        ((if isMediaFile
          then warnf ("could not resolve season or episode numbering from " +:+ quote (wfRelativePath file)) s
          else s),
         attributes)
    end.

Definition videoAttributesFor (file : walkedFile) (isMediaFile : bool) (s : scanner) : outcome (scanner * VideoAttributes) :=
  let allowBareYear := negb (String.eqb directoryType TypeTV) in
  let* parts := parseVideoName (wfBaseName file) folderName allowBareYear in
  let attributes := attributesOf parts in
  if String.eqb directoryType TypeMusicVideo then
    let* (_, title) := parseArtistAndTitle (wfBaseName file) in
    Done (s, if String.eqb title "" then attributes else attributes {{ vaTitle := title }})
  else if negb (String.eqb directoryType TypeTV) then Done (s, attributes)
  else
    let* episode := parseEpisodeName (wfBaseName file) in
    let '(s, attributes) := episodeNumbering file isMediaFile episode attributes s in
    let attributes :=
      match vaSeasonNumber attributes, fcSeasonNumber (wfContext file) with
      | None, Some season => attributes {{ vaSeasonNumber := int32PtrFromInt (Some season) }}
      | _, _ => attributes
      end in
    let attributes :=
      match vaSeasonNumber attributes with
      | Some 0%Z => attributes {{ vaIsSpecial := true }}
      | _ => attributes
      end in
    Done (s, attributes).

(** Whether a file is playable content rather than an extra. *)
Definition isMedia (file : walkedFile) : bool :=
  bool_decide (wfClass file = classVideo) && negb (fcIsDiscFolder (wfContext file)) &&
  String.eqb (fcExtraType (wfContext file)) "" && negb (bool_decide (is_Some (extrasSuffixType (wfBaseName file)))).

Definition identifyMediaFile (s : scanner) (file : walkedFile) : outcome scanner :=
  if negb (isMedia file) then Done s
  else
    let* (s, video) := videoAttributesFor file true s in
    let candidate := {| cdFile := file; cdVideo := video; cdSidecars := []; cdNfoAttrs := None; cdEpisodeIDs := [];
                        cdWarnings := [] |} in
    let s := s {{ snMediaCandidates ::= fun l => l ++ [candidate];
                  snMediaRelativePaths ::= fun paths => {[wfRelativePath file]} ∪ paths }} in
    Done (s {{ snMediaBaseNames ::= fun names =>
                 <[wfFolderPath file := <[wfBaseName file := length (snMediaCandidates s) - 1]> (default ∅ (names !! wfFolderPath file))]> names }}).

Definition identifyMediaFiles (s : scanner) : outcome scanner := ofold identifyMediaFile s (snFiles s).

Definition walk (root : result node) (s : scanner) : outcome scanner := identifyMediaFiles (walkRoot root s).

(** * Pass two: the sidecars *)

(** The body of the loop of [matchMediaPrefix]. *)
Definition longerPrefix (baseName best candidate : string) : string :=
  if (String.length candidate <=? String.length best)%nat then best
  else if String.eqb candidate baseName || has_prefix candidate baseName then candidate
  else best.

Definition matchMediaPrefix (folderPath baseName : string) (s : scanner) : option (string * string) :=
  let candidates := default ∅ (snMediaBaseNames s !! folderPath) in
  if bool_decide (candidates = ∅) then None
  else
    let best := foldl (longerPrefix baseName) "" (map fst (range_map ["matchMediaPrefix"; folderPath; baseName] candidates)) in
    if String.eqb best "" then None else Some (best, str_drop (String.length best) baseName).

(** An index read from the map of a folder; a missing key reads as zero. *)
Definition indexOf (folderPath baseName : string) (s : scanner) : nat :=
  default 0 (default ∅ (snMediaBaseNames s !! folderPath) !! baseName).

(** An assignment to a field of [s.mediaCandidates[index]], which panics out of
    range. *)
Definition withCandidate (index : nat) (f : mediaCandidate -> mediaCandidate) (s : scanner) : outcome scanner :=
  if (index <? length (snMediaCandidates s))%nat
  then Done (s {{ snMediaCandidates ::= alter f index }})
  else Panic.

Definition addSidecar (sidecar : SidecarFile) (c : mediaCandidate) : mediaCandidate :=
  c {{ cdSidecars ::= fun l => l ++ [sidecar] }}.

Definition episodeLinks (links : list Link) (c : mediaCandidate) : mediaCandidate :=
  c {{ cdEpisodeIDs ::= fun l => l ++ links }}.

Definition addSeasonSidecar (season : Z) (sidecar : SidecarFile) (s : scanner) : scanner :=
  s {{ snSeasonSidecars ::= fun m => <[season := default [] (m !! season) ++ [sidecar]]> m }}.

Definition seasonNamedBy (file : walkedFile) : option Z :=
  if negb (String.eqb directoryType TypeTV) then None else parseSeasonArtworkName (wfBaseName file).

Definition trickplayOwnerOf (file : walkedFile) (s : scanner) : scanner * option nat :=
  match fcTrickplay (wfContext file) with
  | None => (s, None)
  | Some trickplay =>
      match default ∅ (snMediaBaseNames s !! tkOwnerFolder trickplay) !! tkBaseName trickplay with
      | Some index => (s, Some index)
      | None =>
          let orphanKey := JoinPath (tkOwnerFolder trickplay) (tkBaseName trickplay) in
          if bool_decide (orphanKey ∈ snOrphansWarned s) then (s, None)
          else
            (warnf ("trickplay previews for " +:+ quote (orphanKey +:+ trickplayFolderSuffix) +:+
                    " have no media file of that name; recording them on the directory")
               (s {{ snOrphansWarned ::= fun seen => {[orphanKey]} ∪ seen }}), None)
      end
  end.

Definition trickplayInfoFor (file : walkedFile) : option TrickplayInfo :=
  match fcTrickplay (wfContext file) with
  | None => None
  | Some trickplay =>
      if (tkWidth trickplay =? 0)%Z then None
      else Some {| tpWidth := wrap32 (tkWidth trickplay); tpTileWidth := wrap32 (tkTileWidth trickplay);
                   tpTileHeight := wrap32 (tkTileHeight trickplay); tpTileIndex := wrap32 <$> Atoi (wfBaseName file) |}
  end.

Definition absolutePath (relativePath : string) : string := JoinPath rootPath relativePath.

Definition imageInfoFor (file : walkedFile) (s : scanner) : scanner * option ImageInfo :=
  if negb (bool_decide (wfClass file = classImage)) then (s, None)
  else
    match readImageInfo (absolutePath (wfRelativePath file)) with
    | Err err =>
        (warnf ("could not read the image header of " +:+ quote (wfRelativePath file) +:+ ": " +:+ err) s,
         Some {| iiCodec := ""; iiWidth := 0; iiHeight := 0; iiError := err |})
    | Ok imageInfo => (s, Some imageInfo)
    end.

(** The type an extra's kind stands for, while the table has it switched on. *)
Definition enabledExtra (extraType : string) : option SidecarType :=
  match assoc extraType extraTypeToSidecarType with
  | Some sidecarType => if IsEnabled registry sidecarType then Some sidecarType else None
  | None => None
  end.

(** The type the folder gives, if it gives one. *)
Definition folderSidecarType (context : folderContext) : option SidecarType :=
  if fcIsDiscFolder context && IsEnabled registry SidecarDiscStructure then Some SidecarDiscStructure
  else if bool_decide (is_Some (fcTrickplay context)) && IsEnabled registry SidecarTrickplay then Some SidecarTrickplay
  else if String.eqb (fcExtraType context) "" then None
  else enabledExtra (fcExtraType context).

(** The type the name gives a video, if it gives one. *)
Definition suffixSidecarType (file : walkedFile) : option SidecarType :=
  if bool_decide (wfClass file = classVideo)
  then match extrasSuffixType (wfBaseName file) with Some extraType => enabledExtra extraType | None => None end
  else None.

Definition sidecarTypeFor (file : walkedFile) : SidecarType :=
  match folderSidecarType (wfContext file) with
  | Some sidecarType => sidecarType
  | None =>
      match suffixSidecarType file with
      | Some sidecarType => sidecarType
      | None =>
          match Match registry (wfFileName file) with
          | Some definition => dType definition
          | None => SidecarUnknown
          end
      end
  end.

Definition sidecarFor (file : walkedFile) (s : scanner) : scanner * SidecarFile :=
  let sidecarType := sidecarTypeFor file in
  let '(s, image) := imageInfoFor file s in
  (s, {| scRelativePath := wfRelativePath file; scFileName := wfFileName file; scExtension := wfExtension file;
         scSizeBytes := wfSizeBytes file; scModifiedAt := wfModifiedAt file; scType := sidecarType;
         scCategory := CategoryOf registry sidecarType; scStat := wfStat file; scImage := image;
         scTrickplay := trickplayInfoFor file |}).

Definition addExternalLink (s : scanner) (link : Link) : scanner :=
  let key := linkIdentity (Key link) (Value link) in
  if bool_decide (key ∈ snLinkSeen s) then s
  else s {{ snLinkSeen ::= fun seen => {[key]} ∪ seen; snExternalLinks ::= fun l => l ++ [link] }}.

Definition addExternalLinks (links : list Link) (s : scanner) : scanner := foldl addExternalLink s links.

(** What [nfo.ReadFile] gives for a file, an unreadable one being an empty record
    that says why. *)
Definition readNFO (file : walkedFile) (s : scanner) : scanner * Metadata :=
  match ReadFile (os_ReadFile (absolutePath (wfRelativePath file))) with
  | Ok attributes => (s, attributes)
  | Err err =>
      (warnf ("could not parse " +:+ quote (wfRelativePath file) +:+ ": " +:+ err) s,
       (bareMetadata "") {{ mdParseError := err }})
  end.

Definition absorbNFO (file : walkedFile) (s : scanner) : outcome scanner :=
  let '(s, attributes) := readNFO file s in
  match matchMediaPrefix (wfFolderPath file) (wfBaseName file) s with
  | Some (targetBaseName, _) =>
      let attributes := attributes {{ mdScope := ScopeVideo; mdTargetBaseName := targetBaseName }} in
      withCandidate (indexOf (wfFolderPath file) targetBaseName s)
        (fun c => episodeLinks (ExtractLinks attributes) (c {{ cdNfoAttrs := Some attributes }})) s
  | None =>
      let scope :=
        if EqualFold (wfBaseName file) "season" && bool_decide (is_Some (fcSeasonNumber (wfContext file)))
        then ScopeSeason else ScopeDirectory in
      let attributes := attributes {{ mdScope := scope }} in
      let s :=
        if String.eqb scope ScopeDirectory && String.eqb (mdKind attributes) KindTVShow && negb (bool_decide (is_Some (snTvshowMeta s)))
        then s {{ snTvshowMeta := Some attributes }} else s in
      Done (addExternalLinks (ExtractLinks attributes) s)
  end.

(** Files the sidecar with its owner: a media file, a season, or the directory. *)
Definition fileSidecar (file : walkedFile) (sidecar : SidecarFile) (s : scanner) : outcome scanner :=
  let '(s, trickplayOwner) := trickplayOwnerOf file s in
  match trickplayOwner with
  | Some index => withCandidate index (addSidecar sidecar) s
  | None =>
      match matchMediaPrefix (wfFolderPath file) (wfBaseName file) s with
      | Some (targetBaseName, _) => withCandidate (indexOf (wfFolderPath file) targetBaseName s) (addSidecar sidecar) s
      | None =>
          match seasonNamedBy file with
          | Some season => Done (addSeasonSidecar season sidecar s)
          | None =>
              match fcSeasonNumber (wfContext file) with
              | Some season => Done (addSeasonSidecar season sidecar s)
              | None => Done (s {{ snDirectorySidecars ::= fun l => l ++ [sidecar] }})
              end
          end
      end
  end.

Definition classifySidecar (s : scanner) (file : walkedFile) : outcome scanner :=
  if bool_decide (wfRelativePath file ∈ snMediaRelativePaths s) then Done s
  else
    let '(s, sidecar) := sidecarFor file s in
    let* s := if bool_decide (wfClass file = classNFO) then absorbNFO file s else Done s in
    fileSidecar file sidecar s.

Definition classifySidecars (s : scanner) : outcome scanner := ofold classifySidecar s (snFiles s).

(** * Pass three: the records *)

(** The season folders and the seasons named by artwork. [seasonNumbers] is
    called twice, and each call walks the map of contexts in an order of its
    own: [view] tells them apart. *)
Definition declaredSeason (folderNames : gmap Z string) (context : folderContext) : gmap Z string :=
  match fcSeasonNumber context with
  | Some season => if String.eqb (fcSeasonFolder context) "" then folderNames else <[season := fcSeasonFolder context]> folderNames
  | None => folderNames
  end.

Definition namedSeason (folderNames : gmap Z string) (season : Z) : gmap Z string :=
  match folderNames !! season with Some _ => folderNames | None => <[season := ""]> folderNames end.

Definition seasonNumbers (view : string) (s : scanner) : gmap Z string :=
  let folderNames := foldl declaredSeason ∅ (map snd (range_map ["seasonNumbers"; view] (snContexts s))) in
  foldl namedSeason folderNames (map fst (map_to_list (snSeasonSidecars s))).

Definition sortedSeasonNumbers (folderNames : gmap Z string) : list Z :=
  merge_sort Z.le (map fst (map_to_list folderNames)).

Definition assembleSeasons (s : scanner) : list TVSeason :=
  let folderNames := seasonNumbers "assembleSeasons" s in
  map (fun number =>
    {| tsSeasonNumber := wrap32 number; tsFolderName := default "" (folderNames !! number);
       tsSidecars := default [] (snSeasonSidecars s !! number) |}) (sortedSeasonNumbers folderNames).

Definition summarizeSeasons (s : scanner) : list SeasonSummary :=
  let folderNames := seasonNumbers "summarizeSeasons" s in
  map (fun number =>
    {| ssSeasonNumber := wrap32 number; ssFolderName := default "" (folderNames !! number); ssNamedSeason := "";
       ssSeasonPlot := "" |}) (sortedSeasonNumbers folderNames).

Definition directoryMetadata (s : scanner) : outcome Metadata :=
  let md := default (bareMetadata "") (snTvshowMeta s) in
  let md := md {{ mdScope := ScopeDirectory; mdExternalLinks := snExternalLinks s }} in
  let* folderParts := parseVideoName folderName "" true in
  let md := if String.eqb (mdTitle md) "" then md {{ mdTitle := Parse.Title folderParts }} else md in
  let md := if (mdYear md =? 0)%Z then md {{ mdYear := wrap32 (Parse.Year folderParts) }} else md in
  if String.eqb directoryType TypeTV then
    match summarizeSeasons s with
    | [] => Done md
    | seasons => Done (md {{ mdTvShow := Some {| tvSeasons := seasons |} }})
    end
  else Done md.

Definition isDiscSidecar (sidecar : SidecarFile) : bool := String.eqb (scType sidecar) SidecarDiscStructure.

Definition holdsDiscStructure (s : scanner) : bool :=
  existsb isDiscSidecar (snDirectorySidecars s) ||
  existsb (fun entry => existsb isDiscSidecar entry.2) (map_to_list (snSeasonSidecars s)).

Definition noMediaFilesWarning (s : scanner) : string :=
  if holdsDiscStructure s
  then "no playable file found; this directory holds a ripped disc (VIDEO_TS or BDMV) rather than a single media file"
  else if String.eqb directoryType TypeMovie then "no movie file found in this directory"
  else if String.eqb directoryType TypeTV then "no episode files found in this directory"
  else if String.eqb directoryType TypeMusicVideo then "no music video files found in this directory"
  else "no media files found in this directory".

Definition mediaFileOf (candidate : mediaCandidate) : MediaFile :=
  let file := cdFile candidate in {|
  mfRecordType := RecordTypeMediaFile;
  mfDirectoryPath := rootPath;
  mfType := directoryType;
  mfPath := absolutePath (wfRelativePath file);
  mfRelativePath := wfRelativePath file;
  mfFileName := wfFileName file;
  mfExtension := wfExtension file;
  mfSizeBytes := wfSizeBytes file;
  mfModifiedAt := wfModifiedAt file;
  mfScannedAt := time_Now;
  mfVideo := cdVideo candidate;
  mfStat := wfStat file;
  mfMetadata := (fun attributes => attributes {{ mdExternalLinks := cdEpisodeIDs candidate }}) <$> cdNfoAttrs candidate;
  mfSidecars := cdSidecars candidate;
  mfWarnings := cdWarnings candidate;
|}.

Definition assemble (s : scanner) : outcome ScanResult :=
  let* metadata := directoryMetadata s in
  let mediaFiles := map mediaFileOf (snMediaCandidates s) in
  Done {|
    srDirectory := {|
      trRecordType := RecordTypeTVSeries;
      trPath := rootPath;
      trType := directoryType;
      trFolderName := folderName;
      trMetadata := metadata;
      trScannedAt := time_Now;
      trSeasons := assembleSeasons s;
      trWarnings := snWarnings s ++ match mediaFiles with [] => [noMediaFilesWarning s] | _ => [] end;
      trSidecars := snDirectorySidecars s |};
    srMediaFiles := mediaFiles |}.

(** The three passes. *)
Definition scanTree (root : result node) : outcome ScanResult :=
  let* s := walk root newScanner in
  let* s := classifySidecars s in
  assemble s.
End scanning.

(** * Scan *)

(** [Scan], given what [filepath.Abs] answers for the path, what [os.Stat] answers
    for the absolute one (whether it is a directory), and what the walk finds. *)
Definition Scan `{Regexp, MapOrder, URLs, XML, Host, Images, Accounts} (directoryPath : string)
  (absolute : result string) (isDir : result bool) (root : result node) (directoryType : DirectoryType)
  (registry : SidecarRegistry) : outcome (result ScanResult) :=
  match absolute with
  | Err err => Done (Err ("mediascan: resolving " +:+ directoryPath +:+ ": " +:+ err))
  | Ok absolutePath =>
      match isDir with
      | Err err => Done (Err ("mediascan: reading " +:+ absolutePath +:+ ": " +:+ err))
      | Ok false => Done (Err ("mediascan: " +:+ absolutePath +:+ " is not a directory"))
      | Ok true =>
          let* scanned := scanTree absolutePath (Base absolutePath) directoryType registry root in Done (Ok scanned)
      end
  end.
