(* ===== verification/ScanWalk.v ===== *)
(** What the walk of [Scan] collects: the files and folders of a tree, each with
    the context its place in the tree gives it, by recursion on the tree alone. *)
From stdpp Require Import strings list gmap.
From Stdlib Require Import Ascii ZArith Lia.
From coqutil Require Import Datatypes.RecordSetters.
Import DoubleBraceUpdate.
From S2P Require Import Prelude GoPath Sidecar Tokens Parse ScanModel Scan.

(** * Names and paths *)

(** A name ReadDir can return. *)
Definition entry_name (name : string) : Prop := plain name /\ name <> "..".

(** The relative path of a list of names, [.] when there is none. *)
Definition relative (names : list string) : string := show_path false names.

Lemma relative_elements names : Forall entry_name names -> path_elements (relative names) = names.
Proof.
  intros Hn. apply path_elements_show. exists (rev names), []. rewrite app_nil_r.
  split_and!; [done|by apply Forall_rev|constructor|done].
Qed.

Lemma relative_inj a b : Forall entry_name a -> Forall entry_name b -> relative a = relative b -> a = b.
Proof. intros Ha Hb He. by rewrite <- (relative_elements a Ha), He, relative_elements. Qed.

Lemma str_join_snoc l e : l <> [] -> str_join "/" (l ++ [e]) = str_join "/" l +:+ "/" +:+ e.
Proof.
  induction l as [|x l IH]; [done|]. intros _. destruct l as [|y l]; [done|].
  change (str_join "/" ((x :: y :: l) ++ [e])) with (x +:+ "/" +:+ str_join "/" ((y :: l) ++ [e])).
  rewrite IH by done. change (str_join "/" (x :: y :: l)) with (x +:+ "/" +:+ str_join "/" (y :: l)).
  by rewrite !str_app_assoc.
Qed.

Lemma relative_dot names : Forall entry_name names -> relative names = "." -> names = [].
Proof. intros Hn He. apply (relative_inj names []); [done|constructor|done]. Qed.

Lemma joinRelative_names names name :
  Forall entry_name names -> joinRelative (relative names) name = relative (names ++ [name]).
Proof.
  intros Hn. unfold joinRelative. destruct (String.eqb_spec (relative names) ".") as [He|He].
  - by rewrite (relative_dot names Hn He).
  - destruct names as [|x names]; [done|]. change (relative (x :: names)) with (str_join "/" (x :: names)).
    rewrite <- str_join_snoc by done. done.
Qed.

Lemma entry_slash names : Forall entry_name names -> Forall (fun e => str_contains e "/" = false) names.
Proof. intros Hn. eapply Forall_impl; [exact Hn|]. by intros e [(_ & _ & ?) _]. Qed.

Lemma rooted_names names rest : Forall entry_name names -> names <> [] -> rooted (str_join "/" names +:+ rest) = false.
Proof.
  destruct names as [|x names]; [done|]. intros [[(Hne & _ & Hs) _] _]%Forall_cons _.
  destruct x as [|c x]; [done|]. rewrite contains_slash_cons, orb_false_iff in Hs. destruct Hs as [Hc _].
  destruct names; (etrans; [apply rooted_cons|done]).
Qed.

(** The folder of a file is the folder the walk was in. *)
Lemma Dir_relative names name :
  Forall entry_name names -> entry_name name -> Dir (relative (names ++ [name])) = relative names.
Proof.
  intros Hn Hname. unfold Dir, split_last. cbn [fst].
  assert (split_slash (relative (names ++ [name])) = names ++ [name]) as ->.
  { assert (relative (names ++ [name]) = str_join "/" (names ++ [name])) as -> by (by destruct names).
    apply split_slash_join; [by destruct names|]. apply entry_slash, Forall_app. split; [done|by constructor]. }
  rewrite removelast_last. destruct names as [|x names]; [done|]. set (l := x :: names) in *.
  unfold Clean, path_elements. rewrite rooted_names by done.
  change (str_join "/" l +:+ "/") with (str_join "/" l +:+ "/" +:+ ""). rewrite split_slash_app, foldl_app.
  rewrite split_slash_join; [|done|by apply entry_slash]. rewrite (clean_fold_names false [] l Hn). rewrite app_nil_r.
  change (foldl (clean_step false) (rev l) (split_slash "")) with (rev l). by rewrite rev_involutive.
Qed.

(** * The tree *)

Section tree.
Context `{Accounts}.

(** An induction principle through the lists of children. *)
Lemma node_induction (P : node -> Prop) :
  (forall name info, P (FileNode name info)) ->
  (forall name err, P (DirNode name (Err err))) ->
  (forall name children, Forall P children -> P (DirNode name (Ok children))) -> forall n, P n.
Proof.
  intros Hfile Herr Hdir. fix IH 1. intros [name info|name [children|err]]; [apply Hfile| |apply Herr].
  apply Hdir. induction children as [|c children IHc]; constructor; [apply IH|apply IHc].
Qed.

(** Names are entry names, and no folder holds one twice. *)
Fixpoint well_named (n : node) : Prop :=
  match n with
  | FileNode name _ => entry_name name
  | DirNode name children =>
      entry_name name /\
      match children with
      | Ok children => NoDup (map node_name children) /\ foldr (fun c P => well_named c /\ P) True children
      | Err _ => True
      end
  end.

Lemma well_named_name n : well_named n -> entry_name (node_name n).
Proof. destruct n; simpl; [done|]. by intros [? _]. Qed.

Lemma well_named_all l : foldr (fun c P => well_named c /\ P) True l <-> Forall well_named l.
Proof. induction l as [|c l IH]; simpl; [by split|]. by rewrite IH, Forall_cons. Qed.

(** ** What each folder and file of it is *)

Definition childContext (parent name : string) (context : folderContext) : folderContext :=
  trickplayOf parent name (discOf name (extraOf name (seasonOf name context))).

(** The stat record of a file, with the names its ids have. *)
Definition namedStat (info : FileInfo) : FileStat :=
  let fileStat := fileStatFrom info in
  fileStat {{ fsOwnerName := directName LookupId (fsUid fileStat); fsGroupName := directName LookupGroupId (fsGid fileStat) }}.

Definition fileAt (names : list string) (context : folderContext) (name : string) (info : FileInfo) : walkedFile := {|
  wfRelativePath := relative (names ++ [name]);
  wfFolderPath := relative names;
  wfFileName := name;
  wfBaseName := baseNameOf name;
  wfExtension := extensionOf name;
  wfClass := classifyExtension (extensionOf name);
  wfSizeBytes := infoSize info;
  wfModifiedAt := infoModTime info;
  wfStat := namedStat info;
  wfContext := context;
|}.

(** The files of a node, below the folder with the given names and context. *)
Fixpoint filesUnder (names : list string) (context : folderContext) (n : node) : list walkedFile :=
  match n with
  | FileNode name (Ok info) => if isIgnoredFile name then [] else [fileAt names context name info]
  | FileNode _ (Err _) => []
  | DirNode name children =>
      if isIgnoredFolder name then []
      else
        match children with
        | Ok children =>
            flat_map (filesUnder (names ++ [name]) (childContext (relative names) name context)) children
        | Err _ => []
        end
  end.

(** The folders of a node, each with its context, in the order they are entered. *)
Fixpoint foldersUnder (names : list string) (context : folderContext) (n : node) : list (list string * folderContext) :=
  match n with
  | FileNode _ _ => []
  | DirNode name children =>
      if isIgnoredFolder name then []
      else
        let context := childContext (relative names) name context in
        (names ++ [name], context) ::
        match children with
        | Ok children => flat_map (foldersUnder (names ++ [name]) context) children
        | Err _ => []
        end
  end.

Definition enter (contexts : gmap string folderContext) (folder : list string * folderContext) : gmap string folderContext :=
  <[relative folder.1 := folder.2]> contexts.

Lemma foldersUnder_below n names context names' context' :
  well_named n -> Forall entry_name names -> (names', context') ∈ foldersUnder names context n ->
  Forall entry_name names' /\ (length names < length names')%nat.
Proof.
  revert names context. induction n as [name info|name err|name children IH] using node_induction; intros names context Hw Hn; simpl.
  - by intros ?%elem_of_nil.
  - destruct (isIgnoredFolder name); [by intros ?%elem_of_nil|]. intros [= -> ->]%list_elem_of_singleton.
    rewrite length_app. simpl. split; [|lia]. apply Forall_app. split; [done|]. constructor; [apply Hw|constructor].
  - destruct (isIgnoredFolder name); [by intros ?%elem_of_nil|]. destruct Hw as (Hname & _ & Hw%well_named_all).
    assert (Forall entry_name (names ++ [name])) as Hn' by (apply Forall_app; split; [done|by constructor]).
    intros [[= -> ->]|Hin]%elem_of_cons; [split; [done|]; rewrite length_app; simpl; lia|].
    apply list_elem_of_In, in_flat_map in Hin as (c & Hc%list_elem_of_In & Hin%list_elem_of_In).
    rewrite Forall_forall in IH, Hw. destruct (IH c Hc _ _ (Hw c Hc) Hn' Hin) as [Hk Hl]. split; [done|].
    rewrite length_app in Hl. simpl in Hl. lia.
Qed.

Lemma enter_frame folders contexts names :
  Forall entry_name names -> (forall f, f ∈ folders -> Forall entry_name f.1 /\ (length names < length f.1)%nat) ->
  foldl enter contexts folders !! relative names = contexts !! relative names.
Proof.
  intros Hn. revert contexts. induction folders as [|f folders IH]; intros contexts Hf; [done|]. simpl.
  rewrite IH by (intros g Hg; apply Hf; by right). unfold enter. rewrite lookup_insert_ne; [done|].
  destruct (Hf f) as [Hfn Hl]; [left|]. intros He%relative_inj; [|done|done]. rewrite He in Hl. lia.
Qed.

(** ** The walk is the recursion *)

(** What a walk does to a state: folders entered, files found, and owner names
    and warnings nobody looks at here. *)
Definition walkedTo (s s' : scanner) (folders : list (list string * folderContext)) (files : list walkedFile) : Prop :=
  exists owners warnings, cache_ok owners /\
    s' = s {{ snContexts ::= fun contexts => foldl enter contexts folders; snFiles ::= fun l => l ++ files;
              snOwnerNames := owners; snWarnings ::= fun w => w ++ warnings }}.

Lemma walkedTo_warnings s w : cache_ok (snOwnerNames s) -> walkedTo s (s {{ snWarnings ::= fun ws => ws ++ w }}) [] [].
Proof.
  intros Hc. exists (snOwnerNames s), w. split; [done|]. destruct s; cbn in *. by rewrite app_nil_r.
Qed.

Lemma walkedTo_refl s : cache_ok (snOwnerNames s) -> walkedTo s s [] [].
Proof.
  intros Hc. exists (snOwnerNames s), []. split; [done|]. destruct s; cbn in *. by rewrite !app_nil_r.
Qed.

Lemma walkedTo_trans s1 s2 s3 folders folders' files files' :
  walkedTo s1 s2 folders files -> walkedTo s2 s3 folders' files' -> walkedTo s1 s3 (folders ++ folders') (files ++ files').
Proof.
  intros (o & w & Ho & ->) (o' & w' & Ho' & ->). exists o', (w ++ w'). split; [done|].
  destruct s1; cbn. by rewrite foldl_app, !app_assoc.
Qed.

Lemma walkedTo_cache s s' folders files : walkedTo s s' folders files -> cache_ok (snOwnerNames s').
Proof. by intros (o & w & Ho & ->). Qed.

Lemma walkedTo_contexts s s' folders files :
  walkedTo s s' folders files -> snContexts s' = foldl enter (snContexts s) folders.
Proof. by intros (o & w & Ho & ->). Qed.

Lemma visitFile_spec names context name info s :
  Forall entry_name names -> entry_name name -> cache_ok (snOwnerNames s) -> contextOf (relative names) s = context ->
  walkedTo s (visitFile (relative (names ++ [name])) name info s) [] (filesUnder names context (FileNode name info)).
Proof.
  intros Hn Hname Hc Hctx. unfold visitFile. cbn [filesUnder]. destruct (isIgnoredFile name).
  { destruct info; by apply walkedTo_refl. }
  destruct info as [info|err]; [|by apply walkedTo_warnings].
  rewrite Dir_relative by done. destruct (resolve_ok (snOwnerNames s) (fileStatFrom info) Hc) as [Ho Hs].
  destruct (resolve _ _) as [owners fileStat]. cbn [fst snd] in *. subst fileStat.
  exists owners, []. split; [done|]. rewrite Hctx. destruct s; cbn in *. by rewrite app_nil_r.
Qed.

Lemma enterFolder names name s :
  Forall entry_name names -> entry_name name -> cache_ok (snOwnerNames s) ->
  let '(s1, context) := folderContextFor (relative (names ++ [name])) name s in
  context = childContext (relative names) name (contextOf (relative names) s) /\
  walkedTo s (s1 {{ snContexts ::= fun contexts => <[relative (names ++ [name]) := context]> contexts }})
    [(names ++ [name], context)] [].
Proof.
  intros Hn Hname Hc. unfold folderContextFor. rewrite Dir_relative by done. split; [done|].
  eexists (snOwnerNames s), _. split; [done|]. destruct s; cbn. rewrite app_nil_r. reflexivity.
Qed.

Lemma walkChildren names context children s :
  Forall (fun n => forall names context s, well_named n -> Forall entry_name names -> cache_ok (snOwnerNames s) ->
    contextOf (relative names) s = context ->
    walkedTo s (walkNode (relative names) n s) (foldersUnder names context n) (filesUnder names context n)) children ->
  Forall well_named children -> Forall entry_name names -> cache_ok (snOwnerNames s) ->
  contextOf (relative names) s = context ->
  walkedTo s (fold_left (fun s child => walkNode (relative names) child s) children s)
    (flat_map (foldersUnder names context) children) (flat_map (filesUnder names context) children).
Proof.
  intros Hwalk. revert s. induction Hwalk as [|c children Hc Hcs IH]; intros s Hw Hn Hcache Hctx; [by apply walkedTo_refl|].
  apply Forall_cons in Hw as [Hwc Hw]. simpl. pose proof (Hc names context s Hwc Hn Hcache Hctx) as H1.
  eapply walkedTo_trans; [exact H1|]. apply IH; [done|done|by eapply walkedTo_cache|].
  unfold contextOf in *. rewrite (walkedTo_contexts _ _ _ _ H1), enter_frame; [done|done|].
  intros [k ctx] Hf. by eapply foldersUnder_below.
Qed.

Lemma walkNode_spec n names context s :
  well_named n -> Forall entry_name names -> cache_ok (snOwnerNames s) -> contextOf (relative names) s = context ->
  walkedTo s (walkNode (relative names) n s) (foldersUnder names context n) (filesUnder names context n).
Proof.
  revert names context s. induction n as [name info|name err|name children IH] using node_induction; intros names context s Hw Hn Hc Hctx;
    cbn [walkNode node_name]; rewrite joinRelative_names by done; cbn [foldersUnder filesUnder].
  - by apply visitFile_spec.
  - destruct (isIgnoredFolder name); [by apply walkedTo_refl|]. destruct Hw as [Hname _].
    pose proof (enterFolder names name s Hn Hname Hc) as He. rewrite Hctx in He.
    destruct (folderContextFor _ _ _) as [s1 context']. destruct He as [-> He].
    eapply (walkedTo_trans _ _ _ [_] [] [] []); [exact He|]. apply walkedTo_warnings. by eapply walkedTo_cache.
  - destruct (isIgnoredFolder name); [by apply walkedTo_refl|]. destruct Hw as (Hname & _ & Hw%well_named_all).
    pose proof (enterFolder names name s Hn Hname Hc) as He. rewrite Hctx in He.
    destruct (folderContextFor _ _ _) as [s1 context']. destruct He as [-> He].
    eapply (walkedTo_trans _ _ _ [_] _ []); [exact He|]. apply walkChildren; [done|done| |by eapply walkedTo_cache|].
    + apply Forall_app. split; [done|by constructor].
    + unfold contextOf. rewrite (walkedTo_contexts _ _ _ _ He). cbn [foldl]. unfold enter. cbn [fst snd]. by rewrite lookup_insert_eq.
Qed.

(** The files and folders of the whole directory. *)
Definition rootChildren (root : result node) : list node :=
  match root with Ok (DirNode _ (Ok children)) => children | _ => [] end.

Definition walkedFiles (root : result node) : list walkedFile := flat_map (filesUnder [] noContext) (rootChildren root).
Definition walkedFolders (root : result node) : list (list string * folderContext) :=
  flat_map (foldersUnder [] noContext) (rootChildren root).

Lemma cache_ok_empty : cache_ok emptyCache.
Proof. split; apply map_Forall_empty. Qed.

Lemma walkRoot_spec root :
  Forall well_named (rootChildren root) ->
  walkedTo newScanner (walkRoot root newScanner) (walkedFolders root) (walkedFiles root).
Proof.
  intros Hw. pose proof cache_ok_empty as Hc. unfold walkedFolders, walkedFiles.
  destruct root as [[name info|name [children|err]]|err]; cbn [rootChildren walkRoot flat_map] in *;
    [by apply walkedTo_refl| |by apply walkedTo_warnings|by apply walkedTo_warnings].
  change "." with (relative []). apply walkChildren; [|done|constructor|done|done].
  apply Forall_forall. intros n _. apply walkNode_spec.
Qed.

(** ** No file is found twice *)

Lemma filesUnder_path n names context f :
  well_named n -> Forall entry_name names -> f ∈ filesUnder names context n ->
  exists k, Forall entry_name (names ++ node_name n :: k) /\ wfRelativePath f = relative (names ++ node_name n :: k).
Proof.
  revert names context. induction n as [name info|name err|name children IH] using node_induction; intros names context Hw Hn; simpl.
  - destruct info as [info|err]; [|by intros ?%elem_of_nil]. destruct (isIgnoredFile name); [by intros ?%elem_of_nil|].
    intros ->%list_elem_of_singleton. exists []. split; [|done]. apply Forall_app. split; [done|by constructor].
  - destruct (isIgnoredFolder name); by intros ?%elem_of_nil.
  - destruct (isIgnoredFolder name); [by intros ?%elem_of_nil|]. destruct Hw as (Hname & _ & Hw%well_named_all).
    intros (c & Hc%list_elem_of_In & Hin%list_elem_of_In)%list_elem_of_In%in_flat_map. rewrite Forall_forall in IH, Hw.
    assert (Forall entry_name (names ++ [name])) as Hn' by (apply Forall_app; split; [done|by constructor]).
    destruct (IH c Hc _ _ (Hw c Hc) Hn' Hin) as (k & Hk & Hp).
    exists (node_name c :: k). by rewrite <- app_assoc in Hk, Hp.
Qed.

Lemma children_NoDup names context children :
  Forall (fun n => NoDup (map wfRelativePath (filesUnder names context n))) children ->
  NoDup (map node_name children) -> Forall well_named children -> Forall entry_name names ->
  NoDup (map wfRelativePath (flat_map (filesUnder names context) children)).
Proof.
  intros Hnd Hnames Hw Hn. induction children as [|c children IH]; [constructor|].
  apply Forall_cons in Hnd as [Hc Hnd]. apply Forall_cons in Hw as [Hwc Hw]. apply NoDup_cons in Hnames as [Hni Hnames].
  simpl. rewrite map_app. apply NoDup_app. split_and!; [done| |by apply IH].
  intros p (f & -> & Hf)%list_elem_of_fmap (g & Hg & (d & Hd%list_elem_of_In & Hgd%list_elem_of_In)%list_elem_of_In%in_flat_map)%list_elem_of_fmap.
  rewrite Forall_forall in Hw. destruct (filesUnder_path c names context f Hwc Hn Hf) as (k & Hk & Hp).
  destruct (filesUnder_path d names context g (Hw d Hd) Hn Hgd) as (k' & Hk' & Hp').
  rewrite Hp, Hp' in Hg. apply relative_inj in Hg; [|done|done]. apply app_inv_head in Hg. injection Hg as He _.
  apply Hni. rewrite He. by apply list_elem_of_fmap_2.
Qed.

Lemma filesUnder_NoDup n names context :
  well_named n -> Forall entry_name names -> NoDup (map wfRelativePath (filesUnder names context n)).
Proof.
  revert names context. induction n as [name info|name err|name children IH] using node_induction; intros names context Hw Hn; simpl.
  - destruct info as [info|err]; [|constructor]. destruct (isIgnoredFile name); repeat constructor. by intros ?%elem_of_nil.
  - destruct (isIgnoredFolder name); constructor.
  - destruct (isIgnoredFolder name); [constructor|]. destruct Hw as (Hname & Hnd & Hw%well_named_all).
    assert (Forall entry_name (names ++ [name])) as Hn' by (apply Forall_app; split; [done|by constructor]).
    apply children_NoDup; [|done|done|done]. rewrite Forall_forall in IH, Hw |- *. intros c Hc. apply IH; auto.
Qed.

(** A directory the file system can hold. *)
Definition well_formed (root : result node) : Prop :=
  Forall well_named (rootChildren root) /\ NoDup (map node_name (rootChildren root)).

Lemma walkedFiles_NoDup root : well_formed root -> NoDup (map wfRelativePath (walkedFiles root)).
Proof.
  intros [Hw Hnd]. apply children_NoDup; [|done|done|constructor].
  rewrite Forall_forall in Hw |- *. intros c Hc. apply filesUnder_NoDup; [by apply Hw|constructor].
Qed.

(** The walk finds exactly the files of the tree that nothing hides, each once,
    in order, with the context of its own path: no folder leaks into a sibling
    and an unreadable one costs only itself. *)
Theorem walk_files root :
  Forall well_named (rootChildren root) ->
  snFiles (walkRoot root newScanner) = walkedFiles root /\
  snContexts (walkRoot root newScanner) = foldl enter {["." := noContext]} (walkedFolders root).
Proof. intros Hw. destruct (walkRoot_spec root Hw) as (owners & warnings & _ & ->). done. Qed.
End tree.
