(* ===== verification/ScanOwners.v ===== *)
(** Who owns each file a scan finds. The media files are the videos that are not
    extras; every other file belongs to one of them, to a season, or to the
    directory, by a rule that looks at the file and the media files alone
    ([ownerOf]). The state of the scanner, seen through [filed], is a ledger from
    owners to sidecars, and its passes only append to it. *)
From stdpp Require Import strings list gmap.
From Stdlib Require Import Ascii ZArith Lia.
From coqutil Require Import Datatypes.RecordSetters.
Import DoubleBraceUpdate.
From S2P Require Import Prelude GoPath Sidecar Links Tokens Parse Model Xml Nfo ScanModel Scan ScanWalk.
#[local] Open Scope go_scope.

(** * The longest prefix *)

Definition longest (baseName : string) (candidates : list string) : string := foldl (longerPrefix baseName) "" candidates.

(** A candidate a base name begins with. *)
Definition prefixed (baseName candidate : string) : Prop := candidate <> "" /\ has_prefix candidate baseName = true.

Lemma longerPrefix_cases baseName best candidate :
  longerPrefix baseName best candidate = best /\
    ((String.length candidate <= String.length best)%nat \/ has_prefix candidate baseName = false) \/
  longerPrefix baseName best candidate = candidate /\ (String.length best < String.length candidate)%nat /\ prefixed baseName candidate.
Proof.
  unfold longerPrefix. destruct (_ <=? _)%nat eqn:Hl; [apply Nat.leb_le in Hl; left; auto|]. apply Nat.leb_gt in Hl.
  destruct (String.eqb_spec candidate baseName) as [->|_]; cbn [orb].
  { right. split; [done|]. split; [done|]. split; [intros ->; simpl in Hl; lia|apply has_prefix_refl]. }
  destruct (has_prefix candidate baseName) eqn:Hp; [|left; auto]. right. split; [done|]. split; [done|].
  split; [intros ->; simpl in Hl; lia|done].
Qed.

(** The longest prefix is nothing when no candidate is one, and otherwise a
    candidate no longer one beats. *)
Lemma longest_spec baseName candidates :
  let best := longest baseName candidates in
  (best = "" \/ best ∈ candidates /\ prefixed baseName best) /\
  forall c, c ∈ candidates -> prefixed baseName c -> (String.length c <= String.length best)%nat.
Proof.
  unfold longest. induction candidates as [|c candidates IH] using rev_ind; [split; [by left|by intros ? ?%elem_of_nil]|].
  rewrite foldl_snoc. set (best := foldl _ _ _) in *. destruct IH as [Hbest Hmax].
  destruct (longerPrefix_cases baseName best c) as [[-> Hc]|(-> & Hl & Hp)].
  - split; [destruct Hbest as [?|[? ?]]; [by left|right; split; [apply elem_of_app; by left|done]]|].
    intros d [Hd| ->%list_elem_of_singleton]%elem_of_app Hpd; [by apply Hmax|].
    destruct Hc as [Hc|Hc]; [done|]. destruct Hpd as [_ Hpd]. congruence.
  - split; [right; split; [apply elem_of_app; right; by left|done]|].
    intros d [Hd| ->%list_elem_of_singleton]%elem_of_app Hpd; [|done]. specialize (Hmax d Hd Hpd). lia.
Qed.

(** So the order of the candidates does not matter. *)
Lemma longest_order baseName l l' : (forall c, c ∈ l <-> c ∈ l') -> longest baseName l = longest baseName l'.
Proof.
  intros Hl. destruct (longest_spec baseName l) as [[He|[Hin Hp]] Hmax], (longest_spec baseName l') as [[Ho|[Hin' Hp']] Hmax'].
  - congruence.
  - destruct Hp' as [Hne Hp']. pose proof (Hmax _ (proj2 (Hl _) Hin') (conj Hne Hp')) as Hlen. rewrite He in Hlen.
    destruct (longest baseName l'); [done|simpl in Hlen; lia].
  - destruct Hp as [Hne Hp]. pose proof (Hmax' _ (proj1 (Hl _) Hin) (conj Hne Hp)) as Hlen. rewrite Ho in Hlen.
    destruct (longest baseName l); [done|simpl in Hlen; lia].
  - pose proof (Hmax _ (proj2 (Hl _) Hin') Hp'). pose proof (Hmax' _ (proj1 (Hl _) Hin) Hp).
    destruct Hp as [_ Hp], Hp' as [_ Hp']. apply (has_prefix_unique _ _ baseName); [done|done|lia].
Qed.

(** * The rule *)

(** The position of the last media file of a folder with a base name: the one a
    name stands for when two files share it. *)
Definition namesake (folder baseName : string) (f : walkedFile) : bool :=
  String.eqb (wfFolderPath f) folder && String.eqb (wfBaseName f) baseName.

Fixpoint mediaIndexFrom (i : nat) (folder baseName : string) (media : list walkedFile) : option nat :=
  match media with
  | [] => None
  | f :: media =>
      match mediaIndexFrom (S i) folder baseName media with
      | Some j => Some j
      | None => if namesake folder baseName f then Some i else None
      end
  end.

Definition mediaIndex (media : list walkedFile) (folder baseName : string) : option nat :=
  mediaIndexFrom 0 folder baseName media.

(** The base names of the media files of a folder. *)
Definition mediaNames (media : list walkedFile) (folder : string) : list string :=
  map wfBaseName (List.filter (fun f => String.eqb (wfFolderPath f) folder) media).

(** The position of the media file of the folder whose name is the longest
    prefix of a base name. *)
Definition prefixIndex (media : list walkedFile) (folder baseName : string) : option nat :=
  let best := longest baseName (mediaNames media folder) in
  if String.eqb best "" then None else mediaIndex media folder best.

Inductive owner : Type :=
| OwnMedia (index : nat)
| OwnSeason (season : Z)
| OwnDirectory.

#[export] Instance owner_eq_dec : EqDecision owner.
Proof. solve_decision. Defined.

#[export] Instance OwnMedia_inj : Inj (=) (=) OwnMedia.
Proof. by intros a b [= ->]. Qed.

#[export] Instance OwnSeason_inj : Inj (=) (=) OwnSeason.
Proof. by intros a b [= ->]. Qed.

Definition trickplayIndex (media : list walkedFile) (file : walkedFile) : option nat :=
  match fcTrickplay (wfContext file) with
  | Some trickplay => mediaIndex media (tkOwnerFolder trickplay) (tkBaseName trickplay)
  | None => None
  end.

Definition seasonOwner (directoryType : DirectoryType) (file : walkedFile) : option Z :=
  match seasonNamedBy directoryType file with
  | Some season => Some season
  | None => fcSeasonNumber (wfContext file)
  end.

(** The media file whose previews a file's folder holds, else the one whose name
    its own name extends, else the season it names or lies in, else the directory. *)
Definition ownerOf (directoryType : DirectoryType) (media : list walkedFile) (file : walkedFile) : owner :=
  match trickplayIndex media file with
  | Some i => OwnMedia i
  | None =>
      match prefixIndex media (wfFolderPath file) (wfBaseName file) with
      | Some i => OwnMedia i
      | None => match seasonOwner directoryType file with Some season => OwnSeason season | None => OwnDirectory end
      end
  end.

(** ** Positions *)

Lemma mediaIndexFrom_snoc i folder baseName media f :
  mediaIndexFrom i folder baseName (media ++ [f]) =
  if namesake folder baseName f then Some (i + length media) else mediaIndexFrom i folder baseName media.
Proof.
  revert i. induction media as [|g media IH]; intros i; simpl.
  - by rewrite Nat.add_0_r.
  - rewrite IH. destruct (namesake folder baseName f); [|done]. by rewrite Nat.add_succ_r.
Qed.

Lemma mediaIndex_snoc media f folder baseName :
  mediaIndex (media ++ [f]) folder baseName =
  if namesake folder baseName f then Some (length media) else mediaIndex media folder baseName.
Proof. apply mediaIndexFrom_snoc. Qed.

Lemma mediaIndex_bound media folder baseName i : mediaIndex media folder baseName = Some i -> (i < length media)%nat.
Proof.
  induction media as [|f media IH] using rev_ind; [done|]. rewrite mediaIndex_snoc, length_app. simpl.
  destruct (namesake _ _ _); [intros [= <-]; lia|]. intros Hi%IH. lia.
Qed.

Lemma mediaIndex_names media folder baseName :
  is_Some (mediaIndex media folder baseName) <-> baseName ∈ mediaNames media folder.
Proof.
  unfold mediaNames. induction media as [|f media IH] using rev_ind.
  { split; [by intros [? ?]|by intros ?%elem_of_nil]. }
  rewrite mediaIndex_snoc, List.filter_app, map_app, elem_of_app, <- IH. unfold namesake. simpl.
  destruct (String.eqb_spec (wfFolderPath f) folder) as [Hf|Hf]; cbn [andb map].
  - rewrite list_elem_of_singleton. destruct (String.eqb_spec (wfBaseName f) baseName) as [->|Hb].
    + split; [by right|by eexists].
    + split; [by left|]. intros [?| ->]; done.
  - split; [by left|]. by intros [?|?%elem_of_nil].
Qed.

(** An owner that is a media file is one of them. *)
Lemma ownerOf_bound directoryType media file i : ownerOf directoryType media file = OwnMedia i -> (i < length media)%nat.
Proof.
  unfold ownerOf, trickplayIndex, prefixIndex. repeat case_match; try done; intros [= <-]; by eapply mediaIndex_bound.
Qed.

(** * The ledger *)

Section owners.
Context `{Regexp, MapOrder, URLs, XML, Host, Images, Accounts}.
Variables (rootPath folderName : string) (directoryType : DirectoryType) (registry : SidecarRegistry).

(** The candidates of a state are the given media files, found by name, and a
    season is on file only if it holds something. *)
Record indexed (media : list walkedFile) (s : scanner) : Prop := {
  ix_files : map cdFile (snMediaCandidates s) = media;
  ix_names folder baseName : default ∅ (snMediaBaseNames s !! folder) !! baseName = mediaIndex media folder baseName;
  ix_paths p : p ∈ snMediaRelativePaths s <-> p ∈ map wfRelativePath media;
  ix_seasons : map_Forall (fun _ l => l <> []) (snSeasonSidecars s);
}.

Lemma indexed_length media s : indexed media s -> length (snMediaCandidates s) = length media.
Proof. intros Hs. by rewrite <- (ix_files _ _ Hs), length_map. Qed.

(** What the scanner has on file for an owner. *)
Definition filed (s : scanner) (o : owner) : list SidecarFile :=
  match o with
  | OwnMedia i => default [] (cdSidecars <$> snMediaCandidates s !! i)
  | OwnSeason season => default [] (snSeasonSidecars s !! season)
  | OwnDirectory => snDirectorySidecars s
  end.

(** States that differ in what neither the index nor the ledger looks at. *)
Record same_ledger (s s' : scanner) : Prop := {
  sl_files : map cdFile (snMediaCandidates s') = map cdFile (snMediaCandidates s);
  sl_sidecars : map cdSidecars (snMediaCandidates s') = map cdSidecars (snMediaCandidates s);
  sl_names : snMediaBaseNames s' = snMediaBaseNames s;
  sl_paths : snMediaRelativePaths s' = snMediaRelativePaths s;
  sl_season : snSeasonSidecars s' = snSeasonSidecars s;
  sl_directory : snDirectorySidecars s' = snDirectorySidecars s;
  sl_contexts : snContexts s' = snContexts s;
}.

Lemma same_ledger_refl s : same_ledger s s.
Proof. by constructor. Qed.

Lemma same_ledger_trans s1 s2 s3 : same_ledger s1 s2 -> same_ledger s2 s3 -> same_ledger s1 s3.
Proof. intros [] []. constructor; congruence. Qed.

Lemma same_ledger_indexed media s s' : same_ledger s s' -> indexed media s -> indexed media s'.
Proof.
  intros [Hf _ Hn Hp Hs _ _] [I1 I2 I3 I4].
  constructor; [by rewrite Hf|by rewrite Hn|by rewrite Hp|by rewrite Hs].
Qed.

Lemma same_ledger_filed s s' o : same_ledger s s' -> filed s' o = filed s o.
Proof.
  intros [_ Hs _ _ Ha Hd _]. destruct o as [i|n|]; simpl; [|by rewrite Ha|done].
  assert (forall l, cdSidecars <$> l !! i = map cdSidecars l !! i) as E by (intros l; symmetry; apply list_lookup_fmap).
  by rewrite !E, Hs.
Qed.

Lemma same_ledger_warnf text s : same_ledger s (warnf text s).
Proof. by constructor. Qed.

(** ** Finding the media file of a name *)

Lemma matchMediaPrefix_index media folder baseName s : indexed media s ->
  (fun found => indexOf folder found.1 s) <$> matchMediaPrefix folder baseName s = prefixIndex media folder baseName /\
  forall found, matchMediaPrefix folder baseName s = Some found -> (indexOf folder found.1 s < length media)%nat.
Proof.
  intros Hs. unfold matchMediaPrefix, prefixIndex, indexOf. set (candidates := default ∅ _).
  assert (forall c, is_Some (candidates !! c) <-> c ∈ mediaNames media folder) as Hkeys.
  { intros c. subst candidates. rewrite (ix_names _ _ Hs). apply mediaIndex_names. }
  assert (longest baseName (map fst (range_map ["matchMediaPrefix"; folder; baseName] candidates)) =
          longest baseName (mediaNames media folder)) as Hl.
  { apply longest_order. intros c. rewrite <- Hkeys, list_elem_of_fmap. split.
    - intros ([k v] & -> & Hk%elem_of_range_map). by eexists.
    - intros [v Hv]. exists (c, v). split; [done|]. by apply elem_of_range_map. }
  unfold longest in Hl at 1. rewrite Hl. destruct (bool_decide_reflect (candidates = ∅)) as [He|_].
  - assert (longest baseName (mediaNames media folder) = "") as ->; [|done].
    destruct (longest_spec baseName (mediaNames media folder)) as [[?|[Hin _]] _]; [done|].
    apply Hkeys in Hin as [v Hv]. by rewrite He in Hv.
  - destruct (String.eqb_spec (longest baseName (mediaNames media folder)) "") as [_|Hne]; [done|].
    destruct (longest_spec baseName (mediaNames media folder)) as [[?|[Hin _]] _]; [done|].
    apply Hkeys in Hin as [i Hi]. subst candidates. cbn [fmap option_fmap option_map fst].
    assert (mediaIndex media folder (longest baseName (mediaNames media folder)) = Some i) as Hm
      by (by rewrite <- (ix_names _ _ Hs)).
    rewrite Hi, Hm. split; [done|]. intros found [= <-]. cbn [fst]. rewrite Hi. by eapply mediaIndex_bound.
Qed.

Lemma withCandidate_Done index f s : (index < length (snMediaCandidates s))%nat ->
  withCandidate index f s = Done (s {{ snMediaCandidates ::= alter f index }}).
Proof. intros Hi. unfold withCandidate. by rewrite (proj2 (Nat.ltb_lt _ _) Hi). Qed.

Lemma alter_map {A B} (g : A -> B) (f : A -> A) i l : (forall x, g (f x) = g x) -> map g (alter f i l) = map g l.
Proof.
  intros Hf. revert i. induction l as [|x l IH]; intros [|i]; [done|done| |].
  - change (g (f x) :: map g l = g x :: map g l). by rewrite Hf.
  - change (g x :: map g (alter f i l) = g x :: map g l). by rewrite IH.
Qed.

(** ** Filing *)

(** A state that has one more sidecar on file for one owner. *)
Definition files_one (media : list walkedFile) (s : scanner) (o : owner) (sidecar : SidecarFile) (s' : scanner) : Prop :=
  indexed media s' /\ snContexts s' = snContexts s /\
  forall o', filed s' o' = filed s o' ++ if decide (o' = o) then [sidecar] else [].

Lemma file_media media s i sidecar : indexed media s -> (i < length media)%nat ->
  exists s', withCandidate i (addSidecar sidecar) s = Done s' /\ files_one media s (OwnMedia i) sidecar s'.
Proof.
  intros Hs Hi. eexists. rewrite withCandidate_Done by (by rewrite (indexed_length _ _ Hs)). split; [done|].
  split; [|split; [done|]].
  - destruct Hs as [I1 I2 I3 I4]. constructor; [|exact I2|exact I3|exact I4]. cbn. by rewrite alter_map.
  - intros [j|n|]; cbn [filed]; rewrite ?decide_False, ?app_nil_r by done; [|done|done].
    change (snMediaCandidates (s {{ snMediaCandidates ::= alter (addSidecar sidecar) i }}))
      with (alter (addSidecar sidecar) i (snMediaCandidates s)).
    destruct (decide (OwnMedia j = OwnMedia i)) as [[= ->]|Hne].
    + rewrite list_lookup_alter_eq. destruct (snMediaCandidates s !! i) as [c|] eqn:Hc; [done|].
      apply lookup_ge_None in Hc. rewrite (indexed_length _ _ Hs) in Hc. lia.
    + rewrite list_lookup_alter_ne, app_nil_r by congruence. done.
Qed.

Lemma file_season media s season sidecar : indexed media s ->
  files_one media s (OwnSeason season) sidecar (addSeasonSidecar season sidecar s).
Proof.
  intros [I1 I2 I3 I4]. split; [|split; [done|]].
  { constructor; [exact I1|exact I2|exact I3|]. apply map_Forall_insert_2; [by destruct (default _ _)|exact I4]. }
  intros [j|n|]; cbn [filed]; rewrite ?decide_False, ?app_nil_r by done; [done| |done].
  change (snSeasonSidecars (addSeasonSidecar season sidecar s))
    with (<[season := default [] (snSeasonSidecars s !! season) ++ [sidecar]]> (snSeasonSidecars s)).
  destruct (decide (OwnSeason n = OwnSeason season)) as [[= ->]|Hne].
  - by rewrite lookup_insert_eq.
  - rewrite lookup_insert_ne, app_nil_r by congruence. done.
Qed.

Lemma file_directory media s sidecar : indexed media s ->
  files_one media s OwnDirectory sidecar (s {{ snDirectorySidecars ::= fun l => l ++ [sidecar] }}).
Proof.
  intros [I1 I2 I3 I4]. split; [by constructor|split; [done|]].
  intros [j|n|]; cbn [filed]; rewrite ?decide_False, ?app_nil_r by done; [done|done|]. by rewrite decide_True.
Qed.

Lemma files_one_after media s s1 o sidecar s' :
  same_ledger s s1 -> files_one media s1 o sidecar s' -> files_one media s o sidecar s'.
Proof.
  intros Hl (Hi & Hc & Hf). split; [done|]. split; [by rewrite Hc, (sl_contexts _ _ Hl)|].
  intros o'. by rewrite Hf, (same_ledger_filed _ _ _ Hl).
Qed.

Lemma trickplayOwnerOf_spec media file s : indexed media s ->
  same_ledger s (trickplayOwnerOf file s).1 /\ (trickplayOwnerOf file s).2 = trickplayIndex media file.
Proof.
  intros Hs. unfold trickplayOwnerOf, trickplayIndex. destruct (fcTrickplay (wfContext file)) as [tk|]; [|by split].
  rewrite (ix_names _ _ Hs). destruct (mediaIndex _ _ _) as [i|]; [by split|]. by destruct (bool_decide _).
Qed.

(** A sidecar is filed with the owner of its file, and nowhere else. *)
Lemma fileSidecar_spec media file sidecar s : indexed media s ->
  exists s', fileSidecar directoryType file sidecar s = Done s' /\
    files_one media s (ownerOf directoryType media file) sidecar s'.
Proof.
  intros Hs. unfold fileSidecar, ownerOf. destruct (trickplayOwnerOf_spec media file s Hs) as [Hl Ht].
  destruct (trickplayOwnerOf file s) as [s1 tk]. cbn [fst snd] in *. subst tk.
  pose proof (same_ledger_indexed _ _ _ Hl Hs) as Hs1.
  assert (forall o s', files_one media s1 o sidecar s' -> files_one media s o sidecar s') as Hafter
    by (intros o s'; by apply files_one_after).
  destruct (trickplayIndex media file) as [i|] eqn:Hi.
  { destruct (file_media media s1 i sidecar Hs1) as (s' & Hw & Hf); [|eauto].
    unfold trickplayIndex in Hi. case_match; [|done]. by eapply mediaIndex_bound. }
  destruct (matchMediaPrefix_index media (wfFolderPath file) (wfBaseName file) s1 Hs1) as [Hp Hb]. rewrite <- Hp.
  destruct (matchMediaPrefix _ _ s1) as [[t suffix]|]; cbn [fmap option_fmap option_map fst].
  { destruct (file_media media s1 (indexOf (wfFolderPath file) t s1) sidecar Hs1) as (s' & Hw & Hf); [by apply (Hb _ eq_refl)|eauto]. }
  unfold seasonOwner. destruct (seasonNamedBy directoryType file) as [n|]; [eexists; split; [done|]; by apply Hafter, file_season|].
  destruct (fcSeasonNumber (wfContext file)) as [n|]; [eexists; split; [done|]; by apply Hafter, file_season|].
  eexists. split; [done|]. by apply Hafter, file_directory.
Qed.
End owners.
