(* ===== verification/ScanRun.v ===== *)
(** The three passes of [Scan] put together: a scan always answers, and what it
    answers is the tree's files, each recorded once and with its owner. *)
From stdpp Require Import strings list gmap sorting.
From Stdlib Require Import Ascii ZArith Lia.
From coqutil Require Import Datatypes.RecordSetters.
Import DoubleBraceUpdate.
From S2P Require Import Prelude GoPath Sidecar Links Tokens Parse Model Xml Nfo ScanModel Scan ScanWalk ScanOwners.
#[local] Open Scope go_scope.

Section scan.
Context `{Regexp, MapOrder, URLs, XML, Host, Images, Accounts}.
Variables (rootPath folderName : string) (directoryType : DirectoryType) (registry : SidecarRegistry).

(** * The sidecar of a file *)

(** The record of an image, whose header is read from the disk whatever the
    state. *)
Definition imageOf (file : walkedFile) : option ImageInfo :=
  if bool_decide (wfClass file = classImage) then
    match readImageInfo (absolutePath rootPath (wfRelativePath file)) with
    | Err err => Some {| iiCodec := ""; iiWidth := 0; iiHeight := 0; iiError := err |}
    | Ok imageInfo => Some imageInfo
    end
  else None.

Definition sidecarOf (file : walkedFile) : SidecarFile :=
  let sidecarType := sidecarTypeFor registry file in
  {| scRelativePath := wfRelativePath file; scFileName := wfFileName file; scExtension := wfExtension file;
     scSizeBytes := wfSizeBytes file; scModifiedAt := wfModifiedAt file; scType := sidecarType;
     scCategory := CategoryOf registry sidecarType; scStat := wfStat file; scImage := imageOf file;
     scTrickplay := trickplayInfoFor file |}.

Lemma sidecarFor_spec file s :
  same_ledger s (sidecarFor rootPath registry file s).1 /\ (sidecarFor rootPath registry file s).2 = sidecarOf file.
Proof.
  unfold sidecarFor, sidecarOf, imageInfoFor, imageOf. destruct (bool_decide _); cbn [negb];
    [|split; [apply same_ledger_refl|done]].
  destruct (readImageInfo _) as [info|err]; split; first [done|apply same_ledger_refl|apply same_ledger_warnf].
Qed.

(** * Reading NFO files *)

Lemma addExternalLinks_ledger links s : same_ledger s (addExternalLinks links s).
Proof.
  unfold addExternalLinks. revert s. induction links as [|l links IH]; intros s; [apply same_ledger_refl|]. simpl.
  eapply same_ledger_trans; [|apply IH]. unfold addExternalLink. destruct (bool_decide _); by constructor.
Qed.

Lemma readNFO_ledger file s : same_ledger s (readNFO rootPath file s).1.
Proof. unfold readNFO. destruct (ReadFile _); [apply same_ledger_refl|apply same_ledger_warnf]. Qed.

(** An NFO file is absorbed without touching the index or the ledger. *)
Lemma absorbNFO_spec media file s : indexed media s ->
  exists s', absorbNFO rootPath file s = Done s' /\ same_ledger s s'.
Proof.
  intros Hs. unfold absorbNFO. pose proof (readNFO_ledger file s) as Hr.
  destruct (readNFO rootPath file s) as [s1 attributes]. cbn [fst] in Hr. pose proof (same_ledger_indexed _ _ _ Hr Hs) as Hs1.
  destruct (matchMediaPrefix_index media (wfFolderPath file) (wfBaseName file) s1 Hs1) as [_ Hb].
  destruct (matchMediaPrefix _ _ s1) as [[t suffix]|].
  - specialize (Hb _ eq_refl). cbn [fst] in Hb. rewrite withCandidate_Done by (by rewrite (indexed_length _ _ Hs1)).
    eexists. split; [done|]. eapply same_ledger_trans; [exact Hr|].
    constructor; [..|done|done|done|done|done]; cbn; by apply alter_map.
  - eexists. split; [done|]. eapply same_ledger_trans; [exact Hr|]. eapply same_ledger_trans; [|apply addExternalLinks_ledger].
    destruct (_ && _); by constructor.
Qed.

(** * The second pass *)

Definition isRecorded (media : list walkedFile) (file : walkedFile) : bool :=
  bool_decide (wfRelativePath file ∈ map wfRelativePath media).

(** The files that are sidecars, and those of them an owner has. *)
Definition sidecarFiles (media files : list walkedFile) : list walkedFile :=
  List.filter (fun f => negb (isRecorded media f)) files.

Definition ownedBy (media : list walkedFile) (o : owner) (files : list walkedFile) : list walkedFile :=
  List.filter (fun f => bool_decide (o = ownerOf directoryType media f)) files.

Definition ledger_after (media files : list walkedFile) (s s' : scanner) : Prop :=
  indexed media s' /\ snContexts s' = snContexts s /\
  forall o, filed s' o = filed s o ++ map sidecarOf (ownedBy media o (sidecarFiles media files)).

Lemma classifySidecar_spec media file s : indexed media s ->
  exists s', classifySidecar rootPath directoryType registry s file = Done s' /\ ledger_after media [file] s s'.
Proof.
  intros Hs. unfold classifySidecar, ledger_after, sidecarFiles, isRecorded. cbn [List.filter].
  rewrite (bool_decide_ext _ _ (ix_paths _ _ Hs (wfRelativePath file))).
  destruct (bool_decide (wfRelativePath file ∈ _)); cbn [negb].
  { exists s. split; [done|]. split; [done|]. split; [done|]. intros o. simpl. by rewrite app_nil_r. }
  destruct (sidecarFor_spec file s) as [Hl He]. destruct (sidecarFor rootPath registry file s) as [s1 sidecar].
  cbn [fst snd] in *. subst sidecar. pose proof (same_ledger_indexed _ _ _ Hl Hs) as Hs1.
  assert (exists s2, (if bool_decide (wfClass file = classNFO) then absorbNFO rootPath file s1 else Done s1) = Done s2 /\
    same_ledger s1 s2) as (s2 & -> & Hl2).
  { destruct (bool_decide _); [by eapply absorbNFO_spec|]. exists s1. split; [done|apply same_ledger_refl]. }
  cbn [obind]. pose proof (same_ledger_indexed _ _ _ Hl2 Hs1) as Hs2.
  destruct (fileSidecar_spec directoryType media file (sidecarOf file) s2 Hs2) as (s3 & Hf & Hone).
  apply (files_one_after _ _ _ _ _ _ (same_ledger_trans _ _ _ Hl Hl2)) in Hone as (Hi & Hc & Hfiled).
  exists s3. split; [done|]. split; [done|]. split; [done|]. intros o. rewrite Hfiled. f_equal. unfold ownedBy. cbn [List.filter].
  destruct (decide (o = ownerOf directoryType media file)) as [Ho|Ho].
  - by rewrite bool_decide_eq_true_2.
  - by rewrite bool_decide_eq_false_2.
Qed.

Lemma ledger_after_app media files file s s1 s2 :
  ledger_after media files s s1 -> ledger_after media [file] s1 s2 -> ledger_after media (files ++ [file]) s s2.
Proof.
  intros (I1 & C1 & F1) (I2 & C2 & F2). split; [done|]. split; [congruence|]. intros o. rewrite F2, F1, <- app_assoc.
  f_equal. unfold ownedBy, sidecarFiles. by rewrite !List.filter_app, map_app.
Qed.

Lemma classifySidecars_loop media files s : indexed media s ->
  exists s', ofold (classifySidecar rootPath directoryType registry) s files = Done s' /\ ledger_after media files s s'.
Proof.
  intros Hs. induction files as [|f files IH] using rev_ind.
  - exists s. split; [done|]. split; [done|]. split; [done|]. intros o. simpl. by rewrite app_nil_r.
  - destruct IH as (s1 & Hf & Hl). rewrite ofold_app, Hf. cbn [obind ofold].
    destruct (classifySidecar_spec media f s1) as (s2 & Hc & Hl2); [by destruct Hl|]. rewrite Hc. cbn [obind].
    exists s2. split; [done|]. by eapply ledger_after_app.
Qed.

(** * The first pass *)

Lemma videoAttributesFor_total file isMediaFile s :
  exists warnings video, videoAttributesFor folderName directoryType file isMediaFile s =
    Done (s {{ snWarnings ::= fun w => w ++ warnings }}, video).
Proof.
  assert (s = s {{ snWarnings ::= fun w => w ++ [] }}) as Hsame by (destruct s; cbn; by rewrite app_nil_r).
  unfold videoAttributesFor.
  destruct (parseVideoName_core (wfBaseName file) folderName (negb (String.eqb directoryType TypeTV))) as (parts & -> & _).
  cbn [obind]. destruct (String.eqb directoryType TypeMusicVideo).
  { destruct (parseArtistAndTitle_Done (wfBaseName file)) as [[artist title] ->]. cbn [obind]. exists []. rewrite <- Hsame. by eexists. }
  destruct (negb _); [exists []; rewrite <- Hsame; by eexists|].
  destruct (parseEpisodeName_core (wfBaseName file)) as (episode & -> & _). cbn [obind]. unfold episodeNumbering.
  destruct (Matched episode); [exists []; rewrite <- Hsame; by eexists|].
  destruct (fcSeasonNumber (wfContext file)); destruct isMediaFile;
    first [eexists [_], _; reflexivity|exists []; rewrite <- Hsame; by eexists].
Qed.

(** Nothing is on file yet. *)
Definition blank (s : scanner) : Prop := forall o, filed s o = [].

Record identified (media : list walkedFile) (s s' : scanner) : Prop := {
  id_indexed : indexed media s';
  id_blank : blank s';
  id_files : snFiles s' = snFiles s;
  id_contexts : snContexts s' = snContexts s;
}.

Lemma identify_media media file s video :
  indexed media s -> blank s ->
  let candidate := {| cdFile := file; cdVideo := video; cdSidecars := []; cdNfoAttrs := None; cdEpisodeIDs := []; cdWarnings := [] |} in
  let s' := s {{ snMediaCandidates ::= fun l => l ++ [candidate];
                 snMediaRelativePaths ::= fun paths => {[wfRelativePath file]} ∪ paths }} in
  identified (media ++ [file]) s (s' {{ snMediaBaseNames ::= fun names =>
    <[wfFolderPath file := <[wfBaseName file := length (snMediaCandidates s') - 1]> (default ∅ (names !! wfFolderPath file))]> names }}).
Proof.
  intros [If In Ip Is] Hb candidate s'. constructor; [|..|done|done].
  - constructor.
    + change (map cdFile (snMediaCandidates s ++ [candidate]) = media ++ [file]). by rewrite map_app, If.
    + intros folder baseName. rewrite mediaIndex_snoc.
      change (snMediaCandidates s') with (snMediaCandidates s ++ [candidate]). rewrite length_app. simpl length.
      rewrite Nat.add_sub, <- (length_map cdFile), If.
      change (default ∅ (<[wfFolderPath file := <[wfBaseName file := length media]>
        (default ∅ (snMediaBaseNames s !! wfFolderPath file))]> (snMediaBaseNames s) !! folder) !! baseName =
        (if namesake folder baseName file then Some (length media) else mediaIndex media folder baseName)).
      unfold namesake. destruct (String.eqb_spec (wfFolderPath file) folder) as [<-|Hf].
      * rewrite lookup_insert_eq. cbn [default]. destruct (String.eqb_spec (wfBaseName file) baseName) as [<-|Hn].
        -- apply lookup_insert_eq.
        -- change (<[wfBaseName file := length media]> (default ∅ (snMediaBaseNames s !! wfFolderPath file)) !! baseName =
                   mediaIndex media (wfFolderPath file) baseName). by rewrite lookup_insert_ne, In.
      * by rewrite lookup_insert_ne, In.
    + intros p. change (p ∈ {[wfRelativePath file]} ∪ snMediaRelativePaths s <-> p ∈ map wfRelativePath (media ++ [file])).
      rewrite map_app. change (map wfRelativePath [file]) with [wfRelativePath file]. rewrite elem_of_app, elem_of_union, elem_of_singleton, Ip, list_elem_of_singleton. tauto.
    + exact Is.
  - intros [i|n|]; [|apply (Hb (OwnSeason n))|apply (Hb OwnDirectory)].
    change (default [] (cdSidecars <$> (snMediaCandidates s ++ [candidate]) !! i) = []).
    pose proof (Hb (OwnMedia i)) as Hi. cbn [filed] in Hi. destruct (decide (i < length (snMediaCandidates s))%nat) as [Hl|Hl].
    + by rewrite lookup_app_l.
    + rewrite lookup_app_r by lia. by destruct (i - length (snMediaCandidates s))%nat.
Qed.

Lemma identifyMediaFile_spec media file s : indexed media s -> blank s ->
  exists s', identifyMediaFile folderName directoryType s file = Done s' /\
    identified (media ++ if isMedia file then [file] else []) s s'.
Proof.
  intros Hs Hb. unfold identifyMediaFile. destruct (isMedia file); cbn [negb].
  - destruct (videoAttributesFor_total file true s) as (w & video & ->). cbn [obind]. eexists. split; [done|].
    destruct (identify_media media file (s {{ snWarnings ::= fun ws => ws ++ w }}) video) as [J1 J2 J3 J4];
      [by destruct Hs|exact Hb|]. by constructor.
  - exists s. rewrite app_nil_r. split; [done|]. by constructor.
Qed.

Lemma identifyMediaFiles_loop files s : indexed [] s -> blank s ->
  exists s', ofold (identifyMediaFile folderName directoryType) s files = Done s' /\ identified (List.filter isMedia files) s s'.
Proof.
  intros Hs Hb. induction files as [|f files IH] using rev_ind; [exists s; by split|].
  destruct IH as (s1 & Hf & [J1 J2 J3 J4]). rewrite ofold_app, Hf. cbn [obind ofold].
  destruct (identifyMediaFile_spec _ f s1 J1 J2) as (s2 & -> & [K1 K2 K3 K4]). cbn [obind]. exists s2. split; [done|].
  rewrite List.filter_app. cbn [List.filter].
  constructor; [|done|congruence|congruence]. by destruct (isMedia f).
Qed.

Lemma newScanner_indexed s : (exists folders files, walkedTo newScanner s folders files) -> indexed [] s /\ blank s.
Proof.
  intros (folders & files & owners & warnings & _ & ->). split; [constructor; [done| | |apply map_Forall_empty]|by intros [[|i]|n|]].
  - intros folder baseName. change (default ∅ ((∅ : gmap string (gmap string nat)) !! folder) !! baseName = None).
    by rewrite lookup_empty.
  - intros p. change (p ∈ (∅ : gset string) <-> p ∈ []). by rewrite elem_of_empty, elem_of_nil.
Qed.

(** * Seasons *)

Lemma namedSeason_fold folderNames seasons n :
  is_Some (foldl namedSeason folderNames seasons !! n) <-> is_Some (folderNames !! n) \/ n ∈ seasons.
Proof.
  revert folderNames. induction seasons as [|k seasons IH]; intros folderNames; simpl.
  - split; [by left|]. by intros [?|?%elem_of_nil].
  - rewrite IH, elem_of_cons. unfold namedSeason. destruct (folderNames !! k) as [name|] eqn:Hk.
    + split; [by intros [?|?]; [left|right; right]|]. intros [?|[->|?]]; [by left|left; by eexists|by right].
    + destruct (decide (n = k)) as [->|Hne].
      * rewrite lookup_insert_eq. split; [by right; left|]. left. by eexists.
      * rewrite lookup_insert_ne by done. split; [by intros [?|?]; [left|right; right]|].
        intros [?|[?|?]]; [by left|done|by right].
Qed.

Lemma seasonNumbers_sidecars view s n : is_Some (snSeasonSidecars s !! n) -> is_Some (seasonNumbers view s !! n).
Proof.
  intros [l Hl]. unfold seasonNumbers. apply namedSeason_fold. right. apply list_elem_of_fmap.
  exists (n, l). split; [done|]. by apply elem_of_map_to_list.
Qed.

Lemma sortedSeasonNumbers_spec folderNames :
  StronglySorted Z.lt (sortedSeasonNumbers folderNames) /\
  forall n, n ∈ sortedSeasonNumbers folderNames <-> is_Some (folderNames !! n).
Proof.
  assert (NoDup (sortedSeasonNumbers folderNames)) as Hnd.
  { unfold sortedSeasonNumbers. rewrite merge_sort_Permutation. apply NoDup_fst_map_to_list. }
  assert (forall n, n ∈ sortedSeasonNumbers folderNames <-> is_Some (folderNames !! n)) as Hin.
  { intros n. unfold sortedSeasonNumbers. rewrite merge_sort_Permutation, list_elem_of_fmap. split.
    - intros ([k v] & -> & Hk%elem_of_map_to_list). by eexists.
    - intros [v Hv]. exists (n, v). split; [done|]. by apply elem_of_map_to_list. }
  split; [|done]. assert (StronglySorted Z.le (sortedSeasonNumbers folderNames)) as Hs by (by apply (StronglySorted_merge_sort Z.le)).
  clear Hin. induction Hs as [|n l Hs IH Hle]; [constructor|]. apply NoDup_cons in Hnd as [Hni Hnd].
  constructor; [by apply IH|]. rewrite Forall_forall in Hle |- *. intros k Hk. specialize (Hle k Hk).
  assert (n <> k) by (by intros ->). lia.
Qed.

(** Season numbers have at most four digits, so int32 holds them. *)
Definition season_ok (context : folderContext) : Prop := forall n, fcSeasonNumber context = Some n -> (0 <= n <= 9999)%Z.

Lemma childContext_season parent name context : season_ok context -> season_ok (childContext parent name context).
Proof.
  intros Hc n. unfold childContext.
  assert (forall c, fcSeasonNumber (trickplayOf parent name c) = fcSeasonNumber c) as ->
    by (intros c; unfold trickplayOf; repeat case_match; done).
  assert (forall c, fcSeasonNumber (discOf name c) = fcSeasonNumber c) as ->
    by (intros c; unfold discOf; by case_match).
  assert (forall c, fcSeasonNumber (extraOf name c) = fcSeasonNumber c) as ->
    by (intros c; unfold extraOf; repeat case_match; done).
  unfold seasonOf. destruct (fcSeasonNumber context) as [k|] eqn:Hk; [intros Hn; by apply Hc|].
  destruct (parseSeasonFolder name) as [[k abbreviated]|] eqn:Hp; [|by rewrite Hk].
  cbn. intros [= <-]. by eapply parseSeasonFolder_range.
Qed.

Lemma filesUnder_season n names context :
  season_ok context -> Forall (fun f => season_ok (wfContext f)) (filesUnder names context n).
Proof.
  revert names context. induction n as [name info|name err|name children IH] using node_induction; intros names context Hc; simpl.
  - destruct info; [|constructor]. destruct (isIgnoredFile name); [constructor|]. by apply Forall_singleton.
  - destruct (isIgnoredFolder name); constructor.
  - destruct (isIgnoredFolder name); [constructor|]. apply Forall_forall.
    intros f (c & Hc1%list_elem_of_In & Hf%list_elem_of_In)%list_elem_of_In%in_flat_map. rewrite Forall_forall in IH.
    pose proof (IH c Hc1 (names ++ [name]) _ (childContext_season (relative names) name context Hc)) as Hall.
    rewrite Forall_forall in Hall. by apply Hall.
Qed.

Lemma walkedFiles_season root f : f ∈ walkedFiles root -> season_ok (wfContext f).
Proof.
  intros (c & _ & Hf%list_elem_of_In)%list_elem_of_In%in_flat_map.
  pose proof (filesUnder_season c [] noContext ltac:(done)) as Hall. rewrite Forall_forall in Hall. by apply Hall.
Qed.

Lemma foldersUnder_season n names context :
  season_ok context -> Forall (fun f => season_ok f.2) (foldersUnder names context n).
Proof.
  revert names context. induction n as [name info|name err|name children IH] using node_induction; intros names context Hc; simpl.
  - constructor.
  - destruct (isIgnoredFolder name); [constructor|]. by apply Forall_singleton, childContext_season.
  - destruct (isIgnoredFolder name); [constructor|]. constructor; [by apply childContext_season|]. apply Forall_forall.
    intros f (c & Hc1%list_elem_of_In & Hf%list_elem_of_In)%list_elem_of_In%in_flat_map. rewrite Forall_forall in IH.
    pose proof (IH c Hc1 (names ++ [name]) _ (childContext_season (relative names) name context Hc)) as Hall.
    rewrite Forall_forall in Hall. by apply Hall.
Qed.

Lemma enter_season folders contexts :
  map_Forall (fun _ c => season_ok c) contexts -> Forall (fun f => season_ok f.2) folders ->
  map_Forall (fun _ c => season_ok c) (foldl enter contexts folders).
Proof.
  revert contexts. induction folders as [|f folders IH]; intros contexts Hc; [done|]. intros [Hf Hfs]%Forall_cons. simpl.
  apply IH; [|done]. by apply map_Forall_insert_2.
Qed.

Lemma seasonOwner_range media file n :
  season_ok (wfContext file) -> ownerOf directoryType media file = OwnSeason n -> (0 <= n <= 9999)%Z.
Proof.
  intros Hc. unfold ownerOf. destruct (trickplayIndex media file); [done|]. destruct (prefixIndex _ _ _); [done|].
  unfold seasonOwner, seasonNamedBy. destruct (negb _).
  - destruct (fcSeasonNumber (wfContext file)) eqn:Hs; [|done]. intros [= <-]. by apply Hc.
  - destruct (parseSeasonArtworkName _) eqn:Ha; [intros [= <-]; by eapply parseSeasonArtworkName_range|].
    destruct (fcSeasonNumber (wfContext file)) eqn:Hs; [|done]. intros [= <-]. by apply Hc.
Qed.

Lemma declaredSeason_fold (P : Z -> Prop) contexts folderNames :
  (forall c n, c ∈ contexts -> fcSeasonNumber c = Some n -> P n) -> (forall n, is_Some (folderNames !! n) -> P n) ->
  forall n, is_Some (foldl declaredSeason folderNames contexts !! n) -> P n.
Proof.
  revert folderNames. induction contexts as [|c contexts IH]; intros folderNames Hc Hf; [done|]. simpl.
  apply IH; [intros d n Hd; apply Hc; by right|]. unfold declaredSeason. intros n.
  destruct (fcSeasonNumber c) as [k|] eqn:Hk; [|apply Hf]. destruct (String.eqb _ _); [apply Hf|].
  destruct (decide (n = k)) as [->|Hne]; [intros _; apply (Hc c); [left|done]|].
  rewrite lookup_insert_ne by done. apply Hf.
Qed.

(** Every season of the result has a number of at most four digits. *)
Lemma seasonNumbers_range view s n :
  map_Forall (fun _ c => season_ok c) (snContexts s) -> (forall k, is_Some (snSeasonSidecars s !! k) -> (0 <= k <= 9999)%Z) ->
  is_Some (seasonNumbers view s !! n) -> (0 <= n <= 9999)%Z.
Proof.
  intros Hc Hs. unfold seasonNumbers. intros [Hd|Hn]%namedSeason_fold.
  - revert n Hd. apply declaredSeason_fold; [|by intros n; rewrite lookup_empty; intros [? ?]].
    intros c n ([p c'] & -> & Hin%elem_of_range_map)%list_elem_of_fmap. apply (Hc p). done.
  - apply list_elem_of_fmap in Hn as ([k l] & -> & Hk%elem_of_map_to_list). apply Hs. by eexists.
Qed.

(** * The partition by owners *)

Lemma insert_owned media f os files : NoDup os -> ownerOf directoryType media f ∈ os ->
  flat_map (fun o => ownedBy media o (f :: files)) os ≡ₚ f :: flat_map (fun o => ownedBy media o files) os.
Proof.
  intros Hnd Hin. induction os as [|o os IH]; [by apply elem_of_nil in Hin|].
  apply NoDup_cons in Hnd as [Hni Hnd]. cbn [flat_map]. unfold ownedBy at 1. cbn [List.filter]. fold (ownedBy media o files).
  destruct (bool_decide_reflect (o = ownerOf directoryType media f)) as [Ho|Ho].
  - assert (flat_map (fun o => ownedBy media o (f :: files)) os = flat_map (fun o => ownedBy media o files) os) as ->; [|done].
    clear -Hni Ho. induction os as [|o' os IH]; [done|]. apply not_elem_of_cons in Hni as [Hne Hni]. cbn [flat_map].
    rewrite IH by done. f_equal. unfold ownedBy. cbn [List.filter]. by rewrite bool_decide_eq_false_2 by congruence.
  - apply elem_of_cons in Hin as [Hin|Hin]; [by symmetry in Hin|]. rewrite IH by done. by rewrite Permutation_middle.
Qed.

Lemma partition_owners media files os : NoDup os -> (forall f, f ∈ files -> ownerOf directoryType media f ∈ os) ->
  flat_map (fun o => ownedBy media o files) os ≡ₚ files.
Proof.
  intros Hnd. induction files as [|f files IH]; intros Hin; [by clear; induction os|].
  rewrite insert_owned; [|done|apply Hin; left]. rewrite IH; [done|]. intros g Hg. apply Hin. by right.
Qed.

(** * What a scan records *)

(** The files of the directory, the media files among them, and the others. *)
Definition mediaOf (root : result node) : list walkedFile := List.filter isMedia (walkedFiles root).
Definition othersOf (root : result node) : list walkedFile := sidecarFiles (mediaOf root) (walkedFiles root).

(** The sidecars an owner should have. *)
Definition owed (root : result node) (o : owner) : list SidecarFile := map sidecarOf (ownedBy (mediaOf root) o (othersOf root)).

Record records (root : result node) (r : ScanResult) : Prop := {
  rc_media : map mfRelativePath (srMediaFiles r) = map wfRelativePath (mediaOf root);
  rc_media_sidecars i m : srMediaFiles r !! i = Some m -> mfSidecars m = owed root (OwnMedia i);
  rc_season_sidecars t : t ∈ trSeasons (srDirectory r) -> tsSidecars t = owed root (OwnSeason (tsSeasonNumber t));
  rc_seasons_ascend : StronglySorted Z.lt (map tsSeasonNumber (trSeasons (srDirectory r)));
  rc_seasons_owed n : owed root (OwnSeason n) <> [] -> n ∈ map tsSeasonNumber (trSeasons (srDirectory r));
  rc_directory : trSidecars (srDirectory r) = owed root OwnDirectory;
}.

Lemma passes_done root : well_formed root ->
  exists s, (let* s := walk folderName directoryType root newScanner in classifySidecars rootPath directoryType registry s) = Done s /\
    indexed (mediaOf root) s /\ (forall o, filed s o = owed root o) /\
    snContexts s = foldl enter {["." := noContext]} (walkedFolders root).
Proof.
  intros [Hw Hnd]. unfold walk, identifyMediaFiles, classifySidecars. pose proof (walkRoot_spec root Hw) as Hr.
  destruct (newScanner_indexed (walkRoot root newScanner)) as [Hi Hb]; [by eexists _, _|].
  assert (snFiles (walkRoot root newScanner) = walkedFiles root /\
          snContexts (walkRoot root newScanner) = foldl enter {["." := noContext]} (walkedFolders root)) as [Hf Hc]
    by (by destruct Hr as (owners & warnings & _ & ->)).
  rewrite Hf. destruct (identifyMediaFiles_loop (walkedFiles root) _ Hi Hb) as (s1 & -> & [J1 J2 J3 J4]). cbn [obind].
  rewrite J3, Hf. destruct (classifySidecars_loop (mediaOf root) (walkedFiles root) s1 J1) as (s2 & -> & K1 & K2 & K3).
  exists s2. split; [done|]. split; [done|]. split; [|by rewrite K2, J4]. intros o. by rewrite K3, (J2 o).
Qed.

Lemma directoryMetadata_total s : exists m, directoryMetadata folderName directoryType s = Done m.
Proof.
  unfold directoryMetadata. destruct (parseVideoName_core folderName "" true) as (parts & -> & _). cbn [obind].
  repeat case_match; by eexists.
Qed.

Lemma owed_range root n : owed root (OwnSeason n) <> [] -> (0 <= n <= 9999)%Z.
Proof.
  unfold owed. destruct (ownedBy _ _ _) as [|f l] eqn:Ho; [done|]. intros _.
  assert (f ∈ ownedBy (mediaOf root) (OwnSeason n) (othersOf root)) as Hf by (rewrite Ho; left).
  apply list_elem_of_In, filter_In in Hf as [Hf Hown]. apply bool_decide_eq_true in Hown.
  apply filter_In in Hf as [Hf _]. apply (seasonOwner_range (mediaOf root) f); [|done].
  apply (walkedFiles_season root). by apply list_elem_of_In.
Qed.

(** The seasons on file are the ones something is owed to. *)
Lemma season_keys root s n :
  indexed (mediaOf root) s -> (forall o, filed s o = owed root o) ->
  is_Some (snSeasonSidecars s !! n) <-> owed root (OwnSeason n) <> [].
Proof.
  intros Hs Hf. rewrite <- Hf. cbn [filed]. split.
  - intros [l Hl]. rewrite Hl. by apply (ix_seasons _ _ Hs n).
  - destruct (snSeasonSidecars s !! n); [by eexists|done].
Qed.

(** The season records of a state that has filed what is owed. *)
Lemma assembled_seasons root s :
  indexed (mediaOf root) s -> (forall o, filed s o = owed root o) ->
  snContexts s = foldl enter {["." := noContext]} (walkedFolders root) ->
  let seasons := assembleSeasons s in
  map tsSeasonNumber seasons = sortedSeasonNumbers (seasonNumbers "assembleSeasons" s) /\
  forall t, t ∈ seasons -> tsSidecars t = owed root (OwnSeason (tsSeasonNumber t)).
Proof.
  intros Hs Hf Hc seasons.
  assert (forall n, n ∈ sortedSeasonNumbers (seasonNumbers "assembleSeasons" s) -> wrap32 n = n) as Hwrap.
  { intros n Hn%sortedSeasonNumbers_spec. apply wrap32_id.
    assert (0 <= n <= 9999)%Z; [|lia]. eapply seasonNumbers_range; [| |exact Hn].
    - rewrite Hc. apply enter_season; [by apply map_Forall_singleton|]. apply Forall_forall.
      intros f (c & _ & Hin%list_elem_of_In)%list_elem_of_In%in_flat_map.
      pose proof (foldersUnder_season c [] noContext ltac:(done)) as Hall. rewrite Forall_forall in Hall. by apply Hall.
    - intros k Hk. apply (owed_range root). by apply (season_keys root s k Hs Hf). }
  subst seasons. unfold assembleSeasons. split.
  - rewrite map_map. cbn [tsSeasonNumber]. induction (sortedSeasonNumbers _) as [|n l IH]; [done|]. simpl.
    rewrite Hwrap by left. f_equal. apply IH. intros k Hk. apply Hwrap. by right.
  - intros t (n & -> & Hn)%list_elem_of_fmap. cbn [tsSeasonNumber tsSidecars]. rewrite (Hwrap n Hn), <- Hf. done.
Qed.

Lemma scanTree_records root : well_formed root ->
  exists r, scanTree rootPath folderName directoryType registry root = Done r /\ records root r.
Proof.
  intros Hw. destruct (passes_done root Hw) as (s & Hpasses & Hs & Hf & Hc). unfold scanTree.
  destruct (walk folderName directoryType root newScanner) as [s1| |] eqn:Hwalk; try done. cbn [obind] in *.
  rewrite Hpasses. cbn [obind]. unfold assemble. destruct (directoryMetadata_total s) as [metadata ->]. cbn [obind].
  eexists. split; [done|]. destruct (assembled_seasons root s Hs Hf Hc) as [Hnumbers Hsides].
  destruct (sortedSeasonNumbers_spec (seasonNumbers "assembleSeasons" s)) as [Hsorted Hin].
  constructor; cbn [srMediaFiles srDirectory trSeasons trSidecars].
  - rewrite map_map, <- (ix_files _ _ Hs), map_map. done.
  - intros i m Hm. rewrite <- Hf. cbn [filed]. change (map ?f ?l) with (f <$> l) in Hm. rewrite list_lookup_fmap in Hm.
    destruct (snMediaCandidates s !! i) as [c|]; [|done]. by injection Hm as <-.
  - exact Hsides.
  - by rewrite Hnumbers.
  - intros n Hn. rewrite Hnumbers. apply Hin, seasonNumbers_sidecars. by apply (season_keys root s n Hs Hf).
  - by rewrite <- Hf.
Qed.

(** * Every file once *)

(** The paths a result records, media files and sidecars. *)
Definition recorded (r : ScanResult) : list string :=
  map mfRelativePath (srMediaFiles r) ++
  map scRelativePath (flat_map mfSidecars (srMediaFiles r) ++ flat_map tsSidecars (trSeasons (srDirectory r)) ++
                      trSidecars (srDirectory r)).

Definition owners (root : result node) (r : ScanResult) : list owner :=
  map OwnMedia (seq 0 (length (mediaOf root))) ++ map OwnSeason (map tsSeasonNumber (trSeasons (srDirectory r))) ++ [OwnDirectory].

Lemma flat_map_positions {A B} (f : A -> list B) (g : nat -> list B) k l :
  (forall i x, l !! i = Some x -> f x = g (k + i)) -> flat_map f l = flat_map g (seq k (length l)).
Proof.
  revert k. induction l as [|x l IH]; intros k Hl; [done|]. simpl. rewrite (Hl 0 x eq_refl), Nat.add_0_r. f_equal.
  apply IH. intros i y Hy. rewrite (Hl (S i) y Hy). f_equal. lia.
Qed.

Lemma flat_map_equal {A B} (f g : A -> list B) l : (forall x, x ∈ l -> f x = g x) -> flat_map f l = flat_map g l.
Proof.
  induction l as [|x l IH]; intros Hl; [done|]. simpl. rewrite (Hl x) by left. f_equal. apply IH. intros y Hy. apply Hl. by right.
Qed.

Lemma flat_map_map {A B C} (f : B -> list C) (g : A -> B) l : flat_map f (map g l) = flat_map (fun x => f (g x)) l.
Proof. induction l as [|x l IH]; [done|]. simpl. by rewrite IH. Qed.

Lemma map_flat_map {A B C} (g : B -> C) (f : A -> list B) l : map g (flat_map f l) = flat_map (fun x => map g (f x)) l.
Proof. induction l as [|x l IH]; [done|]. simpl. by rewrite map_app, IH. Qed.

Lemma recorded_sidecars root r : records root r ->
  flat_map mfSidecars (srMediaFiles r) ++ flat_map tsSidecars (trSeasons (srDirectory r)) ++ trSidecars (srDirectory r) =
  flat_map (owed root) (owners root r).
Proof.
  intros [Rm Rms Rs _ _ Rd]. unfold owners. rewrite !flat_map_app, !flat_map_map. simpl. rewrite app_nil_r.
  f_equal; [|f_equal; [|done]].
  - rewrite <- (length_map wfRelativePath (mediaOf root)), <- Rm, length_map.
    apply (flat_map_positions mfSidecars (fun i => owed root (OwnMedia i))). intros i m Hm. by apply Rms.
  - apply flat_map_equal. intros t Ht. by apply Rs.
Qed.

Lemma owners_NoDup root r : records root r -> NoDup (owners root r).
Proof.
  intros [_ _ _ Ra _ _]. unfold owners. apply NoDup_app. split_and!.
  - apply (NoDup_fmap_2 OwnMedia). apply NoDup_seq.
  - intros o (i & -> & _)%list_elem_of_fmap [(n & Hn & _)%list_elem_of_fmap|?%list_elem_of_singleton]%elem_of_app; done.
  - apply NoDup_app. split_and!; [|intros o (n & -> & _)%list_elem_of_fmap ?%list_elem_of_singleton; done|apply NoDup_singleton].
    apply (NoDup_fmap_2 OwnSeason). clear -Ra. induction Ra as [|n l _ IH Hall]; constructor; [|done].
    intros Hn. rewrite Forall_forall in Hall. specialize (Hall n Hn). lia.
Qed.

Lemma owners_cover root r f : records root r -> f ∈ othersOf root ->
  ownerOf directoryType (mediaOf root) f ∈ owners root r.
Proof.
  intros Hr Hf. unfold owners. rewrite !elem_of_app. destruct (ownerOf directoryType (mediaOf root) f) as [i|n|] eqn:Ho.
  - left. apply list_elem_of_fmap_2, elem_of_seq. pose proof (ownerOf_bound _ _ _ _ Ho). lia.
  - right. left. apply list_elem_of_fmap_2, (rc_seasons_owed _ _ Hr). unfold owed.
    assert (f ∈ ownedBy (mediaOf root) (OwnSeason n) (othersOf root)) as Hin.
    { apply list_elem_of_In, filter_In. split; [by apply list_elem_of_In|]. by apply bool_decide_eq_true. }
    by destruct (ownedBy _ _ _); [apply elem_of_nil in Hin|].
  - right. right. by apply list_elem_of_singleton.
Qed.

Lemma filter_split {A} (p : A -> bool) l : List.filter p l ++ List.filter (fun x => negb (p x)) l ≡ₚ l.
Proof.
  induction l as [|x l IH]; [done|]. simpl. destruct (p x); simpl; [by rewrite IH|]. by rewrite <- Permutation_middle, IH.
Qed.

Lemma isRecorded_isMedia root f : well_formed root -> f ∈ walkedFiles root -> isRecorded (mediaOf root) f = isMedia f.
Proof.
  intros Hw Hf. unfold isRecorded. apply Bool.eq_iff_eq_true. rewrite bool_decide_eq_true. split.
  - intros (g & Hg & Hin)%list_elem_of_fmap. apply list_elem_of_In, filter_In in Hin as [Hin Hmedia].
    apply list_elem_of_In in Hin. assert (f = g) as ->; [|done].
    by eapply (NoDup_map_inj wfRelativePath); [apply (walkedFiles_NoDup root Hw)|..].
  - intros Hm. apply list_elem_of_fmap_2, list_elem_of_In, filter_In. split; [by apply list_elem_of_In|done].
Qed.

Lemma filter_equal {A} (p q : A -> bool) l : (forall x, x ∈ l -> p x = q x) -> List.filter p l = List.filter q l.
Proof.
  induction l as [|x l IH]; intros Hl; [done|]. simpl. rewrite (Hl x) by left. rewrite IH; [done|]. intros y Hy. apply Hl. by right.
Qed.

Lemma records_once root r : well_formed root -> records root r ->
  recorded r ≡ₚ map wfRelativePath (walkedFiles root).
Proof.
  intros Hw Hr. unfold recorded. rewrite (recorded_sidecars root r Hr), (rc_media _ _ Hr).
  assert (flat_map (owed root) (owners root r) =
    map sidecarOf (flat_map (fun o => ownedBy (mediaOf root) o (othersOf root)) (owners root r))) as -> by (by rewrite map_flat_map).
  rewrite map_map. change (fun x => scRelativePath (sidecarOf x)) with wfRelativePath.
  rewrite (partition_owners (mediaOf root) (othersOf root) (owners root r)); [|by apply owners_NoDup|intros f; by apply owners_cover].
  rewrite <- map_app. apply Permutation_map. unfold othersOf, sidecarFiles.
  rewrite (filter_equal _ (fun f => negb (isMedia f))); [apply filter_split|].
  intros f Hf. f_equal. by apply isRecorded_isMedia.
Qed.

(** * The theorems *)

(** C17: A scan of any directory answers, and its records are those the rule of
    ownership gives: one per media file, in the order of the walk, each with
    the sidecars it owns; one per season, in order, each with its own; and the
    rest on the directory. *)
Theorem scanTree_refines root : well_formed root ->
  exists r, scanTree rootPath folderName directoryType registry root = Done r /\ records root r.
Proof. apply scanTree_records. Qed.

(** C29: Every file the walk finds is recorded exactly once, as a media file or as
    one owner's sidecar, and nothing else is. *)
Theorem scanTree_once root : well_formed root ->
  exists r, scanTree rootPath folderName directoryType registry root = Done r /\
    recorded r ≡ₚ map wfRelativePath (walkedFiles root) /\ NoDup (recorded r).
Proof.
  intros Hw. destruct (scanTree_records root Hw) as (r & Hr & Hrec). exists r. split; [done|].
  pose proof (records_once root r Hw Hrec) as Hp. split; [done|]. rewrite Hp. by apply walkedFiles_NoDup.
Qed.

(** The type a sidecar is given is one the table has switched on, or unknown:
    a type switched off is never given, whatever a folder or a suffix says. *)
Theorem sidecarTypeFor_enabled definitions file :
  NewSidecarRegistry definitions = Ok registry ->
  sidecarTypeFor registry file = SidecarUnknown \/ IsEnabled registry (sidecarTypeFor registry file) = true.
Proof.
  intros Hreg. unfold sidecarTypeFor.
  assert (forall t k, enabledExtra registry t = Some k -> IsEnabled registry k = true) as He.
  { intros t k. unfold enabledExtra. destruct (assoc _ _); [|done]. destruct (IsEnabled registry _) eqn:Hk; [by intros [= <-]|done]. }
  destruct (folderSidecarType registry (wfContext file)) as [k|] eqn:Hf.
  { right. unfold folderSidecarType in Hf. destruct (_ && IsEnabled registry SidecarDiscStructure) eqn:Hd.
    { injection Hf as <-. by apply andb_true_iff in Hd as [_ ?]. }
    destruct (_ && IsEnabled registry SidecarTrickplay) eqn:Ht.
    { injection Hf as <-. by apply andb_true_iff in Ht as [_ ?]. }
    destruct (String.eqb _ ""); [done|]. by eapply He. }
  destruct (suffixSidecarType registry file) as [k|] eqn:Hs.
  { right. unfold suffixSidecarType in Hs. destruct (bool_decide _); [|done]. destruct (extrasSuffixType _); [|done]. by eapply He. }
  destruct (Match registry (wfFileName file)) as [d|] eqn:Hm; [|by left]. right.
  destruct (NewSidecarRegistry_Ok _ _ Hreg) as (_ & Hd & _ & Hn & _). unfold Match in Hm. apply find_some in Hm as [Hin _].
  rewrite Hd in Hin. apply list_elem_of_In, elem_of_stable_sort, list_elem_of_In, filter_In in Hin as [Hin He'].
  unfold IsEnabled, Lookup. rewrite (proj2 (Hn (dType d) d)); [done|]. split; [by apply list_elem_of_In|done].
Qed.

(** ** The two views of the seasons *)

(** Folders that name one season have one name. *)
Definition one_folder_per_season (contexts : gmap string folderContext) : Prop :=
  forall p q c d n, contexts !! p = Some c -> contexts !! q = Some d ->
    fcSeasonNumber c = Some n -> fcSeasonNumber d = Some n -> fcSeasonFolder c <> "" -> fcSeasonFolder d <> "" ->
    fcSeasonFolder c = fcSeasonFolder d.

(** What folding some contexts gives, when they agree. *)
Lemma declaredSeason_value l folderNames n :
  (forall c d, c ∈ l -> d ∈ l -> fcSeasonNumber c = Some n -> fcSeasonNumber d = Some n ->
     fcSeasonFolder c <> "" -> fcSeasonFolder d <> "" -> fcSeasonFolder c = fcSeasonFolder d) ->
  forall c, c ∈ l -> fcSeasonNumber c = Some n -> fcSeasonFolder c <> "" ->
    foldl declaredSeason folderNames l !! n = Some (fcSeasonFolder c).
Proof.
  induction l as [|d l IH] using rev_ind; intros Hagree c Hc Hn Hf; [by apply elem_of_nil in Hc|].
  rewrite foldl_snoc. unfold declaredSeason at 1. assert (d ∈ l ++ [d]) as Hd by (apply elem_of_app; right; by left).
  assert (c ∈ l -> foldl declaredSeason folderNames l !! n = Some (fcSeasonFolder c)) as Hl.
  { intros Hcl. apply IH; [|done|done|done]. intros x y Hx Hy. apply Hagree; apply elem_of_app; by left. }
  apply elem_of_app in Hc as Hc'. destruct (fcSeasonNumber d) as [k|] eqn:Hk.
  - destruct (String.eqb_spec (fcSeasonFolder d) "") as [Hde|Hdne].
    + destruct Hc' as [Hcl| ->%list_elem_of_singleton]; [by apply Hl|done].
    + destruct (decide (k = n)) as [->|Hne].
      * rewrite lookup_insert_eq. f_equal. by apply Hagree.
      * rewrite lookup_insert_ne by done. destruct Hc' as [Hcl| ->%list_elem_of_singleton]; [by apply Hl|congruence].
  - destruct Hc' as [Hcl| ->%list_elem_of_singleton]; [by apply Hl|congruence].
Qed.

Lemma declaredSeason_none l folderNames n :
  (forall c, c ∈ l -> fcSeasonNumber c = Some n -> fcSeasonFolder c = "") ->
  foldl declaredSeason folderNames l !! n = folderNames !! n.
Proof.
  induction l as [|d l IH] using rev_ind; intros Hl; [done|]. rewrite foldl_snoc. unfold declaredSeason at 1.
  assert (forall c, c ∈ l -> fcSeasonNumber c = Some n -> fcSeasonFolder c = "") as Hl'.
  { intros c Hc. apply Hl, elem_of_app. by left. }
  destruct (fcSeasonNumber d) as [k|] eqn:Hk; [|by apply IH]. destruct (String.eqb_spec (fcSeasonFolder d) "") as [_|Hne]; [by apply IH|].
  rewrite lookup_insert_ne; [by apply IH|]. intros ->. apply Hne, Hl; [apply elem_of_app; right; by left|done].
Qed.

Lemma declaredSeason_order l l' n :
  (forall c, c ∈ l <-> c ∈ l') ->
  (forall c d, c ∈ l -> d ∈ l -> fcSeasonNumber c = Some n -> fcSeasonNumber d = Some n ->
     fcSeasonFolder c <> "" -> fcSeasonFolder d <> "" -> fcSeasonFolder c = fcSeasonFolder d) ->
  foldl declaredSeason ∅ l !! n = foldl declaredSeason ∅ l' !! n.
Proof.
  intros Hl Hagree.
  destruct (decide (Exists (fun c => fcSeasonNumber c = Some n /\ fcSeasonFolder c <> "") l)) as [He|Hne].
  - apply Exists_exists in He as (c & Hc & Hn & Hf). rewrite (declaredSeason_value l ∅ n Hagree c) by done.
    symmetry. apply declaredSeason_value; [|by apply Hl|done|done].
    intros x y Hx%Hl Hy%Hl. by apply Hagree.
  - assert (forall c, c ∈ l -> fcSeasonNumber c = Some n -> fcSeasonFolder c = "") as Hnone.
    { intros c Hc Hn. destruct (decide (fcSeasonFolder c = "")) as [|Hf]; [done|]. destruct Hne. apply Exists_exists. by exists c. }
    rewrite !declaredSeason_none; [done| |done]. intros c Hc%Hl. by apply Hnone.
Qed.

Lemma seasonNumbers_agree view view' s :
  one_folder_per_season (snContexts s) -> seasonNumbers view s = seasonNumbers view' s.
Proof.
  intros Hone. unfold seasonNumbers. f_equal. apply map_eq. intros n. apply declaredSeason_order.
  - intros c. rewrite !list_elem_of_fmap. split; intros ([p d] & -> & Hin%elem_of_range_map); exists (p, d);
      (split; [done|by apply elem_of_range_map]).
  - intros c d ([p c'] & -> & Hc%elem_of_range_map)%list_elem_of_fmap ([q d'] & -> & Hd%elem_of_range_map)%list_elem_of_fmap.
    by apply (Hone p q).
Qed.

(** A season's record on the directory and its entry in the metadata's index
    agree on every number and folder name, whatever order Go walks the folders
    in, when no two folders name one season differently. *)
Theorem season_views_agree s :
  one_folder_per_season (snContexts s) ->
  map (fun t => (tsSeasonNumber t, tsFolderName t)) (assembleSeasons s) =
  map (fun t => (ssSeasonNumber t, ssFolderName t)) (summarizeSeasons s).
Proof.
  intros Hone. unfold assembleSeasons, summarizeSeasons. rewrite (seasonNumbers_agree "summarizeSeasons" "assembleSeasons" s Hone).
  by rewrite !map_map.
Qed.
End scan.
