(* ===== verification/ScanSamples.v ===== *)
(** Concrete scans: a show's directory, evaluated, and the witnesses of the
    scanner's theorems; and the one answer of a scan that depends on the order
    in which Go walks a map. *)
From stdpp Require Import strings list gmap sorting.
From Stdlib Require Import Ascii ZArith Lia.
From S2P Require Import Prelude GoPath Sidecar Links Tokens Parse Model Xml Nfo ScanModel Scan ScanWalk ScanOwners ScanRun.
Import Sidecar.Literal.
#[local] Open Scope go_scope.

(** * A host *)

Definition plainInfo (size : Z) : FileInfo :=
  {| infoMode := "-rw-r--r--"; infoPerm := 420; infoSymlink := false; infoSize := size; infoModTime := 0; infoSys := None |}.

#[local] Instance noURLs : URLs := {| url_Parse := fun _ => None |}.
#[local] Instance showXML : XML := fixedXML [OtherToken; StartElement "tvshow" (TVShowRoot sampleShow)].
#[local] Instance someHost : Host := {| os_ReadFile := fun path => if has_suffix "tvshow.nfo" path then Ok "<" else Err "no such file"; time_Now := 0 |}.
#[local] Instance noImages : Images := {| DecodeConfig := fun _ => Err "not an image" |}.
#[local] Instance noAccounts : Accounts := {| LookupId := fun _ => None; LookupGroupId := fun _ => None |}.

Definition file (name : string) : node := FileNode name (Ok (plainInfo 1)).
Definition folder (name : string) (children : list node) : node := DirNode name (Ok children).

Definition showChildren : list node := [
  folder ".actors" [file "someone.jpg"];
  folder "Season 01" [
    file "Show S01E01-thumb.jpg"; file "Show S01E01.mkv"; file "folder.jpg";
    folder "Show S01E01.trickplay" [folder "320 - 10x10" [file "0.jpg"]]];
  DirNode "Season 02" (Err "permission denied");
  folder "extras" [file "clip1.mkv"];
  file "season03-poster.jpg";
  file "tvshow.nfo"].

Definition showTree : result node := Ok (DirNode "Show" (Ok showChildren)).

Section concrete.
#[local] Existing Instance enumeration_order.

Definition scanShow : outcome ScanResult :=
  scanTree "/tv/Show" "Show" TypeTV (registryOf posters) showTree.

Definition summary (r : ScanResult) :=
  (map (fun m => (mfRelativePath m, map scRelativePath (mfSidecars m))) (srMediaFiles r),
   map (fun t => (tsSeasonNumber t, tsFolderName t, map scRelativePath (tsSidecars t))) (trSeasons (srDirectory r)),
   map scRelativePath (trSidecars (srDirectory r)),
   map ssFolderName (default [] (tvSeasons <$> mdTvShow (trMetadata (srDirectory r))))).

Example scanShow_summary :
  match scanShow with
  | Done r => Some (summary r)
  | _ => None
  end =
  Some ([("Season 01/Show S01E01.mkv", ["Season 01/Show S01E01-thumb.jpg"; "Season 01/Show S01E01.trickplay/320 - 10x10/0.jpg"])],
        [(1%Z, "Season 01", ["Season 01/folder.jpg"]); (2%Z, "Season 02", []); (3%Z, "", ["season03-poster.jpg"])],
        ["extras/clip1.mkv"; "tvshow.nfo"],
        ["Season 01"; "Season 02"; ""]).
Proof. vm_compute. reflexivity. Qed.
End concrete.

Lemma showTree_well_formed : well_formed showTree.
Proof.
  assert (forall name, str_contains name "/" = false -> name <> "" -> name <> "." -> name <> ".." -> entry_name name) as Hname
    by (intros name H1 H2 H3 H4; by repeat split).
  split; [|apply (bool_decide_unpack _); by vm_compute].
  change (rootChildren showTree) with showChildren. unfold showChildren, folder, file.
  repeat apply Forall_cons_2; try apply Forall_nil_2; cbn [well_named foldr];
    repeat split; try done; try (apply (bool_decide_unpack _); by vm_compute).
Qed.

Lemma scanTree_refines_witness :
  exists r, @scanTree engine enumeration_order noURLs showXML someHost noImages noAccounts "/tv/Show" "Show" TypeTV
      (registryOf posters) showTree = Done r /\
    @records engine enumeration_order noImages noAccounts "/tv/Show" TypeTV (registryOf posters) showTree r.
Proof.
  apply (@scanTree_refines engine enumeration_order noURLs showXML someHost noImages noAccounts "/tv/Show" "Show" TypeTV
    (registryOf posters) showTree). exact showTree_well_formed.
Defined.

Lemma scanTree_once_witness :
  exists r, @scanTree engine enumeration_order noURLs showXML someHost noImages noAccounts "/tv/Show" "Show" TypeTV
      (registryOf posters) showTree = Done r /\
    recorded r ≡ₚ map wfRelativePath (@walkedFiles noAccounts showTree) /\ NoDup (recorded r).
Proof.
  apply (@scanTree_once engine enumeration_order noURLs showXML someHost noImages noAccounts "/tv/Show" "Show" TypeTV
    (registryOf posters) showTree). exact showTree_well_formed.
Defined.

Lemma walk_files_witness :
  snFiles (@walkRoot noAccounts showTree newScanner) = @walkedFiles noAccounts showTree /\
  snContexts (@walkRoot noAccounts showTree newScanner) = foldl enter {["." := noContext]} (walkedFolders showTree).
Proof. apply (@walk_files noAccounts showTree). exact (proj1 showTree_well_formed). Defined.

(** A video among the extras of a table that lists no extras. *)
Definition strayClip : walkedFile :=
  {| wfRelativePath := "extras/clip1.mkv"; wfFolderPath := "extras"; wfFileName := "clip1.mkv"; wfBaseName := "clip1";
     wfExtension := "mkv"; wfClass := classVideo; wfSizeBytes := 1; wfModifiedAt := 0; wfStat := fileStatFrom (plainInfo 1);
     wfContext := {| fcSeasonNumber := None; fcSeasonFolder := ""; fcExtraType := "extra"; fcIsDiscFolder := false; fcTrickplay := None |} |}.

Lemma sidecarTypeFor_enabled_witness :
  @NewSidecarRegistry engine posters = Ok (registryOf posters) /\
  (@sidecarTypeFor engine enumeration_order (registryOf posters) strayClip = SidecarUnknown \/
   IsEnabled (registryOf posters) (@sidecarTypeFor engine enumeration_order (registryOf posters) strayClip) = true).
Proof.
  assert (@NewSidecarRegistry engine posters = Ok (registryOf posters)) as Hr by reflexivity.
  split; [exact Hr|]. apply (@sidecarTypeFor_enabled engine enumeration_order (registryOf posters) posters strayClip Hr).
Defined.

(** ** Two folders of one season *)

(** An order that is reversed for one of the two views. *)
Definition contrary_order : MapOrder.
Proof.
  refine {| map_order := fun site ks => if bool_decide (site = ["seasonNumbers"; "summarizeSeasons"]) then reverse ks else ks |}.
  intros site ks. destruct (bool_decide _); [apply reverse_Permutation|done].
Defined.

Definition doubledTree : result node := Ok (DirNode "Show" (Ok [folder "Season 01" []; folder "Season 1" []])).

(** Of a season with two folders, the record on the directory and the entry in
    the metadata of the same scan may name different ones. *)
Theorem season_views_differ :
  exists MO : MapOrder, exists r,
    @scanTree engine MO noURLs showXML someHost noImages noAccounts "/tv/Show" "Show" TypeTV (registryOf posters) doubledTree = Done r /\
    map tsFolderName (trSeasons (srDirectory r)) <>
    map ssFolderName (default [] (tvSeasons <$> mdTvShow (trMetadata (srDirectory r)))).
Proof. exists contrary_order. eexists. split; [vm_compute; reflexivity|]. vm_compute. intros [=]. Qed.

(** ** A linked directory *)

(** A root that is a symbolic link passes the test of [os.Stat], which follows
    it; the walk, which does not, finds nothing behind it and reports no error. *)
Theorem linked_root_is_empty :
  exists r, @Scan engine enumeration_order noURLs showXML someHost noImages noAccounts "/tv/Show" (Ok "/tv/Show") (Ok true)
      (Ok (FileNode "Show" (Ok (plainInfo 7)))) TypeTV (registryOf posters) = Done (Ok r) /\
    recorded r = [] /\ trWarnings (srDirectory r) = ["no episode files found in this directory"].
Proof. eexists. split; [vm_compute; reflexivity|]. by vm_compute. Qed.
