(* ===== verification/Topics.v ===== *)
(** The event bus's names: src/internal/shared/eventbus/topics.go and message.go,
    and the keys and slugs of src/internal/shared/agentproto. Every stream,
    channel, consumer group and Redis key is made here from an agent's slug, so
    what is shown is that the names keep agents apart and that a name found in
    Redis leads back to the agent it was made for. The keys a SCAN returns are
    an argument of discovery. *)
From stdpp Require Import strings list gmap.
From Stdlib Require Import Ascii ZArith Lia.
From S2P Require Import Prelude Regex GoText.

(** [strings.Cut]. *)
Definition Cut (s sep : string) : option (string * string) :=
  match index s sep with
  | Some i => Some (str_take i s, str_drop (i + String.length sep) s)
  | None => None
  end.

(** * Names *)

Definition ConsumerName : string := "metarr-server".
Definition HeartbeatRequestChannel : string := "heartbeat.request".
Definition LogChannel : string := "logs.app".
Definition AgentScanResultStream : string := "events.agent_scan_results".
Definition AgentScanResultGroup : string := "agent_scan_results_group".
Definition AgentNodeResultStream : string := "events.agent_node_results".

Definition AgentScanCommandEventName : string := "agent.scan".
Definition AgentScanResultEventName : string := "agent.scan_result".
Definition AgentScanCompleteEventName : string := "agent.scan_complete".
Definition AgentScanFailedEventName : string := "agent.scan_failed".
Definition AgentNFOReadEventName : string := "agent.nfo_read".
Definition HeartbeatRequestEventName : string := "heartbeat.request".
Definition HeartbeatReplyEventName : string := "heartbeat.reply".
Definition AgentNFOReadReplyEventName : string := "agent.nfo_read_reply".

Definition AgentCommandStream (slug : string) : string := "events.agent." +:+ slug +:+ ".commands".
Definition AgentCommandGroup (slug : string) : string := "agent_" +:+ slug +:+ "_group".
Definition AgentCommandStreamPattern : string := "events.agent.*.commands".

Definition SlugFromAgentCommandStream (stream : string) : string :=
  match Cut AgentCommandStreamPattern "*" with
  | None => ""
  | Some (prefix, suffix) =>
      if (String.length stream <=? String.length prefix + String.length suffix)%nat ||
         negb (has_prefix prefix stream) || negb (has_suffix suffix stream) then ""
      else
        let slug :=
          str_take (String.length stream - String.length suffix - String.length prefix)
            (str_drop (String.length prefix) stream) in
        if str_contains slug "." then "" else slug
  end.

Definition AgentConfigChangedChannel (slug : string) : string := "agent.config.changed." +:+ slug.
Definition AgentRequestChannel (slug : string) : string := "agent." +:+ slug +:+ ".request".

(** [ReplyChannel] of bus_pubsub.go. *)
Definition ReplyChannel (correlationID : string) : string := "reply." +:+ correlationID.

(** * The topic table *)

Inductive TopicKind : Type := KindStream | KindNotify | KindRequestReply.

#[export] Instance TopicKind_eq_dec : EqDecision TopicKind.
Proof. solve_decision. Defined.

Record Topic : Type := {
  tpName : string;
  tpKind : TopicKind;
  tpPattern : bool;
  tpGroup : string;
  tpConsumed : bool;
  tpEvents : list string;
  tpReplyName : string;
}.

(** The wrappers that say which verbs a topic is for. *)
Record StreamTopic : Type := { streamTopic :> Topic }.
Record NotifyTopic : Type := { notifyTopic :> Topic }.
Record RequestTopic : Type := { requestTopic :> Topic }.

Definition AgentScanResultTopic : StreamTopic := {| streamTopic := {|
  tpName := AgentScanResultStream; tpKind := KindStream; tpPattern := false; tpGroup := AgentScanResultGroup;
  tpConsumed := true; tpEvents := [AgentScanResultEventName; AgentScanCompleteEventName; AgentScanFailedEventName];
  tpReplyName := "" |} |}.

Definition AgentCommandTopic (slug : string) : StreamTopic := {| streamTopic := {|
  tpName := AgentCommandStream slug; tpKind := KindStream; tpPattern := false; tpGroup := AgentCommandGroup slug;
  tpConsumed := true; tpEvents := [AgentScanCommandEventName]; tpReplyName := "" |} |}.

Definition agentNodeResultTopic : StreamTopic := {| streamTopic := {|
  tpName := AgentNodeResultStream; tpKind := KindStream; tpPattern := false; tpGroup := ""; tpConsumed := false;
  tpEvents := []; tpReplyName := "" |} |}.

Definition agentCommandStreamPatternTopic : StreamTopic := {| streamTopic := {|
  tpName := AgentCommandStreamPattern; tpKind := KindStream; tpPattern := true; tpGroup := ""; tpConsumed := true;
  tpEvents := [AgentScanCommandEventName]; tpReplyName := "" |} |}.

Definition LogTopic : NotifyTopic := {| notifyTopic := {|
  tpName := LogChannel; tpKind := KindNotify; tpPattern := false; tpGroup := ""; tpConsumed := true; tpEvents := [];
  tpReplyName := "" |} |}.

Definition HeartbeatTopic : RequestTopic := {| requestTopic := {|
  tpName := HeartbeatRequestChannel; tpKind := KindRequestReply; tpPattern := false; tpGroup := ""; tpConsumed := true;
  tpEvents := [HeartbeatRequestEventName]; tpReplyName := HeartbeatReplyEventName |} |}.

Definition AgentConfigChangedTopic (slug : string) : NotifyTopic := {| notifyTopic := {|
  tpName := AgentConfigChangedChannel slug; tpKind := KindNotify; tpPattern := false; tpGroup := ""; tpConsumed := true;
  tpEvents := []; tpReplyName := "" |} |}.

Definition AgentRequestTopic (slug : string) : RequestTopic := {| requestTopic := {|
  tpName := AgentRequestChannel slug; tpKind := KindRequestReply; tpPattern := false; tpGroup := ""; tpConsumed := true;
  tpEvents := [AgentNFOReadEventName]; tpReplyName := AgentNFOReadReplyEventName |} |}.

Definition StreamTopics : list Topic :=
  [streamTopic AgentScanResultTopic; streamTopic agentNodeResultTopic; streamTopic agentCommandStreamPatternTopic].

Definition Topics : list Topic := StreamTopics ++ [requestTopic HeartbeatTopic; notifyTopic LogTopic].

Definition AgentTopics (slug : string) : list Topic :=
  [streamTopic (AgentCommandTopic slug); notifyTopic (AgentConfigChangedTopic slug); requestTopic (AgentRequestTopic slug)].

(** The names of the topics that are not streams. *)
Definition channelNames (topics : list Topic) : list string :=
  map tpName (List.filter (fun topic => negb (bool_decide (tpKind topic = KindStream))) topics).

Definition AgentPubSubChannels (slug : string) : list string := channelNames (AgentTopics slug).
Definition KnownPubSubChannels : list string := channelNames Topics.

(** * What may be published to *)

Definition matchesStreamGlob (pattern name : string) : bool :=
  match Cut pattern "*" with
  | None => String.eqb pattern name
  | Some (prefix, suffix) =>
      (String.length prefix + String.length suffix <=? String.length name)%nat && has_prefix prefix name && has_suffix suffix name
  end.

Definition streamTopicNameKnown (name : string) : bool :=
  existsb (fun topic => if tpPattern topic then matchesStreamGlob (tpName topic) name else String.eqb (tpName topic) name)
    StreamTopics.

(** [None] for a topic that may be published to. *)
Definition streamTopicPublishable (topic : Topic) : option string :=
  if tpPattern topic
  then Some ("eventbus: stream topic " +:+ quote (tpName topic) +:+ " is a pattern; a glob is not publishable")
  else if negb (streamTopicNameKnown (tpName topic)) then Some ("eventbus: unknown stream topic " +:+ quote (tpName topic))
  else None.

(** * Discovery *)

Definition groupForAgentCommandStream (name : string) : string :=
  let slug := SlugFromAgentCommandStream name in
  if String.eqb slug "" then "" else AgentCommandGroup slug.

(** The row made of a key a SCAN of a pattern row found. *)
Definition discovered (topic : Topic) (name : string) : Topic :=
  {| tpName := name; tpKind := tpKind topic; tpPattern := false; tpGroup := groupForAgentCommandStream name;
     tpConsumed := tpConsumed topic; tpEvents := tpEvents topic; tpReplyName := "" |}.

(** The loop over one SCAN's keys. *)
Fixpoint addKeys (topic : Topic) (keys : list string) (seen : gset string) : list Topic * gset string :=
  match keys with
  | [] => ([], seen)
  | name :: keys =>
      if bool_decide (name ∈ seen) then addKeys topic keys seen
      else let '(rows, seen) := addKeys topic keys ({[name]} ∪ seen) in (discovered topic name :: rows, seen)
  end.

Fixpoint addPatterns (scan : string -> list string * option string) (patterns : list Topic) (seen : gset string)
  : list Topic * option string :=
  match patterns with
  | [] => ([], None)
  | topic :: patterns =>
      let '(keys, err) := scan (tpName topic) in
      let '(rows, seen) := addKeys topic keys seen in
      let '(more, err') := addPatterns scan patterns seen in
      (rows ++ more, match err with Some _ => err | None => err' end)
  end.

(** What [DiscoverStreamTopics] returns: rows and, besides them, the first error.
    [scan pattern] is what a SCAN of the pattern yields before it ends, and the
    error that ended it, if one did. *)
Definition DiscoverStreamTopics (scan : string -> list string * option string) : list Topic * option string :=
  let static := List.filter (fun topic => negb (tpPattern topic)) StreamTopics in
  let patterns := List.filter tpPattern StreamTopics in
  let '(rows, err) := addPatterns scan patterns (list_to_set (map tpName static)) in
  (static ++ rows, err).

(** * Sources *)

Definition SourceServer : string := "metarr-server".
Definition agentSourcePrefix : string := "metarr-agent-".
Definition AgentSource (slug : string) : string := agentSourcePrefix +:+ slug.

Definition SlugFromAgentSource (source : string) : option string :=
  if negb (has_prefix agentSourcePrefix source) || String.eqb source agentSourcePrefix then None
  else Some (str_drop (String.length agentSourcePrefix) source).

(** * The agents' keys and slugs: agentproto.go *)

Definition keyPrefix : string := "metarr:agent:".
Definition PresenceKey (slug : string) : string := keyPrefix +:+ "presence:" +:+ slug.
Definition LockKey (slug : string) : string := keyPrefix +:+ "lock:" +:+ slug.
Definition ConfigKey (slug : string) : string := keyPrefix +:+ "config:" +:+ slug.
Definition PresenceKeyPattern : string := keyPrefix +:+ "presence:*".

Definition SlugFromPresenceKey (key : string) : string :=
  let prefix := keyPrefix +:+ "presence:" in
  if (String.length key <=? String.length prefix)%nat then "" else str_drop (String.length prefix) key.

Definition slugChar (c : ascii) : bool :=
  let n := nat_of_ascii c in
  ((97 <=? n)%nat && (n <=? 122)%nat) || ((48 <=? n)%nat && (n <=? 57)%nat) || (n =? 45)%nat || (n =? 95)%nat.

(** The first character that a slug may not have. *)
Fixpoint badChar (slug : string) : option ascii :=
  match slug with
  | EmptyString => None
  | String c rest => if slugChar c then badChar rest else Some c
  end.

Definition ValidateSlug (slug : string) : option string :=
  if String.eqb slug "" then Some "agent slug cannot be empty"
  else if (63 <? String.length slug)%nat then Some ("agent slug " +:+ quote slug +:+ " is longer than 63 characters")
  else
    match badChar slug with
    | Some c =>
        Some ("agent slug " +:+ quote slug +:+ " contains '" +:+ String c "'; use lowercase letters, digits, hyphen or underscore")
    | None => None
    end.

(** * Cutting names *)

(** A longer part of a string extends a shorter one. *)
Lemma str_app_longer a b c d :
  a +:+ b = c +:+ d -> (String.length a <= String.length c)%nat -> exists m, c = a +:+ m /\ b = m +:+ d.
Proof.
  revert c. induction a as [|x a IH]; intros c Heq Hl; [by exists c|]. destruct c as [|y c]; [simpl in Hl; lia|].
  injection Heq as -> Heq. destruct (IH c Heq) as (m & -> & ->); [simpl in Hl; lia|]. by exists m.
Qed.

Lemma take_between p m q :
  str_take (String.length (p +:+ m +:+ q) - String.length q - String.length p)
    (str_drop (String.length p) (p +:+ m +:+ q)) = m.
Proof.
  rewrite str_drop_app, !str_length_app.
  replace (String.length p + (String.length m + String.length q) - String.length q - String.length p)%nat
    with (String.length m) by lia.
  apply str_take_app.
Qed.

(** A string with a prefix and a suffix that do not overlap. *)
Lemma between_spec p q s :
  (String.length p + String.length q <= String.length s)%nat -> has_prefix p s = true -> has_suffix q s = true ->
  s = p +:+ str_take (String.length s - String.length q - String.length p) (str_drop (String.length p) s) +:+ q.
Proof.
  intros Hl [r Hr]%has_prefix_spec [r' Hq]%has_suffix_spec. rewrite Hr in Hq.
  assert (String.length p <= String.length r')%nat as Hlen.
  { pose proof (f_equal String.length Hq) as He. rewrite Hr in Hl. rewrite !str_length_app in *. lia. }
  destruct (str_app_longer _ _ _ _ Hq Hlen) as (m & _ & ->). rewrite Hr. by rewrite take_between.
Qed.

Lemma Cut_pattern : Cut AgentCommandStreamPattern "*" = Some ("events.agent.", ".commands").
Proof. reflexivity. Qed.

Lemma AgentCommandStream_inj a b : AgentCommandStream a = AgentCommandStream b -> a = b.
Proof. unfold AgentCommandStream. by intros ?%str_app_inv_l%str_app_inv_r. Qed.

(** The slug comes back from exactly the streams made of a slug without dots. *)
Lemma SlugFromAgentCommandStream_iff stream slug :
  slug <> "" ->
  SlugFromAgentCommandStream stream = slug <-> stream = AgentCommandStream slug /\ str_contains slug "." = false.
Proof.
  intros Hne. unfold SlugFromAgentCommandStream. rewrite Cut_pattern. split.
  - destruct (_ || _ || _) eqn:Hc; [by intros <-|]. bool_prop.
    match goal with H : (_ <=? _)%nat = false |- _ => apply Nat.leb_gt in H as Hlen end.
    destruct (str_contains _ ".") eqn:Hd; intros <-; [done|]. split; [|done].
    apply (between_spec "events.agent." ".commands"); [lia|done..].
  - intros [-> Hd]. change (AgentCommandStream slug) with ("events.agent." +:+ slug +:+ ".commands").
    rewrite has_prefix_app, take_between, Hd.
    assert (has_suffix ".commands" ("events.agent." +:+ slug +:+ ".commands") = true) as ->.
    { apply has_suffix_spec. exists ("events.agent." +:+ slug). by rewrite str_app_assoc. }
    assert ((String.length ("events.agent." +:+ slug +:+ ".commands") <=?
      String.length "events.agent." + String.length ".commands")%nat = false) as ->; [|done].
    apply Nat.leb_gt. rewrite !str_length_app. destruct slug; [done|]. simpl. lia.
Qed.

Lemma SlugFromAgentCommandStream_made slug :
  str_contains slug "." = false -> SlugFromAgentCommandStream (AgentCommandStream slug) = slug.
Proof.
  intros Hd. destruct slug as [|c slug]; [by vm_compute|]. by apply SlugFromAgentCommandStream_iff.
Qed.

(** The pattern covers every stream made of a slug, an empty or dotted one too. *)
Lemma matchesStreamGlob_iff name :
  matchesStreamGlob AgentCommandStreamPattern name = true <-> exists slug, name = AgentCommandStream slug.
Proof.
  unfold matchesStreamGlob. rewrite Cut_pattern, !andb_true_iff, Nat.leb_le. split.
  - intros [[Hl Hp] Hs]. eexists. by apply (between_spec "events.agent." ".commands").
  - intros [slug ->]. split_and!.
    + unfold AgentCommandStream. rewrite !str_length_app. lia.
    + apply has_prefix_app.
    + apply has_suffix_spec. exists ("events.agent." +:+ slug). unfold AgentCommandStream. by rewrite str_app_assoc.
Qed.

(** * Properties *)

(** ** Publishing *)

(** What may be published to: the shared streams, and the stream of any slug. *)
Lemma streamTopicPublishable_iff topic :
  streamTopicPublishable topic = None <->
  tpPattern topic = false /\
  (tpName topic = AgentScanResultStream \/ tpName topic = AgentNodeResultStream \/
   exists slug, tpName topic = AgentCommandStream slug).
Proof.
  unfold streamTopicPublishable, streamTopicNameKnown. destruct (tpPattern topic); [by split; [|intros [? _]]|].
  cbn [existsb StreamTopics tpPattern streamTopic AgentScanResultTopic agentNodeResultTopic agentCommandStreamPatternTopic tpName].
  rewrite <- matchesStreamGlob_iff. destruct (String.eqb_spec AgentScanResultStream (tpName topic)) as [<-|Hr];
    [by split; [eauto|]|].
  destruct (String.eqb_spec AgentNodeResultStream (tpName topic)) as [<-|Hn]; [by split; [eauto|]|]. cbn [orb].
  destruct (matchesStreamGlob _ _); cbn [orb negb]; split; [by eauto|done|done|].
  intros (_ & [Ht|[Ht|Ht]]); [by destruct Hr|by destruct Hn|done].
Qed.

(** ** Discovery *)

Lemma addKeys_spec topic keys seen :
  exists names, addKeys topic keys seen = (map (discovered topic) names, seen ∪ list_to_set keys) /\
    NoDup names /\ forall name, name ∈ names <-> name ∈ keys /\ name ∉ seen.
Proof.
  revert seen. induction keys as [|key keys IH]; intros seen; cbn [addKeys].
  - exists []. split; [|split; [constructor|]]; [f_equal; simpl; set_solver|set_solver].
  - case_bool_decide as Hk.
    + destruct (IH seen) as (names & -> & Hnd & Hin). exists names. split; [f_equal; simpl; set_solver|].
      split; [done|]. intros name. rewrite Hin. set_solver.
    + destruct (IH ({[key]} ∪ seen)) as (names & -> & Hnd & Hin). exists (key :: names).
      split; [f_equal; simpl; set_solver|]. split.
      * constructor; [|done]. rewrite Hin. set_solver.
      * intros name. rewrite elem_of_cons, Hin, elem_of_cons. destruct (decide (name = key)); set_solver.
Qed.

Lemma discovered_command slug :
  slug <> "" -> str_contains slug "." = false ->
  discovered agentCommandStreamPatternTopic (AgentCommandStream slug) = streamTopic (AgentCommandTopic slug).
Proof.
  intros Hne Hd. unfold discovered, groupForAgentCommandStream. rewrite SlugFromAgentCommandStream_made by done.
  by destruct slug.
Qed.

Lemma discovery scan :
  exists names,
    DiscoverStreamTopics scan =
      ([streamTopic AgentScanResultTopic; streamTopic agentNodeResultTopic] ++
         map (discovered agentCommandStreamPatternTopic) names,
       (scan AgentCommandStreamPattern).2) /\
    NoDup names /\
    forall name, name ∈ names <->
      name ∈ (scan AgentCommandStreamPattern).1 /\ name <> AgentScanResultStream /\ name <> AgentNodeResultStream.
Proof.
  change (DiscoverStreamTopics scan) with
    (let '(rows, err) := addPatterns scan [streamTopic agentCommandStreamPatternTopic]
                           (list_to_set [AgentScanResultStream; AgentNodeResultStream]) in
     ([streamTopic AgentScanResultTopic; streamTopic agentNodeResultTopic] ++ rows, err)).
  cbn [addPatterns]. change (tpName agentCommandStreamPatternTopic) with AgentCommandStreamPattern.
  destruct (scan AgentCommandStreamPattern) as [keys err]. cbn [fst snd].
  destruct (addKeys_spec agentCommandStreamPatternTopic keys
    (list_to_set [AgentScanResultStream; AgentNodeResultStream])) as (names & -> & Hnd & Hin).
  exists names. split; [rewrite app_nil_r; by destruct err|]. split; [done|].
  intros name. rewrite Hin. set_solver.
Qed.

Lemma command_fixed slug : AgentCommandStream slug <> AgentScanResultStream /\ AgentCommandStream slug <> AgentNodeResultStream.
Proof. split; by intros [=]. Qed.

(** Discovery lists the shared streams and every key its SCAN found, each
    once however often Redis repeats a key, and gives an agent's stream the very
    row the agent registers with; a failed SCAN is reported and what it found
    before is kept. *)
Theorem DiscoverStreamTopics_spec scan :
  let '(rows, err) := DiscoverStreamTopics scan in
  let '(keys, scanErr) := scan AgentCommandStreamPattern in
  err = scanErr /\ NoDup (map tpName rows) /\
  (forall name, name ∈ map tpName rows <->
     name = AgentScanResultStream \/ name = AgentNodeResultStream \/ name ∈ keys) /\
  (forall slug, slug <> "" -> str_contains slug "." = false ->
     AgentCommandStream slug ∈ keys <-> streamTopic (AgentCommandTopic slug) ∈ rows).
Proof.
  destruct (discovery scan) as (names & -> & Hnd & Hin). destruct (scan AgentCommandStreamPattern) as [keys scanErr].
  cbn [fst snd] in *. split; [done|].
  assert (map tpName (map (discovered agentCommandStreamPatternTopic) names) = names) as Hnames
    by (rewrite map_map; apply map_id).
  rewrite map_app, Hnames. cbn [map].
  change (tpName AgentScanResultTopic) with AgentScanResultStream.
  change (tpName agentNodeResultTopic) with AgentNodeResultStream. split; [|split].
  - apply NoDup_app. split; [apply (bool_decide_unpack _); by vm_compute|]. split; [|done].
    intros name Hname. rewrite Hin. set_solver.
  - intros name. rewrite elem_of_app, Hin. destruct (decide (name = AgentScanResultStream)); [set_solver|].
    destruct (decide (name = AgentNodeResultStream)); set_solver.
  - intros slug Hne Hd. rewrite <- discovered_command by done. split.
    + intros Hk. apply elem_of_app. right. apply list_elem_of_fmap. eexists. split; [done|]. apply Hin. by split_and!.
    + intros Hs. apply (list_elem_of_fmap_2 tpName) in Hs. rewrite fmap_app, elem_of_app in Hs.
      destruct Hs as [Hs|Hs].
      { exfalso. destruct (command_fixed slug) as [Hr Hn].
        apply elem_of_cons in Hs as [Hs|[Hs|Hs%elem_of_nil]%elem_of_cons]; [by apply Hr|by apply Hn|done]. }
      change (tpName <$> ?l) with (map tpName l) in Hs. rewrite Hnames in Hs. apply Hin in Hs as [Hs _]. exact Hs.
Qed.

(** ** Agents apart *)

Lemma slugChar_facts c : slugChar c = true -> c <> "."%char /\ c <> "*"%char.
Proof. by destruct c as [[] [] [] [] [] [] [] []]; vm_compute. Qed.

Lemma badChar_None slug : badChar slug = None <-> str_forall slugChar slug = true.
Proof. induction slug as [|c slug IH]; simpl; [done|]. destruct (slugChar c); [done|]. by split. Qed.

Lemma ValidateSlug_iff slug :
  ValidateSlug slug = None <-> slug <> "" /\ (String.length slug <= 63)%nat /\ str_forall slugChar slug = true.
Proof.
  unfold ValidateSlug. rewrite <- badChar_None. destruct (String.eqb_spec slug "") as [->|Hne]; [by split; [|intros [? _]]|].
  destruct (Nat.ltb_spec 63 (String.length slug)); [by split; [|lia]|].
  destruct (badChar slug); split; try done; by intros (_ & _ & ?).
Qed.

Lemma slug_no_dot slug : str_forall slugChar slug = true -> str_contains slug "." = false.
Proof.
  induction slug as [|c slug IH]; [done|]. cbn [str_forall str_contains has_prefix]. intros Hs. bool_prop.
  rewrite IH, orb_false_r, andb_true_r by done. apply Ascii.eqb_neq. intros <-. done.
Qed.

(** No agent's request channel is another's configuration channel. *)
Lemma request_config a b : str_forall slugChar b = true -> AgentConfigChangedChannel a <> AgentRequestChannel b.
Proof.
  intros Hb He. unfold AgentConfigChangedChannel, AgentRequestChannel in He.
  change ("agent." +:+ "config" +:+ String "."%char ("changed." +:+ a) = "agent." +:+ b +:+ String "."%char "request") in He.
  apply str_app_inv_l in He. apply (run_unique slugChar) in He as (_ & _ & He); done.
Qed.

Lemma command_pattern slug : str_forall slugChar slug = true -> AgentCommandStreamPattern <> AgentCommandStream slug.
Proof.
  intros Hs He. unfold AgentCommandStream in He. change AgentCommandStreamPattern with ("events.agent." +:+ "*.commands") in He.
  apply str_app_inv_l in He. destruct slug as [|c slug]; [done|]. injection He as <- _. done.
Qed.

(** One inequality between names: the literal parts clash, or the slugs do. *)
Ltac names_differ :=
  match goal with
  | |- _ ∉ [] => by intros ?%elem_of_nil
  | |- _ ∉ _ :: _ => apply not_elem_of_cons; split; names_differ
  | |- ?x <> ?y => first
      [ by intros [=]
      | by apply command_pattern
      | by apply request_config
      | by (intros He; symmetry in He; revert He; apply request_config)
      | by (intros He; first [apply AgentCommandStream_inj in He|apply str_app_inv_l in He|idtac];
            first [done|by apply str_app_inv_l in He|by apply str_app_inv_r in He]) ]
  end.

(** Two agents with valid names share no destination, with each other or with
    the fixed ones, and no key; no reply channel is any of them; and each name
    leads back to its slug. *)
Theorem agent_names_apart a b :
  ValidateSlug a = None -> ValidateSlug b = None -> a <> b ->
  NoDup (map tpName (Topics ++ AgentTopics a ++ AgentTopics b)) /\
  (forall correlationID, ReplyChannel correlationID ∉ map tpName (Topics ++ AgentTopics a ++ AgentTopics b)) /\
  NoDup [PresenceKey a; LockKey a; ConfigKey a; PresenceKey b; LockKey b; ConfigKey b] /\
  SlugFromPresenceKey (PresenceKey a) = a /\ SlugFromAgentCommandStream (AgentCommandStream a) = a /\
  SlugFromAgentSource (AgentSource a) = Some a /\ AgentCommandGroup a <> AgentCommandGroup b.
Proof.
  intros (Ha & _ & Hca)%ValidateSlug_iff (Hb & _ & Hcb)%ValidateSlug_iff Hab.
  change (map tpName (Topics ++ AgentTopics a ++ AgentTopics b)) with
    [AgentScanResultStream; AgentNodeResultStream; AgentCommandStreamPattern; HeartbeatRequestChannel; LogChannel;
     AgentCommandStream a; AgentConfigChangedChannel a; AgentRequestChannel a;
     AgentCommandStream b; AgentConfigChangedChannel b; AgentRequestChannel b].
  split_and!.
  - repeat (apply NoDup_cons; split; [names_differ|]). constructor.
  - intros correlationID. names_differ.
  - repeat (apply NoDup_cons; split; [names_differ|]). constructor.
  - unfold SlugFromPresenceKey, PresenceKey. rewrite <- str_app_assoc, str_length_app, str_drop_app.
    destruct (Nat.leb_spec (String.length (keyPrefix +:+ "presence:") + String.length a) (String.length (keyPrefix +:+ "presence:")));
      [|done]. destruct a; [done|simpl in *; lia].
  - by apply SlugFromAgentCommandStream_made, slug_no_dot.
  - unfold SlugFromAgentSource, AgentSource. rewrite has_prefix_app, str_drop_app. cbn [negb orb].
    destruct (String.eqb_spec (agentSourcePrefix +:+ a) agentSourcePrefix) as [He|]; [|done].
    apply (f_equal String.length) in He. rewrite str_length_app in He. destruct a; [done|simpl in He; lia].
  - names_differ.
Qed.

Lemma agent_names_apart_witness :
  (ValidateSlug "nas-01" = None /\ ValidateSlug "nas_02" = None) /\
  NoDup (map tpName (Topics ++ AgentTopics "nas-01" ++ AgentTopics "nas_02")) /\
  (forall correlationID, ReplyChannel correlationID ∉ map tpName (Topics ++ AgentTopics "nas-01" ++ AgentTopics "nas_02")) /\
  NoDup [PresenceKey "nas-01"; LockKey "nas-01"; ConfigKey "nas-01"; PresenceKey "nas_02"; LockKey "nas_02"; ConfigKey "nas_02"] /\
  SlugFromPresenceKey (PresenceKey "nas-01") = "nas-01" /\ SlugFromAgentCommandStream (AgentCommandStream "nas-01") = "nas-01" /\
  SlugFromAgentSource (AgentSource "nas-01") = Some "nas-01" /\ AgentCommandGroup "nas-01" <> AgentCommandGroup "nas_02".
Proof. split; [by split|]. by apply (agent_names_apart "nas-01" "nas_02"). Defined.

(** A stream may be published to that no agent reads: one made of an empty slug,
    or of one with a dot, is covered by the pattern and belongs to no group. *)
Example unread_stream_publishable :
  streamTopicPublishable (AgentCommandTopic "nas.01") = None /\
  groupForAgentCommandStream (AgentCommandStream "nas.01") = "" /\
  streamTopicPublishable (AgentCommandTopic "") = None /\ groupForAgentCommandStream (AgentCommandStream "") = "".
Proof. by vm_compute. Qed.
