(* ===== verification/Bus.v ===== *)
(** The durable half of the event bus: src/internal/shared/eventbus/bus.go, with
    the entry framing of streamtransport.go and the retry policy of
    buspolicy.go. Registration and the life of Run are operations on the record
    [Bus]; what happens to one delivered message is [consume], the code's stack
    of middleware around its dispatch. The middleware that is Watermill's and the
    envelope's encoding are the classes [Middleware] and [Envelope]. *)
From stdpp Require Import strings list gmap.
From Stdlib Require Import Ascii ZArith Lia.
From coqutil Require Import Datatypes.RecordSetters.
Import DoubleBraceUpdate.
From S2P Require Import Prelude Topics.
#[local] Open Scope go_scope.

(** * Envelopes and entries *)

Record Event : Type := {
  evName : string;
  evSource : string;
  evCorrelationId : string;
  evTimestamp : Z;
  evPayload : string;
}.

(** protojson's encoding of the envelope. *)
Class Envelope : Type := {
  MarshalEvent : Event -> result string;
  UnmarshalEvent : string -> result Event;
}.

(** What protojson documents of a message it could encode. *)
Class EnvelopeLaw `{Envelope} : Prop :=
  unmarshal_marshal : forall event data, MarshalEvent event = Ok data -> UnmarshalEvent data = Ok event.

(** A value of a decoded stream entry. *)
Inductive value : Type :=
| NilValue
| StringValue (s : string)
| BytesValue (s : string)
| OtherValue (typeName : string).

Definition streamPayloadField : string := "payload".

Definition minimalStreamValues (envelope : string) : gmap string value := {[streamPayloadField := BytesValue envelope]}.

Definition payloadFromStreamValues (values : gmap string value) : result string :=
  match values !! streamPayloadField with
  | None | Some NilValue => Err ("eventbus: stream entry has no " +:+ quote streamPayloadField +:+ " field")
  | Some (StringValue payload) | Some (BytesValue payload) => Ok payload
  | Some (OtherValue typeName) =>
      Err ("eventbus: stream entry " +:+ quote streamPayloadField +:+ " field is " +:+ typeName +:+ ", want string")
  end.

(** * The bus *)

Section bus.
(** The state a handler acts on. *)
Context {W : Type} `{Envelope}.

(** How one attempt at a message ends. *)
Inductive attempt : Type :=
| Handled
| Failed (err : string)
| Panicked.

Record StreamHandler : Type := { handle : Event -> W -> W * attempt }.

Record streamRegistration : Type := {
  srTopic : Topic;
  srHandlers : gmap string StreamHandler;
}.

(** The configuration the bus reads of [Config]: its source, and the answers of
    the transport's Subscriber. *)
Record Config : Type := {
  cfSource : string;
  cfSubscriber : string -> string -> option string;
}.

(** [bsLive]: the registrations Run is serving, while it is. [bsReady]: whether
    the ready channel is closed. *)
Record Bus : Type := {
  bsConfig : Config;
  bsRegistrations : gmap string streamRegistration;
  bsStarted : bool;
  bsLive : option (gmap string streamRegistration);
  bsReady : bool;
}.

Definition ErrBusRunning : string := "eventbus: bus is already running; register before Run".
Definition ErrUnknownEvent : string := "eventbus: event name is not legal on this topic".
Definition ErrNotPublishable : string := "eventbus: topic is not publishable".

(** What New makes of a valid configuration. *)
Definition New (cfg : Config) : result Bus :=
  if String.eqb (cfSource cfg) "" then Err "eventbus: Config.Source is required"
  else Ok {| bsConfig := cfg; bsRegistrations := ∅; bsStarted := false; bsLive := None; bsReady := false |}.

(** The first name, in the order Go walks the map, that the topic does not list. *)
Definition offTable `{MapOrder} (topic : Topic) (handlers : gmap string StreamHandler) : option string :=
  List.find (fun name => negb (bool_decide (name ∈ tpEvents topic))) (map fst (range_map ["HandleStream"; tpName topic] handlers)).

Definition HandleStream `{MapOrder} (topic : StreamTopic) (handlers : gmap string StreamHandler) (b : Bus) : result Bus :=
  if bsStarted b then Err ErrBusRunning
  else if tpPattern topic then Err (ErrNotPublishable +:+ ": " +:+ quote (tpName topic) +:+ " is a pattern topic")
  else if String.eqb (tpGroup topic) ""
  then Err ("eventbus: stream topic " +:+ quote (tpName topic) +:+ " has no consumer group to read with")
  else if bool_decide (handlers = ∅)
  then Err ("eventbus: HandleStream on " +:+ quote (tpName topic) +:+ " needs at least one handler")
  else
    match offTable topic handlers with
    | Some name => Err (ErrUnknownEvent +:+ ": " +:+ quote name +:+ " on stream " +:+ quote (tpName topic))
    | None =>
        match bsRegistrations b !! tpName topic with
        | Some _ => Err ("eventbus: stream topic " +:+ quote (tpName topic) +:+ " already has a handler map")
        | None =>
            Ok (b {{ bsRegistrations ::= fun regs =>
                       <[tpName topic := {| srTopic := streamTopic topic; srHandlers := handlers |}]> regs }})
        end
    end.

(** What Publish hands to the transport: stream, envelope, and the cap. *)
Definition Publish (now maxLen : Z) (topic : StreamTopic) (name correlationID payload : string) (b : Bus)
  : result (string * gmap string value * Z) :=
  match streamTopicPublishable topic with
  | Some err => Err (ErrNotPublishable +:+ ": " +:+ err)
  | None =>
      if negb (bool_decide (name ∈ tpEvents topic))
      then Err (ErrUnknownEvent +:+ ": " +:+ quote name +:+ " on stream " +:+ quote (tpName topic))
      else
        try encoded := MarshalEvent {| evName := name; evSource := cfSource (bsConfig b); evCorrelationId := correlationID;
                                       evTimestamp := now; evPayload := payload |} in
        Ok (tpName topic, minimalStreamValues encoded, maxLen)
  end.

Definition consumerName (b : Bus) : string :=
  let source := cfSource (bsConfig b) in
  if String.eqb source SourceServer then ConsumerName
  else match SlugFromAgentSource source with Some slug => slug | None => source end.

(** ** The life of Run *)

(** The failure of the first subscriber that cannot be opened, in the order Go
    walks the registrations. *)
Definition subscribeError `{MapOrder} (b : Bus) : option string :=
  let consumer := consumerName b in
  List.hd_error (omap (fun entry => let topic := srTopic entry.2 in
      (fun err => "eventbus: subscriber for " +:+ tpName topic +:+ ": " +:+ err) <$>
        cfSubscriber (bsConfig b) (tpGroup topic) consumer)
    (range_map ["Run"] (bsRegistrations b))).

(** Run up to the point where the router serves: [setup] is the failure of what
    it starts besides the subscribers, if one fails. A failed set-up closes the
    ready channel and leaves the bus as one that may be run again. *)
Definition runStart `{MapOrder} (setup : option string) (b : Bus) : Bus * option string :=
  if bsStarted b then (b, Some ErrBusRunning)
  else
    match (match subscribeError b with Some err => Some err | None => setup end) with
    | Some err => (b {{ bsReady := true }}, Some err)
    | None => (b {{ bsStarted := true; bsLive := Some (bsRegistrations b) }}, None)
    end.

(** The router reports itself running. *)
Definition routerRunning (b : Bus) : Bus := match bsLive b with Some _ => b {{ bsReady := true }} | None => b end.

(** Run returns, with the router's error if it has one; only then may the bus be
    run again. *)
Definition runReturns (err : option string) (b : Bus) : Bus :=
  match bsLive b with
  | Some _ => b {{ bsReady := true; bsLive := None; bsStarted := bool_decide (err = None) }}
  | None => b
  end.

(** * One delivery *)

(** A handler as the middleware sees it, over the handlers' state and the log. *)
Definition step : Type := W * list string -> (W * list string) * attempt.

Definition noHandlerWarning (topic : Topic) (event : Event) : string :=
  "WARN eventbus: no handler for stream event stream=" +:+ tpName topic +:+ " name=" +:+ evName event +:+
  " correlation_id=" +:+ evCorrelationId event.

Definition dropMessage : string := "ERROR eventbus: dropping message after retries exhausted".

Definition dispatch (reg : streamRegistration) (payload : string) : step := fun '(w, log) =>
  match UnmarshalEvent payload with
  | Err err => ((w, log), Failed ("eventbus: decode envelope on " +:+ tpName (srTopic reg) +:+ ": " +:+ err))
  | Ok event =>
      match srHandlers reg !! evName event with
      | None => ((w, log ++ [noHandlerWarning (srTopic reg) event]), Handled)
      | Some handler => let '(w', result) := handle handler event w in ((w', log), result)
      end
  end.

Definition dropAfterRetry (next : step) : step := fun s =>
  match next s with
  | ((w, log), Failed err) => ((w, log ++ [dropMessage +:+ " err=" +:+ err]), Handled)
  | result => result
  end.

(** Watermill's middleware. *)
Class Middleware : Type := {
  Recoverer : step -> step;
  Retry : nat -> step -> step;
}.

(** [n] failed attempts and one more. *)
Inductive attempts (next : step) : nat -> W * list string -> (W * list string) * attempt -> Prop :=
| last_attempt s : attempts next 0 s (next s)
| failed_attempt n s s' err r : next s = (s', Failed err) -> attempts next n s' r -> attempts next (S n) s r.

(** What Watermill documents of it: a recovered panic is an error of the handler;
    a failed message is tried again up to MaxRetries times, while its context
    lives, and its error is the handler's last. *)
Class MiddlewareLaws `{Middleware} : Prop := {
  recoverer_recovers : forall next s,
    match next s with
    | (s', Panicked) => exists err, Recoverer next s = (s', Failed err)
    | r => Recoverer next s = r
    end;
  retry_attempts : forall maxRetries next s, exists n, (n <= maxRetries)%nat /\
    attempts next n s (Retry maxRetries next s) /\
    forall s' err, Retry maxRetries next s = (s', Failed err) -> n = maxRetries;
}.

(** The stack Run builds around a registration's dispatch, the first added
    outermost. *)
Definition stack `{Middleware} (maxRetries : nat) (reg : streamRegistration) (payload : string) : step :=
  Recoverer (dropAfterRetry (Retry maxRetries (dispatch reg payload))).

(** The router's verdict: a message is acknowledged exactly if the stack returns
    no error, and otherwise it is delivered again. *)
Definition consume `{Middleware} (maxRetries : nat) (reg : streamRegistration) (payload : string) (s : W * list string)
  : (W * list string) * bool :=
  let '(s', result) := stack maxRetries reg payload s in
  (s', match result with Handled => true | _ => false end).

(** A message delivered until it is acknowledged, at most [fuel] times. *)
Fixpoint deliver `{Middleware} (fuel maxRetries : nat) (reg : streamRegistration) (payload : string) (s : W * list string)
  : (W * list string) * bool :=
  match fuel with
  | 0 => (s, false)
  | S fuel =>
      let '(s', acked) := consume maxRetries reg payload s in
      if acked then (s', true) else deliver fuel maxRetries reg payload s'
  end.

(** * Properties *)

(** ** One delivery *)

(** A handler's attempts at one event: [n] that failed, and one that ended so. *)
Inductive runs (handler : StreamHandler) (event : Event) : nat -> W -> W * attempt -> Prop :=
| runs_last w : runs handler event 0 w (handle handler event w)
| runs_failed n w w' err r : handle handler event w = (w', Failed err) -> runs handler event n w' r -> runs handler event (S n) w r.

Lemma dispatch_runs reg payload event handler n w log r :
  UnmarshalEvent payload = Ok event -> srHandlers reg !! evName event = Some handler ->
  attempts (dispatch reg payload) n (w, log) r ->
  exists w' result, r = ((w', log), result) /\ runs handler event n w (w', result).
Proof.
  intros Hu Hh Ha. remember (w, log) as s eqn:Hs. revert w Hs.
  assert (forall w, dispatch reg payload (w, log) = ((handle handler event w).1, log, (handle handler event w).2)) as Hd.
  { intros w0. unfold dispatch. rewrite Hu, Hh. by destruct (handle handler event w0). }
  induction Ha as [s|n s s' err r Hn Ha IH]; intros w ->; rewrite Hd in *; destruct (handle handler event w) as [w' result] eqn:He.
  - exists w', result. split; [done|]. rewrite <- He. constructor.
  - injection Hn as <- ->. destruct (IH w' eq_refl) as (w'' & result & -> & Hr). exists w'', result. split; [done|].
    by eapply runs_failed.
Qed.

(** A dispatch that gives one answer and changes nothing but the log is asked
    once when it handles, and gives the same answer each time when it fails. *)
Lemma attempts_failed next n s r err :
  next s = (s, Failed err) -> attempts next n s r -> r = (s, Failed err).
Proof. intros Hs. induction 1 as [s|n s s' err' r Hn Ha IH]; [done|]. rewrite Hs in Hn. injection Hn as <- _. by apply IH. Qed.

Lemma attempts_handled next n s s' r : next s = (s', Handled) -> attempts next n s r -> r = (s', Handled).
Proof. intros Hs. destruct 1 as [s|n s s2 err' r Hn Ha]; [done|]. by rewrite Hs in Hn. Qed.

Section laws.
Context `{MiddlewareLaws}.

(** What the stack leaves of the retries' result. *)
Lemma consume_Retry maxRetries reg payload s :
  consume maxRetries reg payload s =
  match Retry maxRetries (dispatch reg payload) s with
  | (s', Handled) => (s', true)
  | ((w, log), Failed err) => ((w, log ++ [dropMessage +:+ " err=" +:+ err]), true)
  | (s', Panicked) => (s', false)
  end.
Proof.
  unfold consume, stack. pose proof (recoverer_recovers (dropAfterRetry (Retry maxRetries (dispatch reg payload))) s) as Hr.
  unfold dropAfterRetry at 1 in Hr.
  destruct (Retry maxRetries (dispatch reg payload) s) as [[w log] [|err|]];
    [by rewrite Hr|by rewrite Hr|destruct Hr as [err ->]; done].
Qed.

(** What a delivery comes to. An undecodable message is dropped with a log line;
    an event without a handler is logged once and acknowledged; any other
    goes to its handler, which is run until it succeeds and at most
    MaxRetries times again. A message is acknowledged in every case but one:
    the handler panicked. *)
Theorem consume_settles maxRetries reg payload w log :
  let '((w', log'), acked) := consume maxRetries reg payload (w, log) in
  match UnmarshalEvent payload with
  | Err _ => acked = true /\ w' = w /\ exists err, log' = log ++ [dropMessage +:+ " err=" +:+ err]
  | Ok event =>
      match srHandlers reg !! evName event with
      | None => acked = true /\ w' = w /\ log' = log ++ [noHandlerWarning (srTopic reg) event]
      | Some handler =>
          exists n result, (n <= maxRetries)%nat /\ runs handler event n w (w', result) /\
          match result with
          | Handled => acked = true /\ log' = log
          | Failed err => n = maxRetries /\ acked = true /\ log' = log ++ [dropMessage +:+ " err=" +:+ err]
          | Panicked => acked = false /\ log' = log
          end
      end
  end.
Proof.
  rewrite consume_Retry. destruct (retry_attempts maxRetries (dispatch reg payload) (w, log)) as (n & Hn & Ha & Hf).
  destruct (UnmarshalEvent payload) as [event|err] eqn:Hu.
  - destruct (srHandlers reg !! evName event) as [handler|] eqn:Hh.
    + destruct (dispatch_runs _ _ _ _ _ _ _ _ Hu Hh Ha) as (w' & result & Hr & Hruns). rewrite Hr in *.
      destruct result as [|err|]; exists n; eexists; (split; [done|]; split; [exact Hruns|]); [done| |done].
      split; [by eapply Hf|done].
    + apply (attempts_handled _ _ _ (w, log ++ [noHandlerWarning (srTopic reg) event])) in Ha as ->; [done|].
      unfold dispatch. by rewrite Hu, Hh.
  - eapply attempts_failed in Ha as ->; [|unfold dispatch; by rewrite Hu]. split; [done|]. split; [done|]. by eexists.
Qed.

(** A handler that panics on an event is given it again forever: however often
    the message is delivered, it is neither acknowledged nor dropped. *)
Theorem panic_redelivered fuel maxRetries reg payload event handler s :
  UnmarshalEvent payload = Ok event -> srHandlers reg !! evName event = Some handler ->
  (forall w, exists w', handle handler event w = (w', Panicked)) ->
  (deliver fuel maxRetries reg payload s).2 = false /\ (deliver fuel maxRetries reg payload s).1.2 = s.2.
Proof.
  intros Hu Hh Hp. revert s. induction fuel as [|fuel IH]; intros [w log]; [done|]. cbn [deliver].
  pose proof (consume_settles maxRetries reg payload w log) as Hc.
  destruct (consume maxRetries reg payload (w, log)) as [[w' log'] acked]. rewrite Hu, Hh in Hc.
  destruct Hc as (n & result & _ & Hr & Hres).
  assert (result = Panicked) as ->.
  { clear Hres. revert Hr. destruct (Hp w) as [w2 Hw]. inversion 1; subst; congruence. }
  destruct Hres as [-> ->]. apply (IH (w', log)).
Qed.
End laws.

(** ** Registration and Run *)

(** What Run may serve: a concrete, consumed stream, with handlers for events the
    topic lists. *)
Definition servable (stream : string) (reg : streamRegistration) : Prop :=
  tpName (srTopic reg) = stream /\ tpPattern (srTopic reg) = false /\ tpGroup (srTopic reg) <> "" /\ srHandlers reg <> ∅ /\
  forall name, is_Some (srHandlers reg !! name) -> name ∈ tpEvents (srTopic reg).

(** Every way a bus moves on. *)
Inductive moves `{MapOrder} : Bus -> Bus -> Prop :=
| registers topic handlers b b' : HandleStream topic handlers b = Ok b' -> moves b b'
| starts setup b : moves b (runStart setup b).1
| serves b : moves b (routerRunning b)
| returns err b : moves b (runReturns err b).

Lemma HandleStream_Ok `{MapOrder} topic handlers b b' :
  HandleStream topic handlers b = Ok b' ->
  bsStarted b = false /\ bsRegistrations b !! tpName topic = None /\
  b' = b {{ bsRegistrations ::= fun regs => <[tpName topic := {| srTopic := streamTopic topic; srHandlers := handlers |}]> regs }} /\
  servable (tpName topic) {| srTopic := streamTopic topic; srHandlers := handlers |}.
Proof.
  unfold HandleStream. destruct (bsStarted b); [done|]. destruct (tpPattern topic) eqn:Hp; [done|].
  destruct (String.eqb_spec (tpGroup topic) ""); [done|]. case_bool_decide as He; [done|].
  destruct (offTable topic handlers) as [name|] eqn:Ho; [done|].
  destruct (bsRegistrations b !! tpName topic); [done|]. intros [= <-]. unfold servable. split_and!; try done.
  intros name [handler Hh]. unfold offTable in Ho. pose proof (find_none _ _ Ho name) as Hn. cbn beta in Hn.
  apply negb_false_iff, bool_decide_eq_true in Hn; [done|]. apply list_elem_of_In, list_elem_of_fmap.
  exists (name, handler). split; [done|]. by apply elem_of_range_map.
Qed.

(** Whatever is called and in whatever order: a registration is one that may be
    served, registering is over once Run has been called, and what Run serves is
    everything registered. *)
Theorem bus_invariant `{MapOrder} cfg b0 b :
  New cfg = Ok b0 -> rtc moves b0 b ->
  map_Forall servable (bsRegistrations b) /\
  (bsStarted b = true -> forall topic handlers, HandleStream topic handlers b = Err ErrBusRunning) /\
  (forall live, bsLive b = Some live -> bsStarted b = true /\ live = bsRegistrations b).
Proof.
  intros Hnew Hsteps. split; [|split].
  - assert (map_Forall servable (bsRegistrations b0)) as Hinit.
    { unfold New in Hnew. destruct (String.eqb _ _); [done|]. injection Hnew as <-. by intros ?? ?. }
    clear Hnew. induction Hsteps as [|b0 b1 b2 Hm Hsteps IH]; [done|]. apply IH. clear IH Hsteps b2.
    destruct Hm as [topic handlers b0 b1 Hh|setup b0|b0|err b0].
    + apply HandleStream_Ok in Hh as (_ & _ & -> & Hs). destruct b0. cbn in *. by apply map_Forall_insert_2.
    + unfold runStart. destruct (bsStarted b0); [done|]. destruct (subscribeError b0); [|destruct setup]; by destruct b0.
    + unfold routerRunning. destruct (bsLive b0); by destruct b0.
    + unfold runReturns. destruct (bsLive b0); by destruct b0.
  - intros Hs topic handlers. unfold HandleStream. by rewrite Hs.
  - assert (forall live, bsLive b0 = Some live -> bsStarted b0 = true /\ live = bsRegistrations b0) as Hinit.
    { unfold New in Hnew. destruct (String.eqb _ _); [done|]. by injection Hnew as <-. }
    clear Hnew. induction Hsteps as [|b0 b1 b2 Hm Hsteps IH]; [done|]. apply IH. clear IH Hsteps b2.
    destruct Hm as [topic handlers b0 b1 Hh|setup b0|b0|err b0].
    + apply HandleStream_Ok in Hh as (Hns & _ & -> & _). destruct b0. cbn in *. intros live Hl.
      destruct (Hinit live Hl). congruence.
    + unfold runStart. destruct (bsStarted b0) eqn:Hs; [cbn [fst]; by rewrite Hs|].
      destruct (subscribeError b0); [|destruct setup]; destruct b0; cbn in *;
        [by intros live Hl; destruct (Hinit live Hl)..|]. by intros live [= <-].
    + unfold routerRunning. destruct (bsLive b0) eqn:Hl; [|by rewrite Hl in *]. destruct b0. cbn in *. intros live Hl2. rewrite Hl in Hl2. by apply Hinit.
    + unfold runReturns. destruct (bsLive b0) eqn:Hl; [by destruct b0|by rewrite Hl in *].
Qed.

(** ** From a publish to a handler *)

(** An event that Publish accepts is, once its entry is read back, handed to the
    handler its topic's registration has for it, with the name, correlation id
    and payload it was given, stamped with the publisher's source and the time. *)
Theorem published_is_dispatched `{MapOrder, !EnvelopeLaw} topic handlers consumer consumer' publisher
    now maxLen name correlationID payload stream values cap handler :
  HandleStream topic handlers consumer = Ok consumer' ->
  Publish now maxLen topic name correlationID payload publisher = Ok (stream, values, cap) ->
  handlers !! name = Some handler ->
  exists reg data, bsRegistrations consumer' !! stream = Some reg /\ payloadFromStreamValues values = Ok data /\ cap = maxLen /\
  forall w log, dispatch reg data (w, log) =
    let '(w', result) := handle handler
      {| evName := name; evSource := cfSource (bsConfig publisher); evCorrelationId := correlationID; evTimestamp := now;
         evPayload := payload |} w in ((w', log), result).
Proof.
  intros (_ & _ & -> & _)%HandleStream_Ok Hp Hh. unfold Publish in Hp. destruct (streamTopicPublishable topic); [done|].
  destruct (negb _); [done|]. apply rbind_Ok in Hp as (data & Hm & [= <- <- <-]). eexists _, data. split; [|split; [|split]].
  - destruct consumer. cbn. apply lookup_insert_eq.
  - done.
  - done.
  - intros w log. unfold dispatch. rewrite (unmarshal_marshal _ _ Hm). cbn [evName srHandlers]. by rewrite Hh.
Qed.
End bus.

(** * A concrete bus *)

#[export] Instance Event_eq_dec : EqDecision Event.
Proof. solve_decision. Defined.

Definition sampleEvent : Event :=
  {| evName := AgentScanCommandEventName; evSource := SourceServer; evCorrelationId := "scan-1"; evTimestamp := 5; evPayload := "{}" |}.

(** An encoding that knows one message. *)
Definition sampleEnvelope : Envelope := {|
  MarshalEvent := fun event => if decide (event = sampleEvent) then Ok "sample" else Err "unknown message";
  UnmarshalEvent := fun data => if String.eqb data "sample" then Ok sampleEvent else Err "unexpected token";
|}.

Lemma sampleEnvelope_law : @EnvelopeLaw sampleEnvelope.
Proof. intros event data. cbn. destruct (decide (event = sampleEvent)) as [->|]; [|done]. by intros [= <-]. Qed.

(** Middleware that does what it documents. *)
Fixpoint retryTimes {W} (maxRetries : nat) (next : @step W) (s : W * list string) : (W * list string) * attempt :=
  match maxRetries, next s with
  | S more, (s', Failed _) => retryTimes more next s'
  | _, r => r
  end.

Definition plainMiddleware {W} : @Middleware W := {|
  Recoverer := fun next s => match next s with (s', Panicked) => (s', Failed "panic occurred") | r => r end;
  Retry := retryTimes;
|}.

Lemma retryTimes_attempts {W} maxRetries (next : @step W) s :
  exists n, (n <= maxRetries)%nat /\ attempts next n s (retryTimes maxRetries next s) /\
    forall s' err, retryTimes maxRetries next s = (s', Failed err) -> n = maxRetries.
Proof.
  revert s. induction maxRetries as [|more IH]; intros s.
  - exists 0. split; [done|]. split; [|done]. cbn [retryTimes]. apply last_attempt.
  - cbn [retryTimes]. destruct (next s) as [s' result] eqn:Hn. destruct result as [|err|].
    1, 3: exists 0; split; [lia|]; split; [rewrite <- Hn; apply last_attempt|done].
    destruct (IH s') as (n & Hle & Ha & Hf). exists (S n). split; [lia|]. split; [by eapply failed_attempt|].
    intros s2 err2 Hr. f_equal. by eapply Hf.
Qed.

Lemma plainMiddleware_laws {W} : @MiddlewareLaws W plainMiddleware.
Proof.
  split; [|apply retryTimes_attempts]. intros next s. cbn. destruct (next s) as [s' [|err|]]; [done|done|by eexists].
Qed.

(** A handler that fails twice and then succeeds; its state counts its runs. *)
Definition flaky : @StreamHandler nat :=
  {| handle := fun _ runs => (S runs, if (runs <? 2)%nat then Failed "datastore unreachable" else Handled) |}.

Definition explosive : @StreamHandler nat := {| handle := fun _ runs => (S runs, Panicked) |}.

Definition commands (handler : @StreamHandler nat) : @streamRegistration nat :=
  {| srTopic := AgentCommandTopic "nas"; srHandlers := {[AgentScanCommandEventName := handler]} |}.

Example flaky_settles :
  @consume nat sampleEnvelope plainMiddleware 4 (commands flaky) "sample" (0, []) = ((3, []), true) /\
  @consume nat sampleEnvelope plainMiddleware 1 (commands flaky) "sample" (0, []) =
    ((2, [dropMessage +:+ " err=datastore unreachable"]), true).
Proof. by vm_compute. Qed.

Lemma consume_settles_witness :
  let '((w', log'), acked) := @consume nat sampleEnvelope plainMiddleware 4 (commands flaky) "sample" (0, []) in
  match @UnmarshalEvent sampleEnvelope "sample" with
  | Err _ => acked = true /\ w' = 0 /\ exists err, log' = [] ++ [dropMessage +:+ " err=" +:+ err]
  | Ok event =>
      match srHandlers (commands flaky) !! evName event with
      | None => acked = true /\ w' = 0 /\ log' = [] ++ [noHandlerWarning (srTopic (commands flaky)) event]
      | Some handler =>
          exists n result, (n <= 4)%nat /\ runs handler event n 0 (w', result) /\
          match result with
          | Handled => acked = true /\ log' = []
          | Failed err => n = 4 /\ acked = true /\ log' = [] ++ [dropMessage +:+ " err=" +:+ err]
          | Panicked => acked = false /\ log' = []
          end
      end
  end.
Proof. apply (@consume_settles nat sampleEnvelope plainMiddleware plainMiddleware_laws 4 (commands flaky) "sample" 0 []). Defined.

Lemma panic_redelivered_witness :
  (@deliver nat sampleEnvelope plainMiddleware 50 4 (commands explosive) "sample" (0, [])).2 = false /\
  (@deliver nat sampleEnvelope plainMiddleware 50 4 (commands explosive) "sample" (0, [])).1.2 = [].
Proof.
  apply (@panic_redelivered nat sampleEnvelope plainMiddleware plainMiddleware_laws 50 4 (commands explosive) "sample" sampleEvent explosive
    (0, [])); [reflexivity|reflexivity|]. intros w. by eexists.
Defined.

Definition busOf (source : string) : @Bus nat :=
  {| bsConfig := {| cfSource := source; cfSubscriber := fun _ _ => None |}; bsRegistrations := ∅; bsStarted := false; bsLive := None;
     bsReady := false |}.

Definition handling (handler : @StreamHandler nat) : @Bus nat :=
  (busOf (AgentSource "nas")) {{ bsRegistrations := {[AgentCommandStream "nas" := commands handler]} }}.

Lemma published_is_dispatched_witness :
  exists reg data, bsRegistrations (handling flaky) !! AgentCommandStream "nas" = Some reg /\
    payloadFromStreamValues (minimalStreamValues "sample") = Ok data /\ (1000 = 1000)%Z /\
    forall w log, @dispatch nat sampleEnvelope reg data (w, log) =
      let '(w', result) := handle flaky
        {| evName := AgentScanCommandEventName; evSource := SourceServer; evCorrelationId := "scan-1"; evTimestamp := 5;
           evPayload := "{}" |} w in ((w', log), result).
Proof.
  apply (@published_is_dispatched nat sampleEnvelope enumeration_order sampleEnvelope_law (AgentCommandTopic "nas")
    {[AgentScanCommandEventName := flaky]} (busOf (AgentSource "nas")) (handling flaky) (busOf SourceServer) 5 1000
    AgentScanCommandEventName "scan-1" "{}" (AgentCommandStream "nas") (minimalStreamValues "sample") 1000 flaky);
    vm_compute; reflexivity.
Defined.

#[local] Existing Instance enumeration_order.

Lemma bus_invariant_witness :
  let b := (runStart None (handling flaky)).1 in
  map_Forall servable (bsRegistrations b) /\
  (bsStarted b = true -> forall topic handlers, HandleStream topic handlers b = Err ErrBusRunning) /\
  (forall live, bsLive b = Some live -> bsStarted b = true /\ live = bsRegistrations b).
Proof.
  intros b. apply (@bus_invariant nat enumeration_order {| cfSource := AgentSource "nas"; cfSubscriber := fun _ _ => None |}
    (busOf (AgentSource "nas")) b); [reflexivity|].
  apply (rtc_l _ _ (handling flaky)); [|apply rtc_once, starts].
  apply (registers (AgentCommandTopic "nas") {[AgentScanCommandEventName := flaky]}). by vm_compute.
Defined.
