(* ===== verification/PubSub.v ===== *)
(** The ephemeral half of the event bus: src/internal/shared/eventbus/bus_pubsub.go
    over a transport of pubsubtransport.go. A [Broker] holds the subscriptions and
    what waits in them; a [System] is any number of requests and responders that
    share one, and [exchange] is every step one of them may take next, so a
    reachable state is the result of some interleaving. Every call of the
    transport may fail, and every message may be lost on its way to any
    subscription, as with Redis; the in-memory transport is the [outcome]
    [inMemory] of every publication. *)
From stdpp Require Import strings list gmap.
From Stdlib Require Import Ascii ZArith Lia.
From coqutil Require Import Datatypes.RecordSetters.
Import DoubleBraceUpdate.
From S2P Require Import Prelude Regex Topics Bus.
#[local] Open Scope go_scope.

(** * The transport *)

(** What becomes of one publication: which subscriptions of its channel it gets
    through to, and what the call returns, be the message sent or not. *)
Record outcome : Type := {
  ocHeard : nat -> bool;
  ocError : option string;
}.

(** The in-memory transport neither fails nor loses anything on the way. *)
Definition inMemory : outcome := {| ocHeard := fun _ => true; ocError := None |}.

Record subscription : Type := {
  sbChannel : string;
  sbQueue : list string;
  sbOpen : bool;
}.

(** [bkHeap]: the subscriptions by their addresses; [bkSubs]: the broker's map of
    the open ones by channel. *)
Record Broker : Type := {
  bkHeap : gmap nat subscription;
  bkSubs : gmap string (gset nat);
}.

Definition InMemoryPubSub : Broker := {| bkHeap := ∅; bkSubs := ∅ |}.

(** The capacity of a subscription's channel. *)
Definition subscriptionBuffer : nat := 256.

(** [sub] is the address of the new subscription. *)
Definition Subscribe (channel : string) (sub : nat) (b : Broker) : Broker := {|
  bkHeap := <[sub := {| sbChannel := channel; sbQueue := []; sbOpen := true |}]> (bkHeap b);
  bkSubs := <[channel := {[sub]} ∪ default ∅ (bkSubs b !! channel)]> (bkSubs b);
|}.

(** A send that drops what a full buffer has no room for. *)
Definition offer (payload : string) (s : subscription) : subscription :=
  if (length (sbQueue s) <? subscriptionBuffer)%nat then s {{ sbQueue ::= fun q => q ++ [payload] }} else s.

(** Publish, to those of the channel's subscriptions that the message gets through to. *)
Definition Publish (o : outcome) (channel payload : string) (b : Broker) : Broker :=
  let subs := default ∅ (bkSubs b !! channel) in
  b {{ bkHeap ::= map_imap (fun sub s => Some (if bool_decide (sub ∈ subs /\ ocHeard o sub = true) then offer payload s else s)) }}.

Definition remove (sub : nat) (channel : string) (subs : gmap string (gset nat)) : gmap string (gset nat) :=
  match subs !! channel with
  | None => subs
  | Some set =>
      let rest := set ∖ {[sub]} in
      if bool_decide (rest = ∅) then delete channel subs else <[channel := rest]> subs
  end.

Definition Close (sub : nat) (b : Broker) : Broker :=
  match bkHeap b !! sub with
  | Some s =>
      if sbOpen s
      then {| bkHeap := <[sub := s {{ sbOpen := false }}]> (bkHeap b); bkSubs := remove sub (sbChannel s) (bkSubs b) |}
      else b
  | None => b
  end.

(** The next payload of a subscription's channel, taken from it. *)
Definition receive (sub : nat) (b : Broker) : option (string * Broker) :=
  match bkHeap b !! sub with
  | Some s =>
      match sbQueue s with
      | payload :: rest => Some (payload, b {{ bkHeap ::= fun heap => <[sub := s {{ sbQueue := rest }}]> heap }})
      | [] => None
      end
  | None => None
  end.

(** ** What the operations do to a subscription *)

(** The broker's map holds exactly the open subscriptions. *)
Definition indexed (b : Broker) : Prop :=
  forall sub channel, sub ∈ default ∅ (bkSubs b !! channel) <->
    exists s, bkHeap b !! sub = Some s /\ sbOpen s = true /\ sbChannel s = channel.

Lemma lookup_Publish o channel payload b sub :
  bkHeap (Publish o channel payload b) !! sub =
  (fun s => if bool_decide (sub ∈ default ∅ (bkSubs b !! channel) /\ ocHeard o sub = true) then offer payload s else s) <$>
  bkHeap b !! sub.
Proof. destruct b. unfold Publish. cbn. rewrite map_lookup_imap. by destruct (bkHeap0 !! sub). Qed.

Lemma offer_facts payload s :
  sbChannel (offer payload s) = sbChannel s /\ sbOpen (offer payload s) = sbOpen s /\ sbQueue (offer payload s) <> [] /\
  forall p, p ∈ sbQueue (offer payload s) -> p ∈ sbQueue s \/ p = payload.
Proof.
  destruct s as [c q o]. unfold offer. change (sbQueue {| sbChannel := c; sbQueue := q; sbOpen := o |}) with q.
  destruct (length q <? subscriptionBuffer)%nat eqn:Hl; cbn.
  - split_and!; [done..|by destruct q|]. intros p [Hp|Hp%list_elem_of_singleton]%elem_of_app; eauto.
  - split_and!; [done..| |by left]. destruct q; [by apply Nat.ltb_ge in Hl; unfold subscriptionBuffer in Hl; simpl in Hl; lia|done].
Qed.

Lemma Publish_indexed o channel payload b : indexed b -> indexed (Publish o channel payload b).
Proof.
  intros Hi sub c. change (bkSubs (Publish o channel payload b)) with (bkSubs b). rewrite (Hi sub c), lookup_Publish.
  destruct (bkHeap b !! sub) as [s|]; [|by split; intros (? & ? & _)]. cbn.
  destruct (offer_facts payload s) as (Hc & Ho & _).
  split; intros (s' & [= <-] & H1 & H2); eexists; (split; [done|]); case_bool_decide; by rewrite ?Hc, ?Ho in *.
Qed.

Lemma Subscribe_indexed channel sub b : bkHeap b !! sub = None -> indexed b -> indexed (Subscribe channel sub b).
Proof.
  intros Hf Hi sub' c. unfold Subscribe. cbn. destruct (decide (c = channel)) as [->|Hc].
  - rewrite lookup_insert_eq. cbn. rewrite elem_of_union, elem_of_singleton, (Hi sub' channel).
    destruct (decide (sub' = sub)) as [->|Hs]; [rewrite lookup_insert_eq|rewrite lookup_insert_ne by done].
    + split; [by eexists|by left].
    + split; [by intros [?|]|by right].
  - rewrite lookup_insert_ne by done. rewrite (Hi sub' c).
    destruct (decide (sub' = sub)) as [->|Hs]; [rewrite lookup_insert_eq|by rewrite lookup_insert_ne].
    rewrite Hf. split; [by intros (? & ? & _)|]. intros (? & [= <-] & _ & Hch). cbn in Hch. done.
Qed.

Lemma elem_of_remove sub' sub channel c subs :
  sub' ∈ default ∅ (remove sub channel subs !! c) <->
  sub' ∈ default ∅ (subs !! c : option (gset nat)) /\ (c = channel -> sub' <> sub).
Proof.
  unfold remove. destruct (subs !! channel) as [set|] eqn:Hs.
  - case_bool_decide as He; (destruct (decide (c = channel)) as [->|Hc];
      [rewrite ?lookup_delete_eq, ?lookup_insert_eq, Hs|rewrite ?lookup_delete_ne, ?lookup_insert_ne by done]); cbn; set_solver.
  - destruct (decide (c = channel)) as [->|Hc]; [rewrite Hs; cbn; set_solver|set_solver].
Qed.

Lemma Close_indexed sub b : indexed b -> indexed (Close sub b).
Proof.
  intros Hi. unfold Close. destruct (bkHeap b !! sub) as [s|] eqn:Hs; [|done]. destruct (sbOpen s) eqn:Ho; [|done].
  intros sub' c. cbn. rewrite elem_of_remove, (Hi sub' c).
  destruct (decide (sub' = sub)) as [->|Hne]; [rewrite lookup_insert_eq, Hs|rewrite lookup_insert_ne by done].
  - destruct s. cbn in *. split.
    + intros [(s' & [= <-] & _ & <-) Hn]. by destruct Hn.
    + by intros (s' & [= <-] & ? & _).
  - split; [by intros [? _]|done].
Qed.

Lemma lookup_Close sub b sub' :
  bkHeap (Close sub b) !! sub' =
  (if decide (sub' = sub) then (fun s => s {{ sbOpen := false }}) <$> bkHeap b !! sub else bkHeap b !! sub').
Proof.
  unfold Close. destruct (bkHeap b !! sub) as [s|] eqn:Hs; [|by case_decide as Hd; [rewrite Hd, Hs|]].
  destruct (sbOpen s) eqn:Ho; cbn; case_decide as Hd; subst; rewrite ?lookup_insert_eq, ?lookup_insert_ne, ?Hs by done; try done.
  destruct s. cbn in *. by subst.
Qed.

Lemma receive_Some sub b payload b' :
  receive sub b = Some (payload, b') <->
  exists s rest, bkHeap b !! sub = Some s /\ sbQueue s = payload :: rest /\
    b' = {| bkHeap := <[sub := s {{ sbQueue := rest }}]> (bkHeap b); bkSubs := bkSubs b |}.
Proof.
  unfold receive. destruct (bkHeap b !! sub) as [s|]; [|by split; [|intros (? & ? & ? & _)]].
  destruct (sbQueue s) as [|p rest] eqn:Hq; [split; [done|intros (s' & ? & [= <-] & Hq' & _); congruence]|].
  destruct b as [heap subs]. cbn. split.
  - intros [= <- <-]. by eexists _, _.
  - intros (s' & rest' & [= <-] & Hq' & ->). rewrite Hq in Hq'. by injection Hq' as -> ->.
Qed.

Lemma receive_indexed sub b payload b' : receive sub b = Some (payload, b') -> indexed b -> indexed b'.
Proof.
  intros (s & rest & Hs & _ & ->)%receive_Some Hi sub' c. cbn. rewrite (Hi sub' c).
  destruct (decide (sub' = sub)) as [->|Hne]; [rewrite lookup_insert_eq, Hs|by rewrite lookup_insert_ne].
  destruct s. cbn. split; intros (s' & [= <-] & Ho & Hc); by eexists.
Qed.

(** * Requests and replies *)

Section exchange.
(** The state the responders' handlers act on. *)
Context {W : Type} `{Envelope}.

(** A handler returns a payload, no payload, or an error. *)
Record requestRegistration : Type := {
  rrTopic : RequestTopic;
  rrSource : string;
  rrHandler : Event -> W -> W * result (option string);
}.

(** Where a call of Request has got to: the reply subscription is open, it has
    been acknowledged, the request is published, the call is over. *)
Inductive phase : Type :=
| Opened
| Subscribed
| Waiting
| Returned (reply : result Event).

Record request : Type := {
  rqTopic : RequestTopic;
  rqEvent : Event;
  rqSub : nat;
  rqPhase : phase;
}.

(** [syAnswers] records, for the statements only, the replies that responders
    made, each with the request it answers and the subscriptions its publication
    got through to. *)
Record System : Type := {
  syBroker : Broker;
  syWorld : W;
  syResponders : gmap nat requestRegistration;
  syRequests : gmap nat request;
  syAnswers : list (Event * Event * (nat -> bool));
}.

Definition ErrNoResponder : string := "eventbus: no responder answered the request".

Definition setPhase (i : nat) (p : phase) (s : System) : System :=
  s {{ syRequests ::= alter (fun r => r {{ rqPhase := p }}) i }}.

(** The call is over with an error; the deferred Close ends its subscription. *)
Definition abandon (err : string) (i : nat) (r : request) (s : System) : System :=
  setPhase i (Returned (Err err)) (s {{ syBroker ::= Close (rqSub r) }}).

(** The opening of Request: the name is checked, a correlation id is minted when
    the caller gives none, and the reply channel is subscribed to before anything
    is published. [i] names the call, [sub] is the address of its subscription,
    and [subscribed] is the error Subscribe returned, if any. *)
Definition openRequest (i sub : nat) (source minted : string) (now : Z) (subscribed : option string) (topic : RequestTopic)
  (name correlationID payload : string) (s : System) : result System :=
  if negb (bool_decide (name ∈ tpEvents topic))
  then Err (ErrUnknownEvent +:+ ": " +:+ quote name +:+ " on request channel " +:+ quote (tpName topic))
  else
    let correlationID := if String.eqb correlationID "" then minted else correlationID in
    let event := {| evName := name; evSource := source; evCorrelationId := correlationID; evTimestamp := now; evPayload := payload |} in
    match subscribed with
    | Some err => Err err
    | None =>
        Ok (s {{ syBroker ::= Subscribe (ReplyChannel correlationID) sub;
                 syRequests ::= fun m => <[i := {| rqTopic := topic; rqEvent := event; rqSub := sub; rqPhase := Opened |}]> m }})
    end.

(** What Receive returned of the acknowledgement. *)
Definition acknowledge (received : option string) (i : nat) (r : request) (s : System) : System :=
  match received with
  | Some err => abandon err i r s
  | None => setPhase i Subscribed s
  end.

(** The publication of the request: an error of the transport ends the call,
    whether the message was sent or not. *)
Definition sendRequest (o : outcome) (i : nat) (r : request) (s : System) : System :=
  match MarshalEvent (rqEvent r) with
  | Err err => abandon err i r s
  | Ok encoded =>
      let s := s {{ syBroker ::= Publish o (tpName (rqTopic r)) encoded }} in
      match ocError o with
      | Some err => abandon err i r s
      | None => setPhase i Waiting s
      end
  end.

(** The arrival of a reply. *)
Definition receiveReply (i : nat) (r : request) (s : System) : option System :=
  (fun '(payload, broker) => setPhase i (Returned (UnmarshalEvent payload)) (s {{ syBroker := Close (rqSub r) broker }})) <$>
  receive (rqSub r) (syBroker s).

(** No reply comes: the caller's patience ends, or the reply subscription does. *)
Definition giveUp (reason : string) (i : nat) (r : request) (s : System) : System :=
  abandon (ErrNoResponder +:+ ": " +:+ reason) i r s.

Definition replyClosed (r : request) : string :=
  "reply subscription closed for correlation_id=" +:+ evCorrelationId (rqEvent r).

(** [dispatchRequest]: a request decoded, handled and, if the handler gave a
    payload, answered. That the publication of the reply failed is only logged. *)
Definition dispatchRequest (o : outcome) (now : Z) (reg : requestRegistration) (payload : string) (s : System) : System :=
  match UnmarshalEvent payload with
  | Err _ => s
  | Ok event =>
      let '(w, answer) := rrHandler reg event (syWorld s) in
      let s := s {{ syWorld := w }} in
      match answer with
      | Ok (Some replyPayload) =>
          let reply := {| evName := tpReplyName (rrTopic reg); evSource := rrSource reg; evCorrelationId := evCorrelationId event;
                          evTimestamp := now; evPayload := replyPayload |} in
          match MarshalEvent reply with
          | Ok encoded =>
              s {{ syBroker ::= Publish o (ReplyChannel (evCorrelationId event)) encoded;
                   syAnswers ::= fun l => l ++ [(event, reply, ocHeard o)] }}
          | Err _ => s
          end
      | _ => s
      end
  end.

(** One turn of a responder's receive loop. *)
Definition respond (o : outcome) (now : Z) (sub : nat) (reg : requestRegistration) (s : System) : option System :=
  (fun '(payload, broker) => dispatchRequest o now reg payload (s {{ syBroker := broker }})) <$> receive sub (syBroker s).

(** The topics of the table: requests go to these, and notifications to those. *)
Definition requestTopicOf (topic : RequestTopic) : Prop :=
  topic = HeartbeatTopic \/ exists slug, ValidateSlug slug = None /\ topic = AgentRequestTopic slug.

Definition notifyTopicOf (topic : NotifyTopic) : Prop := topic = LogTopic \/ exists slug, topic = AgentConfigChangedTopic slug.

(** An address nothing uses yet. *)
Definition fresh_in (sub : nat) (s : System) : Prop := bkHeap (syBroker s) !! sub = None.

Inductive exchange : System -> System -> Prop :=
| responder_starts sub reg s :
    fresh_in sub s -> requestTopicOf (rrTopic reg) ->
    exchange s (s {{ syBroker ::= Subscribe (tpName (rrTopic reg)) sub; syResponders ::= fun m => <[sub := reg]> m }})
| responder_refused sub reg s :
    fresh_in sub s -> exchange s (s {{ syBroker ::= fun b => Close sub (Subscribe (tpName (rrTopic reg)) sub b) }})
| responder_stops sub reg s :
    syResponders s !! sub = Some reg -> exchange s (s {{ syBroker ::= Close sub; syResponders ::= delete sub }})
| request_opens i sub source minted now subscribed topic name correlationID payload s s' :
    fresh_in sub s -> syRequests s !! i = None -> requestTopicOf topic ->
    openRequest i sub source minted now subscribed topic name correlationID payload s = Ok s' -> exchange s s'
| request_acknowledged received i r s :
    syRequests s !! i = Some r -> rqPhase r = Opened -> exchange s (acknowledge received i r s)
| request_sent o i r s : syRequests s !! i = Some r -> rqPhase r = Subscribed -> exchange s (sendRequest o i r s)
| reply_received i r s s' :
    syRequests s !! i = Some r -> rqPhase r = Waiting -> receiveReply i r s = Some s' -> exchange s s'
| request_given_up reason i r s : syRequests s !! i = Some r -> rqPhase r = Waiting -> exchange s (giveUp reason i r s)
| reply_channel_closed i r s :
    syRequests s !! i = Some r -> rqPhase r = Waiting -> exchange s (giveUp (replyClosed r) i r s)
| responder_turn o now sub reg s s' : syResponders s !! sub = Some reg -> respond o now sub reg s = Some s' -> exchange s s'
| notified o topic payload s : notifyTopicOf topic -> exchange s (s {{ syBroker ::= Publish o (tpName topic) payload }}).

Definition initial (w : W) : System :=
  {| syBroker := InMemoryPubSub; syWorld := w; syResponders := ∅; syRequests := ∅; syAnswers := [] |}.

(** * The invariant *)

Definition cid (r : request) : string := evCorrelationId (rqEvent r).

Definition returned (r : request) : Prop := exists reply, rqPhase r = Returned reply.

Definition unsent (p : phase) : Prop := p = Opened \/ p = Subscribed.

(** A request that is past its publication, on its topic's channel. *)
Definition published (reqs : gmap nat request) (q : Event) (channel : string) : Prop :=
  exists i r, reqs !! i = Some r /\ ~ unsent (rqPhase r) /\ rqEvent r = q /\ tpName (rqTopic r) = channel.

(** [e] is a reply that a responder made to [q]. *)
Definition made (answers : list (Event * Event * (nat -> bool))) (q e : Event) : Prop :=
  exists heard, (q, e, heard) ∈ answers.

(** What may wait on a channel: answers to requests with the reply channel's id,
    and requests that were sent. *)
Definition legit (reqs : gmap nat request) (answers : list (Event * Event * (nat -> bool))) (channel payload : string) : Prop :=
  (forall c, channel = ReplyChannel c -> exists q e,
     made answers q e /\ evCorrelationId q = c /\ evCorrelationId e = c /\ UnmarshalEvent payload = Ok e) /\
  (forall t, requestTopicOf t -> channel = tpName t -> exists q, published reqs q channel /\ UnmarshalEvent payload = Ok q).

Record Inv (b : Broker) (resp : gmap nat requestRegistration) (reqs : gmap nat request)
  (answers : list (Event * Event * (nat -> bool))) : Prop := {
  inv_indexed : indexed b;
  inv_queues : forall sub x payload,
    bkHeap b !! sub = Some x -> payload ∈ sbQueue x -> legit reqs answers (sbChannel x) payload;
  inv_requests : forall i r, reqs !! i = Some r -> requestTopicOf (rqTopic r) /\
    exists x, bkHeap b !! rqSub r = Some x /\ sbChannel x = ReplyChannel (cid r) /\ (returned r \/ sbOpen x = true);
  inv_distinct : forall i j r r', reqs !! i = Some r -> reqs !! j = Some r' -> rqSub r = rqSub r' -> i = j;
  inv_responders : forall sub reg, resp !! sub = Some reg -> requestTopicOf (rrTopic reg) /\
    exists x, bkHeap b !! sub = Some x /\ sbChannel x = tpName (rrTopic reg);
  inv_answers : forall q e, made answers q e -> evCorrelationId e = evCorrelationId q /\ exists channel, published reqs q channel;
  inv_returned : forall i r e, reqs !! i = Some r -> rqPhase r = Returned (Ok e) ->
    exists q, made answers q e /\ evCorrelationId q = cid r;
  inv_waiting : forall i r x e heard, reqs !! i = Some r -> rqPhase r = Waiting ->
    (forall j r', reqs !! j = Some r' -> cid r' = cid r -> j = i) ->
    bkHeap b !! rqSub r = Some x -> (rqEvent r, e, heard) ∈ answers -> heard (rqSub r) = true -> sbQueue x <> [];
}.

(** Requests move on and are never forgotten. *)
Definition grows (reqs reqs' : gmap nat request) : Prop :=
  forall i r, reqs !! i = Some r -> exists r', reqs' !! i = Some r' /\ rqEvent r' = rqEvent r /\ rqTopic r' = rqTopic r /\
    rqSub r' = rqSub r /\ (unsent (rqPhase r') -> unsent (rqPhase r)).

Lemma grows_refl reqs : grows reqs reqs.
Proof. intros i r Hr. by eexists. Qed.

Lemma published_grows reqs reqs' q channel : grows reqs reqs' -> published reqs q channel -> published reqs' q channel.
Proof.
  intros Hg (i & r & Hr & Hp & <- & <-). destruct (Hg i r Hr) as (r' & Hr' & He & Ht & _ & Hp').
  exists i, r'. split_and!; [done|by intros ?%Hp'|done|by rewrite Ht].
Qed.

Lemma legit_grows reqs reqs' answers answers' channel payload :
  grows reqs reqs' -> answers ⊆ answers' -> legit reqs answers channel payload -> legit reqs' answers' channel payload.
Proof.
  intros Hg Ha [H1 H2]. split.
  - intros c Hc. destruct (H1 c Hc) as (q & e & [heard Hin] & Hrest). exists q, e. split; [exists heard; by apply Ha|done].
  - intros t Ht Hc. destruct (H2 t Ht Hc) as (q & Hq & Hu). exists q. split; [by eapply published_grows|done].
Qed.

Lemma inv_sub_neq b resp reqs answers i r sub :
  Inv b resp reqs answers -> bkHeap b !! sub = None -> reqs !! i = Some r -> rqSub r <> sub.
Proof. intros HI Hf Hr <-. destruct (inv_requests _ _ _ _ HI i r Hr) as (_ & x & Hx & _). congruence. Qed.

(** ** Each primitive keeps it *)

Lemma Inv_subscribe channel sub b resp reqs answers :
  bkHeap b !! sub = None -> Inv b resp reqs answers -> Inv (Subscribe channel sub b) resp reqs answers.
Proof.
  intros Hf HI. assert (forall sub' x, bkHeap b !! sub' = Some x -> bkHeap (Subscribe channel sub b) !! sub' = Some x) as Hold.
  { intros sub' x Hx. cbn. rewrite lookup_insert_ne; [done|]. congruence. }
  pose proof HI as HI'. destruct HI. split; try done.
  - by apply Subscribe_indexed.
  - intros sub' x payload. cbn. destruct (decide (sub' = sub)) as [->|Hne]; [rewrite lookup_insert_eq|rewrite lookup_insert_ne by done].
    + by intros [= <-] ?%elem_of_nil.
    + apply inv_queues0.
  - intros i r Hr. destruct (inv_requests0 i r Hr) as (Ht & x & Hx & Hrest). split; [done|]. exists x. auto.
  - intros sub' reg Hreg. destruct (inv_responders0 sub' reg Hreg) as (Ht & x & Hx & Hc). split; [done|]. exists x. auto.
  - intros i r x e heard Hr Hp Hu. cbn. rewrite lookup_insert_ne by (apply not_eq_sym; exact (inv_sub_neq _ _ _ _ _ _ _ HI' Hf Hr)). by eapply inv_waiting0.
Qed.

Lemma Inv_responder sub reg x b resp reqs answers :
  bkHeap b !! sub = Some x -> sbChannel x = tpName (rrTopic reg) -> requestTopicOf (rrTopic reg) ->
  Inv b resp reqs answers -> Inv b (<[sub := reg]> resp) reqs answers.
Proof.
  intros Hx Hc Ht HI. destruct HI. split; try done. intros sub' reg' Hreg.
  apply lookup_insert_Some in Hreg as [[<- <-]|[_ Hreg]]; [|by apply inv_responders0]. split; [done|]. by exists x.
Qed.

Lemma Inv_stopped sub b resp reqs answers : Inv b resp reqs answers -> Inv b (delete sub resp) reqs answers.
Proof. intros HI. destruct HI. split; try done. intros sub' reg [_ Hr]%lookup_delete_Some. by apply inv_responders0. Qed.

Lemma Inv_open i r x b resp reqs answers :
  reqs !! i = None -> rqPhase r = Opened -> requestTopicOf (rqTopic r) ->
  bkHeap b !! rqSub r = Some x -> sbChannel x = ReplyChannel (cid r) -> sbOpen x = true ->
  (forall j r', reqs !! j = Some r' -> rqSub r' <> rqSub r) ->
  Inv b resp reqs answers -> Inv b resp (<[i := r]> reqs) answers.
Proof.
  intros Hi Hp Ht Hx Hc Ho Hd HI.
  assert (grows reqs (<[i := r]> reqs)) as Hg.
  { intros j r' Hr. exists r'. rewrite lookup_insert_ne by congruence. done. }
  destruct HI. split; try done.
  - intros sub y payload Hy Hin. eapply legit_grows; [exact Hg|reflexivity|by eapply inv_queues0].
  - intros j r' [[<- <-]|[_ Hr]]%lookup_insert_Some; [|by eapply inv_requests0]. split; [done|]. exists x. auto.
  - intros j k r1 r2 [[<- <-]|[Hj H1]]%lookup_insert_Some [[<- <-]|[Hk H2]]%lookup_insert_Some He; [done| | |by eapply inv_distinct0].
    + by destruct (Hd k r2 H2).
    + by destruct (Hd j r1 H1).
  - intros q e Hin. destruct (inv_answers0 q e Hin) as [He [channel Hpub]]. split; [done|]. exists channel. by eapply published_grows.
  - intros j r' e [[<- <-]|[_ Hr]]%lookup_insert_Some Hret; [congruence|by eapply inv_returned0].
  - intros j r' y e heard [[<- <-]|[Hj Hr]]%lookup_insert_Some Hw Hu; [congruence|]. eapply inv_waiting0; [done|done|].
    intros k r2 Hk He. apply (Hu k r2); [|done]. rewrite lookup_insert_ne by congruence. done.
Qed.

Lemma Inv_publish o channel payload b resp reqs answers :
  legit reqs answers channel payload -> Inv b resp reqs answers -> Inv (Publish o channel payload b) resp reqs answers.
Proof.
  intros Hl HI.
  assert (forall sub x, bkHeap b !! sub = Some x -> exists x', bkHeap (Publish o channel payload b) !! sub = Some x' /\
    sbChannel x' = sbChannel x /\ sbOpen x' = sbOpen x) as Hold.
  { intros sub x Hx. rewrite lookup_Publish, Hx. cbn. eexists. split; [done|]. case_bool_decide; [|done].
    by destruct (offer_facts payload x) as (? & ? & _). }
  destruct HI. split; try done.
  - by apply Publish_indexed.
  - intros sub x' p. rewrite lookup_Publish. destruct (bkHeap b !! sub) as [x|] eqn:Hx; [|done]. cbn. intros [= <-] Hin.
    case_bool_decide as Hsub; [|by eapply inv_queues0]. destruct (offer_facts payload x) as (Hc & _ & _ & Hq). rewrite Hc.
    apply Hq in Hin as [Hin| ->]; [by eapply inv_queues0|]. destruct Hsub as [(s & Hs & _ & Hch)%inv_indexed0 _]. congruence.
  - intros i r Hr. destruct (inv_requests0 i r Hr) as (Ht & x & Hx & Hc & Ho). split; [done|].
    destruct (Hold _ _ Hx) as (x' & Hx' & Hc' & Ho'). exists x'. by rewrite Hc', Ho'.
  - intros sub reg Hr. destruct (inv_responders0 sub reg Hr) as (Ht & x & Hx & Hc). split; [done|].
    destruct (Hold _ _ Hx) as (x' & Hx' & Hc' & _). exists x'. by rewrite Hc'.
  - intros i r x' e heard Hr Hw Hu. rewrite lookup_Publish. destruct (bkHeap b !! rqSub r) as [x|] eqn:Hx; [|done]. cbn.
    intros [= <-] Hin Hheard. case_bool_decide; [apply offer_facts|by eapply inv_waiting0].
Qed.

(** An answer recorded and published: every request that waits under its id, and
    that the publication gets through to, has something to receive. *)
Lemma Inv_answer o q e data b resp reqs answers channel :
  published reqs q channel -> evCorrelationId e = evCorrelationId q -> UnmarshalEvent data = Ok e ->
  Inv b resp reqs answers -> 
  Inv (Publish o (ReplyChannel (evCorrelationId q)) data b) resp reqs (answers ++ [(q, e, ocHeard o)]).
Proof.
  intros Hpub He Hu HI.
  assert (forall q' e', made (answers ++ [(q, e, ocHeard o)]) q' e' <-> made answers q' e' \/ (q' = q /\ e' = e)) as Hmade.
  { intros q' e'. unfold made. split; [intros [h [Hin|Hin%list_elem_of_singleton]%elem_of_app]|]; [left; eauto|right; by simplify_eq|].
    intros [[h Hin]|[-> ->]]; eexists; apply elem_of_app; [by left; exact Hin|by right; apply list_elem_of_singleton]. }
  assert (Inv b resp reqs answers -> legit reqs (answers ++ [(q, e, ocHeard o)]) (ReplyChannel (evCorrelationId q)) data) as Hl.
  { intros _. split.
    - intros c Hc. apply str_app_inv_l in Hc. exists q, e. rewrite Hmade. split_and!; [by right|done|congruence|done].
    - intros t [->|(slug & _ & ->)] Hc; [by discriminate Hc|by discriminate Hc]. }
  pose proof HI as HI'. destruct HI. split.
  - by apply Publish_indexed.
  - intros sub x' p. rewrite lookup_Publish. destruct (bkHeap b !! sub) as [x|] eqn:Hx; [|done]. cbn. intros [= <-] Hin.
    assert (forall p', p' ∈ sbQueue x -> legit reqs (answers ++ [(q, e, ocHeard o)]) (sbChannel x) p') as Hold.
    { intros p' Hp'. eapply legit_grows; [apply grows_refl| |by eapply inv_queues0]. set_solver. }
    case_bool_decide as Hsub; [|by apply Hold]. destruct (offer_facts data x) as (Hc & _ & _ & Hq). rewrite Hc.
    apply Hq in Hin as [Hin| ->]; [by apply Hold|]. destruct Hsub as [(s & Hs & _ & Hch)%inv_indexed0 _].
    rewrite Hx in Hs. injection Hs as <-. rewrite Hch. by apply Hl.
  - intros i r Hr. destruct (inv_requests0 i r Hr) as (Ht & x & Hx & Hc & Ho). split; [done|]. rewrite lookup_Publish, Hx. cbn.
    eexists. split; [done|]. case_bool_decide; [|done]. destruct (offer_facts data x) as (-> & -> & _). done.
  - done.
  - intros sub reg Hr. destruct (inv_responders0 sub reg Hr) as (Ht & x & Hx & Hc). split; [done|]. rewrite lookup_Publish, Hx. cbn.
    eexists. split; [done|]. case_bool_decide; [|done]. by destruct (offer_facts data x) as (-> & _).
  - intros q' e' [Hin|[-> ->]]%Hmade; [by apply inv_answers0|]. by eauto.
  - intros i r e' Hr Hret. destruct (inv_returned0 i r e' Hr Hret) as (q' & Hin & Hc). exists q'. rewrite Hmade. auto.
  - intros i r x' e' heard Hr Hw Huniq. rewrite lookup_Publish. destruct (bkHeap b !! rqSub r) as [x|] eqn:Hx; [|done]. cbn.
    intros [= <-] [Hin|Hin%list_elem_of_singleton]%elem_of_app Hheard.
    + case_bool_decide; [apply offer_facts|by eapply inv_waiting0].
    + injection Hin as <- <- ->. case_bool_decide as Hsub; [apply offer_facts|]. destruct Hsub. split; [|done]. apply inv_indexed0. exists x.
      destruct (inv_requests0 i r Hr) as (_ & x2 & Hx2 & Hc & [[reply Hret]|Ho]); [congruence|].
      rewrite Hx in Hx2. injection Hx2 as <-. by split_and!.
Qed.

(** A request takes its next phase. *)
Lemma Inv_phase i r p b resp reqs answers :
  reqs !! i = Some r -> (p = Waiting \/ unsent p -> unsent (rqPhase r)) ->
  (forall e, p = Returned (Ok e) -> exists q, made answers q e /\ evCorrelationId q = cid r) ->
  Inv b resp reqs answers -> Inv b resp (alter (fun r => r {{ rqPhase := p }}) i reqs) answers.
Proof.
  intros Hr Hw Hret HI.
  assert (forall j r', alter (fun r => r {{ rqPhase := p }}) i reqs !! j = Some r' ->
    exists r0, reqs !! j = Some r0 /\ rqEvent r' = rqEvent r0 /\ rqTopic r' = rqTopic r0 /\ rqSub r' = rqSub r0 /\
      (j = i /\ rqPhase r' = p \/ r' = r0)) as Hback.
  { intros j r' Hj. destruct (decide (j = i)) as [->|Hne].
    - rewrite lookup_alter_eq, Hr in Hj. injection Hj as <-. exists r. destruct r. by split_and!; [..|left].
    - rewrite lookup_alter_ne in Hj by done. exists r'. by split_and!; [..|right]. }
  assert (grows reqs (alter (fun r => r {{ rqPhase := p }}) i reqs)) as Hg.
  { intros j r' Hj. destruct (decide (j = i)) as [->|Hne].
    - rewrite lookup_alter_eq, Hr. rewrite Hr in Hj. injection Hj as <-. eexists. split; [done|]. destruct r. cbn in *. split_and!; [done..|auto].
    - rewrite lookup_alter_ne by done. by exists r'. }
  destruct HI. split; try done.
  - intros sub x payload Hx Hin. eapply legit_grows; [exact Hg|reflexivity|by eapply inv_queues0].
  - intros j r' Hj. destruct (Hback j r' Hj) as (r0 & H0 & He & Ht & Hs & Hph). unfold cid. rewrite He, Ht, Hs.
    destruct (inv_requests0 j r0 H0) as (Htt & x & Hx & Hc & Ho). split; [done|]. exists x. split_and!; [done..|].
    destruct Hph as [[-> Hp]| ->]; [|done]. rewrite Hr in H0. injection H0 as <-. destruct Ho as [[reply Hreply]|]; [|by right].
    destruct p as [| | |reply']; [..|left; by eexists]; (destruct Hw as [Hu|Hu]; [unfold unsent; auto|congruence..]).
  - intros j k r1 r2 Hj Hk Hs. destruct (Hback j r1 Hj) as (r1' & H1 & _ & _ & Hs1 & _), (Hback k r2 Hk) as (r2' & H2 & _ & _ & Hs2 & _).
    eapply inv_distinct0; [exact H1|exact H2|congruence].
  - intros q e Hin. destruct (inv_answers0 q e Hin) as [He [channel Hpub]]. split; [done|]. exists channel. by eapply published_grows.
  - intros j r' e Hj Hp. destruct (Hback j r' Hj) as (r0 & H0 & He & _ & _ & [[-> Hp']| ->]); [|by eapply inv_returned0].
    rewrite Hr in H0. injection H0 as <-. unfold cid. rewrite He. apply Hret. congruence.
  - intros j r' x e heard Hj Hwait Hu Hx Hin Hheard. destruct (Hback j r' Hj) as (r0 & H0 & He & _ & Hs & Hph). rewrite He in Hin. rewrite Hs in Hx, Hheard.
    assert (forall k r2, reqs !! k = Some r2 -> cid r2 = cid r0 -> k = j) as Hu0.
    { intros k r2 Hk Hc. destruct (Hg k r2 Hk) as (r2' & Hk' & He' & _). apply (Hu k r2' Hk'). unfold cid in *. congruence. }
    destruct Hph as [[-> Hp]| ->]; [|by eapply inv_waiting0]. exfalso.
    destruct (inv_answers0 (rqEvent r0) e) as [_ (channel & k & r2 & Hk & Hp2 & He2 & _)]; [by exists heard|].
    assert (k = i) as -> by (apply (Hu0 k r2 Hk); unfold cid; congruence). rewrite Hr in H0, Hk. simplify_eq. apply Hp2, Hw. left. congruence.
Qed.

(** A subscription is closed, or something is taken from it, on behalf of no
    request that still waits. *)
Lemma Inv_touched sub b b' resp reqs answers :
  indexed b' ->
  (forall sub' x, bkHeap b !! sub' = Some x -> exists x', bkHeap b' !! sub' = Some x' /\ sbChannel x' = sbChannel x /\
     (sub' <> sub -> x' = x)) ->
  (forall sub' x', bkHeap b' !! sub' = Some x' -> exists x, bkHeap b !! sub' = Some x /\ sbChannel x' = sbChannel x /\
     (sub' <> sub -> x' = x) /\ forall p, p ∈ sbQueue x' -> p ∈ sbQueue x) ->
  (forall i r, reqs !! i = Some r -> rqSub r = sub -> returned r) ->
  Inv b resp reqs answers -> Inv b' resp reqs answers.
Proof.
  intros Hix Hfwd Hbwd Hsub HI. destruct HI. split; try done.
  - intros sub' x' payload Hx' Hin. destruct (Hbwd _ _ Hx') as (x & Hx & -> & _ & Hq). eapply inv_queues0; [exact Hx|by apply Hq].
  - intros i r Hr. destruct (inv_requests0 i r Hr) as (Ht & x & Hx & Hc & Ho). split; [done|].
    destruct (Hfwd _ _ Hx) as (x' & Hx' & Hc' & Hsame). exists x'. split; [done|]. split; [by rewrite Hc'|].
    destruct (decide (rqSub r = sub)); [left; by eapply Hsub|]. rewrite Hsame by done. done.
  - intros sub' reg Hr. destruct (inv_responders0 sub' reg Hr) as (Ht & x & Hx & Hc). split; [done|].
    destruct (Hfwd _ _ Hx) as (x' & Hx' & Hc' & _). exists x'. by rewrite Hc'.
  - intros i r x' e heard Hr Hw Hu Hx' Hin Hheard. destruct (Hbwd _ _ Hx') as (x & Hx & _ & Hsame & _).
    destruct (decide (rqSub r = sub)) as [He|Hne]; [destruct (Hsub i r Hr He); congruence|]. rewrite Hsame by done.
    by eapply inv_waiting0.
Qed.

Lemma Inv_close sub b resp reqs answers :
  (forall i r, reqs !! i = Some r -> rqSub r = sub -> returned r) ->
  Inv b resp reqs answers -> Inv (Close sub b) resp reqs answers.
Proof.
  intros Hsub HI. apply (Inv_touched sub b); [apply Close_indexed, HI| | |done|done].
  - intros sub' x Hx. rewrite lookup_Close. case_decide as Hd; [|by eexists].
    subst. rewrite Hx. cbn. eexists. split; [done|]. by destruct x.
  - intros sub' x'. rewrite lookup_Close. case_decide as Hd; [|by eexists].
    subst. destruct (bkHeap b !! sub) as [x|]; [|done]. cbn. intros [= <-]. exists x. by destruct x.
Qed.

Lemma Inv_receive sub payload b b' resp reqs answers :
  receive sub b = Some (payload, b') -> (forall i r, reqs !! i = Some r -> rqSub r = sub -> returned r) ->
  Inv b resp reqs answers -> Inv b' resp reqs answers.
Proof.
  intros Hr Hsub HI. pose proof (receive_indexed _ _ _ _ Hr (inv_indexed _ _ _ _ HI)) as Hi.
  apply receive_Some in Hr as (s & rest & Hs & Hq & ->). apply (Inv_touched sub b); [done| | |done|done]; cbn.
  - intros sub' x Hx. destruct (decide (sub' = sub)) as [->|Hne]; [rewrite lookup_insert_eq|rewrite lookup_insert_ne by done; by eexists].
    eexists. split; [done|]. destruct s. by simplify_eq.
  - intros sub' x'. destruct (decide (sub' = sub)) as [->|Hne]; [rewrite lookup_insert_eq|rewrite lookup_insert_ne by done; by eexists].
    intros [= <-]. exists s. destruct s. cbn in *. subst. split_and!; [done..|]. intros p Hp. by right.
Qed.

(** ** Each step keeps it *)

Definition ok (s : System) : Prop := Inv (syBroker s) (syResponders s) (syRequests s) (syAnswers s).

Lemma ok_initial w : ok (initial w).
Proof.
  split; try done; try (by intros * ?%elem_of_nil); try (by intros * [? ?%elem_of_nil]).
  intros sub channel. cbn. rewrite lookup_empty. cbn. split; [set_solver|by intros (? & ? & _)].
Qed.

Lemma topic_not_reply t c : requestTopicOf t -> tpName t <> ReplyChannel c.
Proof. by intros [->|(slug & _ & ->)] [=]. Qed.

Lemma notify_legit reqs answers topic payload : notifyTopicOf topic -> legit reqs answers (tpName topic) payload.
Proof.
  intros Ht. split.
  - intros c. by destruct Ht as [->|(slug & ->)]; intros [=].
  - intros t Hr Hc. exfalso. destruct Ht as [->|(slug & ->)]; destruct Hr as [->|(slug' & Hs & ->)]; try by discriminate Hc.
    apply ValidateSlug_iff in Hs as (_ & _ & Hs). exact (request_config slug slug' Hs Hc).
Qed.

Lemma no_request_sub b resp reqs answers sub reg i r :
  Inv b resp reqs answers -> resp !! sub = Some reg -> reqs !! i = Some r -> rqSub r = sub -> returned r.
Proof.
  intros HI Hreg Hr <-. exfalso. destruct (inv_requests _ _ _ _ HI i r Hr) as (_ & x & Hx & Hc & _).
  destruct (inv_responders _ _ _ _ HI _ reg Hreg) as (Ht & y & Hy & Hc'). rewrite Hx in Hy. injection Hy as <-.
  eapply topic_not_reply; [exact Ht|]. by rewrite <- Hc', Hc.
Qed.

Lemma only_this_request i p b resp reqs answers r :
  Inv b resp reqs answers -> reqs !! i = Some r ->
  forall j r', alter (fun r => r {{ rqPhase := Returned p }}) i reqs !! j = Some r' -> rqSub r' = rqSub r -> returned r'.
Proof.
  intros HI Hr j r' Hj Hs. destruct (decide (j = i)) as [->|Hne].
  - rewrite lookup_alter_eq, Hr in Hj. injection Hj as <-. exists p. by destruct r.
  - rewrite lookup_alter_ne in Hj by done. destruct Hne. by eapply (inv_distinct _ _ _ _ HI).
Qed.

Context `{!EnvelopeLaw}.

Lemma ok_abandon err i r s : syRequests s !! i = Some r -> ok s -> ok (abandon err i r s).
Proof.
  intros Hr Hok. destruct s as [b w resp reqs answers]. unfold abandon, ok, setPhase in *. cbn in *.
  apply Inv_close; [by eapply only_this_request|]. eapply Inv_phase; [exact Hr|by intros [|[|]]|done|done].
Qed.

Lemma ok_acknowledged received i r s :
  syRequests s !! i = Some r -> rqPhase r = Opened -> ok s -> ok (acknowledge received i r s).
Proof.
  intros Hr Hp Hok. destruct received as [err|]; [by apply ok_abandon|].
  destruct s as [b w resp reqs answers]. unfold ok, setPhase in *. cbn in *.
  eapply Inv_phase; [exact Hr|by left|done|done].
Qed.

(** A request being sent may wait on its topic's channel once the call is past
    its publication. *)
Lemma sent_legit i r p encoded reqs answers :
  reqs !! i = Some r -> requestTopicOf (rqTopic r) -> ~ unsent p -> UnmarshalEvent encoded = Ok (rqEvent r) ->
  legit (alter (fun r => r {{ rqPhase := p }}) i reqs) answers (tpName (rqTopic r)) encoded.
Proof.
  intros Hr Ht Hp Hu. split; [intros c Hc; by destruct (topic_not_reply _ c Ht)|]. intros t _ _.
  exists (rqEvent r). split; [|done]. exists i, (r {{ rqPhase := p }}). rewrite lookup_alter_eq, Hr. by destruct r.
Qed.

Lemma ok_sent o i r s : syRequests s !! i = Some r -> rqPhase r = Subscribed -> ok s -> ok (sendRequest o i r s).
Proof.
  intros Hr Hp Hok. unfold sendRequest. destruct (MarshalEvent (rqEvent r)) as [data|err] eqn:Hm; [|by apply ok_abandon].
  apply unmarshal_marshal in Hm. destruct (inv_requests _ _ _ _ Hok i r Hr) as (Ht & _).
  destruct s as [b w resp reqs answers]; unfold abandon, ok, setPhase in *; destruct (ocError o) as [err|]; cbn in *.
  - apply Inv_close; [by eapply only_this_request|].
    apply Inv_publish; [apply sent_legit; [done..|by intros [|]|done]|]. eapply Inv_phase; [exact Hr|by intros [|[|]]|done|done].
  - apply Inv_publish; [apply sent_legit; [done..|by intros [|]|done]|]. eapply Inv_phase; [exact Hr|by right|done|done].
Qed.

Lemma ok_received i r s s' :
  syRequests s !! i = Some r -> receiveReply i r s = Some s' -> ok s -> ok s'.
Proof.
  intros Hr Hrecv Hok. unfold receiveReply in Hrecv. apply fmap_Some in Hrecv as ([payload b'] & Hrecv & ->).
  destruct s as [b w resp reqs answers]; unfold ok, setPhase in *; cbn in *.
  apply Inv_close; [by eapply only_this_request|]. eapply Inv_receive; [exact Hrecv|by eapply only_this_request|].
  eapply Inv_phase; [exact Hr|by intros [|[|]]| |exact Hok]. intros e [= He].
  apply receive_Some in Hrecv as (x & rest & Hx & Hq & _). destruct (inv_requests _ _ _ _ Hok i r Hr) as (_ & y & Hy & Hc & _).
  rewrite Hx in Hy. injection Hy as <-.
  destruct (inv_queues _ _ _ _ Hok _ _ payload Hx) as [Hl _]; [rewrite Hq; by left|].
  destruct (Hl _ Hc) as (q & e' & Hin & Hcq & _ & Hu). exists q. rewrite He in Hu. by injection Hu as ->.
Qed.

Lemma ok_dispatched o now reg payload s :
  requestTopicOf (rrTopic reg) -> legit (syRequests s) (syAnswers s) (tpName (rrTopic reg)) payload ->
  ok s -> ok (dispatchRequest o now reg payload s).
Proof.
  intros Ht [_ Hl] Hok. unfold dispatchRequest. destruct (Hl _ Ht eq_refl) as (q & Hpub & ->).
  destruct (rrHandler reg q (syWorld s)) as [w answer]. destruct s as [b w0 resp reqs answers]. unfold ok in *. cbn in *.
  destruct answer as [[replyPayload|]|]; [|done|done].
  destruct (MarshalEvent _) as [data|] eqn:Hm; [|done]. cbn. by eapply Inv_answer; [exact Hpub| |apply unmarshal_marshal; exact Hm|].
Qed.

Lemma ok_exchange s s' : exchange s s' -> ok s -> ok s'.
Proof.
  destruct 1 as [sub reg s Hf Ht|sub reg s Hf|sub reg s Hreg|i sub source minted now subscribed topic name correlationID payload s s' Hf Hi Ht Ho
    |received i r s Hr Hp|o i r s Hr Hp|i r s s' Hr Hp Hrecv|reason i r s Hr Hp|i r s Hr Hp|o now sub reg s s' Hreg Hrespond|o topic payload s Ht];
    intros Hok.
  - destruct s as [b w resp reqs answers]. unfold ok, fresh_in in *. cbn in *.
    eapply Inv_responder; [apply lookup_insert_eq|done|done|]. by apply Inv_subscribe.
  - destruct s as [b w resp reqs answers]. unfold ok, fresh_in in *. cbn in *.
    apply Inv_close; [|by apply Inv_subscribe]. intros i r Hr He. by destruct (inv_sub_neq _ _ _ _ i r sub Hok Hf Hr).
  - destruct s as [b w resp reqs answers]. unfold ok in *. cbn in *. apply Inv_stopped.
    apply Inv_close; [|done]. intros i r Hr Hs. by eapply no_request_sub.
  - unfold openRequest in Ho. destruct (negb _); [done|]. destruct subscribed; [done|]. injection Ho as <-.
    destruct s as [b w resp reqs answers]. unfold ok, fresh_in in *. cbn in *.
    eapply Inv_open; [done|done|done|apply lookup_insert_eq|done|done| |by apply Inv_subscribe].
    intros j r' Hj. by eapply inv_sub_neq.
  - by apply ok_acknowledged.
  - by apply ok_sent.
  - by eapply ok_received.
  - by apply ok_abandon.
  - by apply ok_abandon.
  - unfold respond in Hrespond. apply fmap_Some in Hrespond as ([payload b'] & Hrecv & ->).
    destruct s as [b w resp reqs answers]. unfold ok in Hok. cbn in *.
    destruct (inv_responders _ _ _ _ Hok sub reg Hreg) as (Ht & x & Hx & Hc). apply ok_dispatched; [done| |].
    + cbn. pose proof Hrecv as (x' & rest & Hx' & Hq & _)%receive_Some. rewrite Hx in Hx'. injection Hx' as <-.
      rewrite <- Hc. eapply (inv_queues _ _ _ _ Hok); [exact Hx|]. rewrite Hq. by left.
    + unfold ok. cbn. eapply Inv_receive; [exact Hrecv| |exact Hok]. intros i r Hr Hs. by eapply no_request_sub.
  - destruct s as [b w resp reqs answers]. unfold ok in *. cbn in *. apply Inv_publish; [by apply notify_legit|done].
Qed.

Lemma reachable_ok w s : rtc exchange (initial w) s -> ok s.
Proof.
  intros Hs. remember (initial w) as s0 eqn:Hinit. assert (ok s0) as Hok by (rewrite Hinit; apply ok_initial). clear Hinit.
  induction Hs as [|s0 s1 s2 Hx Hs IH]; [done|]. apply IH. by eapply ok_exchange.
Qed.

(** ** What a request gets *)

(** A correlation id no other request uses. *)
Definition sole (i : nat) (r : request) (s : System) : Prop :=
  forall j r', syRequests s !! j = Some r' -> cid r' = cid r -> j = i.

(** C19: However requests, responders and notifications interleave, over a transport
    any of whose calls may fail and that may lose any message: a request only
    returns a reply with its own correlation id, which a responder made to a
    request with that id; if no other request uses the id, to this very request.
    And a request that still waits, under an id of its own, for a reply the
    transport got through to it has a reply to receive: it was listening before
    its request could be answered. *)
Theorem request_reply w s i r :
  rtc exchange (initial w) s -> syRequests s !! i = Some r ->
  (forall e, rqPhase r = Returned (Ok e) ->
     evCorrelationId e = cid r /\ (exists q, made (syAnswers s) q e /\ evCorrelationId q = cid r) /\
     (sole i r s -> made (syAnswers s) (rqEvent r) e)) /\
  (forall e heard, rqPhase r = Waiting -> sole i r s -> (rqEvent r, e, heard) ∈ syAnswers s -> heard (rqSub r) = true ->
     exists s' e', exchange s s' /\ rqPhase <$> syRequests s' !! i = Some (Returned (Ok e')) /\ made (syAnswers s) (rqEvent r) e').
Proof.
  intros Hs%reachable_ok Hr. pose proof Hs as HI. unfold ok in HI.
  assert (forall q e, sole i r s -> made (syAnswers s) q e -> evCorrelationId q = cid r -> q = rqEvent r) as Hown.
  { intros q e Hsole Hin Hc. destruct (inv_answers _ _ _ _ HI _ _ Hin) as [_ (channel & j & r' & Hj & _ & <- & _)].
    assert (j = i) as -> by (by apply (Hsole j r')). congruence. }
  split.
  - intros e Hp. destruct (inv_returned _ _ _ _ HI i r e Hr Hp) as (q & Hin & Hc).
    destruct (inv_answers _ _ _ _ HI _ _ Hin) as [He _]. split; [congruence|]. split; [by eexists|].
    intros Hsole. by rewrite <- (Hown q e).
  - intros e heard Hp Hsole Hin Hheard. destruct (inv_requests _ _ _ _ HI i r Hr) as (_ & x & Hx & Hc & _).
    pose proof (inv_waiting _ _ _ _ HI i r x e heard Hr Hp Hsole Hx Hin Hheard) as Hq.
    destruct (sbQueue x) as [|payload rest] eqn:Hqx; [done|].
    destruct (inv_queues _ _ _ _ HI _ _ payload Hx) as [Hl _]; [rewrite Hqx; by left|].
    destruct (Hl _ Hc) as (q & e' & Hin' & Hcq & _ & Hu).
    destruct (receive (rqSub r) (syBroker s)) as [[p b']|] eqn:Hrecv;
      [|unfold receive in Hrecv; by rewrite Hx, Hqx in Hrecv].
    pose proof Hrecv as (x' & rest' & Hx' & Hq' & _)%receive_Some. rewrite Hx in Hx'. injection Hx' as <-.
    rewrite Hqx in Hq'. injection Hq' as <- <-. eexists _, e'. split; [|split].
    + eapply reply_received; [exact Hr|exact Hp|]. unfold receiveReply. by rewrite Hrecv.
    + destruct s. unfold setPhase. cbn in *. rewrite lookup_alter_eq, Hr. cbn. rewrite Hu. by destruct r.
    + by rewrite <- (Hown q e').
Qed.
End exchange.

(** * A concrete exchange *)

Definition heartbeatRequest : Event :=
  {| evName := HeartbeatRequestEventName; evSource := SourceServer; evCorrelationId := "c1"; evTimestamp := 0; evPayload := "" |}.

Definition heartbeatReply : Event :=
  {| evName := HeartbeatReplyEventName; evSource := AgentSource "nas"; evCorrelationId := "c1"; evTimestamp := 1; evPayload := "alive" |}.

(** An encoding that knows the two messages. *)
#[local] Instance heartbeatEnvelope : Envelope := {|
  MarshalEvent := fun event =>
    if decide (event = heartbeatRequest) then Ok "request" else if decide (event = heartbeatReply) then Ok "reply" else Err "unknown message";
  UnmarshalEvent := fun data =>
    if String.eqb data "request" then Ok heartbeatRequest else if String.eqb data "reply" then Ok heartbeatReply else Err "unexpected token";
|}.

#[local] Instance heartbeatEnvelope_law : EnvelopeLaw.
Proof.
  intros event data. cbn. destruct (decide (event = heartbeatRequest)) as [->|]; [by intros [= <-]|].
  destruct (decide (event = heartbeatReply)) as [->|]; [by intros [= <-]|done].
Qed.

(** A responder that counts the heartbeats it answers. *)
Definition heartbeatResponder : @requestRegistration nat :=
  {| rrTopic := HeartbeatTopic; rrSource := AgentSource "nas"; rrHandler := fun _ n => (S n, Ok (Some "alive")) |}.

Definition heartbeatCall (p : phase) : request :=
  {| rqTopic := HeartbeatTopic; rqEvent := heartbeatRequest; rqSub := 2; rqPhase := p |}.

(** The states an exchange goes through over the in-memory transport: the responder
    answers a call that has not yet looked at its replies. *)
Definition afterSubscribing : @System nat :=
  (initial 0) {{ syBroker ::= Subscribe HeartbeatRequestChannel 1; syResponders ::= fun m => <[1 := heartbeatResponder]> m }}.

Definition afterOpening : @System nat :=
  afterSubscribing {{ syBroker ::= Subscribe (ReplyChannel "c1") 2; syRequests ::= fun m => <[7 := heartbeatCall Opened]> m }}.

Definition afterReceive : @System nat := acknowledge None 7 (heartbeatCall Opened) afterOpening.

Definition heartbeatAnswered : @System nat := {|
  syBroker := {|
    bkHeap := {[1 := {| sbChannel := HeartbeatRequestChannel; sbQueue := []; sbOpen := true |};
                2 := {| sbChannel := ReplyChannel "c1"; sbQueue := ["reply"]; sbOpen := true |}]};
    bkSubs := {[HeartbeatRequestChannel := {[1]}; ReplyChannel "c1" := {[2]}]} |};
  syWorld := 1;
  syResponders := {[1 := heartbeatResponder]};
  syRequests := {[7 := heartbeatCall Waiting]};
  syAnswers := [(heartbeatRequest, heartbeatReply, fun _ => true)] |}.

Lemma heartbeat_reachable : rtc exchange (initial 0) heartbeatAnswered.
Proof.
  apply (rtc_l _ _ afterSubscribing); [apply (responder_starts 1 heartbeatResponder); [done|by left]|].
  apply (rtc_l _ _ afterOpening).
  { apply (request_opens 7 2 SourceServer "" 0 None HeartbeatTopic HeartbeatRequestEventName "c1" ""); [by vm_compute|done|by left|by vm_compute]. }
  apply (rtc_l _ _ afterReceive); [by apply request_acknowledged|].
  apply (rtc_l _ _ (sendRequest inMemory 7 (heartbeatCall Subscribed) afterReceive)).
  { by apply request_sent. }
  apply rtc_once. apply (responder_turn inMemory 1 1 heartbeatResponder); by vm_compute.
Qed.

Lemma request_reply_witness :
  (forall e, rqPhase (heartbeatCall Waiting) = Returned (Ok e) ->
     evCorrelationId e = "c1" /\ (exists q, made (syAnswers heartbeatAnswered) q e /\ evCorrelationId q = "c1") /\
     (sole 7 (heartbeatCall Waiting) heartbeatAnswered -> made (syAnswers heartbeatAnswered) heartbeatRequest e)) /\
  (forall e heard, rqPhase (heartbeatCall Waiting) = Waiting -> sole 7 (heartbeatCall Waiting) heartbeatAnswered ->
     (heartbeatRequest, e, heard) ∈ syAnswers heartbeatAnswered -> heard 2 = true ->
     exists s' e', exchange heartbeatAnswered s' /\ rqPhase <$> syRequests s' !! 7 = Some (Returned (Ok e')) /\
       made (syAnswers heartbeatAnswered) heartbeatRequest e').
Proof. apply (request_reply 0 heartbeatAnswered 7 (heartbeatCall Waiting)); [apply heartbeat_reachable|reflexivity]. Defined.

(** * Two requests under one id *)

(** The correlation id is the caller's to choose: the server takes it from the
    header of the client's call. Two calls that share one share a reply channel,
    and the first is handed the reply made to the second. *)

Definition earlierRequest : Event := heartbeatRequest {{ evTimestamp := (-1)%Z }}.

Definition earlierCall (p : phase) : request := (heartbeatCall p) {{ rqEvent := earlierRequest; rqSub := 3 }}.

#[local] Instance sharedEnvelope : Envelope := {|
  MarshalEvent := fun event => if decide (event = earlierRequest) then Ok "earlier" else MarshalEvent event;
  UnmarshalEvent := fun data => if String.eqb data "earlier" then Ok earlierRequest else UnmarshalEvent data;
|}.

Definition bothListening : @System nat :=
  afterReceive {{ syBroker ::= Subscribe (ReplyChannel "c1") 3; syRequests ::= fun m => <[8 := earlierCall Opened]> m }}.

Definition bothWaiting : @System nat :=
  let s := acknowledge None 8 (earlierCall Opened) bothListening in
  sendRequest inMemory 8 (earlierCall Subscribed) (sendRequest inMemory 7 (heartbeatCall Subscribed) s).

Example replies_cross :
  exists s, rtc exchange (initial 0) s /\
    rqPhase <$> syRequests s !! 8 = Some (Returned (Ok heartbeatReply)) /\ (fun '(q, _, _) => q) <$> syAnswers s = [heartbeatRequest].
Proof.
  eexists. split.
  - apply (rtc_l _ _ afterSubscribing); [apply (responder_starts 1 heartbeatResponder); [done|by left]|].
    apply (rtc_l _ _ afterOpening).
    { apply (request_opens 7 2 SourceServer "" 0 None HeartbeatTopic HeartbeatRequestEventName "c1" ""); [by vm_compute|done|by left|by vm_compute]. }
    apply (rtc_l _ _ afterReceive); [by apply request_acknowledged|].
    apply (rtc_l _ _ bothListening).
    { apply (request_opens 8 3 SourceServer "" (-1) None HeartbeatTopic HeartbeatRequestEventName "c1" ""); [by vm_compute|done|by left|by vm_compute]. }
    eapply rtc_l; [by apply (request_acknowledged None 8 (earlierCall Opened))|].
    eapply rtc_l; [by apply (request_sent inMemory 7 (heartbeatCall Subscribed))|].
    apply (rtc_l _ _ bothWaiting); [by apply (request_sent inMemory 8 (earlierCall Subscribed))|].
    eapply rtc_l; [eapply (responder_turn inMemory 1 1 heartbeatResponder); by vm_compute|].
    eapply rtc_once. eapply (reply_received 8 (earlierCall Waiting)); by vm_compute.
  - by vm_compute.
Qed.
