(* ===== verification/Streams.v ===== *)
(** The streams' upkeep: src/internal/shared/eventbus/entryid.go, retention.go,
    buspolicy.go, sweeper.go and purge.go, and the validation of the bus's
    settings in src/internal/server/services/event_bus.go. Redis is the class
    [Redis], its documented behaviour the laws beside it; a time is its
    nanoseconds since 1970, and int64 wraps around. *)
From stdpp Require Import strings list gmap.
From Stdlib Require Import Ascii ZArith Lia.
From S2P Require Import Prelude Regex GoText Topics.
#[local] Open Scope go_scope.

Definition wrap64 (z : Z) : Z := (z + 9223372036854775808) mod 18446744073709551616 - 9223372036854775808.

Lemma wrap64_small z : (-9223372036854775808 <= z < 9223372036854775808)%Z -> wrap64 z = z.
Proof. intros Hz. unfold wrap64. rewrite Z.mod_small; lia. Qed.

(** * Entry ids *)

Definition Millisecond : Z := 1000000.
Definition Hour : Z := 3600000000000.

(** [time.Time.UnixMilli]. *)
Definition UnixMilli (t : Z) : Z := wrap64 (t / Millisecond).

Definition StreamIDForTime (t : Z) : string := show_Z (UnixMilli t) +:+ "-0".

(** The text before the first dash, or all of it. *)
Definition beforeDash (id : string) : string := match Cut id "-" with Some (millis, _) => millis | None => id end.

Definition TimeFromStreamID (id : string) : option Z :=
  match Atoi (beforeDash id) with Some millis => Some (millis * Millisecond)%Z | None => None end.

(** * Policies *)

Definition DefaultMaxLen : Z := 10000.
Definition DefaultRetentionHours : Z := 48.
Definition DefaultRetryAttempts : Z := 4.
Definition DefaultRetryBackoffBase : Z := 500 * Millisecond.
Definition DefaultRetryBackoffMax : Z := 30000 * Millisecond.
Definition DefaultSweepInterval : Z := Hour.

Record RetentionPolicy : Type := { rpMaxLen : Z; rpRetentionHours : Z }.
Record RetryPolicy : Type := { ryMaxAttempts : Z; ryBackoffBase : Z; ryBackoffMax : Z }.
Record BusPolicy : Type := { bpRetention : RetentionPolicy; bpRetry : RetryPolicy; bpSweepInterval : Z }.

Definition DefaultBusPolicy : BusPolicy := {|
  bpRetention := {| rpMaxLen := DefaultMaxLen; rpRetentionHours := DefaultRetentionHours |};
  bpRetry := {| ryMaxAttempts := DefaultRetryAttempts; ryBackoffBase := DefaultRetryBackoffBase;
                ryBackoffMax := DefaultRetryBackoffMax |};
  bpSweepInterval := DefaultSweepInterval;
|}.

(** The event_bus section of the configuration; its fields are int32. *)
Record EventBusConfig : Type := {
  ebMaxLen : Z;
  ebRetentionHours : Z;
  ebRetryAttempts : Z;
  ebRetryBackoffBaseMs : Z;
  ebRetryBackoffMaxMs : Z;
}.

Definition BusPolicyFromConfig (c : EventBusConfig) : BusPolicy := {|
  bpRetention := {| rpMaxLen := ebMaxLen c; rpRetentionHours := ebRetentionHours c |};
  bpRetry := {| ryMaxAttempts := ebRetryAttempts c; ryBackoffBase := wrap64 (ebRetryBackoffBaseMs c * Millisecond);
                ryBackoffMax := wrap64 (ebRetryBackoffMaxMs c * Millisecond) |};
  bpSweepInterval := DefaultSweepInterval;
|}.

(** [None] for a section that may be stored. *)
Definition validateEventBusConfig (c : EventBusConfig) : option string :=
  if (ebMaxLen c <=? 0)%Z then Some "max_len must be greater than zero"
  else if (ebRetentionHours c <? 1)%Z then Some "retention_hours must be at least 1"
  else if (ebRetryAttempts c <? 0)%Z then Some "retry_attempts cannot be negative"
  else if (ebRetryBackoffBaseMs c <? 1)%Z then Some "retry_backoff_base_ms must be at least 1"
  else if (ebRetryBackoffMaxMs c <? ebRetryBackoffBaseMs c)%Z then Some "retry_backoff_max_ms must be at least retry_backoff_base_ms"
  else None.

(** * Redis *)

(** The commands the upkeep uses. A SCAN gives the keys it found and the error
    that ended it, if one did. *)
Class Redis : Type := {
  keyspace : Type;
  Scan : keyspace -> string -> list string * option string;
  XTrimMinIDApprox : string -> string -> keyspace -> keyspace * result Z;
  XInfoGroups : string -> keyspace -> result (list string);
  XGroupSetID : string -> string -> string -> keyspace -> keyspace * option string;
  XPendingExt : string -> string -> nat -> keyspace -> result (list string);
  XAck : string -> string -> list string -> keyspace -> keyspace * option string;
}.

(** ** The sweep *)

(** The time the sweep trims up to. *)
Definition cutoff (policy : RetentionPolicy) (now : Z) : Z := (now + wrap64 (wrap64 (- rpRetentionHours policy) * Hour))%Z.

(** The loop of [SweepOnce] over the streams it found. [cancelled n] is the
    context's error when [n] streams are left. *)
Fixpoint sweepStreams `{Redis} (cancelled : nat -> option string) (minID : string) (topics : list Topic) (k : keyspace)
  : keyspace * option string :=
  match topics with
  | [] => (k, None)
  | topic :: rest =>
      match cancelled (length rest) with
      | Some err => (k, Some err)
      | None => let '(k, _) := XTrimMinIDApprox (tpName topic) minID k in sweepStreams cancelled minID rest k
      end
  end.

Definition SweepOnce `{Redis} (cancelled : nat -> option string) (policy : RetentionPolicy) (now : Z) (k : keyspace)
  : keyspace * option string :=
  sweepStreams cancelled (StreamIDForTime (cutoff policy now)) (DiscoverStreamTopics (Scan k)).1 k.

(** ** The purge *)

Definition pelDrainBatch : nat := 500.

Record StreamPurge : Type := { pgStream : string; pgDropped : Z; pgGroupsFastForwarded : list string }.

Definition isNoSuchKey (err : string) : bool := str_contains (to_lower err) "no such key".

Fixpoint drainPending `{Redis} (fuel : nat) (stream group : string) (k : keyspace) : outcome (keyspace * option string) :=
  match fuel with
  | 0 => Diverge
  | S fuel =>
      match XPendingExt stream group pelDrainBatch k with
      | Err err => Done (k, Some ("eventbus: list pending on group " +:+ quote group +:+ " of stream " +:+ quote stream +:+ ": " +:+ err))
      | Ok [] => Done (k, None)
      | Ok ids =>
          match XAck stream group ids k with
          | (k, Some err) =>
              Done (k, Some ("eventbus: acknowledge pending on group " +:+ quote group +:+ " of stream " +:+ quote stream +:+ ": " +:+ err))
          | (k, None) => if (length ids <? pelDrainBatch)%nat then Done (k, None) else drainPending fuel stream group k
          end
      end
  end.

(** The loop over the groups: those fast-forwarded, and the error that stopped it. *)
Fixpoint purgeGroups `{Redis} (fuel : nat) (stream : string) (groups : list string) (k : keyspace)
  : outcome (keyspace * list string * option string) :=
  match groups with
  | [] => Done (k, [], None)
  | group :: rest =>
      match XGroupSetID stream group "$" k with
      | (k, Some err) =>
          Done (k, [], Some ("eventbus: fast-forward group " +:+ quote group +:+ " on stream " +:+ quote stream +:+ ": " +:+ err))
      | (k, None) =>
          let* (k, err) := drainPending fuel stream group k in
          match err with
          | Some err => Done (k, [], Some err)
          | None => let* (k, forwarded, err) := purgeGroups fuel stream rest k in Done (k, group :: forwarded, err)
          end
      end
  end.

Definition PurgeStream `{Redis} (fuel : nat) (now : Z) (stream : string) (k : keyspace)
  : outcome (keyspace * StreamPurge * option string) :=
  let result dropped forwarded := {| pgStream := stream; pgDropped := dropped; pgGroupsFastForwarded := forwarded |} in
  match XTrimMinIDApprox stream (StreamIDForTime now) k with
  | (k, Err err) => Done (k, result 0%Z [], Some ("eventbus: trim stream " +:+ quote stream +:+ ": " +:+ err))
  | (k, Ok dropped) =>
      match XInfoGroups stream k with
      | Err err =>
          Done (k, result dropped [],
            if isNoSuchKey err then None
            else Some ("eventbus: read consumer groups on stream " +:+ quote stream +:+ ": " +:+ err))
      | Ok groups => let* (k, forwarded, err) := purgeGroups fuel stream groups k in Done (k, result dropped forwarded, err)
      end
  end.

(** [clock] is what a stream's PurgeStream finds the time to be. *)
Fixpoint purgeTopics `{Redis} (fuel : nat) (clock : string -> Z) (topics : list Topic) (k : keyspace)
  : outcome (keyspace * list StreamPurge * option string) :=
  match topics with
  | [] => Done (k, [], None)
  | topic :: rest =>
      let* (k, result, err) := PurgeStream fuel (clock (tpName topic)) (tpName topic) k in
      match err with
      | Some err => Done (k, [], Some err)
      | None => let* (k, results, err) := purgeTopics fuel clock rest k in Done (k, result :: results, err)
      end
  end.

Definition PurgeAllStreams `{Redis} (fuel : nat) (clock : string -> Z) (k : keyspace) : outcome (keyspace * list StreamPurge * option string) :=
  purgeTopics fuel clock (DiscoverStreamTopics (Scan k)).1 k.

(** * What Redis documents *)

(** An id is milliseconds and a sequence number, unsigned, compared in that order. *)
Definition parseID (id : string) : option (Z * Z) :=
  match Cut id "-" with
  | Some (millis, sequence) =>
      match Atoi millis, Atoi sequence with
      | Some m, Some n => if (0 <=? m)%Z && (0 <=? n)%Z then Some (m, n) else None
      | _, _ => None
      end
  | None => None
  end.

Definition idBefore (id minID : string) : Prop :=
  exists m n m' n', parseID id = Some (m, n) /\ parseID minID = Some (m', n') /\ (m < m' \/ m = m' /\ n < n')%Z.

(** [entries]: the ids on a stream, oldest first; [pending]: the ids a group
    was given and has not acknowledged. *)
Class RedisLaws `{Redis} : Type := {
  entries : keyspace -> string -> list string;
  pending : keyspace -> string -> string -> list string;
  trim_drops : forall stream minID k k' dropped, XTrimMinIDApprox stream minID k = (k', Ok dropped) ->
    exists old, entries k stream = old ++ entries k' stream /\ Forall (fun id => idBefore id minID) old /\
      dropped = Z.of_nat (length old);
  trim_fails : forall stream minID k k' err, XTrimMinIDApprox stream minID k = (k', Err err) -> entries k' stream = entries k stream;
  trim_elsewhere : forall stream minID k other, other <> stream ->
    entries (XTrimMinIDApprox stream minID k).1 other = entries k other;
  trim_pending : forall stream minID k other group, pending (XTrimMinIDApprox stream minID k).1 other group = pending k other group;
  setid_pending : forall stream group id k other g, pending (XGroupSetID stream group id k).1 other g = pending k other g;
  setid_entries : forall stream group id k other, entries (XGroupSetID stream group id k).1 other = entries k other;
  groups_distinct : forall stream k groups, XInfoGroups stream k = Ok groups -> NoDup groups;
  pending_page : forall stream group count k ids, XPendingExt stream group count k = Ok ids -> ids = take count (pending k stream group);
  ack_pending : forall stream group ids k k', XAck stream group ids k = (k', None) ->
    pending k' stream group = filter (fun id => id ∉ ids) (pending k stream group);
  ack_elsewhere : forall stream group ids k other g, (other, g) <> (stream, group) ->
    pending (XAck stream group ids k).1 other g = pending k other g;
  ack_entries : forall stream group ids k other, entries (XAck stream group ids k).1 other = entries k other;
}.

(** * Properties *)

(** ** Entry ids *)

Lemma index_here s sub : has_prefix sub s = true -> index s sub = Some 0.
Proof. destruct s; cbn [index]; by intros ->. Qed.

Lemma Cut_dash a b : str_forall is_digit a = true -> Cut (a +:+ String "-"%char b) "-" = Some (a, b).
Proof.
  intros Ha. unfold Cut. assert (index (a +:+ String "-"%char b) "-" = Some (String.length a)) as ->.
  { induction a as [|c a IH]; [by apply index_here|]. change (String c a +:+ ?t) with (String c (a +:+ t)).
    cbn [str_forall] in Ha. apply andb_true_iff in Ha as [Hc Ha]. cbn [index has_prefix].
    assert (Ascii.eqb "-" c = false) as -> by (by destruct c as [[] [] [] [] [] [] [] []]).
    cbn [andb]. by rewrite IH. }
  rewrite str_take_app. f_equal. f_equal. change (String "-"%char b) with ("-" +:+ b). rewrite <- str_app_assoc.
  change (String.length "-") with 1. replace (String.length a + 1)%nat with (String.length (a +:+ "-")).
  { apply str_drop_app. } by rewrite str_length_app.
Qed.

Lemma UnixMilli_small t : fits_int t = true ->
  UnixMilli t = (t / Millisecond)%Z /\ fits_int (t / Millisecond) = true.
Proof.
  unfold fits_int, UnixMilli, Millisecond. rewrite !andb_true_iff, !Z.leb_le. intros Ht.
  assert (-9223372036854775808 <= t / 1000000 <= 9223372036854775807)%Z as Hd.
  { split; [apply Z.div_le_lower_bound|apply Z.div_le_upper_bound]; lia. }
  split; [apply wrap64_small; lia|exact Hd].
Qed.

Lemma Cut_time t : fits_int t = true -> (0 <= t)%Z -> Cut (StreamIDForTime t) "-" = Some (show_Z (t / Millisecond), "0").
Proof.
  intros Hf Ht. unfold StreamIDForTime. destruct (UnixMilli_small t Hf) as [-> _].
  apply (Cut_dash _ "0"), show_Z_digits, Z.div_pos; unfold Millisecond; lia.
Qed.

(** The id of a time since 1970 leads back to the time, cut to the millisecond. *)
Lemma TimeFromStreamID_StreamIDForTime t :
  fits_int t = true -> (0 <= t)%Z -> TimeFromStreamID (StreamIDForTime t) = Some (t / Millisecond * Millisecond)%Z.
Proof.
  intros Hf Ht. unfold TimeFromStreamID, beforeDash. rewrite Cut_time by done.
  by rewrite Atoi_show_int by (by apply UnixMilli_small).
Qed.

(** The id made of an earlier time is none that Redis reads. *)
Lemma parseID_negative t : fits_int t = true -> (t < 0)%Z -> parseID (StreamIDForTime t) = None.
Proof.
  intros Hf Ht. unfold parseID, StreamIDForTime. destruct (UnixMilli_small t Hf) as [-> _].
  assert (t / Millisecond < 0)%Z as Hneg by (apply Z.div_lt_upper_bound; unfold Millisecond; lia).
  destruct (t / Millisecond)%Z as [|p|p]; [lia|lia|].
  change (show_Z (Z.neg p)) with (String "-"%char (show_Z (Z.pos p))).
  assert (Cut (String "-"%char (show_Z (Z.pos p)) +:+ "-0") "-" = Some ("", show_Z (Z.pos p) +:+ "-0")) as ->.
  { apply (Cut_dash ""). done. }
  done.
Qed.

(** An id before a time's is that of an earlier time. *)
Lemma idBefore_time id t :
  fits_int t = true -> idBefore id (StreamIDForTime t) -> exists when, TimeFromStreamID id = Some when /\ (when < t)%Z.
Proof.
  intros Hf (m & n & m' & n' & Hid & Hmin & Hlt).
  assert (TimeFromStreamID id = Some (m * Millisecond)%Z /\ (0 <= n)%Z) as (-> & Hn).
  { unfold parseID in Hid. unfold TimeFromStreamID, beforeDash. destruct (Cut id "-") as [[millis sequence]|]; [|done].
    destruct (Atoi millis) as [a|], (Atoi sequence) as [b|]; try done. destruct ((0 <=? a)%Z && (0 <=? b)%Z) eqn:Hb; [|done]. injection Hid as -> ->.
    apply andb_true_iff in Hb as [_ Hn%Z.leb_le]. by split. }
  eexists. split; [done|]. destruct (decide (0 <= t)%Z) as [Hp|Hneg]; [|exfalso; rewrite (parseID_negative t Hf) in Hmin by lia; discriminate Hmin].
  unfold parseID in Hmin. rewrite Cut_time in Hmin by done. rewrite Atoi_show_int in Hmin by (by apply UnixMilli_small).
  change (Atoi "0") with (Some 0%Z) in Hmin. cbv beta iota in Hmin.
  match type of Hmin with (if ?b then _ else _) = _ => destruct b; [|discriminate Hmin] end.
  injection Hmin as <- <-. assert (m < t / Millisecond)%Z by lia.
  pose proof (Z.mul_div_le t Millisecond). unfold Millisecond in *. lia.
Qed.

(** ** The sweep *)

(** Hours up to 292 years fit a duration. *)
Lemma cutoff_exact policy now :
  (0 <= rpRetentionHours policy <= 2562047)%Z -> cutoff policy now = (now - rpRetentionHours policy * Hour)%Z.
Proof. intros Hh. unfold cutoff, Hour. rewrite (wrap64_small (- _)) by lia. rewrite wrap64_small by lia. lia. Qed.

Section redis.
Context `{RedisLaws}.

(** What is dropped of a stream: its oldest entries, all of them before [limit]. *)
Definition trimmed (limit : Z) (old kept : list string) : Prop :=
  exists dropped, old = dropped ++ kept /\
    Forall (fun id => exists when, TimeFromStreamID id = Some when /\ (when < limit)%Z) dropped.

Lemma trimmed_refl limit l : trimmed limit l l.
Proof. by exists []. Qed.

Lemma trimmed_trans limit a b c : trimmed limit a b -> trimmed limit b c -> trimmed limit a c.
Proof.
  intros (d1 & -> & H1) (d2 & -> & H2). exists (d1 ++ d2). split; [by rewrite <- app_assoc|]. by apply Forall_app.
Qed.

Lemma xtrim_trimmed limit stream k other :
  fits_int limit = true ->
  trimmed limit (entries k other) (entries (XTrimMinIDApprox stream (StreamIDForTime limit) k).1 other).
Proof.
  intros Hf. destruct (decide (other = stream)) as [->|Hne]; [|rewrite trim_elsewhere by done; apply trimmed_refl].
  destruct (XTrimMinIDApprox stream (StreamIDForTime limit) k) as [k' [dropped|err]] eqn:Hx; cbn.
  - destruct (trim_drops _ _ _ _ _ Hx) as (old & -> & Hold & _). exists old. split; [done|].
    eapply Forall_impl; [exact Hold|]. intros id. by apply idBefore_time.
  - rewrite (trim_fails _ _ _ _ _ Hx). apply trimmed_refl.
Qed.

Lemma sweepStreams_trimmed cancelled limit topics k stream :
  fits_int limit = true ->
  trimmed limit (entries k stream) (entries (sweepStreams cancelled (StreamIDForTime limit) topics k).1 stream).
Proof.
  intros Hf. revert k. induction topics as [|topic rest IH]; intros k; cbn [sweepStreams]; [apply trimmed_refl|].
  destruct (cancelled (length rest)); [apply trimmed_refl|].
  pose proof (xtrim_trimmed limit (tpName topic) k stream Hf) as Ht.
  destruct (XTrimMinIDApprox (tpName topic) (StreamIDForTime limit) k) as [k1 r]. eapply trimmed_trans; [exact Ht|apply IH].
Qed.

(** C33: Whatever a sweep finds and whatever fails in it, it only ever drops the
    oldest entries of a stream, and none younger than the retention window, for
    windows of up to 2562047 hours, which is as many as fit a duration; for the
    longer ones that the settings accept see [retention_overflows]. *)
Theorem sweep_keeps_window cancelled policy now k stream :
  (0 <= now <= 9223372036854775807)%Z -> (1 <= rpRetentionHours policy <= 2562047)%Z ->
  trimmed (now - rpRetentionHours policy * Hour) (entries k stream) (entries (SweepOnce cancelled policy now k).1 stream).
Proof.
  intros Hnow Hh. unfold SweepOnce. rewrite <- cutoff_exact by lia. apply sweepStreams_trimmed.
  rewrite cutoff_exact by lia. unfold fits_int, Hour. apply andb_true_iff. rewrite !Z.leb_le. lia.
Qed.

(** ** The purge *)

Lemma filter_page {A} `{EqDecision A} n (l : list A) :
  (length (filter (fun x => x ∉ take n l) l) <= length l - n)%nat.
Proof.
  assert (forall page rest : list A, (length (filter (fun x => x ∉ page) (page ++ rest)) <= length rest)%nat) as Hpage.
  { intros page rest. rewrite filter_app.
    assert (filter (fun x => x ∉ page) page = []) as ->; [|apply length_filter].
    destruct (filter (fun x => x ∉ page) page) as [|x l'] eqn:He; [done|].
    assert (x ∈ filter (fun x => x ∉ page) page) as [Hx Hin]%list_elem_of_filter by (rewrite He; left). done. }
  specialize (Hpage (take n l) (drop n l)). by rewrite take_drop, length_drop in Hpage.
Qed.

(** Draining touches one pending list, and ends. *)
Lemma drainPending_spec fuel stream group k :
  (length (pending k stream group) < fuel)%nat ->
  exists k' err, drainPending fuel stream group k = Done (k', err) /\
    (err = None -> pending k' stream group = []) /\
    (forall other g, (other, g) <> (stream, group) -> pending k' other g = pending k other g) /\
    (forall other, entries k' other = entries k other).
Proof.
  revert k. induction fuel as [|fuel IH]; intros k Hf; [lia|]. cbn [drainPending].
  destruct (XPendingExt stream group pelDrainBatch k) as [ids|err] eqn:Hp; [|by eexists _, _].
  apply pending_page in Hp. destruct ids as [|id ids].
  { eexists _, _. split; [done|]. split; [|done]. intros _. by destruct (pending k stream group). }
  destruct (XAck stream group (id :: ids) k) as [k1 [err|]] eqn:Ha.
  { eexists _, _. split; [done|]. split; [done|]. change k1 with ((k1, Some err).1). rewrite <- Ha.
    split; [by apply ack_elsewhere|by apply ack_entries]. }
  assert ((forall other g, (other, g) <> (stream, group) -> pending k1 other g = pending k other g) /\
    forall other, entries k1 other = entries k other) as [Helse Hent].
  { change k1 with ((k1, @None string).1). rewrite <- Ha. split; [by apply ack_elsewhere|by apply ack_entries]. }
  apply ack_pending in Ha. rewrite Hp in Ha. pose proof (filter_page pelDrainBatch (pending k stream group)) as Hlen.
  destruct (Nat.ltb_spec (length (id :: ids)) pelDrainBatch) as [Hlt|Hge].
  - eexists _, _. split; [done|]. split; [|done]. intros _. rewrite Hp, length_take in Hlt. rewrite Ha.
    apply length_zero_iff_nil. lia.
  - destruct (IH k1) as (k' & err & Hdrain & Hnone & Hother & Hents).
    { rewrite Ha. rewrite Hp, length_take in Hge. unfold pelDrainBatch in *. lia. }
    exists k', err. split; [exact Hdrain|]. split; [done|]. split.
    + intros other g Hne. by rewrite Hother, Helse.
    + intros other. by rewrite Hents.
Qed.

Lemma purgeGroups_spec fuel stream groups k :
  NoDup groups -> (forall group, (length (pending k stream group) < fuel)%nat) ->
  exists k' forwarded err, purgeGroups fuel stream groups k = Done (k', forwarded, err) /\
    (forall group, group ∈ forwarded -> pending k' stream group = []) /\ forwarded `prefix_of` groups /\
    (err = None -> forwarded = groups) /\
    (forall other g, (other = stream -> g ∉ groups) -> pending k' other g = pending k other g) /\
    (forall other, entries k' other = entries k other).
Proof.
  revert k. induction groups as [|group rest IH]; intros k Hnd Hf; cbn [purgeGroups].
  { eexists _, _, _. split; [done|]. split; [by intros ? ?%elem_of_nil|]. done. }
  apply NoDup_cons in Hnd as [Hnew Hnd].
  assert ((forall other g, pending (XGroupSetID stream group "$" k).1 other g = pending k other g) /\
    forall other, entries (XGroupSetID stream group "$" k).1 other = entries k other) as [Hset Hents]
    by (split; intros; [apply setid_pending|apply setid_entries]).
  destruct (XGroupSetID stream group "$" k) as [k1 [err|]]; cbn [fst] in Hset, Hents.
  { eexists _, _, _. split; [done|]. split; [by intros ? ?%elem_of_nil|]. split; [apply prefix_nil|]. by split_and!. }
  destruct (drainPending_spec fuel stream group k1) as (k2 & err & -> & Hdrained & Hother & Hents2); [by rewrite Hset|].
  cbn [obind]. destruct err as [err|].
  { eexists _, _, _. split; [done|]. split; [by intros ? ?%elem_of_nil|]. split; [apply prefix_nil|]. split; [done|]. split.
    - intros other g Hg. rewrite Hother, Hset; [done|]. intros [= -> ->]. by apply Hg; [|left].
    - intros other. by rewrite Hents2. }
  destruct (IH k2 Hnd) as (k' & forwarded & err & -> & Hfw & Hpre & Hall & Hrest & Hents3).
  { intros g. destruct (decide (g = group)) as [->|Hne]; [rewrite Hdrained by done; specialize (Hf group); simpl; lia|].
    rewrite Hother, Hset; [done|]. by intros [=]. }
  cbn [obind]. exists k', (group :: forwarded), err. split; [done|]. split; [|split; [by apply prefix_cons|split]].
  - intros g [->|Hg]%elem_of_cons; [|by apply Hfw]. rewrite Hrest; [by apply Hdrained|done].
  - intros Herr. by rewrite (Hall Herr).
  - split; [|intros other; by rewrite Hents3, Hents2].
    intros other g Hg. rewrite Hrest, Hother, Hset; [done| |].
    + intros [= -> ->]. by apply Hg; [|left].
    + intros ->. intros Hin. by apply Hg; [|right].
Qed.

(** A purge ends, whatever Redis answers. It touches one stream, drops only what
    was published before it began, leaves nothing pending in any group it
    reports as fast-forwarded, and if it reports no error those are all the
    stream's groups. *)
Theorem PurgeStream_spec fuel now stream k :
  fits_int now = true -> (forall group, (length (pending k stream group) < fuel)%nat) ->
  exists k' result err, PurgeStream fuel now stream k = Done (k', result, err) /\
    (forall group, group ∈ pgGroupsFastForwarded result -> pending k' stream group = []) /\
    (err = None -> forall groups, XInfoGroups stream (XTrimMinIDApprox stream (StreamIDForTime now) k).1 = Ok groups ->
       pgGroupsFastForwarded result = groups) /\
    trimmed now (entries k stream) (entries k' stream) /\
    (forall other, other <> stream -> entries k' other = entries k other /\ forall g, pending k' other g = pending k other g).
Proof.
  intros Hf Hfuel. unfold PurgeStream. pose proof (xtrim_trimmed now stream k stream Hf) as Htrim.
  pose proof (trim_elsewhere stream (StreamIDForTime now) k) as Helse.
  pose proof (trim_pending stream (StreamIDForTime now) k) as Hpend.
  destruct (XTrimMinIDApprox stream (StreamIDForTime now) k) as [k1 [dropped|err]]; cbn [fst] in *.
  2: { eexists _, _, _. split; [done|]. split; [by intros ? ?%elem_of_nil|]. by split_and!; auto. }
  destruct (XInfoGroups stream k1) as [groups|err] eqn:Hg.
  2: { eexists _, _, _. split; [done|]. split; [by intros ? ?%elem_of_nil|]. by split_and!; auto. }
  destruct (purgeGroups_spec fuel stream groups k1) as (k' & forwarded & err & -> & Hfw & _ & Hall & Hrest & Hents).
  { by eapply groups_distinct. }
  { intros group. by rewrite Hpend. }
  cbn [obind]. eexists _, _, _. split; [done|]. cbn [pgGroupsFastForwarded]. split; [done|]. split.
  { intros Herr groups' [= <-]. by apply Hall. }
  rewrite Hents. split; [done|]. intros other Hne. rewrite Hents. split; [by apply Helse|].
  intros g. by rewrite Hrest, Hpend.
Qed.
End redis.

(** The settings accept a retention whose window wraps around: the cutoff is
    then in the future, and the sweep asks for everything to be dropped. *)
Theorem retention_overflows :
  exists c, validateEventBusConfig c = None /\ (ebRetentionHours c <= 2147483647)%Z /\
    forall now, (now < cutoff (bpRetention (BusPolicyFromConfig c)) now)%Z.
Proof.
  exists {| ebMaxLen := 10000; ebRetentionHours := 2562048; ebRetryAttempts := 4; ebRetryBackoffBaseMs := 500; ebRetryBackoffMaxMs := 30000 |}.
  split; [done|]. split; [done|]. intros now. unfold cutoff. change (rpRetentionHours _) with 2562048%Z.
  assert (wrap64 (wrap64 (Z.opp 2562048) * Hour) = 9223371273709551616)%Z as -> by reflexivity. lia.
Qed.

(** * A concrete Redis *)

(** Streams with exact trims, and groups that never deliver. *)
Record database : Type := {
  dbEntries : gmap string (list string);
  dbPending : gmap (string * string) (list string);
  dbGroups : gmap string (list string);
}.

Definition entriesOf (d : database) (stream : string) : list string := default [] (dbEntries d !! stream).
Definition pendingOf (d : database) (stream group : string) : list string := default [] (dbPending d !! (stream, group)).

Definition before (id minID : string) : bool :=
  match parseID id, parseID minID with
  | Some (m, n), Some (m', n') => (m <? m')%Z || ((m =? m')%Z && (n <? n')%Z)
  | _, _ => false
  end.

Lemma before_idBefore id minID : before id minID = true -> idBefore id minID.
Proof.
  unfold before, idBefore. destruct (parseID id) as [[m n]|], (parseID minID) as [[m' n']|]; try done. intros Hb.
  exists m, n, m', n'. split_and!; [done..|]. apply orb_true_iff in Hb as [Hb|Hb]; [left; lia|].
  apply andb_true_iff in Hb. right. lia.
Qed.

(** The ids up to the first that stays, and the others. *)
Fixpoint splitBefore (minID : string) (l : list string) : list string * list string :=
  match l with
  | id :: rest => if before id minID then let '(old, kept) := splitBefore minID rest in (id :: old, kept) else ([], l)
  | [] => ([], [])
  end.

Lemma splitBefore_spec minID l :
  l = (splitBefore minID l).1 ++ (splitBefore minID l).2 /\ Forall (fun id => idBefore id minID) (splitBefore minID l).1.
Proof.
  induction l as [|id l IH]; cbn [splitBefore]; [by split|]. destruct (before id minID) eqn:Hb; [|by split].
  destruct (splitBefore minID l) as [old kept]. cbn in *. destruct IH as [-> IH]. split; [done|].
  constructor; [by apply before_idBefore|done].
Qed.

#[local] Instance exactRedis : Redis := {|
  keyspace := database;
  Scan d _ := (map fst (map_to_list (dbEntries d)), None);
  XTrimMinIDApprox stream minID d :=
    let '(old, kept) := splitBefore minID (entriesOf d stream) in
    ({| dbEntries := <[stream := kept]> (dbEntries d); dbPending := dbPending d; dbGroups := dbGroups d |}, Ok (Z.of_nat (length old)));
  XInfoGroups stream d := match dbGroups d !! stream with Some groups => Ok (remove_dups groups) | None => Err "ERR no such key" end;
  XGroupSetID _ _ _ d := (d, None);
  XPendingExt stream group count d := Ok (take count (pendingOf d stream group));
  XAck stream group ids d :=
    ({| dbEntries := dbEntries d;
        dbPending := <[(stream, group) := filter (fun id => id ∉ ids) (pendingOf d stream group)]> (dbPending d);
        dbGroups := dbGroups d |}, None);
|}.

#[local] Instance exactRedis_laws : RedisLaws.
Proof.
  refine {| entries := (entriesOf : keyspace -> _); pending := (pendingOf : keyspace -> _) |}.
  - intros stream minID d d' dropped. cbn. destruct (splitBefore_spec minID (entriesOf d stream)) as [Hs Hold].
    destruct (splitBefore minID (entriesOf d stream)) as [old kept]. intros [= <- <-]. exists old. unfold entriesOf at 2. cbn.
    by rewrite lookup_insert_eq.
  - intros stream minID d d' err. cbn. by destruct (splitBefore minID (entriesOf d stream)).
  - intros stream minID d other Hne. cbn. destruct (splitBefore minID (entriesOf d stream)). unfold entriesOf. cbn.
    by rewrite lookup_insert_ne.
  - intros stream minID d other group. cbn. by destruct (splitBefore minID (entriesOf d stream)).
  - done.
  - done.
  - intros stream d groups. cbn. destruct (dbGroups d !! stream); [|done]. intros [= <-]. apply NoDup_remove_dups.
  - by intros stream group count d ids [= <-].
  - intros stream group ids d d' [= <-]. unfold pendingOf at 1. cbn. by rewrite lookup_insert_eq.
  - intros stream group ids d other g Hne. unfold pendingOf. cbn. by rewrite lookup_insert_ne.
  - done.
Defined.

(** A stream with an old entry and a recent one, both pending. *)
Definition jammed : database := {|
  dbEntries := {[AgentScanResultStream := ["1000-0"; "1700000000000-3"]]};
  dbPending := {[(AgentScanResultStream, AgentScanResultGroup) := ["1000-0"; "1700000000000-3"]]};
  dbGroups := {[AgentScanResultStream := [AgentScanResultGroup]]};
|}.

Definition jammedKeys : @keyspace exactRedis := jammed.

Definition aDayLater : Z := 1700086400000000000.

Example jammed_swept :
  entriesOf (SweepOnce (fun _ => None) (bpRetention DefaultBusPolicy) aDayLater jammed).1 AgentScanResultStream = ["1700000000000-3"].
Proof. by vm_compute. Qed.

Lemma sweep_keeps_window_witness :
  (0 <= aDayLater <= 9223372036854775807)%Z /\
  trimmed (aDayLater - 48 * Hour) (entries jammedKeys AgentScanResultStream)
    (entries (SweepOnce (fun _ => None) (bpRetention DefaultBusPolicy) aDayLater jammedKeys).1 AgentScanResultStream).
Proof.
  split; [by vm_compute|].
  apply (sweep_keeps_window (fun _ => None) (bpRetention DefaultBusPolicy) aDayLater jammedKeys AgentScanResultStream);
    split; by vm_compute.
Defined.

Lemma PurgeStream_spec_witness :
  exists k' result err,
    PurgeStream 3 aDayLater AgentScanResultStream jammedKeys = Done (k', result, err) /\
    (forall group, group ∈ pgGroupsFastForwarded result -> pending k' AgentScanResultStream group = []) /\
    (err = None -> forall groups,
       XInfoGroups AgentScanResultStream (XTrimMinIDApprox AgentScanResultStream (StreamIDForTime aDayLater) jammedKeys).1 = Ok groups ->
       pgGroupsFastForwarded result = groups) /\
    trimmed aDayLater (entries jammedKeys AgentScanResultStream) (entries k' AgentScanResultStream) /\
    (forall other, other <> AgentScanResultStream -> entries k' other = entries jammedKeys other /\
       forall g, pending k' other g = pending jammedKeys other g).
Proof.
  apply (PurgeStream_spec 3 aDayLater AgentScanResultStream jammedKeys); [reflexivity|].
  intros group. change (length (pendingOf jammed AgentScanResultStream group) < 3). unfold pendingOf, jammed. cbn [dbPending].
  destruct (decide (group = AgentScanResultGroup)) as [->|Hne]; [rewrite lookup_singleton_eq|rewrite lookup_singleton_ne by congruence];
    simpl; lia.
Defined.
