(* ===== verification/StoredTime.v ===== *)
(** The times a scan record is stored under: src/internal/shared/scanmodel/stored.go.
    A time is its nanoseconds since 1970; [civil] is what Go's time package makes
    of a day. The stale sweep compares these strings byte by byte, so what is
    shown is that their order is the order of the times. *)
From stdpp Require Import strings list pretty.
From Stdlib Require Import Ascii ZArith Lia.
From Stdlib Require String.
From S2P Require Import Prelude Regex GoText Dates.

(** * The calendar *)

Definition daysPerEra : Z := 146097.

(** The date of a day of a 400-year era that begins on the first of March. *)
Definition eraDate (doe : Z) : date :=
  let yoe := ((doe - doe / 1460 + doe / 36524 - doe / 146096) / 365)%Z in
  let doy := (doe - (365 * yoe + yoe / 4 - yoe / 100))%Z in
  let mp := ((5 * doy + 2) / 153)%Z in
  let m := (if mp <? 10 then mp + 3 else mp - 9)%Z in
  {| year := (yoe + if m <=? 2 then 1 else 0)%Z; month := m; day := (doy - (153 * mp + 2) / 5 + 1)%Z |}.

(** The date of a day, counted from the first of January 1970. *)
Definition civil (days : Z) : date :=
  let z := (days + 719468)%Z in
  let d := eraDate (z mod daysPerEra) in
  {| year := (year d + z / daysPerEra * 400)%Z; month := month d; day := day d |}.

(** * FormatStoredTime *)

Definition Second : Z := 1000000000.

Definition clockText (sod nanos : Z) : string :=
  pad_Z 2 (sod / 3600) +:+ ":" +:+ pad_Z 2 (sod / 60 mod 60) +:+ ":" +:+ pad_Z 2 (sod mod 60) +:+ "." +:+ pad_Z 9 nanos +:+ "Z".

(** [t.UTC().Format(storedTimeLayout)]. *)
Definition FormatStoredTime (t : Z) : string :=
  let seconds := (t / Second)%Z in
  formatDay (civil (seconds / 86400)) +:+ "T" +:+ clockText (seconds mod 86400) (t mod Second).

Example stored_times :
  map FormatStoredTime [0; 1772366400000000000; 951782399999999999; 951868800500000000; -1]%Z =
  ["1970-01-01T00:00:00.000000000Z"; "2026-03-01T12:00:00.000000000Z"; "2000-02-28T23:59:59.999999999Z";
   "2000-03-01T00:00:00.500000000Z"; "1969-12-31T23:59:59.999999999Z"].
Proof. vm_compute. reflexivity. Qed.

(** * NormalizeStoredTime *)

(** The leading digits of a text. *)
Fixpoint leadingDigits (s : string) : string :=
  match s with String c rest => if is_digit c then String c (leadingDigits rest) else "" | EmptyString => "" end.

(** [parseNanoseconds]: the digits after the ninth are dropped. *)
Definition nanosOf (digits : string) : Z :=
  let digits := str_take 9 digits in
  (default 0 (digits_value 0 digits) * 10 ^ (9 - Z.of_nat (String.length digits)))%Z.

(** The chunk .999999999 of a layout: a fraction, or nothing. *)
Definition fracSecond (s : string) : Z * string :=
  match s with
  | String c rest =>
      if (Ascii.eqb c "."%char || Ascii.eqb c ","%char) && negb (String.eqb (leadingDigits rest) "")
      then (nanosOf (leadingDigits rest), trim_left is_digit rest)
      else (0%Z, s)
  | EmptyString => (0%Z, s)
  end.

(** The chunk Z07:00: the offset in seconds. *)
Definition zoneOffset (s : string) : option (Z * string) :=
  if has_prefix "Z" s then Some (0%Z, str_drop 1 s)
  else
    match s with
    | String sign (String h1 (String h2 (String colon (String m1 (String m2 rest))))) =>
        if negb (Ascii.eqb colon ":"%char) then None
        else
          match ranged 0 24 (getnum (String h1 (String h2 "")) true), ranged 0 60 (getnum (String m1 (String m2 "")) true) with
          | Some (hr, _), Some (mm, _) =>
              let offset := ((hr * 60 + mm) * 60)%Z in
              if Ascii.eqb sign "+"%char then Some (offset, rest)
              else if Ascii.eqb sign "-"%char then Some (Z.opp offset, rest)
              else None
          | _, _ => None
          end
    | _ => None
    end.

(** The day of a 400-year era that a date is, and the day since 1970. *)
Definition eraDay (yoe m d : Z) : Z :=
  (yoe * 365 + yoe / 4 - yoe / 100 + ((153 * (if m <=? 2 then m + 9 else m - 3) + 2) / 5 + d - 1))%Z.

Definition dayNumber (d : date) : Z :=
  let y := (year d - if month d <=? 2 then 1 else 0)%Z in
  (y / 400 * daysPerEra + eraDay (y mod 400) (month d) (day d) - 719468)%Z.

(** time.Parse of the layout RFC3339Nano. *)
Definition parseRFC3339Nano (value : string) : option Z :=
  '(y, s) ← longYear value; s ← skip s "-";
  '(m, s) ← ranged 1 12 (getnum s true); s ← skip s "-";
  '(d, s) ← getnum s true; s ← skip s "T";
  '(hour, s) ← ranged 0 23 (getnum s false); s ← skip s ":";
  '(minute, s) ← ranged 0 59 (getnum s true); s ← skip s ":";
  '(sec, s) ← ranged 0 59 (getnum s true);
  let '(nsec, s) := fracSecond s in
  '(offset, s) ← zoneOffset s;
  if String.eqb s "" && (1 <=? d)%Z && (d <=? daysIn m y)%Z
  then Some ((dayNumber {| year := y; month := m; day := d |} * 86400 + hour * 3600 + minute * 60 + sec - offset) * Second + nsec)%Z
  else None.

Definition NormalizeStoredTime (protojsonTime : string) : string :=
  match parseRFC3339Nano protojsonTime with
  | Some parsed => FormatStoredTime parsed
  | None => protojsonTime
  end.

Example normalized_times :
  map NormalizeStoredTime ["2026-03-01T12:00:00Z"; "2026-03-01T12:00:00.5Z"; "2026-03-01T12:00:00.25+01:30"; "1969-12-31T23:59:59.999999999Z";
                           "2026-02-29T12:00:00Z"; "soon"; ""] =
  ["2026-03-01T12:00:00.000000000Z"; "2026-03-01T12:00:00.500000000Z"; "2026-03-01T10:30:00.250000000Z"; "1969-12-31T23:59:59.999999999Z";
   "2026-02-29T12:00:00Z"; "soon"; ""].
Proof. vm_compute. reflexivity. Qed.

(** * Texts in order *)

(** Such numbers compare as their digits do. *)
Lemma digits_compare s t acc v v' a b :
  String.length s = String.length t -> (0 <= acc)%Z -> digits_value acc s = Some v -> digits_value acc t = Some v' -> (v < v')%Z ->
  String.compare (s +:+ a) (t +:+ b) = Lt.
Proof.
  revert t acc. induction s as [|c s IH]; intros [|d t] acc; try done; intros Hl Hacc Hv Hv' Hlt.
  - simpl in Hv, Hv'. simplify_eq. lia.
  - cbn [digits_value] in Hv, Hv'. destruct (is_digit c) eqn:Hc; [|done]. destruct (is_digit d) eqn:Hd; [|done].
    change (String.compare (String c (s +:+ a)) (String d (t +:+ b)) = Lt). rewrite str_compare_cons.
    assert (String.length s = String.length t) as Hls by (simpl in Hl; lia).
    destruct (digits_value_bound s (acc * 10 + Z.of_nat (nat_of_ascii c - 48)) (digits_value_Some _ _ _ Hv)) as (w & Hw & Hb); [lia|].
    destruct (digits_value_bound t (acc * 10 + Z.of_nat (nat_of_ascii d - 48)) (digits_value_Some _ _ _ Hv')) as (w' & Hw' & Hb'); [lia|].
    rewrite Hv in Hw. rewrite Hv' in Hw'. injection Hw as <-. injection Hw' as <-. rewrite <- Hls in Hb'.
    pose proof (Z.pow_pos_nonneg 10 (Z.of_nat (String.length s)) ltac:(lia) ltac:(lia)).
    unfold is_digit in Hc, Hd. cbv zeta in Hc, Hd. apply andb_true_iff in Hc as [Hc _], Hd as [Hd _].
    apply Nat.leb_le in Hc, Hd. destruct (Nat.lt_trichotomy (nat_of_ascii c) (nat_of_ascii d)) as [Hcd|[Hcd|Hcd]].
    + assert (Ascii.compare c d = Lt) as ->; [|done]. unfold Ascii.compare, nat_of_ascii in *. apply N.compare_lt_iff. lia.
    + assert (c = d) as -> by (rewrite <- (ascii_nat_embedding c), Hcd; apply ascii_nat_embedding).
      rewrite ascii_compare_refl. eapply IH; [done| |exact Hv|exact Hv'|done]. lia.
    + exfalso. assert (acc * 10 + Z.of_nat (nat_of_ascii d - 48) + 1 <= acc * 10 + Z.of_nat (nat_of_ascii c - 48))%Z by lia. nia.
Qed.

(** [x] is before [y] in texts that begin with them, or the rest decides. *)
Lemma pad_compare k x y a b : (0 < k)%nat -> (0 <= x < 10 ^ Z.of_nat k)%Z -> (0 <= y < 10 ^ Z.of_nat k)%Z ->
  (x < y \/ x = y /\ String.compare a b = Lt)%Z -> String.compare (pad_Z k x +:+ a) (pad_Z k y +:+ b) = Lt.
Proof.
  intros Hk Hx Hy [Hlt|[-> Hab]].
  - destruct (pad_Z_spec k x Hk Hx) as (Hlx & _ & Hvx), (pad_Z_spec k y Hk Hy) as (Hly & _ & Hvy).
    by eapply (digits_compare _ _ 0); [by rewrite Hlx, Hly| |exact Hvx|exact Hvy|].
  - induction (pad_Z k y) as [|c s IH]; [done|]. change (String.compare (String c (s +:+ a)) (String c (s +:+ b)) = Lt).
    by rewrite str_compare_cons, ascii_compare_refl.
Qed.

Lemma lead_compare c a b : String.compare a b = Lt -> String.compare (String c "" +:+ a) (String c "" +:+ b) = Lt.
Proof. intros H. change (String.compare (String c a) (String c b) = Lt). by rewrite str_compare_cons, ascii_compare_refl. Qed.

Lemma field_compare k x y a b : (0 < k)%nat -> (0 <= x < 10 ^ Z.of_nat k)%Z -> (0 <= y < 10 ^ Z.of_nat k)%Z ->
  (x < y \/ x = y /\ String.compare a b = Lt)%Z ->
  forall c, String.compare (pad_Z k x +:+ String c "" +:+ a) (pad_Z k y +:+ String c "" +:+ b) = Lt.
Proof. intros Hk Hx Hy Hlt c. apply pad_compare; [done..|]. destruct Hlt as [|[-> Hab]]; [by left|right; split; [done|by apply lead_compare]]. Qed.

(** * The calendar runs forward *)

(** A date as one number; it orders dates as the calendar does. *)
Definition rank (d : date) : Z := ((year d * 16 + month d) * 32 + day d)%Z.

(** The year of an era that a day is in, and the day that year begins with. *)
Definition eraYear (doe : Z) : Z := ((doe - doe / 1460 + doe / 36524 - doe / 146096) / 365)%Z.
Definition yearStart (y : Z) : Z := (365 * y + y / 4 - y / 100)%Z.

Lemma eraYear_bounds doe : (0 <= doe < daysPerEra)%Z ->
  (0 <= eraYear doe < 400 /\ yearStart (eraYear doe) <= doe /\ (doe < yearStart (eraYear doe + 1) \/ eraYear doe = 399))%Z.
Proof. unfold daysPerEra, eraYear, yearStart. intros Hd. Z.to_euclidean_division_equations. lia. Qed.

(** A day of a year that begins in March. *)
Definition yearDate (doy : Z) : date :=
  let mp := ((5 * doy + 2) / 153)%Z in
  let m := (if mp <? 10 then mp + 3 else mp - 9)%Z in
  {| year := if (m <=? 2)%Z then 1 else 0; month := m; day := (doy - (153 * mp + 2) / 5 + 1)%Z |}.

Lemma eraDate_year doe : let d := yearDate (doe - yearStart (eraYear doe)) in
  eraDate doe = {| year := (eraYear doe + year d)%Z; month := month d; day := day d |}.
Proof. done. Qed.

Lemma dayOfYear doe : (0 <= doe < daysPerEra)%Z -> (0 <= doe - yearStart (eraYear doe) <= 365)%Z.
Proof. intros Hd. pose proof (eraYear_bounds doe Hd). unfold yearStart, daysPerEra in *. Z.to_euclidean_division_equations. lia. Qed.

(** Whether a property holds of the [n] numbers from [z]. *)
Fixpoint all_from (p : Z -> bool) (z : Z) (n : nat) : bool :=
  match n with O => true | S m => if p z then all_from p (Z.succ z) m else false end.

Lemma all_from_spec p n z : all_from p z n = true -> forall x, (z <= x < z + Z.of_nat n)%Z -> p x = true.
Proof.
  revert z. induction n as [|n IH]; intros z Hall x Hx; [lia|]. simpl in Hall. destruct (p z) eqn:Hz; [|done].
  destruct (decide (x = z)) as [->|]; [done|]. apply (IH (Z.succ z)); [done|lia].
Qed.

(** The days of such a year are in order, and all before the next year's. *)
Definition year_step (doy : Z) : bool :=
  let d := yearDate doy in
  ((rank d <? rank (yearDate (doy + 1))) && (rank d <? 512 + rank (yearDate 0)) && (1 <=? month d) && (month d <=? 12) && (1 <=? day d) && (day d <=? 31) &&
   (0 <=? year d) && (year d <=? 1) && (doy =? (153 * (if month d <=? 2 then month d + 9 else month d - 3) + 2) / 5 + day d - 1) &&
   Z.eqb (year d) (if month d <=? 2 then 1 else 0) && ((day d <=? daysIn (month d) 1) || (doy =? 365)))%Z.

Lemma year_steps doy : (0 <= doy <= 365)%Z -> year_step doy = true.
Proof. intros Hd. apply (all_from_spec year_step 366 0); [by vm_compute|lia]. Qed.

Definition era_step (doe : Z) : bool :=
  let d := eraDate doe in
  ((rank d <? if doe =? daysPerEra - 1 then rank (eraDate 0) + 400 * 512 else rank (eraDate (doe + 1))) && (1 <=? month d) && (month d <=? 12) && (1 <=? day d) && (day d <=? 31))%Z.

(** The next day is in the same year, or the first of the next. *)
Lemma eraYear_next doe : (0 <= doe < daysPerEra - 1)%Z ->
  (eraYear (doe + 1) = eraYear doe \/ eraYear (doe + 1) = eraYear doe + 1 /\ doe + 1 = yearStart (eraYear (doe + 1)))%Z.
Proof.
  intros Hd. pose proof (eraYear_bounds doe ltac:(lia)) as (Hy & Hs & He). pose proof (eraYear_bounds (doe + 1) ltac:(lia)) as (Hy' & Hs' & He').
  generalize dependent (eraYear doe). generalize dependent (eraYear (doe + 1)). unfold yearStart, daysPerEra in *. intros y' ? ? ? y ? ? ?.
  Z.to_euclidean_division_equations. lia.
Qed.

Lemma era_steps doe : (0 <= doe < daysPerEra)%Z -> era_step doe = true.
Proof.
  intros Hd. pose proof (year_steps _ (dayOfYear doe Hd)) as Hstep. unfold year_step in Hstep. cbv zeta in Hstep.
  rewrite !andb_true_iff, !Z.leb_le, !Z.ltb_lt in Hstep. destruct Hstep as ((((((((((Hnext & Hlast) & ?) & ?) & ?) & ?) & ?) & ?) & _) & _) & _).
  unfold era_step. rewrite (eraDate_year doe). cbv zeta. set (d := yearDate (doe - yearStart (eraYear doe))) in *.
  unfold rank in *. cbn [year month day] in *. rewrite !andb_true_iff, !Z.leb_le, Z.ltb_lt. split_and!; try done.
  pose proof (eraYear_bounds doe Hd) as [Hy _]. destruct (doe =? daysPerEra - 1)%Z eqn:He.
  - assert (eraDate 0 = yearDate 0) as -> by done. lia.
  - apply Z.eqb_neq in He. rewrite (eraDate_year (doe + 1)). cbn [year month day]. destruct (eraYear_next doe ltac:(lia)) as [->|[Hy' Hs]].
    + replace (doe + 1 - yearStart (eraYear doe))%Z with (doe - yearStart (eraYear doe) + 1)%Z by lia. lia.
    + replace (doe + 1 - yearStart (eraYear (doe + 1)))%Z with 0%Z by lia. rewrite Hy'. lia.
Qed.

Lemma civil_bounds n : (1 <= month (civil n) <= 12 /\ 1 <= day (civil n) <= 31)%Z.
Proof.
  pose proof (era_steps ((n + 719468) mod daysPerEra)) as H. specialize (H ltac:(apply Z.mod_pos_bound; by unfold daysPerEra)).
  unfold era_step in H. cbv zeta in H. rewrite !andb_true_iff, !Z.leb_le in H. unfold civil. cbn [month day]. lia.
Qed.

Lemma civil_step n : (rank (civil n) < rank (civil (n + 1)))%Z.
Proof.
  unfold civil, rank. cbv zeta. cbn [year month day]. replace (n + 1 + 719468)%Z with (n + 719468 + 1)%Z by lia.
  set (z := (n + 719468)%Z). pose proof (Z.mod_pos_bound z daysPerEra eq_refl) as Hb.
  pose proof (Z.div_mod z daysPerEra ltac:(done)) as Hz. pose proof (era_steps _ Hb) as H.
  unfold era_step in H. cbv zeta in H. rewrite !andb_true_iff, !Z.leb_le, Z.ltb_lt in H. destruct H as [[[[H _] _] _] _].
  destruct (z mod daysPerEra =? daysPerEra - 1)%Z eqn:He.
  - apply Z.eqb_eq in He. assert ((z + 1) mod daysPerEra = 0 /\ (z + 1) / daysPerEra = z / daysPerEra + 1)%Z as [-> ->].
    { split; symmetry; [apply (Z.mod_unique _ _ (z / daysPerEra + 1))|apply (Z.div_unique _ _ _ 0)]; unfold daysPerEra in *; lia. }
    unfold rank in H. lia.
  - apply Z.eqb_neq in He. assert ((z + 1) mod daysPerEra = z mod daysPerEra + 1 /\ (z + 1) / daysPerEra = z / daysPerEra)%Z as [-> ->].
    { split; symmetry; [apply (Z.mod_unique _ _ (z / daysPerEra))|apply (Z.div_unique _ _ _ (z mod daysPerEra + 1))]; unfold daysPerEra in *; lia. }
    unfold rank in H. lia.
Qed.

Lemma civil_mono n m : (n < m)%Z -> (rank (civil n) < rank (civil m))%Z.
Proof.
  intros Hlt. replace m with (n + Z.of_nat (S (Z.to_nat (m - n - 1))))%Z by lia.
  induction (Z.to_nat (m - n - 1)) as [|k IH]; [apply civil_step|].
  etrans; [exact IH|]. replace (n + Z.of_nat (S (S k)))%Z with (n + Z.of_nat (S k) + 1)%Z by lia. apply civil_step.
Qed.

(** * The order of the stored texts *)

(** A time whose year is written in four digits. *)
Definition four_digit_year (t : Z) : Prop := (0 <= year (civil (t / Second / 86400)) <= 9999)%Z.

(** Where the fields [x] and [y] are, the order is theirs or that of the rest. *)
Ltac next_field := apply field_compare; [lia|lia|lia|].

Lemma clock_compare sod sod' nanos nanos' :
  (0 <= sod < 86400)%Z -> (0 <= sod' < 86400)%Z -> (0 <= nanos < Second)%Z -> (0 <= nanos' < Second)%Z ->
  (sod < sod' \/ sod = sod' /\ nanos < nanos')%Z -> String.compare (clockText sod nanos) (clockText sod' nanos') = Lt.
Proof.
  unfold Second. intros Hs Hs' Hn Hn' Hlt. unfold clockText.
  pose proof (Z.div_mod sod 60 ltac:(done)). pose proof (Z.div_mod sod' 60 ltac:(done)).
  pose proof (Z.mod_pos_bound sod 60 eq_refl). pose proof (Z.mod_pos_bound sod' 60 eq_refl).
  pose proof (Z.div_mod (sod / 60) 60 ltac:(done)) as Hm. pose proof (Z.div_mod (sod' / 60) 60 ltac:(done)) as Hm'.
  pose proof (Z.mod_pos_bound (sod / 60) 60 eq_refl). pose proof (Z.mod_pos_bound (sod' / 60) 60 eq_refl).
  rewrite Z.div_div in Hm, Hm' by done. change (60 * 60)%Z with 3600%Z in Hm, Hm'.
  next_field. destruct (decide (sod / 3600 = sod' / 3600)%Z) as [Hh|]; [right; split; [done|]|left; lia].
  next_field. destruct (decide (sod / 60 mod 60 = sod' / 60 mod 60)%Z) as [Hmm|]; [right; split; [done|]|left; lia].
  next_field. destruct (decide (sod mod 60 = sod' mod 60)%Z) as [Hss|]; [right; split; [done|]|left; lia].
  apply pad_compare; [lia|lia|lia|]. left. lia.
Qed.

Lemma day_compare n m a b :
  (0 <= year (civil n) <= 9999)%Z -> (0 <= year (civil m) <= 9999)%Z -> (n < m \/ n = m /\ String.compare a b = Lt)%Z ->
  String.compare (formatDay (civil n) +:+ String "T" "" +:+ a) (formatDay (civil m) +:+ String "T" "" +:+ b) = Lt.
Proof.
  intros Hn Hm Hlt. pose proof (civil_bounds n). pose proof (civil_bounds m). unfold formatDay. rewrite !str_app_assoc.
  assert (rank (civil n) < rank (civil m) \/ n = m /\ String.compare a b = Lt)%Z as Hr by (destruct Hlt; [left; by apply civil_mono|by right]).
  unfold rank in Hr. clear Hlt.
  next_field. destruct Hr as [Hr|[-> Hab]]; [|by right; split; [|apply field_compare; [lia|lia|lia|]; right; split; [|apply field_compare; [lia|lia|lia|]; right]]].
  destruct (decide (year (civil n) = year (civil m))); [right; split; [done|]|left; lia].
  next_field. destruct (decide (month (civil n) = month (civil m))); [right; split; [done|]|left; lia].
  next_field. left. lia.
Qed.

Lemma stored_compare a b : four_digit_year a -> four_digit_year b -> (a < b)%Z ->
  String.compare (FormatStoredTime a) (FormatStoredTime b) = Lt.
Proof.
  intros Ha Hb Hlt. unfold FormatStoredTime. cbv zeta. apply day_compare; [done..|].
  pose proof (Z.div_mod a Second ltac:(done)). pose proof (Z.mod_pos_bound a Second eq_refl).
  pose proof (Z.div_mod b Second ltac:(done)). pose proof (Z.mod_pos_bound b Second eq_refl).
  pose proof (Z.div_mod (a / Second) 86400 ltac:(done)). pose proof (Z.mod_pos_bound (a / Second) 86400 eq_refl).
  pose proof (Z.div_mod (b / Second) 86400 ltac:(done)). pose proof (Z.mod_pos_bound (b / Second) 86400 eq_refl).
  unfold Second in *. destruct (decide (a / 1000000000 / 86400 = b / 1000000000 / 86400)%Z) as [Hd|]; [|left; lia].
  right. split; [done|]. apply clock_compare; unfold Second; lia.
Qed.

Lemma stored_ltb a b : four_digit_year a -> four_digit_year b -> String.ltb (FormatStoredTime a) (FormatStoredTime b) = (a <? b)%Z.
Proof.
  intros Ha Hb. assert (forall x y, four_digit_year x -> four_digit_year y -> (x < y)%Z -> String.ltb (FormatStoredTime x) (FormatStoredTime y) = true) as Hlt.
  { intros. rewrite str_ltb_compare. by apply stored_compare. }
  destruct (Z.lt_trichotomy a b) as [Hab|[->|Hab]].
  - rewrite (Hlt a b) by done. lia.
  - rewrite str_ltb_irrefl. lia.
  - rewrite (str_ltb_asym _ _ (Hlt b a Hb Ha Hab)). lia.
Qed.

(** For two times whose years have four digits, comparing the texts
    FormatStoredTime makes of them byte by byte -- the $lt of the stale sweep --
    is comparing the times to the nanosecond, so no two times share a text. *)
Theorem FormatStoredTime_order a b : four_digit_year a -> four_digit_year b ->
  String.ltb (FormatStoredTime a) (FormatStoredTime b) = (a <? b)%Z /\ (FormatStoredTime a = FormatStoredTime b <-> a = b).
Proof.
  intros Ha Hb. split; [by apply stored_ltb|]. split; [|by intros ->]. intros He.
  pose proof (stored_ltb a b Ha Hb) as Hab. pose proof (stored_ltb b a Hb Ha) as Hba.
  rewrite He, str_ltb_irrefl in Hab. rewrite He, str_ltb_irrefl in Hba. lia.
Qed.

Lemma FormatStoredTime_order_witness :
  four_digit_year 1772366400000000000 /\ four_digit_year 1772366400500000000 /\
  String.ltb (FormatStoredTime 1772366400000000000) (FormatStoredTime 1772366400500000000) = true.
Proof.
  split; [by vm_compute|]. split; [by vm_compute|].
  exact (proj1 (FormatStoredTime_order 1772366400000000000 1772366400500000000 ltac:(by vm_compute) ltac:(by vm_compute))).
Defined.

(** * What protojson writes is normalised *)

Definition era_back (doe : Z) : bool :=
  let d := eraDate doe in
  let yoe := (year d - if month d <=? 2 then 1 else 0)%Z in
  ((0 <=? yoe) && (yoe <? 400) && (eraDay yoe (month d) (day d) =? doe) && (day d <=? daysIn (month d) (year d)))%Z.

(** The last day of a leap year is the 29th of February. *)
Lemma leap_day doe : (0 <= doe < daysPerEra)%Z -> (doe - yearStart (eraYear doe) = 365)%Z -> isLeap (eraYear doe + 1) = true.
Proof.
  intros Hd Hl. pose proof (eraYear_bounds doe Hd) as (Hy & Hs & He). unfold isLeap, yearStart, daysPerEra in *.
  rewrite andb_true_iff, orb_true_iff, negb_true_iff. Z.to_euclidean_division_equations. lia.
Qed.

Lemma daysIn_common m y : (daysIn m 1 <= daysIn m y)%Z.
Proof. unfold daysIn. destruct (m =? 2)%Z; [|done]. by destruct (isLeap y). Qed.

Lemma era_backs doe : (0 <= doe < daysPerEra)%Z -> era_back doe = true.
Proof.
  intros Hd. pose proof (year_steps _ (dayOfYear doe Hd)) as Hstep. pose proof (leap_day doe Hd) as Hleap. pose proof (eraYear_bounds doe Hd) as [Hy _].
  unfold year_step in Hstep. cbv zeta in Hstep. rewrite !andb_true_iff, orb_true_iff, !Z.leb_le, !Z.ltb_lt, !Z.eqb_eq in Hstep.
  destruct Hstep as ((((((((_ & ?) & ?) & ?) & ?) & _) & Hdoy) & Hyear) & Hin).
  unfold era_back. rewrite (eraDate_year doe). cbv zeta. set (d := yearDate (doe - yearStart (eraYear doe))) in *. cbn [year month day].
  rewrite !andb_true_iff, !Z.leb_le, Z.ltb_lt, Z.eqb_eq. rewrite Hyear. replace (eraYear doe + _ - _)%Z with (eraYear doe) by lia. split_and!; try lia.
  - unfold eraDay. unfold yearStart in Hdoy. lia.
  - destruct Hin as [Hin|Hlast]; [etrans; [exact Hin|apply daysIn_common]|].
    assert (d = {| year := 1; month := 2; day := 29 |}) as -> by (unfold d; by rewrite Hlast).
    change (29 <= if isLeap (eraYear doe + 1) then 29 else 28)%Z. by rewrite (Hleap Hlast).
Qed.

Lemma daysIn_era m y k : daysIn m (y + k * 400) = daysIn m y.
Proof.
  unfold daysIn, isLeap. replace ((y + k * 400) mod 4)%Z with (y mod 4)%Z by (rewrite <- (Z.mod_add y (k * 100) 4) by done; f_equal; lia).
  replace ((y + k * 400) mod 100)%Z with (y mod 100)%Z by (rewrite <- (Z.mod_add y (k * 4) 100) by done; f_equal; lia).
  by rewrite Z.mod_add.
Qed.

(** A day's date is a date of the calendar, and its day number is that day. *)
Lemma civil_date n : dayNumber (civil n) = n /\ (day (civil n) <= daysIn (month (civil n)) (year (civil n)))%Z.
Proof.
  set (z := (n + 719468)%Z). pose proof (era_backs (z mod daysPerEra) (Z.mod_pos_bound z daysPerEra eq_refl)) as H.
  unfold era_back in H. cbv zeta in H. rewrite !andb_true_iff, !Z.leb_le, Z.ltb_lt, Z.eqb_eq in H. destruct H as [[[Hlo Hhi] He] Hd].
  unfold civil. fold z. cbn [year month day]. rewrite daysIn_era. split; [|done].
  unfold dayNumber. cbv zeta. cbn [year month day]. set (d := eraDate (z mod daysPerEra)) in *.
  set (yoe := (year d - if month d <=? 2 then 1 else 0)%Z) in *.
  replace (year d + z / daysPerEra * 400 - (if month d <=? 2 then 1 else 0))%Z with (yoe + z / daysPerEra * 400)%Z by (unfold yoe; lia).
  rewrite Z.div_add, Z.mod_add, Z.div_small, Z.mod_small by lia. rewrite He.
  pose proof (Z.div_mod z daysPerEra ltac:(done)). unfold z in *. lia.
Qed.

Lemma leadingDigits_app s rest : str_forall is_digit s = true ->
  leadingDigits (s +:+ String "Z" rest) = s /\ trim_left is_digit (s +:+ String "Z" rest) = String "Z" rest.
Proof.
  induction s as [|c s IH]; [done|]. change (String c s +:+ String "Z" rest) with (String c (s +:+ String "Z" rest)).
  cbn [str_forall leadingDigits trim_left]. destruct (is_digit c) eqn:Hc; [|done]. intros Hs.
  destruct (IH Hs) as [H1 H2]. by rewrite H1, H2.
Qed.

(** The fraction of a second in [k] digits. *)
Definition fractionText (k : nat) (nanos : Z) : string :=
  if decide (k = 0%nat) then "" else "." +:+ pad_Z k (nanos / 10 ^ (9 - Z.of_nat k)).

Lemma fracSecond_fraction k nanos : (k <= 9)%nat -> (0 <= nanos < Second)%Z -> (nanos mod 10 ^ (9 - Z.of_nat k) = 0)%Z ->
  fracSecond (fractionText k nanos +:+ "Z") = (nanos, "Z").
Proof.
  intros Hk Hn Hm. unfold fractionText. case_decide as Hz.
  { subst k. change (10 ^ (9 - Z.of_nat 0))%Z with Second in Hm. rewrite Z.mod_small in Hm by done. by subst. }
  set (p := (10 ^ (9 - Z.of_nat k))%Z) in *. assert (0 < p)%Z as Hp by (apply Z.pow_pos_nonneg; lia).
  assert (nanos = p * (nanos / p))%Z as Hq by (pose proof (Z.div_mod nanos p ltac:(lia)); lia).
  assert (10 ^ Z.of_nat k * p = Second)%Z as Hs by (unfold p; rewrite <- Z.pow_add_r by lia; by replace (Z.of_nat k + (9 - Z.of_nat k))%Z with 9%Z by lia).
  destruct (pad_Z_spec k (nanos / p)) as (Hl & Hd & Hv); [lia| |].
  { split; [apply Z.div_pos; lia|]. apply Z.div_lt_upper_bound; [done|]. lia. }
  change (("." +:+ ?s) +:+ "Z") with (String "." (s +:+ "Z")). unfold fracSecond.
  destruct (leadingDigits_app (pad_Z k (nanos / p)) "" Hd) as [-> ->].
  destruct (String.eqb_spec (pad_Z k (nanos / p)) "") as [He|]; [rewrite He in Hl; simpl in Hl; lia|]. cbn [negb andb orb Ascii.eqb eqb].
  unfold nanosOf. assert (str_take 9 (pad_Z k (nanos / p)) = pad_Z k (nanos / p)) as ->.
  { pose proof (str_take_drop 9 (pad_Z k (nanos / p))) as Ht.
    assert (str_drop 9 (pad_Z k (nanos / p)) = "") as Hdr.
    { pose proof (str_length_drop 9 (pad_Z k (nanos / p))) as Hld. destruct (str_drop 9 _); [done|]. simpl in Hld. lia. }
    by rewrite Hdr, str_app_nil_r in Ht. }
  rewrite Hv, Hl. simpl. f_equal. fold p. lia.
Qed.

(** The text protojson writes for a time, with [k] digits of fraction. *)
Definition protojsonTime (k : nat) (t : Z) : string :=
  let seconds := (t / Second)%Z in
  let sod := (seconds mod 86400)%Z in
  formatDay (civil (seconds / 86400)) +:+ "T" +:+ pad_Z 2 (sod / 3600) +:+ ":" +:+ pad_Z 2 (sod / 60 mod 60) +:+ ":" +:+
  pad_Z 2 (sod mod 60) +:+ fractionText k (t mod Second) +:+ "Z".

Lemma getnum_pad v rest : (0 <= v < 100)%Z -> getnum (pad_Z 2 v +:+ rest) true = Some (v, rest).
Proof. intros Hv. by apply getnum_fixed. Qed.

Lemma getnum_loose v rest : (0 <= v < 100)%Z -> getnum (pad_Z 2 v +:+ rest) false = Some (v, rest).
Proof.
  intros Hv. pose proof (getnum_pad v rest Hv) as H. destruct (pad_Z 2 v +:+ rest) as [|a [|b s]]; [done|by simpl in H; destruct (is_digit a)|].
  simpl in *. destruct (is_digit a); [|done]. by destruct (is_digit b).
Qed.

Lemma ranged_id low high v rest : (low <= v <= high)%Z -> ranged low high (Some (v, rest)) = Some (v, rest).
Proof. intros Hv. unfold ranged. by assert ((low <=? v) && (v <=? high) = true)%Z as -> by lia. Qed.

(** Past the text between two chunks of the layout. *)
Ltac separator :=
  cbn [mbind option_bind];
  match goal with |- context [skip (?a +:+ ?s) ?a] => change (skip (a +:+ s) a) with (Some s) end; cbn [mbind option_bind].

Lemma parse_protojsonTime k t : four_digit_year t -> (k <= 9)%nat -> (t mod 10 ^ (9 - Z.of_nat k) = 0)%Z ->
  parseRFC3339Nano (protojsonTime k t) = Some t.
Proof.
  intros Hy Hk Hm. set (seconds := (t / Second)%Z). set (sod := (seconds mod 86400)%Z). set (n := (seconds / 86400)%Z).
  pose proof (civil_bounds n) as [Hmo Hda]. destruct (civil_date n) as [Hnum Hin].
  pose proof (Z.mod_pos_bound seconds 86400 eq_refl) as Hsod. fold sod in Hsod.
  pose proof (Z.mod_pos_bound (sod / 60) 60 eq_refl). pose proof (Z.mod_pos_bound sod 60 eq_refl).
  assert (0 <= sod / 3600 < 24)%Z as Hh by (split; [apply Z.div_pos; lia|apply Z.div_lt_upper_bound; lia]).
  pose proof (Z.mod_pos_bound t Second eq_refl) as Hn.
  assert (t mod Second mod 10 ^ (9 - Z.of_nat k) = 0)%Z as Hfrac.
  { rewrite Z.mod_mod_divide; [done|]. exists (10 ^ Z.of_nat k)%Z. rewrite <- Z.pow_add_r by lia.
    by replace (Z.of_nat k + (9 - Z.of_nat k))%Z with 9%Z by lia. }
  unfold four_digit_year in Hy. fold seconds n in Hy.
  unfold parseRFC3339Nano, protojsonTime, formatDay. cbv zeta. fold seconds sod n. rewrite !str_app_assoc.
  rewrite (proj2 (longYear_spec _ _ _) (conj Hy eq_refl)). cbn [mbind option_bind].
  separator. rewrite getnum_pad, ranged_id by lia. separator. rewrite getnum_pad by lia. separator.
  rewrite getnum_loose, ranged_id by lia. separator. rewrite getnum_pad, ranged_id by lia.
  separator. rewrite getnum_pad, ranged_id by lia.
  cbn [mbind option_bind]. rewrite fracSecond_fraction by done. change (zoneOffset "Z") with (Some (0%Z, "")). cbn [mbind option_bind].
  change (String.eqb "" "") with true. assert (((1 <=? day (civil n)) && (day (civil n) <=? daysIn (month (civil n)) (year (civil n))))%Z = true) as Hd by lia.
  cbn [andb]. rewrite Hd. f_equal. destruct (civil n) as [y m d] eqn:Hc. cbn [year month day]. rewrite Hnum.
  pose proof (Z.div_mod sod 60 ltac:(done)). pose proof (Z.div_mod (sod / 60) 60 ltac:(done)) as H60.
  rewrite Z.div_div in H60 by done. change (60 * 60)%Z with 3600%Z in H60.
  pose proof (Z.div_mod seconds 86400 ltac:(done)) as Hs. fold sod n in Hs. pose proof (Z.div_mod t Second ltac:(done)) as Ht. fold seconds in Ht. lia.
Qed.

(** Whatever number of digits protojson gives a fraction, as many as it needs,
    the record is stored under the text the sweep's cutoff is written in. *)
Theorem NormalizeStoredTime_protojson k t : four_digit_year t -> (k <= 9)%nat -> (t mod 10 ^ (9 - Z.of_nat k) = 0)%Z ->
  NormalizeStoredTime (protojsonTime k t) = FormatStoredTime t.
Proof. intros Hy Hk Hm. unfold NormalizeStoredTime. by rewrite parse_protojsonTime. Qed.
