(* ===== verification/Stored.v ===== *)
(** The stored form of a scan record: replacementDocumentFrom and
    coerceStoredNumbers of src/internal/server/mongostore/local_directory_repo.go.
    protojson, the driver's extended JSON and the generated descriptors are the
    class [StoredForm]; what the code does to the document they give is here. *)
From stdpp Require Import strings list gmap.
From Stdlib Require Import Ascii ZArith Lia.
From S2P Require Import Prelude Regex GoText Streams StoredTime.
#[local] Open Scope go_scope.

(** * Documents *)

(** A BSON value as extended JSON decodes to it. *)
Inductive value : Type :=
| Null
| Bool (b : bool)
| Text (s : string)
| Number (n : Z)
| Double (digits : string)
| Doc (fields : list (string * value))
| Array (elements : list value).

(** bson.M: the top level of a document. *)
Notation document := (gmap string value).

(** * Descriptors *)

(** protoreflect.Kind, as far as the code tells kinds apart. *)
Inductive kind : Type :=
| Int64Kind
| Sint64Kind
| Sfixed64Kind
| Uint64Kind
| Fixed64Kind
| MessageKind
| GroupKind
| OtherKind.

(** A field descriptor; [fdMessage] is the descriptor of its message. *)
Record field (D : Type) : Type := { fdKind : kind; fdIsList : bool; fdMessage : D }.
Arguments fdKind {D} _.
Arguments fdIsList {D} _.
Arguments fdMessage {D} _.

(** The generated code's descriptors, by field name. *)
Class Descriptors : Type := {
  descriptor : Type;
  ByName : descriptor -> string -> option (field descriptor);
}.

(** [strconv.ParseUint(s, 10, 64)]. *)
Definition ParseUint (s : string) : option Z :=
  if String.eqb s "" then None
  else match digits_value 0 s with Some n => if (n <? 18446744073709551616)%Z then Some n else None | None => None end.

Section coerce.
Context `{Descriptors}.

(** A quoted 64-bit integer as a number; int64(n) wraps. *)
Definition coerceScalar (k : kind) (v : value) : value :=
  match k, v with
  | (Int64Kind | Sint64Kind | Sfixed64Kind), Text s => match Atoi s with Some n => Number n | None => v end
  | (Uint64Kind | Fixed64Kind), Text s => match ParseUint s with Some n => Number (wrap64 n) | None => v end
  | _, _ => v
  end.

Definition isMessage (k : kind) : bool := match k with MessageKind | GroupKind => true | _ => false end.

(** The calls of [coerceStoredValue] and [coerceStoredNumbers] of each other. *)
Fixpoint coerceStoredValue (v : value) (fd : field descriptor) : value :=
  if isMessage (fdKind fd) then
    match v with
    | Doc fields =>
        Doc (List.map (fun entry => let '(key, x) := entry in
          (key, match ByName (fdMessage fd) key with
                | None => x
                | Some fd' =>
                    if fdIsList fd' then match x with Array l => Array (List.map (fun y => coerceStoredValue y fd') l) | _ => x end
                    else coerceStoredValue x fd'
                end)) fields)
    | _ => v
    end
  else coerceScalar (fdKind fd) v.

(** The closure [coerce]: what a field's value is replaced by. *)
Definition coerceField (md : descriptor) (key : string) (x : value) : value :=
  match ByName md key with
  | None => x
  | Some fd => if fdIsList fd then match x with Array l => Array (map (fun y => coerceStoredValue y fd) l) | _ => x end else coerceStoredValue x fd
  end.

(** [coerceStoredNumbers] of a document. *)
Definition coerceStoredNumbers (fields : document) (md : descriptor) : document := map_imap (fun key x => Some (coerceField md key x)) fields.

(** ** What it undoes *)

(** The range of the numbers a kind holds; a larger uint64 does not fit BSON. *)
Definition inRange (k : kind) (n : Z) : Prop :=
  match k with
  | Int64Kind | Sint64Kind | Sfixed64Kind => fits_int n = true
  | Uint64Kind | Fixed64Kind => (0 <= n < 9223372036854775808)%Z
  | _ => False
  end.

(** [renders fd v q]: protojson writes the value [v] of a field as [q], numbers
    of 64 bits as their decimal text and everything else unchanged. *)
Inductive renders : field descriptor -> value -> value -> Prop :=
| renders_number fd n : inRange (fdKind fd) n -> renders fd (Number n) (Text (show_Z n))
| renders_doc fd fields fields' :
    isMessage (fdKind fd) = true -> Forall2 (renders_field (fdMessage fd)) fields fields' -> renders fd (Doc fields) (Doc fields')
| renders_scalar fd v : fdKind fd = OtherKind -> renders fd v v
| renders_timestamp fd s : isMessage (fdKind fd) = true -> renders fd (Text s) (Text s)
with renders_field : descriptor -> string * value -> string * value -> Prop :=
| renders_known md key fd v q : ByName md key = Some fd -> fdIsList fd = false -> renders fd v q -> renders_field md (key, v) (key, q)
| renders_list md key fd l l' :
    ByName md key = Some fd -> fdIsList fd = true -> Forall2 (renders fd) l l' -> renders_field md (key, Array l) (key, Array l').

Lemma ParseUint_show n : (0 <= n < 18446744073709551616)%Z -> ParseUint (show_Z n) = Some n.
Proof.
  intros Hn. unfold ParseUint. destruct (show_Z_digits n) as [_ Hne]; [lia|].
  destruct (String.eqb_spec (show_Z n) "") as [|_]; [done|]. rewrite digits_show_Z by lia.
  by assert ((n <? 18446744073709551616)%Z = true) as -> by lia.
Qed.

Lemma coerceScalar_number k n : inRange k n -> coerceScalar k (Text (show_Z n)) = Number n /\ isMessage k = false.
Proof.
  destruct k; try done; cbn [inRange coerceScalar]; intros Hn; (split; [|done]);
    first [by rewrite Atoi_show_int|rewrite ParseUint_show, wrap64_small by lia; done].
Qed.

(** Whatever record protojson wrote, however deep, coerceStoredNumbers turns
    every quoted 64-bit number of it back into that number and leaves everything
    else as it was. *)
Lemma coerce_renders : forall fd v q, renders fd v q -> coerceStoredValue q fd = v.
Proof.
  fix IH 4. intros fd v q Hr. destruct Hr as [fd n Hn|fd fields fields' Hm Hall|fd v Hk|fd s Hm].
  - destruct (coerceScalar_number _ _ Hn) as [He Hf]. cbn. by rewrite Hf.
  - cbn. rewrite Hm. f_equal.
    induction Hall as [|[key x] [key' y] l l' Hxy Hl IHl]; [done|]. cbn [List.map]. rewrite IHl. f_equal. clear IHl Hl.
    inversion Hxy as [md k fd' v' q' Hb Hli Hv|md k fd' m m' Hb Hli Hv]; subst.
    + rewrite Hb, Hli. f_equal. by apply IH.
    + rewrite Hb, Hli. do 2 f_equal. clear Hxy Hb Hli. induction Hv as [|a b m m' Hab Hm' IHm]; [done|]. cbn [List.map]. rewrite IHm. f_equal. by apply IH.
  - by destruct v; cbn; rewrite Hk.
  - cbn. by rewrite Hm.
Qed.
End coerce.

(** * The replacement document *)

(** bson.UnmarshalExtJSON, and scanmodel.MarshalStored for a kind of record,
    with the record's descriptor. *)
Class ExtJSON : Type := UnmarshalExtJSON : string -> result document.

Class StoredForm `{Descriptors} (R : Type) : Type := {
  MarshalStored : R -> result string;
  Descriptor : descriptor;
}.
#[export] Hint Mode StoredForm - ! : typeclass_instances.
Arguments Descriptor {_} R {_}.

Definition normalized (fields : document) : document :=
  match fields !! "scanned_at" with
  | Some (Text scannedAt) => if String.eqb scannedAt "" then fields else <["scanned_at" := Text (NormalizeStoredTime scannedAt)]> fields
  | _ => fields
  end.

Definition replacementDocumentFrom `{Descriptors, ExtJSON} {R : Type} `{!StoredForm R} (record : R) : result document :=
  try storedJSON := MarshalStored record in
  try fields := UnmarshalExtJSON storedJSON in
  Ok (normalized (coerceStoredNumbers (delete "id" (delete "_id" fields)) (Descriptor R))).

(** A document whose fields protojson renders as those of another. *)
Definition rendersDocument `{Descriptors} (md : descriptor) (fields rendered : document) : Prop :=
  forall key, match fields !! key, rendered !! key with
              | Some v, Some q => renders_field md (key, v) (key, q)
              | None, None => True
              | _, _ => False
              end.

(** What protojson documents of a record it could encode: its fields that are
    set, under their proto names, as [fieldsOf] gives them with native numbers. *)
Class StoredFormLaw `{Descriptors, ExtJSON} (R : Type) `{!StoredForm R} : Type := {
  fieldsOf : R -> document;
  marshal_renders record storedJSON : MarshalStored record = Ok storedJSON ->
    exists rendered, UnmarshalExtJSON storedJSON = Ok rendered /\ rendersDocument (Descriptor R) (fieldsOf record) rendered;
}.
#[export] Hint Mode StoredFormLaw - - ! - : typeclass_instances.

(** The stored document of a record: its fields with native numbers, without its
    identity, and the time of the scan at a fixed width. *)
Definition documentOf `{StoredFormLaw R} (record : R) : document := normalized (delete "id" (delete "_id" (fieldsOf record))).

Section replacement.
Context `{StoredFormLaw R}.

Lemma coerceStoredNumbers_renders md fields rendered :
  rendersDocument md fields rendered -> coerceStoredNumbers rendered md = fields.
Proof.
  intros Hr. apply map_eq. intros key. unfold coerceStoredNumbers. rewrite map_lookup_imap. specialize (Hr key).
  destruct (fields !! key) as [v|], (rendered !! key) as [q|]; try done. cbn. f_equal. unfold coerceField.
  inversion Hr as [md' key' fd v' q' Hb Hl Hv|md' key' fd l l' Hb Hl Hv]; subst; rewrite Hb, Hl.
  - by apply coerce_renders.
  - f_equal. clear Hr Hb Hl. induction Hv as [|a b m m' Hab Hm' IHm]; [done|]. cbn. rewrite IHm. f_equal. by apply coerce_renders.
Qed.

(** A record that can be encoded is stored as its document: whole, its 64-bit
    numbers as numbers however protojson quoted them. *)
Lemma replacement_document (record : R) storedJSON :
  MarshalStored record = Ok storedJSON -> replacementDocumentFrom record = Ok (documentOf record).
Proof.
  intros Hm. unfold replacementDocumentFrom, documentOf. rewrite Hm. destruct (marshal_renders _ _ Hm) as (rendered & Hu & Hr). cbn [rbind].
  rewrite Hu. cbn [rbind]. do 2 f_equal. apply coerceStoredNumbers_renders. intros key.
  destruct (decide (key = "id")) as [->|Hid]; [by rewrite !lookup_delete_eq|rewrite !(lookup_delete_ne _ "id") by done].
  destruct (decide (key = "_id")) as [->|Hid']; [by rewrite !lookup_delete_eq|rewrite !lookup_delete_ne by done]. apply Hr.
Qed.

Lemma lookup_documentOf (record : R) key : key <> "id" -> key <> "_id" -> key <> "scanned_at" ->
  documentOf record !! key = fieldsOf record !! key.
Proof.
  intros Hid Hid' Hsc. unfold documentOf, normalized.
  assert (delete "id" (delete "_id" (fieldsOf record)) !! key = fieldsOf record !! key) as <- by by rewrite !lookup_delete_ne.
  destruct (_ !! "scanned_at") as [[]|]; try done. destruct (String.eqb s ""); [done|]. by rewrite lookup_insert_ne.
Qed.

(** The stored time of a record, when it has one. *)
Lemma scannedAt_documentOf (record : R) k t :
  fieldsOf record !! "scanned_at" = Some (Text (protojsonTime k t)) ->
  four_digit_year t -> (k <= 9)%nat -> (t mod 10 ^ (9 - Z.of_nat k) = 0)%Z ->
  documentOf record !! "scanned_at" = Some (Text (FormatStoredTime t)).
Proof.
  intros Hf Hy Hk Hm. unfold documentOf, normalized. rewrite !lookup_delete_ne, Hf by done.
  destruct (String.eqb_spec (protojsonTime k t) "") as [He|_].
  { pose proof (parse_protojsonTime k t Hy Hk Hm) as Hp. by rewrite He in Hp. }
  rewrite lookup_insert_eq. by rewrite NormalizeStoredTime_protojson.
Qed.
End replacement.
