(* ===== verification/AppConfig.v ===== *)
(** The application configuration: src/internal/shared/appconfig/model.go and
    store.go, over the messages of src/proto/metarr/v1 (config.proto and those it
    imports), with the built-in defaults of builtin_defaults.json. A stored
    document may lack any section; [Config] is the normalized form every reader
    of the process sees. *)
From stdpp Require Import strings list gmap.
From Stdlib Require Import Ascii ZArith Lia.
From coqutil Require Import Datatypes.RecordSetters.
Import DoubleBraceUpdate.
From S2P Require Import Prelude Sidecar Streams.
#[local] Open Scope go_scope.

(** * Messages *)

Inductive AuthenticationScheme : Type := AuthSchemeUnspecified | AuthSchemeNone | AuthSchemePassword.
#[export] Instance AuthenticationScheme_eq_dec : EqDecision AuthenticationScheme.
Proof. solve_decision. Defined.

Record AdminUser : Type := {
  auUsername : string;
  auEmail : string;
  auPasswordSalt : string;
  auPasswordHash : string;
  auAuthenticationScheme : AuthenticationScheme;
}.

Record RootDirMapping : Type := { rdSonarrPath : string; rdLocalPath : string }.
Record StorageConfig : Type := { scMode : string; scTtl : string; scMaxCount : Z }.

(** An instance's storage section may be missing. *)
Record SonarrInstance : Type := {
  siInstanceName : string;
  siInstanceSlug : string;
  siSonarrUrl : string;
  siSonarrApiKey : string;
  siRootDirMap : list RootDirMapping;
  siStorage : option StorageConfig;
}.

Record ScanDirectory : Type := { sdScannerSlug : string; sdScanType : string; sdDirectory : string }.

Record DirectoryScannerConfig : Type := {
  dsParallelCount : Z;
  dsScanDirectories : list ScanDirectory;
  dsSidecarTypes : list Entry;
}.

Record AgentDirectoryMapping : Type := { amScannerSlug : string; amAgentPath : string }.

(** The fields of an agent that are configured; the others are observed. *)
Record Agent : Type := {
  agSlug : string;
  agDisplayName : string;
  agMappings : list AgentDirectoryMapping;
  agLogLevel : string;
}.

Record LoggingConfig : Type := { lcServerLevel : string; lcSink : string; lcEndpoint : string; lcStream : string }.
Record AuthConfig : Type := { acHmacSecret : string }.

(** A null entry of the array of instances is a nil instance. *)
Record StoredConfig : Type := {
  stAdmin : option AdminUser;
  stInterfaces : option (list (option SonarrInstance));
  stDirectoryScanner : option DirectoryScannerConfig;
  stAgents : list Agent;
  stLogging : option LoggingConfig;
  stEventBus : option EventBusConfig;
  stAuth : option AuthConfig;
}.

Record Config : Type := {
  cfAdmin : AdminUser;
  cfInterfaces : list (option SonarrInstance);
  cfDirectoryScanner : DirectoryScannerConfig;
  cfAgents : list Agent;
  cfLogging : LoggingConfig;
  cfEventBus : EventBusConfig;
  cfAuth : AuthConfig;
}.

Definition LogLevelInfo : string := "info".
Definition LogLevelDebug : string := "debug".

(** * The defaults *)

(** The sections of builtin_defaults.json. *)
Definition defaultParallelCount : Z := 16.
Definition defaultLogging : LoggingConfig := {| lcServerLevel := "info"; lcSink := "openobserve"; lcEndpoint := ""; lcStream := "metarr_app" |}.
Definition defaultEventBus : EventBusConfig := {|
  ebMaxLen := 10000; ebRetentionHours := 48; ebRetryAttempts := 4; ebRetryBackoffBaseMs := 500; ebRetryBackoffMaxMs := 30000 |}.
Definition DefaultAdminIdentity : string * string := ("admin", "admin@example.com").

Definition emptyAdmin : AdminUser :=
  {| auUsername := ""; auEmail := ""; auPasswordSalt := ""; auPasswordHash := ""; auAuthenticationScheme := AuthSchemeUnspecified |}.
Definition emptyEventBus : EventBusConfig := {| ebMaxLen := 0; ebRetentionHours := 0; ebRetryAttempts := 0; ebRetryBackoffBaseMs := 0; ebRetryBackoffMaxMs := 0 |}.

Definition Default : Config := {|
  cfAdmin := emptyAdmin {{ auAuthenticationScheme := AuthSchemeNone }};
  cfInterfaces := [];
  cfDirectoryScanner := {| dsParallelCount := defaultParallelCount; dsScanDirectories := []; dsSidecarTypes := DefaultSidecarTypes |};
  cfAgents := [];
  cfLogging := defaultLogging;
  cfEventBus := defaultEventBus;
  cfAuth := {| acHmacSecret := "" |};
|}.

(** * Normalize *)

Definition normalizeSections (c : StoredConfig) : Config := {|
  cfAdmin := default emptyAdmin (stAdmin c);
  cfInterfaces := default [] (stInterfaces c);
  cfDirectoryScanner := default {| dsParallelCount := 0; dsScanDirectories := []; dsSidecarTypes := [] |} (stDirectoryScanner c);
  cfAgents := stAgents c;
  cfLogging := default {| lcServerLevel := ""; lcSink := ""; lcEndpoint := ""; lcStream := "" |} (stLogging c);
  cfEventBus := default emptyEventBus (stEventBus c);
  cfAuth := default {| acHmacSecret := "" |} (stAuth c);
|}.

Definition withStorage (instance : SonarrInstance) : SonarrInstance :=
  match siStorage instance with
  | None => instance {{ siStorage := Some {| scMode := ""; scTtl := ""; scMaxCount := 0 |} }}
  | Some _ => instance
  end.

Definition normalizeSonarrStorage (c : Config) : Config := c {{ cfInterfaces ::= map (fmap withStorage) }}.

Definition normalizeAuthenticationScheme (c : Config) : Config :=
  if decide (auAuthenticationScheme (cfAdmin c) = AuthSchemeUnspecified)
  then c {{ cfAdmin ::= fun admin => admin {{ auAuthenticationScheme := AuthSchemeNone }} }}
  else c.

Definition Normalize (config : option StoredConfig) : Config :=
  match config with
  | None => Default
  | Some config => normalizeAuthenticationScheme (normalizeSonarrStorage (normalizeSections config))
  end.

(** The document a configuration is stored as. *)
Definition stored (c : Config) : StoredConfig := {|
  stAdmin := Some (cfAdmin c); stInterfaces := Some (cfInterfaces c); stDirectoryScanner := Some (cfDirectoryScanner c); stAgents := cfAgents c;
  stLogging := Some (cfLogging c); stEventBus := Some (cfEventBus c); stAuth := Some (cfAuth c);
|}.

(** * Look-ups *)

(** The index of the first element that satisfies a test. *)
Fixpoint findIndex {A} (p : A -> bool) (l : list A) : option nat :=
  match l with
  | [] => None
  | x :: rest => if p x then Some 0%nat else S <$> findIndex p rest
  end.

Definition FindAgentIndex (c : Config) (slug : string) : option nat := findIndex (fun agent => String.eqb (agSlug agent) slug) (cfAgents c).

Definition FindMapping (agent : Agent) (scannerSlug : string) : option AgentDirectoryMapping :=
  List.find (fun mapping => String.eqb (amScannerSlug mapping) scannerSlug) (agMappings agent).

Definition AgentForScanner (c : Config) (scannerSlug : string) : option Agent :=
  List.find (fun agent => existsb (fun mapping => String.eqb (amScannerSlug mapping) scannerSlug) (agMappings agent)) (cfAgents c).

Definition FindScanDirectoryIndex (scanner : DirectoryScannerConfig) (slug : string) : option nat :=
  findIndex (fun entry => String.eqb (sdScannerSlug entry) slug) (dsScanDirectories scanner).

Definition FindSidecarTypeIndexByID (scanner : DirectoryScannerConfig) (id : string) : option nat :=
  findIndex (fun entry => String.eqb (eId entry) id) (dsSidecarTypes scanner).

(** A nil instance is dereferenced. *)
Fixpoint FindSonarrIndex (interfaces : list (option SonarrInstance)) (slug : string) : outcome (option nat) :=
  match interfaces with
  | [] => Done None
  | None :: _ => Panic
  | Some instance :: rest => if String.eqb (siInstanceSlug instance) slug then Done (Some 0%nat) else let* index := FindSonarrIndex rest slug in Done (S <$> index)
  end.

Fixpoint AllInstanceSlugs (interfaces : list (option SonarrInstance)) : outcome (list string) :=
  match interfaces with
  | [] => Done []
  | None :: _ => Panic
  | Some instance :: rest => let* slugs := AllInstanceSlugs rest in Done (siInstanceSlug instance :: slugs)
  end.

Lemma findIndex_Some {A} (p : A -> bool) l i : findIndex p l = Some i ->
  exists x, l !! i = Some x /\ p x = true /\ forall j y, (j < i)%nat -> l !! j = Some y -> p y = false.
Proof.
  revert i. induction l as [|x l IH]; intros i; [done|]. cbn. destruct (p x) eqn:Hp.
  - intros [= <-]. exists x. by split_and!; [..|intros j y ?; lia].
  - intros (k & Hk & ->)%fmap_Some. destruct (IH k Hk) as (y & Hy & Hpy & Hfirst). exists y. split_and!; [done..|].
    intros [|j] z Hj; [by intros [= <-]|]. apply Hfirst. lia.
Qed.

Lemma findIndex_None {A} (p : A -> bool) l : findIndex p l = None <-> forall x, x ∈ l -> p x = false.
Proof.
  induction l as [|x l IH]; cbn; [split; [by intros _ y ?%elem_of_nil|done]|]. destruct (p x) eqn:Hp.
  - split; [done|]. intros Hall. by rewrite (Hall x) in Hp by left.
  - rewrite fmap_None, IH. split; [intros Hall y [->|]%elem_of_cons; auto|]. intros Hall y Hy. apply Hall. by right.
Qed.

(** What is read of a configuration is settled the first time: normalizing what
    was stored of a normalized one gives it back. *)
Lemma Normalize_stored config : Normalize (Some (stored (Normalize config))) = Normalize config.
Proof.
  assert (forall i, withStorage (withStorage i) = withStorage i) as Hw by (intros []; unfold withStorage; cbn; by destruct siStorage0).
  assert (forall l : list (option SonarrInstance), map (fmap withStorage) (map (fmap withStorage) l) = map (fmap withStorage) l) as Hm.
  { intros l. rewrite map_map. apply map_ext. intros [i|]; [|done]. cbn. by rewrite Hw. }
  destruct config as [[admin ifs scanner agents lg eb au]|]; [|by vm_compute]. unfold Normalize, normalizeAuthenticationScheme, normalizeSonarrStorage, normalizeSections, stored.
  destruct admin as [[u e s h []]|], ifs as [l|]; cbn; try done; f_equal; apply Hm.
Qed.
