(* ===== verification/LocalDirectory.v ===== *)
(** The library's records in MongoDB: LocalDirectoryRepo of
    src/internal/server/mongostore/local_directory_repo.go. The collection is the
    class [LocalCollection], whose operations may fail at any call and whose laws
    are what the driver documents; its unique index on path makes it a map from
    paths. What is shown is what a run of writes and the sweep that ends it
    leave in it. *)
From stdpp Require Import strings list gmap.
From Stdlib Require Import Ascii ZArith Lia.
From S2P Require Import Prelude Sidecar ScanModel GoPath Paths StoredTime Stored.
#[local] Open Scope go_scope.

(** * The collection *)

Class LocalCollection : Type := {
  collection : Type;
  ObjectID : Type;
  #[global] ObjectID_eq_dec :: EqDecision ObjectID;
  NilObjectID : ObjectID;
  Hex : ObjectID -> string;
  docs : collection -> gmap string (ObjectID * document);
  (** The replacement of the document with a path, inserted if there is none,
      and its id. *)
  FindOneAndReplace : string -> document -> collection -> collection * result ObjectID;
  (** Unordered replacements by path, each inserted if there is none. *)
  BulkWrite : list (string * document) -> collection -> collection * option string;
  (** The id of the document with a path and a record type. *)
  FindOne : string -> string -> collection -> collection * result (option ObjectID);
  DeleteMany : (document -> bool) -> collection -> collection * option string;
}.

Section laws.
Context `{LocalCollection}.

(** The id a write leaves at a path: the one there was, or a new one. *)
Definition keepsID (M : gmap string (ObjectID * document)) (p : string) (id : ObjectID) : Prop :=
  id <> NilObjectID /\
  match M !! p with Some (id', _) => id = id' | None => forall q id' d, M !! q = Some (id', d) -> id <> id' end.

(** A path holds a document some write wanted there. *)
Definition written (ws : list (string * document)) (M M' : gmap string (ObjectID * document)) (p : string) : Prop :=
  exists id d, (p, d) ∈ ws /\ M' !! p = Some (id, d) /\ keepsID M p id.

Definition replaced (ws : list (string * document)) (M M' : gmap string (ObjectID * document)) : Prop :=
  forall p, if bool_decide (p ∈ ws.*1) then written ws M M' p else M' !! p = M !! p.

Definition partly_replaced (ws : list (string * document)) (M M' : gmap string (ObjectID * document)) : Prop :=
  forall p, M' !! p = M !! p \/ written ws M M' p.

(** A replacement names the path it is stored under. *)
Definition keyed (ws : list (string * document)) : Prop := forall p d, (p, d) ∈ ws -> d !! "path" = Some (Text p).

(** No document has the nil id. *)
Definition ids_set (M : gmap string (ObjectID * document)) : Prop := forall p id d, M !! p = Some (id, d) -> id <> NilObjectID.

Definition survivors (p : document -> bool) (M : gmap string (ObjectID * document)) : gmap string (ObjectID * document) :=
  filter (fun e => p e.2.2 = false) M.
End laws.

Class LocalCollectionLaws `{LocalCollection} : Prop := {
  ids_never_nil c : ids_set (docs c);
  FindOneAndReplace_Ok p d c c' id : keyed [(p, d)] -> FindOneAndReplace p d c = (c', Ok id) ->
    replaced [(p, d)] (docs c) (docs c') /\ docs c' !! p = Some (id, d);
  FindOneAndReplace_Err p d c c' err : keyed [(p, d)] -> FindOneAndReplace p d c = (c', Err err) ->
    partly_replaced [(p, d)] (docs c) (docs c');
  BulkWrite_Ok ws c c' : keyed ws -> BulkWrite ws c = (c', None) -> replaced ws (docs c) (docs c');
  BulkWrite_Err ws c c' err : keyed ws -> BulkWrite ws c = (c', Some err) -> partly_replaced ws (docs c) (docs c');
  FindOne_docs p recordType c : docs (FindOne p recordType c).1 = docs c;
  FindOne_Some p recordType c c' id : FindOne p recordType c = (c', Ok (Some id)) ->
    exists d, docs c !! p = Some (id, d) /\ d !! "record_type" = Some (Text recordType);
  FindOne_None p recordType c c' : FindOne p recordType c = (c', Ok None) ->
    forall id d, docs c !! p = Some (id, d) -> d !! "record_type" <> Some (Text recordType);
  DeleteMany_Ok p c c' : DeleteMany p c = (c', None) -> docs c' = survivors p (docs c);
  DeleteMany_Err p c c' err : DeleteMany p c = (c', Some err) -> docs c' ⊆ docs c /\ survivors p (docs c) ⊆ docs c';
}.

(** * The records *)

(** A media file with the field the store links it by. *)
Record StoredFile (F : Type) : Type := { sfFile : MediaFile F; sfDirectoryId : string }.
Arguments sfFile {F} _.
Arguments sfDirectoryId {F} _.

(** The filter of the sweep; $lt compares a string with strings only. *)
Definition stale (scanRootPath cutoff : string) (d : document) : bool :=
  match d !! "scan_root_path", d !! "scanned_at" with
  | Some (Text root), Some (Text scannedAt) => String.eqb root scanRootPath && String.ltb scannedAt cutoff
  | _, _ => false
  end.

Section repo.
Context {D F : Type} `{LocalCollection, Descriptors, ExtJSON, !StoredForm (Directory D), !StoredForm (StoredFile F)}.

Definition inRoot (scanRootPath : string) (d : Directory D) : Directory D :=
  {| dirPath := dirPath d; dirScanRootPath := scanRootPath; dirOther := dirOther d |}.

(** The assignments to a media file. It arrives without a directory id, and an
    unlinked one is left so. *)
Definition linked (scanRootPath : string) (directoryID : ObjectID) (f : MediaFile F) : StoredFile F := {|
  sfFile := {| filePath := filePath f; fileDirectoryPath := fileDirectoryPath f; fileScanRootPath := scanRootPath; fileOther := fileOther f |};
  sfDirectoryId := if decide (directoryID = NilObjectID) then "" else Hex directoryID;
|}.

Definition upsertDirectory (directory : Directory D) (c : collection) : collection * result ObjectID :=
  match replacementDocumentFrom directory with
  | Err err => (c, Err ("mongostore: encoding directory " +:+ dirPath directory +:+ ": " +:+ err))
  | Ok replacement =>
      match FindOneAndReplace (dirPath directory) replacement c with
      | (c', Err err) => (c', Err ("mongostore: upserting directory " +:+ dirPath directory +:+ ": " +:+ err))
      | (c', Ok id) => (c', Ok id)
      end
  end.

Definition directoryIDForPath (directoryPath : string) (c : collection) : collection * result ObjectID :=
  if String.eqb directoryPath "" then (c, Ok NilObjectID)
  else
    match FindOne directoryPath RecordTypeTVSeries c with
    | (c', Ok None) => (c', Ok NilObjectID)
    | (c', Ok (Some id)) => (c', Ok id)
    | (c', Err err) => (c', Err ("mongostore: finding directory " +:+ directoryPath +:+ ": " +:+ err))
    end.

(** The loop that builds the writes of the media files. *)
Fixpoint mediaFileWrites (scanRootPath : string) (directoryID : ObjectID) (files : list (MediaFile F)) : result (list (string * document)) :=
  match files with
  | [] => Ok []
  | f :: rest =>
      match replacementDocumentFrom (linked scanRootPath directoryID f) with
      | Err err => Err ("mongostore: encoding media file " +:+ filePath f +:+ ": " +:+ err)
      | Ok replacement => try writes := mediaFileWrites scanRootPath directoryID rest in Ok ((filePath f, replacement) :: writes)
      end
  end.

(** The directory id the media files are linked to. *)
Definition resultDirectoryID (scanRootPath : string) (result : ScanResult D F) (c : collection) : collection * Prelude.result ObjectID :=
  match srDirectory result with
  | Some directory => upsertDirectory (inRoot scanRootPath directory) c
  | None =>
      match srMediaFiles result with
      | f :: _ => directoryIDForPath (fileDirectoryPath f) c
      | [] => (c, Ok NilObjectID)
      end
  end.

(** The error of the call, if it has one. *)
Definition UpsertScanResult (scanRootPath : string) (result : option (ScanResult D F)) (c : collection) : collection * option string :=
  match result with
  | None => (c, None)
  | Some result =>
      match resultDirectoryID scanRootPath result c with
      | (c1, Err err) => (c1, Some err)
      | (c1, Ok directoryID) =>
          match srMediaFiles result with
          | [] => (c1, None)
          | files =>
              match mediaFileWrites scanRootPath directoryID files with
              | Err err => (c1, Some err)
              | Ok writes =>
                  match BulkWrite writes c1 with
                  | (c2, Some err) => (c2, Some ("mongostore: writing media file records: " +:+ err))
                  | (c2, None) => (c2, None)
                  end
              end
          end
      end
  end.

Definition DeleteStaleRecords (scanRootPath : string) (scanStartedAt : Z) (c : collection) : collection * option string :=
  match DeleteMany (stale scanRootPath (FormatStoredTime scanStartedAt)) c with
  | (c', Some err) => (c', Some ("mongostore: removing stale records under " +:+ scanRootPath +:+ ": " +:+ err))
  | (c', None) => (c', None)
  end.

(** The loop over the results, which stops at the first error. *)
Fixpoint upsertAll (scanRootPath : string) (results : list (ScanResult D F)) (c : collection) : collection * option string :=
  match results with
  | [] => (c, None)
  | result :: rest =>
      match UpsertScanResult scanRootPath (Some result) c with
      | (c', Some err) => (c', Some err)
      | (c', None) => upsertAll scanRootPath rest c'
      end
  end.

Definition ReplaceScanResults (scanRootPath : string) (results : list (ScanResult D F)) (scanStartedAt : Z) (c : collection)
  : collection * option string :=
  match upsertAll scanRootPath results c with
  | (c', Some err) => (c', Some err)
  | (c', None) => DeleteStaleRecords scanRootPath scanStartedAt c'
  end.
End repo.

(** * What writes leave *)

Section maps.
Context `{LocalCollection}.

Implicit Types M : gmap string (ObjectID * document).

(** No document is lost, and no id is exchanged. *)
Definition ids_kept M M' : Prop := forall p, M' !! p = M !! p \/ exists id d, M' !! p = Some (id, d) /\ keepsID M p id.

Lemma partly_ids_kept ws M M' : partly_replaced ws M M' -> ids_kept M M'.
Proof. intros Hp p. destruct (Hp p) as [|(id & d & _ & ? & ?)]; eauto. Qed.

Lemma replaced_partly ws M M' : replaced ws M M' -> partly_replaced ws M M'.
Proof. intros Hr p. specialize (Hr p). case_bool_decide; eauto. Qed.

Lemma replaced_in ws M M' p : replaced ws M M' -> p ∈ ws.*1 -> written ws M M' p.
Proof. intros Hr Hp. specialize (Hr p). by rewrite bool_decide_true in Hr. Qed.

Lemma replaced_out ws M M' p : replaced ws M M' -> p ∉ ws.*1 -> M' !! p = M !! p.
Proof. intros Hr Hp. specialize (Hr p). by rewrite bool_decide_false in Hr. Qed.

Lemma keepsID_back M M1 p id : ids_kept M M1 -> keepsID M1 p id -> keepsID M p id.
Proof.
  intros Hk [Hn Hid]. split; [done|]. destruct (M !! p) as [[id0 d0]|] eqn:Hp.
  - destruct (Hk p) as [He|(id1 & d1 & He & _ & Hid1)]; rewrite He, ?Hp in Hid; [done|]. rewrite Hp in Hid1. congruence.
  - destruct (Hk p) as [He|(id1 & d1 & He & _ & Hid1)].
    + rewrite He, Hp in Hid. intros q id' d Hq. destruct (Hk q) as [Heq|(id2 & d2 & Heq & _ & Hid2)].
      * rewrite Hq in Heq. by eapply Hid.
      * rewrite Hq in Hid2. subst. by eapply Hid.
    + rewrite He in Hid. subst. by rewrite Hp in Hid1.
Qed.

Lemma ids_kept_lookup M M' p id d : ids_kept M M' -> M !! p = Some (id, d) -> exists d', M' !! p = Some (id, d').
Proof.
  intros Hk Hp. destruct (Hk p) as [He|(id' & d' & He & _ & Hid)]; [rewrite He; eauto|]. rewrite Hp in Hid. subst. eauto.
Qed.

Lemma partly_app ws ws' M M1 M2 : partly_replaced ws M M1 -> partly_replaced ws' M1 M2 -> partly_replaced (ws ++ ws') M M2.
Proof.
  intros H1 H2 p. unfold partly_replaced, written in *. setoid_rewrite elem_of_app.
  destruct (H2 p) as [->|(id & d & Hd & Hp & Hk)].
  - destruct (H1 p) as [|(id & d & Hd & Hp & Hk)]; [by left|]. right. eauto 10.
  - right. exists id, d. split_and!; [by right|done|]. by eapply keepsID_back; [eapply partly_ids_kept|].
Qed.

Lemma replaced_app ws ws' M M1 M2 : replaced ws M M1 -> replaced ws' M1 M2 -> replaced (ws ++ ws') M M2.
Proof.
  intros H1 H2 p. rewrite fmap_app. destruct (decide (p ∈ ws'.*1)) as [Hp|Hp].
  - rewrite bool_decide_true by (rewrite elem_of_app; by right). destruct (replaced_in _ _ _ _ H2 Hp) as (id & d & Hd & Hl & Hk).
    exists id, d. split_and!; [rewrite elem_of_app; by right|done|]. eapply keepsID_back; [|done]. by eapply partly_ids_kept, replaced_partly.
  - rewrite (replaced_out _ _ _ _ H2 Hp). case_bool_decide as Hw; rewrite elem_of_app in Hw.
    + destruct Hw as [Hw|]; [|done]. destruct (replaced_in _ _ _ _ H1 Hw) as (id & d & Hd & Hl & Hk).
      exists id, d. split_and!; [rewrite elem_of_app; by left| |done]. by rewrite (replaced_out _ _ _ _ H2 Hp).
    + apply (replaced_out _ _ _ _ H1). naive_solver.
Qed.

Lemma replaced_nil M : replaced [] M M.
Proof. intros p. by rewrite bool_decide_false by (apply not_elem_of_nil). Qed.

Lemma partly_nil ws M : partly_replaced ws M M.
Proof. intros p. by left. Qed.
End maps.

(** * One result *)

Definition textField (s : string) : option value := if String.eqb s "" then None else Some (Text s).

(** What a record's fields are, as far as the store reads them back. *)
Class RecordFields (D F : Type) : Type := {
  dirRecordType : D -> string;
  dirScannedAt : D -> Z;
  fileScannedAt : F -> Z;
}.

Definition scannedAtField (v : option value) (t : Z) : Prop :=
  exists k, v = Some (Text (protojsonTime k t)) /\ (k <= 9)%nat /\ (t mod 10 ^ (9 - Z.of_nat k) = 0)%Z.

Class RecordFieldsLaw (D F : Type) `{RecordFields D F, LocalCollection, StoredFormLaw (Directory D), !StoredForm (StoredFile F),
  !StoredFormLaw (StoredFile F)} : Prop := {
  directory_path (d : Directory D) : fieldsOf d !! "path" = textField (dirPath d);
  directory_root (d : Directory D) : fieldsOf d !! "scan_root_path" = textField (dirScanRootPath d);
  directory_type (d : Directory D) : fieldsOf d !! "record_type" = textField (dirRecordType (dirOther d));
  directory_scanned (d : Directory D) : scannedAtField (fieldsOf d !! "scanned_at") (dirScannedAt (dirOther d));
  file_path (f : StoredFile F) : fieldsOf f !! "path" = textField (filePath (sfFile f));
  file_root (f : StoredFile F) : fieldsOf f !! "scan_root_path" = textField (fileScanRootPath (sfFile f));
  file_scanned (f : StoredFile F) : scannedAtField (fieldsOf f !! "scanned_at") (fileScannedAt (fileOther (sfFile f)));
}.

Section upsert.
Context {D F : Type} `{RecordFieldsLaw D F, !LocalCollectionLaws}.
Implicit Types (r : ScanResult D F) (root : string).

Definition directoryDocument root (d : Directory D) : document := documentOf (inRoot root d).
Definition fileDocument root (id : ObjectID) (f : MediaFile F) : document := documentOf (linked root id f).

(** The writes a result comes to, once its directory's id is known. *)
Definition directoryWrites root r : list (string * document) :=
  match srDirectory r with Some d => [(dirPath d, directoryDocument root d)] | None => [] end.
Definition fileWrites root id r : list (string * document) := map (fun f => (filePath f, fileDocument root id f)) (srMediaFiles r).

(** A scanned result: its records have paths, its directory is recorded as one,
    and no file has a directory's path. *)
Record placed r : Prop := {
  placed_directory d : srDirectory r = Some d -> dirPath d <> "" /\ dirRecordType (dirOther d) = RecordTypeTVSeries;
  placed_file f : f ∈ srMediaFiles r -> filePath f <> "";
  placed_apart d f : srDirectory r = Some d -> f ∈ srMediaFiles r -> filePath f <> dirPath d;
  placed_below f g : f ∈ srMediaFiles r -> g ∈ srMediaFiles r -> filePath g <> fileDirectoryPath f;
}.

Lemma textField_set s : s <> "" -> textField s = Some (Text s).
Proof. intros Hs. unfold textField. by destruct (String.eqb_spec s ""). Qed.

Lemma replacementDocumentFrom_Ok `{StoredFormLaw R} (record : R) d : replacementDocumentFrom record = Ok d -> d = documentOf record.
Proof.
  intros Hd. destruct (MarshalStored record) as [j|err] eqn:Hm; [|unfold replacementDocumentFrom in Hd; by rewrite Hm in Hd].
  pose proof (replacement_document record j Hm). congruence.
Qed.

Lemma directoryDocument_fields root d : dirPath d <> "" -> dirRecordType (dirOther d) = RecordTypeTVSeries ->
  directoryDocument root d !! "path" = Some (Text (dirPath d)) /\
  directoryDocument root d !! "record_type" = Some (Text RecordTypeTVSeries) /\
  directoryDocument root d !! "scan_root_path" = textField root.
Proof.
  intros Hp Ht. unfold directoryDocument. rewrite !lookup_documentOf, directory_path, directory_type, directory_root by done.
  cbn. rewrite Ht. by rewrite textField_set.
Qed.

Lemma fileDocument_fields root id f : filePath f <> "" ->
  fileDocument root id f !! "path" = Some (Text (filePath f)) /\ fileDocument root id f !! "scan_root_path" = textField root.
Proof. intros Hp. unfold fileDocument. rewrite !lookup_documentOf, file_path, file_root by done. cbn. by rewrite textField_set. Qed.

Lemma mediaFileWrites_Ok root id files ws :
  mediaFileWrites root id files = Ok ws -> ws = map (fun f => (filePath f, fileDocument root id f)) files.
Proof.
  revert ws. induction files as [|f files IH]; intros ws; [by intros [= <-]|]. cbn [mediaFileWrites].
  destruct (replacementDocumentFrom _) as [d|] eqn:Hd; [|done]. apply replacementDocumentFrom_Ok in Hd as ->.
  destruct (mediaFileWrites root id files) as [ws'|]; [|done]. intros [= <-]. cbn. by rewrite (IH ws').
Qed.

Lemma fileWrites_keyed root id r : placed r -> keyed (fileWrites root id r).
Proof.
  intros Hr p d. unfold fileWrites. intros (f & [= -> ->] & Hf)%list_elem_of_fmap. by apply fileDocument_fields, (placed_file r).
Qed.

(** The id the files are linked to, and what finding it wrote. *)
Definition links_to root r (M : gmap string (ObjectID * document)) (id : ObjectID) : Prop :=
  match srDirectory r with
  | Some d => M !! dirPath d = Some (id, directoryDocument root d)
  | None =>
      match srMediaFiles r with
      | f :: _ =>
          (exists d, M !! fileDirectoryPath f = Some (id, d)) \/
          (id = NilObjectID /\ (fileDirectoryPath f = "" \/ forall id' d, M !! fileDirectoryPath f = Some (id', d) -> d !! "record_type" <> Some (Text RecordTypeTVSeries)))
      | [] => True
      end
  end.

Lemma resultDirectoryID_spec root r c c' out : placed r -> resultDirectoryID root r c = (c', out) ->
  partly_replaced (directoryWrites root r) (docs c) (docs c') /\
  forall id, out = Ok id -> replaced (directoryWrites root r) (docs c) (docs c') /\ links_to root r (docs c') id.
Proof.
  intros Hr. unfold resultDirectoryID, directoryWrites, links_to. destruct (srDirectory r) as [d|] eqn:Hd.
  - destruct (placed_directory r Hr d Hd) as [Hp Ht]. unfold upsertDirectory.
    destruct (replacementDocumentFrom (inRoot root d)) as [doc|err] eqn:Hdoc; [|intros [= <- <-]; split; [apply partly_nil|done]].
    apply replacementDocumentFrom_Ok in Hdoc as ->. fold (directoryDocument root d).
    assert (keyed [(dirPath d, directoryDocument root d)]) as Hk by (intros p doc [= -> ->]%list_elem_of_singleton; by apply directoryDocument_fields).
    change (dirPath (inRoot root d)) with (dirPath d).
    destruct (FindOneAndReplace (dirPath d) (directoryDocument root d) c) as [c1 [id|err]] eqn:Hf; intros [= <- <-].
    + destruct (FindOneAndReplace_Ok _ _ _ _ _ Hk Hf) as [Hrep Hl]. split; [by apply replaced_partly|]. by intros ? [= <-].
    + split; [by eapply FindOneAndReplace_Err|done].
  - destruct (srMediaFiles r) as [|f files]; [intros [= <- <-]; split; [apply partly_nil|]; intros id [= <-]; split; [apply replaced_nil|done]|].
    unfold directoryIDForPath. destruct (String.eqb_spec (fileDirectoryPath f) "") as [He|He].
    { intros [= <- <-]. split; [apply partly_nil|]. intros id [= <-]. split; [apply replaced_nil|]. by right; split; [|left]. }
    pose proof (FindOne_docs (fileDirectoryPath f) RecordTypeTVSeries c) as Hdocs.
    destruct (FindOne (fileDirectoryPath f) RecordTypeTVSeries c) as [c1 [[id|]|err]] eqn:Hf; cbn in Hdocs; intros [= <- <-]; rewrite Hdocs;
      (split; [apply partly_nil|]); try done; intros id' [= <-]; (split; [apply replaced_nil|]).
    + left. destruct (FindOne_Some _ _ _ _ _ Hf) as (d' & Hd' & _). eauto.
    + right. split; [done|]. right. exact (FindOne_None _ _ _ _ Hf).
Qed.

(** What UpsertScanResult leaves: with no error, every record of the result at
    its path and everything else as it was; with an error, each path the old
    document or a record of the result. Documents keep their ids. *)
Lemma UpsertScanResult_leaves root r c c' out : placed r -> UpsertScanResult root (Some r) c = (c', out) ->
  exists id, partly_replaced (directoryWrites root r ++ fileWrites root id r) (docs c) (docs c') /\
    (out = None -> replaced (directoryWrites root r ++ fileWrites root id r) (docs c) (docs c') /\ links_to root r (docs c') id).
Proof.
  intros Hr. unfold UpsertScanResult. destruct (resultDirectoryID root r c) as [c1 res] eqn:Hd.
  destruct (resultDirectoryID_spec root r c c1 res Hr Hd) as [Hpart Hok]. destruct res as [id|err]; cycle 1.
  { intros [= <- <-]. exists NilObjectID. split; [|done]. eapply partly_app; [done|apply partly_nil]. }
  destruct (Hok id eq_refl) as [Hrep Hlink]. pose proof (fileWrites_keyed root id r Hr) as Hkeyed.
  assert (forall M, docs c1 = M -> links_to root r M id) as Hlinked by (by intros ? <-).
  intros Hu. exists id. revert Hu. unfold fileWrites in *. destruct (srMediaFiles r) as [|f files] eqn:Hfiles.
  { intros [= <- <-]. cbn. rewrite app_nil_r. by split; [|intros _; split]. }
  destruct (mediaFileWrites root id (f :: files)) as [ws|err] eqn:Hw; cycle 1.
  { intros [= <- <-]. split; [|done]. eapply partly_app; [done|apply partly_nil]. }
  apply mediaFileWrites_Ok in Hw as ->.
  destruct (BulkWrite _ c1) as [c2 [err|]] eqn:Hb; intros [= <- <-].
  { split; [|done]. eapply partly_app; [done|]. by eapply BulkWrite_Err. }
  apply BulkWrite_Ok in Hb; [|done]. split; [eapply partly_app; [done|by apply replaced_partly]|]. intros _. split; [by eapply replaced_app|].
  assert (forall p, (forall g, g ∈ srMediaFiles r -> filePath g <> p) -> docs c2 !! p = docs c1 !! p) as Hout.
  { intros p Hp. apply (replaced_out _ _ _ _ Hb). rewrite <- Hfiles, list_elem_of_fmap. intros ((q & d) & -> & Hq).
    apply list_elem_of_fmap in Hq as (g & [= -> _] & Hg). by apply (Hp g). }
  revert Hlink. unfold links_to. destruct (srDirectory r) as [d|] eqn:Hdir.
  - rewrite Hout; [done|]. intros g Hg. by apply (placed_apart r).
  - rewrite Hfiles, Hout; [done|]. intros g Hg. apply (placed_below r); [done|rewrite Hfiles; by left|done].
Qed.

Lemma mediaFileWrites_encodes root id files ws : mediaFileWrites root id files = Ok ws ->
  forall f, f ∈ files -> replacementDocumentFrom (linked root id f) = Ok (fileDocument root id f).
Proof.
  revert ws. induction files as [|g files IH]; intros ws; [by intros _ f ?%elem_of_nil|]. cbn [mediaFileWrites].
  destruct (replacementDocumentFrom _) as [d|] eqn:Hd; [|done]. destruct (mediaFileWrites root id files) as [ws'|]; [|done]. intros _ f [->|Hf]%elem_of_cons.
  - pose proof (replacementDocumentFrom_Ok _ _ Hd) as Hdoc. by rewrite Hd, Hdoc.
  - by eapply IH.
Qed.

(** The records that were stored could be encoded. *)
Lemma UpsertScanResult_encodes root r d c c' : placed r -> srDirectory r = Some d -> UpsertScanResult root (Some r) c = (c', None) ->
  exists id, docs c' !! dirPath d = Some (id, directoryDocument root d) /\
    replacementDocumentFrom (inRoot root d) = Ok (directoryDocument root d) /\
    forall f, f ∈ srMediaFiles r -> replacementDocumentFrom (linked root id f) = Ok (fileDocument root id f).
Proof.
  intros Hr Hdir. unfold UpsertScanResult. destruct (resultDirectoryID root r c) as [c1 res] eqn:Hd.
  destruct (resultDirectoryID_spec root r c c1 res Hr Hd) as [_ Hok].
  assert (forall id, res = Ok id -> replacementDocumentFrom (inRoot root d) = Ok (directoryDocument root d)) as Henc.
  { intros id ->. revert Hd. unfold resultDirectoryID. rewrite Hdir. unfold upsertDirectory.
    destruct (replacementDocumentFrom (inRoot root d)) as [doc|] eqn:Hdoc; [|done]. by rewrite (replacementDocumentFrom_Ok _ _ Hdoc). }
  destruct res as [id|err]; [|done]. specialize (Henc id eq_refl). destruct (Hok id eq_refl) as [_ Hlink]. unfold links_to in Hlink. rewrite Hdir in Hlink.
  pose proof (fileWrites_keyed root id r Hr) as Hkeyed. unfold fileWrites in Hkeyed. pose proof (placed_apart r Hr d) as Hapart.
  destruct (srMediaFiles r) as [|f files] eqn:Hfiles; [intros [= <-]; exists id; split_and!; [done|done|by intros f ?%elem_of_nil]|].
  destruct (mediaFileWrites root id (f :: files)) as [ws|err] eqn:Hw; [|done]. pose proof (mediaFileWrites_encodes root id _ _ Hw) as Hfile.
  apply mediaFileWrites_Ok in Hw as ->. destruct (BulkWrite _ c1) as [c2 [err|]] eqn:Hb; intros [= <-]. apply BulkWrite_Ok in Hb; [|done].
  exists id. split_and!; [|done|done]. rewrite (replaced_out _ _ _ _ Hb); [done|]. rewrite list_elem_of_fmap. intros ((q & doc) & Hq & Hin).
  apply list_elem_of_fmap in Hin as (g & [= -> _] & Hg). by apply (Hapart g Hdir Hg).
Qed.

(** A call of UpsertScanResult that reports no error leaves every record of
    its result stored whole under its path, its files linked to the directory
    they name, and every other document as it was. One that fails leaves
    each path with the old document or with a record of the result, so sending
    the result again repairs it. A document keeps its id throughout. *)
Theorem UpsertScanResult_spec root r c c' out : placed r -> UpsertScanResult root (Some r) c = (c', out) ->
  exists id, ids_kept (docs c) (docs c') /\
    partly_replaced (directoryWrites root r ++ fileWrites root id r) (docs c) (docs c') /\
    (out = None -> replaced (directoryWrites root r ++ fileWrites root id r) (docs c) (docs c') /\ links_to root r (docs c') id).
Proof.
  intros Hr Hu. destruct (UpsertScanResult_leaves root r c c' out Hr Hu) as (id & Hp & Hok). exists id.
  split; [by eapply partly_ids_kept|]. by split.
Qed.

(** * A run of results *)

Definition resultPaths r : list string := map dirPath (option_list (srDirectory r)) ++ map filePath (srMediaFiles r).

(** The results of one scan in the order they are stored, some perhaps twice:
    each well placed, records of one path the same record, no file with a
    directory's path, every file of a result in one directory, and that directory's record
    stored before or with it. *)
Record scan_results (results : list (ScanResult D F)) : Prop := {
  sr_placed r : r ∈ results -> placed r;
  sr_directories r r' d d' : r ∈ results -> r' ∈ results -> srDirectory r = Some d -> srDirectory r' = Some d' -> dirPath d = dirPath d' -> d = d';
  sr_files r r' f f' : r ∈ results -> r' ∈ results -> f ∈ srMediaFiles r -> f' ∈ srMediaFiles r' -> filePath f = filePath f' -> f = f';
  sr_apart r r' d f : r ∈ results -> r' ∈ results -> srDirectory r = Some d -> f ∈ srMediaFiles r' -> filePath f <> dirPath d;
  sr_one_directory r f g : r ∈ results -> f ∈ srMediaFiles r -> g ∈ srMediaFiles r -> fileDirectoryPath f = fileDirectoryPath g;
  sr_before before r after f : results = before ++ r :: after -> f ∈ srMediaFiles r ->
    exists r' d, r' ∈ before ++ [r] /\ srDirectory r' = Some d /\ dirPath d = fileDirectoryPath f;
  sr_own r d f : r ∈ results -> srDirectory r = Some d -> f ∈ srMediaFiles r -> fileDirectoryPath f = dirPath d;
}.

Lemma scan_results_init results r : scan_results (results ++ [r]) -> scan_results results.
Proof.
  intros [H1' H2' H3' H4' H5' H6' H7']. assert (forall x, x ∈ results -> x ∈ results ++ [r]) as Hin by (intros x; rewrite elem_of_app; by left).
  constructor; eauto. intros before r' after f -> Hf. apply (H6' before r' (after ++ [r]) f); [by rewrite <- app_assoc|done].
Qed.

(** What the store holds of results it has been given. *)
Record holds root (results : list (ScanResult D F)) (M : gmap string (ObjectID * document)) : Prop := {
  holds_directory r d : r ∈ results -> srDirectory r = Some d -> exists id, M !! dirPath d = Some (id, directoryDocument root d);
  holds_file r f : r ∈ results -> f ∈ srMediaFiles r ->
    exists id directoryID dd, M !! filePath f = Some (id, fileDocument root directoryID f) /\ M !! fileDirectoryPath f = Some (directoryID, dd) /\ directoryID <> NilObjectID;
}.

Lemma upsertAll_snoc root results r c :
  upsertAll root (results ++ [r]) c =
  match upsertAll root results c with
  | (c1, None) => UpsertScanResult root (Some r) c1
  | (c1, Some err) => (c1, Some err)
  end.
Proof.
  revert c. induction results as [|r' results IH]; intros c.
  - cbn [upsertAll app]. by destruct (UpsertScanResult root (Some r) c) as [c1 [|]].
  - cbn [upsertAll app]. destruct (UpsertScanResult root (Some r') c) as [c1 [|]]; [done|apply IH].
Qed.

Lemma elem_of_writes root id r p doc : (p, doc) ∈ directoryWrites root r ++ fileWrites root id r <->
  (exists d, srDirectory r = Some d /\ p = dirPath d /\ doc = directoryDocument root d) \/
  (exists f, f ∈ srMediaFiles r /\ p = filePath f /\ doc = fileDocument root id f).
Proof.
  rewrite elem_of_app. unfold directoryWrites, fileWrites. rewrite list_elem_of_fmap.
  destruct (srDirectory r) as [d|]; [rewrite list_elem_of_singleton|rewrite elem_of_nil]; naive_solver.
Qed.

Lemma writes_paths root id r : (directoryWrites root r ++ fileWrites root id r).*1 = resultPaths r.
Proof.
  unfold directoryWrites, fileWrites, resultPaths. rewrite fmap_app. f_equal; [by destruct (srDirectory r)|].
  rewrite <- list_fmap_compose. done.
Qed.

Lemma elem_of_resultPaths r p : p ∈ resultPaths r <->
  (exists d, srDirectory r = Some d /\ p = dirPath d) \/ (exists f, f ∈ srMediaFiles r /\ p = filePath f).
Proof.
  unfold resultPaths. rewrite elem_of_app, !list_elem_of_fmap. destruct (srDirectory r) as [d|]; cbn; [|set_solver].
  setoid_rewrite list_elem_of_singleton. naive_solver.
Qed.

(** The directory of a result that was stored is in the collection, under the id
    its files are linked to. *)
Lemma linked_directory root before r M id f :
  scan_results (before ++ [r]) -> ids_set M ->
  (forall r' d, r' ∈ before ++ [r] -> srDirectory r' = Some d -> exists id, M !! dirPath d = Some (id, directoryDocument root d)) ->
  f ∈ srMediaFiles r -> links_to root r M id -> exists dd, M !! fileDirectoryPath f = Some (id, dd) /\ id <> NilObjectID.
Proof.
  intros Hs Hset Hh Hf Hl. unfold links_to in Hl. assert (r ∈ before ++ [r]) as Hrin by (rewrite elem_of_app; right; by left).
  destruct (srDirectory r) as [d|] eqn:Hdir.
  { rewrite (sr_own _ Hs r d f Hrin Hdir Hf). eexists. split; [exact Hl|]. by eapply Hset. }
  destruct (srMediaFiles r) as [|g files] eqn:Hfiles; [by apply elem_of_nil in Hf|].
  destruct (sr_before _ Hs before r [] f eq_refl) as (r' & d & Hr' & Hd' & Hp); [by rewrite Hfiles|].
  apply elem_of_app in Hr' as [Hr'| ->%list_elem_of_singleton]; [|congruence].
  assert (fileDirectoryPath g = fileDirectoryPath f) as Hg by (apply (sr_one_directory _ Hs r); rewrite ?Hfiles; [done|by left|done]).
  destruct (Hh r' d ltac:(rewrite elem_of_app; by left) Hd') as [id' Hid']. rewrite Hg in Hl. rewrite <- Hp in *.
  destruct (placed_directory r' (sr_placed _ Hs r' ltac:(rewrite elem_of_app; by left)) d Hd') as [Hne Hty].
  destruct Hl as [[dd Hdd]|[-> [He|Hno]]].
  - exists dd. split; [done|]. by eapply Hset.
  - by rewrite He in Hne.
  - destruct (Hno _ _ Hid'). by apply directoryDocument_fields.
Qed.

Lemma holds_snoc root before r M M' id :
  scan_results (before ++ [r]) -> ids_set M' -> holds root before M -> links_to root r M' id ->
  replaced (directoryWrites root r ++ fileWrites root id r) M M' -> holds root (before ++ [r]) M'.
Proof.
  intros Hs Hset Hh Hl Hrep. assert (forall x, x ∈ before -> x ∈ before ++ [r]) as Hin by (intros x; rewrite elem_of_app; by left).
  assert (r ∈ before ++ [r]) as Hrin by (rewrite elem_of_app; right; by left).
  pose proof (partly_ids_kept _ _ _ (replaced_partly _ _ _ Hrep)) as Hkept.
  assert (forall r' d, r' ∈ before ++ [r] -> srDirectory r' = Some d -> exists id, M' !! dirPath d = Some (id, directoryDocument root d)) as Hdirs.
  { intros r' d Hr' Hd. specialize (Hrep (dirPath d)). rewrite writes_paths in Hrep. case_bool_decide as Hp.
    - destruct Hrep as (id' & doc & [(d' & Hd' & He & ->)|(f & Hf & He & _)]%elem_of_writes & Hlook & _).
      + assert (d = d') as <- by by apply (sr_directories _ Hs r' r). eauto.
      + by destruct (sr_apart _ Hs r' r d f).
    - apply elem_of_app in Hr' as [Hr'| ->%list_elem_of_singleton]; [rewrite Hrep; by eapply holds_directory|].
      destruct Hp. apply elem_of_resultPaths. left. eauto. }
  constructor; [done|]. intros r' f Hr' Hf. pose proof (Hrep (filePath f)) as Hw. rewrite writes_paths in Hw. case_bool_decide as Hp.
  - destruct Hw as (id' & doc & [(d' & Hd' & He & _)|(g & Hg & He & ->)]%elem_of_writes & Hlook & _); [by destruct (sr_apart _ Hs r r' d' f)|].
    assert (f = g) as <- by by apply (sr_files _ Hs r' r).
    destruct (linked_directory root before r M' id f Hs Hset Hdirs Hg Hl) as (dd & Hdd & Hne). by exists id', id, dd.
  - apply elem_of_app in Hr' as [Hr'| ->%list_elem_of_singleton]; [|destruct Hp; apply elem_of_resultPaths; right; eauto].
    destruct (holds_file _ _ _ Hh r' f Hr' Hf) as (fid & did & dd & Hfl & Hdl & Hnil).
    destruct (ids_kept_lookup _ _ _ _ _ Hkept Hdl) as [dd' Hdl']. exists fid, did, dd'. by rewrite Hw.
Qed.

Lemma ids_kept_trans M M1 M2 : ids_kept M M1 -> ids_kept M1 M2 -> ids_kept M M2.
Proof.
  intros Hk1 Hk2 p. destruct (Hk2 p) as [->|(id & d & He & Hk)]; [apply Hk1|]. right. exists id, d. split; [done|]. by eapply keepsID_back.
Qed.

(** Storing the results of a scan, without an error, leaves all of them stored
    and nothing else touched. *)
Lemma upsertAll_holds root results c c' : scan_results results -> upsertAll root results c = (c', None) ->
  holds root results (docs c') /\ ids_kept (docs c) (docs c') /\
  (forall p, (forall r, r ∈ results -> p ∉ resultPaths r) -> docs c' !! p = docs c !! p).
Proof.
  revert c'. induction results as [|r before IH] using rev_ind; intros c' Hs.
  { intros [= <-]. split; [constructor; by intros ? ? ?%elem_of_nil|]. split; [by left|done]. }
  rewrite upsertAll_snoc. destruct (upsertAll root before c) as [c1 [err|]] eqn:Hb; [done|]. intros Hu.
  destruct (IH c1 (scan_results_init _ _ Hs) eq_refl) as (Hh & Hk & Hout).
  assert (r ∈ before ++ [r]) as Hrin by (rewrite elem_of_app; right; by left).
  destruct (UpsertScanResult_leaves root r c1 c' None (sr_placed _ Hs r Hrin) Hu) as (id & Hp & Hok).
  destruct (Hok eq_refl) as [Hrep Hl]. split_and!.
  - by eapply holds_snoc; [done|apply ids_never_nil|done|done|].
  - eapply ids_kept_trans; [done|]. by eapply partly_ids_kept.
  - intros p Hno. rewrite <- Hout; [|intros x Hx; apply Hno; rewrite elem_of_app; by left].
    apply (replaced_out _ _ _ _ Hrep). rewrite writes_paths. by apply Hno.
Qed.

(** * The sweep *)

Lemma stale_document root startedAt (doc : document) t :
  doc !! "scan_root_path" = Some (Text root) -> doc !! "scanned_at" = Some (Text (FormatStoredTime t)) ->
  four_digit_year t -> four_digit_year startedAt -> stale root (FormatStoredTime startedAt) doc = (t <? startedAt)%Z.
Proof. intros Hr Hs Ht Hst. unfold stale. rewrite Hr, Hs, String.eqb_refl. by apply stored_ltb. Qed.

Lemma stale_elsewhere root cutoff (doc : document) : doc !! "scan_root_path" <> Some (Text root) -> stale root cutoff doc = false.
Proof.
  intros Hr. unfold stale. destruct (doc !! "scan_root_path") as [[]|]; try done. destruct (doc !! "scanned_at") as [[]|]; try done.
  by destruct (String.eqb_spec s root) as [->|].
Qed.

(** A record scanned after a moment. *)
Definition scanned_since (startedAt t : Z) : Prop := four_digit_year t /\ (startedAt <= t)%Z.

Definition fresh_results (startedAt : Z) (results : list (ScanResult D F)) : Prop :=
  forall r, r ∈ results ->
    (forall d, srDirectory r = Some d -> scanned_since startedAt (dirScannedAt (dirOther d))) /\
    (forall f, f ∈ srMediaFiles r -> scanned_since startedAt (fileScannedAt (fileOther f))).

Lemma directory_not_stale root startedAt d : root <> "" -> four_digit_year startedAt ->
  dirPath d <> "" -> dirRecordType (dirOther d) = RecordTypeTVSeries -> scanned_since startedAt (dirScannedAt (dirOther d)) ->
  stale root (FormatStoredTime startedAt) (directoryDocument root d) = false.
Proof.
  intros Hroot Hst Hp Hty [Hy Hle]. destruct (directoryDocument_fields root d Hp Hty) as (_ & _ & Hr). rewrite textField_set in Hr by done.
  destruct (directory_scanned (inRoot root d)) as (k & Hk & Hk9 & Hm).
  rewrite (stale_document root startedAt _ (dirScannedAt (dirOther d))); [lia|done| |done|done]. by eapply scannedAt_documentOf.
Qed.

Lemma file_not_stale root startedAt id f : root <> "" -> four_digit_year startedAt ->
  filePath f <> "" -> scanned_since startedAt (fileScannedAt (fileOther f)) ->
  stale root (FormatStoredTime startedAt) (fileDocument root id f) = false.
Proof.
  intros Hroot Hst Hp [Hy Hle]. destruct (fileDocument_fields root id f Hp) as (_ & Hr). rewrite textField_set in Hr by done.
  destruct (file_scanned (linked root id f)) as (k & Hk & Hk9 & Hm).
  rewrite (stale_document root startedAt _ (fileScannedAt (fileOther f))); [lia|done| |done|done]. by eapply scannedAt_documentOf.
Qed.

Lemma lookup_survivors p (M : gmap string (ObjectID * document)) path id doc :
  survivors p M !! path = Some (id, doc) <-> M !! path = Some (id, doc) /\ p doc = false.
Proof. unfold survivors. by rewrite map_lookup_filter_Some. Qed.

Lemma holds_survives root startedAt results M : root <> "" -> four_digit_year startedAt -> scan_results results -> fresh_results startedAt results ->
  holds root results M -> holds root results (survivors (stale root (FormatStoredTime startedAt)) M).
Proof.
  intros Hroot Hst Hs Hfresh Hh.
  assert (forall r d, r ∈ results -> srDirectory r = Some d -> stale root (FormatStoredTime startedAt) (directoryDocument root d) = false) as Hdir.
  { intros r d Hr Hd. destruct (placed_directory r (sr_placed _ Hs r Hr) d Hd). apply directory_not_stale; [done..|]. by apply (Hfresh r Hr). }
  constructor.
  - intros r d Hr Hd. destruct (holds_directory _ _ _ Hh r d Hr Hd) as [id Hid]. exists id. apply lookup_survivors. eauto.
  - intros r f Hr Hf. destruct (holds_file _ _ _ Hh r f Hr Hf) as (id & did & dd & Hl & Hdl & Hne). exists id, did, dd.
    rewrite !lookup_survivors. split_and!; [done| |done| |done].
    + apply file_not_stale; [done..|by apply (placed_file r (sr_placed _ Hs r Hr))|by apply (Hfresh r Hr)].
    + pose proof Hr as (before & after & He)%list_elem_of_split. destruct (sr_before _ Hs before r after f He Hf) as (r' & d & Hr' & Hd & Hp).
      assert (r' ∈ results) as Hin by (rewrite He, cons_middle, app_assoc, elem_of_app; by left).
      destruct (holds_directory _ _ _ Hh r' d Hin Hd) as [id' Hid']. rewrite Hp, Hdl in Hid'. injection Hid' as -> ->. by apply (Hdir r').
Qed.

(** The records a root had before a scan are all older than the scan. *)
Definition all_older root startedAt (M : gmap string (ObjectID * document)) : Prop :=
  forall p id doc, M !! p = Some (id, doc) -> doc !! "scan_root_path" = Some (Text root) ->
    exists t, doc !! "scanned_at" = Some (Text (FormatStoredTime t)) /\ four_digit_year t /\ (t < startedAt)%Z.

Lemma replaces_library root results startedAt c c' :
  root <> "" -> four_digit_year startedAt -> scan_results results -> fresh_results startedAt results -> all_older root startedAt (docs c) ->
  ReplaceScanResults root results startedAt c = (c', None) ->
  holds root results (docs c') /\
  forall p id doc, (forall r, r ∈ results -> p ∉ resultPaths r) ->
    docs c' !! p = Some (id, doc) <-> docs c !! p = Some (id, doc) /\ doc !! "scan_root_path" <> Some (Text root).
Proof.
  intros Hroot Hst Hs Hfresh Hold. unfold ReplaceScanResults, DeleteStaleRecords.
  destruct (upsertAll root results c) as [c1 [err|]] eqn:Hu; [done|]. destruct (upsertAll_holds root results c c1 Hs Hu) as (Hh & _ & Hout).
  destruct (DeleteMany _ c1) as [c2 [err|]] eqn:Hd; [done|]. intros [= <-]. apply DeleteMany_Ok in Hd. rewrite Hd.
  split; [by apply holds_survives|]. intros p id doc Hp. rewrite lookup_survivors, (Hout p Hp). split; intros [Hl Hr]; (split; [done|]).
  - intros He. destruct (Hold p id doc Hl He) as (t & Ht & Hy & Hlt). rewrite (stale_document root startedAt doc t) in Hr by done. lia.
  - by apply stale_elsewhere.
Qed.

(** After a scan is stored and swept without an error, the library's root
    holds exactly what the scan found: every record of its results, whole and
    linked, and of what was there before, only the documents of other roots. *)
Theorem ReplaceScanResults_spec root results startedAt c c' :
  root <> "" -> four_digit_year startedAt -> scan_results results -> fresh_results startedAt results -> all_older root startedAt (docs c) ->
  ReplaceScanResults root results startedAt c = (c', None) ->
  holds root results (docs c') /\
  forall p id doc, (forall r, r ∈ results -> p ∉ resultPaths r) ->
    docs c' !! p = Some (id, doc) <-> docs c !! p = Some (id, doc) /\ doc !! "scan_root_path" <> Some (Text root).
Proof. apply replaces_library. Qed.
End upsert.
