(* ===== verification/ScanSend.v ===== *)
(** The agent's side of a scan: src/internal/agent/runtime/scanner.go, with the
    messages of src/internal/shared/agentproto/agentproto.go and the projection
    it reads (src/proto/metarr/bus/v1/agent_contract.proto). What is sent for one
    item is a function; the goroutines of scanAndStream are the steps of
    [scanning], whose interleavings are all there are. encoding/json is the class
    [ScanWire]; the scan of one directory is a variable, [scanItem]. *)
From stdpp Require Import strings list gmap fin_maps.
From Stdlib Require Import Ascii ZArith Lia.
From coqutil Require Import Datatypes.RecordSetters.
Import DoubleBraceUpdate.
From S2P Require Import Prelude Runes Sidecar ScanModel GoPath Paths Topics.
#[local] Open Scope go_scope.

(** * Messages *)

Record MappedDirectory : Type := { mdScannerSlug : string; mdScanType : string; mdAgentPath : string }.

Record AgentConfigProjection : Type := {
  apSlug : string;
  apDisplayName : string;
  apParallelCount : Z;
  apSidecarTypes : list Sidecar.Entry;
  apDirectories : list MappedDirectory;
  apLogLevel : string;
  apUpdatedAt : option Z;
}.

Definition FindDirectory (projection : AgentConfigProjection) (scannerSlug : string) : option MappedDirectory :=
  List.find (fun directory => String.eqb (mdScannerSlug directory) scannerSlug) (apDirectories projection).

Record ScanCommand : Type := { cmdScanID : string; cmdScannerSlug : string }.

Section messages.
Context {D F : Type}.

Record ScanResultMessage : Type := {
  rmScanID : string;
  rmAgentSlug : string;
  rmScannerSlug : string;
  rmScanRootPath : string;
  rmResult : option (Paths.ScanResult D F);
  rmPartIndex : nat;
  rmPartCount : nat;
  rmScannedAt : Z;
}.

Record ScanCompleteMessage : Type := {
  cmScanID : string;
  cmAgentSlug : string;
  cmScannerSlug : string;
  cmScanRootPath : string;
  cmItemCount : nat;
  cmStartedAt : Z;
  cmFinishedAt : Z;
}.

Record ScanFailedMessage : Type := { fmScanID : string; fmAgentSlug : string; fmScannerSlug : string; fmError : string }.

(** json.Marshal and json.Unmarshal of the messages. *)
Class ScanWire : Type := {
  encodeResult : ScanResultMessage -> result string;
  decodeResult : string -> result ScanResultMessage;
  encodeComplete : ScanCompleteMessage -> result string;
  decodeComplete : string -> result ScanCompleteMessage;
  encodeFailed : ScanFailedMessage -> result string;
  decodeFailed : string -> result ScanFailedMessage;
}.

(** What JSON can carry: strings of valid UTF-8 only, encoding/json puts U+FFFD
    for every byte that is none. The parts of the records that only travel are
    of types of their own, and [carriedDirectory] and [carriedFile] say this of
    their strings. *)
Class ScanTexts : Type := { carriedDirectory : D -> Prop; carriedFile : F -> Prop }.

Definition texts (l : list string) : Prop := Forall (fun s => ValidString s = true) l.

Section texts.
Context `{ScanTexts}.

Definition directory_text (d : Directory D) : Prop := texts [dirPath d; dirScanRootPath d] /\ carriedDirectory (dirOther d).
Definition file_text (f : MediaFile F) : Prop := texts [filePath f; fileDirectoryPath f; fileScanRootPath f] /\ carriedFile (fileOther f).

Definition scan_text (r : Paths.ScanResult D F) : Prop :=
  (forall d, srDirectory r = Some d -> directory_text d) /\ (forall f, f ∈ srMediaFiles r -> file_text f).

Definition result_text (m : ScanResultMessage) : Prop :=
  texts [rmScanID m; rmAgentSlug m; rmScannerSlug m; rmScanRootPath m] /\ forall r, rmResult m = Some r -> scan_text r.
Definition complete_text (m : ScanCompleteMessage) : Prop := texts [cmScanID m; cmAgentSlug m; cmScannerSlug m; cmScanRootPath m].
Definition failed_text (m : ScanFailedMessage) : Prop := texts [fmScanID m; fmAgentSlug m; fmScannerSlug m; fmError m].
End texts.

(** What is documented of messages that could be encoded: those of valid texts
    are read back as they were. *)
Class ScanWireLaws `{ScanWire, ScanTexts} : Prop := {
  decode_result m s : result_text m -> encodeResult m = Ok s -> decodeResult s = Ok m;
  decode_complete m s : complete_text m -> encodeComplete m = Ok s -> decodeComplete s = Ok m;
  decode_failed m s : failed_text m -> encodeFailed m = Ok s -> decodeFailed s = Ok m;
}.
End messages.
Arguments ScanResultMessage : clear implicits.
Arguments ScanWire : clear implicits.
Arguments ScanTexts : clear implicits.
Arguments ScanWireLaws _ _ {_ _}.

(** json.Marshal and json.Unmarshal of a command. *)
Class CommandWire : Type := { encodeCommand : ScanCommand -> result string; decodeCommand : string -> result ScanCommand }.

Class CommandWireLaw `{CommandWire} : Prop :=
  decode_command : forall command s, Forall (fun s => ValidString s = true) [cmdScanID command; cmdScannerSlug command] ->
    encodeCommand command = Ok s -> decodeCommand s = Ok command.

(** * The request *)

Definition maxResultBytes : nat := Z.to_nat (256 * 1024).

Definition parallelCountFrom (projection : AgentConfigProjection) : nat :=
  if (apParallelCount projection <? 1)%Z then 1 else Z.to_nat (apParallelCount projection).

Record scanStreamRequest : Type := {
  sqCommand : ScanCommand;
  sqScanRootPath : string;
  sqDirectoryType : DirectoryType;
  sqItemPaths : list string;
  sqParallelCount : nat;
  sqStartedAt : Z;
}.

(** [readItemDirectories], of what os.ReadDir answers: names, and whether each is
    a directory. *)
Definition readItemDirectories (scanRootPath : string) (entries : result (list (string * bool))) : result (list string) :=
  try entries := entries in Ok (map (fun entry => JoinPath scanRootPath entry.1) (List.filter snd entries)).

(** [scan] up to the walk: [Abs] and [ReadDir] are the host's answers and
    [startedAt] the clock's. *)
Definition prepare (Abs : string -> result string) (ReadDir : string -> result (list (string * bool))) (startedAt : Z)
  (current : option AgentConfigProjection) (command : ScanCommand) : result scanStreamRequest :=
  match current with
  | None => Err "this agent has no configuration yet"
  | Some projection =>
      match FindDirectory projection (cmdScannerSlug command) with
      | None => Err (quote (cmdScannerSlug command) +:+ " is not mapped to this agent")
      | Some mapped =>
          try directoryType := ParseDirectoryType (mdScanType mapped) in
          try scanRootPath := Abs (mdAgentPath mapped) in
          match readItemDirectories scanRootPath (ReadDir scanRootPath) with
          | Err err => Err ("reading " +:+ scanRootPath +:+ ": " +:+ err)
          | Ok itemDirectories =>
              Ok {| sqCommand := command; sqScanRootPath := scanRootPath; sqDirectoryType := directoryType;
                    sqItemPaths := itemDirectories; sqParallelCount := parallelCountFrom projection; sqStartedAt := startedAt |}
          end
      end
  end.

(** [Scanner.handle] up to the walk: an event that cannot be decoded is left for
    a retry, and of one that can, what becomes of its command. *)
Definition handleCommand `{CommandWire} (Abs : string -> result string) (ReadDir : string -> result (list (string * bool))) (startedAt : Z)
  (current : option AgentConfigProjection) (payload : string) : result (ScanCommand * result scanStreamRequest) :=
  match decodeCommand payload with
  | Err err => Err ("decode scan command: " +:+ err)
  | Ok command => Ok (command, prepare Abs ReadDir startedAt current command)
  end.

(** * What is sent for one item *)

Section send.
Context {D F : Type} `{ScanWire D F} (slug : string) (request : scanStreamRequest).
Implicit Types result : Paths.ScanResult D F.

Definition base result : ScanResultMessage D F := {|
  rmScanID := cmdScanID (sqCommand request); rmAgentSlug := slug; rmScannerSlug := cmdScannerSlug (sqCommand request);
  rmScanRootPath := sqScanRootPath request; rmResult := Some result; rmPartIndex := 0; rmPartCount := 1;
  rmScannedAt := sqStartedAt request |}.

Definition chunkSize (encodedSize files : nat) : nat := Nat.max 1 (maxResultBytes / Nat.max (encodedSize / files) 1).
Definition partCount (chunk files : nat) : nat := (files + chunk - 1) / chunk.

(** The message of one part: the directory travels with the first. *)
Definition partMessage result (chunk parts part : nat) : ScanResultMessage D F :=
  let files := srMediaFiles result in
  let start := part * chunk in
  let sent := take (Nat.min (start + chunk) (length files) - start) (drop start files) in
  (base result) {{ rmPartIndex := part; rmPartCount := parts;
    rmResult := Some {| srDirectory := if (part =? 0)%nat then srDirectory result else None; srMediaFiles := sent |} }}.

Definition partMessages result (encodedSize : nat) : list (ScanResultMessage D F) :=
  let files := srMediaFiles result in
  if (length files <=? 1)%nat then [base result]
  else
    let chunk := chunkSize encodedSize (length files) in
    let parts := partCount chunk (length files) in
    map (partMessage result chunk parts) (seq 0 parts).

(** The messages [sendResult] encodes and publishes one after the other. *)
Definition outgoing result : list (ScanResultMessage D F) :=
  match encodeResult (base result) with
  | Ok encoded => if (String.length encoded <=? maxResultBytes)%nat then [base result] else partMessages result (String.length encoded)
  | Err _ => [base result]
  end.

(** * The scan as it runs *)

(** Where the goroutine of one item has got to. *)
Inductive thread : Type :=
| Waiting
| Scanning
| Sending (rest : list (ScanResultMessage D F))
| Sent
| Abandoned.

(** An event on the stream: a result, of the item it is for, or a report. *)
Inductive entry : Type :=
| ResultEntry (item : string) (message : ScanResultMessage D F) (payload : string)
| CompleteEntry (message : ScanCompleteMessage) (payload : string)
| FailedEntry (message : ScanFailedMessage) (payload : string).

Inductive stage : Type :=
| Streaming
| Completing (finishedAt : Z)
| Failing (err : string)
| Finished.

Record scanRun : Type := {
  ruStage : stage;
  ruPending : list string;
  ruThreads : gmap string thread;
  ruLog : list entry;
}.

Definition setThread (item : string) (t : thread) (s : scanRun) : scanRun := s {{ ruThreads ::= fun m => <[item := t]> m }}.
Definition publish (e : entry) (s : scanRun) : scanRun := s {{ ruLog ::= fun l => l ++ [e] }}.

(** Whether a goroutine is past the semaphore. *)
Definition holding (t : thread) : bool := match t with Scanning | Sending _ => true | _ => false end.
Definition ended (t : thread) : bool := match t with Sent | Abandoned => true | _ => false end.
Definition wasSent (t : thread) : bool := match t with Sent => true | _ => false end.

Definition countThreads (p : thread -> bool) (s : scanRun) : nat := size (filter (fun e => p e.2 = true) (ruThreads s)).

Definition completeMessage (sent : nat) (finishedAt : Z) : ScanCompleteMessage := {|
  cmScanID := cmdScanID (sqCommand request); cmAgentSlug := slug; cmScannerSlug := cmdScannerSlug (sqCommand request);
  cmScanRootPath := sqScanRootPath request; cmItemCount := sent; cmStartedAt := sqStartedAt request; cmFinishedAt := finishedAt |}.

Definition failedMessage (command : ScanCommand) (err : string) : ScanFailedMessage :=
  {| fmScanID := cmdScanID command; fmAgentSlug := slug; fmScannerSlug := cmdScannerSlug command; fmError := err |}.

(** The answer of mediascan.Scan for an item directory. *)
Variable scanItem : string -> result (Paths.ScanResult D F).

(** One step of [scan] once the request is prepared. A publish that reports an
    error may have reached the stream all the same. *)
Inductive scanning : scanRun -> scanRun -> Prop :=
| spawned item rest s :
    ruStage s = Streaming -> ruPending s = item :: rest ->
    scanning s (setThread item Waiting (s {{ ruPending := rest }}))
| cancelled s : ruStage s = Streaming -> ruPending s <> [] -> scanning s (s {{ ruPending := [] }})
| acquired item s :
    ruThreads s !! item = Some Waiting -> (countThreads holding s < sqParallelCount request)%nat -> scanning s (setThread item Scanning s)
| unscannable item err s :
    ruThreads s !! item = Some Scanning -> scanItem item = Err err -> scanning s (setThread item Abandoned s)
| scanned item result s :
    ruThreads s !! item = Some Scanning -> scanItem item = Ok result -> scanning s (setThread item (Sending (outgoing result)) s)
| unencodable item m rest err s :
    ruThreads s !! item = Some (Sending (m :: rest)) -> encodeResult m = Err err -> scanning s (setThread item Abandoned s)
| published item m rest payload s :
    ruThreads s !! item = Some (Sending (m :: rest)) -> encodeResult m = Ok payload ->
    scanning s (publish (ResultEntry item m payload) (setThread item (Sending rest) s))
| unpublished item m rest payload (reached : bool) s :
    ruThreads s !! item = Some (Sending (m :: rest)) -> encodeResult m = Ok payload ->
    scanning s (let s' := setThread item Abandoned s in if reached then publish (ResultEntry item m payload) s' else s')
| item_sent item s : ruThreads s !! item = Some (Sending []) -> scanning s (setThread item Sent s)
| streamed finishedAt s :
    ruStage s = Streaming -> ruPending s = [] -> (forall item t, ruThreads s !! item = Some t -> ended t = true) ->
    scanning s (s {{ ruStage := Completing finishedAt }})
| completed finishedAt payload s :
    ruStage s = Completing finishedAt -> encodeComplete (completeMessage (countThreads wasSent s) finishedAt) = Ok payload ->
    scanning s (publish (CompleteEntry (completeMessage (countThreads wasSent s) finishedAt) payload) (s {{ ruStage := Finished }}))
| uncompleted finishedAt err s : ruStage s = Completing finishedAt -> scanning s (s {{ ruStage := Failing err }})
| completed_unknown finishedAt payload err s :
    ruStage s = Completing finishedAt -> encodeComplete (completeMessage (countThreads wasSent s) finishedAt) = Ok payload ->
    scanning s (publish (CompleteEntry (completeMessage (countThreads wasSent s) finishedAt) payload) (s {{ ruStage := Failing err }}))
| failure_reported err payload s :
    ruStage s = Failing err -> encodeFailed (failedMessage (sqCommand request) err) = Ok payload ->
    scanning s (publish (FailedEntry (failedMessage (sqCommand request) err) payload) (s {{ ruStage := Finished }}))
(** [failure_reported] whatever the publish answers: its error is only logged. *)
| failure_unreported err s : ruStage s = Failing err -> scanning s (s {{ ruStage := Finished }}).

Definition started : scanRun := {| ruStage := Streaming; ruPending := sqItemPaths request; ruThreads := ∅; ruLog := [] |}.

(** * The parts of an item *)

Lemma chunks_concat {A} (files : list A) (chunk k m : nat) : (0 < chunk)%nat -> (length files <= (k + m) * chunk)%nat ->
  concat (map (fun part => take (Nat.min (part * chunk + chunk) (length files) - part * chunk) (drop (part * chunk) files)) (seq k m)) =
  drop (k * chunk) files.
Proof.
  intros Hc. revert k. induction m as [|m IH]; intros k Hl; cbn [seq map concat].
  - rewrite drop_ge; [done|lia].
  - rewrite IH by lia. replace (S k * chunk)%nat with (k * chunk + chunk)%nat by lia. rewrite <- drop_drop.
    destruct (decide (k * chunk + chunk <= length files)%nat) as [Hle|Hgt].
    + replace (Nat.min (k * chunk + chunk) (length files) - k * chunk)%nat with chunk by lia. apply take_drop.
    + rewrite (take_ge (drop (k * chunk) files)), (drop_ge (drop (k * chunk) files)) by (rewrite length_drop; lia). apply app_nil_r.
Qed.

Lemma partCount_covers chunk files : (0 < chunk)%nat -> (files <= partCount chunk files * chunk)%nat /\
  forall part, (part < partCount chunk files)%nat -> (part * chunk < files)%nat.
Proof.
  intros Hc. unfold partCount. pose proof (Nat.div_mod_eq (files + chunk - 1) chunk). pose proof (Nat.mod_upper_bound (files + chunk - 1) chunk).
  split; [nia|]. intros part Hp. nia.
Qed.

(** The record a message carries of an item. *)
Definition sentDirectory (m : ScanResultMessage D F) : option (Directory D) := rmResult m ≫= srDirectory.
Definition sentFiles (m : ScanResultMessage D F) : list (MediaFile F) := match rmResult m with Some r => srMediaFiles r | None => [] end.

(** Messages that carry an item between them: the directory in the first, the
    files in order over all of them, none of the later ones empty. *)
Record carries (ms : list (ScanResultMessage D F)) result : Prop := {
  carries_first m : ms !! 0%nat = Some m -> sentDirectory m = srDirectory result;
  carries_later i m : ms !! S i = Some m -> sentDirectory m = None /\ sentFiles m <> [];
  carries_files : concat (map sentFiles ms) = srMediaFiles result;
  carries_numbered i m : ms !! i = Some m -> rmPartIndex m = i /\ rmPartCount m = length ms /\
    m = (base result) {{ rmResult := rmResult m; rmPartIndex := i; rmPartCount := length ms }} /\ is_Some (rmResult m);
}.

Lemma carries_whole result : carries [base result] result.
Proof.
  constructor.
  - by intros m [= <-].
  - by intros [|i] m.
  - cbn. by rewrite app_nil_r.
  - intros [|[|i]] m; try done. intros [= <-]. split_and!; try done; by eexists.
Qed.

Lemma carries_parts result chunk : (0 < chunk)%nat -> srMediaFiles result <> [] ->
  let parts := partCount chunk (length (srMediaFiles result)) in
  carries (map (partMessage result chunk parts) (seq 0 parts)) result.
Proof.
  intros Hc Hne parts. destruct (partCount_covers chunk (length (srMediaFiles result)) Hc) as [Hcover Hstart]. fold parts in Hcover, Hstart.
  assert (forall i m, map (partMessage result chunk parts) (seq 0 parts) !! i = Some m -> m = partMessage result chunk parts i /\ (i < parts)%nat) as Hat.
  { intros i m. rewrite list_lookup_fmap. intros (j & Hj & ->)%fmap_Some. apply lookup_seq in Hj as [-> Hi]. done. }
  constructor.
  - intros m [-> _]%Hat. done.
  - intros i m [-> Hi]%Hat. split; [done|]. unfold sentFiles, partMessage. cbn [rmResult srMediaFiles]. intros Hempty%(f_equal length).
    specialize (Hstart (S i) Hi). change (length (take (Nat.min (S i * chunk + chunk) (length (srMediaFiles result)) - S i * chunk)
      (drop (S i * chunk) (srMediaFiles result))) = 0%nat) in Hempty. rewrite length_take, length_drop in Hempty. lia.
  - rewrite map_map. transitivity (drop (0 * chunk) (srMediaFiles result)); [|done].
    exact (chunks_concat (srMediaFiles result) chunk 0 parts Hc ltac:(lia)).
  - intros i m Hm. destruct (Hat i m Hm) as [-> _]. rewrite length_map, length_seq. by split_and!.
Qed.

Lemma outgoing_carries result : carries (outgoing result) result.
Proof.
  unfold outgoing. destruct (encodeResult (base result)) as [encoded|]; [|apply carries_whole].
  destruct (_ <=? _)%nat; [apply carries_whole|]. unfold partMessages. destruct (_ <=? 1)%nat eqn:Hl; [apply carries_whole|].
  apply carries_parts; [unfold chunkSize; lia|]. intros He. by rewrite He in Hl.
Qed.

Lemma outgoing_nonempty result : outgoing result <> [].
Proof.
  unfold outgoing. destruct (encodeResult (base result)) as [encoded|]; [|done].
  destruct (_ <=? maxResultBytes)%nat; [done|]. unfold partMessages. destruct (length (srMediaFiles result) <=? 1)%nat eqn:Hl; [done|].
  apply Nat.leb_gt in Hl. set (chunk := chunkSize _ _). assert (0 < chunk)%nat as Hc by (unfold chunk, chunkSize; lia).
  destruct (partCount_covers chunk (length (srMediaFiles result)) Hc) as [Hcover _].
  destruct (partCount chunk (length (srMediaFiles result))); [lia|done].
Qed.

(** However large an item is, the messages sent for it carry all of it: its
    directory in the first and only there, its files in order and each once over
    the parts, the parts numbered from zero up to their count, and every later
    part with a file in it, which is what the server finds the directory's record
    by. *)
Theorem outgoing_spec result : carries (outgoing result) result.
Proof. apply outgoing_carries. Qed.

(** * The run *)

(** The messages of an item on the stream. *)
Definition itemLog (item : string) (log : list entry) : list (ScanResultMessage D F) :=
  omap (fun e => match e with ResultEntry i m _ => if decide (i = item) then Some m else None | _ => None end) log.

(** A goroutine and what its item has on the stream. *)
Definition tracked (item : string) (t : option thread) (sent : list (ScanResultMessage D F)) : Prop :=
  match t with
  | None | Some Waiting | Some Scanning => sent = []
  | Some (Sending rest) => exists r, scanItem item = Ok r /\ sent ++ rest = outgoing r
  | Some Sent => exists r, scanItem item = Ok r /\ sent = outgoing r
  | Some Abandoned => match scanItem item with Ok r => sent `prefix_of` outgoing r | Err _ => sent = [] end
  end.

Definition result_entry (e : entry) : Prop :=
  match e with ResultEntry _ m payload => encodeResult m = Ok payload | _ => False end.

(** How the results end: with nothing yet, or a completion that counts what was sent. *)
Definition completes (s : scanRun) (last : list entry) : Prop :=
  last = [] \/
  exists finishedAt payload, let m := completeMessage (countThreads wasSent s) finishedAt in
    encodeComplete m = Ok payload /\ last = [CompleteEntry m payload].

(** What may follow: the report of a failure. *)
Definition fails (last : list entry) : Prop :=
  last = [] \/ exists err payload, let m := failedMessage (sqCommand request) err in encodeFailed m = Ok payload /\ last = [FailedEntry m payload].

Definition still_completing (st : stage) : Prop := match st with Streaming | Completing _ => True | _ => False end.

Record run_ok (s : scanRun) : Prop := {
  run_items item : item ∈ ruPending s \/ is_Some (ruThreads s !! item) -> item ∈ sqItemPaths request;
  run_pending : NoDup (ruPending s) /\ forall item, item ∈ ruPending s -> ruThreads s !! item = None;
  run_bounded : (countThreads holding s <= sqParallelCount request)%nat;
  run_tracked item : tracked item (ruThreads s !! item) (itemLog item (ruLog s));
  run_over : ruStage s <> Streaming -> ruPending s = [] /\ forall item t, ruThreads s !! item = Some t -> ended t = true;
  run_log : exists results completion failure, ruLog s = results ++ completion ++ failure /\ Forall result_entry results /\
    (still_completing (ruStage s) -> completion = []) /\ (ruStage s <> Finished -> failure = []) /\ completes s completion /\ fails failure;
}.

Lemma itemLog_app item l l' : itemLog item (l ++ l') = itemLog item l ++ itemLog item l'.
Proof. unfold itemLog. by rewrite omap_app. Qed.

Lemma setThread_fields item t (s : scanRun) :
  ruThreads (setThread item t s) = <[item := t]> (ruThreads s) /\ ruStage (setThread item t s) = ruStage s /\
  ruPending (setThread item t s) = ruPending s /\ ruLog (setThread item t s) = ruLog s.
Proof. by destruct s. Qed.

Lemma publish_fields e (s : scanRun) :
  ruThreads (publish e s) = ruThreads s /\ ruStage (publish e s) = ruStage s /\
  ruPending (publish e s) = ruPending s /\ ruLog (publish e s) = ruLog s ++ [e].
Proof. by destruct s. Qed.

Lemma count_at (p : thread -> bool) item (s : scanRun) :
  countThreads p s = (size (filter (fun e : string * thread => p e.2 = true) (delete item (ruThreads s))) +
    if (match ruThreads s !! item with Some t => p t | None => false end) then 1 else 0)%nat.
Proof.
  unfold countThreads. destruct (ruThreads s !! item) as [t|] eqn:Ht; [|rewrite delete_id by done; lia].
  rewrite <- (insert_delete_id (ruThreads s) item t Ht) at 1. destruct (p t) eqn:Hp.
  - rewrite map_filter_insert_True by done. rewrite map_size_insert_None; [lia|]. rewrite map_lookup_filter, lookup_delete_eq. done.
  - rewrite map_filter_insert_False by (cbn; congruence). rewrite delete_delete_eq. lia.
Qed.

Lemma count_setThread (p : thread -> bool) item t (s : scanRun) :
  countThreads p (setThread item t s) =
  (countThreads p s - (if (match ruThreads s !! item with Some t => p t | None => false end) then 1 else 0) + if p t then 1 else 0)%nat.
Proof.
  rewrite (count_at p item (setThread item t s)), (count_at p item s). destruct (setThread_fields item t s) as (-> & _). rewrite lookup_insert_eq, delete_insert_eq. lia.
Qed.

Lemma itemLog_publish item i m payload (s : scanRun) :
  itemLog item (ruLog (publish (ResultEntry i m payload) s)) = itemLog item (ruLog s) ++ if decide (i = item) then [m] else [].
Proof. destruct (publish_fields (ResultEntry i m payload) s) as (_ & _ & _ & ->). rewrite itemLog_app. f_equal. unfold itemLog. cbn. by case_decide. Qed.

#[local] Arguments itemLog : simpl never.

(** A step of one goroutine: the invariant holds after it if it holds of that
    goroutine. *)
Lemma thread_step_ok item t t' e s :
  run_ok s -> ruStage s = Streaming -> ruThreads s !! item = Some t ->
  (holding t' = true -> holding t = true \/ (countThreads holding s < sqParallelCount request)%nat) ->
  Forall result_entry e -> (forall i, itemLog i e = if decide (i = item) then itemLog item e else []) ->
  tracked item (Some t') (itemLog item (ruLog s) ++ itemLog item e) ->
  run_ok (setThread item t' s {{ ruLog ::= fun l => l ++ e }}).
Proof.
  intros [Hit [Hnd Hpend] Hb Htr Hov Hlog] Hst Ht Hh He Hi Htrack.
  set (s' := setThread item t' s {{ ruLog ::= fun l => l ++ e }}).
  assert (ruThreads s' = <[item := t']> (ruThreads s) /\ ruStage s' = ruStage s /\ ruPending s' = ruPending s /\ ruLog s' = ruLog s ++ e) as (Et & Es & Ep & El)
    by (unfold s'; by destruct s).
  constructor; rewrite ?Et, ?Es, ?Ep, ?El.
  - intros i [Hi'|Hi']; apply Hit; [by left|]. destruct (decide (i = item)) as [->|Hne]; [rewrite Ht; eauto|]. rewrite lookup_insert_ne in Hi' by done. by right.
  - split; [done|]. intros i Hi'. destruct (decide (i = item)) as [->|Hne]; [|rewrite lookup_insert_ne by done; auto]. specialize (Hpend item Hi'). congruence.
  - assert (countThreads holding s' = countThreads holding (setThread item t' s)) as -> by (unfold s', countThreads; by destruct s).
    rewrite count_setThread, Ht. destruct (holding t') eqn:Ht'; [|lia]. destruct (Hh eq_refl) as [->|]; [|destruct (holding t); lia].
    pose proof (count_at holding item s) as Hc. rewrite Ht in Hc. destruct (holding t) eqn:Hht; [lia|]. lia.
  - intros i. rewrite itemLog_app, Hi. destruct (decide (i = item)) as [->|Hne]; [by rewrite lookup_insert_eq|]. rewrite lookup_insert_ne, app_nil_r by done. apply Htr.
  - rewrite Hst. done.
  - destruct Hlog as (results & completion & failure & Hl & Hr & Hno & Hno' & _). exists (results ++ e), [], [].
    rewrite Hl, (Hno ltac:(by rewrite Hst)), (Hno' ltac:(by rewrite Hst)), !app_nil_r.
    split_and!; [done|by apply Forall_app|done|done|by left|by left].
Qed.

Lemma silent_step_ok item t t' s :
  run_ok s -> ruThreads s !! item = Some t -> ended t = false ->
  (holding t' = true -> holding t = true \/ (countThreads holding s < sqParallelCount request)%nat) ->
  tracked item (Some t') (itemLog item (ruLog s)) -> run_ok (setThread item t' s).
Proof.
  intros Hok Ht Hend Hh Htr.
  assert (setThread item t' s = setThread item t' s {{ ruLog ::= fun l => l ++ [] }}) as -> by (destruct s; unfold setThread; cbn; by rewrite app_nil_r).
  apply (thread_step_ok item t); [done| |done|done|done| |by rewrite app_nil_r].
  - destruct (ruStage s) eqn:Hs; [done|..]; destruct (run_over s Hok ltac:(by rewrite Hs)) as [_ Hall]; by rewrite (Hall _ _ Ht) in Hend.
  - intros i. by case_decide.
Qed.

Lemma publish_step_ok item t t' m payload s :
  run_ok s -> ruThreads s !! item = Some t -> ended t = false -> holding t = true -> encodeResult m = Ok payload ->
  tracked item (Some t') (itemLog item (ruLog s) ++ [m]) -> run_ok (publish (ResultEntry item m payload) (setThread item t' s)).
Proof.
  intros Hok Ht Hend Hh He Htr.
  assert (publish (ResultEntry item m payload) (setThread item t' s) = setThread item t' s {{ ruLog ::= fun l => l ++ [ResultEntry item m payload] }}) as -> by by destruct s.
  assert (forall i, itemLog i [ResultEntry item m payload] = if decide (item = i) then [m] else []) as Hlog by (intros i; unfold itemLog; cbn; by case_decide).
  apply (thread_step_ok item t); [done| |done|by left| | |by rewrite Hlog, decide_True].
  - destruct (ruStage s) eqn:Hs; [done|..]; destruct (run_over s Hok ltac:(by rewrite Hs)) as [_ Hall]; by rewrite (Hall _ _ Ht) in Hend.
  - by constructor.
  - intros i. rewrite !Hlog, (decide_True _ _ (eq_refl item)). repeat case_decide; congruence.
Qed.

(** A step of the scan itself, which leaves the goroutines alone. *)
Lemma stage_step_ok s st e :
  run_ok s -> ruStage s <> Finished -> (st <> Streaming -> ruPending s = [] /\ forall item t, ruThreads s !! item = Some t -> ended t = true) ->
  st <> Streaming -> (forall i, itemLog i e = []) ->
  (still_completing (ruStage s) -> (still_completing st -> e = []) /\
    exists completion failure, e = completion ++ failure /\ (st <> Finished -> failure = []) /\ completes s completion /\ fails failure) ->
  (~ still_completing (ruStage s) -> ~ still_completing st /\ (st <> Finished -> e = []) /\ fails e) ->
  run_ok (s {{ ruStage := st; ruLog ::= fun l => l ++ e }}).
Proof.
  intros [Hit [Hnd Hpend] Hb Htr Hov Hlog] Hfin Hover Hst Hi Hcompleting Hfailing. destruct s as [stage pending threads log]. cbn in *.
  constructor; cbn; try done.
  - intros i. rewrite itemLog_app, Hi, app_nil_r. apply Htr.
  - destruct Hlog as (results & completion & failure & -> & Hr & Hno & Hno' & Hcom & Hfail). rewrite (Hno' Hfin), app_nil_r.
    assert (still_completing stage \/ ~ still_completing stage) as [Hs|Hs] by (destruct stage; cbn; tauto).
    + destruct (Hcompleting Hs) as [He (c & f & -> & Hf & Hc' & Hf')]. rewrite (Hno Hs), app_nil_r. exists results, c, f.
      split_and!; [done|done| |done|done|done]. intros Hst'. by destruct (app_eq_nil _ _ (He Hst')).
    + destruct (Hfailing Hs) as (Hn & He & Hf). exists results, completion, e. split_and!; [by rewrite <- app_assoc|done|done|done|done|done].
Qed.

Lemma stage_only_ok s st : run_ok s -> ruStage s <> Finished ->
  (st <> Streaming -> ruPending s = [] /\ forall item t, ruThreads s !! item = Some t -> ended t = true) ->
  st <> Streaming -> (still_completing st -> still_completing (ruStage s)) -> run_ok (s {{ ruStage := st }}).
Proof.
  intros Hok Hf Hov Hst Hmono. assert (s {{ ruStage := st }} = s {{ ruStage := st; ruLog ::= fun l => l ++ [] }}) as -> by (destruct s; cbn; by rewrite app_nil_r).
  apply stage_step_ok; try done.
  - intros _. split; [done|]. exists [], []. by split_and!; [..|left|left].
  - intros Hn. split_and!; [|done|by left]. tauto.
Qed.

Lemma completed_step_ok s st finishedAt payload : run_ok s -> ruStage s = Completing finishedAt -> ~ still_completing st ->
  encodeComplete (completeMessage (countThreads wasSent s) finishedAt) = Ok payload ->
  run_ok (s {{ ruStage := st; ruLog ::= fun l => l ++ [CompleteEntry (completeMessage (countThreads wasSent s) finishedAt) payload] }}).
Proof.
  intros Hok Hst Hn He. apply stage_step_ok; [done|by rewrite Hst|intros _; apply (run_over s Hok); by rewrite Hst|by intros ->; apply Hn|done| |by rewrite Hst].
  intros _. split; [done|]. eexists _, []. rewrite app_nil_r. split; [done|]. split; [done|]. split; [|by left]. right. by exists finishedAt, payload.
Qed.

Lemma run_ok_step s s' : run_ok s -> scanning s s' -> run_ok s'.
Proof.
  intros Hok Hstep. pose proof (run_over s Hok) as Hov. destruct Hstep as
    [item rest s Hst Hp|s Hst Hp|item s Ht Hlt|item err s Ht Hscan|item result s Ht Hscan|item m rest err s Ht He|item m rest payload s Ht He
    |item m rest payload reached s Ht He|item s Ht|finishedAt s Hst Hp Hall|finishedAt payload s Hst He|finishedAt err s Hst
    |finishedAt payload err s Hst He|err payload s Hst He|err s Hst].
  - destruct Hok as [Hit [Hnd Hpend] Hb Htr _ Hlog]. rewrite Hp in Hnd, Hpend. apply NoDup_cons in Hnd as [Hnin Hnd].
    assert (ruThreads s !! item = None) as Hnone by (apply Hpend; by left). pose proof (count_setThread holding item Waiting s) as Hc. rewrite Hnone in Hc.
    destruct s as [stage pending threads log]. unfold setThread, countThreads in *. cbn in *. subst. constructor; cbn.
    + intros i [Hi|Hi]; apply Hit; [left; by right|]. destruct (decide (i = item)) as [->|Hne]; [left; by left|]. rewrite lookup_insert_ne in Hi by done. by right.
    + split; [done|]. intros i Hi. rewrite lookup_insert_ne by (intros ->; done). apply Hpend. by right.
    + unfold countThreads. cbn. lia.
    + intros i. specialize (Htr i). destruct (decide (i = item)) as [->|Hne]; [rewrite lookup_insert_eq; by rewrite Hnone in Htr|by rewrite lookup_insert_ne].
    + done.
    + destruct Hlog as (results & completion & failure & -> & Hr & Hno & Hno' & _). rewrite (Hno ltac:(done)), (Hno' ltac:(done)). exists results, [], [].
      by split_and!; [..|left|left].
  - destruct Hok as [Hit [Hnd Hpend] Hb Htr _ Hlog]. destruct s as [stage pending threads log]. unfold countThreads in *. cbn in *. subst. constructor; cbn; try done.
    + intros i [Hi%elem_of_nil|Hi]; [done|]. apply Hit. by right.
    + split; [constructor|by intros ? ?%elem_of_nil].
  - pose proof (run_tracked s Hok item) as Htr. rewrite Ht in Htr. by apply (silent_step_ok item Waiting); [..|right|].
  - pose proof (run_tracked s Hok item) as Htr. rewrite Ht in Htr. apply (silent_step_ok item Scanning); try done. cbn. by rewrite Hscan.
  - pose proof (run_tracked s Hok item) as Htr. rewrite Ht in Htr. apply (silent_step_ok item Scanning); [done..|by left|]. cbn in *. rewrite Htr. eauto.
  - pose proof (run_tracked s Hok item) as Htr. rewrite Ht in Htr. destruct Htr as (r & Hr & Hsent).
    apply (silent_step_ok item (Sending (m :: rest))); try done. cbn. rewrite Hr, <- Hsent. by apply prefix_app_r.
  - pose proof (run_tracked s Hok item) as Htr. rewrite Ht in Htr. destruct Htr as (r & Hr & Hsent).
    apply (publish_step_ok item (Sending (m :: rest))); try done. exists r. by rewrite <- app_assoc.
  - pose proof (run_tracked s Hok item) as Htr. rewrite Ht in Htr. destruct Htr as (r & Hr & Hsent). destruct reached.
    + apply (publish_step_ok item (Sending (m :: rest))); try done. cbn. rewrite Hr, <- Hsent. apply prefix_app, prefix_cons, prefix_nil.
    + apply (silent_step_ok item (Sending (m :: rest))); try done. cbn. rewrite Hr, <- Hsent. by apply prefix_app_r.
  - pose proof (run_tracked s Hok item) as Htr. rewrite Ht in Htr. destruct Htr as (r & Hr & Hsent). rewrite app_nil_r in Hsent.
    apply (silent_step_ok item (Sending [])); try done. cbn. eauto.
  - apply (stage_only_ok s (Completing finishedAt)); [done|by rewrite Hst|by intros _; split|done|by rewrite Hst].
  - assert (publish (CompleteEntry (completeMessage (countThreads wasSent s) finishedAt) payload) (s {{ ruStage := Finished }}) =
      s {{ ruStage := Finished; ruLog ::= fun l => l ++ [CompleteEntry (completeMessage (countThreads wasSent s) finishedAt) payload] }}) as -> by by destruct s.
    apply completed_step_ok; [done|done|by intros []|done].
  - apply (stage_only_ok s (Failing err)); [done|by rewrite Hst|intros _; apply Hov; by rewrite Hst|done|done].
  - assert (publish (CompleteEntry (completeMessage (countThreads wasSent s) finishedAt) payload) (s {{ ruStage := Failing err }}) =
      s {{ ruStage := Failing err; ruLog ::= fun l => l ++ [CompleteEntry (completeMessage (countThreads wasSent s) finishedAt) payload] }}) as -> by by destruct s.
    apply completed_step_ok; [done|done|by intros []|done].
  - assert (publish (FailedEntry (failedMessage (sqCommand request) err) payload) (s {{ ruStage := Finished }}) =
      s {{ ruStage := Finished; ruLog ::= fun l => l ++ [FailedEntry (failedMessage (sqCommand request) err) payload] }}) as -> by by destruct s.
    apply stage_step_ok; [done|by rewrite Hst|intros _; apply Hov; by rewrite Hst|done|done|by rewrite Hst|].
    intros _. split_and!; [by intros []|done|]. right. by exists err, payload.
  - apply (stage_only_ok s Finished); [done|by rewrite Hst|intros _; apply Hov; by rewrite Hst|done|done].
Qed.

Lemma started_ok : NoDup (sqItemPaths request) -> run_ok started.
Proof.
  intros Hnd. constructor; cbn.
  - intros item [Hi|[t Ht]]; [done|]. by rewrite lookup_empty in Ht.
  - split; [done|]. intros item _. apply lookup_empty.
  - unfold countThreads. cbn. rewrite map_filter_empty, map_size_empty. lia.
  - intros item. by rewrite lookup_empty.
  - done.
  - exists [], [], []. by split_and!; [..|left|left].
Qed.

Lemma run_reachable_ok s : NoDup (sqItemPaths request) -> rtc scanning started s -> run_ok s.
Proof.
  intros Hnd Hr. pose proof (started_ok Hnd) as Hok. induction Hr as [|s1 s2 s3 Hstep _ IH]; [done|]. apply IH. by eapply run_ok_step.
Qed.

(** The items that were sent whole. *)
Definition sentItems (s : scanRun) : list string := elements (dom (filter (fun e => wasSent e.2 = true) (ruThreads s)) : gset string).

(** The entries of a run around its completion. *)
Lemma log_completion s before m payload after : run_ok s -> ruLog s = before ++ CompleteEntry m payload :: after ->
  Forall result_entry before /\ fails after /\ (ruStage s <> Finished -> after = []) /\
  exists finishedAt, m = completeMessage (countThreads wasSent s) finishedAt /\ encodeComplete m = Ok payload.
Proof.
  intros Hok Hl. destruct (run_log s Hok) as (results & completion & failure & Hl' & Hres & _ & Hno & Hcom & Hfail). rewrite Hl in Hl'. clear Hl.
  assert (forall l, Forall result_entry l -> CompleteEntry m payload ∉ l) as Hnot by (intros l Hall Hin; rewrite Forall_forall in Hall; by apply Hall in Hin).
  assert (CompleteEntry m payload ∉ failure) as Hnf.
  { destruct Hfail as [->|(err & p & _ & ->)]; [apply not_elem_of_nil|]. by intros ?%list_elem_of_singleton. }
  destruct Hcom as [->|(finishedAt & p & He & ->)].
  - exfalso. assert (CompleteEntry m payload ∈ results ++ [] ++ failure) as Hin by (rewrite <- Hl'; rewrite elem_of_app; right; by left).
    apply elem_of_app in Hin as [Hin|Hin]; [by eapply Hnot|done].
  - apply app_eq_app in Hl' as (l & [[-> Hl]|[-> Hl]]).
    + destruct l as [|e l]; cbn in Hl; [|exfalso; injection Hl as <- Hl; apply Hnf; rewrite Hl, elem_of_app; right; by left].
      injection Hl as <- <- <-. rewrite app_nil_r. split_and!; [done..|]. by exists finishedAt.
    + destruct l as [|e l]; cbn in Hl; [|exfalso; injection Hl as <- Hl; apply (Hnot _ Hres); rewrite elem_of_app; right; by left].
      injection Hl as -> -> ->. rewrite app_nil_r in Hres. split_and!; [done..|]. by exists finishedAt.
Qed.

(** C10: However the goroutines interleave and whatever fails, at most
    parallelCount items are worked on at a time, and what is on the stream of an
    item is the beginning of its messages in their order. There is one completion
    at most, after every result. It counts items of which every message is on the
    stream before it, and the only thing that can follow it is the one report of a
    failure, when the completion reached the stream although publishing it
    reported an error. *)
Theorem scan_sends s : NoDup (sqItemPaths request) -> rtc scanning started s ->
  (countThreads holding s <= sqParallelCount request)%nat /\
  (forall item, match scanItem item with
                | Ok r => itemLog item (ruLog s) `prefix_of` outgoing r
                | Err _ => itemLog item (ruLog s) = []
                end) /\
  (forall before m payload after, ruLog s = before ++ CompleteEntry m payload :: after ->
    Forall result_entry before /\ fails after /\
    exists sent, NoDup sent /\ cmItemCount m = length sent /\
      forall item, item ∈ sent -> exists r, scanItem item = Ok r /\ itemLog item before = outgoing r).
Proof.
  intros Hnd Hr. pose proof (run_reachable_ok s Hnd Hr) as Hok. split; [apply (run_bounded s Hok)|]. split.
  - intros item. pose proof (run_tracked s Hok item) as Htr. destruct (ruThreads s !! item) as [[| |rest| |]|]; cbn in Htr;
      try (by rewrite Htr; destruct (scanItem item); [apply prefix_nil|]); [|by destruct Htr as (r & -> & ->)|done].
    destruct Htr as (r & -> & <-). by apply prefix_app_r.
  - intros before m payload after Hl. destruct (log_completion s before m payload after Hok Hl) as (Hres & Hfail & _ & finishedAt & -> & _).
    split_and!; [done..|]. exists (sentItems s). split; [unfold sentItems; apply NoDup_elements|]. split.
    + unfold sentItems, completeMessage, countThreads. cbn. by rewrite <- size_dom.
    + unfold sentItems. intros item Hi%elem_of_elements. apply elem_of_dom in Hi as [t Ht]. apply map_lookup_filter_Some in Ht as [Ht Hsent]. cbn in Hsent.
      pose proof (run_tracked s Hok item) as Htr. rewrite Ht in Htr. destruct t; try done. destruct Htr as (r & Hscan & Htr). exists r. split; [done|].
      rewrite <- Htr, Hl, itemLog_app. assert (itemLog item (CompleteEntry (completeMessage (countThreads wasSent s) finishedAt) payload :: after) = []) as ->;
        [|by rewrite app_nil_r]. unfold itemLog. destruct Hfail as [->|(err & p & _ & ->)]; done.
Qed.

(** ** It ends *)

Definition messagesOf (item : string) : nat := match scanItem item with Ok r => length (outgoing r) | Err _ => 0 end.

Definition itemWeight (s : scanRun) (item : string) : nat :=
  if decide (item ∈ ruPending s) then 5 + messagesOf item
  else
    match ruThreads s !! item with
    | Some Waiting => 4 + messagesOf item
    | Some Scanning => 3 + messagesOf item
    | Some (Sending rest) => 1 + length rest
    | _ => 0
    end.

Definition stageWeight (s : scanRun) : nat := match ruStage s with Streaming => 3 | Completing _ => 2 | Failing _ => 1 | Finished => 0 end.
Definition remaining (s : scanRun) : nat := list_sum (map (itemWeight s) (sqItemPaths request)) + stageWeight s.

Lemma list_sum_cons x l : list_sum (x :: l) = (x + list_sum l)%nat.
Proof. done. Qed.

Lemma list_sum_le {A} (f g : A -> nat) l : (forall x, x ∈ l -> (f x <= g x)%nat) -> (list_sum (map f l) <= list_sum (map g l))%nat.
Proof.
  induction l as [|x l IH]; [done|]. intros Hle. cbn [map]. rewrite !list_sum_cons. pose proof (Hle x ltac:(by left)).
  specialize (IH ltac:(intros y Hy; apply Hle; by right)). lia.
Qed.

Lemma list_sum_lt {A} (f g : A -> nat) l x : x ∈ l -> (f x < g x)%nat -> (forall y, y ∈ l -> (f y <= g y)%nat) ->
  (list_sum (map f l) < list_sum (map g l))%nat.
Proof.
  intros Hx Hlt Hle. apply list_elem_of_split in Hx as (l1 & l2 & ->). rewrite !map_app, !list_sum_app. cbn [map]. rewrite !list_sum_cons.
  pose proof (list_sum_le f g l1 ltac:(intros y Hy; apply Hle; rewrite elem_of_app; by left)).
  pose proof (list_sum_le f g l2 ltac:(intros y Hy; apply Hle; rewrite elem_of_app; right; by right)). lia.
Qed.

(** One item gets lighter and no other heavier. *)
Lemma remaining_item s s' item : item ∈ sqItemPaths request -> ruStage s' = ruStage s ->
  (itemWeight s' item < itemWeight s item)%nat -> (forall i, i <> item -> (itemWeight s' i <= itemWeight s i)%nat) -> (remaining s' < remaining s)%nat.
Proof.
  intros Hi Hst Hlt Hle. unfold remaining, stageWeight. rewrite Hst.
  assert (list_sum (map (itemWeight s') (sqItemPaths request)) < list_sum (map (itemWeight s) (sqItemPaths request)))%nat; [|lia].
  eapply list_sum_lt; [done|done|]. intros i _. destruct (decide (i = item)) as [->|Hne]; [lia|auto].
Qed.

Lemma remaining_thread s s' item t t' : run_ok s -> ruThreads s !! item = Some t -> ruThreads s' = <[item := t']> (ruThreads s) ->
  ruPending s' = ruPending s -> ruStage s' = ruStage s -> (itemWeight (setThread item t' s) item < itemWeight s item)%nat ->
  (remaining s' < remaining s)%nat.
Proof.
  intros Hok Ht Het Hep Hst Hlt. apply (remaining_item s s' item); [apply (run_items s Hok); right; by rewrite Ht|done| |].
  - assert (itemWeight s' item = itemWeight (setThread item t' s) item) as ->; [|done]. unfold itemWeight.
    destruct (setThread_fields item t' s) as (-> & _ & -> & _). by rewrite Hep, Het.
  - intros i Hne. unfold itemWeight. rewrite Hep, Het, lookup_insert_ne by done. lia.
Qed.

Lemma weight_of_thread s item t : run_ok s -> ruThreads s !! item = Some t ->
  itemWeight s item = match t with Waiting => 4 + messagesOf item | Scanning => 3 + messagesOf item | Sending rest => 1 + length rest | _ => 0 end%nat /\
  forall t', itemWeight (setThread item t' s) item =
    match t' with Waiting => 4 + messagesOf item | Scanning => 3 + messagesOf item | Sending rest => 1 + length rest | _ => 0 end%nat.
Proof.
  intros Hok Ht. assert (item ∉ ruPending s) as Hp by (intros Hp; apply (run_pending s Hok) in Hp; congruence).
  unfold itemWeight. split; [by rewrite decide_False, Ht|]. intros t'. destruct (setThread_fields item t' s) as (-> & _ & -> & _).
  by rewrite decide_False, lookup_insert_eq.
Qed.

Lemma remaining_stage s s' : ruPending s' = ruPending s -> ruThreads s' = ruThreads s -> (stageWeight s' < stageWeight s)%nat ->
  (remaining s' < remaining s)%nat.
Proof.
  intros Hp Ht Hw. unfold remaining. assert (list_sum (map (itemWeight s') (sqItemPaths request)) <= list_sum (map (itemWeight s) (sqItemPaths request)))%nat; [|lia].
  apply list_sum_le. intros i _. unfold itemWeight. by rewrite Hp, Ht.
Qed.

(** A step of one goroutine. *)
Ltac lighter s item t t' :=
  match goal with Hok : run_ok s, Ht : ruThreads s !! item = Some t |- _ =>
    destruct (weight_of_thread s item t Hok Ht) as [Hw Hw']; apply (remaining_thread s _ item t t'); [done|done|by destruct s|by destruct s|by destruct s|rewrite Hw, Hw'] end.

Lemma scanning_decreases s s' : run_ok s -> scanning s s' -> (remaining s' < remaining s)%nat.
Proof.
  intros Hok Hstep. destruct Hstep as
    [item rest s Hst Hp|s Hst Hp|item s Ht Hlt|item err s Ht Hscan|item result s Ht Hscan|item m rest err s Ht He|item m rest payload s Ht He
    |item m rest payload reached s Ht He|item s Ht|finishedAt s Hst Hp Hall|finishedAt payload s Hst He|finishedAt err s Hst
    |finishedAt payload err s Hst He|err payload s Hst He|err s Hst].
  - destruct (run_pending s Hok) as [Hnd Hnone]. rewrite Hp in Hnd, Hnone. apply NoDup_cons in Hnd as [Hnin _].
    assert (ruPending (setThread item Waiting (s {{ ruPending := rest }})) = rest /\
      ruThreads (setThread item Waiting (s {{ ruPending := rest }})) = <[item := Waiting]> (ruThreads s)) as [Ep Et] by by destruct s.
    apply (remaining_item s _ item); [apply (run_items s Hok); left; rewrite Hp; by left|by destruct s| |]; unfold itemWeight; rewrite Ep, Et, Hp.
    + rewrite (decide_False (P := item ∈ rest)), (decide_True (P := item ∈ item :: rest)), lookup_insert_eq by (done || by left). lia.
    + intros i Hne. rewrite lookup_insert_ne by done. destruct (decide (i ∈ rest)) as [Hi|Hi].
      * rewrite decide_True by (by right). lia.
      * rewrite decide_False by (intros [|]%elem_of_cons; done). lia.
  - destruct (run_pending s Hok) as [Hnd Hnone]. destruct (ruPending s) as [|item rest] eqn:Hpe; [done|].
    assert (ruThreads (s {{ ruPending := [] }}) = ruThreads s /\ ruPending (s {{ ruPending := [] }}) = []) as [Et Ep] by by destruct s.
    apply (remaining_item s _ item); [apply (run_items s Hok); left; rewrite Hpe; by left|by destruct s| |]; unfold itemWeight; rewrite Ep, Et, Hpe.
    + rewrite decide_False, decide_True by (apply not_elem_of_nil || by left). rewrite Hnone by (by left). lia.
    + intros i Hne. rewrite decide_False by apply not_elem_of_nil. case_decide as Hi; [rewrite Hnone by done|]; lia.
  - lighter s item Waiting Scanning. lia.
  - lighter s item Scanning Abandoned. lia.
  - lighter s item Scanning (Sending (outgoing result)). unfold messagesOf. rewrite Hscan. lia.
  - lighter s item (Sending (m :: rest)) Abandoned. simpl. lia.
  - lighter s item (Sending (m :: rest)) (Sending rest). simpl. lia.
  - destruct reached; lighter s item (Sending (m :: rest)) Abandoned; simpl; lia.
  - lighter s item (Sending []) Sent. simpl. lia.
  - apply remaining_stage; destruct s; cbn in *; subst; unfold stageWeight; cbn; lia || done.
  - apply remaining_stage; destruct s; cbn in *; subst; unfold stageWeight; cbn; lia || done.
  - apply remaining_stage; destruct s; cbn in *; subst; unfold stageWeight; cbn; lia || done.
  - apply remaining_stage; destruct s; cbn in *; subst; unfold stageWeight; cbn; lia || done.
  - apply remaining_stage; destruct s; cbn in *; subst; unfold stageWeight; cbn; lia || done.
  - apply remaining_stage; destruct s; cbn in *; subst; unfold stageWeight; cbn; lia || done.
Qed.

(** While the scan is not over, something can happen. *)
Lemma scanning_progress s : run_ok s -> (0 < sqParallelCount request)%nat -> ruStage s <> Finished -> exists s', scanning s s'.
Proof.
  intros Hok Hpar Hfin. destruct (ruStage s) eqn:Hst; [|by eexists; eapply uncompleted with (err := "")|by eexists; eapply failure_unreported|done].
  destruct (ruPending s) as [|item rest] eqn:Hp; [|by eexists; eapply spawned].
  destruct (decide (filter (fun e => holding e.2 = true) (ruThreads s) = ∅)) as [Hidle|Hne]; cycle 1.
  { apply map_choose in Hne as (item & t & (Ht & Hh)%map_lookup_filter_Some). cbn in Hh. destruct t as [| |[|m rest]| |]; try done.
    - destruct (scanItem item) as [r|err] eqn:Hs; eexists; [by eapply scanned|by eapply unscannable].
    - by eexists; eapply item_sent.
    - destruct (encodeResult m) as [payload|err] eqn:He; eexists; [by eapply published|by eapply unencodable]. }
  destruct (decide (filter (fun e => ended e.2 = false) (ruThreads s) = ∅)) as [Hall|Hne].
  - exists (s {{ ruStage := Completing 0 }}). apply (streamed 0); [done|done|]. intros item t Ht.
    destruct (ended t) eqn:He; [done|]. by destruct (map_filter_empty_not_lookup _ _ item t Hall He).
  - apply map_choose in Hne as (item & t & (Ht & He)%map_lookup_filter_Some). cbn in He.
    destruct (holding t) eqn:Hh; [by destruct (map_filter_empty_not_lookup _ _ item t Hidle Hh)|]. destruct t; try done.
    exists (setThread item Scanning s). apply acquired; [done|]. unfold countThreads. rewrite Hidle, map_size_empty. lia.
Qed.

(** C11: A scan ends: whatever order its goroutines take and whatever fails, no
    run of it is infinite, and until it has reported there is always a next
    step, so no run gets stuck. *)
Theorem scan_ends : NoDup (sqItemPaths request) -> (0 < sqParallelCount request)%nat ->
  sn scanning started /\ forall s, rtc scanning started s -> ruStage s <> Finished -> exists s', scanning s s'.
Proof.
  intros Hnd Hpar. split; [|intros s Hr; apply scanning_progress; [by apply run_reachable_ok|done]].
  assert (forall n s, run_ok s -> (remaining s < n)%nat -> sn scanning s) as Hsn; [|by eapply Hsn; [apply started_ok|apply Nat.lt_succ_diag_r]].
  induction n as [|n IH]; intros s Hok Hlt; [lia|]. constructor. intros s' Hstep. apply IH; [by eapply run_ok_step|].
  pose proof (scanning_decreases s s' Hok Hstep). lia.
Qed.
End send.
Arguments entry : clear implicits.
Arguments scanRun : clear implicits.
Arguments thread : clear implicits.
