(* ===== verification/Ingest.v ===== *)
(** The server's side of a scan: src/internal/server/listeners/agent_scan_result_listener.go
    over the configuration (AppConfig), path translation (Paths) and the store
    (LocalDirectory), and the agent's side (ScanSend) put together with it: what
    a whole scan, from the goroutines that walk a library to the sweep, leaves
    stored. The log lines of the listener are not modelled. *)
From stdpp Require Import strings list gmap.
From Stdlib Require Import Ascii ZArith Lia.
From S2P Require Import Prelude Sidecar ScanModel GoPath Paths Topics Bus StoredTime Stored LocalDirectory AppConfig ScanSend.
#[local] Open Scope go_scope.

(** * The listener *)

Definition errUnknownAgent (slug : string) : string := "agent " +:+ quote slug +:+ " is no longer configured".
Definition errUnmappedScanner (agentSlug scannerSlug : string) : string :=
  quote scannerSlug +:+ " is no longer mapped to agent " +:+ quote agentSlug.
Definition errUnknownScanner (slug : string) : string := "scan directory " +:+ quote slug +:+ " no longer exists".

Definition translatorFor (config : Config) (agentSlug scannerSlug : string) : result PathTranslator :=
  match FindAgentIndex config agentSlug ≫= fun index => cfAgents config !! index with
  | None => Err (errUnknownAgent agentSlug)
  | Some agent =>
      match FindMapping agent scannerSlug with
      | None => Err (errUnmappedScanner agentSlug scannerSlug)
      | Some mapping =>
          match FindScanDirectoryIndex (cfDirectoryScanner config) scannerSlug ≫= fun index => dsScanDirectories (cfDirectoryScanner config) !! index with
          | None => Err (errUnknownScanner scannerSlug)
          | Some entry => Ok (NewPathTranslator (amAgentPath mapping) (sdDirectory entry))
          end
      end
  end.

Section listener.
Context {D F : Type} `{LocalCollection, Descriptors, ExtJSON, !StoredForm (Directory D), !StoredForm (StoredFile F), ScanWire D F}.
(** [appconfig.Get]. *)
Variable config : Config.

Definition storeScanResult (payload : string) (c : collection) : collection * option string :=
  match decodeResult payload with
  | Err err => (c, Some ("decode agent scan result: " +:+ err))
  | Ok message =>
      match translatorFor config (rmAgentSlug message) (rmScannerSlug message) with
      | Err err => (c, Some err)
      | Ok translator =>
          match Result translator (rmResult message) with
          | (_, Err err) => (c, Some err)
          | (result, Ok _) =>
              match Path translator (rmScanRootPath message) with
              | Err err => (c, Some err)
              | Ok serverRoot => UpsertScanResult serverRoot result c
              end
          end
      end
  end.

Definition completeScan (payload : string) (c : collection) : collection * option string :=
  match decodeComplete payload with
  | Err err => (c, Some ("decode agent scan completion: " +:+ err))
  | Ok message =>
      match translatorFor config (cmAgentSlug message) (cmScannerSlug message) with
      | Err err => (c, Some err)
      | Ok translator =>
          match Path translator (cmScanRootPath message) with
          | Err err => (c, Some err)
          | Ok serverRoot => DeleteStaleRecords serverRoot (cmStartedAt message) c
          end
      end
  end.

(** The handler map of [RegisterAgentScanResultListener]; [reportScanFailure]
    only logs. *)
Definition asHandler (f : string -> collection -> collection * option string) : @StreamHandler collection :=
  {| handle := fun event c => match f (evPayload event) c with (c', Some err) => (c', Failed err) | (c', None) => (c', Handled) end |}.

Definition scanResultHandlers : gmap string (@StreamHandler collection) :=
  <[AgentScanResultEventName := asHandler storeScanResult]> (<[AgentScanCompleteEventName := asHandler completeScan]>
    {[AgentScanFailedEventName := {| handle := fun _ c => (c, Handled) |}]}).

(** The event an entry of the stream is, and what the handler it goes to does. *)
Definition eventName (e : entry D F) : string :=
  match e with ResultEntry _ _ _ => AgentScanResultEventName | CompleteEntry _ _ => AgentScanCompleteEventName | FailedEntry _ _ => AgentScanFailedEventName end.
Definition eventPayload (e : entry D F) : string :=
  match e with ResultEntry _ _ payload | CompleteEntry _ payload | FailedEntry _ payload => payload end.

Definition ingest (e : entry D F) (c : collection) : collection * option string :=
  match e with
  | ResultEntry _ _ payload => storeScanResult payload c
  | CompleteEntry _ payload => completeScan payload c
  | FailedEntry _ _ => (c, None)
  end.

(** The handler map sends each entry there. *)
Lemma ingest_handled e event c : evPayload event = eventPayload e ->
  exists handler, scanResultHandlers !! eventName e = Some handler /\
    handle handler event c = match ingest e c with (c', Some err) => (c', Failed err) | (c', None) => (c', Handled) end.
Proof.
  intros He. unfold scanResultHandlers. destruct e; cbn [eventName eventPayload ingest] in *; eexists.
  - rewrite lookup_insert_eq. split; [done|]. cbn. by rewrite He.
  - rewrite lookup_insert_ne, lookup_insert_eq by done. split; [done|]. cbn. by rewrite He.
  - rewrite !lookup_insert_ne, lookup_singleton_eq by done. by split.
Qed.

(** The entries of the stream in order, each handled without an error. *)
Fixpoint ingestAll (entries : list (entry D F)) (c : collection) : collection * option string :=
  match entries with
  | [] => (c, None)
  | e :: rest => match ingest e c with (c', Some err) => (c', Some err) | (c', None) => ingestAll rest c' end
  end.

(** ** The stream implements the batch *)

Context (slug : string) (request : scanStreamRequest).

(** An entry whose payload is a message of the agent's scan, and the result the
    server reads out of it. *)
Definition of_scan (e : entry D F) : Prop :=
  match e with
  | ResultEntry _ _ payload =>
      exists m, decodeResult payload = Ok m /\ is_Some (rmResult m) /\
        rmAgentSlug m = slug /\ rmScannerSlug m = cmdScannerSlug (sqCommand request) /\ rmScanRootPath m = sqScanRootPath request
  | _ => False
  end.

Definition received (e : entry D F) : option (Paths.ScanResult D F) :=
  match e with ResultEntry _ _ payload => match decodeResult payload with Ok m => rmResult m | Err _ => None end | _ => None end.

(** Results as the server stores them, of what each entry holds. *)
Definition resultsOf (held : entry D F -> option (Paths.ScanResult D F)) (t : PathTranslator) (entries : list (entry D F))
  (results : list (Paths.ScanResult D F)) : Prop :=
  Forall2 (fun e r => exists r0, held e = Some r0 /\ Result t (Some r0) = (Some r, Ok tt)) entries results.

Definition receivedResults : PathTranslator -> list (entry D F) -> list (Paths.ScanResult D F) -> Prop := resultsOf received.

Lemma ingest_results t serverRoot entries c c' :
  translatorFor config slug (cmdScannerSlug (sqCommand request)) = Ok t -> Path t (sqScanRootPath request) = Ok serverRoot ->
  Forall of_scan entries -> ingestAll entries c = (c', None) ->
  exists results, receivedResults t entries results /\ upsertAll serverRoot results c = (c', None).
Proof.
  intros Ht Hp. revert c. induction entries as [|e rest IH]; intros c Hof; [intros [= <-]; exists []; by split; [constructor|]|].
  apply Forall_cons in Hof as [He Hof].
  destruct e as [item m0 payload| |]; [|done..]. destruct He as (m & Hdec & [r0 Hr0] & Ha & Hs & Hroot). cbn [ingestAll ingest]. unfold storeScanResult.
  rewrite Hdec, Ha, Hs, Ht, Hroot, Hp, Hr0.
  destruct (Result t (Some r0)) as [[r|] [[]|err]] eqn:Hres; try done; cycle 1.
  { exfalso. unfold Result in Hres. destruct (match srDirectory r0 with Some d => _ | None => _ end) as [? []]; [|done]. by destruct (rewriteFiles _ _). }
  destruct (UpsertScanResult serverRoot (Some r) c) as [c1 [err|]] eqn:Hu; [done|]. intros Hrest.
  destruct (IH c1 Hof Hrest) as (results & Htr & Hall). exists (r :: results). split; [|by cbn [upsertAll]; rewrite Hu].
  constructor; [|done]. exists r0. cbn [received]. by rewrite Hdec.
Qed.

Lemma ingestAll_snoc entries e c :
  ingestAll (entries ++ [e]) c = match ingestAll entries c with (c1, None) => ingest e c1 | (c1, Some err) => (c1, Some err) end.
Proof.
  revert c. induction entries as [|e' entries IH]; intros c; cbn [ingestAll app].
  - by destruct (ingest e c) as [c1 [|]].
  - destruct (ingest e' c) as [c1 [|]]; [done|apply IH].
Qed.

Lemma ingest_replaces t serverRoot entries m0 m payload c c' :
  translatorFor config slug (cmdScannerSlug (sqCommand request)) = Ok t -> Path t (sqScanRootPath request) = Ok serverRoot ->
  Forall of_scan entries ->
  decodeComplete payload = Ok m -> cmAgentSlug m = slug -> cmScannerSlug m = cmdScannerSlug (sqCommand request) ->
  cmScanRootPath m = sqScanRootPath request -> ingestAll (entries ++ [CompleteEntry m0 payload]) c = (c', None) ->
  exists results, receivedResults t entries results /\ ReplaceScanResults serverRoot results (cmStartedAt m) c = (c', None).
Proof.
  intros Ht Hp Hof Hdec Ha Hs Hroot. rewrite ingestAll_snoc. destruct (ingestAll entries c) as [c1 [err|]] eqn:Hall; [done|].
  destruct (ingest_results t serverRoot entries c c1 Ht Hp Hof Hall) as (results & Htr & Hu). cbn [ingest]. unfold completeScan.
  rewrite Hdec, Ha, Hs, Ht, Hroot, Hp. intros Hd. exists results. split; [done|]. unfold ReplaceScanResults. by rewrite Hu.
Qed.

(** C16: Handling the events of a scan one by one, the completion last, is
    replacing the library's records in one go with the translations of the
    results the server reads out of them:
    the listener implements ReplaceScanResults on a stream. *)
Theorem ingest_refines t serverRoot entries m0 m payload c c' :
  translatorFor config slug (cmdScannerSlug (sqCommand request)) = Ok t -> Path t (sqScanRootPath request) = Ok serverRoot ->
  Forall of_scan entries ->
  decodeComplete payload = Ok m -> cmAgentSlug m = slug -> cmScannerSlug m = cmdScannerSlug (sqCommand request) ->
  cmScanRootPath m = sqScanRootPath request -> ingestAll (entries ++ [CompleteEntry m0 payload]) c = (c', None) ->
  exists results, receivedResults t entries results /\ ReplaceScanResults serverRoot results (cmStartedAt m) c = (c', None).
Proof. apply ingest_replaces. Qed.
End listener.

(** * A whole scan *)

Section whole.
Context {D F : Type} `{RecordFieldsLaw D F, !LocalCollectionLaws, ScanWire D F, ScanTexts D F, !ScanWireLaws D F}.
Variables (config : Config) (slug : string) (request : scanStreamRequest) (scanItem : string -> result (Paths.ScanResult D F)).
Variables (t : PathTranslator) (libraryRoot : string).

(** What a scan of an item directory records: its directory, and files of that
    directory at paths of their own. *)
Record scanned_item (item : string) (r : Paths.ScanResult D F) : Prop := {
  si_directory : exists d, srDirectory r = Some d /\ dirPath d = item /\ dirScanRootPath d = "" /\ dirRecordType (dirOther d) = RecordTypeTVSeries;
  si_file f : f ∈ srMediaFiles r -> fileDirectoryPath f = item /\ fileScanRootPath f = "";
  si_distinct : NoDup (map filePath (srMediaFiles r));
}.

(** What the messages of the scan say is valid UTF-8, so that JSON carries it. *)
Record scan_texts : Prop := {
  st_request : texts [cmdScanID (sqCommand request); slug; cmdScannerSlug (sqCommand request); sqScanRootPath request];
  st_item item r : item ∈ sqItemPaths request -> scanItem item = Ok r -> scan_text r;
}.

(** The result a message carries, as the agent sent it. *)
Definition messageOf (e : entry D F) : option (Paths.ScanResult D F) := match e with ResultEntry _ m _ => rmResult m | _ => None end.

Definition translatedResults : PathTranslator -> list (entry D F) -> list (Paths.ScanResult D F) -> Prop := resultsOf messageOf.

(** A path the translation cannot mistake for another. *)
Definition legible (p : string) : Prop := p <> "" /\ Clean p = p /\ str_contains p backslash = false.

(** The items of a library as they are scanned: each as it should be, their
    files in different places, and none where an item is. *)
Record library_scan : Prop := {
  ls_item item r : item ∈ sqItemPaths request -> scanItem item = Ok r -> scanned_item item r;
  ls_apart item item' r r' f f' : item ∈ sqItemPaths request -> item' ∈ sqItemPaths request -> scanItem item = Ok r -> scanItem item' = Ok r' ->
    f ∈ srMediaFiles r -> f' ∈ srMediaFiles r' -> filePath f = filePath f' -> item = item';
  ls_below item item' r f : item ∈ sqItemPaths request -> item' ∈ sqItemPaths request -> scanItem item = Ok r -> f ∈ srMediaFiles r -> filePath f <> item';
  ls_legible item : item ∈ sqItemPaths request -> legible item /\ forall r f, scanItem item = Ok r -> f ∈ srMediaFiles r -> legible (filePath f);
  ls_fresh item r : item ∈ sqItemPaths request -> scanItem item = Ok r ->
    (forall d, srDirectory r = Some d -> scanned_since (sqStartedAt request) (dirScannedAt (dirOther d))) /\
    (forall f, f ∈ srMediaFiles r -> scanned_since (sqStartedAt request) (fileScannedAt (fileOther f)));
}.

(** The translation of a Unix agent's library whose root names a directory. *)
Definition unix_translation : Prop := exists root server, t = NewPathTranslator root server /\ proper_root root /\ agentIsWindows t = false.

Lemma Clean_nonempty p : Clean p <> "".
Proof.
  unfold Clean, show_path. destruct (rooted p); [done|]. pose proof (path_elements_ok p) as Hok. destruct (path_elements p) as [|e l]; [done|].
  pose proof (clean_elements_head _ _ _ Hok) as [He _]. destruct e as [|c e]; [done|]. by destruct l.
Qed.

Lemma Path_legible p q p' : unix_translation -> legible p -> legible q -> Path t p = Ok p' -> Path t q = Ok p' -> p = q.
Proof.
  intros (root & server & -> & Hroot & Hw) (_ & Hp & Hpb) (_ & Hq & Hqb) H1' H2'. rewrite <- Hp, <- Hq. by eapply Path_injective.
Qed.

Lemma Path_nonempty p p' : unix_translation -> Path t p = Ok p' -> p' <> "".
Proof.
  intros (root & server & -> & _ & _). unfold Path. destruct (pathEqual _ _ _); [intros [= <-]; apply Clean_nonempty|].
  destruct (negb _); [done|]. intros [= <-]. unfold JoinPath. cbn [serverRoot NewPathTranslator].
  destruct (String.eqb_spec (Clean server) "") as [He|_]; [by apply Clean_nonempty in He|apply Clean_nonempty].
Qed.

(** ** The order of the messages *)

(** An entry with what it carries of its item, given the entries before it. *)
Definition well_sent (before : list (entry D F)) (e : entry D F) : Prop :=
  exists item m payload r, e = ResultEntry item m payload /\ encodeResult m = Ok payload /\ item ∈ sqItemPaths request /\ scanItem item = Ok r /\
    is_Some (rmResult m) /\ (forall f, f ∈ sentFiles m -> f ∈ srMediaFiles r) /\
    rmScanID m = cmdScanID (sqCommand request) /\ rmAgentSlug m = slug /\ rmScannerSlug m = cmdScannerSlug (sqCommand request) /\
    rmScanRootPath m = sqScanRootPath request /\
    (sentDirectory m = srDirectory r \/
     sentDirectory m = None /\ exists m0 payload0, ResultEntry item m0 payload0 ∈ before /\ sentDirectory m0 = srDirectory r).

Lemma elem_of_itemLog item m (log : list (entry D F)) : m ∈ itemLog item log <-> exists payload, ResultEntry item m payload ∈ log.
Proof.
  unfold itemLog. rewrite list_elem_of_omap. split.
  - intros ([i m' payload| |] & He & Hm); try done. case_decide; [|done]. injection Hm as ->. subst. eauto.
  - intros [payload Hm]. exists (ResultEntry item m payload). by rewrite decide_True.
Qed.

Lemma sent_prefix s item : run_ok slug request scanItem s -> itemLog item (ruLog s) <> [] ->
  item ∈ sqItemPaths request /\ exists r, scanItem item = Ok r /\ itemLog item (ruLog s) `prefix_of` outgoing slug request r.
Proof.
  intros Hok Hne. pose proof (run_tracked _ _ _ s Hok item) as Htr. split.
  - apply (run_items _ _ _ s Hok). right. destruct (ruThreads s !! item) as [th|]; [done|]. by cbn in Htr.
  - destruct (ruThreads s !! item) as [[| |rest| |]|]; cbn in Htr; try done.
    + destruct Htr as (r & Hr & He). exists r. split; [done|]. rewrite <- He. by apply prefix_app_r.
    + destruct Htr as (r & Hr & ->). by exists r.
    + destruct (scanItem item) as [r|]; [by exists r|done].
Qed.

Lemma entries_well_sent s entries m payload failure before e after : NoDup (sqItemPaths request) -> rtc (scanning slug request scanItem) (started request) s ->
  ruLog s = entries ++ CompleteEntry m payload :: failure -> entries = before ++ e :: after -> well_sent before e.
Proof.
  intros Hnd Hrun Hlog He. pose proof (run_reachable_ok slug request scanItem s Hnd Hrun) as Hok.
  destruct (log_completion _ _ _ s entries m payload failure Hok Hlog) as (Hres & Hfail & _).
  rewrite Forall_forall in Hres. assert (result_entry e) as Hentry by (apply Hres; rewrite He, elem_of_app; right; by left).
  destruct e as [item m0 payload0| |]; [|done..]. cbn in Hentry.
  assert (itemLog item (ruLog s) = itemLog item before ++ m0 :: itemLog item after) as Hil.
  { rewrite Hlog, He, !itemLog_app. assert (itemLog item (CompleteEntry m payload :: failure) = []) as ->.
    { unfold itemLog. destruct Hfail as [->|(err & p & _ & ->)]; done. }
    unfold itemLog at 2. cbn. rewrite decide_True, app_nil_r by done. done. }
  destruct (sent_prefix s item Hok) as (Hin & r & Hr & Hpre); [rewrite Hil; by destruct (itemLog item before)|]. rewrite Hil in Hpre.
  destruct (outgoing_carries slug request r) as [Hfirst Hlater Hfiles Hnum].
  assert (outgoing slug request r !! length (itemLog item before) = Some m0) as Hm0.
  { eapply prefix_lookup_Some; [|exact Hpre]. by rewrite lookup_app_r, Nat.sub_diag. }
  destruct (Hnum _ _ Hm0) as (_ & _ & Hbase & Hsome). exists item, m0, payload0, r. split_and!; try done; try (by rewrite Hbase).
  - intros f Hf. rewrite <- Hfiles. apply list_elem_of_In, in_concat. exists (sentFiles m0). split; [|by apply list_elem_of_In].
    apply in_map, list_elem_of_In. by eapply list_elem_of_lookup_2.
  - destruct (itemLog item before) as [|m1 ms] eqn:Hb; [left; by apply Hfirst|right]. cbn in Hm0. split; [by apply (Hlater (length ms))|].
    assert (outgoing slug request r !! 0%nat = Some m1) as Hm1 by (eapply prefix_lookup_Some; [|exact Hpre]; done).
    assert (m1 ∈ itemLog item before) as [payload1 Hp1]%elem_of_itemLog by (rewrite Hb; by left).
    exists m1, payload1. split; [done|by apply Hfirst].
Qed.

(** ** The translated results *)

Lemma translated_if_set_fun p q q' : translated_if_set t p q -> translated_if_set t p q' -> q = q'.
Proof. unfold translated_if_set, translated. intros [[? ?]|[? ?]] [[? ?]|[? ?]]; congruence. Qed.

Lemma directory_translated_fun (d d1 d2 : Directory D) : directory_translated t d d1 -> directory_translated t d d2 -> d1 = d2.
Proof.
  intros (Hp & Hr & Ho) (Hp' & Hr' & Ho'). pose proof (translated_if_set_fun _ _ _ Hr Hr'). unfold translated in *.
  destruct d1, d2. cbn in *. congruence.
Qed.

Lemma file_translated_fun (f f1 f2 : MediaFile F) : file_translated t f f1 -> file_translated t f f2 -> f1 = f2.
Proof.
  intros (Hp & Hd & Hr & Ho) (Hp' & Hd' & Hr' & Ho'). pose proof (translated_if_set_fun _ _ _ Hr Hr'). pose proof (translated_if_set_fun _ _ _ Hd Hd').
  unfold translated in *. destruct f1, f2. cbn in *. congruence.
Qed.

(** A stored result and the scanned item it is part of. *)
Record part_of (item : string) (ri r : Paths.ScanResult D F) : Prop := {
  po_item : item ∈ sqItemPaths request /\ scanItem item = Ok ri;
  po_directory d : srDirectory r = Some d -> exists d0, srDirectory ri = Some d0 /\ directory_translated t d0 d;
  po_file f : f ∈ srMediaFiles r -> exists f0, f0 ∈ srMediaFiles ri /\ file_translated t f0 f;
}.

Lemma part_of_entry item m payload ri r :
  item ∈ sqItemPaths request -> scanItem item = Ok ri -> (forall f, f ∈ sentFiles m -> f ∈ srMediaFiles ri) ->
  (sentDirectory m = srDirectory ri \/ sentDirectory m = None) ->
  (exists r0, messageOf (ResultEntry item m payload) = Some r0 /\ Result t (Some r0) = (Some r, Ok tt)) ->
  part_of item ri r /\ (sentDirectory m = srDirectory ri -> forall d0, srDirectory ri = Some d0 -> exists d, srDirectory r = Some d /\ directory_translated t d0 d) /\
  (forall f0, f0 ∈ sentFiles m -> exists f, f ∈ srMediaFiles r /\ file_translated t f0 f).
Proof.
  intros Hi Hri Hfiles Hdir (r0 & Hm & Hres). cbn in Hm. apply Result_Ok in Hres as [Hd Hf]. unfold sentDirectory, sentFiles in *. rewrite Hm in *. cbn in *.
  split; [constructor|split].
  - done.
  - intros d Hrd. rewrite Hrd in Hd. destruct (srDirectory r0) as [d0|] eqn:Hr0; [|done]. destruct Hdir as [He|]; [|done]. exists d0. by rewrite <- He.
  - intros f Hrf. apply list_elem_of_lookup in Hrf as [i Hi']. destruct (Forall2_lookup_r _ _ _ _ _ Hf Hi') as (f0 & Hf0 & Htr).
    exists f0. split; [|done]. apply Hfiles. by eapply list_elem_of_lookup_2.
  - intros He d0 Hd0. rewrite He, Hd0 in Hd. destruct (srDirectory r) as [d|]; [eauto|done].
  - intros f0 Hf0. apply list_elem_of_lookup in Hf0 as [i Hi']. destruct (Forall2_lookup_l _ _ _ _ _ Hf Hi') as (f & Hf1 & Htr).
    exists f. split; [by eapply list_elem_of_lookup_2|done].
Qed.

Section order.
Variables (entries : list (entry D F)) (results : list (Paths.ScanResult D F)).
Hypothesis sent : forall before e after, entries = before ++ e :: after -> well_sent before e.
Hypothesis translates : translatedResults t entries results.

(** A result is part of an item, whose directory is stored with or before it. *)
Lemma result_origin before r after : results = before ++ r :: after ->
  exists item ri, part_of item ri r /\
    (is_Some (srDirectory ri) -> exists r' d d0, r' ∈ before ++ [r] /\ srDirectory r' = Some d /\ srDirectory ri = Some d0 /\ directory_translated t d0 d).
Proof.
  intros Hr. pose proof translates as Htr. unfold translatedResults in Htr. rewrite Hr in Htr.
  apply Forall2_app_inv_r in Htr as (eb & erest & Hb & Hrest & He). apply Forall2_cons_inv_r in Hrest as (e & ea & Hehead & _ & ->).
  destruct (sent eb e ea He) as (item & m & payload & ri & -> & Henc & Hi & Hri & Hsome & Hfiles & _ & _ & _ & _ & Hdir).
  assert (sentDirectory m = srDirectory ri \/ sentDirectory m = None) as Hdir' by naive_solver.
  destruct (part_of_entry item m payload ri r Hi Hri Hfiles Hdir' Hehead) as (Hpart & Hown & _). exists item, ri. split; [done|].
  intros [d0 Hd0]. destruct Hdir as [Hd|(Hnone & m0 & payload0 & Hm0 & Hd)].
  - destruct (Hown Hd d0 Hd0) as (d & Hrd & Htr'). exists r, d, d0. split_and!; [rewrite elem_of_app; right; by left|done..].
  - apply list_elem_of_lookup in Hm0 as [i Hi0]. destruct (Forall2_lookup_l _ _ _ _ _ Hb Hi0) as (r' & Hr' & r0 & Hmsg & Hres).
    cbn in Hmsg. apply Result_Ok in Hres as [Hres _]. unfold sentDirectory in Hd. rewrite Hmsg in Hd. cbn in Hd. rewrite Hd, Hd0 in Hres.
    destruct (srDirectory r') as [d|] eqn:Hrd; [|done]. exists r', d, d0. split_and!; try done. rewrite elem_of_app. left. by eapply list_elem_of_lookup_2.
Qed.

Lemma result_part r : r ∈ results -> exists item ri, part_of item ri r.
Proof. intros (before & after & Hr)%list_elem_of_split. destruct (result_origin before r after Hr) as (item & ri & Hp & _). eauto. Qed.

Hypothesis library : library_scan.
Hypothesis unix : unix_translation.

Lemma part_directory item ri r d : part_of item ri r -> srDirectory r = Some d ->
  Path t item = Ok (dirPath d) /\ dirRecordType (dirOther d) = RecordTypeTVSeries /\ exists d0, srDirectory ri = Some d0 /\ directory_translated t d0 d.
Proof.
  intros [[Hi Hri] Hdir _] Hd. destruct (Hdir d Hd) as (d0 & Hd0 & Htr). destruct (si_directory _ _ (ls_item library item ri Hi Hri)) as (d0' & Hd0' & <- & _ & Hty).
  assert (d0' = d0) as -> by congruence. destruct Htr as (Hp & Hroot & Ho). split_and!; [done|by rewrite Ho|]. exists d0. by split.
Qed.

Lemma part_file item ri r f : part_of item ri r -> f ∈ srMediaFiles r ->
  exists f0, f0 ∈ srMediaFiles ri /\ file_translated t f0 f /\ Path t (filePath f0) = Ok (filePath f) /\ Path t item = Ok (fileDirectoryPath f).
Proof.
  intros [[Hi Hri] _ Hfile] Hf. destruct (Hfile f Hf) as (f0 & Hf0 & Htr). exists f0. destruct (ls_legible library item Hi) as [(Hne & _) _].
  destruct (si_file _ _ (ls_item library item ri Hi Hri) f0 Hf0) as [Hfd _]. pose proof Htr as (Hp & Hd & _ & _). split_and!; try done.
  rewrite Hfd in Hd. by destruct Hd as [[? _]|[_ Hd]].
Qed.

Lemma item_legible item : item ∈ sqItemPaths request -> legible item.
Proof. intros Hi. by destruct (ls_legible library item Hi). Qed.

Lemma file_legible item ri f : item ∈ sqItemPaths request -> scanItem item = Ok ri -> f ∈ srMediaFiles ri -> legible (filePath f).
Proof. intros Hi Hr Hf. destruct (ls_legible library item Hi) as [_ Hl]. by eapply Hl. Qed.

(** Translated paths of the library are told apart as the paths are. *)
Lemma item_paths_apart item item' p : item ∈ sqItemPaths request -> item' ∈ sqItemPaths request ->
  Path t item = Ok p -> Path t item' = Ok p -> item = item'.
Proof. intros Hi Hi' Hp Hp'. by apply (Path_legible item item' p); try apply item_legible. Qed.

Lemma file_paths_apart item item' ri ri' f f' p : item ∈ sqItemPaths request -> item' ∈ sqItemPaths request ->
  scanItem item = Ok ri -> scanItem item' = Ok ri' -> f ∈ srMediaFiles ri -> f' ∈ srMediaFiles ri' ->
  Path t (filePath f) = Ok p -> Path t (filePath f') = Ok p -> filePath f = filePath f'.
Proof.
  intros Hi Hi' Hr Hr' Hf Hf' Hp Hp'. apply (Path_legible _ _ p); [done|by eapply (file_legible item ri)|by eapply (file_legible item' ri')|done|done].
Qed.

Lemma file_not_item item item' ri f p : item ∈ sqItemPaths request -> item' ∈ sqItemPaths request -> scanItem item = Ok ri -> f ∈ srMediaFiles ri ->
  Path t (filePath f) = Ok p -> Path t item' <> Ok p.
Proof.
  intros Hi Hi' Hr Hf Hp Hp'. apply (ls_below library item item' ri f Hi Hi' Hr Hf).
  apply (Path_legible _ _ p); [done|by eapply (file_legible item ri)|by apply item_legible|done|done].
Qed.

Lemma translated_scan_results : scan_results results.
Proof.
  assert (forall r, r ∈ results -> exists item ri, part_of item ri r) as Hpart by (intros r; apply result_part).
  assert (forall r r' d f, r ∈ results -> r' ∈ results -> srDirectory r = Some d -> f ∈ srMediaFiles r' -> filePath f <> dirPath d) as Hapart.
  { intros r r' d f Hr Hr' Hd Hf He. destruct (Hpart r Hr) as (item & ri & Hp), (Hpart r' Hr') as (item' & ri' & Hp').
    destruct (part_directory _ _ _ _ Hp Hd) as (Hpd & _), (part_file _ _ _ _ Hp' Hf) as (f0 & Hf0 & _ & Hpf & _).
    destruct Hp as [[Hi _] _ _], Hp' as [[Hi' Hri'] _ _]. rewrite <- He in Hpd. by eapply (file_not_item item' item ri' f0). }
  constructor.
  - intros r Hr. destruct (Hpart r Hr) as (item & ri & Hp). constructor.
    + intros d Hd. destruct (part_directory _ _ _ _ Hp Hd) as (Hpd & Hty & _). split; [by eapply Path_nonempty|done].
    + intros f Hf. destruct (part_file _ _ _ _ Hp Hf) as (f0 & _ & _ & Hpf & _). by eapply Path_nonempty.
    + intros d f. by apply Hapart.
    + intros f g Hf Hg He. destruct (part_file _ _ _ _ Hp Hf) as (_ & _ & _ & _ & Hfd), (part_file _ _ _ _ Hp Hg) as (g0 & Hg0 & _ & Hpg & _).
      destruct Hp as [[Hi Hri] _ _]. rewrite <- He in Hfd. by eapply (file_not_item item item ri g0).
  - intros r r' d d' Hr Hr' Hd Hd' He. destruct (Hpart r Hr) as (item & ri & Hp), (Hpart r' Hr') as (item' & ri' & Hp').
    destruct (part_directory _ _ _ _ Hp Hd) as (Hpd & _ & d0 & Hd0 & Htr), (part_directory _ _ _ _ Hp' Hd') as (Hpd' & _ & d0' & Hd0' & Htr').
    destruct Hp as [[Hi Hri] _ _], Hp' as [[Hi' Hri'] _ _]. rewrite He in Hpd. assert (item = item') as <- by by eapply item_paths_apart.
    assert (d0' = d0) as -> by congruence. by eapply directory_translated_fun.
  - intros r r' f f' Hr Hr' Hf Hf' He. destruct (Hpart r Hr) as (item & ri & Hp), (Hpart r' Hr') as (item' & ri' & Hp').
    destruct (part_file _ _ _ _ Hp Hf) as (f0 & Hf0 & Htr & Hpf & _), (part_file _ _ _ _ Hp' Hf') as (f0' & Hf0' & Htr' & Hpf' & _).
    destruct Hp as [[Hi Hri] _ _], Hp' as [[Hi' Hri'] _ _]. rewrite He in Hpf.
    assert (filePath f0 = filePath f0') as Hpath by by eapply (file_paths_apart item item' ri ri').
    assert (item = item') as <- by by eapply (ls_apart library item item' ri ri' f0 f0'). assert (ri' = ri) as -> by congruence.
    assert (f0 = f0') as <-; [|by eapply file_translated_fun].
    apply list_elem_of_lookup in Hf0 as [i Hi0], Hf0' as [j Hj0]. pose proof (si_distinct _ _ (ls_item library item ri Hi Hri)) as Hnd.
    assert (i = j) as <-; [|congruence]. apply (NoDup_lookup _ _ _ (filePath f0) Hnd); rewrite list_lookup_fmap; [by rewrite Hi0|rewrite Hj0; cbn; congruence].
  - done.
  - intros r f g Hr Hf Hg. destruct (Hpart r Hr) as (item & ri & Hp).
    destruct (part_file _ _ _ _ Hp Hf) as (_ & _ & _ & _ & Hfd), (part_file _ _ _ _ Hp Hg) as (_ & _ & _ & _ & Hgd). congruence.
  - intros before r after f Hsplit Hf. destruct (result_origin before r after Hsplit) as (item & ri & Hp & Hdir).
    destruct (part_file _ _ _ _ Hp Hf) as (f0 & Hf0 & _ & _ & Hfd). pose proof Hp as [[Hi Hri] _ _].
    destruct (si_directory _ _ (ls_item library item ri Hi Hri)) as (d0 & Hd0 & Hitem & _). destruct Hdir as (r' & d & d0' & Hr' & Hd & Hd0' & Htr); [by rewrite Hd0|].
    exists r', d. split_and!; [done|done|]. destruct Htr as (Hpd & _). assert (d0' = d0) as -> by congruence. unfold translated in Hpd. congruence.
  - intros r d f Hr Hd Hf. destruct (Hpart r Hr) as (item & ri & Hp).
    destruct (part_directory _ _ _ _ Hp Hd) as (Hpd & _), (part_file _ _ _ _ Hp Hf) as (_ & _ & _ & _ & Hfd). congruence.
Qed.

Lemma translated_fresh : fresh_results (sqStartedAt request) results.
Proof.
  intros r Hr. destruct (result_part r Hr) as (item & ri & Hp). pose proof Hp as [[Hi Hri] _ _]. destruct (ls_fresh library item ri Hi Hri) as [Hd Hf]. split.
  - intros d Hrd. destruct (part_directory _ _ _ _ Hp Hrd) as (_ & _ & d0 & Hd0 & _ & _ & ->). by apply Hd.
  - intros f Hrf. destruct (part_file _ _ _ _ Hp Hrf) as (f0 & Hf0 & (_ & _ & _ & ->) & _). by apply Hf.
Qed.

(** Every record of an item whose messages are all there is among the results. *)
Lemma sent_whole item ri : item ∈ sqItemPaths request -> scanItem item = Ok ri ->
  (forall m, m ∈ outgoing slug request ri -> exists payload, ResultEntry item m payload ∈ entries) ->
  (forall d0, srDirectory ri = Some d0 -> exists r d, r ∈ results /\ srDirectory r = Some d /\ directory_translated t d0 d) /\
  (forall f0, f0 ∈ srMediaFiles ri -> exists r f, r ∈ results /\ f ∈ srMediaFiles r /\ file_translated t f0 f).
Proof.
  intros Hi Hri Hall. destruct (outgoing_carries slug request ri) as [Hfirst Hlater Hfiles _].
  assert (forall m, m ∈ outgoing slug request ri -> (forall f, f ∈ sentFiles m -> f ∈ srMediaFiles ri) /\
    (sentDirectory m = srDirectory ri \/ sentDirectory m = None)) as Hout.
  { intros m Hm. split.
    - intros f Hf. rewrite <- Hfiles. apply list_elem_of_In, in_concat. exists (sentFiles m). split; [apply in_map|]; by apply list_elem_of_In.
    - apply list_elem_of_lookup in Hm as [[|i] Hm]; [left; by apply Hfirst|right; by eapply Hlater]. }
  assert (forall m, m ∈ outgoing slug request ri -> exists r payload, r ∈ results /\
    exists r0, messageOf (ResultEntry item m payload) = Some r0 /\ Result t (Some r0) = (Some r, Ok tt)) as Hres.
  { intros m (payload & Hp)%Hall. apply list_elem_of_lookup in Hp as [i Hp]. destruct (Forall2_lookup_l _ _ _ _ _ translates Hp) as (r & Hr & Htr).
    exists r, payload. split; [by eapply list_elem_of_lookup_2|done]. }
  split.
  - intros d0 Hd0. pose proof (outgoing_nonempty slug request ri) as Hne. destruct (outgoing slug request ri) as [|m ms]; [done|].
    destruct (Hout m ltac:(by left)) as [Hf Hd], (Hres m ltac:(by left)) as (r & payload & Hr & Htr).
    destruct (part_of_entry item m payload ri r Hi Hri Hf Hd Htr) as (_ & Hown & _).
    destruct (Hown (Hfirst m eq_refl) d0 Hd0) as (d & Hrd & Hdt). eauto.
  - intros f0 Hf0. rewrite <- Hfiles in Hf0. apply list_elem_of_In, in_concat in Hf0 as (fs & Hfs & Hin). apply in_map_iff in Hfs as (m & <- & Hm).
    apply list_elem_of_In in Hm, Hin. destruct (Hout m Hm) as [Hf Hd], (Hres m Hm) as (r & payload & Hr & Htr).
    destruct (part_of_entry item m payload ri r Hi Hri Hf Hd Htr) as (_ & _ & Hfile). destruct (Hfile f0 Hin) as (f & Hrf & Hft). eauto.
Qed.
End order.

Lemma completion_is s entries m payload failure : NoDup (sqItemPaths request) -> rtc (scanning slug request scanItem) (started request) s ->
  ruLog s = entries ++ CompleteEntry m payload :: failure ->
  encodeComplete m = Ok payload /\ cmScanID m = cmdScanID (sqCommand request) /\ cmAgentSlug m = slug /\ cmScannerSlug m = cmdScannerSlug (sqCommand request) /\
  cmScanRootPath m = sqScanRootPath request /\ cmStartedAt m = sqStartedAt request.
Proof.
  intros Hnd Hrun Hlog. pose proof (run_reachable_ok slug request scanItem s Hnd Hrun) as Hok.
  destruct (log_completion _ _ _ s entries m payload failure Hok Hlog) as (_ & _ & _ & fin & -> & He). by split_and!.
Qed.

(** The report of a failure that follows a completion changes nothing. *)
Lemma ingestAll_failure entries m payload failure c : fails slug request failure ->
  ingestAll config (entries ++ CompleteEntry m payload :: failure) c = ingestAll config (entries ++ [CompleteEntry m payload]) c.
Proof.
  intros Hfail. destruct Hfail as [->|(err & p & _ & ->)]; [done|].
  set (e := FailedEntry _ p). replace (entries ++ [CompleteEntry m payload; e]) with ((entries ++ [CompleteEntry m payload]) ++ [e])
    by (by rewrite <- app_assoc). rewrite (ingestAll_snoc config (entries ++ [CompleteEntry m payload]) e).
  by destruct (ingestAll config (entries ++ [CompleteEntry m payload]) c) as [c1 [|]].
Qed.

(** A message of a scan of valid texts is one. *)
Lemma well_sent_text before e item m payload : scan_texts -> well_sent before e -> e = ResultEntry item m payload -> result_text m.
Proof.
  intros [Hreq Hitem] (item' & m' & p' & r & -> & _ & Hi & Hr & [r' Hr'] & Hf & Hid & Ha & Hs & Hroot & Hd) [= -> -> ->].
  unfold texts in Hreq. rewrite !Forall_cons in Hreq. destruct Hreq as (? & ? & ? & ? & _). split.
  - unfold texts. rewrite Hid, Ha, Hs, Hroot. by repeat constructor.
  - destruct (Hitem item r Hi Hr) as [Hdir Hfile]. intros r1 Hr1. rewrite Hr' in Hr1. injection Hr1 as <-. split.
    + intros d Hsd. unfold sentDirectory in Hd. rewrite Hr' in Hd. cbn in Hd. rewrite Hsd in Hd. destruct Hd as [Hd|[Hd _]]; [by apply Hdir|done].
    + intros f Hin. apply Hfile, Hf. unfold sentFiles. by rewrite Hr'.
Qed.

(** What the server receives of such messages is what was sent. *)
Lemma well_sent_received before e : scan_texts -> well_sent before e -> of_scan slug request e /\ received e = messageOf e.
Proof.
  intros Htexts Hsent. pose proof Hsent as (item & m & payload & r & -> & Henc & _ & _ & Hsome & _ & _ & Ha & Hs & Hroot & _).
  pose proof (decode_result m payload (well_sent_text _ _ _ _ _ Htexts Hsent eq_refl) Henc) as Hdec.
  split; [by exists m|]. cbn [received messageOf]. by rewrite Hdec.
Qed.

(** What the store is left with, in terms of the results it was given. *)
Lemma whole_scan s entries m payload failure c c' :
  NoDup (sqItemPaths request) -> library_scan -> scan_texts -> unix_translation -> four_digit_year (sqStartedAt request) -> libraryRoot <> "" ->
  translatorFor config slug (cmdScannerSlug (sqCommand request)) = Ok t -> Path t (sqScanRootPath request) = Ok libraryRoot ->
  rtc (scanning slug request scanItem) (started request) s -> ruLog s = entries ++ CompleteEntry m payload :: failure ->
  all_older libraryRoot (sqStartedAt request) (docs c) -> ingestAll config (ruLog s) c = (c', None) ->
  (forall before e after, entries = before ++ e :: after -> well_sent before e) /\
  exists results, translatedResults t entries results /\ holds libraryRoot results (docs c') /\
    forall p id doc, (forall r, r ∈ results -> p ∉ resultPaths r) ->
      docs c' !! p = Some (id, doc) <-> docs c !! p = Some (id, doc) /\ doc !! "scan_root_path" <> Some (Text libraryRoot).
Proof.
  intros Hnd Hlib Htexts Hunix Hyear Hroot Htfor Hproot Hrun Hlog Hold Hing.
  assert (forall before e after, entries = before ++ e :: after -> well_sent before e) as Hsent by (intros; by eapply entries_well_sent).
  split; [done|]. destruct (completion_is s entries m payload failure Hnd Hrun Hlog) as (Henc & Hid & Ha & Hs & Hr & Hst).
  destruct (log_completion _ _ _ s entries m payload failure (run_reachable_ok slug request scanItem s Hnd Hrun) Hlog) as (_ & Hfail & _).
  rewrite Hlog, ingestAll_failure in Hing by done.
  assert (Forall (fun e => of_scan slug request e /\ received e = messageOf e) entries) as Hof.
  { apply Forall_forall. intros e (before & after & He)%list_elem_of_split. by apply (well_sent_received before), (Hsent _ _ _ He). }
  apply Forall_and in Hof as [Hof Hreceived].
  assert (decodeComplete payload = Ok m) as Hdec.
  { apply decode_complete; [|done]. destruct Htexts as [Hreq _]. unfold texts in Hreq. rewrite !Forall_cons in Hreq. destruct Hreq as (? & ? & ? & ? & _).
    unfold complete_text, texts. rewrite Hid, Ha, Hs, Hr. by repeat constructor. }
  destruct (ingest_replaces config slug request t libraryRoot entries m m payload c c' Htfor Hproot Hof Hdec Ha Hs Hr Hing) as (results & Hrec & Hrep).
  assert (translatedResults t entries results) as Htr.
  { unfold receivedResults, translatedResults, resultsOf in *. clear -Hrec Hreceived. induction Hrec as [|e r l l' He Hl IH]; [constructor|].
    apply Forall_cons in Hreceived as [Heq Hrest]. rewrite Heq in He. constructor; auto. }
  exists results. split; [done|]. rewrite Hst in Hrep. apply (replaces_library libraryRoot results (sqStartedAt request) c c'); try done.
  - by apply (translated_scan_results entries).
  - by apply (translated_fresh entries).
Qed.

(** A record is there because an item has it, or because it is of another library. *)
Lemma stored_origin entries results c c' p id doc :
  (forall before e after, entries = before ++ e :: after -> well_sent before e) -> translatedResults t entries results -> library_scan ->
  (forall p id doc, (forall r, r ∈ results -> p ∉ resultPaths r) ->
    docs c' !! p = Some (id, doc) <-> docs c !! p = Some (id, doc) /\ doc !! "scan_root_path" <> Some (Text libraryRoot)) ->
  docs c' !! p = Some (id, doc) ->
  (exists item r, item ∈ sqItemPaths request /\ scanItem item = Ok r /\
    (Path t item = Ok p \/ exists f, f ∈ srMediaFiles r /\ Path t (filePath f) = Ok p)) \/
  (docs c !! p = Some (id, doc) /\ doc !! "scan_root_path" <> Some (Text libraryRoot)).
Proof.
  intros Hsent Htr Hlib Hrest Hp. destruct (decide (Exists (fun r => p ∈ resultPaths r) results)) as [Hex|Hno]; cycle 1.
  { right. apply (Hrest p id doc); [|done]. intros r Hr' Hpr. apply Hno, Exists_exists. eauto. }
  left. apply Exists_exists in Hex as (r & Hr' & Hpr). destruct (result_part entries results Hsent Htr r Hr') as (item & ri & Hpart). exists item, ri.
  destruct (po_item _ _ _ Hpart) as [Hi Hri]. split_and!; [done..|]. apply elem_of_resultPaths in Hpr as [(d & Hd & ->)|(f & Hf & ->)].
  - left. by eapply (part_directory Hlib item ri r d).
  - right. destruct (part_file Hlib item ri r f Hpart Hf) as (f0 & Hf0 & _ & Hpf & _). eauto.
Qed.

(** C7: A whole scan, from the goroutines that walk the library to the sweep.
    Of a library of a Unix agent whose paths and texts are valid UTF-8
    ([scan_texts]), whose paths are cleaned and without backslashes
    ([library_scan]) and whose records were all stored before the scan began by
    the server's clock ([all_older]): however the goroutines interleave and
    whatever is split into parts, when the server has handled the stream of a
    completed scan, every record of every item that was sent whole is stored
    under its translated path, linked to its directory; the library holds
    nothing else, and the documents of other libraries are as they were. *)
Theorem scan_stored s entries m payload failure c c' :
  NoDup (sqItemPaths request) -> library_scan -> scan_texts -> unix_translation -> four_digit_year (sqStartedAt request) -> libraryRoot <> "" ->
  translatorFor config slug (cmdScannerSlug (sqCommand request)) = Ok t -> Path t (sqScanRootPath request) = Ok libraryRoot ->
  rtc (scanning slug request scanItem) (started request) s -> ruLog s = entries ++ CompleteEntry m payload :: failure ->
  all_older libraryRoot (sqStartedAt request) (docs c) -> ingestAll config (ruLog s) c = (c', None) ->
  (forall item r, item ∈ sqItemPaths request -> scanItem item = Ok r -> itemLog item (ruLog s) = outgoing slug request r ->
    (forall d, srDirectory r = Some d -> exists d' id, directory_translated t d d' /\ docs c' !! dirPath d' = Some (id, directoryDocument libraryRoot d')) /\
    (forall f, f ∈ srMediaFiles r -> exists f' id directoryID dd, file_translated t f f' /\
      docs c' !! filePath f' = Some (id, fileDocument libraryRoot directoryID f') /\ docs c' !! fileDirectoryPath f' = Some (directoryID, dd))) /\
  (forall p id doc, docs c' !! p = Some (id, doc) ->
    (exists item r, item ∈ sqItemPaths request /\ scanItem item = Ok r /\
      (Path t item = Ok p \/ exists f, f ∈ srMediaFiles r /\ Path t (filePath f) = Ok p)) \/
    (docs c !! p = Some (id, doc) /\ doc !! "scan_root_path" <> Some (Text libraryRoot))).
Proof.
  intros Hnd Hlib Htexts Hunix Hyear Hroot Htfor Hproot Hrun Hlog Hold Hing.
  destruct (whole_scan s entries m payload failure c c') as (Hsent & results & Htr & Hholds & Hrest); [done..|]. split.
  - intros item r Hi Hri Hall. destruct (sent_whole entries results Htr item r Hi Hri) as [Hdirs Hfiles].
    { intros m0 Hm0. rewrite <- Hall in Hm0. apply elem_of_itemLog in Hm0 as [p0 Hp0]. rewrite Hlog in Hp0.
      apply elem_of_app in Hp0 as [Hp0|[|Hp0]%elem_of_cons]; [eauto|done|].
      destruct (log_completion _ _ _ s entries m payload failure (run_reachable_ok slug request scanItem s Hnd Hrun) Hlog) as (_ & Hfail & _).
      destruct Hfail as [->|(err & p1 & _ & ->)]; [by apply elem_of_nil in Hp0|by apply list_elem_of_singleton in Hp0]. }
    split.
    + intros d Hd. destruct (Hdirs d Hd) as (r' & d' & Hr' & Hd' & Ht). exists d'. destruct (holds_directory _ _ _ Hholds r' d' Hr' Hd') as [id Hid]. eauto.
    + intros f Hf. destruct (Hfiles f Hf) as (r' & f' & Hr' & Hf' & Ht). exists f'.
      destruct (holds_file _ _ _ Hholds r' f' Hr' Hf') as (id & did & dd & ? & ? & _). eauto 10.
  - intros p id doc. by apply (stored_origin entries results).
Qed.

(** An item that cannot be read is only logged by the agent, which goes on to
    report the scan complete; the sweep this sets off then deletes what the
    library held of that item, although the item is still there. *)
Theorem failed_item_swept s entries m payload failure c c' item err p id doc :
  NoDup (sqItemPaths request) -> library_scan -> scan_texts -> unix_translation -> four_digit_year (sqStartedAt request) -> libraryRoot <> "" ->
  translatorFor config slug (cmdScannerSlug (sqCommand request)) = Ok t -> Path t (sqScanRootPath request) = Ok libraryRoot ->
  rtc (scanning slug request scanItem) (started request) s -> ruLog s = entries ++ CompleteEntry m payload :: failure ->
  all_older libraryRoot (sqStartedAt request) (docs c) -> ingestAll config (ruLog s) c = (c', None) ->
  item ∈ sqItemPaths request -> scanItem item = Err err -> Path t item = Ok p ->
  docs c !! p = Some (id, doc) -> doc !! "scan_root_path" = Some (Text libraryRoot) -> docs c' !! p = None.
Proof.
  intros Hnd Hlib Htexts Hunix Hyear Hroot Htfor Hproot Hrun Hlog Hold Hing Hi Herr Hp Hdoc Hin.
  destruct (whole_scan s entries m payload failure c c') as (Hsent & results & Htr & _ & Hrest); [done..|].
  destruct (docs c' !! p) as [[id' doc']|] eqn:Hp'; [|done]. exfalso.
  destruct (stored_origin entries results c c' p id' doc' Hsent Htr Hlib Hrest Hp') as [(item' & r & Hi' & Hr & [Hpi|(f & Hf & Hpf)])|[Hd Hr]].
  - assert (item = item') as -> by by eapply item_paths_apart. congruence.
  - by eapply (file_not_item Hlib Hunix item' item r f).
  - congruence.
Qed.
End whole.
