(* ===== verification/LibrarySamples.v ===== *)
(** A library small enough to run: an encoding of records and messages, a
    collection that never fails, and a scan of two items, one of which cannot be
    read. The classes of Stored, LocalDirectory and ScanSend are implemented
    here, so the theorems about a whole scan hold of something. *)
From stdpp Require Import strings list gmap countable.
From Stdlib Require Import Ascii ZArith Lia.
From coqutil Require Import Datatypes.RecordSetters.
Import DoubleBraceUpdate.
From S2P Require Import Prelude Runes Sidecar ScanModel Dates GoPath Paths Topics Bus StoredTime Stored LocalDirectory AppConfig ScanSend Ingest.
#[local] Open Scope go_scope.

(** * An encoding *)

(** Strings one after the other, each character and each end marked. *)
Fixpoint frameOne (s rest : string) : string :=
  match s with EmptyString => String "/" rest | String c s => String "." (String c (frameOne s rest)) end.
Definition frame (l : list string) : string := foldr frameOne "" l.

Fixpoint unframe (s : string) : option (list string) :=
  match s with
  | EmptyString => Some []
  | String mark rest =>
      if Ascii.eqb mark "/" then cons "" <$> unframe rest
      else match rest with
           | String c rest => match unframe rest with Some (x :: l) => Some (String c x :: l) | _ => None end
           | EmptyString => None
           end
  end.

Lemma unframe_frame l : unframe (frame l) = Some l.
Proof.
  induction l as [|s l IH]; [done|]. cbn [frame foldr]. change (foldr frameOne "" l) with (frame l).
  induction s as [|c s IHs]; cbn; [by rewrite IH|by rewrite IHs].
Qed.

Fixpoint bits (p : positive) : string :=
  match p with xH => "" | xO p => String "0" (bits p) | xI p => String "1" (bits p) end.
Fixpoint unbits (s : string) : positive :=
  match s with EmptyString => xH | String c s => if Ascii.eqb c "0" then xO (unbits s) else xI (unbits s) end.

Definition number {A} `{Countable A} (n : A) : string := bits (encode n).
Definition unnumber {A} `{Countable A} (s : string) : option A := decode (unbits s).

Lemma unnumber_number {A} `{Countable A} (n : A) : unnumber (number n) = Some n.
Proof.
  unfold unnumber, number. rewrite <- (decode_encode n). f_equal. induction (encode n); cbn; by rewrite ?IHp.
Qed.

Fixpoint pairs (l : list string) : option (list (string * string)) :=
  match l with
  | [] => Some []
  | key :: text :: l => cons (key, text) <$> pairs l
  | _ => None
  end.
Definition unpairs (l : list (string * string)) : list string := concat (map (fun entry => [entry.1; entry.2]) l).

Definition pack (l : list (string * string)) : string := frame (unpairs l).
Definition unpack (s : string) : result (list (string * string)) :=
  match unframe s ≫= pairs with Some l => Ok l | None => Err "malformed" end.

Lemma unpack_pack l : unpack (pack l) = Ok l.
Proof.
  unfold unpack, pack. rewrite unframe_frame. cbn. assert (pairs (unpairs l) = Some l) as ->; [|done].
  induction l as [|[k x] l IH]; [done|]. unfold unpairs in *. cbn. by rewrite IH.
Qed.

(** * Records *)

(** A directory's record type and time of scanning; a file's time and size. *)
Notation D := (string * Z)%type.
Notation F := (Z * Z)%type.

#[export] Instance sampleFields : RecordFields D F := {| dirRecordType := fst; dirScannedAt := snd; fileScannedAt := fst |}.

Notation size_key := "size_bytes".

#[export] Instance sampleDescriptors : Descriptors := {|
  descriptor := unit;
  ByName := fun _ key => Some {| fdKind := if String.eqb key size_key then Int64Kind else OtherKind; fdIsList := false; fdMessage := tt |};
|}.

#[export] Instance sampleExtJSON : ExtJSON := fun s =>
  match unpack s with
  | Ok fields => Ok (list_to_map (map (fun entry => (entry.1, Text entry.2)) fields))
  | Err err => Err err
  end.

(** A field that is left out when it is empty. The times are there twice, as
    the store compares them and as numbers that are easily read back. *)
Definition present (key s : string) : list (string * string) := if String.eqb s "" then [] else [(key, s)].

Definition directoryFields (d : Directory D) : list (string * string) :=
  present "path" (dirPath d) ++ present "scan_root_path" (dirScanRootPath d) ++ present "record_type" (dirOther d).1 ++
  [("scanned_at", protojsonTime 9 (dirOther d).2); ("scanned_nanos", number (dirOther d).2)].

Definition fileFields (f : StoredFile F) : list (string * string) :=
  present "path" (filePath (sfFile f)) ++ present "scan_root_path" (fileScanRootPath (sfFile f)) ++
  present "directory_path" (fileDirectoryPath (sfFile f)) ++ present "directory_id" (sfDirectoryId f) ++
  [("record_type", RecordTypeMediaFile); ("scanned_at", protojsonTime 9 (fileOther (sfFile f)).1); ("scanned_nanos", number (fileOther (sfFile f)).1)].

#[export] Instance directoryForm : StoredForm (Directory D) := {|
  MarshalStored := fun d => Ok (pack (directoryFields d)); Descriptor := tt |}.

#[export] Instance fileForm : StoredForm (StoredFile F) := {|
  MarshalStored := fun f =>
    let size := (fileOther (sfFile f)).2 in
    if GoText.fits_int size then Ok (pack (fileFields f ++ [(size_key, show_Z size)])) else Err "size out of range";
  Descriptor := tt |}.

Definition asText (entry : string * string) : string * value := (entry.1, Text entry.2).

Lemma renders_map (l : list (string * value)) (l' : list (string * string)) :
  Forall2 (fun v q => renders_field (tt : descriptor) v (asText q)) l l' ->
  rendersDocument (tt : descriptor) (list_to_map l) (list_to_map (map asText l')).
Proof.
  induction 1 as [|[k v] [k' q] l l' Hr Hl IH]; intros key; cbn; [by rewrite lookup_empty|].
  assert (k = k') as -> by by inversion Hr. destruct (decide (key = k')) as [->|Hne]; [by rewrite !lookup_insert_eq|].
  rewrite !lookup_insert_ne by done. apply IH.
Qed.

Lemma renders_texts l : (forall s, (size_key, s) ∉ l) -> Forall2 (fun v q => renders_field (tt : descriptor) v (asText q)) (map asText l) l.
Proof.
  induction l as [|[k s] l IH]; intros Hno; constructor; [|apply IH; intros x Hx; apply (Hno x); by right].
  eapply renders_known; [done|done|]. cbn. destruct (String.eqb_spec k size_key) as [->|]; [destruct (Hno s); by left|by apply renders_scalar].
Qed.

#[export] Instance directoryLaw : StoredFormLaw (Directory D).
Proof.
  refine {| fieldsOf := fun d => list_to_map (map asText (directoryFields d)) |}.
  intros d s [= <-]. eexists. split; [unfold UnmarshalExtJSON, sampleExtJSON; by rewrite unpack_pack|].
  apply renders_map, renders_texts. intros x. unfold directoryFields, present. repeat destruct (String.eqb _ _); set_solver.
Defined.

#[export] Instance fileLaw : StoredFormLaw (StoredFile F).
Proof.
  refine {| fieldsOf := fun f => list_to_map (map asText (fileFields f) ++ [(size_key, Number (fileOther (sfFile f)).2)]) |}.
  intros f s. cbn. destruct (GoText.fits_int _) eqn:Hfits; [|done]. intros [= <-].
  eexists. split; [unfold UnmarshalExtJSON, sampleExtJSON; by rewrite unpack_pack|].
  apply (renders_map _ (fileFields f ++ [(size_key, show_Z (fileOther (sfFile f)).2)])). apply Forall2_app.
  - apply renders_texts. intros x. unfold fileFields, present. repeat destruct (String.eqb _ _); set_solver.
  - constructor; [|done]. eapply renders_known; [done|done|]. by apply renders_number.
Defined.

(** * A collection in memory *)

(** Ids are positive numbers; zero is the nil id. *)
Notation memory := (gmap string (nat * document)).

Definition memoryDocs (c : memory) : gmap string (nat * document) := prod_map S id <$> c.
Definition maxID (c : memory) : nat := map_fold (fun _ e n => Nat.max (S e.1) n) 0%nat c.

Definition replaceOne (c : memory) (w : string * document) : memory :=
  <[w.1 := (match c !! w.1 with Some (n, _) => n | None => maxID c end, w.2)]> c.

#[export] Instance memoryCollection : LocalCollection := {|
  collection := memory;
  ObjectID := nat;
  NilObjectID := 0%nat;
  Hex := fun n => show_Z (Z.of_nat n);
  docs := memoryDocs;
  FindOneAndReplace := fun p d c => (replaceOne c (p, d), Ok (S (match c !! p with Some (n, _) => n | None => maxID c end)));
  BulkWrite := fun ws c => (foldl replaceOne c ws, None);
  FindOne := fun p recordType c =>
    (c, Ok (match c !! p with
            | Some (n, d) => match d !! "record_type" with Some (Text s) => if String.eqb s recordType then Some (S n) else None | _ => None end
            | None => None
            end));
  DeleteMany := fun p c => (filter (fun e => p e.2.2 = false) c, None);
|}.

Lemma maxID_bound (c : memory) p n d : c !! p = Some (n, d) -> (n < maxID c)%nat.
Proof.
  unfold maxID. revert p n d. apply (map_fold_weak_ind (fun r (m : memory) => forall p n d, m !! p = Some (n, d) -> (n < r)%nat)).
  - intros p n d Hl. by rewrite lookup_empty in Hl.
  - intros q [k e] m r _ IH p n d. destruct (decide (q = p)) as [->|Hne].
    + rewrite lookup_insert_eq. intros [= -> ->]. cbn. lia.
    + rewrite lookup_insert_ne by done. intros Hl%IH. lia.
Qed.

Lemma lookup_memoryDocs (c : memory) p id d : memoryDocs c !! p = Some (id, d) <-> exists n, id = S n /\ c !! p = Some (n, d).
Proof. unfold memoryDocs. rewrite lookup_fmap. destruct (c !! p) as [[n e]|]; cbn; naive_solver. Qed.

Lemma replaceOne_replaced (c : memory) p d : replaced [(p, d)] (docs c) (docs (replaceOne c (p, d))).
Proof.
  intros q. cbn [docs memoryCollection fmap list_fmap fst]. case_bool_decide as Hq.
  - apply list_elem_of_singleton in Hq as ->. eexists (S _), d. split; [by left|]. split.
    + apply lookup_memoryDocs. eexists. split; [done|]. unfold replaceOne. cbn. by rewrite lookup_insert_eq.
    + split; [done|]. unfold docs. cbn. destruct (c !! p) as [[n e]|] eqn:Hp.
      * unfold memoryDocs. rewrite lookup_fmap, Hp. done.
      * assert (memoryDocs c !! p = None) as -> by (unfold memoryDocs; by rewrite lookup_fmap, Hp).
        intros q id e (m & -> & Hm%maxID_bound)%lookup_memoryDocs. lia.
  - unfold memoryDocs. rewrite !lookup_fmap. unfold replaceOne. cbn. by rewrite lookup_insert_ne by (intros ->; apply Hq; by left).
Qed.

#[export] Instance memoryLaws : LocalCollectionLaws.
Proof.
  constructor.
  - intros c p id d (n & -> & _)%lookup_memoryDocs. done.
  - intros p d c c' id _ [= <- <-]. split; [apply replaceOne_replaced|]. apply lookup_memoryDocs. eexists. split; [done|]. unfold replaceOne. cbn. by rewrite lookup_insert_eq.
  - done.
  - intros ws c c' _ [= <-]. revert c. induction ws as [|[p d] ws IH]; intros c; [apply replaced_nil|].
    change ((p, d) :: ws) with ([(p, d)] ++ ws). eapply replaced_app; [apply replaceOne_replaced|apply IH].
  - done.
  - done.
  - intros p recordType c c' id. cbn. intros [= <- Hf]. destruct ((c : memory) !! p) as [[n d]|] eqn:Hp; [|done]. destruct (d !! "record_type") as [[]|] eqn:Hd; try done.
    destruct (String.eqb_spec s recordType) as [->|]; [|done]. injection Hf as <-. exists d. split; [|done]. apply lookup_memoryDocs. eauto.
  - intros p recordType c c'. cbn. intros [= <- Hf] id d (n & -> & Hp)%lookup_memoryDocs Hd. rewrite Hp, Hd, String.eqb_refl in Hf. done.
  - intros p c c' [= <-]. apply map_eq. intros q. apply option_eq. intros [id d]. rewrite lookup_survivors. cbn [docs memoryCollection].
    rewrite !lookup_memoryDocs. setoid_rewrite map_lookup_filter_Some. naive_solver.
  - done.
Qed.

#[export] Instance sampleLaw : RecordFieldsLaw D F.
Proof.
  assert (forall t, scannedAtField (Some (Text (protojsonTime 9 t))) t) as Ht.
  { intros t. exists 9%nat. split_and!; [done|lia|]. apply Z.mod_1_r. }
  constructor; intros d; unfold fieldsOf; cbn; unfold directoryFields, fileFields, textField, present;
    repeat destruct (String.eqb _ _); cbn; simplify_map_eq; done || apply Ht.
Qed.

(** * Messages *)

Definition packFile (f : MediaFile F) : list string :=
  [filePath f; fileDirectoryPath f; fileScanRootPath f; number (fileOther f).1; number (fileOther f).2].

Fixpoint unpackFiles (l : list string) : option (list (MediaFile F)) :=
  match l with
  | [] => Some []
  | path :: directoryPath :: root :: t :: n :: l =>
      t ← unnumber t; n ← unnumber n;
      cons {| filePath := path; fileDirectoryPath := directoryPath; fileScanRootPath := root; fileOther := (t, n) |} <$> unpackFiles l
  | _ => None
  end.

Definition packDirectory (d : option (Directory D)) : list string :=
  match d with
  | Some d => ["directory"; dirPath d; dirScanRootPath d; (dirOther d).1; number (dirOther d).2]
  | None => [""; ""; ""; ""; ""]
  end.

Definition packResult (r : option (Paths.ScanResult D F)) : list string :=
  match r with
  | Some r => "result" :: packDirectory (srDirectory r) ++ concat (map packFile (srMediaFiles r))
  | None => []
  end.

Definition unpackResult (l : list string) : option (option (Paths.ScanResult D F)) :=
  match l with
  | [] => Some None
  | _ :: some :: path :: root :: recordType :: t :: l =>
      files ← unpackFiles l;
      if String.eqb some "" then Some (Some {| srDirectory := None; srMediaFiles := files |})
      else t ← unnumber t;
        Some (Some {| srDirectory := Some {| dirPath := path; dirScanRootPath := root; dirOther := (recordType, t) |}; srMediaFiles := files |})
  | _ => None
  end.

Lemma unpackFiles_pack files : unpackFiles (concat (map packFile files)) = Some files.
Proof. induction files as [|[p d r [t n]] files IH]; [done|]. cbn. by rewrite !unnumber_number, IH. Qed.

Lemma unpackResult_pack r : unpackResult (packResult r) = Some r.
Proof.
  destruct r as [[[[p root [ty t]]|] files]|]; [| |done]; cbn -[concat]; rewrite unpackFiles_pack; cbn; by rewrite ?unnumber_number.
Qed.

Definition decoded {A} (o : option A) : result A := match o with Some a => Ok a | None => Err "malformed" end.

(** Like encoding/json, the wire puts U+FFFD for bytes that are no UTF-8. *)
Definition legibleDirectory (d : Directory D) : Directory D :=
  {| dirPath := to_valid (dirPath d); dirScanRootPath := to_valid (dirScanRootPath d); dirOther := (to_valid (dirOther d).1, (dirOther d).2) |}.

Definition legibleFile (f : MediaFile F) : MediaFile F :=
  {| filePath := to_valid (filePath f); fileDirectoryPath := to_valid (fileDirectoryPath f); fileScanRootPath := to_valid (fileScanRootPath f);
     fileOther := fileOther f |}.

Definition legibleResult (r : Paths.ScanResult D F) : Paths.ScanResult D F :=
  {| srDirectory := legibleDirectory <$> srDirectory r; srMediaFiles := map legibleFile (srMediaFiles r) |}.

Definition legibleMessage (m : ScanResultMessage D F) : ScanResultMessage D F := {|
  rmScanID := to_valid (rmScanID m); rmAgentSlug := to_valid (rmAgentSlug m); rmScannerSlug := to_valid (rmScannerSlug m);
  rmScanRootPath := to_valid (rmScanRootPath m); rmResult := legibleResult <$> rmResult m; rmPartIndex := rmPartIndex m;
  rmPartCount := rmPartCount m; rmScannedAt := rmScannedAt m |}.

#[export] Instance sampleTexts : ScanTexts D F := {| carriedDirectory := fun d => ValidString d.1 = true; carriedFile := fun _ => True |}.

Lemma legible_file f : file_text f -> legibleFile f = f.
Proof.
  intros [Ht _]. unfold texts in Ht. rewrite !Forall_cons in Ht. destruct Ht as (H1' & H2' & H3' & _). unfold legibleFile.
  rewrite !to_valid_id by done. by destruct f.
Qed.

Lemma legible_result r : scan_text r -> legibleResult r = r.
Proof.
  destruct r as [d files]. intros [Hd Hf]. unfold legibleResult. cbn in *. f_equal.
  - destruct d as [d|]; [|done]. destruct (Hd d eq_refl) as [Ht Hty]. unfold texts in Ht. rewrite !Forall_cons in Ht. destruct Ht as (H1' & H2' & _).
    cbn. unfold legibleDirectory. cbn in Hty. rewrite !to_valid_id by done. by destruct d as [? ? [? ?]].
  - induction files as [|f files IH]; [done|]. cbn. rewrite legible_file by (apply Hf; by left). f_equal. apply IH. intros g Hg. apply Hf. by right.
Qed.

Lemma legible_message m : result_text m -> legibleMessage m = m.
Proof.
  intros [Ht Hr]. unfold texts in Ht. rewrite !Forall_cons in Ht. destruct Ht as (H1' & H2' & H3' & H4' & _). unfold legibleMessage.
  rewrite !to_valid_id by done. destruct m as [? ? ? ? [r|] ? ? ?]; [|done]. cbn in *. by rewrite legible_result by by apply Hr.
Qed.

Definition packMessage (m : ScanResultMessage D F) : string :=
  frame (rmScanID m :: rmAgentSlug m :: rmScannerSlug m :: rmScanRootPath m ::
    number (rmPartIndex m) :: number (rmPartCount m) :: number (rmScannedAt m) :: packResult (rmResult m)).

#[export] Instance sampleWire : ScanWire D F := {|
  encodeResult := fun m => Ok (packMessage (legibleMessage m));
  decodeResult := fun s => decoded (l ← unframe s;
    match l with
    | scanID :: agent :: scanner :: root :: index :: count :: t :: l =>
        index ← unnumber index; count ← unnumber count; t ← unnumber t; r ← unpackResult l;
        Some {| rmScanID := scanID; rmAgentSlug := agent; rmScannerSlug := scanner; rmScanRootPath := root; rmResult := r;
                rmPartIndex := index; rmPartCount := count; rmScannedAt := t |}
    | _ => None
    end);
  encodeComplete := fun m => Ok (frame [to_valid (cmScanID m); to_valid (cmAgentSlug m); to_valid (cmScannerSlug m); to_valid (cmScanRootPath m); number (cmItemCount m);
    number (cmStartedAt m); number (cmFinishedAt m)]);
  decodeComplete := fun s => decoded (l ← unframe s;
    match l with
    | [scanID; agent; scanner; root; count; t; t'] =>
        count ← unnumber count; t ← unnumber t; t' ← unnumber t';
        Some {| cmScanID := scanID; cmAgentSlug := agent; cmScannerSlug := scanner; cmScanRootPath := root; cmItemCount := count;
                cmStartedAt := t; cmFinishedAt := t' |}
    | _ => None
    end);
  encodeFailed := fun m => Ok (frame (map to_valid [fmScanID m; fmAgentSlug m; fmScannerSlug m; fmError m]));
  decodeFailed := fun s => decoded (l ← unframe s;
    match l with
    | [scanID; agent; scanner; err] => Some {| fmScanID := scanID; fmAgentSlug := agent; fmScannerSlug := scanner; fmError := err |}
    | _ => None
    end);
|}.

#[export] Instance sampleWireLaws : ScanWireLaws D F.
Proof.
  assert (forall A (a b : A), Ok a = Ok b -> a = b) as Ok_inj by (by intros ? ? ? [= ->]).
  constructor; intros m s Ht <-%Ok_inj; cbn [decodeResult decodeComplete decodeFailed sampleWire].
  - rewrite legible_message by done. destruct m. unfold packMessage. rewrite unframe_frame.
    cbn -[packResult]. rewrite ?unnumber_number. cbn -[packResult]. by rewrite ?unpackResult_pack.
  - unfold complete_text, texts in Ht. rewrite !Forall_cons in Ht. destruct Ht as (H1' & H2' & H3' & H4' & _). rewrite !to_valid_id by done.
    destruct m. rewrite unframe_frame. cbn. by rewrite ?unnumber_number.
  - unfold failed_text, texts in Ht. rewrite !Forall_cons in Ht. destruct Ht as (H1' & H2' & H3' & H4' & _). cbn [map]. rewrite !to_valid_id by done.
    destruct m. by rewrite unframe_frame.
Qed.

(** * A scan of two items, one of which cannot be read *)

Definition now : Z := 1700000000000000000.

Definition sampleConfig : Config := Default {{
  cfDirectoryScanner ::= fun d => d {{ dsScanDirectories := [{| sdScannerSlug := "tv"; sdScanType := "tv"; sdDirectory := "/srv/media" |}] }};
  cfAgents := [{| agSlug := "nas"; agDisplayName := "NAS"; agMappings := [{| amScannerSlug := "tv"; amAgentPath := "/media" |}]; agLogLevel := "info" |}] }}.

Definition sampleTranslator : PathTranslator := NewPathTranslator "/media" "/srv/media".

Definition sampleRequest : scanStreamRequest := {|
  sqCommand := {| cmdScanID := "scan"; cmdScannerSlug := "tv" |}; sqScanRootPath := "/media"; sqDirectoryType := TypeTV;
  sqItemPaths := ["/media/Show"; "/media/Other"]; sqParallelCount := 1; sqStartedAt := now |}.

Definition episode (name : string) : MediaFile F :=
  {| filePath := JoinPath "/media/Show" name; fileDirectoryPath := "/media/Show"; fileScanRootPath := ""; fileOther := (now + 2, 700)%Z |}.

Definition show : Paths.ScanResult D F := {|
  srDirectory := Some {| dirPath := "/media/Show"; dirScanRootPath := ""; dirOther := (RecordTypeTVSeries, now + 1)%Z |};
  srMediaFiles := [episode "one.mkv"; episode "two.mkv"] |}.

Definition sampleScan (item : string) : result (Paths.ScanResult D F) :=
  if String.eqb item "/media/Show" then Ok show else Err "permission denied".

(** What is stored of Other by an earlier scan, and of another library. *)
Definition record (path root : string) (t : Z) : document :=
  {[ "path" := Text path; "scan_root_path" := Text root; "record_type" := Text RecordTypeTVSeries; "scanned_at" := Text (FormatStoredTime t) ]}.

Definition earlier : memory :=
  {[ "/srv/media/Other" := (0%nat, record "/srv/media/Other" "/srv/media" (now - 5)%Z); "/srv/films/Film" := (1%nat, record "/srv/films/Film" "/srv/films" (now - 9)%Z) ]}.

Definition showMessage : ScanResultMessage D F := base "nas" sampleRequest show.
Definition resultPayload (m : ScanResultMessage D F) : string := match encodeResult m with Ok s => s | Err _ => "" end.
Definition doneMessage : ScanCompleteMessage := completeMessage "nas" sampleRequest 1 (now + 3)%Z.
Definition donePayload : string := match encodeComplete doneMessage with Ok s => s | Err _ => "" end.

Definition sampleEntries : list (entry D F) := [ResultEntry "/media/Show" showMessage (resultPayload showMessage)].

Definition sampleRun : scanRun D F := {|
  ruStage := Finished;
  ruPending := [];
  ruThreads := {[ "/media/Show" := Sent; "/media/Other" := Abandoned ]};
  ruLog := sampleEntries ++ [CompleteEntry doneMessage donePayload] |}.

Lemma sample_runs : rtc (scanning "nas" sampleRequest sampleScan) (started sampleRequest) sampleRun.
Proof.
  eapply rtc_l; [by eapply (spawned _ _ _ "/media/Show")|]. eapply rtc_l; [by eapply (spawned _ _ _ "/media/Other")|].
  eapply rtc_l; [eapply (acquired _ _ _ "/media/Show"); [done|vm_compute; lia]|].
  eapply rtc_l; [by eapply (scanned _ _ _ "/media/Show")|].
  eapply rtc_l; [eapply (published _ _ _ "/media/Show" showMessage); [vm_compute; reflexivity|reflexivity]|].
  eapply rtc_l; [eapply (item_sent _ _ _ "/media/Show"); vm_compute; reflexivity|].
  eapply rtc_l; [eapply (acquired _ _ _ "/media/Other"); [done|vm_compute; lia]|].
  eapply rtc_l; [by eapply (unscannable _ _ _ "/media/Other")|].
  eapply rtc_l.
  { apply (streamed _ _ _ (now + 3)%Z); [done|done|].
    apply (bool_decide_unpack (map_Forall (fun _ t => ended t = true) _)). vm_compute. reflexivity. }
  eapply rtc_l; [by eapply (completed _ _ _ (now + 3)%Z)|].
  assert (forall s s' : scanRun D F, s = s' -> rtc (scanning "nas" sampleRequest sampleScan) s s') as Hrefl by (by intros ? ? ->).
  apply Hrefl. vm_compute. reflexivity.
Qed.

Lemma sample_item item r : sampleScan item = Ok r -> item = "/media/Show" /\ r = show.
Proof. unfold sampleScan. destruct (String.eqb_spec item "/media/Show") as [->|]; [|done]. by intros [= <-]. Qed.

Lemma show_file f : f ∈ srMediaFiles show -> f = episode "one.mkv" \/ f = episode "two.mkv".
Proof. cbn. rewrite !elem_of_cons, elem_of_nil. naive_solver. Qed.

Lemma four_digit_decide t : (0 <=? year (civil (t / Second / 86400)))%Z && (year (civil (t / Second / 86400)) <=? 9999)%Z = true -> four_digit_year t.
Proof. unfold four_digit_year. intros [H1' H2']%andb_prop. lia. Qed.

Lemma now_since t : (now <= t)%Z -> (t <= now + 1000)%Z -> scanned_since now t.
Proof.
  intros Hle Hle'. split; [|done]. unfold four_digit_year.
  assert (t / Second / 86400 = now / Second / 86400)%Z as ->; [|vm_compute; by split].
  unfold now, Second in *. Z.to_euclidean_division_equations. lia.
Qed.

Lemma sample_library : library_scan sampleRequest sampleScan.
Proof.
  constructor.
  - intros item r _ [-> ->]%sample_item. constructor.
    + eexists. by split_and!.
    + by intros f [-> | ->]%show_file.
    + vm_compute. repeat constructor; set_solver.
  - intros item item' r r' f f' _ _ [-> ->]%sample_item [-> ->]%sample_item. done.
  - intros item item' r f _ Hi [-> ->]%sample_item Hf He. apply show_file in Hf. cbn in Hi. rewrite !elem_of_cons, elem_of_nil in Hi.
    destruct Hf as [-> | ->], Hi as [-> |[-> |[]]]; vm_compute in He; done.
  - intros item Hi. split.
    + cbn in Hi. rewrite !elem_of_cons, elem_of_nil in Hi. destruct Hi as [-> |[-> |[]]]; by vm_compute.
    + intros r f [-> ->]%sample_item [-> | ->]%show_file; by vm_compute.
  - intros item r _ [-> ->]%sample_item. split; [intros d [= <-]; cbn; apply now_since; lia|].
    intros f [-> | ->]%show_file; cbn; apply now_since; lia.
Qed.

Lemma sample_texts : scan_texts "nas" sampleRequest sampleScan.
Proof.
  constructor; [by repeat constructor|]. intros item r _ [-> ->]%sample_item. split.
  - intros d [= <-]. split; [by repeat constructor|done].
  - intros f [-> | ->]%show_file; (split; [by repeat constructor|done]).
Qed.

(** A name of another encoding does not survive the wire. *)
Example illegible_name :
  let sent := {| filePath := String (ascii_of_nat 233) ".mkv"; fileDirectoryPath := ""; fileScanRootPath := ""; fileOther := (0, 0)%Z |} : MediaFile F in
  let message := showMessage {{ rmResult := Some {| srDirectory := None; srMediaFiles := [sent] |} }} in
  (match encodeResult message with Ok payload => match decodeResult payload with Ok m => map filePath (sentFiles m) | Err _ => [] end | Err _ => [] end)
  = [replacement +:+ ".mkv"].
Proof. by vm_compute. Qed.

Lemma sample_unix : unix_translation sampleTranslator.
Proof. exists "/media", "/srv/media". split_and!; [done|by left|done]. Qed.

Lemma sample_older : all_older "/srv/media" now (docs (earlier : @collection memoryCollection)).
Proof.
  intros p id doc (n & -> & Hp)%lookup_memoryDocs. unfold earlier in Hp.
  assert (doc = record "/srv/media/Other" "/srv/media" (now - 5) \/ doc = record "/srv/films/Film" "/srv/films" (now - 9)) as [-> | ->].
  { apply lookup_insert_Some in Hp as [[_ Hp]|[_ Hp]]; [left|right; apply lookup_singleton_Some in Hp as [_ Hp]].
    - apply (f_equal snd) in Hp. exact (eq_sym Hp).
    - apply (f_equal snd) in Hp. exact (eq_sym Hp). }
  - intros _. exists (now - 5)%Z. split_and!; [by vm_compute|by apply four_digit_decide; vm_compute|lia].
  - by intros Hroot; vm_compute in Hroot.
Qed.

Lemma earlier_other :
  docs (earlier : @collection memoryCollection) !! "/srv/media/Other" = Some (1%nat, record "/srv/media/Other" "/srv/media" (now - 5)%Z).
Proof. apply lookup_memoryDocs. exists 0%nat. split; [done|]. unfold earlier. apply lookup_insert_eq. Qed.

Lemma earlier_film :
  docs (earlier : @collection memoryCollection) !! "/srv/films/Film" = Some (2%nat, record "/srv/films/Film" "/srv/films" (now - 9)%Z).
Proof.
  apply lookup_memoryDocs. exists 1%nat. split; [done|]. unfold earlier. rewrite lookup_insert_ne by done. apply lookup_insert_eq.
Qed.

(** What the store holds once the server has handled the stream. *)
Definition after : memory := (ingestAll sampleConfig (ruLog sampleRun) earlier).1.

Lemma sample_ingested : ingestAll sampleConfig (ruLog sampleRun) earlier = (after, None).
Proof. apply injective_projections; [done|by vm_compute]. Qed.

Lemma scan_stored_witness :
  exists d' id, directory_translated sampleTranslator {| dirPath := "/media/Show"; dirScanRootPath := ""; dirOther := (RecordTypeTVSeries, now + 1)%Z |} d' /\
    docs (after : @collection memoryCollection) !! dirPath d' = Some (id, directoryDocument "/srv/media" d').
Proof.
  destruct (scan_stored sampleConfig "nas" sampleRequest sampleScan sampleTranslator "/srv/media" sampleRun sampleEntries doneMessage donePayload [] (earlier : @collection memoryCollection) (after : @collection memoryCollection))
    as [Hitems _].
  - vm_compute. repeat constructor; set_solver.
  - exact sample_library.
  - exact sample_texts.
  - exact sample_unix.
  - by apply four_digit_decide; vm_compute.
  - done.
  - by vm_compute.
  - by vm_compute.
  - exact sample_runs.
  - reflexivity.
  - exact sample_older.
  - exact sample_ingested.
  - destruct (Hitems "/media/Show" show) as [Hdirs _]; [by left|reflexivity|by vm_compute|]. by apply Hdirs.
Defined.

Lemma failed_item_swept_witness :
  is_Some (docs (earlier : @collection memoryCollection) !! "/srv/media/Other") /\ docs (after : @collection memoryCollection) !! "/srv/media/Other" = None.
Proof.
  split; [exact (mk_is_Some _ _ earlier_other)|].
  apply (failed_item_swept sampleConfig "nas" sampleRequest sampleScan sampleTranslator "/srv/media" sampleRun sampleEntries doneMessage donePayload []
    (earlier : @collection memoryCollection) (after : @collection memoryCollection) "/media/Other" "permission denied" "/srv/media/Other" 1%nat (record "/srv/media/Other" "/srv/media" (now - 5)%Z)).
  - vm_compute. repeat constructor; set_solver.
  - exact sample_library.
  - exact sample_texts.
  - exact sample_unix.
  - by apply four_digit_decide; vm_compute.
  - done.
  - by vm_compute.
  - by vm_compute.
  - exact sample_runs.
  - reflexivity.
  - exact sample_older.
  - exact sample_ingested.
  - right. by left.
  - reflexivity.
  - by vm_compute.
  - exact earlier_other.
  - by vm_compute.
Defined.

Lemma scan_sends_witness : (countThreads holding sampleRun <= 1)%nat /\ itemLog "/media/Show" (ruLog sampleRun) `prefix_of` outgoing "nas" sampleRequest show.
Proof.
  destruct (scan_sends "nas" sampleRequest sampleScan sampleRun) as (Hbound & Hlog & _); [vm_compute; repeat constructor; set_solver|exact sample_runs|].
  split; [exact Hbound|]. exact (Hlog "/media/Show").
Defined.

Lemma scan_ends_witness : sn (scanning "nas" sampleRequest sampleScan) (started sampleRequest).
Proof. apply (scan_ends "nas" sampleRequest sampleScan); [vm_compute; repeat constructor; set_solver|cbn; lia]. Defined.

Lemma ingest_refines_witness : exists results,
  receivedResults sampleTranslator sampleEntries results /\ ReplaceScanResults "/srv/media" results now earlier = (after, None).
Proof.
  apply (ingest_refines sampleConfig "nas" sampleRequest sampleTranslator "/srv/media" sampleEntries doneMessage doneMessage donePayload (earlier : @collection memoryCollection) (after : @collection memoryCollection)).
  - by vm_compute.
  - by vm_compute.
  - constructor; [|constructor]. exists showMessage. split; [by vm_compute|]. split; [by eexists|done].
  - by vm_compute.
  - done.
  - done.
  - done.
  - exact sample_ingested.
Defined.

(** The result as the server stores it. *)
Definition serverShow : Paths.ScanResult D F := default show (Result sampleTranslator (Some show)).1.

Definition serverEpisode (name : string) : MediaFile F :=
  {| filePath := JoinPath "/srv/media/Show" name; fileDirectoryPath := "/srv/media/Show"; fileScanRootPath := ""; fileOther := (now + 2, 700)%Z |}.

Lemma serverShow_file f : f ∈ srMediaFiles serverShow -> f = serverEpisode "one.mkv" \/ f = serverEpisode "two.mkv".
Proof.
  assert (srMediaFiles serverShow = [serverEpisode "one.mkv"; serverEpisode "two.mkv"]) as -> by by vm_compute.
  rewrite !elem_of_cons, elem_of_nil. naive_solver.
Qed.

Lemma show_placed : placed serverShow.
Proof.
  assert (forall d, srDirectory serverShow = Some d -> dirPath d = "/srv/media/Show" /\ dirRecordType (dirOther d) = RecordTypeTVSeries) as Hdir
    by (intros d [= <-]; split; vm_compute; reflexivity).
  constructor.
  - intros d [-> ->]%Hdir. done.
  - by intros f [-> | ->]%serverShow_file.
  - by intros d f [-> _]%Hdir [-> | ->]%serverShow_file.
  - by intros f g [-> | ->]%serverShow_file [-> | ->]%serverShow_file.
Qed.

Definition upserted : @collection memoryCollection := (UpsertScanResult "/srv/media" (Some serverShow) (earlier : @collection memoryCollection)).1.

Lemma UpsertScanResult_spec_witness : exists id,
  replaced (directoryWrites "/srv/media" serverShow ++ fileWrites "/srv/media" id serverShow) (docs (earlier : @collection memoryCollection)) (docs upserted).
Proof.
  destruct (UpsertScanResult_spec "/srv/media" serverShow (earlier : @collection memoryCollection) upserted None) as (id & _ & _ & Hok).
  - exact show_placed.
  - apply injective_projections; [reflexivity|by vm_compute].
  - exists id. exact (proj1 (Hok eq_refl)).
Defined.

Lemma show_results : scan_results [serverShow].
Proof.
  constructor.
  - intros r ->%list_elem_of_singleton. exact show_placed.
  - intros r r' d d' ->%list_elem_of_singleton ->%list_elem_of_singleton. congruence.
  - by intros r r' f f' ->%list_elem_of_singleton ->%list_elem_of_singleton [-> | ->]%serverShow_file [-> | ->]%serverShow_file.
  - intros r r' d f ->%list_elem_of_singleton ->%list_elem_of_singleton. apply show_placed.
  - by intros r f g ->%list_elem_of_singleton [-> | ->]%serverShow_file [-> | ->]%serverShow_file.
  - intros before r after f He Hf. destruct before as [|? [|]]; [|done..]. injection He as <- <-. eexists _, _. split_and!; [by left|reflexivity|].
    by apply serverShow_file in Hf as [-> | ->].
  - by intros r d f ->%list_elem_of_singleton [= <-] [-> | ->]%serverShow_file.
Qed.

Lemma show_fresh : fresh_results now [serverShow].
Proof.
  intros r ->%list_elem_of_singleton. split; [intros d [= <-]; cbn; apply now_since; lia|].
  intros f [-> | ->]%serverShow_file; cbn; apply now_since; lia.
Qed.

Lemma ReplaceScanResults_spec_witness :
  holds "/srv/media" [serverShow] (docs (after : @collection memoryCollection)) /\
  docs (after : @collection memoryCollection) !! "/srv/films/Film" = Some (2%nat, record "/srv/films/Film" "/srv/films" (now - 9)%Z).
Proof.
  destruct (ReplaceScanResults_spec "/srv/media" [serverShow] now (earlier : @collection memoryCollection) (after : @collection memoryCollection)) as [Hholds Hrest].
  - done.
  - by apply four_digit_decide; vm_compute.
  - exact show_results.
  - exact show_fresh.
  - exact sample_older.
  - apply injective_projections; [done|by vm_compute].
  - split; [exact Hholds|]. apply (Hrest "/srv/films/Film" 2%nat).
    + intros r ->%list_elem_of_singleton. apply (bool_decide_unpack (_ ∉ _)). vm_compute. reflexivity.
    + split; [exact earlier_film|]. by intros Hroot; vm_compute in Hroot.
Defined.
