(* ===== verification/ConfigStore.v ===== *)
(** The one path through which the configuration changes:
    src/internal/server/appconfigstore/store.go over mongostore/app_config_repo.go,
    and what follows a change in the process, listeners/config_propagator.go.
    [MutateSync] is a function; requests that call it at the same time are the
    steps of [serving], which interleave wherever the lock lets them. *)
From stdpp Require Import strings list gmap.
From Stdlib Require Import Ascii ZArith Lia.
From coqutil Require Import Datatypes.RecordSetters.
Import DoubleBraceUpdate.
From S2P Require Import Prelude Sidecar Streams AppConfig.
#[local] Open Scope go_scope.

(** * The document *)

(** The collection of the one document, its encoding included. *)
Class ConfigCollection : Type := {
  database : Type;
  (** The document, decoded; [None] when there is none. *)
  FindConfig : database -> database * result (option StoredConfig);
  ReplaceConfig : Config -> database -> database * option string;
  (** What is stored. *)
  storedConfig : database -> option StoredConfig;
}.

Class ConfigCollectionLaws `{ConfigCollection} : Prop := {
  FindConfig_kept db : storedConfig (FindConfig db).1 = storedConfig db;
  FindConfig_Ok db db' d : FindConfig db = (db', Ok d) -> d = storedConfig db;
  ReplaceConfig_Ok c db db' : ReplaceConfig c db = (db', None) -> storedConfig db' = Some (stored c);
  (** A write that fails may have happened. *)
  ReplaceConfig_Err c db db' err : ReplaceConfig c db = (db', Some err) ->
    storedConfig db' = storedConfig db \/ storedConfig db' = Some (stored c);
}.

(** AppConfigRepo.Get and Upsert. *)
Definition Get `{ConfigCollection} (db : database) : database * result Config :=
  match FindConfig db with
  | (db', Ok None) => (db', Ok Default)
  | (db', Ok (Some d)) => (db', Ok (Normalize (Some d)))
  | (db', Err err) => (db', Err err)
  end.

Definition Upsert `{ConfigCollection} (c : Config) (db : database) : database * option string := ReplaceConfig c db.

(** Normalize of a configuration that has every section. *)
Definition renormalize (c : Config) : Config := Normalize (Some (stored c)).
#[global] Arguments renormalize : simpl never.

(** The configuration a read finds. *)
Definition current `{ConfigCollection} (db : database) : Config := Normalize (storedConfig db).

Lemma renormalize_current `{ConfigCollection} db : renormalize (current db) = current db.
Proof. apply Normalize_stored. Qed.

Lemma renormalize_twice c : renormalize (renormalize c) = renormalize c.
Proof. apply Normalize_stored. Qed.

Lemma Get_spec `{ConfigCollectionLaws} db : current (Get db).1 = current db /\ forall db' c, Get db = (db', Ok c) -> c = current db.
Proof.
  pose proof (FindConfig_kept db) as Hk. unfold Get, current in *. destruct (FindConfig db) as [db1 [[d|]|err]] eqn:Hf; cbn in *; rewrite Hk.
  - split; [done|]. intros db' c [= <- <-]. by rewrite <- (FindConfig_Ok _ _ _ Hf).
  - split; [done|]. intros db' c [= <- <-]. by rewrite <- (FindConfig_Ok _ _ _ Hf).
  - by split.
Qed.

(** ** A collection that remembers what it was asked *)

Inductive asked : Type := Found | Replaced.

Definition recording (collection : ConfigCollection) : ConfigCollection := {|
  database := @database collection * list asked;
  FindConfig := fun '(db, log) => let (db', r) := FindConfig db in ((db', log ++ [Found]), r);
  ReplaceConfig := fun c '(db, log) => let (db', r) := ReplaceConfig c db in ((db', log ++ [Replaced]), r);
  storedConfig := fun '(db, _) => storedConfig db;
|}.

#[global] Instance recording_laws collection : @ConfigCollectionLaws collection -> @ConfigCollectionLaws (recording collection).
Proof.
  intros [Hkept Hfind Hreplace Herr]. constructor; cbn.
  - intros [db log]. specialize (Hkept db). by destruct (FindConfig db).
  - intros [db log] db' d. specialize (Hfind db). destruct (FindConfig db) as [db1 r]. intros [= <- ->]. by eapply Hfind.
  - intros c [db log] db'. specialize (Hreplace c db). destruct (ReplaceConfig c db) as [db1 r]. intros [= <- ->]. by apply Hreplace.
  - intros c [db log] db' err. specialize (Herr c db). destruct (ReplaceConfig c db) as [db1 r]. intros [= <- ->]. by eapply Herr.
Qed.

(** Get asks once. *)
Lemma Get_recorded (collection : ConfigCollection) (db : @database collection) log :
  @Get (recording collection) (db, log) = (let (db', r) := Get db in ((db', log ++ [Found]), r)).
Proof. unfold Get. cbn. by destruct (FindConfig db) as [db1 [[d|]|err]]. Qed.

Lemma Get_stored `{ConfigCollectionLaws} db : storedConfig (Get db).1 = storedConfig db.
Proof. pose proof (FindConfig_kept db) as Hk. unfold Get. by destruct (FindConfig db) as [db1 [[d|]|err]]. Qed.

(** * What follows a change *)

Inductive level : Type := LevelInfo | LevelDebug.

Section store.
Context `{Regexp} {Fleet : Type}.
(** [Registry.PublishAll] on what is published to the agents. *)
Variable PublishAll : Config -> Fleet -> Fleet * option string.

(** The parts of the process that follow the configuration. *)
Record runtime : Type := {
  rtLive : Config;
  rtLevel : level;
  rtRegistry : SidecarRegistry;
  rtFleet : Fleet;
}.

Definition PropagateInProcess (c : Config) (rt : runtime) : runtime :=
  let c := renormalize c in {|
    rtLive := c;
    rtLevel := if String.eqb (lcServerLevel (cfLogging c)) LogLevelDebug then LevelDebug else LevelInfo;
    rtRegistry := match NewSidecarRegistry (dsSidecarTypes (cfDirectoryScanner c)) with Ok registry => registry | Err _ => rtRegistry rt end;
    rtFleet := (PublishAll c (rtFleet rt)).1 |}.

(** * The store *)

Context `{ConfigCollection} {E : Type}.
(** An error of the database as an error of the call. *)
Variable storageError : string -> E.

(** What a call answers. *)
Inductive reply (A : Type) : Type := Reply (a : A) | Refused (e : E).
Arguments Reply {A} _.
Arguments Refused {A} _.

Definition Read (db : database) : database * reply Config :=
  match Get db with
  | (db', Ok c) => (db', Reply (renormalize c))
  | (db', Err err) => (db', Refused (storageError err))
  end.

Definition MutateSync {A} (apply : Config -> reply (Config * A)) (st : database * runtime) : (database * runtime) * reply A :=
  match Get st.1 with
  | (db, Err err) => ((db, st.2), Refused (storageError err))
  | (db, Ok c) =>
      match apply (renormalize c) with
      | Refused e => ((db, st.2), Refused e)
      | Reply (c', a) =>
          match Upsert c' db with
          | (db', Some err) => ((db', st.2), Refused (storageError err))
          | (db', None) => ((db', PropagateInProcess c' st.2), Reply a)
          end
      end
  end.

(** [apply] leaves a configuration, says whether it changed, and sets what its
    closure captured, [R]; it acts on the process too, [W]. *)
Definition Bootstrap {R W} (apply : Config -> W -> W * reply (Config * bool * R)) (db : database) (w : W) : (database * W) * reply (Config * R) :=
  match Get db with
  | (db', Err err) => ((db', w), Refused (storageError err))
  | (db', Ok c) =>
      match apply (renormalize c) w with
      | (w', Refused e) => ((db', w'), Refused e)
      | (w', Reply (c', false, r)) => ((db', w'), Reply (c', r))
      | (w', Reply (c', true, r)) =>
          match Upsert c' db' with
          | (db'', Some err) => ((db'', w'), Refused (storageError err))
          | (db'', None) => ((db'', w'), Reply (c', r))
          end
      end
  end.

(** ** One call *)

Section one.
Context `{!ConfigCollectionLaws}.

(** What a change makes of the configuration, when it lands. *)
Definition applied {A} (apply : Config -> reply (Config * A)) (c : Config) : Config :=
  match apply c with Reply (c', _) => renormalize c' | Refused _ => c end.

(** A call changes nothing and is refused, lands without being acknowledged, or
    lands, is acknowledged and is live. *)
Lemma MutateSync_cases {A} (apply : Config -> reply (Config * A)) db rt db' rt' r : MutateSync apply (db, rt) = ((db', rt'), r) ->
  match r with
  | Refused _ => rt' = rt /\ (current db' = current db \/ current db' = applied apply (current db) /\ exists a, apply (current db) = Reply a)
  | Reply a => current db' = applied apply (current db) /\ rtLive rt' = current db' /\ exists c, apply (current db) = Reply (c, a)
  end.
Proof.
  unfold MutateSync. destruct (Get_spec db) as [Hkept Hok]. cbn [fst snd]. destruct (Get db) as [db1 [c|err]] eqn:Hget; cbn in Hkept; [|by intros [= <- <- <-]; eauto].
  rewrite (Hok _ _ eq_refl), renormalize_current. unfold applied. destruct (apply (current db)) as [[c' a]|e] eqn:Happly; [|by intros [= <- <- <-]; eauto].
  destruct (Upsert c' db1) as [db2 [err|]] eqn:Hup; intros [= <- <- <-].
  - split; [done|]. apply ReplaceConfig_Err in Hup as [Hup|Hup]; unfold current in *; rewrite Hup; [by left|right; eauto].
  - apply ReplaceConfig_Ok in Hup. unfold current. rewrite Hup. cbn. eauto.
Qed.

Lemma Bootstrap_cases {R W} (apply : Config -> W -> W * reply (Config * bool * R)) db w db' w' r : Bootstrap apply db w = ((db', w'), r) ->
  match r with
  | Refused _ => current db' = current db \/ exists c a, apply (current db) w = (w', Reply (c, true, a)) /\ current db' = renormalize c
  | Reply (c, a) => exists changed : bool, apply (current db) w = (w', Reply (c, changed, a)) /\
      if changed then current db' = renormalize c else storedConfig db' = storedConfig db
  end.
Proof.
  unfold Bootstrap. pose proof (FindConfig_kept db) as Hstored. destruct (Get_spec db) as [Hkept Hok].
  assert (storedConfig (Get db).1 = storedConfig db) as Hsame by (unfold Get in *; by destruct (FindConfig db) as [? [[]|]]).
  destruct (Get db) as [db1 [c|err]] eqn:Hget; cbn in Hkept, Hsame; [|by intros [= <- <- <-]; eauto].
  rewrite (Hok _ _ eq_refl), renormalize_current. destruct (apply (current db) w) as [w1 [[[c' []] a]|e]] eqn:Happly; [| |by intros [= <- <- <-]; eauto].
  - destruct (Upsert c' db1) as [db2 [err|]] eqn:Hup; intros [= <- <- <-].
    + apply ReplaceConfig_Err in Hup as [Hup|Hup]; unfold current in *; rewrite Hup; [by left|right; eauto].
    + apply ReplaceConfig_Ok in Hup. exists true. split; [done|]. unfold current. by rewrite Hup.
  - intros [= <- <- <-]. exists false. by split.
Qed.

(** A start that has nothing to change reads once, and that is all. *)
Lemma Bootstrap_unchanged {R W} (apply : Config -> W -> W * reply (Config * bool * R)) db w a : apply (current db) w = (w, Reply (current db, false, a)) ->
  Bootstrap apply db w = (((Get db).1, w), match (Get db).2 with Ok _ => Reply (current db, a) | Err err => Refused (storageError err) end).
Proof.
  intros Happly. unfold Bootstrap. destruct (Get_spec db) as [_ Hok]. destruct (Get db) as [db1 [c|err]]; [|done].
  by rewrite (Hok _ _ eq_refl), renormalize_current, Happly.
Qed.
End one.

(** * Calls at the same time *)

Section serving.
Context {A : Type} `{!ConfigCollectionLaws}.
(** What the call of each client does. *)
Variable request : nat -> Config -> reply (Config * A).

Inductive phase : Type :=
| Waiting
| Holding
| HasRead (c : Config)
| HasApplied (c : Config) (a : A)
| HasWritten (c : Config) (a : A)
| Ended (r : reply A).

(** [svOrder] records who took the lock; no step looks at it. *)
Record server : Type := {
  svDatabase : database;
  svRuntime : runtime;
  svHolder : option nat;
  svPhases : gmap nat phase;
  svOrder : list nat;
}.

Definition at_phase (i : nat) (p : phase) (s : server) : server := s {{ svPhases ::= fun m => <[i := p]> m }}.
(** The deferred Unlock. *)
Definition ended (i : nat) (r : reply A) (s : server) : server := at_phase i (Ended r) (s {{ svHolder := None }}).

Inductive serving : server -> server -> Prop :=
| arrives i s : svPhases s !! i = None -> serving s (at_phase i Waiting s)
| locks i s :
    svPhases s !! i = Some Waiting -> svHolder s = None ->
    serving s (at_phase i Holding (s {{ svHolder := Some i; svOrder ::= fun l => l ++ [i] }}))
| reads i db c s :
    svPhases s !! i = Some Holding -> Get (svDatabase s) = (db, Ok c) ->
    serving s (at_phase i (HasRead (renormalize c)) (s {{ svDatabase := db }}))
| read_fails i db err s :
    svPhases s !! i = Some Holding -> Get (svDatabase s) = (db, Err err) ->
    serving s (ended i (Refused (storageError err)) (s {{ svDatabase := db }}))
| applies i c c' a s :
    svPhases s !! i = Some (HasRead c) -> request i c = Reply (c', a) -> serving s (at_phase i (HasApplied c' a) s)
| refuses i c e s : svPhases s !! i = Some (HasRead c) -> request i c = Refused e -> serving s (ended i (Refused e) s)
| writes i c a db s :
    svPhases s !! i = Some (HasApplied c a) -> Upsert c (svDatabase s) = (db, None) ->
    serving s (at_phase i (HasWritten c a) (s {{ svDatabase := db }}))
| write_fails i c a db err s :
    svPhases s !! i = Some (HasApplied c a) -> Upsert c (svDatabase s) = (db, Some err) ->
    serving s (ended i (Refused (storageError err)) (s {{ svDatabase := db }}))
| propagates i c a s :
    svPhases s !! i = Some (HasWritten c a) -> serving s (ended i (Reply a) (s {{ svRuntime ::= PropagateInProcess c }})).

Definition idle (db : database) (rt : runtime) : server :=
  {| svDatabase := db; svRuntime := rt; svHolder := None; svPhases := ∅; svOrder := [] |}.

(** The calls one after the other. *)
Fixpoint serve (order : list nat) (st : database * runtime) : (database * runtime) * list (nat * reply A) :=
  match order with
  | [] => (st, [])
  | i :: rest =>
      let (st', r) := MutateSync (request i) st in
      let (st'', answers) := serve rest st' in (st'', (i, r) :: answers)
  end.

Lemma serve_snoc order i st :
  serve (order ++ [i]) st =
  let (st', answers) := serve order st in let (st'', r) := MutateSync (request i) st' in (st'', answers ++ [(i, r)]).
Proof.
  revert st. induction order as [|j order IH]; intros st; cbn [serve app].
  - by destruct (MutateSync (request i) st) as [st' r].
  - destruct (MutateSync (request j) st) as [st1 r1]. rewrite IH. destruct (serve order st1) as [st2 answers].
    by destruct (MutateSync (request i) st2) as [st3 r3].
Qed.

(** ** One at a time *)

(** How far the call that holds the lock has got from the state it found. *)
Definition under_way (i : nat) (st : database * runtime) (s : server) : Prop :=
  svRuntime s = st.2 /\
  match svPhases s !! i with
  | Some Holding => svDatabase s = st.1
  | Some (HasRead c) => exists c0, Get st.1 = (svDatabase s, Ok c0) /\ c = renormalize c0
  | Some (HasApplied c a) => exists c0, Get st.1 = (svDatabase s, Ok c0) /\ request i (renormalize c0) = Reply (c, a)
  | Some (HasWritten c a) => exists db c0, Get st.1 = (db, Ok c0) /\ request i (renormalize c0) = Reply (c, a) /\ Upsert c db = (svDatabase s, None)
  | _ => False
  end.

Record served (st0 : database * runtime) (s : server) : Prop := {
  sv_order : NoDup (svOrder s);
  sv_past : exists past, svOrder s = past ++ option_list (svHolder s) /\
    match svHolder s with
    | None => (serve past st0).1 = (svDatabase s, svRuntime s)
    | Some i => under_way i (serve past st0).1 s
    end /\
    forall i, match svPhases s !! i with
              | None | Some Waiting => i ∉ svOrder s
              | Some (Ended r) => (i, r) ∈ (serve past st0).2
              | Some _ => svHolder s = Some i
              end;
}.

Lemma serve_clients order st : ((serve order st).2).*1 = order.
Proof.
  revert st. induction order as [|i order IH]; intros st; [done|]. cbn. destruct (MutateSync (request i) st) as [st' r].
  specialize (IH st'). destruct (serve order st') as [st'' answers]. cbn in *. by rewrite IH.
Qed.

Lemma served_holder st0 s i p : served st0 s -> svPhases s !! i = Some p ->
  match p with Holding | HasRead _ | HasApplied _ _ | HasWritten _ _ => True | _ => False end -> svHolder s = Some i.
Proof. intros [_ (past & _ & _ & Hph)] Hi Hp. specialize (Hph i). rewrite Hi in Hph. by destruct p. Qed.

(** A step of the holder that keeps the lock. *)
Lemma served_step st0 s i p s' : served st0 s -> svHolder s = Some i -> svPhases s' = <[i := p]> (svPhases s) -> svHolder s' = Some i ->
  svOrder s' = svOrder s -> match p with Holding | HasRead _ | HasApplied _ _ | HasWritten _ _ => True | _ => False end ->
  (forall st, under_way i st s -> under_way i st s') -> served st0 s'.
Proof.
  intros [Hnd (past & Ho & Hst & Hph)] Hh Hps Hh' Ho' Hp Hstep. rewrite Hh in Ho, Hst. constructor; [by rewrite Ho'|].
  exists past. rewrite Ho', Hh'. split_and!; [done|by apply Hstep|]. intros j. rewrite Hps.
  destruct (decide (j = i)) as [->|Hne]; [rewrite lookup_insert_eq; by destruct p|]. rewrite lookup_insert_ne by done. specialize (Hph j).
  destruct (svPhases s !! j) as [[]|]; try done; congruence.
Qed.

(** A step of the holder that ends its call. *)
Lemma served_end st0 s i r s' : served st0 s -> svHolder s = Some i -> svPhases s' = <[i := Ended r]> (svPhases s) -> svHolder s' = None ->
  svOrder s' = svOrder s -> (forall st, under_way i st s -> MutateSync (request i) st = ((svDatabase s', svRuntime s'), r)) -> served st0 s'.
Proof.
  intros [Hnd (past & Ho & Hst & Hph)] Hh Hps Hh' Ho' Hstep. rewrite Hh in Ho, Hst. specialize (Hstep _ Hst). constructor; [by rewrite Ho'|].
  exists (past ++ [i]). rewrite Ho', Hh', serve_snoc. destruct (serve past st0) as [st answers] eqn:Hs. cbn [fst snd] in *. rewrite Hstep.
  split_and!; [by rewrite app_nil_r|done|]. intros j. rewrite Hps. destruct (decide (j = i)) as [->|Hne].
  - rewrite lookup_insert_eq. cbn. rewrite elem_of_app. right. by left.
  - rewrite lookup_insert_ne by done. specialize (Hph j). destruct (svPhases s !! j) as [[]|]; try done; try congruence.
    cbn. rewrite elem_of_app. by left.
Qed.

Lemma served_serving st0 s s' : served st0 s -> serving s s' -> served st0 s'.
Proof.
  intros Hs Hstep. destruct Hstep as [i s Hi|i s Hi Hh|i db c s Hi Hg|i db err s Hi Hg|i c c' a s Hi Hr|i c e s Hi Hr|i c a db s Hi Hu|i c a db err s Hi Hu|i c a s Hi]; unfold ended, at_phase.
  - destruct Hs as [Hnd (past & Ho & Hst & Hph)]. destruct s as [db rt h ph ord]. cbn in *. constructor; [done|]. exists past. split_and!; [done| |].
    + destruct h as [j|]; [|done]. unfold under_way in *. cbn in *. destruct Hst as [Hrt Hst]. split; [done|].
      destruct (decide (j = i)) as [->|Hne]; [by rewrite Hi in Hst|]. by rewrite lookup_insert_ne.
    + intros j. cbn. specialize (Hph j). destruct (decide (j = i)) as [->|Hne]; [rewrite lookup_insert_eq; by rewrite Hi in Hph|by rewrite lookup_insert_ne].
  - destruct Hs as [Hnd (past & Ho & Hst & Hph)]. destruct s as [db rt h ph ord]. cbn in *. subst h. rewrite app_nil_r in Ho. subst ord.
    pose proof (Hph i) as Hnew. rewrite Hi in Hnew. constructor; cbn.
    + apply NoDup_app. split_and!; [done| |apply NoDup_singleton]. intros x Hx ->%list_elem_of_singleton. done.
    + exists past. cbn. split_and!; [done| |].
      * rewrite Hst. unfold under_way. cbn. by rewrite lookup_insert_eq.
      * intros j. specialize (Hph j). destruct (decide (j = i)) as [->|Hne]; [by rewrite lookup_insert_eq|]. rewrite lookup_insert_ne by done.
        destruct (ph !! j) as [[]|]; try done; rewrite elem_of_app, list_elem_of_singleton; naive_solver.
  - pose proof (served_holder _ _ _ _ Hs Hi I) as Hh. eapply (served_step st0 s i (HasRead (renormalize c))); try done; try (by destruct s).
    intros st [Hrt Hst]. rewrite Hi in Hst. destruct s. unfold under_way. cbn in *. rewrite lookup_insert_eq. subst. split; [done|]. eauto.
  - pose proof (served_holder _ _ _ _ Hs Hi I) as Hh. eapply (served_end st0 s i); try done; try (by destruct s).
    intros [db0 rt0] [Hrt Hst]. rewrite Hi in Hst. destruct s. cbn in *. subst. unfold MutateSync. cbn. by rewrite Hg.
  - pose proof (served_holder _ _ _ _ Hs Hi I) as Hh. eapply (served_step st0 s i (HasApplied c' a)); try done; try (by destruct s).
    intros st [Hrt Hst]. rewrite Hi in Hst. destruct s. unfold under_way. cbn in *. rewrite lookup_insert_eq. split; [done|].
    destruct Hst as (c0 & Hg & ->). eauto.
  - pose proof (served_holder _ _ _ _ Hs Hi I) as Hh. eapply (served_end st0 s i); try done; try (by destruct s).
    intros [db0 rt0] [Hrt Hst]. rewrite Hi in Hst. destruct s. cbn in *. destruct Hst as (c0 & Hg & ->). subst. unfold MutateSync. cbn. by rewrite Hg, Hr.
  - pose proof (served_holder _ _ _ _ Hs Hi I) as Hh. eapply (served_step st0 s i (HasWritten c a)); try done; try (by destruct s).
    intros st [Hrt Hst]. rewrite Hi in Hst. destruct s. unfold under_way. cbn in *. rewrite lookup_insert_eq. split; [done|].
    destruct Hst as (c0 & Hg & Hr). eauto 10.
  - pose proof (served_holder _ _ _ _ Hs Hi I) as Hh. eapply (served_end st0 s i); try done; try (by destruct s).
    intros [db0 rt0] [Hrt Hst]. rewrite Hi in Hst. destruct s. cbn in *. destruct Hst as (c0 & Hg & Hr). subst. unfold MutateSync. cbn. by rewrite Hg, Hr, Hu.
  - pose proof (served_holder _ _ _ _ Hs Hi I) as Hh. eapply (served_end st0 s i); try done; try (by destruct s).
    intros [db0 rt0] [Hrt Hst]. rewrite Hi in Hst. destruct s. cbn in *. destruct Hst as (db1 & c0 & Hg & Hr & Hu). subst. unfold MutateSync. cbn. by rewrite Hg, Hr, Hu.
Qed.

Lemma idle_served db rt : served (db, rt) (idle db rt).
Proof.
  constructor; cbn; [constructor|]. exists []. cbn. split_and!; [done|done|]. intros i. rewrite lookup_empty. apply not_elem_of_nil.
Qed.

Lemma serving_served db rt s : rtc serving (idle db rt) s -> served (db, rt) s.
Proof. intros Hr. pose proof (idle_served db rt) as Hs. induction Hr as [|s1 s2 s3 Hstep _ IH]; [done|]. apply IH. by eapply served_serving. Qed.

Lemma serving_serialised db rt s : rtc serving (idle db rt) s -> svHolder s = None ->
  NoDup (svOrder s) /\ (serve (svOrder s) (db, rt)).1 = (svDatabase s, svRuntime s) /\
  forall i r, svPhases s !! i = Some (Ended r) <-> (i, r) ∈ (serve (svOrder s) (db, rt)).2.
Proof.
  intros [Hnd (past & Ho & Hst & Hph)]%serving_served Hh. rewrite Hh in Ho, Hst. cbn in Ho. rewrite app_nil_r in Ho. rewrite Ho in *.
  split_and!; [done..|]. intros i r. specialize (Hph i). split; [intros Hi; by rewrite Hi in Hph|]. intros Hr.
  assert (i ∈ past) as Hin by (rewrite <- (serve_clients past (db, rt)); by apply (list_elem_of_fmap_2 fst _ (i, r))).
  destruct (svPhases s !! i) as [[| | | | |r']|]; try done; try congruence. f_equal. f_equal.
  rewrite <- (serve_clients past (db, rt)) in Hnd. apply list_elem_of_lookup in Hr as [k Hk], Hph as [l Hl].
  assert (k = l) as <-; [|congruence]. apply (NoDup_lookup _ _ _ i Hnd); rewrite list_lookup_fmap; [by rewrite Hk|by rewrite Hl].
Qed.

(** C12: However calls of MutateSync interleave, they come out as if made one
    after the other in the order they took the lock: the database and the
    process are left as that leaves them, and each call that has ended was given
    the answer it is given there. *)
Theorem mutations_serialised db rt s : rtc serving (idle db rt) s -> svHolder s = None ->
  NoDup (svOrder s) /\ (serve (svOrder s) (db, rt)).1 = (svDatabase s, svRuntime s) /\
  forall i r, svPhases s !! i = Some (Ended r) <-> (i, r) ∈ (serve (svOrder s) (db, rt)).2.
Proof. apply serving_serialised. Qed.

(** ** No change is lost *)

Notation changed := (foldl (fun c i => applied (request i) c)).

Lemma serve_kept order db rt : rtLive rt = current db ->
  let '((db', rt'), answers) := serve order (db, rt) in
  exists acknowledged silent, (acknowledged ++ silent) `sublist_of` order /\
    current db' = changed (current db) (acknowledged ++ silent) /\ rtLive rt' = changed (current db) acknowledged /\
    (forall i a, (i, Reply a) ∈ answers -> i ∈ acknowledged) /\ (forall i, i ∈ silent -> exists e, (i, Refused e) ∈ answers).
Proof.
  intros Hlive. induction order as [|i order IH] using rev_ind.
  { exists [], []. split_and!; [done|done|done| |]; by intros ? ?%elem_of_nil || by intros ? ? ?%elem_of_nil. }
  rewrite serve_snoc. destruct (serve order (db, rt)) as [[db1 rt1] answers]. destruct IH as (ack & silent & Hsub & Hcur & Hliv & Hack & Hsil).
  destruct (MutateSync (request i) (db1, rt1)) as [[db2 rt2] r] eqn:Hm. apply MutateSync_cases in Hm. destruct r as [a|e].
  - destruct Hm as (Hc & Hl & _). exists (ack ++ silent ++ [i]), []. rewrite app_nil_r, app_assoc. split_and!.
    + by apply sublist_app.
    + by rewrite Hc, foldl_app, Hcur.
    + by rewrite Hl, Hc, foldl_app, Hcur.
    + intros j b [Hj| [= -> ->]%list_elem_of_singleton]%elem_of_app; rewrite !elem_of_app; [|right; by left]. left. left. by eapply Hack.
    + by intros j ?%elem_of_nil.
  - assert (forall ack' silent' : list nat, (forall j b, (j, Reply b) ∈ answers -> j ∈ ack') -> (forall j, j ∈ silent' -> j = i \/ j ∈ silent) ->
      (forall j b, (j, Reply b) ∈ answers ++ [(i, Refused e)] -> j ∈ ack') /\ (forall j, j ∈ silent' -> exists e', (j, Refused e') ∈ answers ++ [(i, Refused e)])) as Hanswers.
    { intros ack' silent' Ha Hs. split.
      - intros j b [Hj|Hj]%elem_of_app; [by eapply Ha|]. by apply list_elem_of_singleton in Hj.
      - intros j [->|Hj]%Hs; [exists e; rewrite elem_of_app; right; by left|]. destruct (Hsil j Hj) as [e' He']. exists e'. rewrite elem_of_app. by left. }
    destruct Hm as [-> [Hc|[Hc _]]].
    + exists ack, silent. split_and!; [by apply sublist_inserts_r|by rewrite Hc|done|eapply Hanswers; eauto..].
    + exists ack, (silent ++ [i]). rewrite app_assoc. split_and!; [by apply sublist_app|by rewrite Hc, foldl_app, Hcur|done|eapply Hanswers|eapply Hanswers]; eauto.
      intros j [Hj| ->%list_elem_of_singleton]%elem_of_app; eauto.
Qed.

(** No change is lost. When no call is under way, what is stored is what the
    changes that landed make of it, each applied to what those before it left,
    in the order their calls took the lock: every acknowledged change is among
    them, and the only others are changes whose write failed after it happened.
    The process runs on the configuration of the last acknowledged change. *)
Theorem mutations_kept db rt s : rtLive rt = current db -> rtc serving (idle db rt) s -> svHolder s = None ->
  exists acknowledged silent, (acknowledged ++ silent) `sublist_of` svOrder s /\
    current (svDatabase s) = changed (current db) (acknowledged ++ silent) /\ rtLive (svRuntime s) = changed (current db) acknowledged /\
    (forall i a, svPhases s !! i = Some (Ended (Reply a)) -> i ∈ acknowledged) /\
    (forall i, i ∈ silent -> exists e, svPhases s !! i = Some (Ended (Refused e))).
Proof.
  intros Hlive Hr Hh. destruct (serving_serialised db rt s Hr Hh) as (_ & Hst & Hans). pose proof (serve_kept (svOrder s) db rt Hlive) as Hkept.
  destruct (serve (svOrder s) (db, rt)) as [[db1 rt1] answers]. cbn in Hst, Hans. injection Hst as -> ->.
  destruct Hkept as (ack & silent & Hsub & Hcur & Hliv & Hack & Hsil). exists ack, silent. split_and!; [done..| |].
  - intros i a Hi%Hans. by eapply Hack.
  - intros i [e He]%Hsil. exists e. by apply Hans.
Qed.

(** ** What every change keeps *)

Definition sound (P : Config -> Prop) (s : server) : Prop :=
  P (current (svDatabase s)) /\ P (rtLive (svRuntime s)) /\
  forall i, match svPhases s !! i with
            | Some (HasRead c) => P c
            | Some (HasApplied c _) | Some (HasWritten c _) => P (renormalize c)
            | _ => True
            end.

Lemma sound_phase P s db rt h o i p : sound P s -> P (current db) -> P (rtLive rt) ->
  match p with HasRead c => P c | HasApplied c _ | HasWritten c _ => P (renormalize c) | _ => True end ->
  sound P {| svDatabase := db; svRuntime := rt; svHolder := h; svPhases := <[i := p]> (svPhases s); svOrder := o |}.
Proof.
  intros (_ & _ & Hph) Hdb Hrt Hp. split_and!; [done..|]. intros j. cbn. destruct (decide (j = i)) as [->|Hne]; [by rewrite lookup_insert_eq|].
  rewrite lookup_insert_ne by done. apply Hph.
Qed.

Lemma sound_serving P s s' : (forall i c c' a, P c -> request i c = Reply (c', a) -> P (renormalize c')) -> sound P s -> serving s s' -> sound P s'.
Proof.
  intros Hreq Hs Hstep. pose proof Hs as (Hdb & Hrt & Hph).
  destruct Hstep as [i s Hi|i s Hi Hh|i db c s Hi Hg|i db err s Hi Hg|i c c' a s Hi Hr|i c e s Hi Hr|i c a db s Hi Hu|i c a db err s Hi Hu|i c a s Hi];
    unfold ended, at_phase; specialize (Hph i); rewrite Hi in Hph; destruct s; cbn in *;
    match goal with |- sound P {| svPhases := <[_ := _]> ?m |} => eapply (sound_phase P {| svPhases := m |}); [exact Hs| | |] end; unfold constant; try done.
  - destruct (Get_spec svDatabase0) as [Hk _]. rewrite Hg in Hk. cbn in Hk. by rewrite Hk.
  - destruct (Get_spec svDatabase0) as [Hk Hok]. by rewrite (Hok _ _ Hg), renormalize_current.
  - destruct (Get_spec svDatabase0) as [Hk _]. rewrite Hg in Hk. cbn in Hk. by rewrite Hk.
  - by eapply Hreq.
  - apply ReplaceConfig_Ok in Hu. unfold current. by rewrite Hu.
  - apply ReplaceConfig_Err in Hu as [Hu|Hu]; unfold current in *; by rewrite Hu.
Qed.

(** What no change breaks holds of the stored and of the live configuration at
    every moment. *)
Lemma configuration_invariant P db rt s :
  (forall i c c' a, P c -> request i c = Reply (c', a) -> P (renormalize c')) -> P (current db) -> P (rtLive rt) -> rtc serving (idle db rt) s ->
  P (current (svDatabase s)) /\ P (rtLive (svRuntime s)).
Proof.
  intros Hreq Hdb Hrt Hr. assert (sound P (idle db rt)) as Hs by (split_and!; [done..|]; intros i; cbn; by rewrite lookup_empty).
  assert (sound P s) as (? & ? & _); [|done]. induction Hr as [|s1 s2 s3 Hstep _ IH]; [done|]. apply IH; by destruct (sound_serving P _ _ Hreq Hs Hstep).
Qed.
End serving.
End store.
Arguments reply : clear implicits.
Arguments Reply {E A} _.
Arguments Refused {E A} _.
Arguments runtime {_} _.

(** * Two calls that overlap *)

Module Sample.
Import Sidecar.Literal.
#[local] Existing Instance engine.

(** A database that never fails. *)
#[export] Instance oneDocument : ConfigCollection := {|
  database := option StoredConfig;
  FindConfig := fun db => (db, Ok db);
  ReplaceConfig := fun c _ => (Some (stored c), None);
  storedConfig := id |}.

#[export] Instance oneDocumentLaws : ConfigCollectionLaws.
Proof. by constructor; [|intros db db' d [= -> ->]|intros c db db' [= <-]|]. Qed.

(** The first call sets the level of the log, the second how much is scanned at
    once. *)
Definition sampleRequest (i : nat) (c : Config) : reply string (Config * unit) :=
  match i with
  | 0%nat => Reply (c {{ cfLogging ::= fun logging => logging {{ lcServerLevel := LogLevelDebug }} }}, tt)
  | _ => Reply (c {{ cfDirectoryScanner ::= fun scanner => scanner {{ dsParallelCount := 3%Z }} }}, tt)
  end.

Definition noDocument : @database oneDocument := None.

Definition unpublished : Config -> unit -> unit * option string := fun _ fleet => (fleet, None).
Definition fresh : runtime unit := {| rtLive := Default; rtLevel := LevelInfo; rtRegistry := emptyRegistry; rtFleet := tt |}.

Notation serving := (serving unpublished (fun err : string => err) sampleRequest).
Notation server := (@server engine unit oneDocument string unit).

(** The second call takes the lock while the first waits. *)
Lemma sample_serving : exists s, rtc serving (idle noDocument fresh) s /\ svHolder s = None /\
  svPhases s !! 0%nat = Some (Ended (Reply tt)) /\ svPhases s !! 1%nat = Some (Ended (Reply tt)).
Proof.
  eexists. split; [|split; [|split]].
  - eapply rtc_l; [by apply (arrives _ _ _ 0)|]. eapply rtc_l; [by apply (arrives _ _ _ 1)|].
    eapply rtc_l; [by apply (locks _ _ _ 1)|]. eapply rtc_l; [by eapply (reads _ _ _ 1)|]. eapply rtc_l; [by eapply (applies _ _ _ 1)|].
    eapply rtc_l; [by eapply (writes _ _ _ 1)|]. eapply rtc_l; [by eapply (propagates _ _ _ 1)|].
    eapply rtc_l; [by apply (locks _ _ _ 0)|]. eapply rtc_l; [by eapply (reads _ _ _ 0)|]. eapply rtc_l; [by eapply (applies _ _ _ 0)|].
    eapply rtc_l; [by eapply (writes _ _ _ 0)|]. eapply rtc_l; [by eapply (propagates _ _ _ 0)|]. apply rtc_refl.
  - reflexivity.
  - reflexivity.
  - reflexivity.
Qed.

Lemma mutations_serialised_witness : exists s : server, svPhases s !! 0%nat = Some (Ended (Reply tt)) /\
  (0%nat, Reply tt) ∈ (serve unpublished (fun err : string => err) sampleRequest (svOrder s) (noDocument, fresh)).2.
Proof.
  destruct sample_serving as (s & Hr & Hh & H0 & _). exists s. split; [exact H0|].
  destruct (mutations_serialised unpublished (fun err : string => err) sampleRequest noDocument fresh s Hr Hh) as (_ & _ & Hanswers).
  apply Hanswers. exact H0.
Defined.

Lemma mutations_kept_witness : exists (s : server) acknowledged silent, svPhases s !! 1%nat = Some (Ended (Reply tt)) /\ 1%nat ∈ acknowledged /\
  current (svDatabase s) = foldl (fun c i => applied (sampleRequest i) c) (current noDocument) (acknowledged ++ silent).
Proof.
  destruct sample_serving as (s & Hr & Hh & _ & H1).
  destruct (mutations_kept unpublished (fun err : string => err) sampleRequest noDocument fresh s eq_refl Hr Hh)
    as (acknowledged & silent & _ & Hcur & _ & Hack & _).
  exists s, acknowledged, silent. split; [exact H1|]. split; [exact (Hack 1%nat tt H1)|exact Hcur].
Defined.
End Sample.
