(* ===== verification/Services.v ===== *)
(** What the services of the configuration share: errors.go, fieldmask.go and
    list.go of src/internal/server/services. Field masks, page tokens and the
    order_by syntax are libraries', the classes [Masked], [PageTokens] and
    [Ordering]. *)
From stdpp Require Import strings list gmap.
From Stdlib Require Import Ascii ZArith Lia.
From S2P Require Import Prelude AppConfig ConfigStore.
#[local] Open Scope go_scope.

(** * Errors *)

(** connect.Code, as far as it is answered with. *)
Inductive code : Type :=
| CodeInvalidArgument | CodeUnauthenticated | CodePermissionDenied | CodeNotFound | CodeAlreadyExists | CodeFailedPrecondition
| CodeResourceExhausted | CodeUnavailable | CodeDeadlineExceeded | CodeInternal | CodeUnimplemented.

Definition codeForStatus (status : Z) : code :=
  if decide (status = 400)%Z then CodeInvalidArgument
  else if decide (status = 401)%Z then CodeUnauthenticated
  else if decide (status = 403)%Z then CodePermissionDenied
  else if decide (status = 404)%Z then CodeNotFound
  else if decide (status = 409)%Z then CodeAlreadyExists
  else if decide (status = 422)%Z then CodeFailedPrecondition
  else if decide (status = 429)%Z then CodeResourceExhausted
  else if decide (status = 502)%Z then CodeUnavailable
  else if decide (status = 504)%Z then CodeDeadlineExceeded
  else CodeInternal.

(** An error on its way out of a method: one that is a connect.Error, one that
    wraps a sentinel, any other, or a panic. *)
Inductive failure : Type :=
| ConnectError (c : code) (msg : string)
| EmptyMask
| UnknownPath (msg : string)
| BadPageToken (msg : string)
| FilterUnsupported
| OtherError (msg : string)
| Panicked.

Definition connectError (status : Z) (err : string) : failure := ConnectError (codeForStatus status) err.

Definition errorText (f : failure) : string :=
  match f with
  | ConnectError _ msg | OtherError msg => msg
  | EmptyMask => "update_mask must name at least one field"
  | UnknownPath msg => "update_mask names an unknown field: " +:+ msg
  | BadPageToken msg => "invalid page_token: " +:+ msg
  | FilterUnsupported => "filter expressions are not supported yet"
  | Panicked => ""
  end.

Definition aipConnectError (f : failure) : option failure :=
  match f with
  | EmptyMask | UnknownPath _ | BadPageToken _ => Some (ConnectError CodeInvalidArgument (errorText f))
  | FilterUnsupported => Some (ConnectError CodeUnimplemented (errorText f))
  | _ => None
  end.

(** What an error of MutateSync is answered with; a panic is not caught here. *)
Definition mutateConfigErr (f : failure) : failure :=
  match f with
  | ConnectError _ _ | Panicked => f
  | _ => match aipConnectError f with Some mapped => mapped | None => connectError 500 "failed to write config update" end
  end.

(** The answer of a method that changes the configuration. *)
Definition answered {A} (r : reply failure A) : reply failure A :=
  match r with Reply a => Reply a | Refused f => Refused (mutateConfigErr f) end.

Definition answer_bind {A B} (r : reply failure A) (f : A -> reply failure B) : reply failure B :=
  match r with Reply a => f a | Refused e => Refused e end.
Notation "'given' x ':=' r 'in' k" := (answer_bind r (fun x => k)) (at level 200, x name, r at level 100, k at level 200) : go_scope.

(** * Field masks *)

(** fieldmask.Validate and Update for a message type. *)
Class Masked (R : Type) : Type := {
  ValidateMask : list string -> R -> result unit;
  UpdateMask : list string -> R -> R -> R;
}.

(** The updated [dst]. *)
Definition applyUpdateMask {R} `{Masked R} (dst src : R) (mask : list string) : reply failure R :=
  match mask with
  | [] => Refused EmptyMask
  | _ => match ValidateMask mask dst with Err err => Refused (UnknownPath err) | Ok _ => Reply (UpdateMask mask dst src) end
  end.

(** * Lists *)

Definition defaultListPageSize : nat := 50.
Definition maxListPageSize : nat := 1000.

(** The offset a page token holds, signed as Go's int is. *)
Class PageTokens : Type := {
  EncodePageToken : Z -> string;
  DecodePageToken : string -> result Z;
}.

Class PageTokensLaws `{PageTokens} : Prop := {
  decode_encode_token n : DecodePageToken (EncodePageToken n) = Ok n;
  token_not_empty n : EncodePageToken n <> "";
}.

Definition clampPageSize (pageSize : Z) : nat :=
  if (pageSize <=? 0)%Z then defaultListPageSize
  else if (Z.of_nat maxListPageSize <? pageSize)%Z then maxListPageSize
  else Z.to_nat pageSize.

Section pages.
Context `{PageTokens} {A : Type}.

Definition paginateSlice (items : list A) (pageSize : Z) (pageToken : string) : reply failure (list A * string) :=
  given offset :=
    (if String.eqb pageToken "" then Reply 0%Z
     else match DecodePageToken pageToken with
          | Err err => Refused (BadPageToken err)
          | Ok n => if (n <? 0)%Z then Refused (BadPageToken "<nil>") else Reply n
          end) in
  if (Z.of_nat (length items) <=? offset)%Z then Reply ([], "")
  else
    let offset := Z.to_nat offset in
    let end_ := (offset + clampPageSize pageSize)%nat in
    if (length items <=? end_)%nat then Reply (drop offset items, "")
    else Reply (take (end_ - offset) (drop offset items), EncodePageToken (Z.of_nat end_)).

(** A caller that follows the tokens a method answers with. *)
Fixpoint follow (fuel : nat) (method : string -> reply failure (list A * string)) (pageToken : string) : option (list (list A)) :=
  match fuel with
  | O => None
  | S fuel =>
      match method pageToken with
      | Refused _ => None
      | Reply (page, next) => if String.eqb next "" then Some [page] else cons page <$> follow fuel method next
      end
  end.
End pages.

(** ** Order *)

(** The fields of an order_by, each with whether it is descending. *)
Class Ordering : Type := UnmarshalOrderBy : string -> result (list (string * bool)).

Section order.
Context `{Ordering} {A : Type}.
(** The comparators a list accepts. *)
Variable comparators : string -> option (A -> A -> comparison).

(** The function handed to SliceStable. *)
Fixpoint lessBy (fields : list (string * bool)) (a b : A) : bool :=
  match fields with
  | [] => false
  | (path, desc) :: rest =>
      match comparators path with
      | Some compare =>
          match (if desc then CompOpp (compare a b) else compare a b) with
          | Lt => true
          | Gt => false
          | Eq => lessBy rest a b
          end
      | None => lessBy rest a b
      end
  end.

Definition unknownField (fields : list (string * bool)) : option (string * bool) :=
  List.find (fun field => negb (bool_decide (is_Some (comparators field.1)))) fields.

Definition orderBySlice (items : list A) (orderBy : string) : reply failure (list A) :=
  if String.eqb orderBy "" then Reply items
  else
    match UnmarshalOrderBy orderBy with
    | Err err => Refused (UnknownPath err)
    | Ok fields =>
        match unknownField fields with
        | Some (path, _) => Refused (UnknownPath ("order_by field " +:+ quote path))
        | None => Reply (stable_sort id (lessBy fields) items)
        end
    end.

Definition parseListFilter (filter : string) : option failure := if String.eqb filter "" then None else Some FilterUnsupported.

(** The List methods: the parts they share. *)
Definition listOf `{PageTokens} (items : list A) (filter orderBy : string) (pageSize : Z) (pageToken : string) : reply failure (list A * string) :=
  let mapped (f : failure) := default f (aipConnectError f) in
  match parseListFilter filter with
  | Some f => Refused (mapped f)
  | None =>
      match (given ordered := orderBySlice items orderBy in paginateSlice ordered pageSize pageToken) with
      | Refused f => Refused (mapped f)
      | Reply page => Reply page
      end
  end.
End order.

(** * Following the pages *)

Section following.
Context `{PageTokensLaws} {A : Type}.

Lemma clampPageSize_pos n : (0 < clampPageSize n)%nat.
Proof. unfold clampPageSize, defaultListPageSize, maxListPageSize. destruct (Z.leb_spec n 0); [lia|]. case_match; lia. Qed.

(** A page from an offset within the items. *)
Lemma paginateSlice_at (items : list A) pageSize k : (k < length items)%nat ->
  paginateSlice items pageSize (EncodePageToken (Z.of_nat k)) =
  Reply (let end_ := (k + clampPageSize pageSize)%nat in
    if (length items <=? end_)%nat then (drop k items, "") else (take (clampPageSize pageSize) (drop k items), EncodePageToken (Z.of_nat end_))).
Proof.
  intros Hk. unfold paginateSlice. destruct (String.eqb_spec (EncodePageToken (Z.of_nat k)) "") as [He|_]; [by apply token_not_empty in He|].
  rewrite decode_encode_token. destruct (Z.ltb_spec (Z.of_nat k) 0); [lia|]. cbn [answer_bind].
  destruct (Z.leb_spec (Z.of_nat (length items)) (Z.of_nat k)); [lia|]. rewrite Nat2Z.id.
  cbv zeta. destruct (_ <=? _)%nat; [done|]. by replace (k + clampPageSize pageSize - k)%nat with (clampPageSize pageSize) by lia.
Qed.

Lemma follow_from (items : list A) pageSize method fuel k : (k < length items)%nat -> (length items - k < fuel)%nat ->
  (forall token, method token = paginateSlice items pageSize token) ->
  exists pages, follow fuel method (EncodePageToken (Z.of_nat k)) = Some pages /\ concat pages = drop k items /\
    Forall (fun page => page <> [] /\ (length page <= clampPageSize pageSize)%nat) pages.
Proof.
  revert k. induction fuel as [|fuel IH]; intros k Hk Hf Hm; [lia|]. cbn [follow]. rewrite Hm, paginateSlice_at by done. cbv zeta.
  pose proof (clampPageSize_pos pageSize) as Hp. destruct (Nat.leb_spec (length items) (k + clampPageSize pageSize)).
  - exists [drop k items]. cbn. rewrite app_nil_r. split_and!; [done..|]. constructor; [|done].
    split; [|rewrite length_drop; lia]. intros He%(f_equal length). rewrite length_drop in He. cbn in He. lia.
  - destruct (String.eqb_spec (EncodePageToken (Z.of_nat (k + clampPageSize pageSize))) "") as [He|_]; [by apply token_not_empty in He|].
    destruct (IH (k + clampPageSize pageSize)%nat) as (pages & -> & Hc & Hall); [lia|lia|done|].
    eexists. split; [done|]. split.
    + cbn [concat]. rewrite Hc, <- drop_drop. apply take_drop.
    + constructor; [|done]. rewrite length_take, length_drop. split; [|lia]. intros He%(f_equal length). rewrite length_take, length_drop in He. cbn in He. lia.
Qed.

(** Which errors a method answers with does not matter to a caller that is answered. *)
Lemma follow_answers (method method' : string -> reply failure (list A * string)) fuel token :
  (forall token, method token = match method' token with Reply page => Reply page | Refused f => Refused (default f (aipConnectError f)) end) ->
  follow fuel method token = follow fuel method' token.
Proof.
  intros Hm. revert token. induction fuel as [|fuel IH]; intros token; [done|]. cbn [follow]. rewrite Hm.
  destruct (method' token) as [[page next]|f]; [|done]. by rewrite IH.
Qed.

Lemma follow_all (items : list A) pageSize method : (forall token, method token = paginateSlice items pageSize token) ->
  exists pages, follow (S (length items)) method "" = Some pages /\ concat pages = items /\
    Forall (fun page => (length page <= clampPageSize pageSize)%nat) pages.
Proof.
  intros Hm. pose proof (clampPageSize_pos pageSize) as Hp. cbn [follow]. rewrite Hm. unfold paginateSlice. cbn [String.eqb answer_bind].
  destruct (Z.leb_spec (Z.of_nat (length items)) 0) as [Hz|Hz].
  { exists [[]]. destruct items; [|cbn in Hz; lia]. split_and!; [done..|]. repeat constructor. cbn. lia. }
  change (Z.to_nat 0) with 0%nat. cbv zeta. rewrite Nat.add_0_l, Nat.sub_0_r, drop_0. destruct (Nat.leb_spec (length items) (clampPageSize pageSize)).
  - exists [items]. cbn. rewrite app_nil_r. split_and!; [done..|]. by constructor.
  - destruct (String.eqb_spec (EncodePageToken (Z.of_nat (clampPageSize pageSize))) "") as [He|_]; [by apply token_not_empty in He|].
    destruct (follow_from items pageSize method (length items) (clampPageSize pageSize)) as (pages & -> & Hc & Hall); [lia|lia|done|].
    eexists. split; [done|]. split; [cbn [concat]; rewrite Hc; apply take_drop|]. constructor; [rewrite length_take; lia|].
    eapply Forall_impl; [exact Hall|]. by intros page [_ Hl].
Qed.
End following.

(** * Sorting *)

(** A comparator orders: it is antisymmetric and transitive. *)
Record comparator {A} (compare : A -> A -> comparison) : Prop := {
  compare_opp a b : compare b a = CompOpp (compare a b);
  compare_trans a b c : compare a b <> Gt -> compare b c <> Gt -> compare a c <> Gt;
}.

Lemma comparator_opp {A} (compare : A -> A -> comparison) : comparator compare -> comparator (fun a b => CompOpp (compare a b)).
Proof.
  intros [Hopp Htrans]. constructor; [intros a b; by rewrite Hopp|]. intros a b c Hab Hbc. rewrite <- Hopp in *. by eapply Htrans.
Qed.

Definition then_compare {A} (first second : A -> A -> comparison) (a b : A) : comparison :=
  match first a b with Eq => second a b | o => o end.

Lemma comparator_then {A} (first second : A -> A -> comparison) : comparator first -> comparator second -> comparator (then_compare first second).
Proof.
  intros [Ho1 Ht1] [Ho2 Ht2]. unfold then_compare. constructor.
  - intros a b. rewrite Ho1. destruct (first a b); cbn; [apply Ho2|done..].
  - intros a b c Hab Hbc. pose proof (Ht1 a b c) as H1'. pose proof (Ht1 b c a) as H2'. pose proof (Ht1 c a b) as H3'.
    rewrite (Ho1 a c) in H2'. rewrite (Ho1 a b) in H2'. rewrite (Ho1 a c), (Ho1 b c) in H3'. pose proof (Ht2 a b c) as H4'.
    destruct (first a b), (first b c), (first a c); cbn in *; try done; first [by apply H4'|by destruct H1'|by destruct H2'|by destruct H3'].
Qed.

Lemma comparator_key {A K} (key : A -> K) (compare : K -> K -> comparison) : comparator compare -> comparator (fun a b => compare (key a) (key b)).
Proof. intros [Ho Ht]. constructor; [intros a b; apply Ho|intros a b c; apply Ht]. Qed.

Lemma comparator_string : comparator String.compare.
Proof.
  constructor; [intros a b; apply String.compare_antisym|]. apply str_compare_trans.
Qed.

Lemma comparator_Z : comparator Z.compare.
Proof. constructor; [intros a b; apply Z.compare_antisym|intros a b c; rewrite !Z.compare_le_iff; lia]. Qed.

Section lists.
Context `{Ordering, PageTokensLaws} {A : Type} (comparators : string -> option (A -> A -> comparison)).
Hypothesis comparators_ok : forall path compare, comparators path = Some compare -> comparator compare.

(** The order of all the fields together. *)
Fixpoint compareBy (fields : list (string * bool)) : A -> A -> comparison :=
  match fields with
  | [] => fun _ _ => Eq
  | (path, desc) :: rest =>
      match comparators path with
      | Some compare => then_compare (if desc then fun a b => CompOpp (compare a b) else compare) (compareBy rest)
      | None => compareBy rest
      end
  end.

Lemma compareBy_comparator fields : comparator (compareBy fields).
Proof.
  induction fields as [|[path desc] rest IH]; [done|]. cbn. destruct (comparators path) as [compare|] eqn:Hc; [|done].
  apply comparator_then; [|done]. destruct desc; [apply comparator_opp|]; by eapply comparators_ok.
Qed.

Lemma lessBy_compareBy fields a b : lessBy comparators fields a b = match compareBy fields a b with Lt => true | _ => false end.
Proof.
  induction fields as [|[path desc] rest IH]; [done|]. cbn. destruct (comparators path) as [compare|]; [|done].
  unfold then_compare. destruct desc; destruct (compare a b); cbn; done.
Qed.

Lemma lessBy_false fields a b : lessBy comparators fields a b = false <-> compareBy fields b a <> Gt.
Proof. rewrite lessBy_compareBy, (compare_opp _ (compareBy_comparator fields) a b). by destruct (compareBy fields a b). Qed.

(** [items'] are [items] in the order of the fields, those the fields cannot
    tell apart in the order they had. *)
Definition ordered_by (fields : list (string * bool)) (items items' : list A) : Prop :=
  items' ≡ₚ items /\ StronglySorted (fun a b => compareBy fields a b <> Gt) items' /\
  forall q, (forall a b, q a = true -> q b = true -> compareBy fields a b = Eq) -> List.filter q items' = List.filter q items.

Lemma stable_sort_ordered fields items : ordered_by fields items (stable_sort id (lessBy comparators fields) items).
Proof.
  assert (forall a b c, lessBy comparators fields a b = false -> lessBy comparators fields b c = false -> lessBy comparators fields a c = false) as Htr.
  { intros a b c. rewrite !lessBy_false. intros Hba Hcb. by eapply (compare_trans _ (compareBy_comparator fields)). }
  assert (forall a b, lessBy comparators fields a b = true -> lessBy comparators fields b a = false) as Has.
  { intros a b. rewrite !lessBy_compareBy, (compare_opp _ (compareBy_comparator fields) a b). by destruct (compareBy fields a b). }
  split_and!; [apply stable_sort_perm| |].
  - pose proof (stable_sort_sorted id (lessBy comparators fields) Htr Has items) as Hs. induction Hs as [|x l _ IH Hall]; constructor; [done|].
    eapply Forall_impl; [exact Hall|]. intros y Hy. by apply lessBy_false.
  - intros q Hq. rewrite (stable_sort_keep id (lessBy comparators fields) Htr Has). induction items as [|x items IH]; [done|]. cbn.
    destruct (q x) eqn:Hx; [|done]. cbn. rewrite IH. apply sort_insert_head. apply Forall_forall. intros y Hy%list_elem_of_In%filter_In.
    unfold id. by rewrite lessBy_compareBy, (Hq _ _ (proj2 Hy) Hx).
Qed.

(** A client that asks for a collection page by page and follows the tokens
    is given, in at most one page more than there are items, every item exactly
    once, in the order it asked for, no page larger than the size it asked for or the limit. *)
Theorem list_pages items orderBy fields pageSize : orderBy <> "" -> UnmarshalOrderBy orderBy = Ok fields -> unknownField comparators fields = None ->
  exists pages, follow (S (length items)) (listOf comparators items "" orderBy pageSize) "" = Some pages /\
    ordered_by fields items (concat pages) /\ Forall (fun page => (length page <= clampPageSize pageSize)%nat) pages.
Proof.
  intros Hne Ho Hu. set (sorted := stable_sort id (lessBy comparators fields) items).
  pose proof (stable_sort_ordered fields items) as Hsorted. fold sorted in Hsorted.
  assert (length sorted = length items) as Hl by (by rewrite (proj1 Hsorted)).
  set (method := fun token => match paginateSlice sorted pageSize token with Reply page => Reply page | Refused f => Refused (default f (aipConnectError f)) end).
  assert (forall token, listOf comparators items "" orderBy pageSize token = method token) as Hm.
  { intros token. unfold listOf, orderBySlice, parseListFilter. destruct (String.eqb_spec orderBy ""); [done|]. by rewrite Ho, Hu. }
  destruct (follow_all sorted pageSize (paginateSlice sorted pageSize) (fun _ => eq_refl)) as (pages & Hf & Hc & Hall).
  exists pages. split; [|by rewrite Hc]. rewrite <- Hf, Hl. apply follow_answers. intros token. by rewrite Hm.
Qed.
End lists.
