(* ===== verification/ConfigServices.v ===== *)
(** The methods that read and change the configuration:
    directory_scanner.go, agents.go, sonarr_interfaces.go, event_bus.go,
    logging.go, admin.go, config.go and RotateHmacSecret of auth.go, in
    src/internal/server/services. A method that changes something is its checks
    of the request and the function it hands to MutateSync, so it runs in any
    interleaving of ConfigStore. What a method reads is the live configuration. *)
From stdpp Require Import strings list gmap.
From Stdlib Require Import Ascii ZArith Lia.
From coqutil Require Import Datatypes.RecordSetters.
Import DoubleBraceUpdate.
From S2P Require Import Prelude Sidecar Topics Streams AppConfig ConfigStore Services.
#[local] Open Scope go_scope.

(** A method: answered without touching the store, or a change. *)
Inductive method (A : Type) : Type :=
| Answer (r : reply failure A)
| Mutate (apply : Config -> reply failure (Config * A)).
Arguments Answer {A} _.
Arguments Mutate {A} _.

Definition refuse {A} (status : Z) (err : string) : method A := Answer (Refused (connectError status err)).
Definition refused {A} (status : Z) (err : string) : reply failure A := Refused (connectError status err).

(** A panic ends the call; the deferred Unlock has run and nothing was written. *)
Definition unless_panic {A} (o : outcome A) : reply failure A := match o with Done a => Reply a | _ => Refused Panicked end.

(** [append(l[:i], l[i+1:]...)]. *)
Definition removeAt {A} (i : nat) (l : list A) : list A := take i l ++ drop (S i) l.

(** * The directory scanner *)

Definition changeScanner (f : DirectoryScannerConfig -> DirectoryScannerConfig) (c : Config) : Config := c {{ cfDirectoryScanner ::= f }}.
Definition setScanDirectories (l : list ScanDirectory) (c : Config) : Config := changeScanner (fun d => d {{ dsScanDirectories := l }}) c.
Definition setSidecarTypes (l : list Entry) (c : Config) : Config := changeScanner (fun d => d {{ dsSidecarTypes := l }}) c.
Definition scanDirectories (c : Config) : list ScanDirectory := dsScanDirectories (cfDirectoryScanner c).
Definition sidecarTypes (c : Config) : list Entry := dsSidecarTypes (cfDirectoryScanner c).

Definition scanDirectoryOrderFields (path : string) : option (ScanDirectory -> ScanDirectory -> comparison) :=
  if String.eqb path "scanner_slug" then Some (fun a b => String.compare (sdScannerSlug a) (sdScannerSlug b))
  else if String.eqb path "scan_type" then Some (fun a b => String.compare (sdScanType a) (sdScanType b))
  else None.

Definition sidecarTypeOrderFields (path : string) : option (Entry -> Entry -> comparison) :=
  if String.eqb path "id" then Some (fun a b => String.compare (eId a) (eId b))
  else if String.eqb path "type" then Some (fun a b => String.compare (eType a) (eType b))
  else if String.eqb path "order" then Some (fun a b => Z.compare (eOrder a) (eOrder b))
  else None.

Section scanner.
Context `{!Masked DirectoryScannerConfig, !Masked ScanDirectory, !Masked Entry, Ordering, PageTokens, Regexp, MapOrder}.

Definition UpdateDirectoryScannerConfig (patch : option DirectoryScannerConfig) (mask : list string) : method DirectoryScannerConfig :=
  match patch with
  | None => refuse 400 "config is required"
  | Some patch =>
      if existsb (fun path => negb (String.eqb path "parallel_count")) mask then
        refuse 400 (errorText (UnknownPath "the scalar section update_mask may name only parallel_count"))
      else Mutate (fun cfg =>
        given merged := applyUpdateMask (cfDirectoryScanner cfg) patch mask in
        if (dsParallelCount merged <=? 0)%Z then refused 400 "parallel_count must be greater than zero"
        else Reply (cfg {{ cfDirectoryScanner := merged }}, merged))
  end.

Definition validateScanDirectory (entry : ScanDirectory) : option string :=
  if String.eqb (sdScannerSlug entry) "" then Some "scanner_slug is required"
  else match ParseDirectoryType (sdScanType entry) with Err err => Some err | Ok _ => None end.

Definition appendNewScanDirectory (cfg : Config) (entry : ScanDirectory) : reply failure (Config * ScanDirectory) :=
  match validateScanDirectory entry with
  | Some err => refused 400 err
  | None =>
      match FindScanDirectoryIndex (cfDirectoryScanner cfg) (sdScannerSlug entry) with
      | Some _ => refused 409 ("a scan directory with slug " +:+ quote (sdScannerSlug entry) +:+ " already exists")
      | None => Reply (setScanDirectories (scanDirectories cfg ++ [entry]) cfg, entry)
      end
  end.

Definition cloneOrNewScanDirectory (entry : option ScanDirectory) : ScanDirectory :=
  default {| sdScannerSlug := ""; sdScanType := ""; sdDirectory := "" |} entry.

Definition CreateScanDirectory (slug : string) (entry : option ScanDirectory) : method ScanDirectory :=
  let entry := cloneOrNewScanDirectory entry in
  let bodySlug := sdScannerSlug entry in
  if negb (String.eqb bodySlug "") && negb (String.eqb bodySlug slug) then
    refuse 400 ("scan_directory.scanner_slug " +:+ quote bodySlug +:+ " does not match scan_directory_id " +:+ quote slug)
  else Mutate (fun cfg => appendNewScanDirectory cfg (entry {{ sdScannerSlug := slug }})).

Definition GetScanDirectory (live : Config) (slug : string) : reply failure ScanDirectory :=
  match FindScanDirectoryIndex (cfDirectoryScanner live) slug ≫= fun index => scanDirectories live !! index with
  | None => refused 404 "no scan directory with that slug"
  | Some entry => Reply entry
  end.

Definition ListScanDirectories (live : Config) := listOf scanDirectoryOrderFields (scanDirectories live).

Definition UpdateScanDirectory (patch : option ScanDirectory) (mask : list string) (allowMissing : bool) : method ScanDirectory :=
  match patch with
  | None => refuse 400 "scan_directory is required"
  | Some patch =>
      let slug := sdScannerSlug patch in
      if String.eqb slug "" then refuse 400 "scan_directory.scanner_slug is required"
      else Mutate (fun cfg =>
        match FindScanDirectoryIndex (cfDirectoryScanner cfg) slug with
        | None => if allowMissing then appendNewScanDirectory cfg patch else refused 404 "no scan directory with that slug"
        | Some index =>
            match scanDirectories cfg !! index with
            | None => Refused Panicked
            | Some stored =>
                given merged := applyUpdateMask stored patch mask in
                let merged := merged {{ sdScannerSlug := slug }} in
                match validateScanDirectory merged with
                | Some err => refused 400 err
                | None => Reply (setScanDirectories (<[index := merged]> (scanDirectories cfg)) cfg, merged)
                end
            end
        end)
  end.

Definition DeleteScanDirectory (slug : string) : method unit :=
  Mutate (fun cfg =>
    match FindScanDirectoryIndex (cfDirectoryScanner cfg) slug with
    | None => refused 404 "no scan directory with that slug"
    | Some index => Reply (setScanDirectories (removeAt index (scanDirectories cfg)) cfg, tt)
    end).

(** ** Sidecar types *)

Definition validateSidecarType (entry : Entry) : option string :=
  if String.eqb (eType entry) "" then Some "type is required"
  else match ParseSidecarCategory (eCategory entry) with Err err => Some err | Ok _ => None end.

Definition compileSidecarRegistry (cfg : Config) : reply failure unit :=
  match NewSidecarRegistry (sidecarTypes cfg) with Err err => refused 400 err | Ok _ => Reply tt end.

(** [newID] is what uuid.NewString returns. *)
Definition CreateSidecarType (newID : string) (entry : option Entry) : method Entry :=
  let entry := default {| eId := ""; eType := ""; eCategory := ""; eOrder := 0; ePatterns := []; eExtensions := [] |} entry in
  if negb (String.eqb (eId entry) "") then refuse 400 "id is server-minted and must not be set on Create"
  else if negb (eOrder entry =? 0)%Z then refuse 400 "order cannot be set here; a new type is created disabled — use ReorderSidecarTypes"
  else
    match validateSidecarType entry with
    | Some err => refuse 400 err
    | None =>
        Mutate (fun cfg =>
          let entry := entry {{ eId := newID; eOrder := 0%Z }} in
          let cfg := setSidecarTypes (sidecarTypes cfg ++ [entry]) cfg in
          given _ := compileSidecarRegistry cfg in Reply (cfg, entry))
    end.

Definition GetSidecarType (live : Config) (id : string) : reply failure Entry :=
  match FindSidecarTypeIndexByID (cfDirectoryScanner live) id ≫= fun index => sidecarTypes live !! index with
  | None => refused 404 "no sidecar type with that id"
  | Some entry => Reply entry
  end.

Definition ListSidecarTypes (live : Config) := listOf sidecarTypeOrderFields (sidecarTypes live).

Definition UpdateSidecarType (patch : option Entry) (mask : list string) : method Entry :=
  match patch with
  | None => refuse 400 "sidecar_type is required"
  | Some patch =>
      let id := eId patch in
      if String.eqb id "" then refuse 400 "sidecar_type.id is required"
      else
        match List.find (fun path => String.eqb path "order" || String.eqb path "id") mask with
        | Some path => refuse 400 (errorText (UnknownPath (path +:+ " cannot be changed here")))
        | None =>
            Mutate (fun cfg =>
              match FindSidecarTypeIndexByID (cfDirectoryScanner cfg) id with
              | None => refused 404 "no sidecar type with that id"
              | Some index =>
                  match sidecarTypes cfg !! index with
                  | None => Refused Panicked
                  | Some stored =>
                      given merged := applyUpdateMask stored patch mask in
                      let merged := merged {{ eId := id; eOrder := eOrder stored }} in
                      match validateSidecarType merged with
                      | Some err => refused 400 err
                      | None =>
                          let cfg := setSidecarTypes (<[index := merged]> (sidecarTypes cfg)) cfg in
                          given _ := compileSidecarRegistry cfg in Reply (cfg, merged)
                      end
                  end
              end)
        end
  end.

Definition DeleteSidecarType (id : string) : method unit :=
  Mutate (fun cfg =>
    match FindSidecarTypeIndexByID (cfDirectoryScanner cfg) id with
    | None => refused 404 "no sidecar type with that id"
    | Some index => Reply (setSidecarTypes (removeAt index (sidecarTypes cfg)) cfg, tt)
    end).

(** The order requested for an entry, which is there when the loop assigns it. *)
Definition reordered (requested : gmap string Z) (entry : Entry) : Entry := entry {{ eOrder := default 0%Z (requested !! eId entry) }}.

Definition ReorderSidecarTypes (requested : gmap string Z) : method (list Entry) :=
  Mutate (fun cfg =>
    let types := sidecarTypes cfg in
    match List.filter (fun entry => bool_decide (requested !! eId entry = None)) types with
    | _ :: _ as missing =>
        refused 400 ("the order must name every sidecar type; missing: " +:+
          str_join ", " (map (fun entry => eId entry +:+ " (" +:+ eType entry +:+ ")") missing))
    | [] =>
        match List.find (fun e => bool_decide (FindSidecarTypeIndexByID (cfDirectoryScanner cfg) e.1 = None)) (range_map ["ReorderSidecarTypes"] requested) with
        | Some (id, _) => refused 400 ("no sidecar type with id " +:+ id)
        | None =>
            let cfg := setSidecarTypes (map (reordered requested) types) cfg in
            given _ := compileSidecarRegistry cfg in Reply (cfg, sidecarTypes cfg)
        end
    end).

Definition ResetSidecarTypes : method (list Entry) := Mutate (fun cfg => Reply (setSidecarTypes DefaultSidecarTypes cfg, DefaultSidecarTypes)).
End scanner.

(** * Agents *)

Definition agentOrderFields (path : string) : option (Agent -> Agent -> comparison) :=
  if String.eqb path "slug" then Some (fun a b => String.compare (agSlug a) (agSlug b))
  else if String.eqb path "display_name" then Some (fun a b => String.compare (agDisplayName a) (agDisplayName b))
  else None.

Definition agentWritablePaths (path : string) : bool := String.eqb path "display_name" || String.eqb path "mappings" || String.eqb path "log_level".

(** [sanitizeAgent] keeps the configured fields, the only ones of [Agent]. *)
Definition sanitizeAgent (agent : option Agent) : Agent := default {| agSlug := ""; agDisplayName := ""; agMappings := []; agLogLevel := "" |} agent.

(** The loop of [validateMappings], with the slugs seen before. *)
Fixpoint validateMappings_loop (cfg : Config) (slug : string) (seen : gset string) (mappings : list AgentDirectoryMapping) : option (Z * string) :=
  match mappings with
  | [] => None
  | mapping :: rest =>
      let scanner := amScannerSlug mapping in
      match FindScanDirectoryIndex (cfDirectoryScanner cfg) scanner with
      | None => Some (400, "no scan directory with slug " +:+ quote scanner)%Z
      | Some _ =>
          if decide (scanner ∈ seen) then Some (400, "scan directory " +:+ quote scanner +:+ " is mapped twice")%Z
          else
            match AgentForScanner cfg scanner with
            | Some owner =>
                if String.eqb (agSlug owner) slug then validateMappings_loop cfg slug ({[scanner]} ∪ seen) rest
                else Some (409, "scan directory " +:+ quote scanner +:+ " is already mapped to agent " +:+ quote (agSlug owner))%Z
            | None => validateMappings_loop cfg slug ({[scanner]} ∪ seen) rest
            end
      end
  end.

Definition validateMappings (cfg : Config) (entry : Agent) : option (Z * string) := validateMappings_loop cfg (agSlug entry) ∅ (agMappings entry).

Definition appendNewAgent (cfg : Config) (entry : Agent) : reply failure (Config * Agent) :=
  match ValidateSlug (agSlug entry) with
  | Some err => refused 400 err
  | None =>
      match FindAgentIndex cfg (agSlug entry) with
      | Some _ => refused 409 ("an agent with slug " +:+ quote (agSlug entry) +:+ " already exists")
      | None =>
          match validateMappings cfg entry with
          | Some (status, err) => refused status err
          | None => Reply (cfg {{ cfAgents ::= fun l => l ++ [entry] }}, entry)
          end
      end
  end.

(** handlers.ValidateLogLevel. *)
Definition ValidateLogLevel (level : string) : option string :=
  if String.eqb level LogLevelInfo || String.eqb level LogLevelDebug then None
  else Some ("log_level must be " +:+ quote LogLevelInfo +:+ " or " +:+ quote LogLevelDebug).

Section agents.
Context `{!Masked Agent}.

Definition CreateAgent (slug : string) (agent : option Agent) : method Agent :=
  let entry := sanitizeAgent agent in
  let bodySlug := agSlug entry in
  if negb (String.eqb bodySlug "") && negb (String.eqb bodySlug slug) then
    refuse 400 ("agent.slug " +:+ quote bodySlug +:+ " does not match agent_id " +:+ quote slug)
  else
    let entry := entry {{ agSlug := slug }} in
    match ValidateSlug slug with
    | Some err => refuse 400 err
    | None => Mutate (fun cfg => appendNewAgent cfg entry)
    end.

Definition UpdateAgent (patch : option Agent) (mask : list string) (allowMissing : bool) : method Agent :=
  match patch with
  | None => refuse 400 "agent is required"
  | Some patch =>
      let slug := agSlug patch in
      if String.eqb slug "" then refuse 400 "agent.slug is required"
      else
        match List.find (fun path => negb (agentWritablePaths path)) mask with
        | Some path => refuse 400 (errorText (UnknownPath (quote path +:+ " is not a writable agent field")))
        | None =>
            Mutate (fun cfg =>
              match FindAgentIndex cfg slug with
              | None => if allowMissing then appendNewAgent cfg patch else refused 404 "no agent with that slug"
              | Some index =>
                  match cfAgents cfg !! index with
                  | None => Refused Panicked
                  | Some stored =>
                      given merged := applyUpdateMask stored patch mask in
                      let merged := merged {{ agSlug := slug }} in
                      match validateMappings cfg merged with
                      | Some (status, err) => refused status err
                      | None => Reply (cfg {{ cfAgents ::= fun l => <[index := merged]> l }}, merged)
                      end
                  end
              end)
        end
  end.

(** The change; the published projection is removed after it ([AgentRegistry]). *)
Definition DeleteAgent (slug : string) : method unit :=
  Mutate (fun cfg =>
    match FindAgentIndex cfg slug with
    | None => refused 404 "no agent with that slug"
    | Some index => Reply (cfg {{ cfAgents ::= removeAt index }}, tt)
    end).

Definition SetLogLevel (slug logLevel : string) : method Agent :=
  match ValidateLogLevel logLevel with
  | Some err => refuse 400 err
  | None =>
      Mutate (fun cfg =>
        match FindAgentIndex cfg slug ≫= fun index => (fun agent => (index, agent)) <$> cfAgents cfg !! index with
        | Some (index, agent) =>
            let agent := agent {{ agLogLevel := logLevel }} in Reply (cfg {{ cfAgents ::= fun l => <[index := agent]> l }}, agent)
        | None =>
            let entry := {| agSlug := slug; agDisplayName := ""; agMappings := []; agLogLevel := logLevel |} in
            Reply (cfg {{ cfAgents ::= fun l => l ++ [entry] }}, entry)
        end)
  end.
End agents.

(** * Sonarr instances *)

Definition sonarrOrderFields (path : string) : option (SonarrInstance -> SonarrInstance -> comparison) :=
  if String.eqb path "instance_slug" then Some (fun a b => String.compare (siInstanceSlug a) (siInstanceSlug b))
  else if String.eqb path "instance_name" then Some (fun a b => String.compare (siInstanceName a) (siInstanceName b))
  else None.

Definition validateSonarrInstance (instance : SonarrInstance) : option string :=
  if String.eqb (siInstanceSlug instance) "" then Some "instance_slug is required" else None.

Definition checkSlugFreeAcrossInterfaces (cfg : Config) (slug : string) : reply failure unit :=
  given slugs := unless_panic (AllInstanceSlugs (cfInterfaces cfg)) in
  if existsb (fun used => String.eqb used slug) slugs then refused 422 ("slug " +:+ quote slug +:+ " is already in use by another interface type")
  else Reply tt.

(** [withStorage] is ensureStorageSection. *)
Definition appendNewSonarrInstance (cfg : Config) (instance : SonarrInstance) : reply failure (Config * SonarrInstance) :=
  let instance := withStorage instance in
  match validateSonarrInstance instance with
  | Some err => refused 400 err
  | None =>
      given index := unless_panic (FindSonarrIndex (cfInterfaces cfg) (siInstanceSlug instance)) in
      match index with
      | Some _ => refused 409 ("a Sonarr instance with slug " +:+ quote (siInstanceSlug instance) +:+ " already exists")
      | None =>
          given _ := checkSlugFreeAcrossInterfaces cfg (siInstanceSlug instance) in
          Reply (cfg {{ cfInterfaces ::= fun l => l ++ [Some instance] }}, instance)
      end
  end.

Definition cloneOrNewSonarrInstance (instance : option SonarrInstance) : SonarrInstance :=
  withStorage (default {| siInstanceName := ""; siInstanceSlug := ""; siSonarrUrl := ""; siSonarrApiKey := ""; siRootDirMap := []; siStorage := None |} instance).

Section sonarr.
Context `{!Masked SonarrInstance}.

Definition CreateSonarrInstance (slug : string) (instance : option SonarrInstance) : method SonarrInstance :=
  let instance := cloneOrNewSonarrInstance instance in
  let bodySlug := siInstanceSlug instance in
  if negb (String.eqb bodySlug "") && negb (String.eqb bodySlug slug) then
    refuse 400 ("sonarr_instance.instance_slug " +:+ quote bodySlug +:+ " does not match sonarr_instance_id " +:+ quote slug)
  else Mutate (fun cfg => appendNewSonarrInstance cfg (instance {{ siInstanceSlug := slug }})).

Definition GetSonarrInstance (live : Config) (slug : string) : reply failure (option SonarrInstance) :=
  given index := unless_panic (FindSonarrIndex (cfInterfaces live) slug) in
  match index ≫= fun index => cfInterfaces live !! index with
  | None => refused 404 "no Sonarr instance with that slug"
  | Some instance => Reply instance
  end.

Definition UpdateSonarrInstance (patch : option SonarrInstance) (mask : list string) (allowMissing : bool) : method SonarrInstance :=
  match patch with
  | None => refuse 400 "sonarr_instance is required"
  | Some patch =>
      let slug := siInstanceSlug patch in
      if String.eqb slug "" then refuse 400 "sonarr_instance.instance_slug is required"
      else Mutate (fun cfg =>
        given index := unless_panic (FindSonarrIndex (cfInterfaces cfg) slug) in
        match index with
        | None => if allowMissing then appendNewSonarrInstance cfg patch else refused 404 "no Sonarr instance with that slug"
        | Some index =>
            match cfInterfaces cfg !! index with
            | Some (Some stored) =>
                given merged := applyUpdateMask stored patch mask in
                let merged := withStorage (merged {{ siInstanceSlug := slug }}) in
                match validateSonarrInstance merged with
                | Some err => refused 400 err
                | None => Reply (cfg {{ cfInterfaces ::= fun l => <[index := Some merged]> l }}, merged)
                end
            | _ => Refused Panicked
            end
        end)
  end.

Definition DeleteSonarrInstance (slug : string) : method unit :=
  Mutate (fun cfg =>
    given index := unless_panic (FindSonarrIndex (cfInterfaces cfg) slug) in
    match index with
    | None => refused 404 "no Sonarr instance with that slug"
    | Some index => Reply (cfg {{ cfInterfaces ::= removeAt index }}, tt)
    end).
End sonarr.

(** * Sections *)

Section sections.
Context `{!Masked EventBusConfig, !Masked LoggingConfig, !Masked AdminUser}.

Definition UpdateEventBusConfig (patch : option EventBusConfig) (mask : list string) : method EventBusConfig :=
  match patch with
  | None => refuse 400 "event_bus config is required"
  | Some patch =>
      Mutate (fun cfg =>
        given merged := applyUpdateMask (cfEventBus cfg) patch mask in
        match validateEventBusConfig merged with
        | Some err => refused 400 err
        | None => Reply (cfg {{ cfEventBus := merged }}, merged)
        end)
  end.

Definition UpdateLoggingConfig (patch : option LoggingConfig) (mask : list string) : method LoggingConfig :=
  match patch with
  | None => refuse 400 "logging config is required"
  | Some patch =>
      Mutate (fun cfg =>
        given merged := applyUpdateMask (cfLogging cfg) patch mask in
        match ValidateLogLevel (lcServerLevel merged) with
        | Some err => refused 400 err
        | None => Reply (cfg {{ cfLogging := merged }}, merged)
        end)
  end.

Definition adminMaskFields (path : string) : bool := String.eqb path "username" || String.eqb path "email" || String.eqb path "authentication_scheme".

Definition validAuthScheme (scheme : AuthenticationScheme) : bool := match scheme with AuthSchemeNone | AuthSchemePassword => true | _ => false end.

Definition blankAdminCredential (admin : AdminUser) : AdminUser := admin {{ auPasswordSalt := ""; auPasswordHash := "" }}.

Definition GetAdminUser (live : Config) : AdminUser := blankAdminCredential (cfAdmin live).

(** The loop over the masked identity fields. *)
Fixpoint adminPatchError (patch : AdminUser) (mask : list string) : option string :=
  match mask with
  | [] => None
  | path :: rest =>
      if String.eqb path "username" && String.eqb (auUsername patch) "" then Some "username cannot be empty"
      else if String.eqb path "email" && String.eqb (auEmail patch) "" then Some "email cannot be empty"
      else if String.eqb path "authentication_scheme" && negb (validAuthScheme (auAuthenticationScheme patch)) then
        Some "authentication_scheme must be AUTHENTICATION_SCHEME_NONE or AUTHENTICATION_SCHEME_PASSWORD"
      else adminPatchError patch rest
  end.

(** [hashed] is what passwordhash.Hash answers for the new password; a nil patch
    is read as an empty one. *)
Definition UpdateAdminUser (hashed : string -> result (string * string)) (patch : option AdminUser) (newPassword : string) (mask : list string) : method AdminUser :=
  if bool_decide (mask = []) && String.eqb newPassword "" then refuse 400 "update_mask must name at least one field, or new_password must be set"
  else if existsb (fun path => negb (adminMaskFields path)) mask then
    refuse 400 (errorText (UnknownPath "the admin update_mask may name only username, email or authentication_scheme"))
  else if bool_decide (patch = None /\ mask <> []) then refuse 400 "admin is required when update_mask names a field"
  else
    let patch := default emptyAdmin patch in
    match adminPatchError patch mask with
    | Some err => refuse 400 err
    | None =>
        match (if String.eqb newPassword "" then Ok None else match hashed newPassword with Ok h => Ok (Some h) | Err err => Err err end) with
        | Err _ => refuse 500 "failed to update admin credentials"
        | Ok credential =>
            Mutate (fun cfg =>
              given merged := (if bool_decide (mask = []) then Reply (cfAdmin cfg) else applyUpdateMask (cfAdmin cfg) patch mask) in
              let '(salt, hash) := default (auPasswordSalt (cfAdmin cfg), auPasswordHash (cfAdmin cfg)) credential in
              let merged := merged {{ auPasswordSalt := salt; auPasswordHash := hash }} in
              Reply (cfg {{ cfAdmin := merged }}, blankAdminCredential merged))
        end
    end.

(** [newSecret] is what authsecret.GenerateSecret answers. *)
Definition RotateHmacSecret (newSecret : result string) : method unit :=
  match newSecret with
  | Err _ => refuse 500 "failed to rotate signing secret"
  | Ok newSecret => Mutate (fun cfg => Reply (cfg {{ cfAuth ::= fun auth => auth {{ acHmacSecret := newSecret }} }}, tt))
  end.

(** GetConfig: the whole configuration with its secrets blanked. *)
Definition GetConfig (live : Config) : Config := live {{ cfAdmin ::= blankAdminCredential; cfAuth ::= fun auth => auth {{ acHmacSecret := "" }} }}.
End sections.
