(* ===== verification/ConfigInvariant.v ===== *)
(** What every configuration of the server satisfies: [config_ok], the rules
    that no method lets a request break, and that each method of ConfigServices keeps it whatever it is asked, so that it holds of
    the stored and of the live configuration in every interleaving of
    ConfigStore. *)
From stdpp Require Import strings list gmap.
From Stdlib Require Import Ascii ZArith Lia.
From coqutil Require Import Datatypes.RecordSetters.
Import DoubleBraceUpdate.
From S2P Require Import Prelude Sidecar Topics Streams AppConfig ConfigStore Services ConfigServices.
#[local] Open Scope go_scope.

(** * Lists addressed by a key *)

Lemma findIndex_split {A} (p : A -> bool) l i : findIndex p l = Some i ->
  exists l1 x l2, l = l1 ++ x :: l2 /\ i = length l1 /\ l !! i = Some x /\ p x = true /\ forall y, y ∈ l1 -> p y = false.
Proof.
  intros (x & Hx & Hp & Hfirst)%findIndex_Some. exists (take i l), x, (drop (S i) l). apply lookup_lt_Some in Hx as Hlt.
  rewrite length_take_le by lia. split_and!; [by rewrite take_drop_middle|done..|].
  intros y (j & Hj)%list_elem_of_lookup. apply lookup_take_Some in Hj as [Hj Hlt']. by apply (Hfirst j).
Qed.

Lemma insert_middle {A} (l1 l2 : list A) x y : <[length l1 := y]> (l1 ++ x :: l2) = l1 ++ y :: l2.
Proof. rewrite <- (Nat.add_0_r (length l1)). by rewrite insert_app_r. Qed.

Lemma removeAt_middle {A} (l1 l2 : list A) x : removeAt (length l1) (l1 ++ x :: l2) = l1 ++ l2.
Proof. unfold removeAt. rewrite take_app_length. f_equal. change (x :: l2) with ([x] ++ l2). rewrite app_assoc, drop_app_length'; [done|]. rewrite length_app. cbn. lia. Qed.

Lemma removeAt_sublist {A} i (l : list A) : removeAt i l `sublist_of` l.
Proof. unfold removeAt. rewrite <- (take_drop i l) at 3. apply sublist_app; [done|]. replace (S i) with (i + 1)%nat by lia. rewrite <- drop_drop. apply sublist_drop. Qed.

Lemma sublist_map {A B} (f : A -> B) l l' : l `sublist_of` l' -> map f l `sublist_of` map f l'.
Proof. induction 1; cbn; by constructor. Qed.

Lemma sublist_concat {A} (l l' : list (list A)) : l `sublist_of` l' -> concat l `sublist_of` concat l'.
Proof. induction 1; cbn; [done|by apply sublist_app|]. by apply sublist_inserts_l. Qed.

Lemma NoDup_sublist {A} (l l' : list A) : l `sublist_of` l' -> NoDup l' -> NoDup l.
Proof. intros Hs Hn. by eapply sublist_NoDup. Qed.

Lemma Forall_sublist {A} (P : A -> Prop) l l' : l `sublist_of` l' -> Forall P l' -> Forall P l.
Proof. intros Hs. rewrite !Forall_forall. intros Hall x Hx. apply Hall. by eapply elem_of_sublist. Qed.

(** A key that [findIndex] does not find is a new one. *)
Lemma findIndex_key_None {A} (key : A -> string) l k : findIndex (fun x => String.eqb (key x) k) l = None <-> k ∉ map key l.
Proof.
  rewrite findIndex_None. split.
  - intros Hall (x & -> & Hx)%list_elem_of_fmap. specialize (Hall x Hx). by rewrite String.eqb_refl in Hall.
  - intros Hk x Hx. destruct (String.eqb_spec (key x) k) as [<-|]; [|done]. destruct Hk. apply list_elem_of_fmap. eauto.
Qed.

Lemma NoDup_snoc {A} (l : list A) x : NoDup (l ++ [x]) <-> NoDup l /\ x ∉ l.
Proof.
  rewrite NoDup_app. split; [intros (H1 & H2 & _); split; [done|]; intros Hx; by apply (H2 x Hx); left|].
  intros [H1 H2]. split_and!; [done| |apply NoDup_singleton]. intros y Hy ->%list_elem_of_singleton. done.
Qed.

(** A value two lists of a duplicate-free concatenation hold is held by one. *)
Lemma NoDup_concat_owner {A B} (f : A -> list B) l a a' s : NoDup (concat (map f l)) -> a ∈ l -> a' ∈ l -> s ∈ f a -> s ∈ f a' -> a = a'.
Proof.
  assert (forall l a, a ∈ l -> s ∈ f a -> s ∈ concat (map f l)) as Hin.
  { intros k b Hb Hs. apply list_elem_of_In, in_concat. exists (f b). split; [by apply in_map, list_elem_of_In|by apply list_elem_of_In]. }
  induction l as [|b l IH]; [by intros _ ?%elem_of_nil|]. cbn. intros (Hb & Hd & Hl)%NoDup_app Ha Ha' Hs Hs'.
  apply elem_of_cons in Ha as [->|Ha], Ha' as [->|Ha']; [done| | |by apply IH]; exfalso; eapply Hd; eauto.
Qed.

(** * The invariant *)

Definition mapped (agent : Agent) : list string := map amScannerSlug (agMappings agent).

Section invariant.
Context `{Regexp}.

Record scanner_ok (d : DirectoryScannerConfig) : Prop := {
  so_parallel : (0 < dsParallelCount d)%Z;
  so_slugs : NoDup (map sdScannerSlug (dsScanDirectories d));
  so_valid : Forall (fun entry => validateScanDirectory entry = None) (dsScanDirectories d);
  (** The scanner never falls back on another table. *)
  so_sidecars : is_ok (NewSidecarRegistry (dsSidecarTypes d)) = true;
}.

(** A library is scanned by one agent, through one mapping. *)
Record agents_ok (agents : list Agent) : Prop := {
  ao_slugs : NoDup (map agSlug agents);
  ao_mapped : NoDup (concat (map mapped agents));
}.

(** No lookup dereferences a nil instance. *)
Record interfaces_ok (instances : list SonarrInstance) : Prop := {
  io_slugs : NoDup (map siInstanceSlug instances);
  io_valid : Forall (fun instance => validateSonarrInstance instance = None) instances;
  io_storage : Forall (fun instance => siStorage instance <> None) instances;
}.

Record config_ok (c : Config) : Prop := {
  co_scanner : scanner_ok (cfDirectoryScanner c);
  co_agents : agents_ok (cfAgents c);
  co_interfaces : exists instances, cfInterfaces c = map Some instances /\ interfaces_ok instances;
  co_logging : ValidateLogLevel (lcServerLevel (cfLogging c)) = None;
  co_event_bus : validateEventBusConfig (cfEventBus c) = None;
  co_scheme : validAuthScheme (auAuthenticationScheme (cfAdmin c)) = true;
}.

Lemma withStorage_id i : siStorage i <> None -> withStorage i = i.
Proof. destruct i as [? ? ? ? ? []]; [done|]. by intros []. Qed.

Lemma withStorage_some i : siStorage (withStorage i) <> None.
Proof. by destruct i as [? ? ? ? ? []]. Qed.

Lemma withStorage_slug i : siInstanceSlug (withStorage i) = siInstanceSlug i.
Proof. by destruct i as [? ? ? ? ? []]. Qed.

Lemma renormalize_ok c : config_ok c -> renormalize c = c.
Proof.
  intros [_ _ (l & Hl & [_ _ Hst]) _ _ Hs]. unfold renormalize, Normalize, normalizeAuthenticationScheme, normalizeSonarrStorage.
  destruct c as [[u e s h sch] ifs sc ag lg eb au]. cbn in *. subst ifs. rewrite map_map.
  assert (map (fun x => withStorage <$> Some x) l = map Some l) as ->.
  { apply map_ext_in. intros i Hi%list_elem_of_In. cbn. rewrite Forall_forall in Hst. f_equal. by apply withStorage_id, Hst. }
  by destruct sch.
Qed.

(** ** Libraries and agents *)

Lemma AgentForScanner_None c s : AgentForScanner c s = None -> s ∉ concat (map mapped (cfAgents c)).
Proof.
  intros Hf Hs. apply list_elem_of_In, in_concat in Hs as (names & Hn & Hs). apply in_map_iff in Hn as (a & <- & Ha).
  pose proof (List.find_none _ _ Hf a Ha) as Hno. apply not_true_iff_false in Hno. destruct Hno. apply existsb_exists.
  unfold mapped in Hs. apply in_map_iff in Hs as (m & Hm & Hin). exists m. split; [done|]. by apply String.eqb_eq.
Qed.

Lemma AgentForScanner_Some c s a : AgentForScanner c s = Some a -> a ∈ cfAgents c /\ s ∈ mapped a.
Proof.
  intros [Ha Hm]%List.find_some. split; [by apply list_elem_of_In|]. apply existsb_exists in Hm as (m & Hin & <-%String.eqb_eq).
  by apply list_elem_of_In, in_map.
Qed.

(** A library that is mapped is found under the one agent that maps it. *)
Lemma AgentForScanner_owner c s a : agents_ok (cfAgents c) -> a ∈ cfAgents c -> s ∈ mapped a -> AgentForScanner c s = Some a.
Proof.
  intros [_ Hm] Ha Hs. destruct (AgentForScanner c s) as [a'|] eqn:Hf.
  - apply AgentForScanner_Some in Hf as [Ha' Hs']. f_equal. by eapply (NoDup_concat_owner mapped).
  - apply AgentForScanner_None in Hf. destruct Hf. apply list_elem_of_In, in_concat. exists (mapped a). by split; [apply in_map|]; apply list_elem_of_In.
Qed.

Lemma validateMappings_loop_None c slug seen mappings : validateMappings_loop c slug seen mappings = None ->
  NoDup (map amScannerSlug mappings) /\
  forall s, s ∈ map amScannerSlug mappings -> s ∉ seen /\ FindScanDirectoryIndex (cfDirectoryScanner c) s <> None /\
    forall a, AgentForScanner c s = Some a -> agSlug a = slug.
Proof.
  revert seen. induction mappings as [|m rest IH]; intros seen; cbn [validateMappings_loop].
  { intros _. split; [constructor|by intros s ?%elem_of_nil]. }
  destruct (FindScanDirectoryIndex _ _) eqn:Hd; [|done]. destruct (decide _) as [|Hseen]; [done|]. intros Hrest.
  assert (validateMappings_loop c slug ({[amScannerSlug m]} ∪ seen) rest = None /\ forall a, AgentForScanner c (amScannerSlug m) = Some a -> agSlug a = slug) as [Hloop Howner].
  { destruct (AgentForScanner c (amScannerSlug m)) as [a|]; [|by split]. destruct (String.eqb_spec (agSlug a) slug) as [He|]; [|done].
    split; [done|]. by intros a' [= <-]. }
  apply IH in Hloop as [Hnd Hall]. cbn [map]. split.
  - constructor; [|done]. intros Hin. destruct (Hall _ Hin) as [Hno _]. set_solver.
  - intros s [->|Hs]%elem_of_cons; [split_and!; [done|congruence|done]|]. destruct (Hall s Hs) as (Hno & Hrest'). split; [set_solver|done].
Qed.

Lemma agents_ok_perm l l' : l ≡ₚ l' -> agents_ok l' -> agents_ok l.
Proof. intros Hp [Hs Hm]. by constructor; rewrite Hp. Qed.

Lemma agents_ok_sublist l l' : l `sublist_of` l' -> agents_ok l' -> agents_ok l.
Proof. intros Hp [Hs Hm]. constructor; [by eapply NoDup_sublist, Hs; apply sublist_map|by eapply NoDup_sublist, Hm; apply sublist_concat, sublist_map]. Qed.

(** An agent whose mappings are valid joins the others, which are some of those
    configured, none with its slug. *)
Lemma agents_ok_add c others agent : agents_ok (cfAgents c) -> others `sublist_of` cfAgents c -> agSlug agent ∉ map agSlug others ->
  validateMappings c agent = None -> agents_ok (agent :: others).
Proof.
  intros Hok Hsub Hslug [Hnd Hall]%validateMappings_loop_None. destruct (agents_ok_sublist _ _ Hsub Hok) as [Hs Hm].
  constructor; cbn [map concat]; [by constructor|]. apply NoDup_app. split_and!; [done| |done].
  intros s Hmine Hother. apply list_elem_of_In, in_concat in Hother as (names & Hn & Hin). apply in_map_iff in Hn as (a & <- & Ha).
  destruct (Hall s Hmine) as (_ & _ & Howner). apply Hslug. apply list_elem_of_fmap. exists a.
  split; [|by apply list_elem_of_In]. symmetry. apply Howner, AgentForScanner_owner; [done| |by apply list_elem_of_In].
  eapply elem_of_sublist; [by apply list_elem_of_In|done].
Qed.

(** ** The sections, one change at a time *)

Lemma scanner_ok_directories d l : scanner_ok d -> NoDup (map sdScannerSlug l) -> Forall (fun entry => validateScanDirectory entry = None) l ->
  scanner_ok (d {{ dsScanDirectories := l }}).
Proof. by intros [H1 _ _ H4] H2 H3; constructor. Qed.

Lemma scanner_ok_sidecars d l : scanner_ok d -> is_ok (NewSidecarRegistry l) = true -> scanner_ok (d {{ dsSidecarTypes := l }}).
Proof. by intros [H1 H2 H3 _] H4; constructor. Qed.

Lemma config_ok_scanner c d : config_ok c -> scanner_ok d -> config_ok (c {{ cfDirectoryScanner := d }}).
Proof. by intros [_ H2 H3 H4 H5 H6] H1; constructor. Qed.

Lemma config_ok_directories c l : config_ok c -> NoDup (map sdScannerSlug l) -> Forall (fun entry => validateScanDirectory entry = None) l ->
  config_ok (setScanDirectories l c).
Proof. intros Hc H1 H2. by apply config_ok_scanner, scanner_ok_directories; [|apply Hc|..]. Qed.

Lemma config_ok_sidecars c l : config_ok c -> is_ok (NewSidecarRegistry l) = true -> config_ok (setSidecarTypes l c).
Proof. intros Hc H1. by apply config_ok_scanner, scanner_ok_sidecars; [|apply Hc|..]. Qed.

Lemma config_ok_agents c f : config_ok c -> agents_ok (f (cfAgents c)) -> config_ok (c {{ cfAgents ::= f }}).
Proof. by intros [H1 _ H3 H4 H5 H6] H2; constructor. Qed.

Lemma config_ok_interfaces c f l : config_ok c -> f (cfInterfaces c) = map Some l -> interfaces_ok l -> config_ok (c {{ cfInterfaces ::= f }}).
Proof. intros [H1 H2 _ H4 H5 H6] Hf H3; constructor; eauto. Qed.

(** Injectivity that does not compute the configuration. *)
Lemma Reply_config {A} (c c' : Config) (a a' : A) : (Reply (c, a) : reply failure (Config * A)) = Reply (c', a') -> c = c'.
Proof. by intros [= -> _]. Qed.

Definition keeps {A} (apply : Config -> reply failure (Config * A)) : Prop := forall c c' a, config_ok c -> apply c = Reply (c', a) -> config_ok c'.

Definition method_keeps {A} (m : method A) : Prop := match m with Answer _ => True | Mutate apply => keeps apply end.

Lemma appendNewScanDirectory_keeps entry : keeps (fun cfg => appendNewScanDirectory cfg entry).
Proof.
  intros c c' a Hc. unfold appendNewScanDirectory. destruct (validateScanDirectory entry) eqn:Hv; [done|].
  destruct (FindScanDirectoryIndex _ _) eqn:Hi; [done|]. intros <-%Reply_config. apply config_ok_directories; [done|rewrite map_app; apply NoDup_snoc|].
  - split; [apply Hc|]. by apply (findIndex_key_None sdScannerSlug).
  - apply Forall_app. split; [apply Hc|by constructor].
Qed.

Lemma appendNewAgent_keeps entry : keeps (fun cfg => appendNewAgent cfg entry).
Proof.
  intros c c' a Hc. unfold appendNewAgent. destruct (ValidateSlug _); [done|]. destruct (FindAgentIndex _ _) eqn:Hi; [done|].
  destruct (validateMappings c entry) as [[status err]|] eqn:Hv; [done|]. intros <-%Reply_config. apply config_ok_agents; [done|].
  apply (agents_ok_perm _ (entry :: cfAgents c)); [by rewrite Permutation_app_comm|].
  apply (agents_ok_add c); [apply Hc|done| |done]. by apply (findIndex_key_None agSlug).
Qed.

Lemma FindSonarrIndex_Some l slug : FindSonarrIndex (map Some l) slug = Done (findIndex (fun i => String.eqb (siInstanceSlug i) slug) l).
Proof. induction l as [|i l IH]; [done|]. cbn. destruct (String.eqb _ _); [done|]. by rewrite IH. Qed.

Lemma interfaces_ok_snoc l i : interfaces_ok l -> siInstanceSlug i ∉ map siInstanceSlug l -> validateSonarrInstance i = None -> siStorage i <> None -> interfaces_ok (l ++ [i]).
Proof.
  intros [H1 H2 H3] Hs Hv Hst. constructor; [rewrite map_app; by apply NoDup_snoc|apply Forall_app; split; [done|by constructor]..].
Qed.

Lemma appendNewSonarrInstance_keeps instance : keeps (fun cfg => appendNewSonarrInstance cfg instance).
Proof.
  intros c c' a Hc. pose proof (co_interfaces _ Hc) as (l & Hl & Hok). unfold appendNewSonarrInstance.
  destruct (validateSonarrInstance _) eqn:Hv; [done|]. rewrite Hl, FindSonarrIndex_Some. cbn [unless_panic answer_bind].
  destruct (findIndex _ l) eqn:Hi; [done|]. destruct (checkSlugFreeAcrossInterfaces _ _) as [[]|]; [|done]. cbn [answer_bind]. intros <-%Reply_config.
  apply (config_ok_interfaces _ _ (l ++ [withStorage instance])); [done|by rewrite Hl, map_app|].
  apply interfaces_ok_snoc; [done| |done|apply withStorage_some]. by apply (findIndex_key_None siInstanceSlug).
Qed.
End invariant.

(** * Every method *)

(** What fieldmask.Update leaves alone, of the two messages whose validity is
    checked in the request only, under the masks those methods let through:
    some of the writable paths, and neither the empty mask nor the star. *)
Class MaskedFields `{!Masked DirectoryScannerConfig, !Masked AdminUser} : Prop := {
  UpdateMask_parallel mask (d src : DirectoryScannerConfig) : Forall (eq "parallel_count") mask -> mask <> [] ->
    UpdateMask mask d src = d {{ dsParallelCount := dsParallelCount src }};
  UpdateMask_scheme mask (a src : AdminUser) : Forall (fun path => adminMaskFields path = true) mask -> mask <> [] ->
    auAuthenticationScheme (UpdateMask mask a src) = if decide ("authentication_scheme" ∈ mask) then auAuthenticationScheme src else auAuthenticationScheme a;
}.

Section methods.
Context `{!Masked DirectoryScannerConfig, !Masked ScanDirectory, !Masked Entry, !Masked Agent, !Masked SonarrInstance,
  !Masked EventBusConfig, !Masked LoggingConfig, !Masked AdminUser, Regexp, MapOrder}.

(** A request that changes the configuration. *)
Inductive operation : Type :=
| ChangeScannerConfig (patch : option DirectoryScannerConfig) (mask : list string)
| NewScanDirectory (slug : string) (entry : option ScanDirectory)
| ChangeScanDirectory (patch : option ScanDirectory) (mask : list string) (allowMissing : bool)
| DropScanDirectory (slug : string)
| NewSidecarType (newID : string) (entry : option Entry)
| ChangeSidecarType (patch : option Entry) (mask : list string)
| DropSidecarType (id : string)
| OrderSidecarTypes (requested : gmap string Z)
| RestoreSidecarTypes
| NewAgent (slug : string) (agent : option Agent)
| ChangeAgent (patch : option Agent) (mask : list string) (allowMissing : bool)
| DropAgent (slug : string)
| ChangeAgentLevel (slug logLevel : string)
| NewSonarrInstance (slug : string) (instance : option SonarrInstance)
| ChangeSonarrInstance (patch : option SonarrInstance) (mask : list string) (allowMissing : bool)
| DropSonarrInstance (slug : string)
| ChangeEventBus (patch : option EventBusConfig) (mask : list string)
| ChangeLogging (patch : option LoggingConfig) (mask : list string)
| ChangeAdmin (hashed : string -> result (string * string)) (patch : option AdminUser) (newPassword : string) (mask : list string)
| NewHmacSecret (newSecret : result string).

(** A method whose answer is not looked at. *)
Definition unanswered {A} (m : method A) : method unit :=
  match m with
  | Answer r => Answer (given _ := r in Reply tt)
  | Mutate apply => Mutate (fun cfg => match apply cfg with Reply (cfg', _) => Reply (cfg', tt) | Refused e => Refused e end)
  end.

Definition methodOf (op : operation) : method unit :=
  match op with
  | ChangeScannerConfig patch mask => unanswered (UpdateDirectoryScannerConfig patch mask)
  | NewScanDirectory slug entry => unanswered (CreateScanDirectory slug entry)
  | ChangeScanDirectory patch mask allowMissing => unanswered (UpdateScanDirectory patch mask allowMissing)
  | DropScanDirectory slug => DeleteScanDirectory slug
  | NewSidecarType newID entry => unanswered (CreateSidecarType newID entry)
  | ChangeSidecarType patch mask => unanswered (UpdateSidecarType patch mask)
  | DropSidecarType id => DeleteSidecarType id
  | OrderSidecarTypes requested => unanswered (ReorderSidecarTypes requested)
  | RestoreSidecarTypes => unanswered ResetSidecarTypes
  | NewAgent slug agent => unanswered (CreateAgent slug agent)
  | ChangeAgent patch mask allowMissing => unanswered (UpdateAgent patch mask allowMissing)
  | DropAgent slug => DeleteAgent slug
  | ChangeAgentLevel slug logLevel => unanswered (SetLogLevel slug logLevel)
  | NewSonarrInstance slug instance => unanswered (CreateSonarrInstance slug instance)
  | ChangeSonarrInstance patch mask allowMissing => unanswered (UpdateSonarrInstance patch mask allowMissing)
  | DropSonarrInstance slug => DeleteSonarrInstance slug
  | ChangeEventBus patch mask => unanswered (UpdateEventBusConfig patch mask)
  | ChangeLogging patch mask => unanswered (UpdateLoggingConfig patch mask)
  | ChangeAdmin hashed patch newPassword mask => unanswered (UpdateAdminUser hashed patch newPassword mask)
  | NewHmacSecret newSecret => RotateHmacSecret newSecret
  end.

Lemma unanswered_keeps {A} (m : method A) : method_keeps m -> method_keeps (unanswered m).
Proof.
  destruct m as [r|apply]; [done|]. cbn. intros Hk c c' [] Hc. destruct (apply c) as [[c1 a]|e] eqn:Ha; [|done].
  intros <-%Reply_config. by eapply Hk.
Qed.

(** ** The scanner *)

Lemma applyUpdateMask_Reply {R} `{Masked R} (dst src : R) mask merged : applyUpdateMask dst src mask = Reply merged ->
  mask <> [] /\ merged = UpdateMask mask dst src.
Proof. destruct mask as [|path mask]; [done|]. cbn. destruct (ValidateMask _ _); [|done]. by intros [= <-]. Qed.

Lemma UpdateDirectoryScannerConfig_keeps `{!MaskedFields} patch mask : method_keeps (UpdateDirectoryScannerConfig patch mask).
Proof.
  unfold UpdateDirectoryScannerConfig. destruct patch as [patch|]; [|done]. destruct (existsb _ mask) eqn:Hpaths; [done|]. intros c c' a Hc. cbn.
  destruct (applyUpdateMask _ patch mask) as [merged|] eqn:Hm; cbn [answer_bind]; [|done]. apply applyUpdateMask_Reply in Hm as [Hne ->].
  rewrite UpdateMask_parallel; [|apply Forall_forall|done].
  - destruct (_ <=? 0)%Z eqn:Hp; [done|]. apply Z.leb_gt in Hp. intros <-%Reply_config. apply config_ok_scanner; [done|].
    destruct (co_scanner _ Hc) as [_ H2 H3 H4]. by constructor.
  - intros path Hpath. destruct (String.eqb_spec path "parallel_count") as [->|Hp]; [done|]. exfalso. apply not_true_iff_false in Hpaths. apply Hpaths.
    apply existsb_exists. exists path. split; [by apply list_elem_of_In|]. by apply negb_true_iff, String.eqb_neq.
Qed.

Lemma CreateScanDirectory_keeps slug entry : method_keeps (CreateScanDirectory slug entry).
Proof. unfold CreateScanDirectory. destruct (_ && _); [done|]. apply appendNewScanDirectory_keeps. Qed.

Lemma UpdateScanDirectory_keeps patch mask allowMissing : method_keeps (UpdateScanDirectory patch mask allowMissing).
Proof.
  unfold UpdateScanDirectory. destruct patch as [patch|]; [|done]. destruct (String.eqb _ ""); [done|]. intros c c' a Hc. cbn.
  destruct (FindScanDirectoryIndex _ _) as [i|] eqn:Hi; [|destruct allowMissing; [by apply appendNewScanDirectory_keeps|done]].
  apply findIndex_split in Hi as (l1 & old & l2 & Hl & -> & Hat & Hold%String.eqb_eq & _). unfold scanDirectories. rewrite Hat.
  destruct (applyUpdateMask old patch mask) as [merged|]; cbn [answer_bind]; [|done]. destruct (validateScanDirectory _) eqn:Hv; [done|]. intros <-%Reply_config.
  destruct (co_scanner _ Hc) as [_ Hnd Hall _]. rewrite Hl in Hnd, Hall |- *. rewrite insert_middle. apply config_ok_directories; [done| |].
  - rewrite map_app in Hnd |- *. cbn in *. unfold constant. by rewrite Hold in Hnd.
  - apply Forall_app in Hall as [Hl1 Hl2]. apply Forall_app. split; [done|]. inversion Hl2. by constructor.
Qed.

Lemma DeleteScanDirectory_keeps slug : method_keeps (DeleteScanDirectory slug).
Proof.
  intros c c' a Hc. cbn. destruct (FindScanDirectoryIndex _ _) as [i|]; [|done]. intros <-%Reply_config. destruct (co_scanner _ Hc) as [_ Hnd Hall _].
  apply config_ok_directories; [done| |].
  - eapply NoDup_sublist, Hnd. apply sublist_map, removeAt_sublist.
  - by eapply Forall_sublist, Hall; apply removeAt_sublist.
Qed.

(** ** The sidecar table *)

Lemma sublist_filter {A} (q : A -> bool) l l' : l `sublist_of` l' -> List.filter q l `sublist_of` List.filter q l'.
Proof. induction 1; cbn; [done| |]; case_match; by try constructor. Qed.

Lemma table_ok_sublist l l' : l `sublist_of` l' -> table_ok l' -> table_ok l.
Proof.
  intros Hs [H1 H2 H3 H4]. constructor.
  - intros e He. apply H1. by eapply elem_of_sublist.
  - by eapply NoDup_sublist, H2; apply sublist_map.
  - by eapply NoDup_sublist, H3; apply sublist_map.
  - eapply NoDup_sublist, H4. by apply sublist_filter, sublist_map.
Qed.

Hypothesis defaults_compile : forall e pattern, e ∈ DefaultSidecarTypes -> pattern ∈ ePatterns e -> is_ok (Compile pattern) = true.

Lemma default_registry : is_ok (NewSidecarRegistry DefaultSidecarTypes) = true.
Proof. apply NewSidecarRegistry_iff. by apply default_table_ok. Qed.

Lemma registry_sublist l l' : l `sublist_of` l' -> l' <> [] -> is_ok (NewSidecarRegistry l') = true -> is_ok (NewSidecarRegistry l) = true.
Proof.
  intros Hs Hne Hl'%NewSidecarRegistry_iff. apply NewSidecarRegistry_iff. destruct l as [|e l]; [by apply default_table_ok|].
  destruct l' as [|e' l']; [done|]. by eapply table_ok_sublist.
Qed.

(** A change that compiles the table it leaves. *)
Lemma compiled_keeps {A} c l (a : A) c' a' : config_ok c ->
  (given _ := compileSidecarRegistry (setSidecarTypes l c) in Reply (setSidecarTypes l c, a)) = Reply (c', a') -> config_ok c'.
Proof.
  intros Hc. unfold compileSidecarRegistry. change (sidecarTypes (setSidecarTypes l c)) with l. destruct (NewSidecarRegistry l) eqn:Hr; [|done]. cbn [answer_bind].
  intros <-%Reply_config. apply config_ok_sidecars; [done|]. by rewrite Hr.
Qed.

Lemma CreateSidecarType_keeps newID entry : method_keeps (CreateSidecarType newID entry).
Proof.
  unfold CreateSidecarType. destruct (negb _); [done|]. destruct (negb _); [done|]. destruct (validateSidecarType _); [done|].
  intros c c' a Hc. by apply compiled_keeps.
Qed.

Lemma UpdateSidecarType_keeps patch mask : method_keeps (UpdateSidecarType patch mask).
Proof.
  unfold UpdateSidecarType. destruct patch as [patch|]; [|done]. destruct (String.eqb _ ""); [done|]. destruct (List.find _ mask); [done|].
  intros c c' a Hc. cbn. destruct (FindSidecarTypeIndexByID _ _) as [i|]; [|done]. destruct (sidecarTypes c !! i) as [old|]; [|done].
  destruct (applyUpdateMask old patch mask) as [merged|]; cbn [answer_bind]; [|done]. destruct (validateSidecarType _); [done|]. by apply compiled_keeps.
Qed.

Lemma DeleteSidecarType_keeps id : method_keeps (DeleteSidecarType id).
Proof.
  intros c c' a Hc. cbn. destruct (FindSidecarTypeIndexByID _ _) as [i|] eqn:Hi; [|done]. intros <-%Reply_config. apply config_ok_sidecars; [done|].
  eapply registry_sublist, so_sidecars, co_scanner, Hc; [apply removeAt_sublist|]. intros He. unfold FindSidecarTypeIndexByID in Hi. by rewrite He in Hi.
Qed.

Lemma ReorderSidecarTypes_keeps requested : method_keeps (ReorderSidecarTypes requested).
Proof.
  intros c c' a Hc. cbn. destruct (List.filter _ _); [|done]. destruct (List.find _ _) as [[]|]; [done|]. by apply compiled_keeps.
Qed.

Lemma ResetSidecarTypes_keeps : method_keeps ResetSidecarTypes.
Proof. intros c c' a Hc <-%Reply_config. apply config_ok_sidecars; [done|apply default_registry]. Qed.

(** ** Agents *)

Lemma CreateAgent_keeps slug agent : method_keeps (CreateAgent slug agent).
Proof. unfold CreateAgent. destruct (_ && _); [done|]. destruct (ValidateSlug slug); [done|]. apply appendNewAgent_keeps. Qed.

(** The agents before and after the one with a slug. *)
Lemma agents_ok_middle l1 old l2 : agents_ok (l1 ++ old :: l2) -> agents_ok (old :: l1 ++ l2).
Proof. apply agents_ok_perm. by rewrite Permutation_middle. Qed.

Lemma UpdateAgent_keeps patch mask allowMissing : method_keeps (UpdateAgent patch mask allowMissing).
Proof.
  unfold UpdateAgent. destruct patch as [patch|]; [|done]. destruct (String.eqb _ ""); [done|]. destruct (List.find _ mask); [done|].
  intros c c' a Hc. cbn [keeps]. destruct (FindAgentIndex _ _) as [i|] eqn:Hi; [|destruct allowMissing; [by apply appendNewAgent_keeps|done]].
  apply findIndex_split in Hi as (l1 & old & l2 & Hl & -> & Hat & Hold%String.eqb_eq & _). rewrite Hat.
  destruct (applyUpdateMask old patch mask) as [merged|]; cbn [answer_bind]; [|done].
  destruct (validateMappings c _) as [[status err]|] eqn:Hv; [done|]. intros <-%Reply_config. apply config_ok_agents; [done|]. rewrite Hl, insert_middle.
  pose proof (co_agents _ Hc) as Hok. eapply agents_ok_perm; [symmetry; apply Permutation_middle|]. apply (agents_ok_add c); [done| | |done].
  - rewrite Hl. apply sublist_app; [done|]. by apply sublist_cons.
  - rewrite Hl in Hok. apply agents_ok_middle in Hok as [Hnd _]. cbn in Hnd. apply NoDup_cons in Hnd as [Hno _]. cbn. unfold constant. by rewrite Hold in Hno.
Qed.

Lemma DeleteAgent_keeps slug : method_keeps (DeleteAgent slug).
Proof.
  intros c c' a Hc. cbn [keeps]. destruct (FindAgentIndex _ _) as [i|]; [|done]. intros <-%Reply_config. apply config_ok_agents; [done|].
  eapply agents_ok_sublist; [apply removeAt_sublist|apply Hc].
Qed.

Lemma SetLogLevel_keeps slug logLevel : method_keeps (SetLogLevel slug logLevel).
Proof.
  unfold SetLogLevel. destruct (ValidateLogLevel logLevel); [done|]. intros c c' a Hc. cbn [keeps].
  destruct (FindAgentIndex c slug) as [i|] eqn:Hi; cbn [mbind option_bind].
  - apply findIndex_split in Hi as (l1 & old & l2 & Hl & -> & Hat & Hold%String.eqb_eq & _). rewrite Hat. intros <-%Reply_config.
    apply config_ok_agents; [done|]. rewrite Hl, insert_middle. pose proof (co_agents _ Hc) as Hok. rewrite Hl in Hok.
    destruct Hok as [H1 H2]. rewrite !map_app in H1, H2. by constructor; rewrite !map_app.
  - intros <-%Reply_config. apply config_ok_agents; [done|]. apply (agents_ok_perm _ ({| agSlug := slug; agDisplayName := ""; agMappings := []; agLogLevel := logLevel |} :: cfAgents c));
      [by rewrite Permutation_app_comm|]. destruct (co_agents _ Hc) as [H1 H2]. constructor; cbn; [|done]. constructor; [|done]. by apply (findIndex_key_None agSlug).
Qed.

(** ** Sonarr instances *)

Lemma CreateSonarrInstance_keeps slug instance : method_keeps (CreateSonarrInstance slug instance).
Proof. unfold CreateSonarrInstance. destruct (_ && _); [done|]. apply appendNewSonarrInstance_keeps. Qed.

Lemma interfaces_ok_sublist l l' : l `sublist_of` l' -> interfaces_ok l' -> interfaces_ok l.
Proof.
  intros Hs [H1 H2 H3]. constructor; [by eapply NoDup_sublist, H1; apply sublist_map|by eapply Forall_sublist, H2|by eapply Forall_sublist, H3].
Qed.

(** The instance a slug finds, among those before and after it. *)
Lemma sonarr_found c l slug i : cfInterfaces c = map Some l -> findIndex (fun i => String.eqb (siInstanceSlug i) slug) l = Some i ->
  exists l1 old l2, l = l1 ++ old :: l2 /\ cfInterfaces c = map Some l1 ++ Some old :: map Some l2 /\ i = length (map (@Some SonarrInstance) l1) /\
    cfInterfaces c !! i = Some (Some old) /\ siInstanceSlug old = slug.
Proof.
  intros Hl (l1 & old & l2 & -> & -> & Hat & Hold%String.eqb_eq & _)%findIndex_split. exists l1, old, l2. rewrite Hl, map_app, length_map. split_and!; try done.
  rewrite lookup_app_r, length_map, Nat.sub_diag by (by rewrite length_map). done.
Qed.

Lemma UpdateSonarrInstance_keeps patch mask allowMissing : method_keeps (UpdateSonarrInstance patch mask allowMissing).
Proof.
  unfold UpdateSonarrInstance. destruct patch as [patch|]; [|done]. destruct (String.eqb _ ""); [done|]. intros c c' a Hc. cbn [keeps].
  pose proof (co_interfaces _ Hc) as (l & Hl & Hok). replace (FindSonarrIndex (cfInterfaces c)) with (FindSonarrIndex (map Some l)) by (by rewrite Hl).
  rewrite FindSonarrIndex_Some. cbn [unless_panic answer_bind].
  destruct (findIndex _ l) as [i|] eqn:Hi; [|destruct allowMissing; [by apply appendNewSonarrInstance_keeps|done]].
  destruct (sonarr_found c l _ i Hl Hi) as (l1 & old & l2 & -> & Hl' & -> & Hat & Hold). rewrite Hat.
  destruct (applyUpdateMask old patch mask) as [merged|]; cbn [answer_bind]; [|done].
  set (new := withStorage _). destruct (validateSonarrInstance new) eqn:Hv; [done|]. intros <-%Reply_config.
  apply (config_ok_interfaces _ _ (l1 ++ new :: l2)); [done|by rewrite Hl', insert_middle, map_app|].
  destruct Hok as [H1 H2 H3]. apply Forall_app in H2 as [H2 H2'], H3 as [H3 H3']. inversion H2'. inversion H3'.
  constructor; [|apply Forall_app; split; [done|constructor; [|done]]..]; [|done|apply withStorage_some].
  rewrite map_app in H1 |- *. cbn in *. subst new. rewrite withStorage_slug. cbn. unfold constant. by rewrite Hold in H1.
Qed.

Lemma DeleteSonarrInstance_keeps slug : method_keeps (DeleteSonarrInstance slug).
Proof.
  intros c c' a Hc. cbn [keeps DeleteSonarrInstance]. pose proof (co_interfaces _ Hc) as (l & Hl & Hok).
  replace (FindSonarrIndex (cfInterfaces c)) with (FindSonarrIndex (map Some l)) by (by rewrite Hl). rewrite FindSonarrIndex_Some. cbn [unless_panic answer_bind].
  destruct (findIndex _ l) as [i|] eqn:Hi; [|done]. destruct (sonarr_found c l _ i Hl Hi) as (l1 & old & l2 & -> & Hl' & -> & _). intros <-%Reply_config.
  apply (config_ok_interfaces _ _ (l1 ++ l2)); [done|by rewrite Hl', removeAt_middle, map_app|].
  eapply interfaces_ok_sublist, Hok. apply sublist_app; [done|]. by apply sublist_cons.
Qed.

(** ** The other sections *)

Lemma UpdateEventBusConfig_keeps patch mask : method_keeps (UpdateEventBusConfig patch mask).
Proof.
  unfold UpdateEventBusConfig. destruct patch as [patch|]; [|done]. intros c c' a Hc. cbn [keeps].
  destruct (applyUpdateMask _ patch mask) as [merged|]; cbn [answer_bind]; [|done]. destruct (validateEventBusConfig merged) eqn:Hv; [done|].
  intros <-%Reply_config. by destruct Hc; constructor.
Qed.

Lemma UpdateLoggingConfig_keeps patch mask : method_keeps (UpdateLoggingConfig patch mask).
Proof.
  unfold UpdateLoggingConfig. destruct patch as [patch|]; [|done]. intros c c' a Hc. cbn [keeps].
  destruct (applyUpdateMask _ patch mask) as [merged|]; cbn [answer_bind]; [|done]. destruct (ValidateLogLevel _) eqn:Hv; [done|].
  intros <-%Reply_config. by destruct Hc; constructor.
Qed.

Lemma existsb_negb_false {A} (p : A -> bool) l x : existsb (fun y => negb (p y)) l = false -> x ∈ l -> p x = true.
Proof.
  intros He Hx. destruct (p x) eqn:E; [done|]. apply not_true_iff_false in He. destruct He. apply existsb_exists. exists x.
  split; [by apply list_elem_of_In|by rewrite E].
Qed.

Lemma adminPatchError_scheme patch mask : adminPatchError patch mask = None -> "authentication_scheme" ∈ mask ->
  validAuthScheme (auAuthenticationScheme patch) = true.
Proof.
  induction mask as [|path mask IH]; cbn [adminPatchError]; [by intros _ ?%elem_of_nil|].
  destruct (_ && String.eqb (auUsername patch) ""); [done|]. destruct (_ && String.eqb (auEmail patch) ""); [done|].
  intros Hrest [<-|Hin]%elem_of_cons; [cbn in Hrest; by destruct (validAuthScheme _)|]. destruct (_ && _) in Hrest; [done|]. by apply IH.
Qed.

Lemma UpdateAdminUser_keeps `{!MaskedFields} hashed patch newPassword mask : method_keeps (UpdateAdminUser hashed patch newPassword mask).
Proof.
  unfold UpdateAdminUser. destruct (_ && _); [done|]. destruct (existsb _ mask) eqn:Hwritable; [done|]. destruct (bool_decide (_ /\ _)); [done|].
  set (p := default emptyAdmin patch). destruct (adminPatchError p mask) eqn:Hp; [done|]. destruct (if String.eqb newPassword "" then _ else _) as [credential|]; [|done].
  intros c c' a Hc. cbn [keeps]. destruct (if bool_decide _ then _ else _) as [merged|] eqn:Hm; cbn [answer_bind]; [|done].
  destruct (default _ credential) as [salt hash]. intros <-%Reply_config.
  assert (validAuthScheme (auAuthenticationScheme merged) = true) as Hs; [|by destruct Hc, merged; constructor].
  case_bool_decide; [injection Hm as <-; apply Hc|]. apply applyUpdateMask_Reply in Hm as [Hne ->].
  rewrite UpdateMask_scheme; [|apply Forall_forall; intros path Hpath; by eapply existsb_negb_false|done].
  destruct (decide _); [by eapply adminPatchError_scheme|apply Hc].
Qed.

Lemma RotateHmacSecret_keeps newSecret : method_keeps (RotateHmacSecret newSecret).
Proof. destruct newSecret as [s|]; [|done]. intros c c' a Hc <-%Reply_config. by destruct Hc; constructor. Qed.

(** ** All of them *)

Lemma methodOf_keeps `{!MaskedFields} op : method_keeps (methodOf op).
Proof.
  destruct op; cbn [methodOf]; try apply unanswered_keeps;
    auto using UpdateDirectoryScannerConfig_keeps, CreateScanDirectory_keeps, UpdateScanDirectory_keeps, DeleteScanDirectory_keeps, CreateSidecarType_keeps,
      UpdateSidecarType_keeps, DeleteSidecarType_keeps, ReorderSidecarTypes_keeps, ResetSidecarTypes_keeps, CreateAgent_keeps, UpdateAgent_keeps,
      DeleteAgent_keeps, SetLogLevel_keeps, CreateSonarrInstance_keeps, UpdateSonarrInstance_keeps, DeleteSonarrInstance_keeps,
      UpdateEventBusConfig_keeps, UpdateLoggingConfig_keeps, UpdateAdminUser_keeps, RotateHmacSecret_keeps.
Qed.

Lemma Default_ok : config_ok Default.
Proof.
  constructor; [|repeat constructor|by exists []; repeat constructor|reflexivity..].
  constructor; [by vm_compute|constructor|constructor|apply default_registry].
Qed.

Context {Fleet : Type} (PublishAll : Config -> Fleet -> Fleet * option string) (storageError : string -> failure).
Context `{ConfigCollectionLaws}.

(** C8: Whatever requests the server is sent, and however they interleave and
    their reads and writes fail, the configuration that is stored and the one
    the process runs on satisfy [config_ok] at every moment: the scanner's
    parallel count is positive, the slugs of scan directories are distinct and
    not empty and their types known, the table of sidecar types compiles, the
    slugs of agents are distinct and no library is mapped twice, the slugs of
    Sonarr instances are distinct and not empty and each has its storage
    section, the server's log level and the administrator's scheme are known,
    and the event bus keeps a positive number of entries for at least an hour
    with ordered retry delays (no upper bound is set). These are the rules every
    method checks. Of the rules only some of them check nothing is promised: a
    slug or a log level of an agent may be malformed, and a mapping may name a
    library that is gone ([rules_not_kept] in ConfigSamples). *)
Theorem configuration_stays_valid `{!MaskedFields} (operations : nat -> operation) (request : nat -> Config -> reply failure (Config * unit)) db rt s :
  (forall i, methodOf (operations i) = Mutate (request i)) -> config_ok (current db) -> config_ok (rtLive rt) ->
  rtc (serving PublishAll storageError request) (idle db rt) s ->
  config_ok (current (svDatabase s)) /\ config_ok (rtLive (svRuntime s)).
Proof.
  intros Hreq Hdb Hrt Hr. eapply (configuration_invariant PublishAll storageError request config_ok); [|done..].
  intros i c c' a Hc Hi. pose proof (methodOf_keeps (operations i)) as Hk. rewrite Hreq in Hk. specialize (Hk _ _ _ Hc Hi). by rewrite (renormalize_ok _ Hk).
Qed.
End methods.
