(* ===== verification/ConfigCollections.v ===== *)
(** The collections of the configuration as what their methods promise: maps
    from slugs to resources. [createSpec], [updateSpec] and [deleteSpec] are the
    standard methods on such a map, and the methods of the scan directories and
    of the Sonarr instances, which work on slices, implement them. *)
From stdpp Require Import strings list gmap.
From Stdlib Require Import Ascii ZArith Lia.
From coqutil Require Import Datatypes.RecordSetters.
Import DoubleBraceUpdate.
From S2P Require Import Prelude Sidecar Topics Streams AppConfig ConfigStore Services ConfigServices ConfigInvariant.
#[local] Open Scope go_scope.

(** * Slices as maps *)

Section keyed.
Context {A : Type} (key : A -> string).

Definition asMap (l : list A) : gmap string A := list_to_map (map (fun x => (key x, x)) l).

Lemma asMap_keys l : (map (fun x => (key x, x)) l).*1 = map key l.
Proof. by induction l as [|x l IH]; [|cbn; f_equal]. Qed.

Lemma asMap_perm l l' : NoDup (map key l) -> l ≡ₚ l' -> asMap l = asMap l'.
Proof. intros Hnd Hp. apply list_to_map_proper; [by rewrite asMap_keys|by apply Permutation_map]. Qed.

Lemma asMap_None l k : asMap l !! k = None <-> findIndex (fun x => String.eqb (key x) k) l = None.
Proof. rewrite findIndex_key_None. unfold asMap. rewrite <- not_elem_of_list_to_map, asMap_keys. done. Qed.

Lemma asMap_cons x l : asMap (x :: l) = <[key x := x]> (asMap l).
Proof. done. Qed.

Lemma asMap_snoc l x : NoDup (map key l) -> key x ∉ map key l -> asMap (l ++ [x]) = <[key x := x]> (asMap l).
Proof.
  intros Hnd Hx. rewrite <- asMap_cons. apply asMap_perm; [rewrite map_app; by apply NoDup_snoc|]. by rewrite Permutation_app_comm.
Qed.

(** Around the one element a key finds. *)
Lemma asMap_middle l1 x l2 : NoDup (map key (l1 ++ x :: l2)) -> asMap (l1 ++ x :: l2) = <[key x := x]> (asMap (l1 ++ l2)) /\ asMap (l1 ++ l2) !! key x = None.
Proof.
  intros Hnd. split; [rewrite <- asMap_cons; apply asMap_perm; [done|]; by rewrite Permutation_middle|].
  apply not_elem_of_list_to_map_1. rewrite asMap_keys. rewrite map_app in *. cbn in Hnd. rewrite <- Permutation_middle in Hnd. by apply NoDup_cons in Hnd as [? _].
Qed.

Lemma asMap_found l1 x l2 : NoDup (map key (l1 ++ x :: l2)) -> asMap (l1 ++ x :: l2) !! key x = Some x.
Proof. intros Hnd. destruct (asMap_middle l1 x l2 Hnd) as [-> _]. by rewrite lookup_insert_eq. Qed.

Lemma asMap_replace l1 x y l2 : NoDup (map key (l1 ++ x :: l2)) -> key y = key x -> asMap (l1 ++ y :: l2) = <[key x := y]> (asMap (l1 ++ x :: l2)).
Proof.
  intros Hnd Hy. destruct (asMap_middle l1 x l2 Hnd) as [-> _]. rewrite insert_insert_eq. destruct (asMap_middle l1 y l2) as [-> _]; [|by rewrite Hy].
  rewrite map_app in *. cbn in *. by rewrite Hy.
Qed.

Lemma asMap_remove l1 x l2 : NoDup (map key (l1 ++ x :: l2)) -> asMap (l1 ++ l2) = delete (key x) (asMap (l1 ++ x :: l2)).
Proof. intros Hnd. destruct (asMap_middle l1 x l2 Hnd) as [-> Hno]. by rewrite delete_insert_id. Qed.
End keyed.

(** * The standard methods *)

Section standard.
Context {R : Type}.
(** What a resource must satisfy, and the errors of a slug that is taken or
    unknown. *)
Variables (check : R -> option string) (taken : string -> failure) (missing : failure).

Definition createSpec (slug : string) (new : R) (m : gmap string R) : reply failure (gmap string R * R) :=
  match check new with
  | Some err => Refused (connectError 400 err)
  | None => match m !! slug with Some _ => Refused (taken slug) | None => Reply (<[slug := new]> m, new) end
  end.

(** [merge] makes the new resource of the old one; an unknown slug is created
    when the caller allows it. *)
Definition updateSpec (slug : string) (merge : R -> reply failure R) (new : option R) (m : gmap string R) : reply failure (gmap string R * R) :=
  match m !! slug, new with
  | None, None => Refused missing
  | None, Some new => createSpec slug new m
  | Some old, _ =>
      given merged := merge old in
      match check merged with Some err => Refused (connectError 400 err) | None => Reply (<[slug := merged]> m, merged) end
  end.

Definition deleteSpec (slug : string) (m : gmap string R) : reply failure (gmap string R * unit) :=
  match m !! slug with None => Refused missing | Some _ => Reply (delete slug m, tt) end.

Definition getSpec (slug : string) (m : gmap string R) : reply failure R :=
  match m !! slug with None => Refused missing | Some r => Reply r end.
End standard.

(** A method answers what the specification does, and leaves the map it leaves. *)
Definition implements {R A} (view : Config -> gmap string R) (spec : gmap string R -> reply failure (gmap string R * A)) (c : Config) (m : method A) : Prop :=
  match m with
  | Answer _ => False
  | Mutate apply =>
      match apply c with
      | Reply (c', a) => spec (view c) = Reply (view c', a)
      | Refused e => spec (view c) = Refused e
      end
  end.

(** * Scan directories *)

Section directories.
Context `{!Masked ScanDirectory, Regexp}.

Definition directories (c : Config) : gmap string ScanDirectory := asMap sdScannerSlug (scanDirectories c).

Definition directoryTaken (slug : string) : failure := connectError 409 ("a scan directory with slug " +:+ quote slug +:+ " already exists").
Definition noDirectory : failure := connectError 404 "no scan directory with that slug".

Lemma create_directory c slug entry : NoDup (map sdScannerSlug (scanDirectories c)) -> sdScannerSlug entry = slug ->
  implements directories (createSpec validateScanDirectory directoryTaken slug entry) c (Mutate (fun cfg => appendNewScanDirectory cfg entry)).
Proof.
  intros Hnd <-. unfold implements, appendNewScanDirectory, createSpec. destruct (validateScanDirectory entry); [done|]. cbn [directories].
  destruct (FindScanDirectoryIndex _ _) eqn:Hi; unfold FindScanDirectoryIndex in Hi.
  - destruct (directories c !! sdScannerSlug entry) eqn:Hm; [done|]. unfold directories, scanDirectories in Hm. apply asMap_None in Hm. congruence.
  - pose proof (proj2 (asMap_None sdScannerSlug _ _) Hi) as Hm. change (dsScanDirectories _) with (scanDirectories c) in Hm.
    fold (directories c) in Hm. rewrite Hm. f_equal. f_equal. symmetry. apply asMap_snoc; [done|]. by apply (findIndex_key_None sdScannerSlug) in Hi.
Qed.

(** C23: The methods of the scan directories are the standard methods on the map of
    them. *)
Theorem directories_refine (c : Config) (slug : string) (body : option ScanDirectory) (patch : ScanDirectory) (mask : list string) (allowMissing : bool) :
  NoDup (map sdScannerSlug (scanDirectories c)) -> sdScannerSlug (cloneOrNewScanDirectory body) ∈ [""; slug] -> sdScannerSlug patch <> "" ->
  GetScanDirectory c slug = getSpec noDirectory slug (directories c) /\
  implements directories (createSpec validateScanDirectory directoryTaken slug ((cloneOrNewScanDirectory body) {{ sdScannerSlug := slug }})) c (CreateScanDirectory slug body) /\
  implements directories
    (updateSpec validateScanDirectory directoryTaken noDirectory (sdScannerSlug patch)
      (fun old => given merged := applyUpdateMask old patch mask in Reply ((merged : ScanDirectory) {{ sdScannerSlug := sdScannerSlug patch }})) (if allowMissing then Some patch else None))
    c (UpdateScanDirectory (Some patch) mask allowMissing) /\
  implements directories (deleteSpec noDirectory slug) c (DeleteScanDirectory slug).
Proof.
  intros Hnd Hbody Hpatch. split_and!.
  - unfold GetScanDirectory, getSpec. destruct (FindScanDirectoryIndex _ _) as [i|] eqn:Hi.
    + apply findIndex_split in Hi as (l1 & old & l2 & Hl & -> & Hat & <-%String.eqb_eq & _). cbn [mbind option_bind]. unfold directories, scanDirectories in *.
      rewrite Hat. rewrite Hl in *. by rewrite asMap_found.
    + unfold directories, scanDirectories. by rewrite (proj2 (asMap_None sdScannerSlug _ _) Hi).
  - unfold CreateScanDirectory. cbn zeta. destruct (_ && _) eqn:Hb.
    + apply andb_true_iff in Hb as [H1%negb_true_iff%String.eqb_neq H2%negb_true_iff%String.eqb_neq]. set_solver.
    + by apply create_directory.
  - unfold UpdateScanDirectory. destruct (String.eqb_spec (sdScannerSlug patch) ""); [done|]. unfold implements, updateSpec.
    destruct (FindScanDirectoryIndex _ _) as [i|] eqn:Hi.
    + apply findIndex_split in Hi as (l1 & old & l2 & Hl & -> & Hat & Hold%String.eqb_eq & _). unfold directories, scanDirectories in *. rewrite Hat.
      rewrite Hl in Hnd |- *. pose proof (asMap_found _ _ _ _ Hnd) as Hm. rewrite Hold in Hm. rewrite Hm.
      destruct (applyUpdateMask old patch mask) as [merged|]; cbn [answer_bind]; [|done]. destruct (validateScanDirectory _); [done|].
      rewrite insert_middle. do 2 f_equal. cbn. rewrite <- Hold. symmetry. by apply asMap_replace.
    + pose proof (proj2 (asMap_None sdScannerSlug _ _) Hi) as Hm. change (asMap _ _) with (directories c) in Hm. rewrite Hm. destruct allowMissing; [|done].
      by apply create_directory.
  - unfold DeleteScanDirectory, implements, deleteSpec. destruct (FindScanDirectoryIndex _ _) as [i|] eqn:Hi.
    + apply findIndex_split in Hi as (l1 & old & l2 & Hl & -> & Hat & <-%String.eqb_eq & _). unfold directories, scanDirectories in *. rewrite Hl in Hnd |- *.
      rewrite (asMap_found _ _ _ _ Hnd), removeAt_middle. do 2 f_equal. cbn. symmetry. by apply asMap_remove.
    + pose proof (proj2 (asMap_None sdScannerSlug _ _) Hi) as Hm. change (asMap _ _) with (directories c) in Hm. by rewrite Hm.
Qed.
End directories.

(** * Sonarr instances *)

Section instances.
Context `{!Masked SonarrInstance}.

Definition instances (c : Config) : gmap string SonarrInstance := asMap siInstanceSlug (omap id (cfInterfaces c)).

Definition instanceTaken (slug : string) : failure := connectError 409 ("a Sonarr instance with slug " +:+ quote slug +:+ " already exists").
Definition noInstance : failure := connectError 404 "no Sonarr instance with that slug".

Lemma omap_Some {A} (l : list A) : omap id (map Some l) = l.
Proof. induction l as [|x l IH]; [done|]. cbn. by f_equal. Qed.

Lemma instances_of c l : cfInterfaces c = map Some l -> instances c = asMap siInstanceSlug l.
Proof. intros Hl. unfold instances. by rewrite Hl, omap_Some. Qed.

Lemma instances_changed c f l : f (cfInterfaces c) = map Some l -> instances (c {{ cfInterfaces ::= f }}) = asMap siInstanceSlug l.
Proof. intros Hl. by apply instances_of. Qed.

Lemma AllInstanceSlugs_Some l : AllInstanceSlugs (map Some l) = Done (map siInstanceSlug l).
Proof. induction l as [|i l IH]; [done|]. cbn. by rewrite IH. Qed.

(** The check across kinds of interfaces finds nothing the collection's own
    check has not: there is one kind. *)
Lemma create_instance c l slug instance : cfInterfaces c = map Some l -> NoDup (map siInstanceSlug l) -> siInstanceSlug instance = slug ->
  implements instances (createSpec validateSonarrInstance instanceTaken slug (withStorage instance)) c (Mutate (fun cfg => appendNewSonarrInstance cfg instance)).
Proof.
  intros Hl Hnd <-. unfold implements, appendNewSonarrInstance, createSpec, checkSlugFreeAcrossInterfaces. destruct (validateSonarrInstance _); [done|].
  rewrite Hl, FindSonarrIndex_Some, AllInstanceSlugs_Some, withStorage_slug. cbn [unless_panic answer_bind].
  destruct (findIndex _ l) as [i|] eqn:Hi.
  - destruct (instances c !! siInstanceSlug instance) eqn:Hm; [done|]. unfold instances in Hm. rewrite Hl, omap_Some in Hm. apply asMap_None in Hm. congruence.
  - pose proof (proj2 (asMap_None siInstanceSlug _ _) Hi) as Hm. apply (findIndex_key_None siInstanceSlug) in Hi.
    destruct (existsb _ _) eqn:He.
    { apply existsb_exists in He as (s & Hs & Heq%String.eqb_eq). apply list_elem_of_In in Hs. by rewrite Heq in Hs. }
    cbn [answer_bind]. rewrite (instances_of c l Hl), Hm, (instances_changed c _ (l ++ [withStorage instance])) by (by rewrite Hl, map_app).
    f_equal. f_equal. rewrite <- (withStorage_slug instance). symmetry. apply asMap_snoc; [done|by rewrite withStorage_slug].
Qed.

(** The methods of the Sonarr instances are the standard methods on the map of
    them, and no nil instance is met. *)
Theorem instances_refine (c : Config) l (slug : string) (body : option SonarrInstance) (patch : SonarrInstance) (mask : list string) (allowMissing : bool) :
  cfInterfaces c = map Some l -> NoDup (map siInstanceSlug l) ->
  siInstanceSlug (cloneOrNewSonarrInstance body) ∈ [""; slug] -> siInstanceSlug patch <> "" ->
  GetSonarrInstance c slug = match getSpec noInstance slug (instances c) with Reply i => Reply (Some i) | Refused e => Refused e end /\
  implements instances (createSpec validateSonarrInstance instanceTaken slug ((cloneOrNewSonarrInstance body) {{ siInstanceSlug := slug }})) c (CreateSonarrInstance slug body) /\
  implements instances
    (updateSpec validateSonarrInstance instanceTaken noInstance (siInstanceSlug patch)
      (fun old => given merged := applyUpdateMask old patch mask in Reply (withStorage ((merged : SonarrInstance) {{ siInstanceSlug := siInstanceSlug patch }})))
      (if allowMissing then Some (withStorage patch) else None))
    c (UpdateSonarrInstance (Some patch) mask allowMissing) /\
  implements instances (deleteSpec noInstance slug) c (DeleteSonarrInstance slug).
Proof.
  intros Hl Hnd Hbody Hpatch. pose proof (instances_of c l Hl) as Hview. split_and!.
  - unfold GetSonarrInstance, getSpec. rewrite Hview. destruct (findIndex (fun i => String.eqb (siInstanceSlug i) slug) l) as [i|] eqn:Hi.
    + destruct (sonarr_found c l _ i Hl Hi) as (l1 & old & l2 & -> & Hl' & -> & Hat & <-). rewrite (asMap_found _ _ _ _ Hnd).
      replace (FindSonarrIndex (cfInterfaces c)) with (FindSonarrIndex (map Some (l1 ++ old :: l2))) by (by rewrite Hl). rewrite FindSonarrIndex_Some, Hi.
      cbn [unless_panic answer_bind mbind option_bind]. by rewrite Hat.
    + rewrite Hl, FindSonarrIndex_Some, Hi. by rewrite (proj2 (asMap_None siInstanceSlug _ _) Hi).
  - unfold CreateSonarrInstance. cbn zeta. destruct (_ && _) eqn:Hb.
    + apply andb_true_iff in Hb as [H1%negb_true_iff%String.eqb_neq H2%negb_true_iff%String.eqb_neq]. set_solver.
    + assert (withStorage ((cloneOrNewSonarrInstance body) {{ siInstanceSlug := slug }}) = (cloneOrNewSonarrInstance body) {{ siInstanceSlug := slug }}) as Hw.
      { unfold cloneOrNewSonarrInstance. destruct body as [[? ? ? ? ? []]|]; done. }
      rewrite <- Hw at 1. by apply (create_instance c l).
  - unfold UpdateSonarrInstance. destruct (String.eqb_spec (siInstanceSlug patch) ""); [done|]. unfold implements, updateSpec. rewrite Hview.
    replace (FindSonarrIndex (cfInterfaces c)) with (FindSonarrIndex (map Some l)) by (by rewrite Hl). rewrite FindSonarrIndex_Some. cbn [unless_panic answer_bind].
    destruct (findIndex _ l) as [i|] eqn:Hi.
    + destruct (sonarr_found c l _ i Hl Hi) as (l1 & old & l2 & -> & Hl' & -> & Hat & Hold). rewrite Hat.
      pose proof (asMap_found _ _ _ _ Hnd) as Hm. rewrite Hold in Hm. rewrite Hm.
      destruct (applyUpdateMask old patch mask) as [merged|]; cbn [answer_bind]; [|done]. set (new := withStorage _). destruct (validateSonarrInstance new); [done|].
      rewrite (instances_changed c _ (l1 ++ new :: l2)) by (by rewrite Hl', insert_middle, map_app). f_equal. f_equal. rewrite <- Hold. symmetry. apply asMap_replace; [done|]. subst new. by rewrite withStorage_slug.
    + pose proof (proj2 (asMap_None siInstanceSlug _ _) Hi) as Hm. rewrite Hm. destruct allowMissing; [|done].
      rewrite <- Hview. by apply (create_instance c l).
  - unfold DeleteSonarrInstance, implements, deleteSpec. rewrite Hview.
    replace (FindSonarrIndex (cfInterfaces c)) with (FindSonarrIndex (map Some l)) by (by rewrite Hl). rewrite FindSonarrIndex_Some. cbn [unless_panic answer_bind].
    destruct (findIndex _ l) as [i|] eqn:Hi.
    + destruct (sonarr_found c l _ i Hl Hi) as (l1 & old & l2 & -> & Hl' & -> & _ & <-). rewrite (asMap_found _ _ _ _ Hnd). 
      rewrite (instances_changed c _ (l1 ++ l2)) by (by rewrite Hl', removeAt_middle, map_app). f_equal. f_equal. symmetry. by apply asMap_remove.
    + by rewrite (proj2 (asMap_None siInstanceSlug _ _) Hi).
Qed.
End instances.
