(* ===== verification/ConfigSamples.v ===== *)
(** The configuration at work: field masks, page tokens and an order_by syntax
    of the kind the services are given, and the theorems of Services,
    ConfigInvariant and ConfigCollections at concrete requests. *)
From stdpp Require Import strings list gmap.
From Stdlib Require Import Ascii ZArith Lia.
From coqutil Require Import Datatypes.RecordSetters.
Import DoubleBraceUpdate.
From S2P Require Import Prelude Sidecar Topics Streams AppConfig ConfigStore Services ConfigServices ConfigInvariant ConfigCollections.
Import Sidecar.Literal ConfigStore.Sample.
#[local] Open Scope go_scope.
#[local] Existing Instance engine.

(** * The libraries *)

(** A mask over named fields. *)
Definition fieldMask {R} (fields : list (string * (R -> R -> R))) : Masked R := {|
  ValidateMask mask _ := match List.find (fun path => negb (existsb (fun f => String.eqb f.1 path) fields)) mask with Some path => Err path | None => Ok tt end;
  UpdateMask mask dst src := fold_left (fun acc path => match List.find (fun f => String.eqb f.1 path) fields with Some (_, set) => set acc src | None => acc end) mask dst |}.

#[local] Instance scannerMask : Masked DirectoryScannerConfig := fieldMask [("parallel_count", fun dst src => dst {{ dsParallelCount := dsParallelCount src }})].
#[local] Instance directoryMask : Masked ScanDirectory := fieldMask
  [("scanner_slug", fun dst src => dst {{ sdScannerSlug := sdScannerSlug src }}); ("scan_type", fun dst src => dst {{ sdScanType := sdScanType src }});
   ("directory", fun dst src => dst {{ sdDirectory := sdDirectory src }})].
#[local] Instance sidecarMask : Masked Entry := fieldMask [].
#[local] Instance agentMask : Masked Agent := fieldMask
  [("display_name", fun dst src => dst {{ agDisplayName := agDisplayName src }}); ("mappings", fun dst src => dst {{ agMappings := agMappings src }});
   ("log_level", fun dst src => dst {{ agLogLevel := agLogLevel src }})].
#[local] Instance sonarrMask : Masked SonarrInstance := fieldMask
  [("instance_name", fun dst src => dst {{ siInstanceName := siInstanceName src }}); ("instance_slug", fun dst src => dst {{ siInstanceSlug := siInstanceSlug src }})].
#[local] Instance eventBusMask : Masked EventBusConfig := fieldMask [("max_len", fun dst src => dst {{ ebMaxLen := ebMaxLen src }})].
#[local] Instance loggingMask : Masked LoggingConfig := fieldMask [("server_level", fun dst src => dst {{ lcServerLevel := lcServerLevel src }})].
#[local] Instance adminMask : Masked AdminUser := fieldMask
  [("username", fun dst src => dst {{ auUsername := auUsername src }}); ("email", fun dst src => dst {{ auEmail := auEmail src }});
   ("authentication_scheme", fun dst src => dst {{ auAuthenticationScheme := auAuthenticationScheme src }})].

#[local] Instance masks_ok : MaskedFields.
Proof.
  constructor.
  - intros mask d src Hall. destruct mask as [|path rest]; [done|]. intros _. apply Forall_cons in Hall as [<- Hall].
    induction Hall as [|path rest <- _ IH]; [done|exact IH].
  - intros mask a src _ _. revert a. induction mask as [|path mask IH]; intros a; [done|]. cbn [UpdateMask adminMask fieldMask fold_left] in *. rewrite IH.
    destruct (decide ("authentication_scheme" ∈ mask)); [rewrite decide_True by (by right); done|].
    destruct (decide (path = "authentication_scheme")) as [->|Hne]; [rewrite decide_True by (by left); done|].
    rewrite decide_False by (intros [|]%elem_of_cons; congruence). cbn [List.find fst]. destruct (String.eqb _ path); [done|]. destruct (String.eqb _ path); [done|].
    destruct (String.eqb_spec "authentication_scheme" path); [congruence|done].
Qed.

Fixpoint strokes (n : nat) : string := match n with O => "" | S n => String "|" (strokes n) end.

#[local] Instance tokens : PageTokens := {|
  EncodePageToken n := if (n <? 0)%Z then String "-" (strokes (Z.to_nat (- n))) else String "+" (strokes (Z.to_nat n));
  DecodePageToken s :=
    match s with
    | String "-" rest => Ok (- Z.of_nat (String.length rest))%Z
    | String "+" rest => Ok (Z.of_nat (String.length rest))
    | _ => Err "not a token"
    end |}.

Lemma length_strokes n : String.length (strokes n) = n.
Proof. induction n as [|n IH]; [done|]. cbn. by f_equal. Qed.

#[local] Instance tokens_ok : PageTokensLaws.
Proof.
  constructor; intros n; cbn; destruct (Z.ltb_spec n 0) as [Hn|Hn]; try done; rewrite length_strokes, Z2Nat.id; f_equal; lia.
Qed.

(** One name, a minus in front for descending. *)
#[local] Instance names : Ordering := fun orderBy =>
  Ok [match orderBy with String "-" rest => (rest, true) | _ => (orderBy, false) end].

(** * Requests *)

Definition library (slug : string) : ScanDirectory := {| sdScannerSlug := slug; sdScanType := TypeMovie; sdDirectory := "/media/" +:+ slug |}.

(** A library, and an agent that maps it. *)
Definition sampleOperation (i : nat) : operation :=
  match i with
  | 0%nat => NewScanDirectory "films" (Some (library ""))
  | _ => NewAgent "nas" (Some {| agSlug := ""; agDisplayName := "NAS"; agMappings := [{| amScannerSlug := "films"; amAgentPath := "/volume1/films" |}]; agLogLevel := LogLevelInfo |})
  end.

#[local] Instance asListed : MapOrder := {| map_order := fun _ keys => keys; map_order_perm := fun _ keys => reflexivity keys |}.

Definition sampleChange (i : nat) : Config -> reply failure (Config * unit) :=
  match methodOf (sampleOperation i) with Mutate apply => apply | Answer _ => fun _ => Refused Panicked end.

Definition storageFailure (err : string) : failure := connectError 500 err.

Notation serving := (ConfigStore.serving unpublished storageFailure sampleChange).
Notation server := (@ConfigStore.server engine unit oneDocument failure unit).

(** The agent is created while the library waits for the lock, and refused: it
    maps a library there is not yet. *)
Lemma sample_requests : exists s : server, rtc serving (idle noDocument fresh) s /\
  map sdScannerSlug (scanDirectories (current (svDatabase s))) = ["films"] /\ cfAgents (current (svDatabase s)) = [].
Proof.
  eexists. split; [|split].
  - eapply rtc_l; [by apply (arrives _ _ _ 0)|]. eapply rtc_l; [by apply (arrives _ _ _ 1)|].
    eapply rtc_l; [by apply (locks _ _ _ 1)|]. eapply rtc_l; [by eapply (reads _ _ _ 1)|]. eapply rtc_l; [by eapply (refuses _ _ _ 1)|].
    eapply rtc_l; [by apply (locks _ _ _ 0)|]. eapply rtc_l; [by eapply (reads _ _ _ 0)|]. eapply rtc_l; [by eapply (applies _ _ _ 0)|].
    eapply rtc_l; [by eapply (writes _ _ _ 0)|]. eapply rtc_l; [by eapply (propagates _ _ _ 0)|]. apply rtc_refl.
  - reflexivity.
  - reflexivity.
Qed.

Lemma configuration_stays_valid_witness : exists s : server,
  map sdScannerSlug (scanDirectories (current (svDatabase s))) = ["films"] /\ config_ok (current (svDatabase s)) /\ config_ok (rtLive (svRuntime s)).
Proof.
  destruct sample_requests as (s & Hr & Hfilms & _). exists s. split; [exact Hfilms|].
  apply (configuration_stays_valid defaults_compile unpublished storageFailure sampleOperation sampleChange noDocument fresh s).
  - intros [|i]; reflexivity.
  - exact (Default_ok defaults_compile).
  - exact (Default_ok defaults_compile).
  - exact Hr.
Defined.

(** What a request may be answered and stored, of a configuration that satisfies
    [config_ok]. *)
Definition storedBy {A} (m : method A) (c : Config) : option Config :=
  match m with Mutate apply => match apply c with Reply (c', _) => Some c' | Refused _ => None end | Answer _ => None end.

Definition mappedLibrary : Config :=
  setScanDirectories [library "films"]
    (Default {{ cfAgents := [{| agSlug := "nas"; agDisplayName := "NAS"; agMappings := [{| amScannerSlug := "films"; amAgentPath := "/volume1/films" |}];
                               agLogLevel := LogLevelInfo |}] }}).

(** An agent with an empty slug, one with a log level that is none, a mapping to
    a library that is gone, and a retention beyond what a sweep can subtract. *)
Example rules_not_kept :
  map agSlug ∘ cfAgents <$> storedBy (SetLogLevel "" LogLevelDebug) Default = Some [""] /\
  map agLogLevel ∘ cfAgents <$> storedBy (UpdateAgent (Some {| agSlug := "nas"; agDisplayName := ""; agMappings := []; agLogLevel := "loud" |}) ["log_level"] false) mappedLibrary = Some ["loud"] /\
  (fun c => (map sdScannerSlug (scanDirectories c), concat (map mapped (cfAgents c)))) <$> storedBy (DeleteScanDirectory "films") mappedLibrary = Some ([], ["films"]) /\
  validateEventBusConfig ((cfEventBus Default) {{ ebRetentionHours := 2562048%Z }}) = None.
Proof. split_and!; reflexivity. Qed.

Definition twoLibraries : Config := setScanDirectories [library "films"; library "shows"] Default.

(** A page at a time, from the last slug to the first. *)
Lemma list_pages_witness : exists pages, follow 3 (listOf scanDirectoryOrderFields (scanDirectories twoLibraries) "" "-scanner_slug" 1) "" = Some pages /\
  concat pages = [library "shows"; library "films"].
Proof.
  destruct (list_pages scanDirectoryOrderFields) with (items := scanDirectories twoLibraries) (orderBy := "-scanner_slug")
    (fields := [("scanner_slug", true)]) (pageSize := 1%Z) as (pages & Hf & _).
  - intros path compare. unfold scanDirectoryOrderFields. destruct (String.eqb path "scanner_slug"); [|destruct (String.eqb path "scan_type"); [|done]];
      intros [= <-]; apply (comparator_key _ String.compare), comparator_string.
  - discriminate.
  - reflexivity.
  - reflexivity.
  - exists pages. split; [exact Hf|]. vm_compute in Hf. injection Hf as <-. reflexivity.
Defined.

Lemma directories_refine_witness :
  implements directories (createSpec validateScanDirectory directoryTaken "music" ((library "") {{ sdScannerSlug := "music" }})) twoLibraries
    (CreateScanDirectory "music" (Some (library ""))) /\
  implements directories (deleteSpec noDirectory "music") twoLibraries (DeleteScanDirectory "music").
Proof.
  destruct (directories_refine twoLibraries "music" (Some (library "")) (library "films") ["directory"] false) as (_ & Hc & _ & Hd).
  - apply (bool_decide_unpack _). vm_compute. exact I.
  - apply (bool_decide_unpack _). vm_compute. exact I.
  - discriminate.
  - split; [exact Hc|exact Hd].
Defined.

Definition sonarr (slug : string) : SonarrInstance :=
  {| siInstanceName := "Sonarr"; siInstanceSlug := slug; siSonarrUrl := "http://sonarr:8989"; siSonarrApiKey := "key"; siRootDirMap := []; siStorage := None |}.

Lemma instances_refine_witness :
  GetSonarrInstance (Default {{ cfInterfaces := [Some (sonarr "tv")] }}) "tv" = Reply (Some (sonarr "tv")).
Proof.
  destruct (instances_refine (Default {{ cfInterfaces := [Some (sonarr "tv")] }}) [sonarr "tv"] "tv" None (sonarr "tv") [] false) as (Hg & _).
  - reflexivity.
  - apply (bool_decide_unpack _). vm_compute. exact I.
  - apply (bool_decide_unpack _). vm_compute. exact I.
  - discriminate.
  - rewrite Hg. reflexivity.
Defined.
