(* ===== verification/AgentRegistry.v ===== *)
(** The server's view of its agents: projection.go and registry.go of
    src/internal/server/agentregistry, the reads of services/agents.go and the
    task that sends an agent to scan, services/tasks.go. The Redis keys are the
    class [KeyStore], and what is stored under them is encoded by the class
    [AgentCodec]. *)
From stdpp Require Import strings list gmap.
From Stdlib Require Import Ascii ZArith Lia.
From coqutil Require Import Datatypes.RecordSetters.
Import DoubleBraceUpdate.
From S2P Require Import Prelude Sidecar Topics Bus GoPath Paths AppConfig ConfigStore Services ConfigServices ConfigInvariant ConfigCollections ScanSend Ingest.
#[local] Open Scope go_scope.

(** * Keys *)

(** The commands on string keys. *)
Class KeyStore : Type := {
  keys : Type;
  (** [None] for redis.Nil. *)
  GetKey : string -> keys -> keys * result (option string);
  SetKey : string -> string -> keys -> keys * option string;
  SetNX : string -> string -> keys -> keys * result bool;
  DelKeys : list string -> keys -> keys * option string;
  (** The keys a SCAN gives, and the error that ended it. *)
  ScanKeys : string -> keys -> keys * (list string * option string);
  (** What is stored. *)
  held : keys -> gmap string string;
}.

(** A key may expire under any command; what a command that fails was to do may
    have been done. *)
Class KeyStoreLaws `{KeyStore} : Prop := {
  GetKey_held key db : held (GetKey key db).1 ⊆ held db;
  GetKey_Ok key db db' v : GetKey key db = (db', Ok v) -> v = held db' !! key;
  SetKey_Ok key v db db' : SetKey key v db = (db', None) -> held db' = <[key := v]> (held db);
  SetKey_Err key v db db' err : SetKey key v db = (db', Some err) -> held db' = held db \/ held db' = <[key := v]> (held db);
  (** A set that is answered with false may have been done by an attempt whose
      answer was lost. *)
  SetNX_Ok key v db db' (acquired : bool) : SetNX key v db = (db', Ok acquired) ->
    held db !! key = None /\ held db' = <[key := v]> (held db) \/ acquired = false /\ held db' = held db /\ is_Some (held db !! key);
  SetNX_Err key v db db' err : SetNX key v db = (db', Err err) -> held db' = held db \/ held db !! key = None /\ held db' = <[key := v]> (held db);
  DelKeys_Ok ks db db' : DelKeys ks db = (db', None) -> held db' = foldr delete (held db) ks;
  DelKeys_Err ks db db' err : DelKeys ks db = (db', Some err) -> held db' = held db \/ held db' = foldr delete (held db) ks;
  ScanKeys_held pattern db : held (ScanKeys pattern db).1 = held db;
  (** A SCAN to the end gives every key of a prefix, any number of times. *)
  ScanKeys_Ok prefix db db' ks : ScanKeys (prefix +:+ "*") db = (db', (ks, None)) ->
    forall key, key ∈ ks <-> has_prefix prefix key = true /\ is_Some (held db !! key);
}.

(** The presence record, with the identity and the telemetry the agent reports. *)
Class Reported : Type := { AgentIdentity : Type; AgentTelemetry : Type }.

Record AgentPresence `{Reported} : Type := { prIdentity : AgentIdentity; prTelemetry : AgentTelemetry; prReportedAt : Z }.

(** MarshalStored and UnmarshalStored. *)
Class AgentCodec `{Reported} : Type := {
  MarshalProjection : AgentConfigProjection -> result string;
  UnmarshalProjection : string -> result AgentConfigProjection;
  MarshalPresence : AgentPresence -> result string;
  UnmarshalPresence : string -> result AgentPresence;
}.

Class AgentCodecLaws `{AgentCodec} : Prop :=
  projection_roundtrip projection text : MarshalProjection projection = Ok text -> UnmarshalProjection text = Ok projection.

(** * What an agent may know *)

Definition mappedDirectory (config : Config) (mapping : AgentDirectoryMapping) : option MappedDirectory :=
  match FindScanDirectoryIndex (cfDirectoryScanner config) (amScannerSlug mapping) ≫= fun index => dsScanDirectories (cfDirectoryScanner config) !! index with
  | None => None
  | Some directory =>
      if String.eqb (amAgentPath mapping) "" then None
      else Some {| mdScannerSlug := amScannerSlug mapping; mdScanType := sdScanType directory; mdAgentPath := amAgentPath mapping |}
  end.

Definition BuildProjection (config : Config) (slug : string) (updatedAt : Z) : AgentConfigProjection :=
  let projection := {|
    apSlug := slug; apDisplayName := ""; apParallelCount := dsParallelCount (cfDirectoryScanner config);
    apSidecarTypes := dsSidecarTypes (cfDirectoryScanner config); apDirectories := []; apLogLevel := LogLevelInfo; apUpdatedAt := Some updatedAt |} in
  match FindAgentIndex config slug ≫= fun index => cfAgents config !! index with
  | None => projection
  | Some agent =>
      projection {{ apDisplayName := agDisplayName agent; apLogLevel := if String.eqb (agLogLevel agent) "" then LogLevelInfo else agLogLevel agent;
                    apDirectories := omap (mappedDirectory config) (agMappings agent) }}
  end.

(** * Publication *)

(** The keys, and the channels notified, in order. *)
Record fleet `{KeyStore} : Type := { flKeys : keys; flNotified : list string }.

Section registry.
Context `{KeyStore, Reported, !AgentCodec}.

(** A notification is an attempt; nothing looks at whether it was delivered. *)
Definition publish (config : Config) (slug : string) (updatedAt : Z) (fl : fleet) : fleet * option string :=
  match MarshalProjection (BuildProjection config slug updatedAt) with
  | Err err => (fl, Some err)
  | Ok encoded =>
      match SetKey (ConfigKey slug) encoded (flKeys fl) with
      | (db, Some err) => (fl {{ flKeys := db }}, Some err)
      | (db, None) => ({| flKeys := db; flNotified := flNotified fl ++ [tpName (AgentConfigChangedTopic slug)] |}, None)
      end
  end.

Fixpoint publishAgents (config : Config) (updatedAt : Z) (agents : list Agent) (fl : fleet) : fleet * option string :=
  match agents with
  | [] => (fl, None)
  | agent :: rest =>
      match publish config (agSlug agent) updatedAt fl with
      | (fl', Some err) => (fl', Some err)
      | (fl', None) => publishAgents config updatedAt rest fl'
      end
  end.

Definition PublishAll (updatedAt : Z) (config : Config) (fl : fleet) : fleet * option string := publishAgents config updatedAt (cfAgents config) fl.

Definition Forget (slug : string) (fl : fleet) : fleet * option string :=
  let (db, err) := DelKeys [ConfigKey slug] (flKeys fl) in (fl {{ flKeys := db }}, err).

(** * Presence *)

(** One round of the loop over the keys of the scan. *)
Definition readKey (found : gmap string AgentPresence) (key : string) (db : keys) : keys * result (gmap string AgentPresence) :=
  match GetKey key db with
  | (db', Ok None) => (db', Ok found)
  | (db', Err err) => (db', Err err)
  | (db', Ok (Some raw)) =>
      match UnmarshalPresence raw with
      | Err _ => (db', Ok found)
      | Ok presence =>
          let slug := SlugFromPresenceKey key in
          (db', Ok (if String.eqb slug "" then found else <[slug := presence]> found))
      end
  end.

Fixpoint readPresence (found : gmap string AgentPresence) (ks : list string) (db : keys) : keys * result (gmap string AgentPresence) :=
  match ks with
  | [] => (db, Ok found)
  | key :: rest => match readKey found key db with (db', Err err) => (db', Err err) | (db', Ok found') => readPresence found' rest db' end
  end.

Definition presence (db : keys) : keys * result (gmap string AgentPresence) :=
  let '(db, (ks, scanErr)) := ScanKeys PresenceKeyPattern db in
  match readPresence ∅ ks db, scanErr with
  | (db', Err err), _ => (db', Err err)
  | (db', Ok _), Some err => (db', Err err)
  | (db', Ok found), None => (db', Ok found)
  end.

Definition PresentSlugs `{MapOrder} (db : keys) : keys * result (list string) :=
  match presence db with
  | (db', Err err) => (db', Err err)
  | (db', Ok found) => (db', Ok (map fst (range_map ["PresentSlugs"] found)))
  end.

(** ** The list *)

(** The message Agent with its output-only fields. *)
Record AgentView : Type := { vwAgent : Agent; vwConfigured : bool; vwPresence : option AgentPresence }.

Definition vwOnline (view : AgentView) : bool := bool_decide (is_Some (vwPresence view)).

Definition configuredView (agent : Agent) : AgentView := {|
  vwAgent := agent {{ agLogLevel := if String.eqb (agLogLevel agent) "" then LogLevelInfo else agLogLevel agent }};
  vwConfigured := true; vwPresence := None |}.

Definition announcedView (slug : string) : AgentView := {|
  vwAgent := {| agSlug := slug; agDisplayName := ""; agMappings := []; agLogLevel := LogLevelInfo |}; vwConfigured := false; vwPresence := None |}.

Definition withPresence (agents : gmap string AgentView) (reported : string * AgentPresence) : gmap string AgentView :=
  let (slug, p) := reported in <[slug := (default (announcedView slug) (agents !! slug)) {{ vwPresence := Some p }}]> agents.

Definition slugOf (view : AgentView) : string := agSlug (vwAgent view).

Definition List `{MapOrder} (config : Config) (db : keys) : keys * result (list AgentView) :=
  match presence db with
  | (db', Err err) => (db', Err err)
  | (db', Ok found) =>
      let agents := fold_left (fun agents agent => <[agSlug agent := configuredView agent]> agents) (cfAgents config) ∅ in
      let agents := fold_left withPresence (range_map ["List"; "presence"] found) agents in
      (db', Ok (stable_sort slugOf String.ltb (map snd (range_map ["List"; "agents"] agents))))
  end.
End registry.

(** * What the projection shows *)

Definition agentOf (config : Config) (slug : string) : option Agent := FindAgentIndex config slug ≫= fun index => cfAgents config !! index.
Definition directoryOf (config : Config) (slug : string) : option ScanDirectory :=
  FindScanDirectoryIndex (cfDirectoryScanner config) slug ≫= fun index => dsScanDirectories (cfDirectoryScanner config) !! index.

Lemma found_at {A} (key : A -> string) l k x : NoDup (map key l) ->
  (findIndex (fun x => String.eqb (key x) k) l ≫= fun index => l !! index) = Some x <-> x ∈ l /\ key x = k.
Proof.
  intros Hnd. destruct (findIndex _ l) as [i|] eqn:Hi; cbn [mbind option_bind].
  - apply findIndex_split in Hi as (l1 & y & l2 & -> & -> & Hat & Hy%String.eqb_eq & _). rewrite Hat. split.
    + intros [= ->]. split; [|done]. rewrite elem_of_app. right. by left.
    + intros [Hx Hk]. apply list_elem_of_lookup in Hx as (j & Hj). f_equal.
      assert (length l1 = j) as <-; [|congruence]. apply (NoDup_lookup _ _ _ k Hnd); rewrite list_lookup_fmap; [by rewrite Hat, <- Hy|by rewrite Hj, <- Hk].
  - split; [done|]. intros [Hx <-]. apply findIndex_key_None in Hi. destruct Hi. apply list_elem_of_fmap. eauto.
Qed.

Lemma agentOf_iff config slug agent : agents_ok (cfAgents config) -> agentOf config slug = Some agent <-> agent ∈ cfAgents config /\ agSlug agent = slug.
Proof. intros [Hnd _]. by apply found_at. Qed.

Lemma directoryOf_slug config slug directory : directoryOf config slug = Some directory -> sdScannerSlug directory = slug /\ directory ∈ scanDirectories config.
Proof.
  unfold directoryOf. destruct (FindScanDirectoryIndex _ _) as [i|] eqn:Hi; [|done]. cbn [mbind option_bind].
  apply findIndex_Some in Hi as (d & Hd & Hs%String.eqb_eq & _). rewrite Hd. intros [= <-]. split; [done|]. by eapply list_elem_of_lookup_2.
Qed.

Lemma omap_agree {A B} (f g : A -> option B) (l : list A) : (forall x, x ∈ l -> f x = g x) -> omap f l = omap g l.
Proof.
  induction l as [|x l IH]; intros Hall; [done|]. cbn. rewrite (Hall x) by (by left). rewrite IH; [done|]. intros y Hy. apply Hall. by right.
Qed.

(** C37: The projection of an agent is a function of what it may know: the number
    of directories scanned at once, the sidecar table, its own entry, and the
    scan types of the libraries it maps. Configurations that agree on these
    yield the same projection, so no password, signing secret, Sonarr
    credential, server path or other agent's entry has any influence on what is
    published to it. *)
Theorem projection_confined (config config' : Config) slug updatedAt :
  dsParallelCount (cfDirectoryScanner config) = dsParallelCount (cfDirectoryScanner config') ->
  dsSidecarTypes (cfDirectoryScanner config) = dsSidecarTypes (cfDirectoryScanner config') ->
  agentOf config slug = agentOf config' slug ->
  (forall agent mapping, agentOf config slug = Some agent -> mapping ∈ agMappings agent ->
    sdScanType <$> directoryOf config (amScannerSlug mapping) = sdScanType <$> directoryOf config' (amScannerSlug mapping)) ->
  BuildProjection config slug updatedAt = BuildProjection config' slug updatedAt.
Proof.
  intros Hp Hs Ha Hd. unfold BuildProjection. fold (agentOf config slug) (agentOf config' slug). rewrite <- Ha.
  destruct (agentOf config slug) as [agent|]; [|by rewrite Hp, Hs].
  rewrite (omap_agree (mappedDirectory config) (mappedDirectory config')); [by rewrite Hp, Hs|].
  intros m Hm. specialize (Hd agent m eq_refl Hm). unfold mappedDirectory. fold (directoryOf config (amScannerSlug m)) (directoryOf config' (amScannerSlug m)).
  destruct (directoryOf config _), (directoryOf config' _); cbn in Hd; try done. by injection Hd as ->.
Qed.

(** * Sending an agent to scan *)

Section tasks.
Context {W : Type} `{Envelope, CommandWire}.

(** The scan's id, and what was handed to the stream. *)
Definition RunDirectoryScan (now maxLen : Z) (bus : @Bus W) (live : Config) (correlationID slug : string) : reply failure (string * (string * gmap string value * Z)) :=
  match directoryOf live slug with
  | None => refused 404 "no scan directory with that slug"
  | Some scanDirectory =>
      match ParseDirectoryType (sdScanType scanDirectory) with
      | Err err => refused 400 err
      | Ok _ =>
          match AgentForScanner live slug with
          | None => refused 422 ("no agent is mapped to scan directory " +:+ quote slug +:+ "; map one under System > Agents")
          | Some agent =>
              match encodeCommand {| cmdScanID := correlationID; cmdScannerSlug := slug |} with
              | Err _ => refused 500 "failed to queue task"
              | Ok payload =>
                  match Publish now maxLen (AgentCommandTopic (agSlug agent)) AgentScanCommandEventName correlationID payload bus with
                  | Err _ => refused 500 "failed to queue task"
                  | Ok sent => Reply (correlationID, sent)
                  end
              end
          end
      end
  end.

Lemma mapped_once config agent : agents_ok (cfAgents config) -> agent ∈ cfAgents config -> NoDup (mapped agent).
Proof.
  intros [_ Hm] Ha%list_elem_of_In. apply in_split in Ha as (l1 & l2 & Hl). rewrite Hl, map_app, concat_app in Hm. cbn in Hm.
  apply NoDup_app in Hm as (_ & _ & Hm). by apply NoDup_app in Hm as (Hm & _).
Qed.

Lemma FindMapping_iff agent s mapping : NoDup (mapped agent) ->
  FindMapping agent s = Some mapping <-> mapping ∈ agMappings agent /\ amScannerSlug mapping = s.
Proof.
  unfold mapped, FindMapping. induction (agMappings agent) as [|m l IH]; cbn; [intros _; split; [done|by intros [?%elem_of_nil _]]|].
  intros [Hno Hnd]%NoDup_cons. destruct (String.eqb_spec (amScannerSlug m) s) as [<-|Hne].
  - split; [intros [= <-]; split; [by left|done]|]. intros [[->|Hin]%elem_of_cons Hs]; [done|]. destruct Hno. rewrite <- Hs. by apply list_elem_of_fmap_2.
  - rewrite (IH Hnd). split; [intros [? ?]; split; [by right|done]|]. intros [[->|Hin]%elem_of_cons Hs]; [done|by split].
Qed.

Lemma find_absent {A} (f : A -> bool) l : (forall x, x ∈ l -> f x = false) -> List.find f l = None.
Proof. induction l as [|x l IH]; intros Hall; [done|]. cbn. rewrite (Hall x) by (by left). apply IH. intros y Hy. apply Hall. by right. Qed.

(** What the projection resolves a library to. *)
Lemma FindDirectory_projection config slug updatedAt agent s mapping :
  agents_ok (cfAgents config) -> agentOf config slug = Some agent -> FindMapping agent s = Some mapping ->
  FindDirectory (BuildProjection config slug updatedAt) s = mappedDirectory config mapping.
Proof.
  intros Hok Ha Hm. unfold BuildProjection. fold (agentOf config slug). rewrite Ha. unfold FindDirectory. cbn [apDirectories]. unfold constant.
  pose proof (mapped_once config agent Hok (proj1 (proj1 (agentOf_iff _ _ _ Hok) Ha))) as Hnd.
  apply FindMapping_iff in Hm as [Hin <-]; [|done]. unfold mapped in Hnd. induction (agMappings agent) as [|m l IH]; [by apply elem_of_nil in Hin|].
  cbn in Hnd |- *. apply NoDup_cons in Hnd as [Hno Hnd].
  assert (forall m d, mappedDirectory config m = Some d -> mdScannerSlug d = amScannerSlug m) as Hslug.
  { intros m' d. unfold mappedDirectory. fold (directoryOf config (amScannerSlug m')). destruct (directoryOf _ _) as [d'|]; [|done]. by destruct (amAgentPath m' =? "")%string; [|intros [= <-]]. }
  apply elem_of_cons in Hin as [->|Hin].
  - destruct (mappedDirectory config m) as [d|] eqn:Hd; cbn.
    + by rewrite (Hslug _ _ Hd), String.eqb_refl.
    + apply find_absent. intros d Hd'. apply String.eqb_neq. intros He. apply list_elem_of_omap in Hd' as (m' & Hm' & Hmd). apply Hno.
      rewrite <- He, (Hslug _ _ Hmd). by apply list_elem_of_fmap_2.
  - assert (amScannerSlug m <> amScannerSlug mapping) as Hne by (intros He; apply Hno; rewrite He; by apply list_elem_of_fmap_2).
    destruct (mappedDirectory config m) as [d|] eqn:Hd; cbn; [|by apply IH]. rewrite (Hslug _ _ Hd).
    destruct (String.eqb_spec (amScannerSlug m) (amScannerSlug mapping)); [done|by apply IH].
Qed.

End tasks.

(** * What is published *)

Section published.
Context `{KeyStoreLaws, Reported, !AgentCodec, !AgentCodecLaws}.

Lemma publish_cases config slug updatedAt fl fl' err : publish config slug updatedAt fl = (fl', err) ->
  match err with
  | None => (exists text, MarshalProjection (BuildProjection config slug updatedAt) = Ok text /\ held (flKeys fl') = <[ConfigKey slug := text]> (held (flKeys fl))) /\
      flNotified fl' = flNotified fl ++ [AgentConfigChangedChannel slug]
  | Some _ => (forall key, key <> ConfigKey slug -> held (flKeys fl') !! key = held (flKeys fl) !! key) /\ flNotified fl' = flNotified fl
  end.
Proof.
  unfold publish. destruct (MarshalProjection _) as [text|e]; [|by intros [= <- <-]]. destruct (SetKey _ text _) as [db [e|]] eqn:Hset; intros [= <- <-]; cbn; unfold constant.
  - split; [|done]. intros key Hkey. apply SetKey_Err in Hset as [->| ->]; [done|]. by rewrite lookup_insert_ne.
  - apply SetKey_Ok in Hset. split; [eauto|done].
Qed.

Lemma ConfigKey_inj a b : ConfigKey a = ConfigKey b -> a = b.
Proof. intros Hab. by repeat apply (inj (String.append _)) in Hab. Qed.

Lemma publishAgents_spec config updatedAt agents fl fl' err : NoDup (map agSlug agents) -> publishAgents config updatedAt agents fl = (fl', err) ->
  exists published rest, agents = published ++ rest /\ (err = None <-> rest = []) /\
    flNotified fl' = flNotified fl ++ map (fun agent => AgentConfigChangedChannel (agSlug agent)) published /\
    (forall agent, agent ∈ published -> exists text, held (flKeys fl') !! ConfigKey (agSlug agent) = Some text /\
       UnmarshalProjection text = Ok (BuildProjection config (agSlug agent) updatedAt)) /\
    (forall key, (forall agent, agent ∈ published ++ take 1 rest -> key <> ConfigKey (agSlug agent)) -> held (flKeys fl') !! key = held (flKeys fl) !! key).
Proof.
  revert fl. induction agents as [|agent agents IH]; intros fl Hnd; cbn [publishAgents].
  { intros [= <- <-]. exists [], []. cbn. rewrite app_nil_r. split_and!; try done. by intros ? ?%elem_of_nil. }
  cbn in Hnd. apply NoDup_cons in Hnd as [Hno Hnd]. destruct (publish config (agSlug agent) updatedAt fl) as [fl1 [e|]] eqn:Hp; apply publish_cases in Hp.
  - intros [= <- <-]. exists [], (agent :: agents). destruct Hp as [Hkeys ->]. cbn. rewrite app_nil_r. split_and!; [done|done|done|by intros ? ?%elem_of_nil|].
    intros key Hkey. apply Hkeys, Hkey. by left.
  - destruct Hp as [(text & Hm & Hheld) Hnot]. intros (published & rest & -> & Hrest & Hn & Hpub & Hother)%IH; [|done].
    assert (forall b, b ∈ published ++ take 1 rest -> ConfigKey (agSlug agent) <> ConfigKey (agSlug b)) as Hfresh.
    { intros b Hb He%ConfigKey_inj. apply Hno. rewrite He. apply list_elem_of_fmap_2. rewrite elem_of_app in *. destruct Hb as [|Hb]; [by left|right].
      rewrite <- (take_drop 1 rest), elem_of_app. by left. }
    exists (agent :: published), rest. split_and!; [done|done|by rewrite Hn, Hnot, <- app_assoc| |].
    + intros b [->|Hb]%elem_of_cons; [|by apply Hpub]. exists text. split; [|by apply projection_roundtrip]. rewrite Hother by done. by rewrite Hheld, lookup_insert_eq.
    + intros key Hkey. rewrite Hother by (intros b Hb; apply Hkey; by right). rewrite Hheld. apply lookup_insert_ne. symmetry. apply Hkey. by left.
Qed.

(** Publishing a configuration leaves every configured agent, up to the first
    that fails, with exactly its projection of that configuration under its own
    key and notified after it was written, and no key of anyone else changed;
    without an error that is every configured agent. *)
Theorem PublishAll_spec config updatedAt fl fl' err : agents_ok (cfAgents config) -> PublishAll updatedAt config fl = (fl', err) ->
  exists published rest, cfAgents config = published ++ rest /\ (err = None <-> rest = []) /\
    flNotified fl' = flNotified fl ++ map (fun agent => AgentConfigChangedChannel (agSlug agent)) published /\
    (forall agent, agent ∈ published -> exists text, held (flKeys fl') !! ConfigKey (agSlug agent) = Some text /\
       UnmarshalProjection text = Ok (BuildProjection config (agSlug agent) updatedAt)) /\
    (forall key, (forall agent, agent ∈ published ++ take 1 rest -> key <> ConfigKey (agSlug agent)) -> held (flKeys fl') !! key = held (flKeys fl) !! key).
Proof. intros [Hnd _]. by apply publishAgents_spec. Qed.

(** ** Who is there *)

Lemma SlugFromPresenceKey_made slug : SlugFromPresenceKey (PresenceKey slug) = slug.
Proof.
  unfold SlugFromPresenceKey, PresenceKey. change (keyPrefix +:+ "presence:" +:+ slug) with ((keyPrefix +:+ "presence:") +:+ slug).
  rewrite str_length_app. destruct slug as [|c slug]; [by vm_compute|].
  destruct (Nat.leb_spec (String.length (keyPrefix +:+ "presence:") + String.length (String c slug)) (String.length (keyPrefix +:+ "presence:"))) as [Hl|_];
    [cbn in Hl; lia|by rewrite str_drop_app].
Qed.

(** The record an agent has, if it has a readable one. *)
Definition recorded (db : keys) (slug : string) : option AgentPresence :=
  if String.eqb slug "" then None
  else held db !! PresenceKey slug ≫= fun raw => match UnmarshalPresence raw with Ok p => Some p | Err _ => None end.

Lemma recorded_sub db db' slug p : held db' ⊆ held db -> recorded db' slug = Some p -> recorded db slug = Some p.
Proof.
  unfold recorded. intros Hsub. destruct (String.eqb slug ""); [done|]. destruct (held db' !! _) as [raw|] eqn:Hraw; [|done].
  by rewrite (lookup_weaken _ _ _ _ Hraw Hsub).
Qed.

Lemma readKey_spec found slug db db' found' : readKey found (PresenceKey slug) db = (db', Ok found') ->
  held db' ⊆ held db /\ found' = match recorded db' slug with Some p => <[slug := p]> found | None => found end.
Proof.
  unfold readKey, recorded. pose proof (GetKey_held (PresenceKey slug) db) as Hsub.
  destruct (GetKey (PresenceKey slug) db) as [db1 [[raw|]|e]] eqn:Hget; cbn in Hsub; [| |done]; apply GetKey_Ok in Hget.
  - rewrite SlugFromPresenceKey_made. destruct (UnmarshalPresence raw) as [p|] eqn:Hu; intros [= <- <-]; rewrite <- Hget; cbn; rewrite Hu; by destruct (String.eqb slug "").
  - intros [= <- <-]. rewrite <- Hget. by destruct (String.eqb slug "").
Qed.

(** The records read are ones that were held at the start, and among them all
    that are still held at the end. *)
Lemma readPresence_spec ks db db' found found' :
  (forall key, key ∈ ks -> exists slug, key = PresenceKey slug) -> readPresence found ks db = (db', Ok found') ->
  held db' ⊆ held db /\
  (forall slug p, found' !! slug = Some p -> found !! slug = Some p \/ recorded db slug = Some p) /\
  (forall slug p, recorded db' slug = Some p -> PresenceKey slug ∈ ks \/ found !! slug = Some p -> found' !! slug = Some p).
Proof.
  revert db found. induction ks as [|key ks IH]; intros db found Hks; cbn [readPresence].
  { intros [= <- <-]. split_and!; [done|by left|]. by intros slug p _ [?%elem_of_nil|]. }
  destruct (Hks key) as [slug ->]; [by left|]. destruct (readKey found (PresenceKey slug) db) as [db1 [found1|]] eqn:Hread; [|done].
  apply readKey_spec in Hread as [Hsub ->]. intros (Hsub' & Hsound & Hkept)%IH; [|intros; apply Hks; by right]. split_and!; [by etrans| |].
  - intros s p [Hs|Hs]%Hsound; [|right; by eapply recorded_sub]. destruct (recorded db1 slug) as [p1|] eqn:Hrec; [|by left].
    apply lookup_insert_Some in Hs as [[<- <-]|[_ Hs]]; [right; by eapply recorded_sub|by left].
  - intros s p Hs Hin. apply Hkept; [done|]. pose proof (recorded_sub _ _ _ _ Hsub' Hs) as Hs1. destruct (decide (s = slug)) as [->|Hne].
    { right. by rewrite Hs1, lookup_insert_eq. }
    destruct Hin as [[He|Hin]%elem_of_cons|Hin]; [by repeat apply (inj (String.append _)) in He|by left|right].
    by destruct (recorded db1 slug); [rewrite lookup_insert_ne|].
Qed.

Lemma presence_spec db db' found : presence db = (db', Ok found) ->
  held db' ⊆ held db /\ (forall slug p, found !! slug = Some p -> recorded db slug = Some p) /\ (forall slug p, recorded db' slug = Some p -> found !! slug = Some p).
Proof.
  unfold presence. destruct (ScanKeys PresenceKeyPattern db) as [db1 [ks scanErr]] eqn:Hscan. pose proof (ScanKeys_held PresenceKeyPattern db) as Hheld.
  rewrite Hscan in Hheld. cbn in Hheld. destruct (readPresence ∅ ks db1) as [db2 [found2|]] eqn:Hread; [|by destruct scanErr].
  destruct scanErr; [done|]. intros [= <- <-].
  assert (forall key, key ∈ ks <-> has_prefix (keyPrefix +:+ "presence:") key = true /\ is_Some (held db !! key)) as Hks by (by apply (ScanKeys_Ok (keyPrefix +:+ "presence:") _ _ _ Hscan)).
  apply readPresence_spec in Hread as (Hsub & Hsound & Hkept).
  - rewrite Hheld in Hsub. split_and!; [done| |].
    + intros slug p [Hs|Hs]%Hsound; [by rewrite lookup_empty in Hs|]. unfold recorded in *. by rewrite Hheld in Hs.
    + intros slug p Hs. apply Hkept; [done|]. left. apply Hks. split; [exact (has_prefix_app (keyPrefix +:+ "presence:") slug)|].
      apply (recorded_sub _ _ _ _ Hsub) in Hs. unfold recorded in Hs. destruct (String.eqb slug ""); [done|]. destruct (held db !! _); [done|done].
  - intros key [Hp _]%Hks. apply has_prefix_spec in Hp as [r ->]. by exists r.
Qed.

(** ** The list *)

(** What is listed of a slug: its entry, and its presence. *)
Definition viewOf (config : Config) (found : gmap string AgentPresence) (slug : string) : option AgentView :=
  match agentOf config slug, found !! slug with
  | None, None => None
  | Some agent, p => Some ((configuredView agent) {{ vwPresence := p }})
  | None, Some p => Some ((announcedView slug) {{ vwPresence := Some p }})
  end.

Lemma fold_insert_lookup {A V} (key : A -> string) (f : A -> V) l (m : gmap string V) k : NoDup (map key l) ->
  fold_left (fun m a => <[key a := f a]> m) l m !! k =
  match List.find (fun a => String.eqb (key a) k) l with Some a => Some (f a) | None => m !! k end.
Proof.
  revert m. induction l as [|a l IH]; intros m Hnd; [done|]. cbn in *. apply NoDup_cons in Hnd as [Hno Hnd]. rewrite IH by done.
  destruct (String.eqb_spec (key a) k) as [<-|Hne].
  - rewrite find_absent; [by rewrite lookup_insert_eq|]. intros b Hb. apply String.eqb_neq. intros He. apply Hno. rewrite <- He. by apply list_elem_of_fmap_2.
  - destruct (List.find _ l); [done|]. by rewrite lookup_insert_ne.
Qed.

Lemma find_at {A} (p : A -> bool) l : List.find p l = findIndex p l ≫= fun index => l !! index.
Proof. induction l as [|a l IH]; [done|]. cbn. destruct (p a); [done|]. rewrite IH. by destruct (findIndex p l). Qed.

Lemma fold_withPresence l (m : gmap string AgentView) slug : NoDup (map fst l) ->
  fold_left withPresence l m !! slug =
  match List.find (fun r => String.eqb r.1 slug) l with Some (_, p) => Some ((default (announcedView slug) (m !! slug)) {{ vwPresence := Some p }}) | None => m !! slug end.
Proof.
  revert m. induction l as [|[s p] l IH]; intros m Hnd; [done|]. cbn in *. apply NoDup_cons in Hnd as [Hno Hnd]. rewrite IH by done.
  destruct (String.eqb_spec s slug) as [<-|Hne].
  - rewrite find_absent; [by rewrite lookup_insert_eq|]. intros [s' p'] Hb. apply String.eqb_neq. cbn. intros ->. apply Hno. by apply (list_elem_of_fmap_2 fst _ (s, p')).
  - by rewrite lookup_insert_ne.
Qed.

Lemma find_range_map `{MapOrder} {V} site (m : gmap string V) k :
  List.find (fun r => String.eqb r.1 k) (range_map site m) = pair k <$> m !! k.
Proof.
  destruct (List.find _ _) as [[k' v]|] eqn:Hf.
  - apply List.find_some in Hf as [Hin%list_elem_of_In Hk%String.eqb_eq]. cbn in Hk. subst k'. apply elem_of_range_map in Hin. by rewrite Hin.
  - destruct (m !! k) as [v|] eqn:Hv; [|done]. apply (elem_of_range_map site), list_elem_of_In in Hv. apply (List.find_none _ _ Hf) in Hv. cbn in Hv. by rewrite String.eqb_refl in Hv.
Qed.

(** The list of agents is the union of those configured and those present:
    one entry for each, in strictly increasing order of slug whatever order Go
    walks its maps in, carrying its configuration and its presence; every
    presence is a record that was held when the scan began, and no record held
    to its end is missed. *)
Theorem List_spec `{MapOrder} config db db' views : agents_ok (cfAgents config) -> List config db = (db', Ok views) ->
  StronglySorted (fun v w => String.ltb (slugOf v) (slugOf w) = true) views /\
  exists found,
    (forall view, view ∈ views <-> viewOf config found (slugOf view) = Some view) /\
    (forall slug p, found !! slug = Some p -> recorded db slug = Some p) /\ (forall slug p, recorded db' slug = Some p -> found !! slug = Some p).
Proof.
  intros [Hnd _]. unfold List. destruct (presence db) as [db1 [found|]] eqn:Hp; [|done]. apply presence_spec in Hp as (_ & Hsound & Hkept).
  set (agents := fold_left withPresence _ _). intros [= <- <-].
  assert (forall slug, agents !! slug = viewOf config found slug) as Hagents.
  { intros slug. subst agents. rewrite fold_withPresence, find_range_map, (fold_insert_lookup agSlug configuredView), find_at by first [done|
      rewrite range_map_perm; apply NoDup_fst_map_to_list]. fold (FindAgentIndex config slug). fold (agentOf config slug). unfold viewOf. rewrite lookup_empty.
    by destruct (agentOf config slug), (found !! slug). }
  assert (forall slug view, agents !! slug = Some view -> slugOf view = slug) as Hslug.
  { intros slug view. rewrite Hagents. unfold viewOf. destruct (agentOf config slug) as [a|] eqn:Ha.
    - intros [= <-]. apply (found_at agSlug _ slug a Hnd) in Ha as [_ <-]. done.
    - destruct (found !! slug); [|done]. by intros [= <-]. }
  set (views := stable_sort _ _ _).
  assert (NoDup (map slugOf views)) as Hnodup.
  { subst views. rewrite stable_sort_perm, (Permutation_map snd (range_map_perm _ agents)). rewrite map_map.
    erewrite map_ext_in; [apply (NoDup_fst_map_to_list agents)|]. intros [slug view] Hin%list_elem_of_In%elem_of_map_to_list. by apply Hslug. }
  split.
  - assert (StronglySorted (in_order slugOf String.ltb) views) as Hs by (apply stable_sort_sorted; [apply str_ltb_trans|apply str_ltb_asym]).
    clearbody views. induction Hs as [|v l Hl IH Hall]; [constructor|]. cbn in Hnodup. apply NoDup_cons in Hnodup as [Hno Hnodup]. constructor; [by apply IH|].
    apply Forall_forall. intros w Hw. rewrite Forall_forall in Hall. specialize (Hall w Hw). unfold in_order in Hall.
    apply str_ltb_compare. apply str_ltb_false in Hall. destruct (String.compare (slugOf v) (slugOf w)) eqn:Hc; [|done|done].
    apply String.compare_eq_iff in Hc. destruct Hno. rewrite Hc. by apply list_elem_of_fmap_2.
  - exists found. split_and!; [|done..]. intros view. subst views. rewrite elem_of_stable_sort, list_elem_of_fmap. split.
    + intros ([slug v] & -> & Hin%elem_of_range_map). cbn. rewrite <- Hagents. by rewrite (Hslug _ _ Hin).
    + rewrite <- Hagents. intros Hv. exists (slugOf view, view). split; [done|]. by apply elem_of_range_map.
Qed.
End published.

(** * The reads of the agent service *)

Section reads.
Context `{KeyStore, Reported, !AgentCodec, MapOrder, Ordering, PageTokens}.

Definition listFailed : failure := connectError 500 "failed to read agents".

Definition GetAgent (live : Config) (slug : string) (db : keys) : keys * reply failure AgentView :=
  match List live db with
  | (db', Err _) => (db', Refused listFailed)
  | (db', Ok agents) =>
      (db', match List.find (fun agent => String.eqb (slugOf agent) slug) agents with
            | Some agent => Reply agent
            | None => refused 404 "no agent with that slug"
            end)
  end.

Definition viewOrderFields (path : string) : option (AgentView -> AgentView -> comparison) :=
  (fun compare v w => compare (vwAgent v) (vwAgent w)) <$> agentOrderFields path.

(** The filter is refused before the agents are read. *)
Definition ListAgents (live : Config) (filter orderBy : string) (pageSize : Z) (pageToken : string) (db : keys) : keys * reply failure (list AgentView * string) :=
  match parseListFilter filter with
  | Some f => (db, Refused (default f (aipConnectError f)))
  | None =>
      match List live db with
      | (db', Err _) => (db', Refused listFailed)
      | (db', Ok agents) => (db', listOf viewOrderFields agents "" orderBy pageSize pageToken)
      end
  end.
End reads.

(** ** Deletion *)

Section deletion.
Context `{KeyStoreLaws}.

(** The call of Forget comes after the lock of the configuration is released. *)
Lemma Forget_spec slug fl fl' : Forget slug fl = (fl', None) ->
  held (flKeys fl') = delete (ConfigKey slug) (held (flKeys fl)) /\ flNotified fl' = flNotified fl.
Proof.
  unfold Forget. destruct (DelKeys _ _) as [db err] eqn:Hdel. intros [= <- ->]. cbn. by apply DelKeys_Ok in Hdel.
Qed.

(** A configured agent can be left without a configuration: when an agent is
    deleted and one of the same slug created and published before the deletion
    gets to remove the published projection, the projection it removes is the
    new agent's. *)
Theorem forget_removes_new `{Reported, !AgentCodec, !AgentCodecLaws} config updatedAt slug agent fl published fl' :
  agents_ok (cfAgents config) -> agentOf config slug = Some agent ->
  PublishAll updatedAt config fl = (published, None) -> Forget slug published = (fl', None) ->
  is_Some (held (flKeys published) !! ConfigKey slug) /\ held (flKeys fl') !! ConfigKey slug = None.
Proof.
  intros Hok Ha (pub & rest & Hag & Hrest & _ & Hpub & _)%(publishAgents_spec _ _ _ _ _ _ (ao_slugs _ Hok)) [Hheld _]%Forget_spec.
  rewrite Hheld, lookup_delete_eq. split; [|done]. apply agentOf_iff in Ha as [Ha <-]; [|done].
  rewrite (proj1 Hrest eq_refl), app_nil_r in Hag. rewrite Hag in Ha. destruct (Hpub _ Ha) as (text & Ht & _). by exists text.
Qed.
End deletion.
