(* ===== verification/PresenceWatch.v ===== *)
(** The watcher for agents losing their presence key:
    src/internal/server/agentregistry/presence_watcher.go. A scan is what
    PresentSlugs answered and the clock's time; the goroutine that scans is the
    only one that changes the beliefs, under the watcher's lock, and it sends
    what it found once the lock is free, while subscribers come and receive. *)
From stdpp Require Import strings list gmap.
From Stdlib Require Import Ascii ZArith Lia.
From coqutil Require Import Datatypes.RecordSetters.
Import DoubleBraceUpdate.
From S2P Require Import Prelude ConfigInvariant AgentRegistry.
#[local] Open Scope go_scope.

(** 15 s and 3 s in nanoseconds. *)
Definition PresenceTTL : Z := 15000000000.
Definition DefaultPresenceWatchInterval : Z := 3000000000.

(** The buffer of a subscriber's channel. *)
Definition subscriberBuffer : nat := 16.

(** A subscriber is what waits in its channel. *)
Record watcher : Type := {
  wtTtlGrace : Z;
  wtOnline : gmap string bool;
  wtLastSeen : gmap string Z;
  wtSubs : list (list string);
}.

Definition NewPresenceWatcher : watcher := {| wtTtlGrace := PresenceTTL; wtOnline := ∅; wtLastSeen := ∅; wtSubs := [] |}.

Definition Subscribe (w : watcher) : watcher := w {{ wtSubs ::= fun subs => subs ++ [[]] }}.

Section watch.
Context `{MapOrder}.

Definition markPresent (now : Z) (w : watcher) (slug : string) : watcher :=
  w {{ wtLastSeen ::= fun m => <[slug := now]> m; wtOnline ::= fun m => if default false (m !! slug) then m else <[slug := true]> m }}.

(** Whether one entry of [online] is found to have gone. *)
Definition departed (present : gset string) (now : Z) (w : watcher) (slug : string) (isOnline : bool) : bool :=
  isOnline && negb (bool_decide (slug ∈ present)) && negb (now - default 0 (wtLastSeen w !! slug) <? wtTtlGrace w)%Z.

Definition checkDeparted (present : gset string) (now : Z) (st : watcher * list string) (entry : string * bool) : watcher * list string :=
  let (w, wentOffline) := st in
  if departed present now w entry.1 entry.2 then (w {{ wtOnline ::= fun m => <[entry.1 := false]> m }}, wentOffline ++ [entry.1]) else st.

(** A send that would block is dropped. *)
Definition emit (slug : string) (buffer : list string) : list string := if (length buffer <? subscriberBuffer)%nat then buffer ++ [slug] else buffer.

Definition send (slug : string) (ch : nat) (w : watcher) : watcher := w {{ wtSubs ::= alter (emit slug) ch }}.

(** What a subscriber takes from its channel. *)
Definition receive (ch : nat) (w : watcher) : option (string * watcher) :=
  match wtSubs w !! ch with
  | Some (slug :: rest) => Some (slug, w {{ wtSubs ::= <[ch := rest]> }})
  | _ => None
  end.

(** The sends of a scan: each slug to the channels there were under the lock. *)
Definition sends (w : watcher) (wentOffline : list string) : list (string * nat) :=
  flat_map (fun slug => map (pair slug) (seq 0 (length (wtSubs w)))) wentOffline.

(** The watcher when a scan leaves the lock, and the slugs it is to send. *)
Definition scanOnce (slugs : result (list string)) (now : Z) (w : watcher) : watcher * list string :=
  match slugs with
  | Err _ => (w, [])
  | Ok slugs =>
      let present : gset string := list_to_set slugs in
      let w := fold_left (markPresent now) (range_set ["scanOnce"; "present"] present) w in
      fold_left (checkDeparted present now) (range_map ["scanOnce"; "online"] (wtOnline w)) (w, [])
  end.

(** Everything that happens: a subscription, a scan of Run, which has sent all it
    found before the next, a send, and a receive. *)
Inductive event : Type :=
| Subscribes
| Scans (slugs : result (list string)) (now : Z)
| Sends
| Receives (ch : nat).

(** What a subscriber has seen: how many scans there were before it, the slugs
    it was sent, each with how many waited then, and those it received. *)
Record book : Type := { bkSince : nat; bkOffers : list (string * nat); bkReceived : list string }.

Record history : Type := {
  hyWatcher : watcher;
  hySending : list (string * nat);
  hyScans : list (result (list string) * Z);
  hyEmitted : list (list string);
  hyBooks : list book;
}.

Definition happen (h : history) (e : event) : history :=
  match e with
  | Subscribes =>
      h {{ hyWatcher ::= Subscribe; hyBooks := hyBooks h ++ [{| bkSince := length (hyEmitted h); bkOffers := []; bkReceived := [] |}] }}
  | Scans slugs now =>
      match hySending h with
      | [] =>
          let (w, out) := scanOnce slugs now (hyWatcher h) in
          h {{ hyWatcher := w; hySending := sends w out; hyScans := hyScans h ++ [(slugs, now)]; hyEmitted := hyEmitted h ++ [out] }}
      | _ => h
      end
  | Sends =>
      match hySending h with
      | [] => h
      | (slug, ch) :: rest =>
          h {{ hyWatcher := send slug ch (hyWatcher h); hySending := rest;
               hyBooks := alter (fun b => b {{ bkOffers := bkOffers b ++ [(slug, length (default [] (wtSubs (hyWatcher h) !! ch)))] }}) ch (hyBooks h) }}
      end
  | Receives ch =>
      match receive ch (hyWatcher h) with
      | None => h
      | Some (slug, w) => h {{ hyWatcher := w; hyBooks := alter (fun b => b {{ bkReceived := bkReceived b ++ [slug] }}) ch (hyBooks h) }}
      end
  end.

Definition started : history := {| hyWatcher := NewPresenceWatcher; hySending := []; hyScans := []; hyEmitted := []; hyBooks := [] |}.

(** * One scan *)

Lemma markPresent_fold now l w :
  let w' := fold_left (markPresent now) l w in
  wtTtlGrace w' = wtTtlGrace w /\ wtSubs w' = wtSubs w /\
  (forall slug, wtLastSeen w' !! slug = if decide (slug ∈ l) then Some now else wtLastSeen w !! slug) /\
  (forall slug, default false (wtOnline w' !! slug) = if decide (slug ∈ l) then true else default false (wtOnline w !! slug)).
Proof.
  revert w. induction l as [|s l IH]; intros w; [by split_and!|]. cbn [fold_left]. destruct (IH (markPresent now w s)) as (H1 & H2 & H3 & H4).
  cbn zeta. rewrite H1, H2. destruct w as [ttl online seen subs]. cbn in *. split_and!; [done|done| |]; intros slug.
  - rewrite H3. destruct (decide (slug ∈ l)) as [Hin|Hno].
    + by rewrite decide_True by (by right).
    + destruct (decide (slug = s)) as [->|Hne]; [rewrite decide_True by (by left); by rewrite lookup_insert_eq|].
      rewrite decide_False by (by intros [|]%elem_of_cons). by rewrite lookup_insert_ne.
  - rewrite H4. destruct (decide (slug ∈ l)) as [Hin|Hno].
    + by rewrite decide_True by (by right).
    + destruct (decide (slug = s)) as [->|Hne]; [rewrite decide_True by (by left); destruct (default false (online !! s)) eqn:Hd; [done|by rewrite lookup_insert_eq]|].
      rewrite decide_False by (by intros [|]%elem_of_cons). destruct (default false (online !! s)); [done|by rewrite lookup_insert_ne].
Qed.

Lemma checkDeparted_fold present now l w out : NoDup (map fst l) ->
  let gone := map fst (List.filter (fun e => departed present now w e.1 e.2) l) in
  let '(w', out') := fold_left (checkDeparted present now) l (w, out) in
  wtTtlGrace w' = wtTtlGrace w /\ wtSubs w' = wtSubs w /\ wtLastSeen w' = wtLastSeen w /\ out' = out ++ gone /\
  (forall slug, wtOnline w' !! slug = if decide (slug ∈ gone) then Some false else wtOnline w !! slug).
Proof.
  revert w out. induction l as [|[s b] l IH]; intros w out Hnd; cbn -[departed]; [by rewrite app_nil_r|]. cbn in Hnd. apply NoDup_cons in Hnd as [Hno Hnd].
  destruct (departed present now w s b) eqn:Hd.
  - specialize (IH (w {{ wtOnline ::= fun m => <[s := false]> m }}) (out ++ [s]) Hnd). cbn zeta in IH.
    change (fun e : string * bool => departed present now (w {{ wtOnline ::= fun m => <[s := false]> m }}) e.1 e.2) with (fun e : string * bool => departed present now w e.1 e.2) in IH.
    destruct (fold_left _ l _) as [w' out']. destruct IH as (H1 & H2 & H3 & H4 & H5). cbn in *. split_and!; [done..|by rewrite H4, <- app_assoc|].
    intros slug. rewrite H5. destruct (decide (slug ∈ _)) as [Hin|Hnot].
    + by rewrite decide_True by (by right).
    + destruct (decide (slug = s)) as [->|Hne]; [rewrite decide_True by (by left); by rewrite lookup_insert_eq|].
      rewrite decide_False by (by intros [|]%elem_of_cons). by rewrite lookup_insert_ne.
  - apply IH, Hnd.
Qed.

Lemma scanOnce_Ok slugs now w w' out : scanOnce (Ok slugs) now w = (w', out) ->
  wtTtlGrace w' = wtTtlGrace w /\ NoDup out /\
  wtSubs w' = wtSubs w /\
  (forall slug, wtLastSeen w' !! slug = if decide (slug ∈ slugs) then Some now else wtLastSeen w !! slug) /\
  (forall slug, slug ∈ out <-> slug ∉ slugs /\ default false (wtOnline w !! slug) = true /\ (wtTtlGrace w <= now - default 0 (wtLastSeen w !! slug))%Z) /\
  (forall slug, default false (wtOnline w' !! slug) = true <->
     slug ∈ slugs \/ default false (wtOnline w !! slug) = true /\ (now - default 0 (wtLastSeen w !! slug) < wtTtlGrace w)%Z).
Proof.
  unfold scanOnce. set (present := list_to_set slugs). set (order := range_set _ present).
  assert (forall slug, slug ∈ order <-> slug ∈ slugs) as Horder by (intros slug; unfold order; rewrite elem_of_range_set; unfold present; apply elem_of_list_to_set).
  destruct (markPresent_fold now order w) as (H1 & H2 & H3 & H4). set (w1 := fold_left (markPresent now) order w) in *.
  set (entries := range_map _ (wtOnline w1)). assert (NoDup (map fst entries)) as Hnd by (unfold entries; rewrite range_map_perm; apply NoDup_fst_map_to_list).
  pose proof (checkDeparted_fold present now entries w1 [] Hnd) as Hcheck. cbn zeta in Hcheck.
  destruct (fold_left _ entries _) as [w2 out2]. destruct Hcheck as (G1 & G2 & G3 & G4 & G5). intros [= <- <-].
  assert (forall slug, slug ∈ out2 <-> slug ∉ slugs /\ default false (wtOnline w !! slug) = true /\ (wtTtlGrace w <= now - default 0 (wtLastSeen w !! slug))%Z) as Hout.
  { intros slug. rewrite G4. cbn. rewrite list_elem_of_fmap. setoid_rewrite list_elem_of_In. setoid_rewrite filter_In. setoid_rewrite <- list_elem_of_In.
    unfold entries, departed. split.
    - intros ([s b] & -> & Hin%elem_of_range_map & Hd). cbn in *. apply andb_true_iff in Hd as [[-> Hno]%andb_true_iff Hlt].
      apply negb_true_iff, bool_decide_eq_false in Hno. unfold present in Hno. rewrite elem_of_list_to_set in Hno. specialize (H3 s). specialize (H4 s).
      rewrite Hin in H4. rewrite H3, H1 in Hlt. rewrite decide_False in Hlt by (by rewrite Horder). rewrite decide_False in H4 by (by rewrite Horder). apply negb_true_iff, Z.ltb_ge in Hlt. by split_and!.
    - intros (Hno & Hon & Hle). specialize (H3 slug). specialize (H4 slug). rewrite decide_False in H3 by (by rewrite Horder). rewrite decide_False in H4 by (by rewrite Horder). rewrite Hon in H4.
      destruct (wtOnline w1 !! slug) as [b|] eqn:Hb; [|done]. cbn in H4. subst b. exists (slug, true). split_and!; [done|by apply elem_of_range_map|]. cbn.
      rewrite bool_decide_eq_false_2 by (unfold present; by rewrite elem_of_list_to_set). rewrite H3, H1. cbn. by apply negb_true_iff, Z.ltb_ge. }
  split_and!.
  - by rewrite G1.
  - rewrite G4. cbn. eapply NoDup_sublist, Hnd. apply sublist_map. clear. induction entries as [|e l IH]; cbn; [done|]. destruct (departed _ _ _ _ _); by constructor.
  - by rewrite G2, H2.
  - intros slug. rewrite G3, H3. destruct (decide (slug ∈ order)) as [Hin|Hin]; rewrite Horder in Hin; [by rewrite decide_True|by rewrite decide_False].
  - exact Hout.
  - intros slug. rewrite G5. change (map fst _) with ([] ++ map fst (List.filter (fun e => departed present now w1 e.1 e.2) entries)). rewrite <- G4.
    destruct (decide (slug ∈ out2)) as [(Hno & Hon & Hle)%Hout|Hnot]; [cbn; split; [done|intros [|[_ Hlt]]; [done|lia]]|].
    rewrite H4. destruct (decide (slug ∈ order)) as [Hin|Hin]; rewrite Horder in Hin; [split; [by left|done]|].
    rewrite Hout in Hnot. split; [intros Hon; right; split; [done|]|by intros [|[Hon _]]].
    destruct (Z.lt_ge_cases (now - default 0 (wtLastSeen w !! slug)) (wtTtlGrace w))%Z; [done|]. by destruct Hnot.
Qed.

(** * A history of scans *)

Notation scan := (result (list string) * Z)%type (only parsing).

(** [slug] was last seen at [t]: no later scan that answered gives it. *)
Definition last_seen (scans : list scan) (slug : string) (t : Z) : Prop :=
  exists earlier slugs later, scans = earlier ++ (Ok slugs, t) :: later /\ slug ∈ slugs /\ forall slugs' t', (Ok slugs', t') ∈ later -> slug ∉ slugs'.

(** It was, and no later scan that answered came a whole grace after. *)
Definition believed (grace : Z) (scans : list scan) (slug : string) (t : Z) : Prop :=
  exists earlier slugs later, scans = earlier ++ (Ok slugs, t) :: later /\ slug ∈ slugs /\
    forall slugs' t', (Ok slugs', t') ∈ later -> slug ∉ slugs' /\ (t' - t < grace)%Z.

Lemma snoc_middle {A} (scans earlier later : list A) s s' : scans ++ [s] = earlier ++ s' :: later ->
  (later = [] /\ earlier = scans /\ s' = s) \/ exists later', later = later' ++ [s] /\ scans = earlier ++ s' :: later'.
Proof.
  destruct later as [|x later _] using rev_ind.
  - intros [-> [= ->]]%app_inj_tail. by left.
  - intros He. right. exists later. change (s' :: later ++ [x]) with ((s' :: later) ++ [x]) in He. rewrite app_assoc in He. by apply app_inj_tail in He as [-> ->].
Qed.

(** A property of the scans after the last sight, as a scan is added. *)
Lemma history_snoc (Q : Z -> list string -> Z -> Prop) scans (r : result (list string)) now slug t :
  (exists earlier slugs later, scans ++ [(r, now)] = earlier ++ (Ok slugs, t) :: later /\ slug ∈ slugs /\ forall slugs' t', (Ok slugs', t') ∈ later -> Q t slugs' t') <->
  (exists slugs, r = Ok slugs /\ slug ∈ slugs /\ t = now) \/
  (exists earlier slugs later, scans = earlier ++ (Ok slugs, t) :: later /\ slug ∈ slugs /\ forall slugs' t', (Ok slugs', t') ∈ later -> Q t slugs' t') /\
    forall slugs, r = Ok slugs -> Q t slugs now.
Proof.
  split.
  - intros (earlier & slugs & later & [(-> & -> & [= <- <-])|(later' & -> & ->)]%snoc_middle & Hin & Hall); [left; eauto|right].
    split; [exists earlier, slugs, later'; split_and!; [done..|]; intros; apply Hall, elem_of_app; by left|].
    intros slugs' ->. apply Hall, elem_of_app. right. by left.
  - intros [(slugs & -> & Hin & ->)|[(earlier & slugs & later & -> & Hin & Hall) Hnew]].
    + exists scans, slugs, []. split_and!; [done..|]. by intros ? ? ?%elem_of_nil.
    + exists earlier, slugs, (later ++ [(r, now)]). split_and!; [by rewrite <- app_assoc|done|].
      intros slugs' t' [Hl|[= <- <-]%list_elem_of_singleton]%elem_of_app; [by apply Hall|by apply Hnew].
Qed.

Lemma believed_seen grace scans slug t : believed grace scans slug t -> last_seen scans slug t.
Proof. intros (e & l & p & -> & Hin & Hall). exists e, l, p. split_and!; [done..|]. intros l' t' Hl. by apply (Hall l' t'). Qed.

Record beliefs (scans : list scan) (w : watcher) : Prop := {
  be_seen slug t : wtLastSeen w !! slug = Some t <-> last_seen scans slug t;
  be_online slug : default false (wtOnline w !! slug) = true <-> exists t, believed (wtTtlGrace w) scans slug t;
}.

Lemma beliefs_scan scans w r now w' out : beliefs scans w -> scanOnce r now w = (w', out) ->
  beliefs (scans ++ [(r, now)]) w' /\ wtTtlGrace w' = wtTtlGrace w /\ wtSubs w' = wtSubs w /\ NoDup out /\
  forall slug, slug ∈ out <-> exists slugs t, r = Ok slugs /\ slug ∉ slugs /\ believed (wtTtlGrace w) scans slug t /\ (wtTtlGrace w <= now - t)%Z.
Proof.
  intros [Hseen Hon] Hscan. destruct r as [slugs|e].
  - apply scanOnce_Ok in Hscan as (Hg & Hnd & Hsubs & Hs & Ho & Hon'). split_and!; [|done|done|done|].
    + constructor.
      * intros slug t. rewrite Hs. unfold last_seen. rewrite (history_snoc (fun _ slugs' _ => slug ∉ slugs')). fold (last_seen scans slug t). destruct (decide (slug ∈ slugs)) as [Hin|Hno].
        -- split; [intros [= <-]; left; eauto|]. intros [(? & _ & _ & ->)|[_ Hall]]; [done|]. by destruct (Hall slugs eq_refl).
        -- rewrite Hseen. split; [intros Hl; right; split; [done|by intros ? [= <-]]|]. intros [(? & [= <-] & ? & _)|[? _]]; done.
      * intros slug. rewrite Hon', Hg. unfold believed. setoid_rewrite (history_snoc (fun t slugs' t' => slug ∉ slugs' /\ (t' - t < wtTtlGrace w)%Z)). split.
        -- intros [Hin|[[t Hb]%Hon Hlt]]; [exists now; left; eauto|]. destruct (decide (slug ∈ slugs)) as [Hin|Hno]; [exists now; left; eauto|].
           exists t. right. split; [done|]. intros ? [= <-]. split; [done|]. pose proof (proj2 (Hseen slug t) (believed_seen _ _ _ _ Hb)) as Ht. by rewrite Ht in Hlt.
        -- intros (t & [(? & [= <-] & Hin & _)|[Hb Hall]]); [by left|right]. destruct (Hall slugs eq_refl) as [Hno Hlt]. split; [apply Hon; by exists t|].
           by rewrite (proj2 (Hseen slug t) (believed_seen _ _ _ _ Hb)).
    + intros slug. rewrite Ho, Hon. split.
      * intros (Hno & [t Hb] & Hle). exists slugs, t. split_and!; [done..|]. by rewrite (proj2 (Hseen slug t) (believed_seen _ _ _ _ Hb)) in Hle.
      * intros (? & t & [= <-] & Hno & Hb & Hle). split_and!; [done|by exists t|]. by rewrite (proj2 (Hseen slug t) (believed_seen _ _ _ _ Hb)).
  - injection Hscan as <- <-. split_and!; [|done|done|constructor|].
    + constructor.
      * intros slug t. rewrite Hseen. unfold last_seen. rewrite (history_snoc (fun _ slugs' _ => slug ∉ slugs')). naive_solver.
      * intros slug. rewrite Hon. unfold believed. setoid_rewrite (history_snoc (fun t slugs' t' => slug ∉ slugs' /\ (t' - t < wtTtlGrace w)%Z)). naive_solver.
    + intros slug. split; [by intros ?%elem_of_nil|]. by intros (? & ? & ? & _).
Qed.

(** What a scan after others emits. *)
Definition departs (before : list scan) (r : result (list string)) (now : Z) (slug : string) : Prop :=
  exists slugs earlier slugs0 seen since, r = Ok slugs /\ slug ∉ slugs /\ before = earlier ++ (Ok slugs0, seen) :: since /\ slug ∈ slugs0 /\
    (PresenceTTL <= now - seen)%Z /\ forall slugs' t', (Ok slugs', t') ∈ since -> slug ∉ slugs' /\ (t' - seen < PresenceTTL)%Z.

Lemma departs_believed before r now slug : departs before r now slug <->
  exists slugs t, r = Ok slugs /\ slug ∉ slugs /\ believed PresenceTTL before slug t /\ (PresenceTTL <= now - t)%Z.
Proof.
  unfold departs, believed. split.
  - intros (slugs & earlier & slugs0 & t & since & -> & Hno & -> & Hin & Hle & Hall'). exists slugs, t. split_and!; [done..| |done]. by exists earlier, slugs0, since.
  - intros (slugs & t & -> & Hno & (earlier & slugs0 & since & -> & Hin & Hall') & Hle). exists slugs, earlier, slugs0, t, since. by split_and!.
Qed.

(** ** The subscribers *)

(** The slugs sent to a channel that got into it. *)
Definition delivered (offers : list (string * nat)) : list string :=
  map fst (List.filter (fun o => (o.2 <? subscriberBuffer)%nat) offers).

(** The slugs a scan has still to send to a channel. *)
Definition unsent (ch : nat) (sending : list (string * nat)) : list string :=
  map fst (List.filter (fun s => bool_decide (s.2 = ch)) sending).

Lemma delivered_snoc offers slug n :
  delivered (offers ++ [(slug, n)]) = delivered offers ++ (if (n <? subscriberBuffer)%nat then [slug] else []).
Proof. unfold delivered. rewrite List.filter_app, map_app. f_equal. cbn [List.filter snd]. by destruct (n <? subscriberBuffer)%nat. Qed.

#[local] Arguments delivered : simpl never.
#[local] Arguments emit : simpl never.
#[local] Arguments unsent : simpl never.
#[local] Arguments sends : simpl never.

(** The book of a subscriber is right: it was sent every slug emitted since it
    subscribed, in that order, but for those still to be sent, and it received,
    or has waiting, those that found room. *)
Definition book_right (h : history) (ch : nat) (b : book) (buffer : list string) : Prop :=
  (bkSince b <= length (hyEmitted h))%nat /\
  map fst (bkOffers b) ++ unsent ch (hySending h) = concat (drop (bkSince b) (hyEmitted h)) /\
  bkReceived b ++ buffer = delivered (bkOffers b).

Record sound (h : history) : Prop := {
  so_beliefs : beliefs (hyScans h) (hyWatcher h);
  so_grace : wtTtlGrace (hyWatcher h) = PresenceTTL;
  so_length : length (hyEmitted h) = length (hyScans h);
  so_emitted before r now after : hyScans h = before ++ (r, now) :: after ->
    exists out, hyEmitted h !! length before = Some out /\ NoDup out /\ forall slug, slug ∈ out <-> departs before r now slug;
  so_books : length (hyBooks h) = length (wtSubs (hyWatcher h));
  so_sending : Forall (fun s => s.2 < length (wtSubs (hyWatcher h)))%nat (hySending h);
  so_book ch b buffer : hyBooks h !! ch = Some b -> wtSubs (hyWatcher h) !! ch = Some buffer -> book_right h ch b buffer;
}.

(** The channels are no part of the beliefs. *)
Lemma beliefs_subs scans ttl online seen subs subs' :
  beliefs scans {| wtTtlGrace := ttl; wtOnline := online; wtLastSeen := seen; wtSubs := subs |} ->
  beliefs scans {| wtTtlGrace := ttl; wtOnline := online; wtLastSeen := seen; wtSubs := subs' |}.
Proof. intros [Hs Ho]. by constructor. Qed.

Lemma unsent_sends w out ch : (ch < length (wtSubs w))%nat -> unsent ch (sends w out) = out.
Proof.
  intros Hch. unfold unsent, sends. induction out as [|slug out IH]; [done|]. cbn [flat_map]. rewrite List.filter_app, map_app, IH.
  change (slug :: out) with ([slug] ++ out). f_equal. clear IH. revert Hch. generalize (length (wtSubs w)) as n.
  assert (forall n start, start <= ch < start + n -> map fst (List.filter (fun s : string * nat => bool_decide (s.2 = ch)) (map (pair slug) (seq start n))) = [slug])%nat as Hgen; [|intros n Hn; apply Hgen; lia].
  assert (forall n start, ch < start -> map fst (List.filter (fun s : string * nat => bool_decide (s.2 = ch)) (map (pair slug) (seq start n))) = [])%nat as Hnone.
  { induction n as [|n IH]; intros start Hs; [done|]. cbn. rewrite bool_decide_eq_false_2 by lia. apply IH. lia. }
  induction n as [|n IH]; intros start Hs; [lia|]. cbn. case_bool_decide as He.
  - cbn. f_equal. apply Hnone. lia.
  - apply IH. lia.
Qed.

Lemma sends_below w out : Forall (fun s => s.2 < length (wtSubs w))%nat (sends w out).
Proof.
  apply Forall_forall. intros [slug ch] (s & _ & Hin)%list_elem_of_In%in_flat_map.
  apply in_map_iff in Hin as (c & [= <- <-] & Hc). apply in_seq in Hc. cbn. lia.
Qed.

Lemma unsent_none ch sending n : Forall (fun s => s.2 < n)%nat sending -> (n <= ch)%nat -> unsent ch sending = [].
Proof.
  unfold unsent. induction 1 as [|[slug c] l Hc _ IH]; intros Hn; [done|]. cbn in *. rewrite bool_decide_eq_false_2 by lia. by apply IH.
Qed.

Lemma sound_subscribes h : sound h -> sound (happen h Subscribes).
Proof.
  intros []. destruct h as [[ttl online seen subs] sending scans emitted books]. cbn in *. constructor; cbn; unfold constant; try done.
  - by eapply beliefs_subs.
  - rewrite !length_app. cbn. lia.
  - eapply Forall_impl; [done|]. intros s Hs. cbn in *. rewrite length_app. lia.
  - intros ch b buffer [Hb|[Hle Hb]]%lookup_app_Some [Hw|[Hle' Hw]]%lookup_app_Some.
    + by apply so_book0.
    + apply lookup_lt_Some in Hb. lia.
    + apply lookup_lt_Some in Hw. lia.
    + apply list_lookup_singleton_Some in Hb as [Hch <-]. apply list_lookup_singleton_Some in Hw as [_ <-]. unfold book_right. cbn. unfold constant.
      split; [lia|]. rewrite drop_all. split; [|done]. eapply unsent_none; [done|]. lia.
Qed.

Lemma sound_scans h r now : sound h -> sound (happen h (Scans r now)).
Proof.
  intros Hs. destruct h as [w sending scans emitted books]. cbn. destruct sending as [|s sending]; [|done]. destruct Hs; cbn in *.
  destruct (scanOnce r now w) as [w' out] eqn:Hscan. apply (beliefs_scan scans) in Hscan as (Hbel & Hg & Hsubs & Hnd & Hout); [|done].
  constructor; cbn; unfold constant; rewrite ?Hsubs; try done.
  - by rewrite Hg.
  - rewrite !length_app. cbn. lia.
  - intros before r' now' after [(-> & -> & [= <- <-])|(later & -> & Hscans)]%snoc_middle.
    + exists out. rewrite <- so_length0, list_lookup_middle by done. split_and!; [done..|]. intros slug. by rewrite Hout, departs_believed, so_grace0.
    + destruct (so_emitted0 _ _ _ _ Hscans) as (out' & Ho & Hrest). exists out'. split; [|done]. by apply lookup_app_l_Some.
  - rewrite <- Hsubs. apply sends_below.
  - intros ch b buffer Hb Hw. destruct (so_book0 ch b buffer Hb Hw) as (Hle & Hoff & Hrec). unfold book_right in *. cbn in *. unfold constant in *.
    rewrite length_app. split; [lia|]. split; [|done]. rewrite unsent_sends by (rewrite Hsubs; by eapply lookup_lt_Some).
    rewrite drop_app_le, concat_app by done. cbn. by rewrite <- Hoff, !app_nil_r.
Qed.

Lemma sound_sends h : sound h -> sound (happen h Sends).
Proof.
  intros Hs. destruct h as [w sending scans emitted books]. cbn. destruct sending as [|[slug ch] sending]; [done|]. destruct Hs; cbn in *.
  apply Forall_cons in so_sending0 as [Hch Hrest]. cbn in Hch. destruct w as [ttl online seen subs]. cbn in *. constructor; cbn; unfold constant; rewrite ?length_alter; try done.
  - by eapply beliefs_subs.
  - intros c b buffer Hb Hw. unfold book_right in *. destruct (decide (c = ch)) as [->|Hne].
    + rewrite list_lookup_alter_eq in Hb. rewrite list_lookup_alter_eq in Hw. destruct (books !! ch) as [b0|] eqn:Hb0; [|done]. destruct (subs !! ch) as [buffer0|] eqn:Hw0; [|done].
      destruct (so_book0 ch b0 buffer0 Hb0 Hw0) as (Hle & Hoff & Hrec). cbn in *. injection Hb as <-. injection Hw as <-. destruct b0 as [since offers received]. cbn in *.
      split; [done|]. unfold unsent in *. cbn in *. rewrite bool_decide_eq_true_2 in Hoff by done. cbn in Hoff. split; [by rewrite map_app, <- app_assoc|].
      rewrite delivered_snoc, <- Hrec. unfold emit. destruct (length buffer0 <? subscriberBuffer)%nat; [by rewrite app_assoc|by rewrite app_nil_r].
    + rewrite list_lookup_alter_ne in Hb by done. rewrite list_lookup_alter_ne in Hw by done. destruct (so_book0 c b buffer Hb Hw) as (Hle & Hoff & Hrec). cbn in *. split_and!; [done| |done].
      unfold unsent in *. cbn in Hoff. by rewrite bool_decide_eq_false_2 in Hoff by done.
Qed.

Lemma sound_receives h ch : sound h -> sound (happen h (Receives ch)).
Proof.
  intros Hs. destruct h as [w sending scans emitted books]. cbn. unfold receive. destruct (wtSubs w !! ch) as [[|slug rest]|] eqn:Hw; [done| |done].
  destruct Hs; cbn in *. destruct w as [ttl online seen subs]. cbn in *. constructor; cbn; unfold constant; rewrite ?length_alter, ?length_insert; try done.
  - by eapply beliefs_subs.
  - intros c b buffer Hb Hw'. unfold book_right in *. cbn in *. destruct (decide (c = ch)) as [->|Hne].
    + rewrite list_lookup_alter_eq in Hb. rewrite list_lookup_insert_eq in Hw' by (by eapply lookup_lt_Some). injection Hw' as <-. destruct (books !! ch) as [b0|] eqn:Hb0; [|done].
      destruct (so_book0 ch b0 _ Hb0 Hw) as (Hle & Hoff & Hrec). injection Hb as <-. destruct b0. cbn in *. split_and!; [done..|]. by rewrite <- app_assoc.
    + rewrite list_lookup_alter_ne in Hb by done. rewrite list_lookup_insert_ne in Hw' by done. by apply so_book0.
Qed.

Lemma sound_happen h e : sound h -> sound (happen h e).
Proof. destruct e; [apply sound_subscribes|apply sound_scans|apply sound_sends|apply sound_receives]. Qed.

Lemma sound_started : sound started.
Proof.
  constructor; cbn; try done; [|by intros [|? before] ? ? ?].
  constructor; [intros slug t|intros slug]; cbn; rewrite lookup_empty; [split; [done|]; by intros ([] & ? & ? & ? & _)|]. split; [done|]. by intros (t & [] & ? & ? & ? & _).
Qed.

(** C38: However scans, subscriptions, sends and receives interleave, a scan emits
    an agent exactly when it answered without it, the agent was last seen a
    whole TTL before, and no scan since has yet found it gone that long: once for
    each departure, at the first scan that can tell, never while a key that is
    late is within its grace, and again only after the agent has come back; scans
    that fail count for nothing. Every subscriber is sent each slug that was
    emitted since it subscribed, once and in order, and receives, in that order,
    those that found fewer than 16 waiting in its channel. *)
Theorem departures_signalled events :
  let h := fold_left happen events started in
  (forall before r now after, hyScans h = before ++ (r, now) :: after ->
     exists out, hyEmitted h !! length before = Some out /\ NoDup out /\ forall slug, slug ∈ out <-> departs before r now slug) /\
  length (hyBooks h) = length (wtSubs (hyWatcher h)) /\
  forall ch b buffer, hyBooks h !! ch = Some b -> wtSubs (hyWatcher h) !! ch = Some buffer ->
    map fst (bkOffers b) ++ unsent ch (hySending h) = concat (drop (bkSince b) (hyEmitted h)) /\
    bkReceived b ++ buffer = delivered (bkOffers b).
Proof.
  assert (forall h, sound h -> sound (fold_left happen events h)) as Hall.
  { induction events as [|e events IH]; intros h Hh; [done|]. by apply IH, sound_happen. }
  intros h. destruct (Hall started sound_started) as [_ _ _ Hem Hlen _ Hbook]. split; [exact Hem|]. split; [exact Hlen|].
  intros ch b buffer Hb Hw. by destruct (Hbook ch b buffer Hb Hw) as (_ & ? & ?).
Qed.
End watch.

(** * A late key and a departure *)

Module Sample.
#[local] Existing Instance enumeration_order.

(** Present, missed once, back, then gone for good, with a subscriber from the
    start and another that comes late. *)
Definition sampleEvents : list event :=
  [Subscribes; Scans (Ok ["nas"]) 0; Scans (Ok []) 9000000000; Scans (Err "timeout") 12000000000; Scans (Ok ["nas"]) 15000000000;
   Scans (Ok []) 30000000000; Subscribes; Sends; Receives 0; Scans (Ok []) 33000000000]%Z.

Example sample_signals :
  let h := fold_left happen sampleEvents started in
  hyEmitted h = [[]; []; []; []; ["nas"]; []] /\ map bkReceived (hyBooks h) = [["nas"]; []].
Proof. by vm_compute. Qed.
End Sample.
