(* ===== verification/AgentRuntime.v ===== *)
(** An agent's hold on its slug and its configuration: presence.go and config.go
    of src/internal/agent/runtime, over the keys of AgentRegistry. The processes
    that claim one slug are the steps of [claiming]. *)
From stdpp Require Import strings list gmap.
From Stdlib Require Import Ascii ZArith Lia.
From coqutil Require Import Datatypes.RecordSetters.
Import DoubleBraceUpdate.
From S2P Require Import Prelude Sidecar Topics Paths AppConfig ConfigStore ConfigInvariant ScanSend AgentRegistry.
#[local] Open Scope go_scope.

(** * The configuration an agent works with *)

Section config.
Context `{KeyStore, Reported, !AgentCodec, Regexp}.

(** The agent's configuration store, with what it installs: the table of the
    package scanmodel and the level of the shipper. *)
Record configStore : Type := {
  csCurrent : option AgentConfigProjection;
  csRegistry : SidecarRegistry;
  csLevel : level;
}.

Definition applySidecarTypes (projection : AgentConfigProjection) (s : configStore) : configStore :=
  match apSidecarTypes projection with
  | [] => s
  | types => match NewSidecarRegistry types with Ok registry => s {{ csRegistry := registry }} | Err _ => s end
  end.

Definition applyLogLevel (projection : AgentConfigProjection) (s : configStore) : configStore :=
  s {{ csLevel := if String.eqb (apLogLevel projection) LogLevelDebug then LevelDebug else LevelInfo }}.

Definition Refresh (slug : string) (st : keys * configStore) : (keys * configStore) * option string :=
  match GetKey (ConfigKey slug) st.1 with
  | (db, Ok None) => ((db, st.2), None)
  | (db, Err err) => ((db, st.2), Some err)
  | (db, Ok (Some raw)) =>
      match UnmarshalProjection raw with
      | Err err => ((db, st.2), Some err)
      | Ok projection => ((db, applyLogLevel projection (applySidecarTypes projection (st.2 {{ csCurrent := Some projection }}))), None)
      end
  end.
End config.

Section configured.
Context `{KeyStoreLaws, Reported, !AgentCodec, !AgentCodecLaws, Regexp}.

(** An agent that is told nothing keeps what it has. *)
Lemma Refresh_absent slug db s db' s' err : held db !! ConfigKey slug = None -> Refresh slug (db, s) = ((db', s'), err) -> s' = s.
Proof.
  unfold Refresh. cbn [fst snd]. intros Hno. pose proof (GetKey_held (ConfigKey slug) db) as Hsub.
  destruct (GetKey (ConfigKey slug) db) as [db1 [[raw|]|e]] eqn:Hget; [|by intros [= <- <- <-]..].
  apply GetKey_Ok in Hget. cbn in Hsub. symmetry in Hget. pose proof (lookup_weaken _ _ _ _ Hget Hsub). congruence.
Qed.

(** What was published is what the agent comes to work with. *)
Lemma Refresh_published slug projection text db s db' s' : MarshalProjection projection = Ok text ->
  held db !! ConfigKey slug = Some text -> held db' !! ConfigKey slug = Some text -> Refresh slug (db, s) = ((db', s'), None) ->
  s' = applyLogLevel projection (applySidecarTypes projection (s {{ csCurrent := Some projection }})).
Proof.
  intros Hm Hdb Hdb'. unfold Refresh. cbn [fst snd]. destruct (GetKey (ConfigKey slug) db) as [db1 [[raw|]|e]] eqn:Hget; [| |done]; apply GetKey_Ok in Hget.
  - destruct (UnmarshalProjection raw) as [projection'|] eqn:Hu; [|done]. intros [= <- <-]. rewrite Hdb' in Hget. injection Hget as ->.
    rewrite (projection_roundtrip _ _ Hm) in Hu. by injection Hu as <-.
  - intros [= -> _]. congruence.
Qed.

(** Once the last type of the sidecar table is deleted, the server classifies
    with the built-in table and an agent that was running goes on with the table
    it had: the projection of an empty table installs nothing. *)
Theorem emptied_table_diverges config slug updatedAt (s : configStore) r :
  dsSidecarTypes (cfDirectoryScanner config) = [] -> NewSidecarRegistry [] = Ok r ->
  (forall Fleet PublishAll (rt : runtime Fleet), rtRegistry (PropagateInProcess PublishAll config rt) = r) /\
  csRegistry (applyLogLevel (BuildProjection config slug updatedAt) (applySidecarTypes (BuildProjection config slug updatedAt) s)) = csRegistry s.
Proof.
  intros Hempty Hr. split.
  - intros Fleet PublishAll rt. cbn [PropagateInProcess rtRegistry]. assert (cfDirectoryScanner (renormalize config) = cfDirectoryScanner config) as ->.
    { unfold renormalize, Normalize, normalizeAuthenticationScheme. by destruct (decide _). }
    by rewrite Hempty, Hr.
  - assert (apSidecarTypes (BuildProjection config slug updatedAt) = []) as He by (unfold BuildProjection; by destruct (_ ≫= _)).
    unfold applySidecarTypes. by rewrite He.
Qed.
End configured.

(** * One process per slug *)

Section presence.
Context `{KeyStore}.
(** The slug, the id each process draws when it starts, and the presence record
    it writes. *)
Variables (slug : string) (instance_ : nat -> string) (record : nat -> string).

Inductive hold : Type :=
| Contending      (** the lock is someone's *)
| Taking          (** it is its own *)
| Running
| Refreshed       (** the lock is, the presence record not yet *)
| GaveUp
| Gone.

Record site : Type := { siKeys : keys; siHolds : gmap nat hold }.

Definition becomes (i : nat) (h : hold) (db : keys) (s : site) : site := {| siKeys := db; siHolds := <[i := h]> (siHolds s) |}.

(** The calls of Claim, Report and release, and keys that expire. *)
Inductive claiming : site -> site -> Prop :=
| claims i db (acquired : bool) s :
    siHolds s !! i = None -> SetNX (LockKey slug) (instance_ i) (siKeys s) = (db, Ok acquired) ->
    claiming s (becomes i (if acquired then Running else Contending) db s)
| claim_fails i db err s :
    siHolds s !! i = None -> SetNX (LockKey slug) (instance_ i) (siKeys s) = (db, Err err) -> claiming s (becomes i GaveUp db s)
| reads_holder i db holder s :
    siHolds s !! i = Some Contending -> GetKey (LockKey slug) (siKeys s) = (db, Ok holder) ->
    claiming s (becomes i (if String.eqb (default "" holder) (instance_ i) then Taking else GaveUp) db s)
| read_fails i db err s :
    siHolds s !! i = Some Contending -> GetKey (LockKey slug) (siKeys s) = (db, Err err) -> claiming s (becomes i GaveUp db s)
| takes_over i db err s :
    siHolds s !! i = Some Taking -> SetKey (LockKey slug) (instance_ i) (siKeys s) = (db, err) ->
    claiming s (becomes i (if err then GaveUp else Running) db s)
| refreshes i db err s :
    siHolds s !! i = Some Running -> SetKey (LockKey slug) (instance_ i) (siKeys s) = (db, err) ->
    claiming s (becomes i (if err then Running else Refreshed) db s)
| reports i db err s :
    siHolds s !! i = Some Refreshed -> SetKey (PresenceKey slug) (record i) (siKeys s) = (db, err) -> claiming s (becomes i Running db s)
| releases i db err s :
    siHolds s !! i = Some Running -> DelKeys [PresenceKey slug; LockKey slug] (siKeys s) = (db, err) -> claiming s (becomes i Gone db s)
| crashes i h s : siHolds s !! i = Some h -> claiming s (becomes i Gone (siKeys s) s)
| expires key db s : held db = delete key (held (siKeys s)) -> claiming s {| siKeys := db; siHolds := siHolds s |}.

(** A process that believes the slug is its own. *)
Definition holds (s : site) (i : nat) : Prop := match siHolds s !! i with Some (Taking | Running | Refreshed) => True | _ => False end.

(** The lock of a process that holds the slug has not run out. *)
Definition in_time (s : site) : Prop := forall i, holds s i -> is_Some (held (siKeys s) !! LockKey slug).

Inductive claiming_in_time (s0 : site) : site -> Prop :=
| here : claiming_in_time s0 s0
| on s s' : claiming_in_time s0 s -> claiming s s' -> in_time s' -> claiming_in_time s0 s'.

Context `{!KeyStoreLaws}.
Hypothesis instance_inj : forall i j, instance_ i = instance_ j -> i = j.

Definition locked (s : site) : Prop := forall i, holds s i -> held (siKeys s) !! LockKey slug = Some (instance_ i).

Lemma holds_becomes s i h db j : holds (becomes i h db s) j <-> if decide (j = i) then match h with Taking | Running | Refreshed => True | _ => False end else holds s j.
Proof.
  unfold holds. cbn. destruct (decide (j = i)) as [->|Hne]; [by rewrite lookup_insert_eq|by rewrite lookup_insert_ne].
Qed.

Lemma PresenceKey_LockKey : PresenceKey slug <> LockKey slug.
Proof. intros He. apply (inj (String.append keyPrefix)) in He. discriminate. Qed.

(** A step whose process does not come to hold the slug, that leaves the lock of
    the others alone. *)
Lemma locked_quiet s i h db : locked s -> (forall j, j <> i -> holds s j -> held db !! LockKey slug = held (siKeys s) !! LockKey slug) ->
  match h with Taking | Running | Refreshed => False | _ => True end -> locked (becomes i h db s).
Proof.
  intros Hl Hkeep Hh j Hj. apply holds_becomes in Hj. cbn. destruct (decide (j = i)) as [->|Hne]; [by destruct h|]. by rewrite (Hkeep j Hne Hj), (Hl j Hj).
Qed.

(** A step after which the process's own id is in the lock, and no other's was. *)
Lemma locked_own s i h db : (forall j, j <> i -> ~ holds s j) -> held db !! LockKey slug = Some (instance_ i) -> locked (becomes i h db s).
Proof.
  intros Hothers Hown j Hj. apply holds_becomes in Hj. cbn. destruct (decide (j = i)) as [->|Hne]; [done|]. by destruct (Hothers j Hne).
Qed.

(** While one process holds the slug, no other does. *)
Lemma locked_alone s i : locked s -> holds s i -> forall j, j <> i -> ~ holds s j.
Proof. intros Hl Hi j Hne Hj. apply Hne, instance_inj. apply Hl in Hi, Hj. congruence. Qed.

Lemma locked_free s : locked s -> held (siKeys s) !! LockKey slug = None -> forall j, ~ holds s j.
Proof. intros Hl Hno j Hj%Hl. congruence. Qed.

Lemma locked_step s s' : locked s -> claiming s s' -> in_time s' -> locked s'.
Proof.
  intros Hl Hstep Ht. destruct Hstep as [i db acquired s Hi Hset|i db err s Hi Hset|i db holder s Hi Hget|i db err s Hi Hget|i db err s Hi Hset|i db err s Hi Hset|i db err s Hi Hset|i db err s Hi Hdel|i h s Hi|key db s Hdb].
  - apply SetNX_Ok in Hset as [[Hno Hdb]|(-> & Hdb & _)]; [|by apply locked_quiet; [|intros; by rewrite Hdb|]].
    apply locked_own; [intros j _; by apply locked_free|by rewrite Hdb, lookup_insert_eq].
  - apply SetNX_Err in Hset as [Hdb|[Hno Hdb]]; [by apply locked_quiet; [|intros; by rewrite Hdb|]|]. apply locked_own; [intros j _; by apply locked_free|by rewrite Hdb, lookup_insert_eq].
  - pose proof (GetKey_held (LockKey slug) (siKeys s)) as Hsub. rewrite Hget in Hsub. cbn in Hsub. apply GetKey_Ok in Hget.
    destruct (String.eqb_spec (default "" holder) (instance_ i)) as [Hown|_].
    + intros j Hj. destruct (Ht j Hj) as [v Hv]. cbn in *. rewrite Hv in Hget. subst holder. cbn in Hown. apply holds_becomes in Hj.
      destruct (decide (j = i)) as [->|Hne]; [by rewrite Hv, Hown|]. apply Hl in Hj. pose proof (lookup_weaken _ _ _ _ Hv Hsub). congruence.
    + apply locked_quiet; [done| |done]. intros j Hne Hj. destruct (Ht j) as [v Hv]; [apply holds_becomes; by rewrite decide_False|]. cbn in Hv.
      by rewrite (lookup_weaken _ _ _ _ Hv Hsub).
  - pose proof (GetKey_held (LockKey slug) (siKeys s)) as Hsub. rewrite Hget in Hsub. cbn in Hsub. apply locked_quiet; [done| |done].
    intros j Hne Hj. destruct (Ht j) as [v Hv]; [apply holds_becomes; by rewrite decide_False|]. cbn in Hv. by rewrite (lookup_weaken _ _ _ _ Hv Hsub).
  - assert (holds s i) as Hhi by (unfold holds; by rewrite Hi). apply locked_own; [by apply locked_alone|].
    destruct err; [apply SetKey_Err in Hset as [->| ->]; [by apply Hl|]|apply SetKey_Ok in Hset as ->]; by rewrite lookup_insert_eq.
  - assert (holds s i) as Hhi by (unfold holds; by rewrite Hi). apply locked_own; [by apply locked_alone|].
    destruct err; [apply SetKey_Err in Hset as [->| ->]; [by apply Hl|]|apply SetKey_Ok in Hset as ->]; by rewrite lookup_insert_eq.
  - assert (holds s i) as Hhi by (unfold holds; by rewrite Hi). apply locked_own; [by apply locked_alone|].
    destruct err; [apply SetKey_Err in Hset as [->| ->]; [by apply Hl|]|apply SetKey_Ok in Hset as ->]; rewrite lookup_insert_ne by apply PresenceKey_LockKey; by apply Hl.
  - assert (holds s i) as Hhi by (unfold holds; by rewrite Hi). apply locked_quiet; [done| |done]. intros j Hne Hj. by destruct (locked_alone s i Hl Hhi j Hne).
  - apply locked_quiet; [done..].
  - intros j Hj. destruct (Ht j Hj) as [v Hv]. cbn in *. rewrite Hv. rewrite Hdb in Hv. apply lookup_delete_Some in Hv as [_ Hv]. specialize (Hl j Hj). congruence.
Qed.

(** C25: As long as no lock runs out under the process that holds it, at most one
    process runs under a slug, however starts, refreshes, releases, crashes and
    failures of Redis interleave; and the lock carries its id. *)
Theorem one_process_per_slug db s i j : claiming_in_time {| siKeys := db; siHolds := ∅ |} s -> holds s i -> holds s j ->
  i = j /\ held (siKeys s) !! LockKey slug = Some (instance_ i).
Proof.
  intros Hr Hi Hj. assert (locked s) as Hl.
  { clear Hi Hj. induction Hr as [|s s' _ IH Hstep Ht]; [intros k Hk; unfold holds in Hk; cbn in Hk; by rewrite lookup_empty in Hk|].
    by apply (locked_step s). }
  split; [|by apply Hl]. destruct (decide (i = j)) as [|Hne]; [done|]. by destruct (locked_alone s j Hl Hj i Hne).
Qed.
End presence.

(** * A Redis, and two processes *)

Module Sample.
(** Keys that expire only when they are made to. *)
#[export] Instance mapKeys : KeyStore := {|
  keys := gmap string string;
  GetKey key db := (db, Ok (db !! key));
  SetKey key v db := (<[key := v]> db, None);
  SetNX key v db := match db !! key with None => (<[key := v]> db, Ok true) | Some _ => (db, Ok false) end;
  DelKeys ks db := (foldr delete db ks, None);
  ScanKeys pattern db := (db, (List.filter (has_prefix (str_take (String.length pattern - 1) pattern)) (map_to_list db).*1, None));
  held := id |}.

#[export] Instance mapKeysLaws : KeyStoreLaws.
Proof.
  constructor; cbn.
  - done.
  - by intros key db db' v [= <- <-].
  - by intros key v db db' [= <-].
  - done.
  - intros key v db db' acquired. destruct (db !! key) eqn:Hk; intros [= <- <-]; [right|left]; by eauto.
  - intros key v db db' err. by destruct (db !! key).
  - by intros ks db db' [= <-].
  - done.
  - done.
  - intros prefix db db' ks [= <- <-] key. rewrite str_length_app. cbn. rewrite Nat.add_sub, str_take_app.
    rewrite list_elem_of_In, filter_In, <- list_elem_of_In, list_elem_of_fmap. split.
    + intros [([k v] & -> & Hin%elem_of_map_to_list) Hp]. split; [done|]. cbn. by exists v.
    + intros [Hp [v Hv]]. split; [|done]. exists (key, v). split; [done|]. by apply elem_of_map_to_list.
Qed.

(** Every process draws its own id. *)
Definition drawn (i : nat) : string := Nat.iter i (String "1") "0".

Definition empty : @keys mapKeys := ∅.
Definition start : site := {| siKeys := empty; siHolds := ∅ |}.

Lemma drawn_inj i j : drawn i = drawn j -> i = j.
Proof.
  assert (forall n, String.length (drawn n) = S n) as Hl by (intros n; unfold drawn; induction n as [|n IH]; [done|]; cbn; by f_equal).
  intros He%(f_equal String.length). rewrite !Hl in He. by injection He.
Qed.

Notation claiming := (claiming "nas" drawn (fun _ => "{}")).
Notation held_at s := (held (siKeys s) !! LockKey "nas").

Lemma one_process_per_slug_witness : exists s, holds s 0 /\ held_at s = Some (drawn 0).
Proof.
  assert (exists s, claiming_in_time "nas" drawn (fun _ => "{}") {| siKeys := empty; siHolds := ∅ |} s /\ holds s 0) as (s & Hr & H0).
  { eexists. split.
    - eapply on; [apply here|by eapply (claims _ _ _ 0)|]. intros i _. cbn. by eexists.
    - reflexivity || exact I. }
  exists s. split; [exact H0|]. apply (one_process_per_slug "nas" drawn (fun _ => "{}") drawn_inj empty s 0 0 Hr H0 H0).
Defined.

(** A lock that runs out under a process that is still running lets a second
    one in, and the first goes on: it puts its own id back in the lock the
    second took, and both run under the slug. *)
Theorem lapsed_lock_shared : exists s, rtc claiming start s /\ holds s 0 /\ holds s 1 /\ held_at s = Some (drawn 0).
Proof.
  eexists. split; [|split; [|split]].
  - eapply rtc_l; [by eapply (claims _ _ _ 0)|]. eapply rtc_l; [by apply (expires _ _ _ (LockKey "nas") empty)|].
    eapply rtc_l; [by eapply (claims _ _ _ 1)|]. eapply rtc_l; [by eapply (refreshes _ _ _ 0)|]. apply rtc_refl.
  - exact I.
  - exact I.
  - reflexivity.
Qed.

(** An agent that crashed and comes back draws a new id, so it does not find its
    own in the lock it left: it is refused until the lock runs out. *)
Lemma restart_refused : exists s, rtc claiming start s /\ siHolds s !! 0%nat = Some Gone /\ siHolds s !! 1%nat = Some GaveUp /\ held_at s = Some (drawn 0).
Proof.
  eexists. split; [|split; [|split]].
  - eapply rtc_l; [by eapply (claims _ _ _ 0)|]. eapply rtc_l; [by eapply (crashes _ _ _ 0)|].
    eapply rtc_l; [by eapply (claims _ _ _ 1)|]. eapply rtc_l; [by eapply (reads_holder _ _ _ 1)|]. apply rtc_refl.
  - reflexivity.
  - reflexivity.
  - reflexivity.
Qed.
End Sample.
