(* ===== verification/AgentSamples.v ===== *)
(** An agent that maps one of two libraries, and the theorems of AgentRegistry
    and AgentRuntime at it. *)
From stdpp Require Import strings list gmap.
From Stdlib Require Import Ascii ZArith Lia.
From coqutil Require Import Datatypes.RecordSetters.
Import DoubleBraceUpdate.
From S2P Require Import Prelude Sidecar Topics Bus GoPath Paths AppConfig ConfigStore Services ConfigServices ConfigInvariant ConfigSamples ScanSend Ingest LibrarySamples AgentRegistry AgentRuntime.
Import Sidecar.Literal AgentRuntime.Sample.
#[local] Open Scope go_scope.
#[local] Existing Instances engine asListed.

Definition nas : Agent :=
  {| agSlug := "nas"; agDisplayName := "NAS"; agMappings := [{| amScannerSlug := "films"; amAgentPath := "/volume1/films" |}]; agLogLevel := "" |}.

Definition live : Config := setScanDirectories [library "films"; library "shows"] (Default {{ cfAgents := [nas] }}).

(** The same of what the agent may know, another in everything else. *)
Definition other : Config :=
  live {{ cfAuth := {| acHmacSecret := "secret" |}; cfInterfaces := [Some (sonarr "tv")];
          cfDirectoryScanner ::= fun d => d {{ dsScanDirectories := [(library "films") {{ sdDirectory := "/elsewhere" }}] }} }}.

Lemma agents_ok_live : agents_ok (cfAgents live).
Proof. constructor; repeat constructor; by intros []%elem_of_nil. Qed.

Lemma config_ok_live : config_ok live.
Proof.
  constructor; [|apply agents_ok_live|by exists []; repeat constructor|reflexivity..].
  constructor; [by vm_compute| |cbn; apply Forall_cons; split; [reflexivity|]; apply Forall_singleton; reflexivity|by apply default_registry, defaults_compile].
  cbn. repeat constructor; [intros [?|[]%elem_of_nil]%elem_of_cons; done|intros []%elem_of_nil].
Qed.

Lemma projection_confined_witness : BuildProjection live "nas" 0 = BuildProjection other "nas" 0 /\ live <> other.
Proof.
  split; [|by intros [=]]. apply projection_confined; [reflexivity..|].
  intros agent mapping [= <-] Hm. apply elem_of_cons in Hm as [->|[]%elem_of_nil]. reflexivity.
Defined.

(** * Publication *)

#[local] Instance anonymous : Reported := {| AgentIdentity := unit; AgentTelemetry := unit |}.

#[local] Instance projection_eq_dec : EqDecision AgentConfigProjection.
Proof.
  assert (EqDecision Entry) by solve_decision. assert (EqDecision MappedDirectory) by solve_decision. solve_decision.
Defined.

(** An encoding of the projection that is published, and of one presence. *)
#[local] Instance known : AgentCodec := {|
  MarshalProjection projection := if decide (projection = BuildProjection live "nas" 0) then Ok "nas" else Err "unknown message";
  UnmarshalProjection text := if String.eqb text "nas" then Ok (BuildProjection live "nas" 0) else Err "unexpected token";
  MarshalPresence _ := Ok "{}";
  UnmarshalPresence text := if String.eqb text "{}" then Ok {| prIdentity := tt; prTelemetry := tt; prReportedAt := 0 |} else Err "unexpected token";
|}.

#[local] Instance known_laws : AgentCodecLaws.
Proof. intros projection text. cbn. destruct (decide _) as [->|]; [by intros [= <-]|done]. Qed.

Definition noKeys : fleet := {| flKeys := AgentRuntime.Sample.empty; flNotified := [] |}.
Definition published : fleet := {| flKeys := <[ConfigKey "nas" := "nas"]> (∅ : gmap string string); flNotified := [AgentConfigChangedChannel "nas"] |}.

Lemma live_published : PublishAll 0 live noKeys = (published, None).
Proof.
  unfold PublishAll. change (cfAgents live) with [nas]. cbn [publishAgents]. unfold publish. change (agSlug nas) with "nas".
  assert (MarshalProjection (BuildProjection live "nas" 0) = Ok "nas") as -> by (cbn; by rewrite decide_True). reflexivity.
Qed.

Lemma PublishAll_spec_witness : exists text, held (flKeys published) !! ConfigKey "nas" = Some text /\ UnmarshalProjection text = Ok (BuildProjection live "nas" 0).
Proof.
  destruct (PublishAll_spec live 0 noKeys published None agents_ok_live live_published) as (pub & rest & Hsplit & Hrest & _ & Hpub & _).
  rewrite (proj1 Hrest eq_refl), app_nil_r in Hsplit. apply (Hpub nas). rewrite <- Hsplit. by left.
Defined.

Lemma forget_removes_new_witness :
  is_Some (held (flKeys published) !! ConfigKey "nas") /\ held (flKeys (Forget "nas" published).1) !! ConfigKey "nas" = None.
Proof.
  apply (forget_removes_new live 0 "nas" nas noKeys published (Forget "nas" published).1); [exact agents_ok_live|reflexivity|exact live_published|reflexivity].
Defined.

(** The agent of the configuration, and one it does not know. *)
Definition reporting : gmap string string := <[PresenceKey "nas" := "{}"]> (<[PresenceKey "attic" := "{}"]> ∅).

Lemma List_spec_witness : exists views, (List live (reporting : @keys mapKeys)).2 = Ok views /\ map slugOf views = ["attic"; "nas"] /\
  StronglySorted (fun v w => String.ltb (slugOf v) (slugOf w) = true) views.
Proof.
  assert (exists views, List live (reporting : @keys mapKeys) = (reporting, Ok views) /\ map slugOf views = ["attic"; "nas"]) as (views & Hlist & Hslugs)
    by (eexists; split; reflexivity).
  exists views. split_and!; [by rewrite Hlist|done|]. exact (proj1 (List_spec live reporting reporting views agents_ok_live Hlist)).
Defined.

(** * A scan *)

(** Injectivity that does not compute the texts. *)
Lemma Ok_eq {A} (a b : A) : Ok a = Ok b -> a = b.
Proof. by intros [= ->]. Qed.

(** Commands and the events they travel in, a field after the other. *)
#[local] Instance framedCommands : CommandWire := {|
  encodeCommand command := Ok (frame [cmdScanID command; cmdScannerSlug command]);
  decodeCommand payload :=
    match unframe payload with Some [scan; slug] => Ok {| cmdScanID := scan; cmdScannerSlug := slug |} | _ => Err "unexpected token" end |}.

#[local] Instance framedCommands_law : CommandWireLaw.
Proof. intros [scan slug] s _ <-%Ok_eq. cbn [decodeCommand framedCommands]. by rewrite unframe_frame. Qed.

#[local] Instance framedEvents : Envelope := {|
  MarshalEvent event := Ok (frame [evName event; evSource event; evCorrelationId event; number (evTimestamp event); evPayload event]);
  UnmarshalEvent text :=
    match unframe text with
    | Some [name; source; correlationID; timestamp; payload] =>
        match unnumber timestamp with
        | Some t => Ok {| evName := name; evSource := source; evCorrelationId := correlationID; evTimestamp := t; evPayload := payload |}
        | None => Err "unexpected token"
        end
    | _ => Err "unexpected token"
    end |}.

#[local] Instance framedEvents_law : EnvelopeLaw.
Proof. intros [] s <-%Ok_eq. cbn [UnmarshalEvent framedEvents]. rewrite unframe_frame. cbn. by rewrite unnumber_number. Qed.

Definition serverBus : @Bus unit :=
  {| bsConfig := {| cfSource := SourceServer; cfSubscriber _ _ := Some "connection refused" |}; bsRegistrations := ∅; bsStarted := true; bsLive := Some ∅; bsReady := true |}.


(** A relative path is accepted, and the agent scans below its own working
    directory; the server then refuses what it reports. *)
Example relative_path_untranslated :
  is_ok (Path (NewPathTranslator "films" "/media/films") (JoinPath "/home/metarr" "films")) = false.
Proof. reflexivity. Qed.

(** * A table that was emptied *)

Definition emptied : Config := live {{ cfDirectoryScanner ::= fun d => d {{ dsSidecarTypes := [] }} }}.

Definition running : configStore := {| csCurrent := None; csRegistry := registryOf posters; csLevel := LevelInfo |}.

Lemma builtin_registry : NewSidecarRegistry [] = Ok (registryOf []).
Proof. by vm_compute. Qed.

Lemma emptied_table_diverges_witness : registryOf posters <> registryOf [] /\
  (forall Fleet PublishAll (rt : runtime Fleet), rtRegistry (PropagateInProcess PublishAll emptied rt) = registryOf []) /\
  csRegistry (applyLogLevel (BuildProjection emptied "nas" 0) (applySidecarTypes (BuildProjection emptied "nas" 0) running)) = registryOf posters.
Proof.
  split; [by vm_compute|]. apply (emptied_table_diverges emptied "nas" 0 running (registryOf [])); [reflexivity|exact builtin_registry].
Defined.
