(* ===== verification/NfoRead.v ===== *)
(** Reading one NFO file off the agent that holds it: the responder of
    src/internal/agent/runtime/nfo_reader.go with its containment checks, and the
    caller, GetDirectoryNFO of src/internal/server/services/local_directories.go,
    which finds the agent and describes the directory in terms both machines
    share. Both run on Unix, where FromSlash is the identity. *)
From stdpp Require Import strings list gmap.
From Stdlib Require Import Ascii ZArith Lia.
From S2P Require Import Prelude Runes GoPath Sidecar Paths AppConfig ConfigStore Services ConfigServices ScanSend.
#[local] Open Scope go_scope.

(** * filepath.Rel *)

Fixpoint strip_common (base target : list string) : list string * list string :=
  match base, target with
  | b :: base', t :: target' => if String.eqb b t then strip_common base' target' else (base, target)
  | _, _ => (base, target)
  end.

Definition Rel (basePath targetPath : string) : result string :=
  let base := Clean basePath in
  let target := Clean targetPath in
  let err := Err ("Rel: can't make " +:+ targetPath +:+ " relative to " +:+ basePath) in
  if String.eqb target base then Ok "."
  else if negb (Bool.eqb (rooted base) (rooted target)) then err
  else
    let (b, t) := strip_common (path_elements base) (if String.eqb target "." then ["."] else path_elements target) in
    match b with
    | [] => Ok (str_join "/" t)
    | first :: _ => if String.eqb first ".." then err else Ok (str_join "/" (map (fun _ => "..") b ++ t))
    end.

Example Rel_examples :
  map (fun p => Rel p.1 p.2) [("/a/b", "/a/b/c/d"); ("/a/b/c", "/a/b"); ("a", "a/b"); (".", "a/b"); ("/", "/a"); ("..", "a"); ("a", "/a")] =
  [Ok "c/d"; Ok ".."; Ok "b"; Ok "a/b"; Ok "a"; Err "Rel: can't make a relative to .."; Err "Rel: can't make /a relative to a"].
Proof. reflexivity. Qed.

(** [relative] climbs out of where it starts. *)
Definition climbs (relative : string) : bool := String.eqb relative ".." || has_prefix "../" relative.

(** * The agent *)

Definition isWithin (root candidate : string) : bool := match Rel root candidate with Err _ => false | Ok relative => negb (climbs relative) end.

Definition resolveUnder (root relative : string) : result string :=
  if rooted relative then Err "directory must be relative to the library root"
  else
    let cleanedRoot := Clean root in
    let candidate := Clean (JoinPath cleanedRoot relative) in
    if isWithin cleanedRoot candidate then Ok candidate
    else Err (quote relative +:+ " is not inside the library mapped for this agent").

Definition resolveWithinDirectory (directoryPath requestedPath : string) : result string :=
  if rooted requestedPath then Err "path must be relative to the directory"
  else if negb (EqualFold (Ext requestedPath) ".nfo") then Err "path must name an .nfo file"
  else
    let cleanedDirectory := Clean directoryPath in
    let candidate := Clean (JoinPath cleanedDirectory requestedPath) in
    if isWithin cleanedDirectory candidate then Ok candidate else Err "path is not inside the directory".

Record NFOReadRequest : Type := { nqScannerSlug : string; nqRelativeDirectory : string; nqRelativePath : string }.

Section responder.
Context {M : Type}.

(** What nfo.ReadFile answers for a path. *)
Inductive readAnswer : Type := ReadMetadata (m : M) | NoSuchFile | ReadFailed (err : string).

Record NFOReadReply : Type := { nrMetadata : option M; nrError : string; nrNotFound : bool }.

Definition replyError (err : string) : NFOReadReply := {| nrMetadata := None; nrError := err; nrNotFound := false |}.

Definition replyOf (answer : readAnswer) : NFOReadReply :=
  match answer with
  | ReadMetadata m => {| nrMetadata := Some m; nrError := ""; nrNotFound := false |}
  | NoSuchFile => {| nrMetadata := None; nrError := "no such file"; nrNotFound := true |}
  | ReadFailed err => replyError err
  end.

(** [current] is the agent's projection. *)
Definition readNFO (ReadFile : string -> readAnswer) (decode : string -> result NFOReadRequest) (current : option AgentConfigProjection) (payload : string) : NFOReadReply :=
  match decode payload with
  | Err _ => replyError "malformed request"
  | Ok body =>
      match current with
      | None => replyError "this agent has no configuration yet"
      | Some projection =>
          match FindDirectory projection (nqScannerSlug body) with
          | None => replyError (quote (nqScannerSlug body) +:+ " is not mapped to this agent")
          | Some mapped =>
              match resolveUnder (mdAgentPath mapped) (nqRelativeDirectory body) with
              | Err err => replyError err
              | Ok agentDirectory =>
                  match resolveWithinDirectory agentDirectory (nqRelativePath body) with
                  | Err err => replyError err
                  | Ok absolutePath => replyOf (ReadFile absolutePath)
                  end
              end
          end
      end
  end.
End responder.
Arguments readAnswer : clear implicits.
Arguments NFOReadReply : clear implicits.

(** * The server *)

(** [Abs] is the host's answer, [None] for an error. *)
Definition sameScanRoot (Abs : string -> option string) (configured stored : string) : bool :=
  if String.eqb (Clean configured) (Clean stored) then true
  else match Abs configured, Abs stored with Some a, Some b => String.eqb a b | _, _ => false end.

(** The agent's slug, the scanner's, and the directory below the scan root. *)
Definition locateOnAgent (Abs : string -> option string) (config : Config) (scanRootPath directoryPath : string) : result (string * string * string) :=
  match List.find (fun scanDirectory => sameScanRoot Abs (sdDirectory scanDirectory) scanRootPath) (scanDirectories config) with
  | None => Err "this directory is not under any configured scan directory"
  | Some scanDirectory =>
      let scannerSlug := sdScannerSlug scanDirectory in
      match AgentForScanner config scannerSlug with
      | None => Err ("no agent is mapped to scan directory " +:+ scannerSlug)
      | Some owner =>
          match Rel (Clean scanRootPath) (Clean directoryPath) with
          | Err _ => Err "this directory is not inside its own scan root"
          | Ok relative =>
              if climbs relative then Err "this directory is not inside its own scan root"
              else Ok (agSlug owner, scannerSlug, if String.eqb relative "." then "" else relative)
          end
      end
  end.

(** What the repository answers for a directory: its scan root and its path. *)
Inductive lookup_ : Type := Found (scanRootPath path : string) | NoDirectory | LookupFailed.

(** What the bus answers a request with. *)
Inductive asked : Type := Replied (payload : string) | NoResponder | RequestFailed.

Section caller.
Context {M : Type}.
Variables (Abs : string -> option string) (live : Config) (validID : string -> bool) (directory : string -> lookup_)
  (encode : NFOReadRequest -> result string) (ask : string -> string -> asked) (decode : string -> result (NFOReadReply M)).

(** [ask agent payload] is Bus.Request on the agent's request channel. *)
Definition GetDirectoryNFO (directoryID requestedPath : string) : reply failure (option M) :=
  if negb (validID directoryID) then refused 400 "malformed id"
  else if String.eqb requestedPath "" then refused 400 "path is required"
  else
    match directory directoryID with
    | NoDirectory => refused 404 "no directory with that id"
    | LookupFailed => refused 500 "failed to fetch directory"
    | Found scanRootPath path =>
        match locateOnAgent Abs live scanRootPath path with
        | Err err => refused 422 err
        | Ok (agent, scannerSlug, relativeDirectory) =>
            match encode {| nqScannerSlug := scannerSlug; nqRelativeDirectory := relativeDirectory; nqRelativePath := requestedPath |} with
            | Err _ => refused 500 "failed to read that NFO file"
            | Ok payload =>
                match ask agent payload with
                | NoResponder => refused 504 ("agent " +:+ agent +:+ " did not respond")
                | RequestFailed => refused 502 "could not reach the agent holding this file"
                | Replied answer =>
                    match decode answer with
                    | Err _ => refused 502 "could not read that NFO file"
                    | Ok body =>
                        if nrNotFound body then refused 404 "no such file in this directory"
                        else if negb (String.eqb (nrError body) "") then refused 422 ("could not read that NFO file: " +:+ nrError body)
                        else Reply (nrMetadata body)
                    end
                end
            end
        end
    end.
End caller.

(** * Lexical containment *)

Definition name (e : string) : Prop := plain e /\ e <> "..".

(** [p] is [root] or lies [names] below it. *)
Definition at_or_below (root p : string) (names : list string) : Prop :=
  Forall name names /\ rooted p = rooted root /\ path_elements p = path_elements root ++ names.

Lemma strip_common_spec b t : exists common, b = common ++ (strip_common b t).1 /\ t = common ++ (strip_common b t).2 /\
  match (strip_common b t).1, (strip_common b t).2 with x :: _, y :: _ => x <> y | _, _ => True end.
Proof.
  revert t. induction b as [|x b IH]; intros t; [by exists []|]. destruct t as [|y t]; [by exists []|]. cbn.
  destruct (String.eqb_spec x y) as [<-|Hne]; [|by exists []]. destruct (IH t) as (common & Hb & Ht & Hd).
  exists (x :: common). cbn. by rewrite <- Hb, <- Ht.
Qed.

Lemma strip_common_prefix b names : strip_common b (b ++ names) = ([], names).
Proof. induction b as [|x b IH]; [by destruct names|]. cbn. by rewrite String.eqb_refl. Qed.

Lemma join_cons e l : str_join "/" (e :: l) = match l with [] => e | _ => e +:+ "/" +:+ str_join "/" l end.
Proof. by destruct l. Qed.

Lemma climbs_split s : climbs s = true <-> exists rest, split_slash s = ".." :: rest.
Proof.
  unfold climbs. rewrite orb_true_iff, String.eqb_eq, has_prefix_spec. split.
  - intros [->|[r ->]]; [by exists []|]. exists (split_slash r). change ("../" +:+ r) with (".." +:+ "/" +:+ r). by rewrite split_slash_app.
  - intros [rest Hs]. rewrite <- (join_split s), Hs, join_cons. destruct rest as [|x rest]; [by left|right]. by eexists.
Qed.

(** A joined path climbs when its first element is [..]. *)
Lemma climbs_join l : l <> [] -> Forall (fun e => str_contains e "/" = false) l -> climbs (str_join "/" l) = true <-> head l = Some "..".
Proof. intros Hne Hl. rewrite climbs_split, split_slash_join by done. destruct l as [|e l]; [done|]. cbn. split; [by intros [rest [= -> _]]|intros [= ->]; eauto]. Qed.

Lemma name_no_slash names : Forall name names -> Forall (fun e => str_contains e "/" = false) names.
Proof. intros Hn. eapply Forall_impl; [exact Hn|]. by intros e [(_ & _ & ?) _]. Qed.

Lemma names_from root X e rest : clean_elements root (rev (X ++ e :: rest)) -> e <> ".." -> Forall name (e :: rest).
Proof.
  intros Hc He. change (e :: rest) with ([e] ++ rest) in Hc. constructor.
  - destruct Hc as (names & ups & Heq & Hn & Hu & _). assert (e ∈ names ++ ups) as [Hin|Hin]%elem_of_app.
    { rewrite <- Heq, !rev_app_distr. cbn. rewrite !elem_of_app. left. right. by left. }
    + rewrite Forall_forall in Hn. by apply Hn.
    + rewrite Forall_forall in Hu. by apply Hu in Hin as <-.
  - rewrite app_assoc in Hc. apply (names_after root (X ++ [e])); [done|]. right. apply Exists_app. right. by left.
Qed.

Lemma Clean_dot p : Clean p = "." -> rooted p = false /\ path_elements p = [].
Proof.
  intros H. assert (rooted (Clean p) = false /\ path_elements (Clean p) = []) as [H1 H2] by (by rewrite H).
  by rewrite rooted_Clean in H1; rewrite path_elements_Clean in H2.
Qed.

Lemma Clean_eq p q : Clean p = Clean q -> rooted p = rooted q /\ path_elements p = path_elements q.
Proof. intros H. by rewrite <- (rooted_Clean p), <- (path_elements_Clean p), H, rooted_Clean, path_elements_Clean. Qed.

Lemma path_elements_slash p : Forall (fun e => str_contains e "/" = false) (path_elements p).
Proof. apply (clean_elements_slash (rooted p)), path_elements_ok. Qed.

(** What lies at or below a root is named by Rel without climbing. *)
Lemma Rel_below root p names : at_or_below root p names -> Rel root p = Ok (match names with [] => "." | _ => str_join "/" names end).
Proof.
  intros (Hn & Hr & He). unfold Rel. destruct (String.eqb_spec (Clean p) (Clean root)) as [Heq|Hne].
  - apply Clean_eq in Heq as [_ Heq]. rewrite He in Heq. destruct names; [done|]. apply (f_equal length) in Heq. rewrite length_app in Heq. cbn in Heq. lia.
  - destruct names as [|e names]; [destruct Hne; apply Clean_inj; [done|]; by rewrite He, app_nil_r|].
    rewrite !rooted_Clean, Hr, eqb_reflx. cbn [negb]. destruct (String.eqb_spec (Clean p) ".") as [Hdot|_].
    { apply Clean_dot in Hdot as [_ Hdot]. rewrite He in Hdot. by destruct (path_elements root). }
    by rewrite !path_elements_Clean, He, strip_common_prefix.
Qed.

Lemma isWithin_iff root p : isWithin root p = true <-> exists names, at_or_below root p names.
Proof.
  unfold isWithin. split.
  - destruct (Rel root p) as [relative|e] eqn:Hrel; [|done]. intros Hc%negb_true_iff. unfold Rel in Hrel.
    destruct (String.eqb_spec (Clean p) (Clean root)) as [Heq|Hne].
    { apply Clean_eq in Heq as [Hr He]. exists []. split_and!; [constructor|done|]. by rewrite He, app_nil_r. }
    rewrite !rooted_Clean in Hrel. destruct (Bool.eqb (rooted root) (rooted p)) eqn:Hroot; [|done]. apply eqb_prop in Hroot. cbn [negb] in Hrel.
    destruct (strip_common_spec (path_elements (Clean root)) (if String.eqb (Clean p) "." then ["."] else path_elements (Clean p))) as (common & Hb & Ht & _).
    destruct (strip_common _ _) as [b t]. cbn [fst snd] in *. destruct b as [|x b].
    + injection Hrel as <-. rewrite app_nil_r, path_elements_Clean in Hb. destruct (String.eqb_spec (Clean p) ".") as [Hdot|_].
      { apply Clean_dot in Hdot as [Hr0 He0]. destruct common as [|c common]; [|injection Ht as <- Ht].
        - destruct Hne. apply Clean_inj; [done|]. by rewrite He0, Hb.
        - pose proof (path_elements_ok root) as Hok. rewrite Hb in Hok. by apply clean_elements_head in Hok as [_ ?]. }
      rewrite path_elements_Clean in Ht. exists t. split_and!; [|done|by rewrite Hb].
      destruct t as [|e t]; [constructor|]. pose proof (path_elements_ok p) as Hok. rewrite Ht in Hok. apply (names_from _ _ _ _ Hok). intros ->.
      assert (climbs (str_join "/" (".." :: t)) = true) as Hyes; [|congruence]. apply climbs_join; [done| |done].
      pose proof (path_elements_slash p) as Hs. rewrite Ht in Hs. by apply Forall_app in Hs as [_ Hs].
    + destruct (String.eqb_spec x ".."); [done|]. injection Hrel as Hrel.
      assert (climbs relative = true) as Hyes; [|congruence]. rewrite <- Hrel. apply (climbs_join (map (fun _ => "..") (x :: b) ++ t)); [done| |done].
      apply Forall_app. split; [apply Forall_forall; by intros e (? & -> & _)%list_elem_of_fmap|].
      assert (Forall (fun e => str_contains e "/" = false) (common ++ t)) as Hs; [|by apply Forall_app in Hs as [_ Hs]].
      rewrite <- Ht. destruct (String.eqb _ "."); [by repeat constructor|apply path_elements_slash].
  - intros [names Hb]. rewrite (Rel_below _ _ _ Hb). destruct Hb as (Hn & _ & _). destruct names as [|e names]; [done|]. apply negb_true_iff, not_true_iff_false.
    rewrite climbs_join; [|done|by apply name_no_slash]. intros [= ->]. apply Forall_cons in Hn as [[_ Hno] _]. done.
Qed.

Lemma Clean_not_empty p : Clean p <> "".
Proof.
  unfold Clean, show_path. destruct (rooted p); [done|]. destruct (path_elements p) as [|e l] eqn:He; [done|].
  pose proof (path_elements_ok p) as Hok. rewrite He in Hok. apply clean_elements_head in Hok as [Hne _]. rewrite join_cons. destruct l; [done|]. by destruct e.
Qed.

Lemma at_or_below_root root p names : at_or_below (Clean root) p names <-> at_or_below root p names.
Proof. unfold at_or_below. by rewrite rooted_Clean, path_elements_Clean. Qed.

Lemma resolveUnder_Ok root relative p : resolveUnder root relative = Ok p ->
  rooted relative = false /\ Clean p = p /\ exists names, at_or_below root p names.
Proof.
  unfold resolveUnder. destruct (rooted relative); [done|]. destruct (isWithin _ _) eqn:Hw; [|done]. intros [= <-].
  apply isWithin_iff in Hw as [names Hw]. split_and!; [done|apply Clean_idempotent|]. exists names. by apply at_or_below_root.
Qed.

Lemma resolveWithinDirectory_Ok directory requested p : resolveWithinDirectory directory requested = Ok p ->
  EqualFold (Ext requested) ".nfo" = true /\ Clean p = p /\ exists names, at_or_below directory p names.
Proof.
  unfold resolveWithinDirectory. destruct (rooted requested); [done|]. destruct (EqualFold _ _) eqn:He; [|done]. cbn [negb].
  destruct (isWithin _ _) eqn:Hw; [|done]. intros [= <-].
  apply isWithin_iff in Hw as [names Hw]. split_and!; [done|apply Clean_idempotent|]. exists names. by apply at_or_below_root.
Qed.

Lemma at_or_below_trans a b c names names' : at_or_below a b names -> at_or_below b c names' -> at_or_below a c (names ++ names').
Proof. intros (H1 & H2 & H3) (G1 & G2 & G3). split_and!; [by apply Forall_app|congruence|by rewrite G3, H3, app_assoc]. Qed.

(** ** The file that is opened *)

Lemma Ext_elements root l e : clean_elements root (rev (l ++ [e])) -> Ext (show_path root (l ++ [e])) = default "" (Ext_loop e).
Proof.
  intros Hc. unfold Ext, split_last. cbn [snd]. do 2 f_equal. pose proof (clean_elements_slash _ _ Hc) as Hs.
  assert (l ++ [e] <> []) as Hne by (by destruct l). unfold show_path. destruct root.
  - change ("/" +:+ str_join "/" (l ++ [e])) with ("" +:+ "/" +:+ str_join "/" (l ++ [e])). rewrite split_slash_app, split_slash_join by done.
    rewrite app_assoc. by rewrite List.last_last.
  - destruct (l ++ [e]) as [|x y] eqn:Hl; [done|]. rewrite split_slash_join by done. rewrite <- Hl. by rewrite List.last_last.
Qed.

(** A requested name that ends in .nfo is the last element of what is opened. *)
Lemma Ext_resolved directory requested p : resolveWithinDirectory directory requested = Ok p -> Ext p = Ext requested.
Proof.
  unfold resolveWithinDirectory. destruct (rooted requested); [done|]. destruct (EqualFold (Ext requested) ".nfo") eqn:Hext; [|done]. cbn [negb].
  destruct (isWithin _ _); [|done]. intros [= <-].
  assert (exists front e, split_slash requested = front ++ [e] /\ Ext requested = default "" (Ext_loop e)) as (front & e & Hsplit & He).
  { exists (removelast (split_slash requested)), (List.last (split_slash requested) ""). split; [|done]. apply app_removelast_last, split_slash_nonempty. }
  assert (String.eqb e "" = false /\ String.eqb e "." = false /\ String.eqb e ".." = false) as (H1 & H2 & H3).
  { rewrite He in Hext. split_and!; apply String.eqb_neq; intros ->; by vm_compute in Hext. }
  set (j := JoinPath (Clean directory) requested). assert (exists l, path_elements j = l ++ [e]) as [l Hj].
  { subst j. unfold JoinPath. destruct (String.eqb_spec (Clean directory) "") as [Hno|_]; [by apply Clean_not_empty in Hno|]. rewrite path_elements_Clean.
    unfold path_elements. rewrite split_slash_app, Hsplit, app_assoc, foldl_app. cbn [foldl]. unfold clean_step at 1. rewrite H1, H2, H3. cbn. by eexists. }
  unfold Clean at 1. rewrite Hj, Ext_elements; [done|]. rewrite <- Hj. apply path_elements_ok.
Qed.

(** C13: The responder opens one file at most, and only one that lies, element by
    element and without dot-dot, at or below the root the agent was given for
    the library, and ends in .nfo; a request it refuses, it refuses without
    looking at the disk. *)
Theorem reads_contained {M} decode current payload :
  (exists err, forall ReadFile : string -> readAnswer M, readNFO ReadFile decode current payload = replyError err) \/
  exists projection body mapped path names,
    current = Some projection /\ decode payload = Ok body /\ FindDirectory projection (nqScannerSlug body) = Some mapped /\
    at_or_below (mdAgentPath mapped) path names /\ Clean path = path /\ EqualFold (Ext path) ".nfo" = true /\
    forall ReadFile : string -> readAnswer M, readNFO ReadFile decode current payload = replyOf (ReadFile path).
Proof.
  unfold readNFO. destruct (decode payload) as [body|e]; [|left; by eexists]. destruct current as [projection|]; [|left; by eexists].
  destruct (FindDirectory _ _) as [mapped|] eqn:Hf; [|left; by eexists].
  destruct (resolveUnder _ _) as [directory|e] eqn:Hdir; [|left; by eexists].
  destruct (resolveWithinDirectory _ _) as [path|e] eqn:Hpath; [|left; by eexists]. right.
  pose proof (Ext_resolved _ _ _ Hpath) as Hext. apply resolveUnder_Ok in Hdir as (_ & _ & names & Hn). apply resolveWithinDirectory_Ok in Hpath as (He & Hclean & names' & Hn').
  exists projection, body, mapped, path, (names ++ names'). split_and!; try done; [by eapply at_or_below_trans|by rewrite Hext].
Qed.

(** ** Both machines mean the same directory *)

Lemma rooted_join names : Forall name names -> rooted (str_join "/" names) = false.
Proof.
  destruct names as [|e names]; [done|]. intros [[(Hne & _ & Hs) _] _]%Forall_cons. rewrite join_cons.
  destruct e as [|c e]; [done|]. rewrite contains_slash_cons in Hs. apply orb_false_iff in Hs as [Hc _]. destruct names; (etrans; [apply rooted_cons|done]).
Qed.

Lemma JoinPath_empty root : rooted (JoinPath (Clean root) "") = rooted root /\ path_elements (JoinPath (Clean root) "") = path_elements root.
Proof.
  unfold JoinPath. destruct (String.eqb_spec (Clean root) "") as [Hno|Hne]; [by apply Clean_not_empty in Hno|]. rewrite rooted_Clean, path_elements_Clean.
  assert (rooted (Clean root +:+ "/" +:+ "") = rooted (Clean root)) as Hr by (by destruct (Clean root)).
  split; [by rewrite Hr, rooted_Clean|]. rewrite <- (path_elements_Clean root). unfold path_elements. by rewrite Hr, split_slash_app, foldl_app.
Qed.

Lemma resolveUnder_names root p names : at_or_below root p names -> resolveUnder root (str_join "/" names) = Ok (Clean p).
Proof.
  intros Hb. pose proof Hb as (Hn & Hr & He). unfold resolveUnder. rewrite (rooted_join _ Hn).
  set (j := JoinPath (Clean root) (str_join "/" names)). assert (rooted j = rooted p /\ path_elements j = path_elements p) as [Hj1 Hj2].
  { destruct names as [|e names].
    - destruct (JoinPath_empty root) as [H1 H2]. subst j. cbn [str_join]. rewrite H1, H2. by rewrite Hr, He, app_nil_r.
    - destruct (JoinPath_names (Clean root) (e :: names)) as [H1 H2]; [apply Clean_not_empty|done|done|]. subst j. rewrite H1, H2, rooted_Clean, path_elements_Clean. by rewrite Hr, He. }
  assert (Clean j = Clean p) as Hjp by (by apply Clean_inj).
  assert (isWithin (Clean root) (Clean j) = true) as ->; [|by rewrite Hjp].
  apply isWithin_iff. exists names. apply at_or_below_root. rewrite Hjp. unfold at_or_below. by rewrite rooted_Clean, path_elements_Clean.
Qed.

(** What a scan reported is what is read back. On a Unix agent, a path that
    was translated into the library and stored is located below its scan root
    by a relative path that, joined to the agent's own root, is the path the
    agent reported. *)
Theorem located_where_scanned root server path stored storedRoot :
  proper_root root -> agentIsWindows (NewPathTranslator root server) = false -> str_contains root backslash = false -> str_contains path backslash = false ->
  Path (NewPathTranslator root server) root = Ok storedRoot -> Path (NewPathTranslator root server) path = Ok stored ->
  exists relative, Rel (Clean storedRoot) (Clean stored) = Ok relative /\ climbs relative = false /\
    resolveUnder root (if String.eqb relative "." then "" else relative) = Ok (Clean path).
Proof.
  intros Hp Hw Hb1 Hb2 Hroot Hpath. set (t := NewPathTranslator root server) in *.
  assert (forall p q, str_contains p backslash = false -> Path t p = Ok q -> exists names, at_or_below root p names /\ q = show_path (rooted server) (path_elements server ++ names)) as Hbelow.
  { intros p q Hb H. apply (Path_below _ root) in H as (rest & Hrest & ->); [|done..|apply New_server].
    exists rest. split; [|subst t; cbn [serverRoot NewPathTranslator]; by rewrite rooted_Clean, path_elements_Clean].
    pose proof (below_root_names _ _ _ _ Hp Hrest) as Hn. destruct Hrest as (Hr & X & HX & Hf%folded_unix_all & _); [|done].
    rewrite !slashes_plain in * by done. subst X. by split_and!. }
  apply Hbelow in Hroot as (none & (_ & _ & Hnone) & ->); [|done]. assert (none = []) as ->.
  { apply (f_equal length) in Hnone. rewrite length_app in Hnone. destruct none; [done|cbn in Hnone; lia]. }
  apply Hbelow in Hpath as (names & Hin & ->); [|done]. pose proof Hin as (Hn & _ & _). rewrite app_nil_r.
  pose proof (clean_elements_app _ _ _ (path_elements_ok server) Hn) as Hc.
  assert (at_or_below (Clean (show_path (rooted server) (path_elements server))) (Clean (show_path (rooted server) (path_elements server ++ names))) names) as Hserver.
  { split_and!; [done|rewrite !rooted_Clean, !rooted_show; [done|apply path_elements_ok|done]|].
    rewrite !path_elements_Clean, !path_elements_show; [done|apply path_elements_ok|done]. }
  rewrite (Rel_below _ _ _ Hserver). destruct names as [|e names].
  - exists ".". split_and!; [done..|]. by apply (resolveUnder_names root path []).
  - exists (str_join "/" (e :: names)). split_and!; [done| |].
    + apply not_true_iff_false. rewrite climbs_join; [|done|by apply name_no_slash]. intros [= ->]. apply Forall_cons in Hn as [[_ Hno] _]. done.
    + destruct (String.eqb_spec (str_join "/" (e :: names)) ".") as [Hdot|_]; [|by apply resolveUnder_names]. exfalso.
      apply Forall_cons in Hn as [[(_ & Hne & _) _] _]. rewrite join_cons in Hdot. destruct names; [done|]. destruct e as [|c e]; [done|]. injection Hdot as -> Hdot. by destruct e.
Qed.

Lemma located_where_scanned_witness :
  Rel "/media/films" "/media/films/Heat (1995)" = Ok "Heat (1995)" /\ resolveUnder "/volume1/films" "Heat (1995)" = Ok "/volume1/films/Heat (1995)".
Proof.
  destruct (located_where_scanned "/volume1/films" "/media/films" "/volume1/films/Heat (1995)" "/media/films/Heat (1995)" "/media/films")
    as (relative & Hrel & _ & Hunder).
  - left. reflexivity.
  - reflexivity.
  - reflexivity.
  - reflexivity.
  - reflexivity.
  - reflexivity.
  - vm_compute in Hrel. injection Hrel as <-. split; [reflexivity|exact Hunder].
Defined.

(** What a crafted request is answered. *)
Example refused_requests :
  resolveUnder "/lib" "../etc" = Err (quote "../etc" +:+ " is not inside the library mapped for this agent") /\
  resolveUnder "/lib" "a/../../libx" = Err (quote "a/../../libx" +:+ " is not inside the library mapped for this agent") /\
  resolveWithinDirectory "/lib/a" "../../etc/passwd.nfo" = Err "path is not inside the directory" /\
  resolveWithinDirectory "/lib/a" "sub/../movie.NFO" = Ok "/lib/a/movie.NFO".
Proof. by vm_compute. Qed.
