(* ===== verification/Crypto.v ===== *)
(** Passwords and secrets as text: internal/server/passwordhash, and of
    internal/server/authsecret the generator, with the parts of Go's standard
    library they are made of: hexadecimal and base64 text and SHA-256. Random
    bytes are inputs. *)
From stdpp Require Import strings list.
From Stdlib Require Import Ascii ZArith Lia.
From S2P Require Import Prelude.
#[local] Open Scope go_scope.

(** * Bytes *)

Definition byte (c : ascii) : Z := Z.of_N (N_of_ascii c).
Definition char (z : Z) : ascii := ascii_of_N (Z.to_N z).

Lemma byte_range c : (0 <= byte c < 256)%Z.
Proof. unfold byte. pose proof (N_ascii_bounded c). lia. Qed.

Lemma char_byte c : char (byte c) = c.
Proof. unfold char, byte. by rewrite N2Z.id, ascii_N_embedding. Qed.

Lemma byte_char z : (0 <= z < 256)%Z -> byte (char z) = z.
Proof. intros Hz. unfold char, byte. rewrite N_ascii_embedding by lia. lia. Qed.

(** The character of an alphabet at an index. *)
Definition symbol (alphabet : string) (i : Z) : ascii := default "0"%char (String.get (Z.to_nat i) alphabet).

(** ** Hexadecimal *)

Definition hexDigits : string := "0123456789abcdef".

Fixpoint EncodeToString (s : string) : string :=
  match s with
  | EmptyString => ""
  | String c s => String (symbol hexDigits (byte c / 16)) (String (symbol hexDigits (byte c mod 16)) (EncodeToString s))
  end.

Lemma EncodeToString_length s : String.length (EncodeToString s) = (2 * String.length s)%nat.
Proof. induction s as [|c s IH]; [done|]. cbn. lia. Qed.

Lemma hex_byte c d : symbol hexDigits (byte c / 16) = symbol hexDigits (byte d / 16) -> symbol hexDigits (byte c mod 16) = symbol hexDigits (byte d mod 16) -> c = d.
Proof.
  assert (forall i j : Z, (0 <= i < 16)%Z -> (0 <= j < 16)%Z -> symbol hexDigits i = symbol hexDigits j -> i = j) as Hinj.
  { intros i j Hi Hj. assert (exists n, i = Z.of_nat n /\ (n < 16)%nat) as (n & -> & Hn) by (exists (Z.to_nat i); lia).
    assert (exists m, j = Z.of_nat m /\ (m < 16)%nat) as (m & -> & Hm) by (exists (Z.to_nat j); lia).
    do 16 (destruct n as [|n]; [do 16 (destruct m as [|m]; [by (done || intros [=])|]); lia|]). lia. }
  pose proof (byte_range c) as Hc. pose proof (byte_range d) as Hd. intros H1 H2. rewrite <- (char_byte c), <- (char_byte d). f_equal.
  apply Hinj in H1; [|Z.to_euclidean_division_equations; lia..]. apply Hinj in H2; [|Z.to_euclidean_division_equations; lia..]. Z.to_euclidean_division_equations; lia.
Qed.

Lemma EncodeToString_inj s t : EncodeToString s = EncodeToString t -> s = t.
Proof.
  revert t. induction s as [|c s IH]; intros [|d t]; try done. cbn. intros [= H1 H2 H3%IH]. by rewrite (hex_byte c d H1 H2), H3.
Qed.

(** ** Base64 *)

Definition base64Alphabet : string := "ABCDEFGHIJKLMNOPQRSTUVWXYZabcdefghijklmnopqrstuvwxyz0123456789+/".

Definition sextet (c : ascii) : option Z := Z.of_nat <$> String.index 0 (String c "") base64Alphabet.

Definition padChar : ascii := "="%char.

(** base64.StdEncoding.EncodeToString. *)
Fixpoint EncodeBase64 (s : string) : string :=
  match s with
  | EmptyString => ""
  | String a EmptyString =>
      let v := (byte a * 65536)%Z in
      String (symbol base64Alphabet (v / 262144)) (String (symbol base64Alphabet (v / 4096 mod 64)) (String padChar (String padChar "")))
  | String a (String b EmptyString) =>
      let v := (byte a * 65536 + byte b * 256)%Z in
      String (symbol base64Alphabet (v / 262144)) (String (symbol base64Alphabet (v / 4096 mod 64)) (String (symbol base64Alphabet (v / 64 mod 64)) (String padChar "")))
  | String a (String b (String c rest)) =>
      let v := (byte a * 65536 + byte b * 256 + byte c)%Z in
      String (symbol base64Alphabet (v / 262144)) (String (symbol base64Alphabet (v / 4096 mod 64))
        (String (symbol base64Alphabet (v / 64 mod 64)) (String (symbol base64Alphabet (v mod 64)) (EncodeBase64 rest))))
  end.

(** The decoder, after the line breaks it passes over; the bits that padding
    leaves over are not looked at. *)
Fixpoint decodeQuanta (s : string) : option string :=
  match s with
  | EmptyString => Some ""
  | String c0 (String c1 (String c2 (String c3 rest))) =>
      s0 ← sextet c0; s1 ← sextet c1;
      if Ascii.eqb c2 padChar then (if Ascii.eqb c3 padChar && String.eqb rest "" then Some (String (char (s0 * 4 + s1 / 16)) "") else None)
      else
        s2 ← sextet c2;
        if Ascii.eqb c3 padChar then
          (if String.eqb rest "" then Some (String (char (s0 * 4 + s1 / 16)) (String (char (s1 mod 16 * 16 + s2 / 4)) "")) else None)
        else
          s3 ← sextet c3; tail ← decodeQuanta rest;
          Some (String (char (s0 * 4 + s1 / 16)) (String (char (s1 mod 16 * 16 + s2 / 4)) (String (char (s2 mod 4 * 64 + s3)) tail)))
  | _ => None
  end.

Fixpoint without_breaks (s : string) : string :=
  match s with
  | EmptyString => ""
  | String c rest => if Ascii.eqb c (chr 10) || Ascii.eqb c (chr 13) then without_breaks rest else String c (without_breaks rest)
  end.

(** base64.StdEncoding.DecodeString; [None] for its CorruptInputError. *)
Definition DecodeBase64 (s : string) : option string := decodeQuanta (without_breaks s).

Lemma forall_below (n : nat) (P : nat -> bool) : forallb P (seq 0 n) = true -> forall i, (i < n)%nat -> P i = true.
Proof. rewrite forallb_forall. intros HP i Hi. apply HP, in_seq. lia. Qed.

Lemma sextet_symbol i : (0 <= i < 64)%Z -> sextet (symbol base64Alphabet i) = Some i.
Proof.
  intros Hi. pose proof (forall_below 64 (fun i => bool_decide (sextet (symbol base64Alphabet (Z.of_nat i)) = Some (Z.of_nat i))) ltac:(by vm_compute) (Z.to_nat i) ltac:(lia)) as Hs.
  apply bool_decide_eq_true in Hs. by rewrite Z2Nat.id in Hs by lia.
Qed.

Lemma symbol_plain i : (0 <= i < 64)%Z ->
  Ascii.eqb (symbol base64Alphabet i) padChar = false /\ Ascii.eqb (symbol base64Alphabet i) (chr 10) || Ascii.eqb (symbol base64Alphabet i) (chr 13) = false.
Proof.
  intros Hi. pose proof (forall_below 64 (fun i => let c := symbol base64Alphabet (Z.of_nat i) in
    negb (Ascii.eqb c padChar || (Ascii.eqb c (chr 10) || Ascii.eqb c (chr 13)))) ltac:(by vm_compute) (Z.to_nat i) ltac:(lia)) as Hs.
  cbv beta zeta in Hs. rewrite Z2Nat.id in Hs by lia. apply negb_true_iff, orb_false_iff in Hs. done.
Qed.

(** Three bytes out of four sextets. *)
Lemma quantum_bytes (a b c : Z) : (0 <= a < 256)%Z -> (0 <= b < 256)%Z -> (0 <= c < 256)%Z ->
  let v := (a * 65536 + b * 256 + c)%Z in
  ((0 <= v / 262144 < 64) /\ (0 <= v / 4096 mod 64 < 64) /\ (0 <= v / 64 mod 64 < 64) /\ (0 <= v mod 64 < 64) /\
  (v / 262144 * 4 + v / 4096 mod 64 / 16 = a) /\ (v / 4096 mod 64 mod 16 * 16 + v / 64 mod 64 / 4 = b) /\ (v / 64 mod 64 mod 4 * 64 + v mod 64 = c))%Z.
Proof. intros Ha Hb Hc v. subst v. repeat split; Z.to_euclidean_division_equations; lia. Qed.

Lemma padChar_plain : Ascii.eqb padChar (chr 10) || Ascii.eqb padChar (chr 13) = false.
Proof. done. Qed.

#[local] Arguments symbol : simpl never.
#[local] Arguments sextet : simpl never.
#[local] Arguments char : simpl never.
#[local] Arguments padChar : simpl never.

Ltac plain_symbols :=
  repeat (rewrite padChar_plain || rewrite Ascii.eqb_refl || match goal with
  | |- context [Ascii.eqb (symbol base64Alphabet ?i) padChar] => rewrite (proj1 (symbol_plain i ltac:(assumption)))
  | |- context [Ascii.eqb (symbol base64Alphabet ?i) (chr 10)] => rewrite (proj2 (symbol_plain i ltac:(assumption)))
  | |- context [sextet (symbol base64Alphabet ?i)] => rewrite (sextet_symbol i ltac:(assumption)); cbn [mbind option_bind]
  end).

Lemma triple_induction (P : string -> Prop) : P "" -> (forall a, P (String a "")) -> (forall a b, P (String a (String b ""))) ->
  (forall a b c s, P s -> P (String a (String b (String c s)))) -> forall s, P s.
Proof.
  intros H0 H1 H2 H3. fix IH 1. intros [|a [|b [|c s]]]; [exact H0|apply H1|apply H2|]. apply H3, IH.
Qed.

(** What [GenerateSecret] encodes decodes to the bytes that were drawn. *)
Lemma DecodeBase64_Encode s : DecodeBase64 (EncodeBase64 s) = Some s.
Proof.
  unfold DecodeBase64. induction s as [|a|a b|a b c s IH] using triple_induction; [done|..]; cbn [EncodeBase64]; cbv zeta.
  - destruct (quantum_bytes (byte a) 0 0 (byte_range a) ltac:(lia) ltac:(lia)) as (H0 & H1 & _ & _ & Ha & _ & _).
    rewrite !Z.mul_0_l, !Z.add_0_r in *. cbn [without_breaks]. plain_symbols. cbn [without_breaks decodeQuanta]. plain_symbols. cbn [String.eqb andb]. by rewrite Ha, char_byte.
  - destruct (quantum_bytes (byte a) (byte b) 0 (byte_range a) (byte_range b) ltac:(lia)) as (H0 & H1 & H2 & _ & Ha & Hb & _).
    rewrite !Z.add_0_r in *. cbn [without_breaks]. plain_symbols. cbn [without_breaks decodeQuanta]. plain_symbols. cbn [String.eqb]. by rewrite Ha, Hb, !char_byte.
  - destruct (quantum_bytes (byte a) (byte b) (byte c) (byte_range a) (byte_range b) (byte_range c)) as (H0 & H1 & H2 & H3 & Ha & Hb & Hc).
    cbn [without_breaks]. plain_symbols. cbn [decodeQuanta]. plain_symbols. rewrite IH. cbn [mbind option_bind]. by rewrite Ha, Hb, Hc, !char_byte.
Qed.

(** ** SHA-256 *)

(** Words are 32-bit. *)
Definition word (z : Z) : Z := Z.land z (Z.ones 32).
Definition rotr (n x : Z) : Z := Z.lor (Z.shiftr x n) (word (Z.shiftl x (32 - n))).

(** The cube root, rounded down, of a number of at most 108 bits. *)
Definition cube_root (n : Z) : Z :=
  fold_left (fun r bit => let r' := (r + 2 ^ Z.of_nat bit)%Z in if (r' * r' * r' <=? n)%Z then r' else r) (rev (seq 0 36)) 0%Z.

Definition primes : list Z :=
  [2; 3; 5; 7; 11; 13; 17; 19; 23; 29; 31; 37; 41; 43; 47; 53; 59; 61; 67; 71; 73; 79; 83; 89; 97; 101; 103; 107; 109; 113; 127; 131; 137; 139; 149; 151;
   157; 163; 167; 173; 179; 181; 191; 193; 197; 199; 211; 223; 227; 229; 233; 239; 241; 251; 257; 263; 269; 271; 277; 281; 283; 293; 307; 311]%Z.

(** The fractions of the roots of the primes. *)
Definition roundConstants : list Z := Eval vm_compute in map (fun p => word (cube_root (p * 2 ^ 96))) primes.
Definition initialState : list Z := Eval vm_compute in map (fun p => word (Z.sqrt (p * 2 ^ 64))) (take 8 primes).

Fixpoint bytes_of (s : string) : list Z := match s with EmptyString => [] | String c s => byte c :: bytes_of s end.
Fixpoint string_of (l : list Z) : string := match l with [] => "" | z :: l => String (char z) (string_of l) end.

Definition big_endian (n : nat) (z : Z) : list Z := map (fun i => Z.land (Z.shiftr z (8 * Z.of_nat i)) 255) (rev (seq 0 n)).

Definition padded (l : list Z) : list Z :=
  let fill := Z.to_nat ((55 - Z.of_nat (length l)) mod 64) in l ++ [128%Z] ++ replicate fill 0%Z ++ big_endian 8 (8 * Z.of_nat (length l)).

Fixpoint words_of (l : list Z) : list Z :=
  match l with
  | a :: b :: c :: d :: rest => (Z.shiftl a 24 + Z.shiftl b 16 + Z.shiftl c 8 + d)%Z :: words_of rest
  | _ => []
  end.

(** The words of the schedule, the last first. *)
Fixpoint schedule (rounds : nat) (w : list Z) : list Z :=
  match rounds with
  | O => w
  | S rounds =>
      let at_ i := nth i w 0%Z in
      let s0 := Z.lxor (Z.lxor (rotr 7 (at_ 14%nat)) (rotr 18 (at_ 14%nat))) (Z.shiftr (at_ 14%nat) 3) in
      let s1 := Z.lxor (Z.lxor (rotr 17 (at_ 1%nat)) (rotr 19 (at_ 1%nat))) (Z.shiftr (at_ 1%nat) 10) in
      schedule rounds (word (s1 + at_ 6%nat + s0 + at_ 15%nat) :: w)
  end.

Definition state : Type := Z * Z * Z * Z * Z * Z * Z * Z.

Definition compress_round (st : state) (kw : Z * Z) : state :=
  let '(a, b, c, d, e, f, g, h) := st in
  let S1 := Z.lxor (Z.lxor (rotr 6 e) (rotr 11 e)) (rotr 25 e) in
  let ch := Z.lxor (Z.land e f) (Z.land (Z.lxor e (Z.ones 32)) g) in
  let t1 := (h + S1 + ch + kw.1 + kw.2)%Z in
  let S0 := Z.lxor (Z.lxor (rotr 2 a) (rotr 13 a)) (rotr 22 a) in
  let maj := Z.lxor (Z.lxor (Z.land a b) (Z.land a c)) (Z.land b c) in
  (word (t1 + S0 + maj), a, b, c, word (d + t1), e, f, g).

Definition compress (st : state) (block : list Z) : state :=
  let '(a, b, c, d, e, f, g, h) := st in
  let '(a', b', c', d', e', f', g', h') := fold_left compress_round (combine roundConstants (rev (schedule 48 (rev (words_of block))))) st in
  (word (a + a'), word (b + b'), word (c + c'), word (d + d'), word (e + e'), word (f + f'), word (g + g'), word (h + h')).

Fixpoint blocks (fuel : nat) (l : list Z) : list (list Z) :=
  match fuel, l with S fuel, _ :: _ => take 64 l :: blocks fuel (drop 64 l) | _, _ => [] end.

(** sha256.Sum256. *)
Definition Sum256 (s : string) : string :=
  let l := padded (bytes_of s) in
  let init := match initialState with [a; b; c; d; e; f; g; h] => (a, b, c, d, e, f, g, h) | _ => (0, 0, 0, 0, 0, 0, 0, 0)%Z end in
  let '(a, b, c, d, e, f, g, h) := fold_left compress (blocks (length l) l) init in
  string_of (concat (map (big_endian 4) [a; b; c; d; e; f; g; h])).

Example Sum256_abc : EncodeToString (Sum256 "abc") = "ba7816bf8f01cfea414140de5dae2223b00361a396177a9cb410ff61f20015ad".
Proof. by vm_compute. Qed.

Example Sum256_empty : EncodeToString (Sum256 "") = "e3b0c44298fc1c149afbf4c8996fb92427ae41e4649b934ca495991b7852b855".
Proof. by vm_compute. Qed.

Lemma string_of_length l : String.length (string_of l) = length l.
Proof. induction l as [|z l IH]; [done|]. cbn. by rewrite IH. Qed.

Lemma Sum256_length s : String.length (Sum256 s) = 32%nat.
Proof.
  unfold Sum256. cbv zeta. destruct (fold_left compress _ _) as [[[[[[[a b] c] d] e] f] g] h]. rewrite string_of_length. cbn [map concat].
  by rewrite !length_app; unfold big_endian; rewrite !length_map.
Qed.

(** * Passwords *)

Definition saltBytesLength : nat := 16.

Definition hashWithSalt (password salt : string) : string := EncodeToString (Sum256 (salt +:+ password)).

(** [random] is what rand.Read fills the salt with. *)
Definition Hash (random : result string) (password : string) : result (string * string) :=
  match random with
  | Err err => Err ("passwordhash: generating salt: " +:+ err)
  | Ok saltBytes => let salt := EncodeToString saltBytes in Ok (salt, hashWithSalt password salt)
  end.

Definition Verify (password salt hash : string) : bool := String.eqb (hashWithSalt password salt) hash.

Definition charset : string := "ABCDEFGHIJKLMNOPQRSTUVWXYZabcdefghijklmnopqrstuvwxyz0123456789".

(** [random] holds as many bytes as characters are asked for. *)
Definition GenerateRandomPassword (random : result string) : result string :=
  match random with
  | Err err => Err ("passwordhash: generating random password: " +:+ err)
  | Ok raw => Ok (str_map (fun b => symbol charset (byte b mod Z.of_nat (String.length charset))) raw)
  end.

(** * The signing secret *)

Definition secretBytes : nat := 32.

Definition GenerateSecret (random : result string) : result string :=
  match random with
  | Err err => Err ("authsecret: generating secret: " +:+ err)
  | Ok buf => Ok (EncodeBase64 buf)
  end.

(** * What they come to *)

(** What is stored of a password accepts it, and accepts another only when
    SHA-256 does not tell the two apart after the salt; both parts are
    hexadecimal text of the salt's 16 bytes and of the digest's 32. *)
Theorem Hash_Verify saltBytes password salt hash : Hash (Ok saltBytes) password = Ok (salt, hash) ->
  Verify password salt hash = true /\ (forall other, Verify other salt hash = true <-> Sum256 (salt +:+ other) = Sum256 (salt +:+ password)) /\
  String.length salt = (2 * String.length saltBytes)%nat /\ String.length hash = 64%nat.
Proof.
  intros [= <- <-]. unfold Verify, hashWithSalt. rewrite String.eqb_refl, !EncodeToString_length, Sum256_length. split_and!; try done.
  intros other. rewrite String.eqb_eq. split; [apply EncodeToString_inj|by intros ->].
Qed.

Lemma Hash_Verify_witness : exists salt hash, Hash (Ok "0123456789abcdef") "secret" = Ok (salt, hash) /\ Verify "secret" salt hash = true.
Proof.
  destruct (Hash (Ok "0123456789abcdef") "secret") as [[salt hash]|] eqn:Hh; [|discriminate Hh].
  exists salt, hash. split; [reflexivity|]. exact (proj1 (Hash_Verify _ _ _ _ Hh)).
Defined.

Lemma GenerateSecret_decodes random e : GenerateSecret random = Ok e -> exists buf, random = Ok buf /\ DecodeBase64 e = Some buf /\ (e = "" <-> buf = "").
Proof.
  destruct random as [buf|]; [|done]. intros [= <-]. exists buf. split_and!; [done|apply DecodeBase64_Encode|]. by destruct buf as [|? [|? [|? ?]]].
Qed.

Lemma GenerateRandomPassword_chars random password : GenerateRandomPassword random = Ok password ->
  exists raw, random = Ok raw /\ String.length password = String.length raw /\ forallb (fun c => existsb (Ascii.eqb c) (String.list_ascii_of_string charset)) (String.list_ascii_of_string password) = true.
Proof.
  destruct random as [raw|]; [|done]. intros [= <-]. exists raw. split; [done|]. induction raw as [|c raw [IHl IHc]]; [done|]. cbn [str_map String.length String.list_ascii_of_string forallb]. split; [by f_equal|].
  rewrite IHc, andb_true_r.
  change (Z.of_nat _) with 62%Z. pose proof (Z.mod_pos_bound (byte c) 62 ltac:(done)) as Hi. revert Hi. generalize (byte c mod 62)%Z. intros i Hi.
  pose proof (forall_below 62 (fun i => existsb (Ascii.eqb (symbol charset (Z.of_nat i))) (String.list_ascii_of_string charset)) ltac:(by vm_compute) (Z.to_nat i) ltac:(lia)) as Hs.
  cbv beta in Hs. by rewrite Z2Nat.id in Hs by lia.
Qed.
