(* ===== verification/Auth.v ===== *)
(** Who may call what: internal/server/auth, authsecret and jwt, the
    authorization of httpserver/connect_auth.go, the policies of the services
    and the methods of services/auth.go. Tokens are made and parsed by
    golang-jwt, the class [TokenLibrary]. Times are nanoseconds since 1970. *)
From stdpp Require Import strings list gmap.
From Stdlib Require Import Ascii ZArith Lia.
From coqutil Require Import Datatypes.RecordSetters.
Import DoubleBraceUpdate.
From S2P Require Import Prelude AppConfig GoText ConfigStore Services ConfigServices Crypto.
#[local] Open Scope go_scope.

(** * Tokens *)

(** The claims, their times in seconds. *)
Record Claims : Type := { clSubject : string; clRole : string; clExpiresAt : Z; clIssuedAt : Z; clNotBefore : Z }.

Definition RoleAdmin : string := "admin".
Definition RoleUser : string := "user".
Definition RoleWebhook : string := "webhook".
Definition RoleReadOnly : string := "read_only".

Definition Second : Z := 1000000000.
Definition HS256 : string := "HS256".

Class TokenLibrary : Type := {
  (** NewWithClaims with the method HS256, and SignedString. *)
  SignedString : Claims -> string -> result string;
  (** ParseWithClaims at a time; the function answers with the key for the
      method a token names. The claims, and the token's field Valid. *)
  ParseWithClaims : Z -> string -> (string -> result string) -> result (Claims * bool);
}.

Definition in_force (now : Z) (claims : Claims) : bool := (clNotBefore claims * Second <=? now)%Z && (now <? clExpiresAt claims * Second)%Z.

(** A token that was signed parses under the key it was signed with while it is
    in force, and under no other key of the length that is generated. *)
Class TokenLibraryLaws `{TokenLibrary} : Prop := {
  signed_not_empty claims key text : SignedString claims key = Ok text -> text <> "";
  parse_signed now claims key text keyFunc : SignedString claims key = Ok text -> keyFunc HS256 = Ok key ->
    if in_force now claims then ParseWithClaims now text keyFunc = Ok (claims, true) else is_ok (ParseWithClaims now text keyFunc) = false;
  parse_other_key now claims key key' text keyFunc : SignedString claims key = Ok text -> keyFunc HS256 = Ok key' ->
    String.length key = secretBytes -> String.length key' = secretBytes -> key' <> key -> is_ok (ParseWithClaims now text keyFunc) = false;
}.

Section tokens.
Context `{TokenLibrary}.

Definition SignJWT (now : Z) (subject role : string) (ttl : Z) (secret : string) : result string :=
  if String.eqb subject "" then Err "subject must not be empty"
  else if String.eqb role "" then Err "role must not be empty"
  else if (ttl <=? 0)%Z then Err "ttl must be positive"
  else if String.eqb secret "" then Err "secret must not be empty"
  else
    let expiresAt := (now + ttl * Second)%Z in
    let claims := {| clSubject := subject; clRole := role; clExpiresAt := expiresAt / Second; clIssuedAt := now / Second; clNotBefore := now / Second |} in
    match SignedString claims secret with Ok text => Ok text | Err err => Err ("failed to sign token: " +:+ err) end.

Definition VerifyJWT (now : Z) (tokenString secret : string) : result Claims :=
  if String.eqb tokenString "" then Err "token string must not be empty"
  else if String.eqb secret "" then Err "secret must not be empty"
  else
    match ParseWithClaims now tokenString (fun alg => if String.eqb alg HS256 then Ok secret else Err ("unexpected signing method: " +:+ alg)) with
    | Err err => Err ("failed to parse token: " +:+ err)
    | Ok (claims, valid) =>
        if negb valid then Err "token is invalid"
        else if String.eqb (clSubject claims) "" then Err "token missing subject claim"
        else if String.eqb (clRole claims) "" then Err "token missing role claim"
        else Ok claims
    end.

(** ** The signing secret *)

(** An error of authsecret, as errors.Is tells them apart. *)
Inductive secretError : Type := ErrSecretNotConfigured | ErrSecretMalformed | ErrToken (err : string).

Record cache : Type := { caEncoded : string; caDecoded : option string }.

Definition secret (live : Config) (ca : cache) : cache * (string + secretError) :=
  let encoded := acHmacSecret (cfAuth live) in
  if String.eqb encoded "" then (ca, inr ErrSecretNotConfigured)
  else
    match (if String.eqb (caEncoded ca) encoded then caDecoded ca else None) with
    | Some decoded => (ca, inl decoded)
    | None =>
        match DecodeBase64 encoded with
        | None => (ca, inr ErrSecretMalformed)
        | Some decoded => ({| caEncoded := encoded; caDecoded := Some decoded |}, inl decoded)
        end
    end.

Definition Sign (now : Z) (live : Config) (subject role : string) (ttl : Z) (ca : cache) : cache * (string + secretError) :=
  match secret live ca with
  | (ca', inr err) => (ca', inr err)
  | (ca', inl key) => (ca', match SignJWT now subject role ttl key with Ok text => inl text | Err err => inr (ErrToken err) end)
  end.

Definition VerifyToken (now : Z) (live : Config) (token : string) (ca : cache) : cache * (Claims + secretError) :=
  match secret live ca with
  | (ca', inr err) => (ca', inr err)
  | (ca', inl key) => (ca', match VerifyJWT now token key with Ok claims => inl claims | Err err => inr (ErrToken err) end)
  end.
End tokens.

(** * Roles *)

Inductive Group : Type := GroupNone | GroupConfig | GroupTasks | GroupWebhook.
#[export] Instance Group_eq_dec : EqDecision Group.
Proof. solve_decision. Defined.

Definition allowedGroups (role : string) : list Group :=
  if String.eqb role RoleAdmin then [GroupConfig; GroupTasks; GroupWebhook]
  else if String.eqb role RoleUser then [GroupTasks; GroupWebhook]
  else if String.eqb role RoleReadOnly then [GroupTasks; GroupWebhook]
  else if String.eqb role RoleWebhook then [GroupWebhook]
  else [].

Definition MethodGet : string := "GET".
Definition MethodPost : string := "POST".

Definition Authorized (role : string) (group : Group) (method : string) : bool :=
  if negb (bool_decide (group ∈ allowedGroups role)) then false
  else if String.eqb role RoleReadOnly && negb (String.eqb method MethodGet) then false
  else true.

(** * The authorization of a call *)

Record RPCPolicy : Type := { poGroup : Group; poReadOnly : bool; poNoAuth : bool }.

(** What the context of a call carries. *)
Record callContext : Type := { ccAPIKey : string; ccRole : option string }.

Definition schemeNoneSyntheticKey : string := "authentication-scheme-none".

Definition methodName (procedure : string) : string :=
  match last_index procedure "/" with None => procedure | Some idx => str_drop (S idx) procedure end.

Section authorize.
Context `{TokenLibrary}.

(** [header] is the value of X-Api-Key, empty when there is none. *)
Definition authorize (policies : list (string * RPCPolicy)) (now : Z) (live : Config) (procedure header : string) (ctx : callContext) (ca : cache)
  : cache * reply failure callContext :=
  match snd <$> List.find (fun entry => String.eqb entry.1 (methodName procedure)) policies with
  | None => (ca, Refused (ConnectError CodeInternal "no auth policy registered for this RPC"))
  | Some policy =>
      if poNoAuth policy then (ca, Reply ctx)
      else if negb (bool_decide (auAuthenticationScheme (cfAdmin live) = AuthSchemePassword))
      then (ca, Reply {| ccAPIKey := schemeNoneSyntheticKey; ccRole := Some RoleAdmin |})
      else if String.eqb header "" then (ca, Refused (ConnectError CodeUnauthenticated "missing JWT token"))
      else
        match VerifyToken now live header ca with
        | (ca', inr ErrSecretNotConfigured) => (ca', Refused (ConnectError CodeInternal "authentication not configured"))
        | (ca', inr ErrSecretMalformed) => (ca', Refused (ConnectError CodeInternal "authentication configuration error"))
        | (ca', inr (ErrToken _)) => (ca', Refused (ConnectError CodeUnauthenticated "invalid or expired JWT token"))
        | (ca', inl claims) =>
            let role := clRole claims in
            if String.eqb role "" then (ca', Refused (ConnectError CodeUnauthenticated "invalid token role"))
            else if negb (Authorized role (poGroup policy) (if poReadOnly policy then MethodGet else MethodPost))
            then (ca', Refused (ConnectError CodePermissionDenied "insufficient permissions for this endpoint"))
            else (ca', Reply {| ccAPIKey := header; ccRole := Some role |})
        end
  end.
End authorize.

(** ** The policies *)

Definition reads (group : Group) (method : string) : string * RPCPolicy := (method, {| poGroup := group; poReadOnly := true; poNoAuth := false |}).
Definition calls (group : Group) (method : string) : string * RPCPolicy := (method, {| poGroup := group; poReadOnly := false; poNoAuth := false |}).
Definition open (method : string) : string * RPCPolicy := (method, {| poGroup := GroupNone; poReadOnly := false; poNoAuth := true |}).

Definition AdminAuthPolicies := [reads GroupConfig "GetAdminUser"; calls GroupConfig "UpdateAdminUser"].
Definition AgentAuthPolicies := [calls GroupConfig "CreateAgent"; reads GroupConfig "GetAgent"; reads GroupConfig "ListAgents"; calls GroupConfig "UpdateAgent";
  calls GroupConfig "DeleteAgent"; calls GroupConfig "SetLogLevel"; reads GroupConfig "StreamPresence"].
Definition AuthAuthPolicies := [open "Login"; calls GroupConfig "Logout"; open "GetAuthScheme"].
Definition TokenAuthPolicies := [calls GroupConfig "IssueToken"; calls GroupConfig "RotateHmacSecret"].
Definition ConfigAuthPolicies := [reads GroupConfig "GetConfig"].
Definition DirectoryScannerAuthPolicies := [reads GroupConfig "GetDirectoryScannerConfig"; calls GroupConfig "UpdateDirectoryScannerConfig"; calls GroupConfig "CreateScanDirectory";
  reads GroupConfig "GetScanDirectory"; reads GroupConfig "ListScanDirectories"; calls GroupConfig "UpdateScanDirectory"; calls GroupConfig "DeleteScanDirectory";
  calls GroupConfig "CreateSidecarType"; reads GroupConfig "GetSidecarType"; reads GroupConfig "ListSidecarTypes"; calls GroupConfig "UpdateSidecarType";
  calls GroupConfig "DeleteSidecarType"; calls GroupConfig "ReorderSidecarTypes"; calls GroupConfig "ResetSidecarTypes"].
Definition EventBusAuthPolicies := [reads GroupConfig "GetEventBusConfig"; calls GroupConfig "UpdateEventBusConfig"].
Definition LocalDirectoryAuthPolicies := [reads GroupTasks "ListDirectories"; reads GroupTasks "GetDirectory"; reads GroupTasks "ListMediaFiles"; reads GroupTasks "GetMediaFile";
  reads GroupTasks "GetDirectoryNFO"].
Definition LoggingAuthPolicies := [reads GroupConfig "GetLoggingConfig"; calls GroupConfig "UpdateLoggingConfig"; reads GroupConfig "GetTail"; reads GroupConfig "StreamTail"].
Definition SonarrInterfaceAuthPolicies := [calls GroupConfig "CreateSonarrInstance"; reads GroupConfig "GetSonarrInstance"; reads GroupConfig "ListSonarrInstances";
  calls GroupConfig "UpdateSonarrInstance"; calls GroupConfig "DeleteSonarrInstance"].
Definition StatsAuthPolicies := [reads GroupConfig "Get"; reads GroupConfig "Stream"; calls GroupConfig "Purge"].
Definition TaskAuthPolicies := [calls GroupTasks "RunDirectoryScan"].
Definition WorkflowCatalogAuthPolicies := [reads GroupTasks "Get"; calls GroupTasks "Validate"].
Definition WorkflowAuthPolicies := [calls GroupTasks "CreateWorkflow"; reads GroupTasks "GetWorkflow"; reads GroupTasks "ListWorkflows"; calls GroupTasks "UpdateWorkflow";
  calls GroupTasks "DeleteWorkflow"; reads GroupTasks "GetWorkflowVersion"; reads GroupTasks "ListWorkflowVersions"].

(** What main.go mounts: every service with its interceptor. *)
Definition connectServices : list (string * list (string * RPCPolicy)) := [
  ("SonarrInterfaceService", SonarrInterfaceAuthPolicies); ("AuthService", AuthAuthPolicies); ("TokenService", TokenAuthPolicies); ("ConfigService", ConfigAuthPolicies);
  ("AdminService", AdminAuthPolicies); ("AgentService", AgentAuthPolicies); ("DirectoryScannerService", DirectoryScannerAuthPolicies); ("LoggingService", LoggingAuthPolicies);
  ("EventBusService", EventBusAuthPolicies); ("TaskService", TaskAuthPolicies); ("WorkflowCatalogService", WorkflowCatalogAuthPolicies);
  ("LocalDirectoryService", LocalDirectoryAuthPolicies); ("WorkflowService", WorkflowAuthPolicies); ("StatsService", StatsAuthPolicies)].

(** * The methods of the auth services *)

Inductive AccessLevel : Type := AccessLevelUnspecified | AccessLevelAdmin | AccessLevelUser | AccessLevelWebhook | AccessLevelReadOnly | UnknownLevel (n : Z).
#[export] Instance AccessLevel_eq_dec : EqDecision AccessLevel.
Proof. solve_decision. Defined.

Definition roleFromAccessLevel (level : AccessLevel) : string :=
  match level with
  | AccessLevelAdmin => RoleAdmin
  | AccessLevelUser => RoleUser
  | AccessLevelWebhook => RoleWebhook
  | AccessLevelReadOnly => RoleReadOnly
  | _ => ""
  end.

Definition hmacSignError (err : secretError) (genericMsg : string) : failure :=
  match err with
  | ErrSecretNotConfigured => connectError 500 "authentication not properly configured"
  | ErrSecretMalformed => connectError 500 "authentication configuration error"
  | ErrToken _ => connectError 500 genericMsg
  end.

Section services.
Context `{TokenLibrary}.

Definition sessionTTL : Z := 24 * 60 * 60.
Definition maxTTL : Z := 365 * 24 * 60 * 60.

(** The clock is read by Sign, at [now], and again for the answer. *)
Definition Login (now later : Z) (live : Config) (username password : string) (ca : cache) : cache * reply failure (string * Z) :=
  let admin := cfAdmin live in
  if String.eqb (auUsername admin) "" || String.eqb username "" || negb (String.eqb username (auUsername admin))
     || negb (Verify password (auPasswordSalt admin) (auPasswordHash admin))
  then (ca, refused 401 "invalid username or password")
  else
    match Sign now live username RoleAdmin sessionTTL ca with
    | (ca', inr err) => (ca', Refused (hmacSignError err "failed to create session token"))
    | (ca', inl token) => (ca', Reply (token, later / Second + sessionTTL)%Z)
    end.

Definition GetAuthScheme (live : Config) : AuthenticationScheme := auAuthenticationScheme (cfAdmin live).

Definition IssueToken (now later : Z) (live : Config) (role : AccessLevel) (ttl : Z) (name : string) (ca : cache) : cache * reply failure (string * Z) :=
  if decide (role = AccessLevelUnspecified) then (ca, refused 400 "role must be specified")
  else if (ttl <=? 0)%Z then (ca, refused 400 "ttl_seconds must be positive")
  else if (maxTTL <? ttl)%Z then (ca, refused 400 "ttl_seconds exceeds maximum (365 days)")
  else
    let subject := if String.eqb name "" then "integration" else name in
    match Sign now live subject (roleFromAccessLevel role) ttl ca with
    | (ca', inr err) => (ca', Refused (hmacSignError err "failed to create token"))
    | (ca', inl token) => (ca', Reply (token, later / Second + ttl)%Z)
    end.
End services.
