(* ===== verification/AuthRights.v ===== *)
(** What tokens of Auth are good for: the calls the protocol declares, who may
    make each, and for how long. *)
From stdpp Require Import strings list.
From Stdlib Require Import Ascii ZArith Lia.
From coqutil Require Import Datatypes.RecordSetters.
Import DoubleBraceUpdate.
From S2P Require Import Prelude AppConfig GoText ConfigStore Services ConfigServices Crypto Auth.
#[local] Open Scope go_scope.

(** * The secret in use *)

(** The cache holds the decoding of what it names. *)
Definition cache_ok (ca : cache) : Prop := forall decoded, caDecoded ca = Some decoded -> DecodeBase64 (caEncoded ca) = Some decoded.

Definition secretOf (live : Config) : string + secretError :=
  let encoded := acHmacSecret (cfAuth live) in
  if String.eqb encoded "" then inr ErrSecretNotConfigured
  else match DecodeBase64 encoded with Some decoded => inl decoded | None => inr ErrSecretMalformed end.

Lemma secret_live live ca : cache_ok ca -> cache_ok (secret live ca).1 /\ (secret live ca).2 = secretOf live.
Proof.
  unfold secret, secretOf. intros Hok. destruct (String.eqb (acHmacSecret _) ""); [done|].
  assert (forall r, r = (if String.eqb (caEncoded ca) (acHmacSecret (cfAuth live)) then caDecoded ca else None) -> forall d, r = Some d -> DecodeBase64 (acHmacSecret (cfAuth live)) = Some d) as Hhit.
  { intros r -> d. destruct (String.eqb_spec (caEncoded ca) (acHmacSecret (cfAuth live))) as [<-|]; [apply Hok|done]. }
  specialize (Hhit _ eq_refl). destruct (if String.eqb _ _ then _ else _) as [d|]; [by rewrite (Hhit d eq_refl)|].
  destruct (DecodeBase64 _) as [d|] eqn:Hd; [|done]. split; [|done]. by intros d' [= <-].
Qed.

Definition noCache : cache := {| caEncoded := ""; caDecoded := None |}.

Lemma noCache_ok : cache_ok noCache.
Proof. done. Qed.

(** A configuration whose secret was generated from these bytes. *)
Definition secret_is (live : Config) (key : string) : Prop := acHmacSecret (cfAuth live) = EncodeBase64 key /\ String.length key = secretBytes.

Lemma secret_is_secretOf live key : secret_is live key -> secretOf live = inl key /\ key <> "".
Proof.
  intros [He Hl]. assert (key <> "") as Hk by (by intros ->). split; [|done]. unfold secretOf. rewrite He, DecodeBase64_Encode.
  assert (EncodeBase64 key <> "") as Hne by (by destruct key as [|? [|? [|? ?]]]). by apply String.eqb_neq in Hne as ->.
Qed.

(** * Tokens *)

Section tokens.
Context `{TokenLibraryLaws}.

(** The claims of a token that is signed. *)
Definition claimsAt (now : Z) (subject role : string) (ttl : Z) : Claims :=
  {| clSubject := subject; clRole := role; clExpiresAt := now / Second + ttl; clIssuedAt := now / Second; clNotBefore := now / Second |}.

Lemma SignJWT_signed now subject role ttl key text : SignJWT now subject role ttl key = Ok text ->
  SignedString (claimsAt now subject role ttl) key = Ok text /\ subject <> "" /\ role <> "" /\ (0 < ttl)%Z.
Proof.
  unfold SignJWT, claimsAt. destruct (String.eqb_spec subject ""); [done|]. destruct (String.eqb_spec role ""); [done|]. destruct (Z.leb_spec ttl 0); [done|].
  destruct (String.eqb_spec key ""); [done|]. rewrite Z.div_add by done. destruct (SignedString _ _) as [text'|]; [|done]. by intros [= ->].
Qed.

Lemma Sign_signed now live key subject role ttl ca ca' text : secret_is live key -> cache_ok ca -> Sign now live subject role ttl ca = (ca', inl text) ->
  SignedString (claimsAt now subject role ttl) key = Ok text /\ subject <> "" /\ role <> "" /\ (0 < ttl)%Z.
Proof.
  intros [Hs _]%secret_is_secretOf Hok. unfold Sign. pose proof (secret_live live ca Hok) as [_ Hl]. rewrite Hs in Hl. destruct (secret live ca) as [ca1 [k|]]; [|done].
  cbn in Hl. injection Hl as ->. destruct (SignJWT _ _ _ _ _) as [t|] eqn:Hj; [|done]. intros [= _ ->]. by apply SignJWT_signed in Hj.
Qed.

(** How a token that was signed under [key] is taken under the secret of a
    configuration. *)
Definition taken (t : Z) (live : Config) (key : string) (claims : Claims) (r : Claims + secretError) : Prop :=
  (secret_is live key -> if in_force t claims then r = inl claims else exists err, r = inr (ErrToken err)) /\
  (forall key', secret_is live key' -> key' <> key -> exists err, r = inr (ErrToken err)).

Lemma VerifyToken_signed t live key claims text ca : cache_ok ca -> SignedString claims key = Ok text -> clSubject claims <> "" -> clRole claims <> "" ->
  String.length key = secretBytes -> taken t live key claims (VerifyToken t live text ca).2.
Proof.
  intros Hok Hsig Hsub Hrole Hlen. assert (text <> "") as Htext by (by eapply signed_not_empty).
  assert (forall key', secret_is live key' -> exists ca', VerifyToken t live text ca = (ca', match VerifyJWT t text key' with Ok c => inl c | Err e => inr (ErrToken e) end) /\ key' <> "") as Hkey.
  { intros key' [Hs Hne]%secret_is_secretOf. unfold VerifyToken. pose proof (secret_live live ca Hok) as [_ Hl]. rewrite Hs in Hl.
    destruct (secret live ca) as [ca1 [k|]]; [|done]. cbn in Hl. injection Hl as ->. eauto. }
  unfold taken. split.
  - intros (ca' & -> & Hne)%Hkey. cbn [snd]. unfold VerifyJWT. apply String.eqb_neq in Htext as ->. apply String.eqb_neq in Hne as ->.
    pose proof (parse_signed t claims key text (fun alg => if String.eqb alg HS256 then Ok key else Err ("unexpected signing method: " +:+ alg)) Hsig eq_refl) as Hp.
    destruct (in_force t claims).
    + rewrite Hp. cbn [negb]. apply String.eqb_neq in Hsub as ->. by apply String.eqb_neq in Hrole as ->.
    + destruct (ParseWithClaims _ _ _) as [[c v]|e]; [done|]. eauto.
  - intros key' Hkey' Hdiff. destruct (Hkey key' Hkey') as (ca' & -> & Hne). cbn [snd]. unfold VerifyJWT. apply String.eqb_neq in Htext as ->. apply String.eqb_neq in Hne as ->.
    destruct Hkey' as [_ Hlen'].
    pose proof (parse_other_key t claims key key' text (fun alg => if String.eqb alg HS256 then Ok key' else Err ("unexpected signing method: " +:+ alg)) Hsig eq_refl Hlen Hlen' Hdiff) as Hp.
    destruct (ParseWithClaims _ _ _) as [[c v]|e]; [done|]. eauto.
Qed.
End tokens.

(** * The calls *)

(** The services of the protocol and their calls. *)
Definition rpcs : list (string * list string) := [
  ("AdminService", ["GetAdminUser"; "UpdateAdminUser"]);
  ("AgentService", ["CreateAgent"; "GetAgent"; "ListAgents"; "UpdateAgent"; "DeleteAgent"; "SetLogLevel"; "StreamPresence"]);
  ("AuthService", ["Login"; "Logout"; "GetAuthScheme"]);
  ("TokenService", ["IssueToken"; "RotateHmacSecret"]);
  ("ConfigService", ["GetConfig"]);
  ("DirectoryScannerService", ["GetDirectoryScannerConfig"; "UpdateDirectoryScannerConfig"; "CreateScanDirectory"; "GetScanDirectory"; "ListScanDirectories";
     "UpdateScanDirectory"; "DeleteScanDirectory"; "CreateSidecarType"; "GetSidecarType"; "ListSidecarTypes"; "UpdateSidecarType"; "DeleteSidecarType";
     "ReorderSidecarTypes"; "ResetSidecarTypes"]);
  ("EventBusService", ["GetEventBusConfig"; "UpdateEventBusConfig"]);
  ("LocalDirectoryService", ["ListDirectories"; "GetDirectory"; "ListMediaFiles"; "GetMediaFile"; "GetDirectoryNFO"]);
  ("LoggingService", ["GetLoggingConfig"; "UpdateLoggingConfig"; "GetTail"; "StreamTail"]);
  ("SonarrInterfaceService", ["CreateSonarrInstance"; "GetSonarrInstance"; "ListSonarrInstances"; "UpdateSonarrInstance"; "DeleteSonarrInstance"]);
  ("StatsService", ["Get"; "Stream"; "Purge"]);
  ("TaskService", ["RunDirectoryScan"]);
  ("WorkflowCatalogService", ["Get"; "Validate"]);
  ("WorkflowService", ["CreateWorkflow"; "GetWorkflow"; "ListWorkflows"; "UpdateWorkflow"; "DeleteWorkflow"; "GetWorkflowVersion"; "ListWorkflowVersions"])].

Definition procedure (service method : string) : string := "/metarr.v1." +:+ service +:+ "/" +:+ method.

(** Who may make a call: anyone signs in; an administrator does anything; a user
    works with the library and the workflows; a reader looks at them. *)
Definition anyone (method : string) : bool := bool_decide (method ∈ ["Login"; "GetAuthScheme"]).
Definition of_library (service : string) : bool := bool_decide (service ∈ ["TaskService"; "LocalDirectoryService"; "WorkflowCatalogService"; "WorkflowService"]).
Definition acts (method : string) : bool := bool_decide (method ∈ ["RunDirectoryScan"; "Validate"; "CreateWorkflow"; "UpdateWorkflow"; "DeleteWorkflow"]).

Definition may (level : AccessLevel) (service method : string) : bool :=
  match level with
  | AccessLevelAdmin => true
  | AccessLevelUser => of_library service
  | AccessLevelReadOnly => of_library service && negb (acts method)
  | _ => false
  end.

(** The policies a service is mounted with. *)
Definition mounted (service : string) : list (string * RPCPolicy) := default [] (snd <$> List.find (fun entry => String.eqb entry.1 service) connectServices).

Definition policyFor (service method : string) : option RPCPolicy :=
  snd <$> List.find (fun entry => String.eqb entry.1 (methodName (procedure service method))) (mounted service).

(** The policy of a call lets in whom it should. *)
Definition policy_fits (service method : string) : bool :=
  match policyFor service method with
  | None => false
  | Some policy =>
      Bool.eqb (poNoAuth policy) (anyone method) &&
      (poNoAuth policy || forallb (fun level => Bool.eqb (Authorized (roleFromAccessLevel level) (poGroup policy) (if poReadOnly policy then MethodGet else MethodPost)) (may level service method))
         [AccessLevelAdmin; AccessLevelUser; AccessLevelWebhook; AccessLevelReadOnly])
  end.

Lemma policies_fit service methods method : (service, methods) ∈ rpcs -> method ∈ methods -> policy_fits service method = true.
Proof.
  assert (forallb (fun entry => forallb (policy_fits entry.1) entry.2) rpcs = true) as Hall by (by vm_compute).
  rewrite forallb_forall in Hall. intros Hs%list_elem_of_In%Hall Hm. cbn in Hs. rewrite forallb_forall in Hs. by apply Hs, list_elem_of_In.
Qed.

(** What rotating leaves. *)
Lemma rotated_secret buf apply live rotated : String.length buf = secretBytes -> RotateHmacSecret (GenerateSecret (Ok buf)) = Mutate apply -> apply live = Reply (rotated, tt) ->
  cfAdmin rotated = cfAdmin live /\ secret_is rotated buf.
Proof.
  intros Hlen Hm Ha. cbn in Hm. assert (apply live = Reply (live {{ cfAuth ::= fun auth => auth {{ acHmacSecret := EncodeBase64 buf }} }}, tt)) as Hr by (by injection Hm as <-).
  rewrite Hr in Ha. apply (f_equal (fun r => match r with Reply (c, _) => Some (cfAdmin c, acHmacSecret (cfAuth c)) | _ => None end)) in Ha.
  destruct live. cbn in Ha. injection Ha as -> Hs. by repeat split.
Qed.

Section rights.
Context `{TokenLibraryLaws}.

Definition unauthenticated : failure := ConnectError CodeUnauthenticated "invalid or expired JWT token".
Definition forbidden : failure := ConnectError CodePermissionDenied "insufficient permissions for this endpoint".

Lemma authorize_signed t live key claims level text ctx ca service methods method :
  auAuthenticationScheme (cfAdmin live) = AuthSchemePassword -> cache_ok ca ->
  SignedString claims key = Ok text -> clSubject claims <> "" -> clRole claims = roleFromAccessLevel level -> clRole claims <> "" -> String.length key = secretBytes ->
  (service, methods) ∈ rpcs -> method ∈ methods ->
  let answer := (authorize (mounted service) t live (procedure service method) text ctx ca).2 in
    (secret_is live key -> answer =
       if anyone method then Reply ctx else if negb (in_force t claims) then Refused unauthenticated
       else if may level service method then Reply {| ccAPIKey := text; ccRole := Some (clRole claims) |} else Refused forbidden) /\
    (forall key', secret_is live key' -> key' <> key -> answer = if anyone method then Reply ctx else Refused unauthenticated).
Proof.
  intros Hscheme Hok Hsig Hsub Hlevel Hrole Hlen Hs Hm. pose proof (policies_fit _ _ _ Hs Hm) as Hfit. unfold policy_fits in Hfit.
  destruct (policyFor service method) as [policy|] eqn:Hp; [|done]. apply andb_true_iff in Hfit as [Hno%eqb_prop Hlevels].
  unfold policyFor in Hp. cbv zeta. unfold authorize. rewrite Hp, Hno in *.
  destruct (anyone method); [done|]. cbn [orb] in Hlevels. rewrite bool_decide_true by done. cbn [negb].
  assert (text <> "") as Htext by (by eapply signed_not_empty). apply String.eqb_neq in Htext as ->.
  destruct (VerifyToken_signed t live key claims text ca Hok Hsig Hsub Hrole Hlen) as [Hown Hother].
  destruct (VerifyToken t live text ca) as [ca' r]. cbn [snd] in Hown, Hother. split.
  - intros Hkey. specialize (Hown Hkey). destruct (in_force t claims); [|by destruct Hown as [err ->]]. subst r. cbn [negb]. apply String.eqb_neq in Hrole as Hr. rewrite Hr.
    assert (Authorized (clRole claims) (poGroup policy) (if poReadOnly policy then MethodGet else MethodPost) = may level service method) as ->.
    { rewrite Hlevel in *. rewrite forallb_forall in Hlevels. apply eqb_prop, Hlevels. destruct level; cbn in *; eauto; done. }
    by destruct (may level service method).
  - intros key' Hkey' Hne. by destruct (Hother key' Hkey' Hne) as [err ->].
Qed.

(** C9: A token that was issued is good for its role and no more: under the
    password scheme, whatever else of the configuration changes, every call the
    protocol declares has a policy, which lets the token through exactly when it
    is in force and its role may make the call; a user never reaches the
    configuration, a reader never acts, a webhook's token makes no call at all. *)
Theorem issued_token_rights now later live key level ttl name ca ca' token expires :
  secret_is live key -> cache_ok ca -> IssueToken now later live level ttl name ca = (ca', Reply (token, expires)) ->
  forall t live' ctx ca1 service methods method, auAuthenticationScheme (cfAdmin live') = AuthSchemePassword -> secret_is live' key -> cache_ok ca1 ->
  (service, methods) ∈ rpcs -> method ∈ methods ->
  (authorize (mounted service) t live' (procedure service method) token ctx ca1).2 =
    if anyone method then Reply ctx
      else if (now / Second * Second <=? t)%Z && (t <? (now / Second + ttl) * Second)%Z then
        (if may level service method then Reply {| ccAPIKey := token; ccRole := Some (roleFromAccessLevel level) |} else Refused forbidden)
      else Refused unauthenticated.
Proof.
  intros Hkey Hok. unfold IssueToken. destruct (decide _); [done|]. destruct (ttl <=? 0)%Z; [done|]. destruct (maxTTL <? ttl)%Z; [done|]. set (subject := if String.eqb name "" then _ else _).
  destruct (Sign _ _ _ _ _ _) as [ca2 [text|err]] eqn:Hsign; [|done]. intros [= _ <- _]. apply (Sign_signed _ _ key) in Hsign as (Hsig & Hsub & Hrole & _); [|done..].
  intros t live' ctx ca1 service methods method Hscheme Hkey' Hok1 Hs Hm.
  destruct (authorize_signed t live' key _ level text ctx ca1 service methods method Hscheme Hok1 Hsig Hsub eq_refl Hrole (proj2 Hkey) Hs Hm) as [Hans _].
  rewrite (Hans Hkey'). unfold in_force. cbn [clNotBefore clExpiresAt clRole claimsAt]. destruct (anyone method); [done|]. by destruct (_ && _).
Qed.

(** C24: A session ends with its secret and with nothing else but time: whatever
    becomes of the account it was opened for, its token makes every call as
    administrator for 24 hours, and from the moment RotateHmacSecret has
    replaced the secret it makes none. *)
Theorem session_until_rotation now later live key username password ca ca' token expires :
  secret_is live key -> cache_ok ca -> Login now later live username password ca = (ca', Reply (token, expires)) ->
  forall t live' ctx ca1 service methods method, auAuthenticationScheme (cfAdmin live') = AuthSchemePassword -> cache_ok ca1 ->
  (service, methods) ∈ rpcs -> method ∈ methods -> anyone method = false ->
  let answer live := (authorize (mounted service) t live (procedure service method) token ctx ca1).2 in
    (secret_is live' key -> (now / Second * Second <= t < (now / Second + sessionTTL) * Second)%Z -> answer live' = Reply {| ccAPIKey := token; ccRole := Some RoleAdmin |}) /\
    (forall buf apply rotated, String.length buf = secretBytes -> buf <> key -> RotateHmacSecret (GenerateSecret (Ok buf)) = Mutate apply -> apply live' = Reply (rotated, tt) ->
       answer rotated = Refused unauthenticated).
Proof.
  intros Hkey Hok. unfold Login. destruct (_ || _); [done|]. destruct (Sign _ _ _ _ _ _) as [ca2 [text|err]] eqn:Hsign; [|done]. intros [= _ <- _].
  apply (Sign_signed _ _ key) in Hsign as (Hsig & Hsub & Hrole & _); [|done..]. intros t live' ctx ca1 service methods method Hscheme Hok1 Hs Hm Hany.
  pose proof (fun live1 Hscheme1 => authorize_signed t live1 key _ AccessLevelAdmin text ctx ca1 service methods method Hscheme1 Hok1 Hsig Hsub eq_refl Hrole (proj2 Hkey) Hs Hm) as Hans.
  cbv zeta in Hans |- *. rewrite Hany in Hans. split.
  - intros Hkey' [Hfrom Hto]. rewrite (proj1 (Hans live' Hscheme) Hkey'). unfold in_force. cbn [clNotBefore clExpiresAt clRole claimsAt]. apply Z.leb_le in Hfrom as ->. by apply Z.ltb_lt in Hto as ->.
  - intros buf apply rotated Hlen Hne Hm' Ha. destruct (rotated_secret _ _ _ _ Hlen Hm' Ha) as [Hadmin Hnew]. apply (proj2 (Hans rotated ltac:(by rewrite Hadmin)) buf Hnew Hne).
Qed.
End rights.

(** * A library of tokens *)

Module Sample.
(** A token is its claims and its key, written in binary. *)
Fixpoint bits (p : positive) : string := match p with xH => "1" | xO p => String "0" (bits p) | xI p => String "i" (bits p) end.

Fixpoint number (s : string) : option positive :=
  match s with
  | String "0" rest => xO <$> number rest
  | String "i" rest => xI <$> number rest
  | String "1" EmptyString => Some xH
  | _ => None
  end.

Lemma number_bits p : number (bits p) = Some p.
Proof. induction p as [p IH|p IH|]; cbn; [by rewrite IH..|done]. Qed.

Definition fields : Type := string * string * Z * Z * Z * string.

Definition token (claims : Claims) (key : string) : string :=
  bits (encode ((clSubject claims, clRole claims, clExpiresAt claims, clIssuedAt claims, clNotBefore claims, key) : fields)).

#[export] Instance plainTokens : TokenLibrary := {|
  SignedString claims key := Ok (token claims key);
  ParseWithClaims now text keyFunc :=
    match number text ≫= (fun p => decode p : option fields) with
    | None => Err "token is malformed"
    | Some (subject, role, expiresAt, issuedAt, notBefore, key) =>
        let claims := {| clSubject := subject; clRole := role; clExpiresAt := expiresAt; clIssuedAt := issuedAt; clNotBefore := notBefore |} in
        match keyFunc HS256 with
        | Err err => Err err
        | Ok key' => if negb (String.eqb key key') then Err "signature is invalid" else if in_force now claims then Ok (claims, true) else Err "token has invalid claims"
        end
    end |}.

#[export] Instance plainTokensLaws : TokenLibraryLaws.
Proof.
  constructor; cbn.
  - intros claims key text [= <-]. unfold token. by destruct (encode _).
  - intros now [sub role e i n] key text keyFunc [= <-] Hk. unfold token. rewrite number_bits. cbn [mbind option_bind clSubject clRole clExpiresAt clIssuedAt clNotBefore].
    rewrite decode_encode, Hk, String.eqb_refl. cbn [negb]. by destruct (in_force _ _).
  - intros now [sub role e i n] key key' text keyFunc [= <-] Hk _ _ Hne. unfold token. rewrite number_bits. cbn [mbind option_bind clSubject clRole clExpiresAt clIssuedAt clNotBefore].
    rewrite decode_encode, Hk. destruct (String.eqb_spec key key'); [congruence|done].
Qed.

Definition key : string := "0123456789abcdef0123456789abcdef".
Definition otherKey : string := "fedcba9876543210fedcba9876543210".
Definition salt : string := EncodeToString "0123456789abcdef".

(** An administrator whose password is "secret". *)
Definition live : Config := Default {{
  cfAdmin ::= fun admin => admin {{ auUsername := "admin"; auPasswordSalt := salt; auPasswordHash := hashWithSalt "secret" salt; auAuthenticationScheme := AuthSchemePassword }};
  cfAuth := {| acHmacSecret := EncodeBase64 key |} }}.

Definition anonymous : callContext := {| ccAPIKey := ""; ccRole := None |}.

Lemma live_secret : secret_is live key.
Proof. by split. Qed.

Lemma issued_token_rights_witness : exists token,
  (IssueToken 0 0 live AccessLevelReadOnly 3600 "kodi" noCache).2 = Reply (token, 3600%Z) /\
  (authorize (mounted "WorkflowService") (60 * Second) live (procedure "WorkflowService" "GetWorkflow") token anonymous noCache).2 = Reply {| ccAPIKey := token; ccRole := Some RoleReadOnly |} /\
  (authorize (mounted "WorkflowService") (60 * Second) live (procedure "WorkflowService" "DeleteWorkflow") token anonymous noCache).2 = Refused forbidden /\
  (authorize (mounted "WorkflowService") (3600 * Second) live (procedure "WorkflowService" "GetWorkflow") token anonymous noCache).2 = Refused unauthenticated.
Proof.
  assert (IssueToken 0 0 live AccessLevelReadOnly 3600 "kodi" noCache =
    ({| caEncoded := EncodeBase64 key; caDecoded := Some key |}, Reply (token (claimsAt 0 "kodi" RoleReadOnly 3600) key, 3600%Z))) as Hissue by (by vm_compute).
  pose proof (issued_token_rights 0 0 live key AccessLevelReadOnly 3600 "kodi" noCache _ _ _ live_secret noCache_ok Hissue) as Hrights.
  assert (exists methods, ("WorkflowService", methods) ∈ rpcs /\ "GetWorkflow" ∈ methods /\ "DeleteWorkflow" ∈ methods) as (methods & Hs & Hget & Hdelete).
  { exists ["CreateWorkflow"; "GetWorkflow"; "ListWorkflows"; "UpdateWorkflow"; "DeleteWorkflow"; "GetWorkflowVersion"; "ListWorkflowVersions"].
    split_and!; apply (bool_decide_eq_true_1 _); by vm_compute. }
  eexists. split_and!; [by rewrite Hissue|..].
  - exact (Hrights (60 * Second)%Z live anonymous noCache "WorkflowService" methods "GetWorkflow" eq_refl live_secret noCache_ok Hs Hget).
  - exact (Hrights (60 * Second)%Z live anonymous noCache "WorkflowService" methods "DeleteWorkflow" eq_refl live_secret noCache_ok Hs Hdelete).
  - exact (Hrights (3600 * Second)%Z live anonymous noCache "WorkflowService" methods "GetWorkflow" eq_refl live_secret noCache_ok Hs Hget).
Defined.

(** The account renamed. *)
Definition renamed : Config := live {{ cfAdmin ::= fun admin => admin {{ auUsername := "root" }} }}.

Definition rotated : Config := renamed {{ cfAuth ::= fun auth => auth {{ acHmacSecret := EncodeBase64 otherKey }} }}.

Lemma session_until_rotation_witness : exists token apply,
  (Login 0 0 live "admin" "secret" noCache).2 = Reply (token, sessionTTL) /\
  (authorize (mounted "AdminService") (60 * Second) renamed (procedure "AdminService" "UpdateAdminUser") token anonymous noCache).2 =
    Reply {| ccAPIKey := token; ccRole := Some RoleAdmin |} /\
  RotateHmacSecret (GenerateSecret (Ok otherKey)) = Mutate apply /\ apply renamed = Reply (rotated, tt) /\
  (authorize (mounted "AdminService") (60 * Second) rotated (procedure "AdminService" "UpdateAdminUser") token anonymous noCache).2 = Refused unauthenticated.
Proof.
  assert (Login 0 0 live "admin" "secret" noCache =
    ({| caEncoded := EncodeBase64 key; caDecoded := Some key |}, Reply (token (claimsAt 0 "admin" RoleAdmin sessionTTL) key, sessionTTL))) as Hlogin by (by vm_compute).
  pose proof (session_until_rotation 0 0 live key "admin" "secret" noCache _ _ _ live_secret noCache_ok Hlogin (60 * Second)%Z renamed anonymous noCache
    "AdminService" ["GetAdminUser"; "UpdateAdminUser"] "UpdateAdminUser" eq_refl noCache_ok ltac:(by left) ltac:(right; by left) eq_refl) as [Hsession Hrotated].
  assert (secret_is renamed key) as Hkey by (split; reflexivity). cbv zeta in Hsession, Hrotated.
  assert (0 / Second * Second <= 60 * Second < (0 / Second + sessionTTL) * Second)%Z as Hin by (split; [by apply Z.leb_le|by apply Z.ltb_lt]).
  eexists _, _. split; [by rewrite Hlogin|]. split; [exact (Hsession Hkey Hin)|]. split; [reflexivity|]. split; [reflexivity|].
  exact (Hrotated otherKey _ rotated eq_refl ltac:(by intros [=]) eq_refl eq_refl).
Defined.
End Sample.
