(* ===== verification/RateLimit.v ===== *)
(** The throttling of calls: connect_ratelimit.go of
    src/internal/server/httpserver, and rateLimit of middleware.go, which is one
    budget of the same kind. Calls arrive at the same time; the steps of
    [throttling] are the atomic operations of each. *)
From stdpp Require Import strings list gmap.
From Stdlib Require Import ZArith Lia.
From coqutil Require Import Datatypes.RecordSetters.
Import DoubleBraceUpdate.
From S2P Require Import Prelude Streams Auth.
#[local] Open Scope go_scope.

Definition ThrottledInterval : Z := 500000000.

(** A clock reading, time.Now().UnixNano(). *)
Definition reading (now : Z) : Prop := (0 <= now < 9223372036854775808)%Z.

(** Whether a reading is too soon after the last one that was let through. *)
Definition too_soon (interval now last : Z) : bool := (wrap64 (now - last) <? interval)%Z.

(** A call of [allow], by the step it has come to. *)
Inductive call : Type :=
| Arrived (method : string) (now : Z)
| Loaded (method : string) (now last : Z)
| LetThrough (method : string) (now : Z)
| TooMany (method : string) (now : Z).

(** The counters of the methods that have a budget, the calls, and the readings
    of those let through, in order. *)
Record limiter : Type := { lmLastNano : gmap string Z; lmCalls : gmap nat call; lmLet : list (string * Z) }.

Definition becomes (i : nat) (c : call) (s : limiter) : limiter := s {{ lmCalls ::= fun m => <[i := c]> m }}.

(** CompareAndSwap of a counter that was loaded as [last]. *)
Definition swapped (i : nat) (method : string) (now last current : Z) (s : limiter) : limiter :=
  if (current =? last)%Z
  then becomes i (LetThrough method now) (s {{ lmLastNano ::= fun m => <[method := now]> m; lmLet ::= fun l => l ++ [(method, now)] }})
  else becomes i (TooMany method now) s.

Inductive throttling (interval : Z) : limiter -> limiter -> Prop :=
| unthrottled i method now s :
    lmCalls s !! i = None -> lmLastNano s !! method = None -> throttling interval s (becomes i (LetThrough method now) s)
| arrives i method now last s :
    lmCalls s !! i = None -> lmLastNano s !! method = Some last -> reading now -> throttling interval s (becomes i (Arrived method now) s)
| loads i method now last s :
    lmCalls s !! i = Some (Arrived method now) -> lmLastNano s !! method = Some last ->
    throttling interval s (becomes i (if too_soon interval now last then TooMany method now else Loaded method now last) s)
| swaps i method now last current s :
    lmCalls s !! i = Some (Loaded method now last) -> lmLastNano s !! method = Some current -> throttling interval s (swapped i method now last current s).

(** What NewConnectRateLimitInterceptor builds. *)
Definition NewConnectRateLimitInterceptor (methods : list string) : limiter :=
  {| lmLastNano := list_to_map (map (fun method => (method, 0%Z)) methods); lmCalls := ∅; lmLet := [] |}.

(** * The budget *)

(** The readings of a method's calls that were let through. *)
Definition passed (method : string) (s : limiter) : list Z := omap (fun e => if String.eqb e.1 method then Some e.2 else None) (lmLet s).

Definition spaced (interval : Z) : list Z -> Prop := StronglySorted (fun a b => a + interval <= b)%Z.

(** The method of a call that was looked at. *)
Definition throttled (c : call) : option string := match c with Arrived m _ | Loaded m _ _ | TooMany m _ => Some m | LetThrough _ _ => None end.

Record within_budget (interval : Z) (methods : list string) (s : limiter) : Prop := {
  wb_spaced method : spaced interval (passed method s);
  wb_latest method : match lmLastNano s !! method with Some last => reading last /\ Forall (fun r => r <= last)%Z (passed method s) | None => passed method s = [] end;
  wb_calls i method now : lmCalls s !! i = Some (Arrived method now) -> reading now;
  wb_methods method last : lmLastNano s !! method = Some last -> method ∈ methods;
  wb_throttled i method : lmCalls s !! i ≫= throttled = Some method -> method ∈ methods;
  wb_loaded i method now last : lmCalls s !! i = Some (Loaded method now last) -> reading now /\ (last + interval <= now)%Z;
}.

Lemma too_soon_reading interval now last : reading now -> reading last -> too_soon interval now last = false <-> (last + interval <= now)%Z.
Proof. unfold reading, too_soon. intros Hn Hl. rewrite wrap64_small by lia. rewrite Z.ltb_ge. lia. Qed.

Lemma spaced_snoc interval l r : spaced interval l -> Forall (fun a => a + interval <= r)%Z l -> spaced interval (l ++ [r]).
Proof.
  intros Hl Hr. induction Hl as [|a l Hl IH Ha]; cbn; [repeat constructor|]. apply Forall_cons in Hr as [Har Hr]. constructor; [by apply IH|].
  apply Forall_app. split; [done|by constructor].
Qed.

Lemma passed_snoc method m now s l : lmLet s = l ++ [(m, now)] ->
  passed method s = omap (fun e => if String.eqb e.1 method then Some e.2 else None) l ++ if String.eqb m method then [now] else [].
Proof. intros Hl. unfold passed. rewrite Hl, omap_app. cbn. by destruct (String.eqb m method). Qed.

Lemma becomes_call i c s j : lmCalls (becomes i c s) !! j = if decide (j = i) then Some c else lmCalls s !! j.
Proof. unfold becomes. cbn. destruct (decide (j = i)) as [->|Hne]; [by rewrite lookup_insert_eq|by rewrite lookup_insert_ne]. Qed.

(** A call that goes on without passing. *)
Lemma within_budget_becomes interval methods i c s : within_budget interval methods s ->
  match c with Arrived _ now => reading now | Loaded _ now last => reading now /\ (last + interval <= now)%Z | _ => True end ->
  (forall method, throttled c = Some method -> method ∈ methods) -> within_budget interval methods (becomes i c s).
Proof.
  intros [Hs Hl Hc Hm Ht Hld] Hnew Hthr. constructor; [done|done|..|done| |].
  - intros j m now. rewrite becomes_call. destruct (decide (j = i)); [by intros [= ->]|apply Hc].
  - intros j m. rewrite becomes_call. destruct (decide (j = i)); [apply Hthr|apply Ht].
  - intros j m now last. rewrite becomes_call. destruct (decide (j = i)); [by intros [= ->]|apply Hld].
Qed.

Lemma within_budget_step interval methods s s' : (0 <= interval)%Z -> within_budget interval methods s -> throttling interval s s' -> within_budget interval methods s'.
Proof.
  intros Hi Hok Hstep. pose proof Hok as [Hs Hl Hc Hms Ht Hld]. destruct Hstep as [i m now s Hn Hm|i m now last s Hn Hm Hr|i m now last s Ha Hm|i m now last current s Hd Hm].
  - by apply within_budget_becomes.
  - apply within_budget_becomes; [done..|]. intros ? [= <-]. by eapply Hms.
  - apply within_budget_becomes; [done| |intros m' Hm'; eapply (Ht i); rewrite Ha; by destruct (too_soon _ _ _)]. pose proof (Hc _ _ _ Ha) as Hr.
    destruct (too_soon interval now last) eqn:Hsoon; [done|]. split; [done|]. apply too_soon_reading in Hsoon; [done|done|]. specialize (Hl m). rewrite Hm in Hl. apply Hl.
  - assert (m ∈ methods) as Hin by (by eapply Hms). unfold swapped. destruct (Z.eqb_spec current last) as [->|]; [|by apply within_budget_becomes; [| |intros ? [= <-]]].
    destruct (Hld _ _ _ _ Hd) as [Hr Hlast]. pose proof (Hl m) as Hlm. rewrite Hm in Hlm. destruct Hlm as [_ Hle]. apply within_budget_becomes; [|done..]. set (s1 := s {{ lmLastNano ::= _; lmLet ::= _ }}).
    assert (forall method, passed method s1 = passed method s ++ if String.eqb m method then [now] else []) as Hp by (intros method; by apply passed_snoc).
    constructor; [| |exact Hc| |exact Ht|exact Hld].
    + intros method. rewrite Hp. destruct (String.eqb_spec m method) as [<-|]; [|by rewrite app_nil_r]. apply spaced_snoc; [done|].
      eapply Forall_impl; [exact Hle|]. cbn. intros. lia.
    + intros method. rewrite Hp. cbn [lmLastNano s1]. destruct (String.eqb_spec m method) as [<-|Hne].
      * cbn. rewrite lookup_insert_eq. split; [done|]. apply Forall_app. split; [|by constructor]. eapply Forall_impl; [exact Hle|]. cbn. intros. lia.
      * cbn. rewrite lookup_insert_ne by done. rewrite app_nil_r. apply Hl.
    + intros method last'. cbn. intros [[<- _]|[_ Hm']]%lookup_insert_Some; [done|by eapply Hms].
Qed.

Lemma within_budget_reachable interval methods s : (0 <= interval)%Z -> rtc (throttling interval) (NewConnectRateLimitInterceptor methods) s -> within_budget interval methods s.
Proof.
  intros Hi Hr. assert (within_budget interval methods (NewConnectRateLimitInterceptor methods)) as H0.
  { assert (forall method last, lmLastNano (NewConnectRateLimitInterceptor methods) !! method = Some last -> last = 0%Z /\ method ∈ methods) as Hinit.
    { intros method last Hlast. cbn in Hlast. apply elem_of_list_to_map_2, list_elem_of_fmap in Hlast as (m & [= -> ->] & Hm). done. }
    constructor.
    - intros method. change (spaced interval []). constructor.
    - intros method. destruct (_ !! method) as [last|] eqn:Hlast; [|done]. apply Hinit in Hlast as [-> _]. by repeat constructor.
    - intros i method now Hc. cbn in Hc. by rewrite lookup_empty in Hc.
    - by intros method last [_ ?]%Hinit.
    - intros i method Hc. cbn in Hc. by rewrite lookup_empty in Hc.
    - intros i method now last Hc. cbn in Hc. by rewrite lookup_empty in Hc. }
  induction Hr as [s|s s' s'' Hstep _ IH]; [done|]. by eapply IH, within_budget_step.
Qed.

(** A stretch of time holds as many spaced readings as intervals fit into it. *)
Lemma spaced_count interval l a b : (0 < interval)%Z -> spaced interval l -> Forall (fun r => a <= r <= b)%Z l -> l <> [] -> (Z.of_nat (length l) <= (b - a) / interval + 1)%Z.
Proof.
  intros Hi Hl Hr Hne. assert (forall l a, spaced interval l -> Forall (fun r => a <= r <= b)%Z l -> l <> [] -> ((Z.of_nat (length l) - 1) * interval <= b - a)%Z) as Hcount.
  { clear -Hi. intros l a Hl. revert a. induction Hl as [|r l Hl IH Hle]; intros a Hr Hne; [done|]. apply Forall_cons in Hr as [Hra Hr]. cbn [length].
    destruct l as [|r' l]; [cbn; lia|]. assert ((Z.of_nat (length (r' :: l)) - 1) * interval <= b - (r + interval))%Z as Hrest; [|cbn [length] in *; lia].
    apply IH; [|done]. clear IH Hl Hne. induction Hle as [|x l2 Hx Hle IH]; [done|]. apply Forall_cons in Hr as [Hxr Hr]. constructor; [lia|by apply IH]. }
  pose proof (Hcount l a Hl Hr Hne) as Hc. assert (Z.of_nat (length l) - 1 <= (b - a) / interval)%Z; [|lia]. apply Z.div_le_lower_bound; lia.
Qed.

Lemma spaced_filter interval p l : spaced interval l -> spaced interval (List.filter p l).
Proof.
  intros Hl. induction Hl as [|a l Hl IH Ha]; cbn; [constructor|]. destruct (p a); [|done]. constructor; [done|].
  rewrite Forall_forall in *. intros x Hx. apply Ha. apply list_elem_of_In, filter_In in Hx as [Hx _]. by apply list_elem_of_In.
Qed.

(** C34: However calls interleave, and whatever the clock does, the calls of a
    method that are let through have readings at least the interval apart, in
    the order they pass; so a stretch of time on the clock lets no more through
    than intervals begin in it. A method without a budget is never held up. *)
Theorem throttled_budget interval methods s : (0 < interval)%Z -> rtc (throttling interval) (NewConnectRateLimitInterceptor methods) s ->
  (forall method, spaced interval (passed method s)) /\
  (forall method a b, (a <= b)%Z -> (Z.of_nat (length (List.filter (fun r => (a <=? r) && (r <=? b))%Z (passed method s))) <= (b - a) / interval + 1)%Z) /\
  (forall i method now, method ∉ methods -> lmCalls s !! i = Some (TooMany method now) -> False).
Proof.
  intros Hi Hr. pose proof (within_budget_reachable interval methods s ltac:(lia) Hr) as [Hs _ _ _ Ht _]. split_and!; [done|..].
  - intros method a b Hab. set (l := List.filter _ _). destruct (decide (l = [])) as [->|Hne]; [cbn; pose proof (Z.div_pos (b - a) interval); lia|].
    apply spaced_count; [done|by apply spaced_filter| |done]. apply Forall_forall. intros r Hin%list_elem_of_In. apply filter_In in Hin as [_ Hin%andb_true_iff]. lia.
  - intros i method now Hno Hc. apply Hno, (Ht i). by rewrite Hc.
Qed.

(** A call alone, long enough after the last one, is let through. *)
Lemma alone_let_through interval i method now last s : lmCalls s !! i = None -> lmLastNano s !! method = Some last -> reading now -> reading last ->
  (last + interval <= now)%Z -> exists s', rtc (throttling interval) s s' /\ lmCalls s' !! i = Some (LetThrough method now).
Proof.
  intros Hn Hm Hr Hl Hd. eexists. split.
  - eapply rtc_l; [by apply (arrives _ i method now last)|]. eapply rtc_l; [eapply (loads _ i method now last); [by rewrite becomes_call, decide_True|exact Hm]|].
    rewrite (proj2 (too_soon_reading interval now last Hr Hl) Hd). eapply rtc_l; [eapply (swaps _ i method now last last); [by rewrite becomes_call, decide_True|exact Hm]|]. apply rtc_refl.
  - unfold swapped. rewrite Z.eqb_refl. by rewrite becomes_call, decide_True.
Qed.

(** What holds from the moment a reading was let through, of the calls that come
    after it. *)
Record behind (interval : Z) (method : string) (ahead : Z) (s s' : limiter) : Prop := {
  bh_counter : exists last, lmLastNano s' !! method = Some last /\ (ahead <= last)%Z;
  bh_calls i : lmCalls s !! i = None -> match lmCalls s' !! i with
    | Some (Loaded m now last) => m = method -> (ahead <= last /\ last + interval <= now)%Z
    | Some (LetThrough m now) => m = method -> (ahead + interval <= now)%Z
    | _ => True
    end;
}.

Lemma behind_becomes interval method ahead s s' i c : behind interval method ahead s s' ->
  match c with
  | Loaded m now last => m = method -> (ahead <= last /\ last + interval <= now)%Z
  | LetThrough m now => m = method -> lmCalls s !! i = None -> (ahead + interval <= now)%Z
  | _ => True
  end -> behind interval method ahead s (becomes i c s').
Proof.
  intros [Hc Hs] Hnew. constructor; [done|]. intros j Hj. rewrite becomes_call. destruct (decide (j = i)) as [->|]; [|by apply Hs]. destruct c; eauto.
Qed.

Lemma behind_step interval methods method ahead s s1 s2 : (0 <= interval)%Z -> within_budget interval methods s1 ->
  behind interval method ahead s s1 -> throttling interval s1 s2 -> behind interval method ahead s s2.
Proof.
  intros Hi Hok Hb Hstep. pose proof Hb as [(latest & Hlatest & Hle) Hs].
  destruct Hstep as [i m now s1 Hn Hm|i m now last s1 Hn Hm Hr|i m now last s1 Ha Hm|i m now last current s1 Hd Hm].
  - apply behind_becomes; [done|]. intros ->. congruence.
  - by apply behind_becomes.
  - apply behind_becomes; [done|]. destruct (too_soon interval now last) eqn:Ht; [done|]. intros ->. rewrite Hlatest in Hm. injection Hm as ->. split; [done|].
    pose proof (wb_latest _ _ _ Hok method) as Hl. rewrite Hlatest in Hl. by apply (too_soon_reading _ _ _ (wb_calls _ _ _ Hok _ _ _ Ha) (proj1 Hl)).
  - unfold swapped. destruct (Z.eqb_spec current last) as [->|]; [|by apply behind_becomes].
    destruct (wb_loaded _ _ _ Hok _ _ _ _ Hd) as [_ Hnow]. apply behind_becomes.
    + constructor; [|exact Hs]. cbn. destruct (decide (m = method)) as [->|Hne]; [|rewrite lookup_insert_ne by done; eauto].
      rewrite lookup_insert_eq. exists now. split; [done|]. rewrite Hlatest in Hm. injection Hm as ->. lia.
    + intros -> Hnew. specialize (Hs i Hnew). rewrite Hd in Hs. specialize (Hs eq_refl). lia.
Qed.

Lemma behind_reachable interval methods method ahead s s1 s2 : (0 <= interval)%Z -> within_budget interval methods s1 ->
  behind interval method ahead s s1 -> rtc (throttling interval) s1 s2 -> behind interval method ahead s s2.
Proof.
  intros Hi Hok Hb Hr. induction Hr as [s1|s1 s1' s2 Hstep _ IH]; [done|]. apply IH; [by eapply within_budget_step|by eapply behind_step].
Qed.

(** Once the clock has been set back nothing gets through until it has caught
    up: after a call was let through at a reading, no call that arrives with an
    earlier one, or one less than the interval later, ever is, however much
    time has really passed. *)
Theorem clock_set_back interval methods s s' method ahead i now : (0 <= interval)%Z ->
  rtc (throttling interval) (NewConnectRateLimitInterceptor methods) s -> ahead ∈ passed method s -> lmCalls s !! i = None ->
  rtc (throttling interval) s s' -> lmCalls s' !! i = Some (LetThrough method now) -> (ahead + interval <= now)%Z.
Proof.
  intros Hi Hr Hin Hnew Hr' Hthrough. assert (behind interval method ahead s s' /\ within_budget interval methods s') as [[_ Hs] _].
  { pose proof (within_budget_reachable interval methods s Hi Hr) as Hok. assert (behind interval method ahead s s) as Hb.
    { constructor; [|intros j Hj; by rewrite Hj]. pose proof (wb_latest _ _ _ Hok method) as Hl. destruct (lmLastNano s !! method) as [last|].
      - exists last. split; [done|]. destruct Hl as [_ Hl]. rewrite Forall_forall in Hl. by apply Hl.
      - rewrite Hl in Hin. by apply elem_of_nil in Hin. }
    split; [|apply (within_budget_reachable _ _ _ Hi); by transitivity s]. by eapply behind_reachable. }
  specialize (Hs i Hnew). rewrite Hthrough in Hs. by apply Hs.
Qed.

(** * Two sign-ins *)

Module Sample.
Notation run := (throttling ThrottledInterval).
Definition start : limiter := NewConnectRateLimitInterceptor ["Login"; "Logout"].
Definition hour : Z := 3600000000000.

(** A call that is let through at the first hour. *)
Lemma first_through : exists s, rtc run start s /\ passed "Login" s = [hour] /\ lmCalls s !! 1%nat = None /\ lmLastNano s !! "Login" = Some hour.
Proof.
  eexists. split; [|split; [|split]].
  - eapply rtc_l; [by apply (arrives _ 0 "Login" hour 0)|]. eapply rtc_l; [by apply (loads _ 0 "Login" hour 0)|].
    eapply rtc_l; [by apply (swaps _ 0 "Login" hour 0 0)|]. apply rtc_refl.
  - reflexivity.
  - reflexivity.
  - reflexivity.
Qed.

Lemma throttled_budget_witness : exists s, rtc run start s /\ passed "Login" s = [hour] /\
  (Z.of_nat (length (List.filter (fun r => (0 <=? r) && (r <=? hour))%Z (passed "Login" s))) <= (hour - 0) / ThrottledInterval + 1)%Z.
Proof.
  destruct first_through as (s & Hr & Hp & _). exists s. split_and!; [exact Hr|exact Hp|].
  apply (throttled_budget ThrottledInterval ["Login"; "Logout"] s ltac:(done) Hr). by apply Z.leb_le.
Defined.

(** The clock is set back by half an hour: calls that come next are turned away. *)
Lemma clock_set_back_witness : exists s, rtc run start s /\ (hour / 2 < hour)%Z /\
  forall s', rtc run s s' -> lmCalls s' !! 1%nat = Some (LetThrough "Login" (hour / 2)) -> False.
Proof.
  destruct first_through as (s & Hr & Hp & Hn & _). exists s. split_and!; [exact Hr|by apply Z.ltb_lt|]. intros s' Hr' Hthrough.
  assert (hour + ThrottledInterval <= hour / 2)%Z as Hle.
  { apply (clock_set_back ThrottledInterval ["Login"; "Logout"] s s' "Login" hour 1 (hour / 2)); [by apply Z.leb_le|exact Hr|rewrite Hp; by left|exact Hn|exact Hr'|exact Hthrough]. }
  apply Z.leb_le in Hle. discriminate Hle.
Defined.
End Sample.
