(* ===== verification/BootstrapRun.v ===== *)
(** What a start of the server seeds: internal/server/bootstrap and
    appconfigstore/admin_seed.go, over the store of ConfigStore. What rand.Read
    would fill each buffer with is an input, and each draw is recorded. *)
From stdpp Require Import strings list gmap.
From Stdlib Require Import Ascii ZArith Lia.
From coqutil Require Import Datatypes.RecordSetters.
Import DoubleBraceUpdate.
From S2P Require Import Prelude Sidecar Streams AppConfig ConfigStore Services ConfigServices ConfigInvariant Crypto Auth AuthRights.
#[local] Open Scope go_scope.

(** * The admin account *)

Definition defaultAdminPasswordChars : nat := 12.

Record AdminSeedResult : Type := { asUsername : string; asPassword : string; asRecovered : bool }.
Definition nothingSeeded : AdminSeedResult := {| asUsername := ""; asPassword := ""; asRecovered := false |}.

(** The random bytes a start may draw, in the order it would, and which of them
    were drawn. *)
Record drawn : Type := { drPassword : result string; drSalt : result string; drSecret : result string }.

Inductive draw : Type := PasswordBytes | SaltBytes | SecretBytes.

Definition ReadRandom (d : drawn) (what : draw) (taken : list draw) : list draw * result string :=
  (taken ++ [what], match what with PasswordBytes => drPassword d | SaltBytes => drSalt d | SecretBytes => drSecret d end).

(** rand.Read fills what it is given. *)
Definition drawn_ok (d : drawn) : Prop :=
  (forall s, drPassword d = Ok s -> String.length s = defaultAdminPasswordChars) /\ (forall s, drSalt d = Ok s -> String.length s = saltBytesLength) /\
  (forall s, drSecret d = Ok s -> String.length s = secretBytes).

Definition generateAdminCredentials (d : drawn) (taken : list draw) : list draw * result (string * string * string) :=
  let (taken, random) := ReadRandom d PasswordBytes taken in
  match GenerateRandomPassword random with
  | Err err => (taken, Err err)
  | Ok password =>
      let (taken, random) := ReadRandom d SaltBytes taken in
      (taken, try credential := Hash random password in Ok (password, credential.1, credential.2))
  end.

Definition recoverLockedOutAdmin (d : drawn) (admin : AdminUser) (taken : list draw) : list draw * result (AdminUser * string * bool) :=
  if String.eqb (auUsername admin) "" then (taken, Ok (admin, "", false))
  else if negb (String.eqb (auPasswordSalt admin) "") && negb (String.eqb (auPasswordHash admin) "") then (taken, Ok (admin, "", false))
  else
    let (taken, credentials) := generateAdminCredentials d taken in
    (taken, try credentials := credentials in
            let '(password, salt, hash) := credentials in
            Ok (admin {{ auPasswordSalt := salt; auPasswordHash := hash }}, password, true)).

(** The closure of SeedAdmin. *)
Definition seedAdmin (d : drawn) (cfg : Config) (taken : list draw) : list draw * reply string (Config * bool * AdminSeedResult) :=
  if String.eqb (auUsername (cfAdmin cfg)) "" then
    match generateAdminCredentials d taken with
    | (taken, Err err) => (taken, Refused err)
    | (taken, Ok (password, salt, hash)) =>
        let (username, email) := DefaultAdminIdentity in
        let admin := {| auUsername := username; auEmail := email; auPasswordSalt := salt; auPasswordHash := hash; auAuthenticationScheme := AuthSchemeNone |} in
        (taken, Reply (cfg {{ cfAdmin := admin }}, true, {| asUsername := username; asPassword := password; asRecovered := false |}))
    end
  else
    match recoverLockedOutAdmin d (cfAdmin cfg) taken with
    | (taken, Err err) => (taken, Refused err)
    | (taken, Ok (_, _, false)) => (taken, Reply (cfg, false, nothingSeeded))
    | (taken, Ok (admin, password, true)) =>
        (taken, Reply (cfg {{ cfAdmin := admin }}, true, {| asUsername := auUsername admin; asPassword := password; asRecovered := true |}))
    end.

(** * The other steps *)

(** What the steps act on: the document, what they report, and what they draw. *)
Record seeding : Type := { seConfig : Config; seAdded : nat; seGenerated : bool; seTaken : list draw }.

Definition step : Type := seeding -> seeding * result bool.

Definition seed (f : Config -> Config) (s : seeding) : seeding := s {{ seConfig ::= f }}.

Definition directoryScannerDefaultsStep : step := fun s =>
  if negb (dsParallelCount (cfDirectoryScanner (seConfig s)) =? 0)%Z then (s, Ok false)
  else (seed (changeScanner (fun d => d {{ dsParallelCount := dsParallelCount (cfDirectoryScanner Default); dsScanDirectories := [] }})) s, Ok true).

Definition sidecarTypesSeedStep : step := fun s =>
  match sidecarTypes (seConfig s) with
  | _ :: _ => (s, Ok false)
  | [] => (seed (setSidecarTypes DefaultSidecarTypes) s, Ok true)
  end.

Definition loggingDefaultsStep : step := fun s =>
  if negb (String.eqb (lcServerLevel (cfLogging (seConfig s))) "") then (s, Ok false)
  else (seed (fun c => c {{ cfLogging := cfLogging Default }}) s, Ok true).

Definition eventBusDefaultsStep : step := fun s =>
  if negb (ebRetentionHours (cfEventBus (seConfig s)) =? 0)%Z then (s, Ok false)
  else (seed (fun c => c {{ cfEventBus := cfEventBus Default }}) s, Ok true).

Definition sidecarTypesMergeMissingStep : step := fun s =>
  let (merged, n) := MergeMissingSidecarTypes (sidecarTypes (seConfig s)) in
  match n with
  | O => (s, Ok false)
  | _ => ((seed (setSidecarTypes merged) s) {{ seAdded := n }}, Ok true)
  end.

Definition hmacSecretSeedStep (d : drawn) : step := fun s =>
  if negb (String.eqb (acHmacSecret (cfAuth (seConfig s))) "") then (s, Ok false)
  else
    let (taken, random) := ReadRandom d SecretBytes (seTaken s) in
    let s := s {{ seTaken := taken }} in
    match GenerateSecret random with
    | Err err => (s, Err err)
    | Ok secret => ((seed (fun c => c {{ cfAuth ::= fun auth => auth {{ acHmacSecret := secret }} }}) s) {{ seGenerated := true }}, Ok true)
    end.

Definition steps (d : drawn) : list (string * step) := [
  ("directory_scanner_defaults", directoryScannerDefaultsStep); ("sidecar_types_seed", sidecarTypesSeedStep); ("logging_defaults", loggingDefaultsStep);
  ("event_bus_defaults", eventBusDefaultsStep); ("sidecar_types_merge_missing", sidecarTypesMergeMissingStep); ("hmac_secret_seed", hmacSecretSeedStep d)].

Fixpoint runSteps (l : list (string * step)) (s : seeding) (anyChanged : bool) : seeding * result bool :=
  match l with
  | [] => (s, Ok anyChanged)
  | (name, apply) :: rest =>
      match apply s with
      | (s', Err err) => (s', Err ("step " +:+ quote name +:+ ": " +:+ err))
      | (s', Ok changed) => runSteps rest s' (anyChanged || changed)
      end
  end.

Definition staticConfigSteps (d : drawn) (cfg : Config) (taken : list draw) : list draw * reply string (Config * bool * (nat * bool)) :=
  match runSteps (steps d) {| seConfig := cfg; seAdded := 0; seGenerated := false; seTaken := taken |} false with
  | (s, Err err) => (seTaken s, Refused err)
  | (s, Ok changed) => (seTaken s, Reply (seConfig s, changed, (seAdded s, seGenerated s)))
  end.

(** * A start *)

Record Report : Type := { rpAdmin : AdminSeedResult; rpSidecarTypesAdded : nat; rpHmacSecretGenerated : bool; rpFinalConfig : Config }.

Section run.
Context `{ConfigCollection}.

Definition SeedAdmin (d : drawn) (db : database) (taken : list draw) : (database * list draw) * reply string (Config * AdminSeedResult) :=
  Bootstrap id (seedAdmin d) db taken.

Definition Run (d : drawn) (db : database) : (database * list draw) * reply string Report :=
  match SeedAdmin d db [] with
  | (st, Refused err) => (st, Refused ("bootstrap step " +:+ quote "admin_seed" +:+ ": " +:+ err))
  | ((db', taken), Reply (_, admin)) =>
      match Bootstrap id (staticConfigSteps d) db' taken with
      | (st, Refused err) => (st, Refused ("bootstrap: " +:+ err))
      | (st, Reply (final, (added, generated))) =>
          (st, Reply {| rpAdmin := admin; rpSidecarTypesAdded := added; rpHmacSecretGenerated := generated; rpFinalConfig := final |})
      end
  end.

(** The credentials main.go prints: those of a start that succeeds. *)
Definition printed (r : reply string Report) : option (string * string) :=
  match r with
  | Refused _ => None
  | Reply report => if asRecovered (rpAdmin report) || negb (String.eqb (asPassword (rpAdmin report)) "") then Some (asUsername (rpAdmin report), asPassword (rpAdmin report)) else None
  end.
End run.

(** * Once the built-in types are merged, none is missing *)

Lemma default_types : DefaultSidecarTypes <> [].
Proof. done. Qed.

#[local] Opaque DefaultSidecarTypes.
#[local] Arguments MergeMissingSidecarTypes : simpl never.
#[local] Arguments GenerateSecret : simpl never.

Lemma mergeStored_ids stored : (mMerged (mergeStored stored), mAdded (mergeStored stored)) = (stored, 0%nat) /\ forall id, id ∈ mIds (mergeStored stored) <-> id ∈ map eId stored.
Proof.
  unfold mergeStored. assert (forall l m, let m' := foldl (fun m entry => {| mMerged := mMerged m; mAdded := mAdded m; mIds := {[eId entry]} ∪ mIds m;
    mOrders := if (eOrder entry =? 0)%Z then mOrders m else {[eOrder entry]} ∪ mOrders m;
    mHighest := if (eOrder entry =? 0)%Z then mHighest m else if (mHighest m <? eOrder entry)%Z then eOrder entry else mHighest m |}) m l in
    mMerged m' = mMerged m /\ mAdded m' = mAdded m /\ forall id, id ∈ mIds m' <-> id ∈ mIds m \/ id ∈ map eId l) as Hfold.
  { induction l as [|e l IH]; intros m; cbn; [split_and!; [done..|]; intros id; split; [by left|by intros [|?%elem_of_nil]]|].
    destruct (IH {| mMerged := mMerged m; mAdded := mAdded m; mIds := {[eId e]} ∪ mIds m; mOrders := if (eOrder e =? 0)%Z then mOrders m else {[eOrder e]} ∪ mOrders m;
      mHighest := if (eOrder e =? 0)%Z then mHighest m else if (mHighest m <? eOrder e)%Z then eOrder e else mHighest m |}) as (Hm & Ha & Hids).
    split_and!; [done..|]. intros id. rewrite Hids. cbn. rewrite elem_of_cons. set_solver. }
  destruct (Hfold stored {| mMerged := stored; mAdded := 0; mIds := ∅; mOrders := ∅; mHighest := 0 |}) as (Hm & Ha & Hids). cbv zeta in *.
  split; [by rewrite Hm, Ha|]. intros id. rewrite Hids. cbn. set_solver.
Qed.

Lemma mergeOne_ids m d : (forall id, id ∈ mIds m <-> id ∈ map eId (mMerged m)) ->
  (forall id, id ∈ mIds (mergeOne m d) <-> id ∈ map eId (mMerged (mergeOne m d))) /\ eId d ∈ map eId (mMerged (mergeOne m d)) /\ mMerged m `prefix_of` mMerged (mergeOne m d).
Proof.
  intros Hids. unfold mergeOne. destruct (decide (eId d ∈ mIds m)) as [Hin|Hno]; [split_and!; [done|by apply Hids|done]|].
  set (p := if decide (eOrder d ∈ mOrders m) then _ else _). assert (eId p.1 = eId d) as Hp by (subst p; by destruct (decide _)). destruct p as [d' highest]. cbn in Hp. subst. cbn.
  rewrite map_app. cbn. rewrite Hp. split_and!; [intros id; rewrite elem_of_app, list_elem_of_singleton, <- Hids; set_solver|set_solver|by apply prefix_app_r].
Qed.

Lemma merge_ids ds m : (forall id, id ∈ mIds m <-> id ∈ map eId (mMerged m)) ->
  mMerged m `prefix_of` mMerged (foldl mergeOne m ds) /\ forall d, d ∈ ds -> eId d ∈ map eId (mMerged (foldl mergeOne m ds)).
Proof.
  revert m. induction ds as [|d ds IH]; intros m Hids; cbn; [split; [done|by intros ? ?%elem_of_nil]|].
  destruct (mergeOne_ids m d Hids) as (Hids' & Hd & Hpre). destruct (IH _ Hids') as [Hpre' Hds]. split; [by etrans|].
  intros x [->|Hx]%elem_of_cons; [|by apply Hds]. destruct Hpre' as [l ->]. rewrite map_app. apply elem_of_app. by left.
Qed.

Lemma merge_nothing stored : stored <> [] -> (forall d, d ∈ DefaultSidecarTypes -> eId d ∈ map eId stored) -> MergeMissingSidecarTypes stored = (stored, 0%nat).
Proof.
  intros Hne Hall. destruct (mergeStored_ids stored) as [Hm Hids]. unfold MergeMissingSidecarTypes. destruct stored as [|e l]; [done|]. generalize dependent (e :: l). intros stored _ Hall Hm Hids.
  assert (foldl mergeOne (mergeStored stored) DefaultSidecarTypes = mergeStored stored) as ->; [|exact Hm].
  induction DefaultSidecarTypes as [|d ds IH]; [done|]. cbn. assert (mergeOne (mergeStored stored) d = mergeStored stored) as ->.
  { unfold mergeOne. rewrite decide_True; [done|]. apply Hids, Hall. by left. }
  apply IH. intros x Hx. apply Hall. by right.
Qed.

Lemma MergeMissing_fold stored : stored <> [] ->
  MergeMissingSidecarTypes stored = (mMerged (foldl mergeOne (mergeStored stored) DefaultSidecarTypes), mAdded (foldl mergeOne (mergeStored stored) DefaultSidecarTypes)).
Proof. intros Hne. unfold MergeMissingSidecarTypes. destruct stored as [|e l]; [congruence|]. cbv zeta. reflexivity. Qed.

Lemma merge_all stored ds : stored <> [] -> let merged := mMerged (foldl mergeOne (mergeStored stored) ds) in
  merged <> [] /\ forall d, d ∈ ds -> eId d ∈ map eId merged.
Proof.
  intros Hne. destruct (mergeStored_ids stored) as [Hm Hids]. apply (f_equal fst) in Hm. cbn [fst] in Hm. cbv zeta.
  assert (forall id, id ∈ mIds (mergeStored stored) <-> id ∈ map eId (mMerged (mergeStored stored))) as Hstart by (intros id; by rewrite Hm).
  destruct (merge_ids ds (mergeStored stored) Hstart) as [[l Hpre] Hall]. split; [|exact Hall]. rewrite Hpre, Hm. by destruct stored.
Qed.

Lemma merge_idempotent stored : stored <> [] ->
  MergeMissingSidecarTypes (MergeMissingSidecarTypes stored).1 = ((MergeMissingSidecarTypes stored).1, 0%nat) /\ (MergeMissingSidecarTypes stored).1 <> [].
Proof.
  intros Hne. rewrite (MergeMissing_fold stored Hne). cbn [fst]. destruct (merge_all stored DefaultSidecarTypes Hne) as [Hne' Hall]. cbv zeta in *.
  split; [|exact Hne']. apply merge_nothing; [exact Hne'|exact Hall].
Qed.

Lemma default_merged : MergeMissingSidecarTypes DefaultSidecarTypes = (DefaultSidecarTypes, 0%nat).
Proof. apply merge_nothing; [done|]. intros d Hd. by apply list_elem_of_fmap_2. Qed.

(** * What the steps leave *)

(** Every section is there. *)
Record seeded (c : Config) : Prop := {
  sd_parallel : dsParallelCount (cfDirectoryScanner c) <> 0%Z;
  sd_types : sidecarTypes c <> [];
  sd_builtin : MergeMissingSidecarTypes (sidecarTypes c) = (sidecarTypes c, 0%nat);
  sd_level : lcServerLevel (cfLogging c) <> "";
  sd_retention : ebRetentionHours (cfEventBus c) <> 0%Z;
  sd_secret : acHmacSecret (cfAuth c) <> "";
}.

Lemma seeded_static d c taken : seeded c -> staticConfigSteps d c taken = (taken, Reply (c, false, (0%nat, false))).
Proof.
  intros [Hp Ht Hb Hl Hr Hs]. unfold staticConfigSteps. cbn [steps runSteps]. unfold directoryScannerDefaultsStep. cbn [seConfig]. apply Z.eqb_neq in Hp as ->. cbn [negb orb].
  unfold sidecarTypesSeedStep. cbn [seConfig]. destruct (sidecarTypes c) as [|e l] eqn:Htypes; [done|]. unfold loggingDefaultsStep. cbn [seConfig orb]. apply String.eqb_neq in Hl as ->.
  unfold eventBusDefaultsStep. cbn [seConfig negb orb]. apply Z.eqb_neq in Hr as ->. cbn [negb orb]. unfold sidecarTypesMergeMissingStep. cbn [seConfig]. rewrite Htypes, Hb.
  unfold hmacSecretSeedStep. cbn [seConfig orb]. apply String.eqb_neq in Hs as ->. done.
Qed.

(** What each step makes of its section. *)
Definition seedParallel (sc : DirectoryScannerConfig) : DirectoryScannerConfig :=
  if (dsParallelCount sc =? 0)%Z then {| dsParallelCount := defaultParallelCount; dsScanDirectories := []; dsSidecarTypes := dsSidecarTypes sc |} else sc.
Definition seedTypes (types : list Entry) : list Entry := match types with [] => DefaultSidecarTypes | _ => types end.
Definition seedLogging (l : LoggingConfig) : LoggingConfig := if String.eqb (lcServerLevel l) "" then defaultLogging else l.
Definition seedEventBus (b : EventBusConfig) : EventBusConfig := if (ebRetentionHours b =? 0)%Z then defaultEventBus else b.
Definition mergeTypes (types : list Entry) : list Entry := (MergeMissingSidecarTypes types).1.

(** A step that always answers, and says truly whether it changed anything. *)
Definition does (f : Config -> Config) (apply : step) : Prop :=
  forall c n g t, exists changed n', apply {| seConfig := c; seAdded := n; seGenerated := g; seTaken := t |} = ({| seConfig := f c; seAdded := n'; seGenerated := g; seTaken := t |}, Ok changed) /\
    (changed = false -> f c = c /\ n' = n).

(** What the merge counts. *)
Lemma seed_types (types : list Entry) : MergeMissingSidecarTypes types = (types, 0%nat) \/ exists merged n, MergeMissingSidecarTypes types = (merged, S n).
Proof.
  destruct types as [|e l]; [by left|]. rewrite (MergeMissing_fold (e :: l) ltac:(done)).
  assert (forall ds m, mAdded (foldl mergeOne m ds) = mAdded m /\ mMerged (foldl mergeOne m ds) = mMerged m \/ (mAdded m < mAdded (foldl mergeOne m ds))%nat) as Hadd.
  { induction ds as [|d ds IH]; intros m; cbn; [by left|]. assert (mergeOne m d = m \/ mAdded (mergeOne m d) = S (mAdded m)) as [->|Hs]; [|apply IH|].
    - unfold mergeOne. destruct (decide _); [by left|]. right. by destruct (if decide _ then _ else _).
    - right. destruct (IH (mergeOne m d)) as [[-> _]|]; lia. }
  destruct (mergeStored_ids (e :: l)) as [Hm _]. destruct (Hadd DefaultSidecarTypes (mergeStored (e :: l))) as [[-> ->]|Hlt]; [by left|right].
  destruct (mAdded (foldl _ _ _)) as [|n]; [lia|]. by eexists _, n.
Qed.

Lemma directoryScannerDefaultsStep_does : does (changeScanner seedParallel) directoryScannerDefaultsStep.
Proof.
  intros [ad ifs [p dirs types] ag lg eb au] n g. unfold directoryScannerDefaultsStep, seed, seedParallel, changeScanner, constant. cbn.
  destruct (p =? 0)%Z eqn:Hp; cbn; [by exists true, n|exists false, n]. by split.
Qed.

Lemma sidecarTypesSeedStep_does : does (changeScanner (fun d => d {{ dsSidecarTypes ::= seedTypes }})) sidecarTypesSeedStep.
Proof.
  intros [ad ifs [p dirs types] ag lg eb au] n g. unfold sidecarTypesSeedStep, seed, seedTypes, setSidecarTypes, sidecarTypes, changeScanner, constant. cbn.
  destruct types as [|e l]; [by exists true, n|exists false, n]. by split.
Qed.

Lemma loggingDefaultsStep_does : does (fun c => c {{ cfLogging ::= seedLogging }}) loggingDefaultsStep.
Proof.
  intros [ad ifs sc ag [lv sk ep st] eb au] n g. unfold loggingDefaultsStep, seed, seedLogging, constant. cbn.
  destruct (String.eqb lv ""); [by exists true, n|exists false, n]. by split.
Qed.

Lemma eventBusDefaultsStep_does : does (fun c => c {{ cfEventBus ::= seedEventBus }}) eventBusDefaultsStep.
Proof.
  intros [ad ifs sc ag lg [ml rh ra rb rm] au] n g. unfold eventBusDefaultsStep, seed, seedEventBus, constant. cbn.
  destruct (rh =? 0)%Z; [by exists true, n|exists false, n]. by split.
Qed.

Lemma sidecarTypesMergeMissingStep_does : does (changeScanner (fun d => d {{ dsSidecarTypes ::= mergeTypes }})) sidecarTypesMergeMissingStep.
Proof.
  intros [ad ifs [p dirs types] ag lg eb au] n g. unfold sidecarTypesMergeMissingStep, seed, mergeTypes, setSidecarTypes, sidecarTypes, changeScanner, constant. cbn.
  destruct (seed_types types) as [->|(merged & m & ->)]; cbn; [exists false, n; by split|by exists true, (S m)].
Qed.

Lemma runSteps_does f name apply rest c n g t any : does f apply -> exists changed n',
  runSteps ((name, apply) :: rest) {| seConfig := c; seAdded := n; seGenerated := g; seTaken := t |} any =
  runSteps rest {| seConfig := f c; seAdded := n'; seGenerated := g; seTaken := t |} (any || changed) /\
  (changed = false -> f c = c /\ n' = n).
Proof. intros Hdoes. destruct (Hdoes c n g t) as (changed & n' & Ha & Hc). exists changed, n'. cbn [runSteps]. rewrite Ha. by split. Qed.

(** A document with another secret. *)
Definition withSecret (c : Config) (secret : string) : Config := {|
  cfAdmin := cfAdmin c; cfInterfaces := cfInterfaces c; cfDirectoryScanner := cfDirectoryScanner c; cfAgents := cfAgents c; cfLogging := cfLogging c; cfEventBus := cfEventBus c;
  cfAuth := {| acHmacSecret := secret |} |}.

Lemma hmacSecretSeedStep_does d c n g t : hmacSecretSeedStep d {| seConfig := c; seAdded := n; seGenerated := g; seTaken := t |} =
  if String.eqb (acHmacSecret (cfAuth c)) "" then
    match GenerateSecret (drSecret d) with
    | Err err => ({| seConfig := c; seAdded := n; seGenerated := g; seTaken := t ++ [SecretBytes] |}, Err err)
    | Ok secret => ({| seConfig := withSecret c secret; seAdded := n; seGenerated := true; seTaken := t ++ [SecretBytes] |}, Ok true)
    end
  else ({| seConfig := withSecret c (acHmacSecret (cfAuth c)); seAdded := n; seGenerated := g; seTaken := t |}, Ok false).
Proof. unfold hmacSecretSeedStep. cbn [seConfig]. destruct c as [? ? ? ? ? ? [secret]]. cbn. by destruct (String.eqb secret ""). Qed.

(** The sections a start leaves, given the secret. *)
Definition seedSections (c : Config) (secret : string) : Config := {|
  cfAdmin := cfAdmin c; cfInterfaces := cfInterfaces c;
  cfDirectoryScanner := {|
    dsParallelCount := dsParallelCount (seedParallel (cfDirectoryScanner c)); dsScanDirectories := dsScanDirectories (seedParallel (cfDirectoryScanner c));
    dsSidecarTypes := mergeTypes (seedTypes (sidecarTypes c)) |};
  cfAgents := cfAgents c; cfLogging := seedLogging (cfLogging c); cfEventBus := seedEventBus (cfEventBus c); cfAuth := {| acHmacSecret := secret |} |}.

Lemma static_steps d c c' changed added generated taken taken' : staticConfigSteps d c taken = (taken', Reply (c', changed, (added, generated))) ->
  exists secret, c' = seedSections c secret /\
    (if String.eqb (acHmacSecret (cfAuth c)) "" then GenerateSecret (drSecret d) = Ok secret /\ generated = true /\ taken' = taken ++ [SecretBytes] else secret = acHmacSecret (cfAuth c) /\ generated = false /\ taken' = taken) /\
    (changed = false -> c' = c /\ added = 0%nat).
Proof.
  unfold staticConfigSteps, steps.
  destruct (runSteps_does _ "directory_scanner_defaults" _ (drop 1 (steps d)) c 0 false taken false directoryScannerDefaultsStep_does) as (b1 & n1 & H1 & Hc1).
  destruct (runSteps_does _ "sidecar_types_seed" _ (drop 2 (steps d)) (changeScanner seedParallel c) n1 false taken (false || b1) sidecarTypesSeedStep_does) as (b2 & n2 & H2 & Hc2).
  set (c2 := changeScanner _ (changeScanner _ c)) in *.
  destruct (runSteps_does _ "logging_defaults" _ (drop 3 (steps d)) c2 n2 false taken (false || b1 || b2) loggingDefaultsStep_does) as (b3 & n3 & H3 & Hc3). cbv beta in H3, Hc3.
  set (c3 := c2 {{ cfLogging ::= _ }}) in *.
  destruct (runSteps_does _ "event_bus_defaults" _ (drop 4 (steps d)) c3 n3 false taken (false || b1 || b2 || b3) eventBusDefaultsStep_does) as (b4 & n4 & H4 & Hc4). cbv beta in H4, Hc4.
  set (c4 := c3 {{ cfEventBus ::= _ }}) in *.
  destruct (runSteps_does _ "sidecar_types_merge_missing" _ (drop 5 (steps d)) c4 n4 false taken (false || b1 || b2 || b3 || b4) sidecarTypesMergeMissingStep_does) as (b5 & n5 & H5 & Hc5).
  set (c5 := changeScanner _ c4) in *. cbn [drop steps] in H1, H2, H3, H4, H5. rewrite H1, H2, H3, H4, H5. clear H1 H2 H3 H4 H5.
  assert (forall secret, withSecret c5 secret = seedSections c secret) as Hc5' by (intros secret; subst c5 c4 c3 c2; destruct c as [ad ifs [p di ty] ag lg eb au]; unfold withSecret, seedSections, changeScanner, sidecarTypes, seedParallel; cbn; by destruct (p =? 0)%Z).
  assert (cfAuth c5 = cfAuth c) as Hauth by (by destruct c). cbn [runSteps]. rewrite hmacSecretSeedStep_does, Hauth, Hc5'.
  destruct (String.eqb (acHmacSecret (cfAuth c)) "").
  - destruct (GenerateSecret (drSecret d)) as [secret|]; [|done]. rewrite Hc5', orb_true_r. intros [= <- <- <- <- <-]. by exists secret.
  - intros [= <- <- <- <- <-]. exists (acHmacSecret (cfAuth c)). split_and!; [done..|].
    rewrite orb_false_r. intros Hch. repeat (apply orb_false_iff in Hch as [Hch ?]; subst). subst.
    destruct (Hc1 eq_refl) as [Hc1' ->], (Hc2 eq_refl) as [Hc2' ->], (Hc3 eq_refl) as [Hc3' ->], (Hc4 eq_refl) as [Hc4' ->], (Hc5 eq_refl) as [Hc5'' ->].
    split; [|done]. rewrite <- Hc5', <- Hauth. assert (c5 = c) as -> by congruence. by destruct c as [? ? ? ? ? ? []].
Qed.

Lemma seedSections_seeded c secret : secret <> "" -> seeded (seedSections c secret).
Proof.
  intros Hs. assert (seedTypes (sidecarTypes c) <> []) as Hne by (unfold seedTypes; destruct (sidecarTypes c); [apply default_types|done]).
  destruct (merge_idempotent (seedTypes (sidecarTypes c)) Hne) as [Hidem Hne']. fold (mergeTypes (seedTypes (sidecarTypes c))) in Hidem, Hne'.
  constructor; [|exact Hne'|exact Hidem| | |exact Hs].
  - cbn. unfold seedParallel. by destruct (Z.eqb_spec (dsParallelCount (cfDirectoryScanner c)) 0).
  - cbn. unfold seedLogging. by destruct (String.eqb_spec (lcServerLevel (cfLogging c)) "").
  - cbn. unfold seedEventBus. by destruct (Z.eqb_spec (ebRetentionHours (cfEventBus c)) 0).
Qed.

(** ** The account *)

Definition account_ok (admin : AdminUser) : Prop := auUsername admin <> "" /\ auPasswordSalt admin <> "" /\ auPasswordHash admin <> "".

Definition withAdmin (c : Config) (admin : AdminUser) : Config := {|
  cfAdmin := admin; cfInterfaces := cfInterfaces c; cfDirectoryScanner := cfDirectoryScanner c; cfAgents := cfAgents c; cfLogging := cfLogging c; cfEventBus := cfEventBus c;
  cfAuth := cfAuth c |}.

Lemma generateAdminCredentials_spec d taken taken' password salt hash : drawn_ok d -> generateAdminCredentials d taken = (taken', Ok (password, salt, hash)) ->
  (password <> "" /\ salt <> "" /\ hash <> "" /\ Verify password salt hash = true) /\ taken' = taken ++ [PasswordBytes; SaltBytes].
Proof.
  intros (Hp & Hs & _). unfold generateAdminCredentials. cbn [ReadRandom]. destruct (GenerateRandomPassword (drPassword d)) as [pw|] eqn:Hpw; [|done]. cbn [rbind].
  apply GenerateRandomPassword_chars in Hpw as (raw & Hraw & Hlen & _). destruct (Hash (drSalt d) pw) as [[sa ha]|] eqn:Hh; [|done]. cbn [rbind]. intros [= <- <- <- <-]. split; [|by rewrite <- app_assoc].
  destruct (drSalt d) as [bytes|] eqn:Hbytes; [|done]. specialize (Hs _ eq_refl). specialize (Hp _ Hraw).
  assert (sa = EncodeToString bytes /\ ha = hashWithSalt pw sa) as [-> ->] by (by injection Hh as <- <-). split_and!.
  - intros ->. cbn in Hlen. by rewrite <- Hlen in Hp.
  - intros He. pose proof (EncodeToString_length bytes) as Hl. rewrite He, Hs in Hl. done.
  - intros He. pose proof (EncodeToString_length (Sum256 (EncodeToString bytes +:+ pw))) as Hl. unfold hashWithSalt in He. rewrite He, Sum256_length in Hl. done.
  - apply String.eqb_refl.
Qed.

Lemma seedAdmin_spec d c taken : drawn_ok d -> match (seedAdmin d c taken).2 with
  | Refused _ => ~ account_ok (cfAdmin c)
  | Reply (c', changed, r) =>
      c' = withAdmin c (cfAdmin c') /\ account_ok (cfAdmin c') /\ (auAuthenticationScheme (cfAdmin c') = AuthSchemeUnspecified -> auAuthenticationScheme (cfAdmin c) = AuthSchemeUnspecified) /\
      if (changed : bool) then ~ account_ok (cfAdmin c) /\ asUsername r = auUsername (cfAdmin c') /\ asPassword r <> "" /\ Verify (asPassword r) (auPasswordSalt (cfAdmin c')) (auPasswordHash (cfAdmin c')) = true
      else c' = c /\ r = nothingSeeded
  end.
Proof.
  intros Hd. unfold seedAdmin. destruct c as [[user email salt hash scheme] ifs sc ag lg eb au]. cbn [cfAdmin auUsername]. destruct (String.eqb_spec user "") as [->|Huser].
  - destruct (generateAdminCredentials d taken) as [taken' [[[pw sa] ha]|]] eqn:Hg; [|by intros [? _]]. apply (generateAdminCredentials_spec d) in Hg as [(? & ? & ? & ?) _]; [|done].
    unfold DefaultAdminIdentity, constant. cbn. split_and!; try done. by intros [? _].
  - unfold recoverLockedOutAdmin. cbn [auUsername auPasswordSalt auPasswordHash]. apply String.eqb_neq in Huser as Hu. rewrite Hu.
    destruct (String.eqb_spec salt "") as [->|Hsalt], (String.eqb_spec hash "") as [->|Hhash]; cbn [negb andb]; [..|by split_and!].
    all: destruct (generateAdminCredentials d taken) as [taken' [[[pw sa] ha]|]] eqn:Hg; cbn [rbind]; [|by intros (_ & ? & ?)];
      apply (generateAdminCredentials_spec d) in Hg as [(? & ? & ? & ?) _]; [|done]; unfold constant; cbn; split_and!; try done; by intros (_ & ? & ?).
Qed.

(** ** What the store makes of it *)

(** A configuration that reads back as it is. *)
Definition normal (c : Config) : Prop := renormalize c = c.

Lemma normal_iff c : normal c <-> map (fmap withStorage) (cfInterfaces c) = cfInterfaces c /\ auAuthenticationScheme (cfAdmin c) <> AuthSchemeUnspecified.
Proof.
  unfold normal, renormalize, Normalize, normalizeAuthenticationScheme, normalizeSonarrStorage. destruct c as [[u e s h sch] ifs sc ag lg eb au]. cbn.
  destruct (decide (sch = AuthSchemeUnspecified)) as [->|Hsch]; unfold constant; cbn; (split; [intros Hn|intros [Hn Hs]]); [|done|injection Hn as Hn; by rewrite !Hn|by rewrite !Hn].
  apply (f_equal (fun c => auAuthenticationScheme (cfAdmin c))) in Hn. done.
Qed.

Section run.
Context `{ConfigCollectionLaws}.

Lemma SeedAdmin_spec d db t0 db' t' r : drawn_ok d -> SeedAdmin d db t0 = ((db', t'), r) ->
  match r with
  | Refused _ => account_ok (cfAdmin (current db)) -> current db' = current db
  | Reply (c, result) => current db' = c /\ account_ok (cfAdmin c) /\ (account_ok (cfAdmin (current db)) -> storedConfig db' = storedConfig db /\ c = current db /\ result = nothingSeeded)
  end /\ (current db' = current db \/ account_ok (cfAdmin (current db')) /\ current db' = withAdmin (current db) (cfAdmin (current db'))).
Proof.
  intros Hd Hrun. apply (Bootstrap_cases id (seedAdmin d)) in Hrun. pose proof (seedAdmin_spec d (current db) t0 Hd) as Hspec. pose proof (renormalize_current db) as Hn. apply normal_iff in Hn as [Hif Hsch].
  assert (forall c result, seedAdmin d (current db) t0 = (t', Reply (c, true, result)) -> renormalize c = c /\ account_ok (cfAdmin c) /\ c = withAdmin (current db) (cfAdmin c) /\ ~ account_ok (cfAdmin (current db))) as Hnew.
  { intros c result He. rewrite He in Hspec. destruct Hspec as (Hc & Hok & Hs & Hno & _). split_and!; [|done..]. apply normal_iff. rewrite Hc. cbn [cfInterfaces withAdmin cfAdmin]. split; [done|].
    intros Hun. apply Hsch, Hs. by rewrite Hc in Hun |- *. }
  destruct r as [[c result]|e].
  - destruct Hrun as ([] & He & Hcur); rewrite He in Hspec.
    + destruct (Hnew c result He) as (Hc & Hok & Hw & Hno). rewrite Hcur, Hc. by split; [split_and!|right].
    + destruct Hspec as (_ & Hok & _ & -> & ->). unfold current. rewrite Hcur. by split; [split_and!|left].
  - destruct Hrun as [Hsame|(c & result & He & Hcur)]; [by split; [|left]|]. destruct (Hnew c result He) as (Hc & Hok & Hw & Hno). rewrite Hcur, Hc. by split; [intros|right].
Qed.

Lemma static_spec d db t0 db' t' r : drawn_ok d -> Bootstrap id (staticConfigSteps d) db t0 = ((db', t'), r) ->
  (match r with
   | Refused _ => True
   | Reply (c, (added, generated)) => current db' = c /\ seeded c /\ (exists secret, c = seedSections (current db) secret /\
       if String.eqb (acHmacSecret (cfAuth (current db))) "" then GenerateSecret (drSecret d) = Ok secret /\ generated = true /\ t' = t0 ++ [SecretBytes]
       else secret = acHmacSecret (cfAuth (current db)) /\ generated = false /\ t' = t0)
   end) /\ cfAdmin (current db') = cfAdmin (current db).
Proof.
  intros (_ & _ & Hsecret) Hrun. apply (Bootstrap_cases id (staticConfigSteps d)) in Hrun. pose proof (renormalize_current db) as Hn. apply normal_iff in Hn as [Hif Hsch].
  assert (forall secret, renormalize (seedSections (current db) secret) = seedSections (current db) secret) as Hnorm by (intros secret; by apply normal_iff).
  destruct r as [[c [added generated]]|e].
  - destruct Hrun as (changed & He & Hcur). pose proof (static_steps _ _ _ _ _ _ _ _ He) as (secret & -> & Hs & Hsame).
    assert (secret <> "") as Hne.
    { destruct (String.eqb_spec (acHmacSecret (cfAuth (current db))) "") as [|Hold]; [|by destruct Hs as [-> _]]. destruct Hs as [Hg _]. apply GenerateSecret_decodes in Hg as (buf & Hbuf & _ & Hempty).
      intros ->. specialize (Hsecret _ Hbuf). by rewrite (proj1 Hempty eq_refl) in Hsecret. }
    assert (current db' = seedSections (current db) secret) as Hcur'.
    { destruct changed; [by rewrite Hcur, Hnorm|]. unfold current at 1. rewrite Hcur. by destruct (Hsame eq_refl) as [-> _]. }
    rewrite Hcur'. split; [|done]. split_and!; [done|by apply seedSections_seeded|by exists secret].
  - split; [done|]. destruct Hrun as [->|(c & [added generated] & He & Hcur)]; [done|]. apply static_steps in He as (secret & -> & _). by rewrite Hcur, Hnorm.
Qed.

Lemma seedAdmin_complete d c t : account_ok (cfAdmin c) -> seedAdmin d c t = (t, Reply (c, false, nothingSeeded)).
Proof.
  intros (Hu & Hs & Hh). unfold seedAdmin, recoverLockedOutAdmin.
  apply String.eqb_neq in Hu as ->. apply String.eqb_neq in Hs as ->. by apply String.eqb_neq in Hh as ->.
Qed.

(** What a start finds nothing to do with, it reads twice. *)
Lemma Run_seeded d db : seeded (current db) -> account_ok (cfAdmin (current db)) ->
  Run d db =
  match Get db with
  | (db1, Err err) => ((db1, []), Refused ("bootstrap step " +:+ quote "admin_seed" +:+ ": " +:+ err))
  | (db1, Ok _) =>
      match Get db1 with
      | (db2, Err err) => ((db2, []), Refused ("bootstrap: " +:+ err))
      | (db2, Ok _) => ((db2, []),
          Reply {| rpAdmin := nothingSeeded; rpSidecarTypesAdded := 0; rpHmacSecretGenerated := false; rpFinalConfig := current db |})
      end
  end.
Proof.
  intros Hs Ha. unfold Run, SeedAdmin. rewrite (Bootstrap_unchanged id _ db [] nothingSeeded (seedAdmin_complete d _ _ Ha)).
  destruct (Get_spec db) as [Hcur _]. destruct (Get db) as [db1 [c|err]]; [|done]. cbn in Hcur |- *.
  rewrite (Bootstrap_unchanged id (staticConfigSteps d) db1 [] (0%nat, false)) by (rewrite Hcur; by apply seeded_static).
  rewrite Hcur. by destruct (Get db1) as [db2 [c2|err]].
Qed.
End run.

Section restart.
Context `{Hlaws : ConfigCollectionLaws}.

(** C27: A start that succeeds leaves every section seeded and an account with a
    password, and runs on what it stored. The next start finds nothing to do,
    whatever it could draw and whether it succeeds or fails: all it asks of the
    database is to be read, it draws no random bytes, prints no credential,
    leaves what is stored, and if it succeeds runs on the same configuration. *)
Theorem second_start_quiet d db db' taken report : drawn_ok d -> Run d db = ((db', taken), Reply report) ->
  let c := rpFinalConfig report in
  current db' = c /\ seeded c /\ account_ok (cfAdmin c) /\
  forall d2 db2 log taken2 r2, @Run (recording _) d2 (db', []) = (((db2, log), taken2), r2) ->
    Forall (eq Found) log /\ taken2 = [] /\ printed r2 = None /\ storedConfig db2 = storedConfig db' /\
    forall report2, r2 = Reply report2 ->
      report2 = {| rpAdmin := nothingSeeded; rpSidecarTypesAdded := 0; rpHmacSecretGenerated := false; rpFinalConfig := c |}.
Proof.
  intros Hd. unfold Run at 1. destruct (SeedAdmin d db []) as [[db1 t1] [[c1 result]|e]] eqn:Hseed; [|done].
  apply SeedAdmin_spec in Hseed as [(Hc1 & Hok & _) _]; [|done].
  destruct (Bootstrap id (staticConfigSteps d) db1 t1) as [[db2 t2] [[c2 [added generated]]|e]] eqn:Hst; [|done].
  apply static_spec in Hst as [(Hc2 & Hseeded & _) Hadmin]; [|done]. intros [= <- <- <-]. cbn [rpFinalConfig]. cbv zeta.
  assert (account_ok (cfAdmin c2)) as Hacc by (by rewrite <- Hc2, Hadmin, Hc1). split_and!; [done..|].
  intros d2 db3 log taken2 r2. pose proof (Run_seeded (H:=recording _) d2 (db2, [])) as Hrun. cbn in Hrun.
  change (@current (recording _) (db2, [])) with (current db2) in Hrun. rewrite Hc2 in Hrun. rewrite (Hrun Hseeded Hacc), Get_recorded.
  pose proof (Get_stored db2) as Hs1. destruct (Get db2) as [db2' r]; cbn in Hs1. destruct r; [|by intros [= <- <- <- <-]; split_and!; [repeat constructor|..]].
  rewrite Get_recorded. pose proof (Get_stored db2') as Hs2. destruct (Get db2') as [db2'' r]; cbn in Hs2.
  destruct r; intros [= <- <- <- <-]; split_and!; try done; try congruence; repeat constructor.
Qed.
End restart.

Section run.
Context `{ConfigCollectionLaws}.

(** A start that fails after it stored the account loses the password it
    drew: nothing is printed, and since the account is complete no later start
    draws or prints another, so nobody ever knows the password that is stored. *)
Theorem failed_start_loses_password d db db' taken err : drawn_ok d -> Run d db = ((db', taken), Refused err) ->
  ~ account_ok (cfAdmin (current db)) -> account_ok (cfAdmin (current db')) ->
  printed (Refused err) = None /\
  forall d2 db2 taken2 r, drawn_ok d2 -> Run d2 db' = ((db2, taken2), r) -> printed r = None /\ cfAdmin (current db2) = cfAdmin (current db').
Proof.
  intros Hd Hrun Hno Hok. split; [done|]. intros d2 db2 taken2 r Hd2. unfold Run. destruct (SeedAdmin d2 db' []) as [[db3 t3] [[c3 result]|e]] eqn:Hseed.
  - apply SeedAdmin_spec in Hseed as [(Hc3 & _ & Hquiet) _]; [|done]. destruct (Hquiet Hok) as (Hst & Hcur & ->).
    assert (current db3 = current db') as Hcur3 by (unfold current; by rewrite Hst).
    destruct (Bootstrap id (staticConfigSteps d2) db3 t3) as [[db4 t4] [[c4 [added generated]]|e]] eqn:Hstat; apply static_spec in Hstat as [_ Hadmin]; try done; rewrite Hcur3 in Hadmin; by intros [= <- <- <-].
  - apply SeedAdmin_spec in Hseed as [Hsame _]; [|done]. intros [= <- <- <-]. by rewrite Hsame.
Qed.
End run.

(** * The first start *)

Section first.
Context `{ConfigCollectionLaws, Regexp, TokenLibrary}.
Hypothesis defaults_compile : forall e pattern, e ∈ DefaultSidecarTypes -> pattern ∈ ePatterns e -> is_ok (Compile pattern) = true.

Lemma first_config admin secret : auAuthenticationScheme admin = AuthSchemeNone -> config_ok (seedSections (withAdmin Default admin) secret).
Proof.
  intros Hs. destruct (Default_ok defaults_compile) as [[Hp Hd Hv Ht] Ha Hi Hl He _].
  constructor; [|exact Ha|exact Hi|exact Hl|exact He|cbn; by rewrite Hs]. constructor; [exact Hp|exact Hd|exact Hv|].
  cbn [cfDirectoryScanner seedSections dsSidecarTypes]. unfold sidecarTypes. cbn [cfDirectoryScanner withAdmin Default dsSidecarTypes].
  assert (mergeTypes (seedTypes DefaultSidecarTypes) = DefaultSidecarTypes) as ->; [|exact Ht]. unfold seedTypes, mergeTypes. pose proof default_types.
  destruct DefaultSidecarTypes eqn:Hd'; [done|]. rewrite <- Hd'. by rewrite default_merged.
Qed.

Lemma seedAdmin_first d c c' changed result taken taken' : auUsername (cfAdmin c) = "" -> seedAdmin d c taken = (taken', Reply (c', changed, result)) ->
  exists password salt hash, generateAdminCredentials d taken = (taken', Ok (password, salt, hash)) /\ changed = true /\
    c' = withAdmin c {| auUsername := "admin"; auEmail := "admin@example.com"; auPasswordSalt := salt; auPasswordHash := hash; auAuthenticationScheme := AuthSchemeNone |} /\
    result = {| asUsername := "admin"; asPassword := password; asRecovered := false |}.
Proof.
  intros Hu. unfold seedAdmin. rewrite Hu. cbn [String.eqb]. destruct (generateAdminCredentials d taken) as [taken1 [[[password salt] hash]|]]; [|done].
  cbn [DefaultAdminIdentity]. intros [= <- <- <- <-]. by exists password, salt, hash.
Qed.

(** Signing under the secret of a configuration. *)
Lemma Sign_live now live key subject role ttl ca text : secret_is live key -> cache_ok ca -> subject <> "" -> role <> "" -> (0 < ttl)%Z ->
  SignedString (claimsAt now subject role ttl) key = Ok text -> (Sign now live subject role ttl ca).2 = inl text.
Proof.
  intros [Hs Hkey]%secret_is_secretOf Hok Hsub Hrole Httl Hsig. unfold Sign. pose proof (secret_live live ca Hok) as [_ Hl]. rewrite Hs in Hl.
  destruct (secret live ca) as [ca1 [k|]]; cbn in Hl; [injection Hl as ->|done]. cbn [snd]. unfold SignJWT.
  apply String.eqb_neq in Hsub as ->. apply String.eqb_neq in Hrole as ->. destruct (Z.leb_spec ttl 0); [lia|]. apply String.eqb_neq in Hkey as ->.
  rewrite Z.div_add by done. unfold claimsAt in Hsig. by rewrite Hsig.
Qed.

Lemma Login_live now later live key username password ca text : secret_is live key -> cache_ok ca ->
  username <> "" -> auUsername (cfAdmin live) = username -> Verify password (auPasswordSalt (cfAdmin live)) (auPasswordHash (cfAdmin live)) = true ->
  SignedString (claimsAt now username RoleAdmin sessionTTL) key = Ok text -> (Login now later live username password ca).2 = Reply (text, later / Second + sessionTTL)%Z.
Proof.
  intros Hkey Hok Hne Hu Hv Hsig. unfold Login. rewrite Hu, Hv, String.eqb_refl. apply String.eqb_neq in Hne as Hn. rewrite Hn. cbn [orb negb].
  pose proof (Sign_live now live key username RoleAdmin sessionTTL ca text Hkey Hok Hne ltac:(done) ltac:(done) Hsig) as Hs.
  destruct (Sign _ _ _ _ _ _) as [ca' [t|]]; cbn in Hs; [by injection Hs as ->|done].
Qed.

(** C26: A first start, over an empty database, leaves a valid configuration and a
    signing secret of the 32 bytes it drew, after the password's and the salt's,
    and the credentials it prints open a session on it. *)
Theorem first_start_signs_in d db db' taken report : drawn_ok d -> storedConfig db = None -> Run d db = ((db', taken), Reply report) ->
  let c := rpFinalConfig report in
  current db' = c /\ config_ok c /\ taken = [PasswordBytes; SaltBytes; SecretBytes] /\
  exists key, drSecret d = Ok key /\ secret_is c key /\
  exists username password, printed (Reply report) = Some (username, password) /\
    forall now later ca token, cache_ok ca -> SignedString (claimsAt now username RoleAdmin sessionTTL) key = Ok token ->
      (Login now later c username password ca).2 = Reply (token, later / Second + sessionTTL)%Z.
Proof.
  intros Hd Hempty. pose proof Hd as (_ & _ & Hsecret). assert (current db = Default) as Hcur by (unfold current; by rewrite Hempty).
  unfold Run. destruct (SeedAdmin d db []) as [[db1 t1] [[c1 result]|e]] eqn:Hseed; [|done]. pose proof Hseed as Hcases.
  apply SeedAdmin_spec in Hseed as [(Hc1 & _ & _) _]; [|done]. apply (Bootstrap_cases id (seedAdmin d)) in Hcases as (changed & Hadmin & _).
  rewrite Hcur in Hadmin. apply seedAdmin_first in Hadmin as (password & salt & hash & Hgen & _ & -> & ->); [|done].
  apply (generateAdminCredentials_spec d) in Hgen as [(Hpw & _ & _ & Hverify) ->]; [|done].
  destruct (Bootstrap id (staticConfigSteps d) db1 _) as [[db2 t2] [[c2 [added generated]]|e]] eqn:Hst; [|done].
  apply static_spec in Hst as [(Hc2 & _ & (secret & -> & Hnew)) _]; [|done]. rewrite Hc1 in Hnew, Hc2 |- *. destruct Hnew as (Hg & _ & ->).
  intros [= <- <- <-]. cbn [rpFinalConfig]. destruct (drSecret d) as [key|] eqn:Hkey; [|done]. injection Hg as <-. split; [done|]. split; [by apply first_config|]. split; [done|].
  exists key. split; [done|]. assert (secret_is (seedSections (withAdmin Default {| auUsername := "admin"; auEmail := "admin@example.com"; auPasswordSalt := salt;
    auPasswordHash := hash; auAuthenticationScheme := AuthSchemeNone |}) (EncodeBase64 key)) key) as Hs by (split; [done|by apply Hsecret]). split; [exact Hs|].
  exists "admin", password. split; [cbn; apply String.eqb_neq in Hpw; by rewrite Hpw|]. intros now later ca token Hca Hsig.
  by apply (Login_live now later _ key).
Qed.
End first.
