(* ===== verification/BootstrapSamples.v ===== *)
(** Starts of the server over two databases, one that always answers and one
    that stops to accept writes, with the theorems of BootstrapRun at them. *)
From stdpp Require Import strings list gmap.
From Stdlib Require Import Ascii ZArith Lia.
From S2P Require Import Prelude Sidecar AppConfig ConfigStore Services ConfigServices ConfigInvariant Crypto Auth AuthRights BootstrapRun.
Import Sidecar.Literal AuthRights.Sample.
#[local] Open Scope go_scope.
#[local] Existing Instance engine.

(** Documents that accept so many more writes. *)
Record flaky : Type := { flDocument : option StoredConfig; flWrites : nat }.

#[local] Instance flakyDocument : ConfigCollection := {|
  database := flaky;
  FindConfig := fun db => (db, Ok (flDocument db));
  ReplaceConfig := fun c db => match flWrites db with
    | O => (db, Some "server selection timeout")
    | S left_ => ({| flDocument := Some (stored c); flWrites := left_ |}, None)
    end;
  storedConfig := flDocument |}.

#[local] Instance flakyDocumentLaws : ConfigCollectionLaws.
Proof.
  constructor; cbn; [done|by intros db db' d [= -> ->]|..].
  - intros c [doc [|n]] db'; [done|]. by intros [= <-].
  - intros c [doc [|n]] db' err; [|done]. intros [= <- _]. by left.
Qed.

Definition firstDraw : drawn := {| drPassword := Ok "twelve bytes"; drSalt := Ok "0123456789abcdef"; drSecret := Ok key |}.
Definition redraw : drawn := {| drPassword := Ok "other twelve"; drSalt := Ok "fedcba9876543210"; drSecret := Ok otherKey |}.
(** A source that has nothing to give. *)
Definition exhausted : drawn := {| drPassword := Err "no entropy"; drSalt := Err "no entropy"; drSecret := Err "no entropy" |}.

Lemma draw_ok : drawn_ok firstDraw.
Proof. by split_and!; intros s [= <-]. Qed.

Lemma redraw_ok : drawn_ok redraw.
Proof. by split_and!; intros s [= <-]. Qed.

Definition emptied (n : nat) : @database flakyDocument := {| flDocument := None; flWrites := n |}.

Definition answered_ok {A} (r : reply string A) : bool := match r with Reply _ => true | Refused _ => false end.

Lemma start_answers : answered_ok (Run firstDraw (emptied 2)).2 = true.
Proof. by vm_compute. Qed.

Lemma first_start_signs_in_witness : exists db report username password, Run firstDraw (emptied 2) = ((db, [PasswordBytes; SaltBytes; SecretBytes]), Reply report) /\ config_ok (rpFinalConfig report) /\
  printed (Reply report) = Some (username, password) /\
  (Login 0 0 (rpFinalConfig report) username password noCache).2 = Reply (token (claimsAt 0 username RoleAdmin sessionTTL) key, sessionTTL).
Proof.
  pose proof start_answers as Hok. destruct (Run firstDraw (emptied 2)) as [[db taken] [report|e]] eqn:Hrun; [|discriminate Hok].
  destruct (first_start_signs_in defaults_compile firstDraw (emptied 2) db taken report draw_ok eq_refl Hrun) as (_ & Hconfig & -> & k & [= <-] & _ & username & password & Hprinted & Hlogin).
  exists db, report, username, password. split; [reflexivity|]. split; [exact Hconfig|]. split; [exact Hprinted|].
  exact (Hlogin 0%Z 0%Z noCache _ noCache_ok eq_refl).
Defined.

(** The second start, which reads the stored document twice. *)
Definition restarted (d : drawn) (db : @database flakyDocument) := @Run (recording flakyDocument) d (db, []).

Lemma restart_answers :
  let (st, r) := restarted exhausted (Run firstDraw (emptied 2)).1.1 in
  bool_decide (length st.1.2 = 2) && answered_ok r && bool_decide (length st.2 = 0) = true.
Proof. by vm_compute. Qed.

Lemma second_start_quiet_witness : exists db taken report, Run firstDraw (emptied 2) = ((db, taken), Reply report) /\
  forall d2 db2 log taken2 r2, restarted d2 db = (((db2, log), taken2), r2) ->
    Forall (eq Found) log /\ taken2 = [] /\ printed r2 = None /\ storedConfig db2 = storedConfig db.
Proof.
  pose proof start_answers as Hok. destruct (Run firstDraw (emptied 2)) as [[db taken] [report|e]] eqn:Hrun; [|discriminate Hok].
  destruct (second_start_quiet firstDraw (emptied 2) db taken report draw_ok Hrun) as (_ & _ & _ & Hquiet). exists db, taken, report. split; [reflexivity|].
  intros d2 db2 log taken2 r2 Hrun2. destruct (Hquiet d2 db2 log taken2 r2 Hrun2) as (Hlog & Ht & Hp & Hst & _).
  split; [exact Hlog|]. split; [exact Ht|]. split; [exact Hp|exact Hst].
Defined.

(** The account is stored, the other sections are not. *)
Lemma start_fails : match Run firstDraw (emptied 1) with ((db, _), Refused _) => negb (String.eqb (auPasswordHash (cfAdmin (current db))) "") && negb (String.eqb (auPasswordSalt (cfAdmin (current db))) "") && negb (String.eqb (auUsername (cfAdmin (current db))) "") | _ => false end = true.
Proof. by vm_compute. Qed.

Lemma failed_start_loses_password_witness : exists db taken err, Run firstDraw (emptied 1) = ((db, taken), Refused err) /\ account_ok (cfAdmin (current db)) /\
  forall db2 taken2 r, Run redraw db = ((db2, taken2), r) -> printed r = None /\ cfAdmin (current db2) = cfAdmin (current db).
Proof.
  pose proof start_fails as Hok. destruct (Run firstDraw (emptied 1)) as [[db taken] [report|e]] eqn:Hrun; [discriminate Hok|].
  apply andb_true_iff in Hok as [[Hh Hs]%andb_true_iff Hu]. exists db, taken, e. split; [reflexivity|].
  assert (account_ok (cfAdmin (current db))) as Haccount by (split_and!; intros He; rewrite He in *; discriminate).
  split; [exact Haccount|]. intros db2 taken2 r Hrun2.
  assert (~ account_ok (cfAdmin (current (emptied 1)))) as Hfresh by (intros [Hno _]; apply Hno; reflexivity).
  destruct (failed_start_loses_password firstDraw (emptied 1) db taken e draw_ok Hrun Hfresh Haccount) as [_ Hlater].
  exact (Hlater redraw db2 taken2 r redraw_ok Hrun2).
Defined.
