(* ===== verification/Workflows.v ===== *)
(** The workflow service: src/internal/server/services/workflows.go over the
    versioned store (Versioned), with mongostore/workflow.go.

    A method is a function of the collection; the ids and the clock reading a
    save uses are its argument [minted]. An update is its two halves, what is
    read and merged and what is saved, put together by [UpdateWorkflow] and
    taken apart by WorkflowRaces. The encodings of the graph and of ids are the
    classes [GraphCodec] and [Hexadecimal]; log lines are not modelled. *)
From stdpp Require Import strings list.
From Stdlib Require Import ZArith Lia.
From S2P Require Import Prelude Sidecar Versioned ConfigStore Services.
#[local] Open Scope Z_scope.
#[local] Open Scope go_scope.

(** * The stored workflow *)

(** What a BSON document of the service holds under a key. *)
Inductive element (M : Type) : Type :=
| IntElement (n : Z)
| ArrayElement (items : option (list M))
| DocumentElement (d : M).
Arguments IntElement {M} _.
Arguments ArrayElement {M} _.
Arguments DocumentElement {M} _.

(** Slices and maps may be nil. *)
Record storedGraph (M : Type) : Type := {
  sgSchemaVersion : Z;
  sgNodes : option (list M);
  sgEdges : option (list M);
  sgViewport : option M;
}.
Arguments sgSchemaVersion {M} _.
Arguments sgNodes {M} _.
Arguments sgEdges {M} _.
Arguments sgViewport {M} _.

(** The generated graph message, bson.M, and the encoders of protojson and the
    driver that connect them. *)
Class GraphCodec : Type := {
  WorkflowGraph : Type;
  EmptyGraph : WorkflowGraph;
  bsonM : Type;
  MarshalGraph : WorkflowGraph -> result string;
  UnmarshalGraph : string -> result WorkflowGraph;
  MarshalDocument : list (string * element bsonM) -> result string;
  UnmarshalStored : string -> result (storedGraph bsonM);
}.

(** The text of ids. *)
Class Hexadecimal : Type := {
  Hex : ObjectID -> string;
  ObjectIDFromHex : string -> result ObjectID;
}.

Class HexadecimalLaws `{Hexadecimal} : Prop := {
  from_hex id : ObjectIDFromHex (Hex id) = Ok id;
  hex_not_empty id : Hex id <> "";
}.

Section messages.
Context `{GraphCodec, Hexadecimal}.

Record Workflow : Type := {
  wfEnvelope : Envelope;
  wfName : string;
  wfDescription : string;
  wfTags : list string;
  wfSchemaVersion : Z;
  wfNodes : option (list bsonM);
  wfEdges : option (list bsonM);
  wfViewport : option bsonM;
}.

Definition setWorkflowEnvelope (w : Workflow) (e : Envelope) : Workflow :=
  {| wfEnvelope := e; wfName := wfName w; wfDescription := wfDescription w; wfTags := wfTags w;
     wfSchemaVersion := wfSchemaVersion w; wfNodes := wfNodes w; wfEdges := wfEdges w; wfViewport := wfViewport w |}.

#[export] Instance Document_Workflow : Document Workflow.
Proof. by refine {| getEnvelope := wfEnvelope; setEnvelope := setWorkflowEnvelope |}. Defined.

(** metarr.v1.Workflow. *)
Record WorkflowMessage : Type := {
  wmId : string;
  wmVersion : Z;
  wmCreatedAt : option Z;
  wmName : string;
  wmDescription : string;
  wmTags : list string;
  wmGraph : option WorkflowGraph;
}.

(** ** Conversions *)

Definition graphToProto (w : Workflow) : result WorkflowGraph :=
  let doc := [("schema_version", IntElement (wfSchemaVersion w)); ("nodes", ArrayElement (wfNodes w)); ("edges", ArrayElement (wfEdges w))] ++
    match wfViewport w with Some viewport => [("viewport", DocumentElement viewport)] | None => [] end in
  rbind (MarshalDocument doc) UnmarshalGraph.

Definition graphFromProto (graph : option WorkflowGraph) : result (storedGraph bsonM) :=
  rbind (MarshalGraph (default EmptyGraph graph)) UnmarshalStored.

Definition workflowToProto (w : Workflow) : result WorkflowMessage :=
  match graphToProto w with
  | Err err => Err err
  | Ok graph =>
      Ok {| wmId := Hex (DocumentID (wfEnvelope w)); wmVersion := wrap32 (Version (wfEnvelope w)); wmCreatedAt := Some (CreatedAt (wfEnvelope w));
            wmName := wfName w; wmDescription := wfDescription w; wmTags := wfTags w; wmGraph := Some graph |}
  end.

Definition noEnvelope : Envelope := {| ID := NilObjectID; DocumentID := NilObjectID; Version := 0; IsLatest := false; CreatedAt := 0 |}.

Definition workflowFromProto (w : WorkflowMessage) : result Workflow :=
  match graphFromProto (wmGraph w) with
  | Err _ => Err "malformed graph"
  | Ok stored =>
      Ok {| wfEnvelope := noEnvelope; wfName := wmName w; wfDescription := wmDescription w; wfTags := wmTags w;
            wfSchemaVersion := sgSchemaVersion stored; wfNodes := sgNodes stored; wfEdges := sgEdges stored; wfViewport := sgViewport stored |}
  end.

Definition validateWorkflowContent (w : WorkflowMessage) : option string :=
  if String.eqb (wmName w) "" || String.eqb (wmDescription w) "" || bool_decide (wmTags w = [])
  then Some "name, description and at least one tag are required" else None.

Definition parseRecordID (rawID : string) : result ObjectID :=
  match ObjectIDFromHex rawID with Err _ => Err "malformed id" | Ok recordID => Ok recordID end.

Definition workflowLookupError (err : error) : failure :=
  match err with
  | ErrNotFound => connectError 404 "no workflow with that id"
  | Failure _ => connectError 500 "failed to fetch workflow"
  end.

Definition encodeWorkflow (w : Workflow) : reply failure WorkflowMessage :=
  match workflowToProto w with
  | Err _ => Refused (connectError 500 "failed to encode workflow")
  | Ok proto => Reply proto
  end.

Fixpoint encodeWorkflows (workflows : list Workflow) : reply failure (list WorkflowMessage) :=
  match workflows with
  | [] => Reply []
  | w :: rest =>
      match workflowToProto w with
      | Err _ => Refused (connectError 500 "failed to encode workflow")
      | Ok proto => given out := encodeWorkflows rest in Reply (proto :: out)
      end
  end.
End messages.
#[export] Existing Instance Document_Workflow.

(** * The methods *)

Definition defaultWorkflowPageSize : Z := 50.
Definition maxWorkflowPageSize : Z := 100.

Definition workflowUpdatePaths : list string := ["name"; "description"; "tags"; "graph"].

(** The ids bson.NewObjectID mints for a save, and the clock. *)
Record minted : Type := { mtDocument : ObjectID; mtID : ObjectID; mtNow : Z }.

Section service.
Context `{GraphCodec, Hexadecimal, !Masked WorkflowMessage, PageTokens} {C : Type} `{!Collection C Workflow}.

(** What both writes end with. *)
Definition saveWorkflow (m : minted) (documentID : ObjectID) (stored : Workflow) (c : C) : reply failure WorkflowMessage * C :=
  match Save (mtDocument m) (mtID m) (mtNow m) documentID stored c with
  | (inr _, c') => (Refused (connectError 500 "failed to save workflow"), c')
  | (inl saved, c') => (encodeWorkflow saved, c')
  end.

(** [CreateWorkflow] up to the save. *)
Definition readCreate (workflow : option WorkflowMessage) : reply failure Workflow :=
  match workflow with
  | None => Refused (connectError 400 "workflow is required")
  | Some entry =>
      if negb (String.eqb (wmId entry) "") then Refused (connectError 400 "id is server-minted and must not be set on Create")
      else
        match validateWorkflowContent entry with
        | Some err => Refused (connectError 400 err)
        | None => match workflowFromProto entry with Err err => Refused (connectError 400 err) | Ok stored => Reply stored end
        end
  end.

Definition CreateWorkflow (m : minted) (workflow : option WorkflowMessage) (c : C) : reply failure WorkflowMessage * C :=
  match readCreate workflow with
  | Refused f => (Refused f, c)
  | Reply stored => saveWorkflow m NilObjectID stored c
  end.

Definition GetWorkflow (rawID : string) (c : C) : reply failure WorkflowMessage * C :=
  match parseRecordID rawID with
  | Err err => (Refused (connectError 400 err), c)
  | Ok workflowID =>
      match GetLatest workflowID c with
      | (inr err, c') => (Refused (workflowLookupError err), c')
      | (inl workflow, c') => (encodeWorkflow workflow, c')
      end
  end.

(** The limit of a page. *)
Definition workflowPageLimit (pageSize : Z) : reply failure Z :=
  if pageSize =? 0 then Reply defaultWorkflowPageSize
  else if pageSize <? 0 then Refused (ConnectError CodeInvalidArgument "page_size must not be negative")
  else Reply (if maxWorkflowPageSize <? pageSize then maxWorkflowPageSize else pageSize).

(** The cursor of a page. *)
Definition workflowCursor (rawToken : string) : reply failure ObjectID :=
  if String.eqb rawToken "" then Reply NilObjectID
  else
    match ObjectIDFromHex rawToken with
    | Err _ => Refused (ConnectError CodeInvalidArgument "malformed page_token")
    | Ok cursor => Reply cursor
    end.

Definition ListWorkflows (filter orderBy : string) (pageSize : Z) (pageToken : string) (c : C)
: reply failure (list WorkflowMessage * string) * C :=
  match parseListFilter filter with
  | Some f => (Refused (default f (aipConnectError f)), c)
  | None =>
      if negb (String.eqb orderBy "") then (Refused (ConnectError CodeUnimplemented "order_by is not supported: workflows are listed newest-first"), c)
      else
        match workflowPageLimit pageSize with
        | Refused f => (Refused f, c)
        | Reply limit =>
            match workflowCursor pageToken with
            | Refused f => (Refused f, c)
            | Reply cursor =>
                match ListLatest limit cursor c with
                | (inr _, c') => (Refused (connectError 500 "failed to list workflows"), c')
                | (inl (workflows, nextCursor, _), c') =>
                    (given protoWorkflows := encodeWorkflows workflows in
                     Reply (protoWorkflows, match nextCursor with Some id => Hex id | None => "" end), c')
                end
            end
        end
  end.

(** [UpdateWorkflow] up to the save: whose version to write, and what. *)
Definition mergedWorkflow (patch : WorkflowMessage) (mask : list string) (current : Workflow) : reply failure Workflow :=
  match workflowToProto current with
  | Err _ => Refused (connectError 500 "failed to encode workflow")
  | Ok merged =>
      match applyUpdateMask merged patch mask with
      | Refused maskErr => Refused (default maskErr (aipConnectError maskErr))
      | Reply merged =>
          match validateWorkflowContent merged with
          | Some err => Refused (connectError 400 err)
          | None => match workflowFromProto merged with Err err => Refused (connectError 400 err) | Ok stored => Reply stored end
          end
      end
  end.

Definition readUpdate (workflow : option WorkflowMessage) (mask : list string) (c : C) : reply failure (ObjectID * Workflow) * C :=
  match workflow with
  | None => (Refused (connectError 400 "workflow is required"), c)
  | Some patch =>
      match parseRecordID (wmId patch) with
      | Err err => (Refused (connectError 400 err), c)
      | Ok workflowID =>
          if negb (forallb (fun path => bool_decide (path ∈ workflowUpdatePaths)) mask)
          then (Refused (ConnectError CodeInvalidArgument "update_mask may name only name, description, tags or graph"), c)
          else
            match GetLatest workflowID c with
            | (inr err, c') => (Refused (workflowLookupError err), c')
            | (inl current, c') => (given stored := mergedWorkflow patch mask current in Reply (workflowID, stored), c')
            end
      end
  end.

Definition UpdateWorkflow (m : minted) (workflow : option WorkflowMessage) (mask : list string) (c : C) : reply failure WorkflowMessage * C :=
  match readUpdate workflow mask c with
  | (Refused f, c') => (Refused f, c')
  | (Reply (workflowID, stored), c') => saveWorkflow m workflowID stored c'
  end.

Definition DeleteWorkflow (rawID : string) (c : C) : reply failure unit * C :=
  match parseRecordID rawID with
  | Err err => (Refused (connectError 400 err), c)
  | Ok workflowID =>
      match DeleteAllVersions workflowID c with
      | (inr ErrNotFound, c') => (Refused (connectError 404 "no workflow with that id"), c')
      | (inr (Failure _), c') => (Refused (connectError 500 "failed to delete workflow"), c')
      | (inl _, c') => (Reply tt, c')
      end
  end.

Definition GetWorkflowVersion (rawID : string) (version : Z) (c : C) : reply failure WorkflowMessage * C :=
  match parseRecordID rawID with
  | Err err => (Refused (connectError 400 err), c)
  | Ok workflowID =>
      if version <? 1 then (Refused (connectError 400 "version must be a positive integer"), c)
      else
        match GetVersion workflowID version c with
        | (inr err, c') => (Refused (workflowLookupError err), c')
        | (inl workflow, c') => (encodeWorkflow workflow, c')
        end
  end.

Definition ListWorkflowVersions (rawID : string) (pageSize : Z) (pageToken : string) (c : C)
: reply failure (list WorkflowMessage * string) * C :=
  match parseRecordID rawID with
  | Err err => (Refused (connectError 400 err), c)
  | Ok workflowID =>
      match ListVersions workflowID c with
      | (inr _, c') => (Refused (connectError 500 "failed to list workflow versions"), c')
      | (inl versions, c') =>
          (given protoVersions := encodeWorkflows versions in
           match paginateSlice protoVersions pageSize pageToken with
           | Refused f => Refused (default f (aipConnectError f))
           | Reply page => Reply page
           end, c')
      end
  end.
End service.

(** ** The service as a whole *)

Inductive request `{GraphCodec} : Type :=
| CreateRequest (workflow : option WorkflowMessage)
| GetRequest (id : string)
| ListRequest (filter orderBy : string) (pageSize : Z) (pageToken : string)
| UpdateRequest (workflow : option WorkflowMessage) (mask : list string)
| DeleteRequest (id : string)
| VersionRequest (id : string) (version : Z)
| VersionsRequest (id : string) (pageSize : Z) (pageToken : string).

Definition refusal {A} (r : reply failure A) : option failure := match r with Reply _ => None | Refused f => Some f end.

Section facts.
Context `{GraphCodec, Hexadecimal, !Masked WorkflowMessage, PageTokens} {C : Type} `{!Collection C Workflow}.

(** How a request ends: not, or with which error. *)
Definition serve (m : minted) (r : request) (c : C) : option failure * C :=
  match r with
  | CreateRequest workflow => let '(a, c') := CreateWorkflow m workflow c in (refusal a, c')
  | GetRequest id => let '(a, c') := GetWorkflow id c in (refusal a, c')
  | ListRequest filter orderBy pageSize pageToken => let '(a, c') := ListWorkflows filter orderBy pageSize pageToken c in (refusal a, c')
  | UpdateRequest workflow mask => let '(a, c') := UpdateWorkflow m workflow mask c in (refusal a, c')
  | DeleteRequest id => let '(a, c') := DeleteWorkflow id c in (refusal a, c')
  | VersionRequest id version => let '(a, c') := GetWorkflowVersion id version c in (refusal a, c')
  | VersionsRequest id pageSize pageToken => let '(a, c') := ListWorkflowVersions id pageSize pageToken c in (refusal a, c')
  end.

(** * What the reads leave *)

Lemma GetLatest_docs id (c c' : C) r : GetLatest id c = (r, c') ->
  docs c' = docs c /\ forall w, r = inl w -> w ∈ docs c /\ doc_id w = id /\ latest w = true.
Proof.
  unfold GetLatest. pose proof (findOne_docs (latestOf id) c) as Hd. destruct (findOne _ c) as [[[w|]|e] c1] eqn:Hf; cbn in Hd; intros [= <- <-].
  - split; [done|]. intros w' [= <-]. apply findOne_Some in Hf as [Hin Hp]. unfold latestOf, ofDocument in Hp.
    apply andb_true_iff in Hp as [Hp Hl]. apply Z.eqb_eq in Hp. done.
  - by split.
  - by split.
Qed.

Lemma GetVersion_docs id v (c c' : C) r : GetVersion id v c = (r, c') -> docs c' = docs c.
Proof.
  unfold GetVersion. pose proof (findOne_docs (versionOf id v) c) as Hd. by destruct (findOne _ c) as [[[w|]|e] c1]; cbn in Hd; intros [= <- <-].
Qed.

Lemma ListLatest_docs limit cursor (c c' : C) r : ListLatest limit cursor c = (r, c') -> docs c' = docs c.
Proof.
  unfold ListLatest. match goal with |- context [find ?p ?f ?n c] => pose proof (find_docs p f n c) as Hd; destruct (find p f n c) as [[l|e] c1] end.
  all: cbn in Hd; by intros [= <- <-].
Qed.

Lemma ListVersions_docs id (c c' : C) r : ListVersions id c = (r, c') -> docs c' = docs c.
Proof.
  unfold ListVersions. match goal with |- context [find ?p ?f ?n c] => pose proof (find_docs p f n c) as Hd; destruct (find p f n c) as [[l|e] c1] end.
  all: cbn in Hd; by intros [= <- <-].
Qed.

Lemma readUpdate_docs patch mask (c c' : C) r : readUpdate patch mask c = (r, c') -> docs c' = docs c.
Proof.
  unfold readUpdate. destruct patch as [patch|]; [|by intros [= _ <-]]. destruct (parseRecordID _) as [id|]; [|by intros [= _ <-]].
  destruct (negb _); [by intros [= _ <-]|]. destruct (GetLatest id c) as [[w|e] c1] eqn:Hg; intros [= _ <-]; by apply GetLatest_docs in Hg as [? _].
Qed.

Lemma filter_none {A} (p : A -> bool) l : length (List.filter p l) = 0%nat -> List.filter (fun x => negb (p x)) l = l.
Proof. induction l as [|x l IH]; [done|]. cbn. destruct (p x); [done|]. cbn. intros Hl. by rewrite IH. Qed.

Lemma DeleteAllVersions_docs id (c c' : C) r : DeleteAllVersions id c = (r, c') ->
  match r with
  | inl _ => docs c' = List.filter (fun w => negb (ofDocument id w)) (docs c)
  | inr ErrNotFound => docs c' = docs c
  | inr (Failure _) => True
  end.
Proof.
  unfold DeleteAllVersions. destruct (deleteMany _ c) as [[n|e] c1] eqn:Hd; [|by intros [= <- <-]].
  apply deleteMany_Ok in Hd as [Hn Hd]. destruct n; intros [= <- <-]; rewrite Hd; [by apply filter_none|done].
Qed.

(** * Refusals *)

(** An error of a method is a connect.Error, and unless it is an internal one
    nothing was stored. *)
Definition clean (f : failure) (untouched : Prop) : Prop :=
  exists code msg, f = ConnectError code msg /\ (code <> CodeInternal -> untouched).

Lemma clean_connect status err (P : Prop) : (codeForStatus status <> CodeInternal -> P) -> clean (connectError status err) P.
Proof. intros HP. by eexists _, _. Qed.

Lemma clean_lookup err (P : Prop) : P -> clean (workflowLookupError err) P.
Proof. intros HP. destruct err; by apply clean_connect. Qed.

Lemma encodeWorkflow_clean w f (P : Prop) : encodeWorkflow w = Refused f -> clean f P.
Proof. unfold encodeWorkflow. destruct (workflowToProto w); intros [= <-]. by apply clean_connect. Qed.

Lemma encodeWorkflows_clean ws f (P : Prop) : encodeWorkflows ws = Refused f -> clean f P.
Proof.
  induction ws as [|w ws IH]; [done|]. cbn. destruct (workflowToProto w); [|intros [= <-]; by apply clean_connect].
  destruct (encodeWorkflows ws); [done|]. cbn. intros [= ->]. by apply IH.
Qed.

Lemma saveWorkflow_clean m id stored (c c' : C) f (P : Prop) : saveWorkflow m id stored c = (Refused f, c') -> clean f P.
Proof.
  unfold saveWorkflow. destruct (Save _ _ _ id stored c) as [[saved|e] c1]; intros Heq.
  - injection Heq as Hf _. by eapply encodeWorkflow_clean.
  - injection Heq as <- _. by apply clean_connect.
Qed.

Lemma mergedWorkflow_clean patch mask current f (P : Prop) : P -> mergedWorkflow patch mask current = Refused f -> clean f P.
Proof.
  intros HP. unfold mergedWorkflow. destruct (workflowToProto current) as [merged|]; [|intros [= <-]; by apply clean_connect].
  unfold applyUpdateMask. destruct mask as [|path mask]; [intros [= <-]; by eexists _, _|].
  destruct (ValidateMask _ merged); [|intros [= <-]; by eexists _, _].
  destruct (validateWorkflowContent _); [intros [= <-]; by apply clean_connect|].
  destruct (workflowFromProto _); [done|]. intros [= <-]; by apply clean_connect.
Qed.

Lemma readUpdate_clean patch mask (c c' : C) f (P : Prop) : P -> readUpdate patch mask c = (Refused f, c') -> clean f P.
Proof.
  intros HP. unfold readUpdate. destruct patch as [patch|]; [|intros [= <- _]; by apply clean_connect].
  destruct (parseRecordID _) as [id|]; [|intros [= <- _]; by apply clean_connect]. destruct (negb _); [intros [= <- _]; by eexists _, _|].
  destruct (GetLatest id c) as [[w|e] c1]; [|intros [= <- _]; by apply clean_lookup].
  destruct (mergedWorkflow patch mask w) eqn:Hm; cbn; [done|]. intros [= <- _]. by eapply mergedWorkflow_clean.
Qed.

Lemma paginateSlice_clean {A} (items : list A) n token f (P : Prop) : P -> paginateSlice items n token = Refused f -> clean (default f (aipConnectError f)) P.
Proof.
  intros HP. unfold paginateSlice. destruct (String.eqb token ""); cbn.
  { destruct (_ <=? _); [done|]. by destruct (_ <=? _)%nat. }
  destruct (DecodePageToken token) as [k|e]; [|intros [= <-]; by eexists _, _]. destruct (k <? 0); cbn; [intros [= <-]; by eexists _, _|].
  destruct (_ <=? _); [done|]. by destruct (_ <=? _)%nat.
Qed.

(** A refused request is answered with a proper error code, whatever is
    sent and whichever call of the database fails, and when that code does not
    say the server failed (so when the request is malformed, names an unknown
    workflow, or asks what is not supported), no stored version has changed. *)
Theorem refused_untouched m r (c : C) f c' : serve m r c = (Some f, c') ->
  exists code msg, f = ConnectError code msg /\ (code <> CodeInternal -> docs c' = docs c).
Proof.
  change (serve m r c = (Some f, c') -> clean f (docs c' = docs c)). destruct r as [w|raw|filter orderBy n token|w mask|raw|raw v|raw n token]; cbn.
  - unfold CreateWorkflow. destruct (readCreate w) as [stored|f1] eqn:Hr; cbn.
    + destruct (saveWorkflow _ _ _ c) as [[a|f1] c1] eqn:Hs; intros [= <- <-]. by eapply saveWorkflow_clean.
    + intros [= <- <-]. revert Hr. unfold readCreate. destruct w as [entry|]; [|intros [= <-]; by apply clean_connect].
      destruct (negb _); [intros [= <-]; by apply clean_connect|]. destruct (validateWorkflowContent _); [intros [= <-]; by apply clean_connect|].
      destruct (workflowFromProto _); [done|]. intros [= <-]; by apply clean_connect.
  - unfold GetWorkflow. destruct (parseRecordID raw) as [id|]; [|intros [= <- <-]; by apply clean_connect].
    destruct (GetLatest id c) as [[w|e] c1] eqn:Hg; apply GetLatest_docs in Hg as [Hd _]; [|intros [= <- <-]; by apply clean_lookup].
    destruct (encodeWorkflow w) eqn:He; intros [= <- <-]. by eapply encodeWorkflow_clean.
  - unfold ListWorkflows, parseListFilter. destruct (String.eqb filter ""); [|intros [= <- <-]; by eexists _, _].
    destruct (negb _); [intros [= <- <-]; by eexists _, _|]. unfold workflowPageLimit.
    destruct (n =? 0); [|destruct (n <? 0); [intros [= <- <-]; by eexists _, _|]].
    all: unfold workflowCursor; destruct (String.eqb token ""); [|destruct (ObjectIDFromHex token); [|intros [= <- <-]; by eexists _, _]].
    all: destruct (ListLatest _ _ c) as [[[[ws next] more]|e] c1]; [|intros [= <- <-]; by apply clean_connect].
    all: destruct (encodeWorkflows ws) eqn:He; intros [= <- <-]; by eapply encodeWorkflows_clean.
  - unfold UpdateWorkflow. destruct (readUpdate w mask c) as [[[id stored]|f1] c1] eqn:Hr.
    + destruct (saveWorkflow _ _ _ c1) as [[a|f1] c2] eqn:Hs; intros [= <- <-]. by eapply saveWorkflow_clean.
    + intros [= <- <-]. pose proof (readUpdate_docs _ _ _ _ _ Hr). by eapply readUpdate_clean.
  - unfold DeleteWorkflow. destruct (parseRecordID raw) as [id|]; [|intros [= <- <-]; by apply clean_connect].
    destruct (DeleteAllVersions id c) as [[u|[|e]] c1] eqn:Hd; apply DeleteAllVersions_docs in Hd; intros [= <- <-]; by apply clean_connect.
  - unfold GetWorkflowVersion. destruct (parseRecordID raw) as [id|]; [|intros [= <- <-]; by apply clean_connect].
    destruct (v <? 1); [intros [= <- <-]; by apply clean_connect|].
    destruct (GetVersion id v c) as [[w|e] c1] eqn:Hg; apply GetVersion_docs in Hg; [|intros [= <- <-]; by apply clean_lookup].
    destruct (encodeWorkflow w) eqn:He; intros [= <- <-]. by eapply encodeWorkflow_clean.
  - unfold ListWorkflowVersions. destruct (parseRecordID raw) as [id|]; [|intros [= <- <-]; by apply clean_connect].
    destruct (ListVersions id c) as [[ws|e] c1] eqn:Hl; apply ListVersions_docs in Hl; [|intros [= <- <-]; by apply clean_connect].
    destruct (encodeWorkflows ws) as [out|f1] eqn:He; cbn; [|intros [= <- <-]; by eapply encodeWorkflows_clean].
    destruct (paginateSlice out n token) eqn:Hp; cbn; intros [= <- <-]. by eapply paginateSlice_clean.
Qed.

(** * Content *)

Definition hasContent (w : Workflow) : Prop := wfName w <> "" /\ wfDescription w <> "" /\ wfTags w <> [].

Lemma validateWorkflowContent_None msg : validateWorkflowContent msg = None <-> wmName msg <> "" /\ wmDescription msg <> "" /\ wmTags msg <> [].
Proof.
  unfold validateWorkflowContent. destruct (String.eqb_spec (wmName msg) ""), (String.eqb_spec (wmDescription msg) ""); cbn; [naive_solver..|].
  destruct (bool_decide_reflect (wmTags msg = [])); naive_solver.
Qed.

Lemma workflowFromProto_Ok msg w : workflowFromProto msg = Ok w ->
  wfName w = wmName msg /\ wfDescription w = wmDescription msg /\ wfTags w = wmTags msg /\
  graphFromProto (wmGraph msg) = Ok {| sgSchemaVersion := wfSchemaVersion w; sgNodes := wfNodes w; sgEdges := wfEdges w; sgViewport := wfViewport w |}.
Proof. unfold workflowFromProto. destruct (graphFromProto _) as [[]|]; [|done]. by intros [= <-]. Qed.

Lemma workflowToProto_Ok w msg : workflowToProto w = Ok msg ->
  exists graph, graphToProto w = Ok graph /\
  msg = {| wmId := Hex (DocumentID (wfEnvelope w)); wmVersion := wrap32 (Version (wfEnvelope w)); wmCreatedAt := Some (CreatedAt (wfEnvelope w));
           wmName := wfName w; wmDescription := wfDescription w; wmTags := wfTags w; wmGraph := Some graph |}.
Proof. unfold workflowToProto. destruct (graphToProto w) as [graph|]; [|done]. intros [= <-]. by exists graph. Qed.

Lemma readCreate_content entry stored : readCreate entry = Reply stored -> hasContent stored.
Proof.
  unfold readCreate. destruct entry as [entry|]; [|done]. destruct (negb _); [done|]. destruct (validateWorkflowContent entry) eqn:Hv; [done|].
  destruct (workflowFromProto entry) eqn:Hf; [|done]. intros [= <-]. apply validateWorkflowContent_None in Hv.
  unfold hasContent. by apply workflowFromProto_Ok in Hf as (-> & -> & -> & _).
Qed.

Lemma mergedWorkflow_content patch mask current stored : mergedWorkflow patch mask current = Reply stored -> hasContent stored.
Proof.
  unfold mergedWorkflow. destruct (workflowToProto current); [|done]. destruct (applyUpdateMask _ _ _) as [merged|]; [|done].
  destruct (validateWorkflowContent merged) eqn:Hv; [done|]. destruct (workflowFromProto merged) eqn:Hf; [|done]. intros [= <-].
  apply validateWorkflowContent_None in Hv. unfold hasContent. by apply workflowFromProto_Ok in Hf as (-> & -> & -> & _).
Qed.

Lemma readUpdate_Reply patch mask (c c' : C) id stored : readUpdate patch mask c = (Reply (id, stored), c') ->
  exists p current, patch = Some p /\ ObjectIDFromHex (wmId p) = Ok id /\ Forall (fun path => path ∈ workflowUpdatePaths) mask /\
    GetLatest id c = (inl current, c') /\ mergedWorkflow p mask current = Reply stored.
Proof.
  unfold readUpdate. destruct patch as [p|]; [|done]. unfold parseRecordID. destruct (ObjectIDFromHex _) as [id'|] eqn:Hid; [|done].
  destruct (negb _) eqn:Hm; [done|]. rewrite negb_false_iff, forallb_forall in Hm.
  destruct (GetLatest id' c) as [[w|e] c1] eqn:Hg; [|done].
  destruct (mergedWorkflow p mask w) eqn:Hw; cbn; [|done]. intros [= -> <- <-]. exists p, w. split_and!; try done.
  apply Forall_forall. intros path Hp. apply (bool_decide_eq_true_1 _), Hm. by apply list_elem_of_In.
Qed.

(** * An update *)

(** What fieldmask does with the paths an update may name. *)
Definition masked (mask : list string) (dst src : WorkflowMessage) : WorkflowMessage :=
  {| wmId := wmId dst; wmVersion := wmVersion dst; wmCreatedAt := wmCreatedAt dst;
     wmName := if decide ("name" ∈ mask) then wmName src else wmName dst;
     wmDescription := if decide ("description" ∈ mask) then wmDescription src else wmDescription dst;
     wmTags := if decide ("tags" ∈ mask) then wmTags src else wmTags dst;
     wmGraph := if decide ("graph" ∈ mask) then wmGraph src else wmGraph dst |}.

Class MaskedWorkflow : Prop := {
  update_workflow mask dst src : mask <> [] -> Forall (fun path => path ∈ workflowUpdatePaths) mask -> UpdateMask mask dst src = masked mask dst src;
}.

Definition graphOf (w : Workflow) : storedGraph bsonM :=
  {| sgSchemaVersion := wfSchemaVersion w; sgNodes := wfNodes w; sgEdges := wfEdges w; sgViewport := wfViewport w |}.

(** What an update may store: the masked fields of the patch over what it read. *)
Record merge_of (patch : WorkflowMessage) (mask : list string) (current stored : Workflow) : Prop := {
  mg_named : mask <> [] /\ Forall (fun path => path ∈ workflowUpdatePaths) mask;
  mg_name : wfName stored = if decide ("name" ∈ mask) then wmName patch else wfName current;
  mg_description : wfDescription stored = if decide ("description" ∈ mask) then wmDescription patch else wfDescription current;
  mg_tags : wfTags stored = if decide ("tags" ∈ mask) then wmTags patch else wfTags current;
  mg_graph : exists graph, graphToProto current = Ok graph /\
    graphFromProto (if decide ("graph" ∈ mask) then wmGraph patch else Some graph) = Ok (graphOf stored);
  mg_content : hasContent stored;
}.

Lemma mergedWorkflow_merge `{!MaskedWorkflow} patch mask current stored : Forall (fun path => path ∈ workflowUpdatePaths) mask ->
  mergedWorkflow patch mask current = Reply stored -> merge_of patch mask current stored.
Proof.
  intros Hall Hm. pose proof (mergedWorkflow_content _ _ _ _ Hm) as Hcontent. revert Hm. unfold mergedWorkflow.
  destruct (workflowToProto current) as [msg|] eqn:Hp; [|done]. apply workflowToProto_Ok in Hp as (graph & Hg & ->).
  unfold applyUpdateMask. destruct mask as [|path mask]; [done|]. destruct (ValidateMask _ _); [|done].
  rewrite update_workflow by done. destruct (validateWorkflowContent _); [done|]. destruct (workflowFromProto _) eqn:Hf; [|done]. intros [= <-].
  apply workflowFromProto_Ok in Hf as (Hn & Hd & Ht & Hgr). cbn in Hn, Hd, Ht, Hgr. split; [done..| |done]. by exists graph.
Qed.

(** C30: an update is a partial one. Answered, it has appended one version to
    the workflow its patch names, numbered one above the latest and holding
    the patch's values of the fields the mask names and the latest version's of
    the others, which keeps name, description and a tag; every other version,
    of this workflow and all others, is unchanged but for this workflow's
    latest mark; and the answer is the new version. *)
Theorem UpdateWorkflow_appends `{!MaskedWorkflow} m patch mask (c c' : C) answer : versions_ok (docs c) ->
  (forall w, w ∈ docs c -> doc_id w <> NilObjectID) ->
  UpdateWorkflow m (Some patch) mask c = (Reply answer, c') ->
  exists id current stored, ObjectIDFromHex (wmId patch) = Ok id /\ current ∈ docs c /\ doc_id current = id /\ latest current = true /\
    merge_of patch mask current stored /\ doc_id stored = id /\ version stored = version current + 1 /\ latest stored = true /\
    docs c' = map (fun w => if latestOf id w then unmark w else w) (docs c) ++ [stored] /\ workflowToProto stored = Ok answer.
Proof.
  intros Hok Hnil. unfold UpdateWorkflow. destruct (readUpdate _ mask c) as [[[id stored]|f] c1] eqn:Hr; [|done]. intros Hs.
  pose proof (readUpdate_docs _ _ _ _ _ Hr) as Hd1. apply readUpdate_Reply in Hr as (p & current & [= <-] & Hid & Hall & Hg & Hm).
  apply GetLatest_docs in Hg as [_ Hg]. destruct (Hg _ eq_refl) as (Hcur & Hcid & Hcl). pose proof (Hnil _ Hcur) as Hne. rewrite Hcid in Hne.
  pose proof (mergedWorkflow_merge _ _ _ _ Hall Hm) as Hmerge. unfold saveWorkflow in Hs.
  destruct (Save _ _ _ id stored c1) as [[saved|e] c2] eqn:Hsave; [|done].
  injection Hs as Henc <-. destruct (Save_inl _ _ _ _ _ _ _ _ Hsave _ eq_refl) as (next & Hsaved & Hdocs & Hcf & Hnext).
  unfold targetOf in Hsaved, Hdocs, Hcf. rewrite (proj2 (Z.eqb_neq _ _) Hne) in Hsaved, Hdocs, Hcf. rewrite Hd1 in Hdocs, Hnext, Hcf.
  assert (next = version current + 1) as Hv.
  { destruct Hnext as [(d0 & Hd0 & Hi0 & Hl0 & ->)|Hn1].
    - assert (version d0 = version current); [|lia]. pose proof (vo_latest _ Hok d0 current Hd0 Hl0 Hcur ltac:(congruence)).
      pose proof (vo_latest _ Hok current d0 Hcur Hcl Hd0 ltac:(congruence)). lia.
    - exfalso. destruct (vo_contiguous _ Hok current 1 Hcur) as (e & He & Hie & Hve); [pose proof (vo_positive _ Hok _ Hcur); lia|].
      rewrite Forall_forall in Hcf. specialize (Hcf (if latestOf id e then unmark e else e)). unfold conflict in Hcf.
      assert (doc_id (if latestOf id e then unmark e else e) = id /\ version (if latestOf id e then unmark e else e) = 1) as [Hx Hy].
      { destruct (latestOf id e); [|by rewrite Hie]. by destruct (unmark_fields e) as (-> & -> & _); rewrite Hie. }
      unfold doc_id, version in Hx, Hy. rewrite Hx, Hy, Hsaved, get_set in Hcf. cbn in Hcf. rewrite Hn1, !Z.eqb_refl, orb_true_r in Hcf.
      enough (true = false) by done. apply Hcf, list_elem_of_fmap. by exists e. }
  exists id, current, saved. rewrite Hsaved in *. split_and!; try done.
  - destruct Hmerge. by split.
  - unfold encodeWorkflow in Henc. destruct (workflowToProto _) as [proto|]; [|done]. by injection Henc as <-.
Qed.

(** * Paging *)

Section pages.
Context `{!HexadecimalLaws}.

(** A caller that follows the tokens. *)
Fixpoint workflowPages (fuel : nat) (pageSize : Z) (token : string) (c : C) : reply failure (list (list WorkflowMessage)) * C :=
  match fuel with
  | O => (Reply [], c)
  | S fuel =>
      match ListWorkflows "" "" pageSize token c with
      | (Refused f, c') => (Refused f, c')
      | (Reply (page, next), c') =>
          if String.eqb next "" then (Reply [page], c')
          else match workflowPages fuel pageSize next c' with
               | (Refused f, c'') => (Refused f, c'')
               | (Reply rest, c'') => (Reply (page :: rest), c'')
               end
      end
  end.

Lemma encodeWorkflows_app l1 l2 out1 out2 : encodeWorkflows l1 = Reply out1 -> encodeWorkflows l2 = Reply out2 -> encodeWorkflows (l1 ++ l2) = Reply (out1 ++ out2).
Proof.
  revert out1. induction l1 as [|w l1 IH]; intros out1; cbn; [by intros [= <-]|]. destruct (workflowToProto w); [|done].
  destruct (encodeWorkflows l1) as [out|]; cbn; [|done]. intros [= <-] Hout2. by rewrite (IH out).
Qed.

Lemma encodeWorkflows_length ws out : encodeWorkflows ws = Reply out -> length out = length ws.
Proof.
  revert out. induction ws as [|w ws IH]; intros out; cbn; [by intros [= <-]|]. destruct (workflowToProto w); [|done].
  destruct (encodeWorkflows ws) as [out'|]; cbn; [|done]. intros [= <-]. cbn. by rewrite (IH out').
Qed.

Lemma ListWorkflows_Reply pageSize token (c c' : C) out next : ListWorkflows "" "" pageSize token c = (Reply (out, next), c') ->
  exists limit cursor ws nextCursor more, workflowPageLimit pageSize = Reply limit /\ workflowCursor token = Reply cursor /\
    ListLatest limit cursor c = (inl (ws, nextCursor, more), c') /\ encodeWorkflows ws = Reply out /\
    next = match nextCursor with Some id => Hex id | None => "" end.
Proof.
  unfold ListWorkflows, parseListFilter. cbn [String.eqb negb]. destruct (workflowPageLimit pageSize) as [limit|] eqn:Hlim; [|done].
  destruct (workflowCursor token) as [cursor|] eqn:Hcur; [|done]. destruct (ListLatest limit cursor c) as [[[[ws nc] more]|] c1] eqn:Hl; [|done].
  destruct (encodeWorkflows ws) eqn:He; cbn; [|done]. intros [= <- <- <-]. exists limit, cursor, ws, nc, more. by split_and!.
Qed.

Lemma workflowCursor_hex id : workflowCursor (Hex id) = Reply id.
Proof. unfold workflowCursor. destruct (String.eqb_spec (Hex id) "") as [E|_]; [by apply hex_not_empty in E|]. by rewrite from_hex. Qed.

Lemma workflowPageLimit_range pageSize limit : workflowPageLimit pageSize = Reply limit -> 1 <= limit <= maxWorkflowPageSize.
Proof.
  unfold workflowPageLimit, defaultWorkflowPageSize, maxWorkflowPageSize. destruct (Z.eqb_spec pageSize 0); [intros [= <-]; lia|].
  destruct (Z.ltb_spec pageSize 0); [done|]. intros [= <-]. destruct (Z.ltb_spec 100 pageSize); lia.
Qed.

Lemma ListLatest_length limit cursor (c c' : C) ws nc more : 1 <= limit -> ListLatest limit cursor c = (inl (ws, nc, more), c') -> Z.of_nat (length ws) <= limit.
Proof.
  intros Hl. unfold ListLatest. destruct (Z.leb_spec limit 0); [lia|]. destruct (find _ _ _ c) as [[l|e] c1]; [|done].
  destruct (Z.ltb_spec limit (Z.of_nat (length l))); intros [= <- _ _ _]; [rewrite length_take|]; lia.
Qed.

Lemma workflowPages_pages fuel pageSize limit token cursor (c c' : C) outs : workflowPageLimit pageSize = Reply limit -> workflowCursor token = Reply cursor ->
  workflowPages fuel pageSize token c = (Reply outs, c') ->
  exists ps, pages fuel limit cursor c = (inl ps, c') /\ encodeWorkflows (concat ps) = Reply (concat outs) /\
    Forall (fun page => Z.of_nat (length page) <= maxWorkflowPageSize) outs.
Proof.
  intros Hlim. pose proof (workflowPageLimit_range _ _ Hlim) as Hrange. revert token cursor c outs.
  induction fuel as [|fuel IH]; intros token cursor c outs Hc; cbn [workflowPages pages]; [intros [= <- <-]; exists []; by split_and!|].
  destruct (ListWorkflows "" "" pageSize token c) as [[[page next]|f] c1] eqn:Hl; [|done].
  apply ListWorkflows_Reply in Hl as (lim & cur & ws & nc & more & Hlim' & Hcur & Hlist & Henc & Hnext).
  rewrite Hlim in Hlim'. rewrite Hc in Hcur. injection Hlim' as <-. injection Hcur as <-. rewrite Hlist.
  assert (Z.of_nat (length page) <= maxWorkflowPageSize) as Hlen.
  { rewrite (encodeWorkflows_length _ _ Henc). apply ListLatest_length in Hlist; lia. }
  destruct nc as [id|]; subst next.
  - destruct (String.eqb_spec (Hex id) "") as [E|_]; [by apply hex_not_empty in E|].
    destruct (workflowPages fuel pageSize (Hex id) c1) as [[rest|f] c2] eqn:Hp; [|done]. intros [= <- <-].
    apply (IH _ _ _ _ (workflowCursor_hex id)) in Hp as (ps & -> & Hrest & Hall). exists (ws :: ps). split; [done|]. split; [|by constructor].
    cbn. by apply encodeWorkflows_app.
  - cbn. intros [= <- <-]. exists [ws]. cbn. rewrite !app_nil_r. split_and!; [done..|]. by constructor.
Qed.

(** Reading ListWorkflows page after page, each request carrying the token
    of the answer before, shows the latest version of every workflow exactly
    once, newest first; no page holds more than a hundred, whatever page size
    is asked for, and one request more than there are workflows is enough. *)
Theorem workflows_paged pageSize (c c' : C) outs :
  NoDup (map (fun w => ID (getEnvelope w)) (docs c)) -> (forall w, w ∈ docs c -> ID (getEnvelope w) <> NilObjectID) ->
  workflowPages (S (length (latest_list c))) pageSize "" c = (Reply outs, c') ->
  encodeWorkflows (latest_list c) = Reply (concat outs) /\ Forall (fun page => Z.of_nat (length page) <= maxWorkflowPageSize) outs.
Proof.
  intros Hnd Hnil Hp. assert (exists limit, workflowPageLimit pageSize = Reply limit) as [limit Hlim].
  { cbn in Hp. unfold ListWorkflows, parseListFilter in Hp. cbn [String.eqb negb] in Hp. destruct (workflowPageLimit pageSize); [by eexists|done]. }
  destruct (workflowPages_pages _ _ limit "" NilObjectID _ _ _ Hlim eq_refl Hp) as (ps & Hps & Henc & Hall). split; [|done].
  rewrite <- Henc. f_equal. assert (rows NilObjectID (docs c) = latest_list c) as Heq.
  { unfold rows, latest_list. f_equal. apply filter_ext. intros d. unfold selected, latest. by rewrite Z.eqb_refl, andb_true_r. }
  rewrite <- Heq in *. symmetry. eapply pages_rows; [done..| |exact Hps]. lia.
Qed.
End pages.
End facts.
