(* ===== verification/SaveSteps.v ===== *)
(** Saves that run side by side: the three calls Save of
    src/internal/server/mongostore/versioned/versioned.go makes, taken one at a
    time. [advance] is the call a save makes next, [Save] the three of them
    without a call in between, and [turn] the interleavings of any number of
    saves on one collection. *)
From stdpp Require Import list.
From Stdlib Require Import ZArith Lia.
From S2P Require Import Prelude Versioned.
#[local] Open Scope Z_scope.
#[local] Open Scope go_scope.

(** * A save in steps *)

(** How far a save is: it has the number it writes next, it has cleared the
    latest mark, it has returned. *)
Inductive stage (T : Type) : Type :=
| Started
| Numbered (next : Z)
| Unmarked (next : Z)
| Returned (r : T + error).
Arguments Started {T}.
Arguments Numbered {T} _.
Arguments Unmarked {T} _.
Arguments Returned {T} _.

(** A running save: what it was called with, what it mints, and its stage. *)
Record saving (T : Type) : Type := {
  svDocument : ObjectID;
  svDoc : T;
  svNewDocument : ObjectID;
  svNewID : ObjectID;
  svNow : Z;
  svStage : stage T;
}.
Arguments svDocument {T} _.
Arguments svDoc {T} _.
Arguments svNewDocument {T} _.
Arguments svNewID {T} _.
Arguments svNow {T} _.
Arguments svStage {T} _.

Definition at_stage {T} (p : saving T) (s : stage T) : saving T :=
  {| svDocument := svDocument p; svDoc := svDoc p; svNewDocument := svNewDocument p; svNewID := svNewID p; svNow := svNow p; svStage := s |}.

Definition target {T} (p : saving T) : ObjectID := targetOf (svNewDocument p) (svDocument p).

Section steps.
Context {C T : Type} `{Document T} `{!Collection C T}.

(** The document a save inserts. *)
Definition inserted (p : saving T) (next : Z) : T :=
  setEnvelope (svDoc p) {| ID := svNewID p; DocumentID := target p; Version := next; IsLatest := true; CreatedAt := svNow p |}.

(** The next call of a save. *)
Definition advance (p : saving T) (c : C) : saving T * C :=
  match svStage p with
  | Started =>
      match nextVersion (svDocument p) c with
      | (inr e, c') => (at_stage p (Returned (inr e)), c')
      | (inl next, c') => (at_stage p (Numbered next), c')
      end
  | Numbered next =>
      match updateMany (latestOf (target p)) unmark c with
      | (Err e, c') => (at_stage p (Returned (inr (Failure ("versioned: unmarking previous latest version: " +:+ e)))), c')
      | (Ok _, c') => (at_stage p (Unmarked next), c')
      end
  | Unmarked next =>
      match insertOne (inserted p next) c with
      | (Err e, c') => (at_stage p (Returned (inr (Failure ("versioned: inserting version " +:+ show_Z next +:+ ": " +:+ e)))), c')
      | (Ok _, c') => (at_stage p (Returned (inl (inserted p next))), c')
      end
  | Returned _ => (p, c)
  end.

(** Three calls in a row. *)
Definition alone (p : saving T) (c : C) : saving T * C :=
  let '(p, c) := advance p c in let '(p, c) := advance p c in advance p c.

Lemma alone_Save p c : svStage p = Started ->
  alone p c = let '(r, c') := Save (svNewDocument p) (svNewID p) (svNow p) (svDocument p) (svDoc p) c in (at_stage p (Returned r), c').
Proof.
  intros Hs. unfold alone, Save. unfold advance at 1. rewrite Hs. destruct (nextVersion _ c) as [[next|e] c1]; [|done].
  unfold advance at 1. cbn. unfold target. cbn. destruct (updateMany _ _ c1) as [[[]|e] c2]; [|done].
  unfold advance, inserted, target. cbn. by destruct (insertOne _ c2) as [[[]|e] c3].
Qed.

(** ** Interleavings *)

(** The saves that were begun, and the collection. *)
Definition system : Type := list (saving T) * C.

(** Which saves are begun is the business of who calls; what else is called
    only reads. *)
Inductive turn (begun : saving T -> Prop) : system -> system -> Prop :=
| turn_read ps c c' : docs c' = docs c -> turn begun (ps, c) (ps, c')
| turn_begin ps c p : begun p -> svStage p = Started -> turn begun (ps, c) (ps ++ [p], c)
| turn_advance ps c i p p' c' : ps !! i = Some p -> advance p c = (p', c') -> turn begun (ps, c) (<[i := p']> ps, c').

Lemma docs_nil_ok (c : C) : docs c = [] -> versions_ok (docs c).
Proof.
  intros ->. constructor; [constructor|..]; by intros ? ?%elem_of_nil || by intros ? ? ?%elem_of_nil.
Qed.

(** ** What a call does to the documents *)

(** What the number a save has taken says about the documents: its predecessor
    is stored, and once the marks are cleared, either another save has used
    the number or no version is marked. *)
Definition numbered (l : list T) (p : saving T) (next : Z) : Prop :=
  next = 1 \/ exists d, d ∈ l /\ doc_id d = target p /\ next = version d + 1.

Definition cleared (l : list T) (p : saving T) (next : Z) : Prop :=
  (exists d, d ∈ l /\ doc_id d = target p /\ next <= version d) \/ (forall d, d ∈ l -> doc_id d = target p -> latest d = false).

Definition stage_ok (l : list T) (p : saving T) : Prop :=
  match svStage p with
  | Numbered next => numbered l p next
  | Unmarked next => numbered l p next /\ cleared l p next
  | _ => True
  end.

(** The documents one call leaves: marks cleared, or a version added. *)
Inductive call (l : list T) : list T -> Prop :=
| call_unmark q l' : unmarked q l l' -> call l l'
| call_insert p next : svStage p = Unmarked next -> stage_ok l p -> Forall (fun x => conflict x (inserted p next) = false) l ->
    call l (l ++ [inserted p next]).

Lemma inserted_fields p next : doc_id (inserted p next) = target p /\ version (inserted p next) = next /\ latest (inserted p next) = true.
Proof. unfold inserted, doc_id, version, latest. by rewrite get_set. Qed.

Lemma advance_call p c p' c' : advance p c = (p', c') -> stage_ok (docs c) p -> call (docs c) (docs c').
Proof.
  unfold advance. intros Ha Hok. assert (docs c' = docs c -> call (docs c) (docs c')) as Hsame.
  { intros ->. apply (call_unmark _ (fun _ => false)), unmarked_refl. }
  destruct (svStage p) as [|next|next|r] eqn:Hs.
  - destruct (nextVersion _ c) as [[next|e] c1] eqn:Hn; injection Ha as <- <-; apply Hsame; by apply nextVersion_spec in Hn as [? _].
  - destruct (updateMany _ _ c) as [[[]|e] c1] eqn:Hu; injection Ha as <- <-; eapply call_unmark; by eapply updateMany_unmarked.
  - destruct (insertOne _ c) as [[[]|e] c1] eqn:Hi; injection Ha as <- <-.
    + apply insertOne_Ok in Hi as [Hc ->]. by apply call_insert.
    + apply insertOne_Err in Hi as [Heq|[Hc ->]]; [by apply Hsame|]. by apply call_insert.
  - injection Ha as <- <-. by apply Hsame.
Qed.

(** A version that could be inserted is the highest of its document. *)
Lemma inserted_highest l p next : versions_ok l -> Forall (fun x => conflict x (inserted p next) = false) l -> 1 <= next ->
  forall d, d ∈ l -> doc_id d = target p -> version d < next.
Proof.
  intros Hok Hc Hpos d Hd Hi. destruct (Z.lt_ge_cases (version d) next) as [|Hge]; [done|]. exfalso.
  destruct (vo_contiguous _ Hok d next Hd) as (e & He & Hie & Hve); [lia|].
  rewrite Forall_forall in Hc. specialize (Hc e He). destruct (inserted_fields p next) as (Hf1 & Hf2 & _).
  unfold conflict, doc_id, version in *. rewrite Hf1, Hf2, Hie, Hi, Hve, !Z.eqb_refl, orb_true_r in Hc. done.
Qed.

Lemma numbered_pos l p next : versions_ok l -> numbered l p next -> 1 <= next.
Proof. intros Hok [->|(d & Hd & _ & ->)]; [lia|]. pose proof (vo_positive _ Hok d Hd). lia. Qed.

Lemma call_versions l l' : versions_ok l -> call l l' -> versions_ok l'.
Proof.
  intros Hok [q l1 Hu|p next Hs Hst Hc]; [by eapply unmarked_ok|]. unfold stage_ok in Hst. rewrite Hs in Hst. destruct Hst as [Hn Hcl].
  pose proof (numbered_pos _ _ _ Hok Hn) as Hpos. pose proof (inserted_highest _ _ _ Hok Hc Hpos) as Hmax.
  destruct (inserted_fields p next) as (Hf1 & Hf2 & Hf3). apply append_ok; [done|done|by rewrite Hf2|..]; rewrite ?Hf1, ?Hf2.
  - intros n Hlt. destruct Hn as [->|(d & Hd & Hi & ->)]; [lia|].
    destruct (vo_contiguous _ Hok d n Hd) as (e & He & Hie & Hve); [lia|]. exists e. split_and!; congruence.
  - intros d Hd Hi. specialize (Hmax d Hd Hi). split; [lia|]. destruct Hcl as [(e & He & Hie & Hle)|Hcl]; [|by apply Hcl].
    pose proof (inserted_highest _ _ _ Hok Hc Hpos e He Hie). lia.
Qed.

(** What another save knows of the documents stays true. *)
Lemma call_keeps l l' d : call l l' -> d ∈ l -> exists d', d' ∈ l' /\ doc_id d' = doc_id d /\ version d' = version d.
Proof.
  intros [q l1 Hu|p next Hs Hst Hc] Hd; [by eapply unmarked_elem_back|]. exists d. rewrite elem_of_app. auto.
Qed.

Lemma call_stage l l' p : versions_ok l -> call l l' -> stage_ok l p -> stage_ok l' p.
Proof.
  intros Hok Hcall. assert (forall next, numbered l p next -> numbered l' p next) as Hnum.
  { intros next [->|(d & Hd & Hi & ->)]; [by left|]. destruct (call_keeps _ _ _ Hcall Hd) as (d' & Hd' & Hi' & Hv').
    right. exists d'. split_and!; congruence. }
  unfold stage_ok. destruct (svStage p) as [|next|next|r] eqn:Hs; auto. intros [Hn Hcl]. split; [auto|].
  destruct Hcl as [(d & Hd & Hi & Hle)|Hno].
  { destruct (call_keeps _ _ _ Hcall Hd) as (d' & Hd' & Hi' & Hv'). left. exists d'. split_and!; [done|congruence|lia]. }
  destruct Hcall as [q l1 Hu|p0 n0 Hs0 Hst0 Hc0].
  - right. intros d Hd Hi. destruct (unmarked_elem _ _ _ _ Hu Hd) as (e & He & Hie & _ & Hlat).
    destruct (latest d) eqn:Hl; [|done]. destruct (Hlat eq_refl) as [Hle _]. rewrite (Hno e He) in Hle; [done|congruence].
  - destruct (inserted_fields p0 n0) as (Hf1 & Hf2 & Hf3). destruct (decide (target p0 = target p)) as [E|E].
    + left. exists (inserted p0 n0). rewrite elem_of_app, list_elem_of_singleton. split_and!; [auto|congruence|]. rewrite Hf2.
      unfold stage_ok in Hst0. rewrite Hs0 in Hst0. destruct Hst0 as [Hn0 _]. pose proof (numbered_pos _ _ _ Hok Hn0) as Hpos0.
      destruct Hn as [->|(d & Hd & Hi & ->)]; [done|]. pose proof (inserted_highest _ _ _ Hok Hc0 Hpos0 d Hd). rewrite E in H0. specialize (H0 Hi). lia.
    + right. intros d [Hd| ->%list_elem_of_singleton]%elem_of_app; [by apply Hno|]. by rewrite Hf1.
Qed.

(** The stage a call takes a save to. *)
Lemma advance_stage p c p' c' : advance p c = (p', c') -> stage_ok (docs c) p -> stage_ok (docs c') p'.
Proof.
  unfold advance. intros Ha Hok. destruct (svStage p) as [|next|next|r] eqn:Hs.
  - destruct (nextVersion _ c) as [[next|e] c1] eqn:Hn; injection Ha as <- <-; [|done]. apply nextVersion_spec in Hn as (Hd & Hnil & Hnext).
    unfold stage_ok. cbn. unfold numbered. rewrite Hd. destruct (decide (svDocument p = NilObjectID)) as [E|E]; [left; auto|].
    destruct (Hnext next eq_refl E) as [(d & Hin & Hi & _ & ->)|[-> _]]; [|by left]. right. exists d. split_and!; [done| |done].
    unfold target, targetOf. cbn. by rewrite (proj2 (Z.eqb_neq _ _) E).
  - unfold stage_ok in Hok. rewrite Hs in Hok. destruct (updateMany _ _ c) as [[[]|e] c1] eqn:Hu; injection Ha as <- <-; [|done].
    pose proof (updateMany_unmarked _ _ _ _ Hu) as Hun. apply updateMany_Ok in Hu. unfold stage_ok. cbn. split.
    + destruct Hok as [->|(d & Hd & Hi & ->)]; [by left|]. destruct (unmarked_elem_back _ _ _ _ Hun Hd) as (d' & ? & ? & ?).
      right. exists d'. split_and!; [done|by transitivity (doc_id d)|congruence].
    + right. rewrite Hu. intros d (e & -> & He)%list_elem_of_fmap Hi. destruct (latestOf (target p) e) eqn:Hl; [by apply unmark_fields|].
      unfold latestOf, ofDocument in Hl. unfold doc_id, target in *. cbn in Hi. by rewrite Hi, Z.eqb_refl in Hl.
  - destruct (insertOne _ c) as [[[]|e] c1]; by injection Ha as <- <-.
  - injection Ha as <- <-. unfold stage_ok. by rewrite Hs.
Qed.

(** ** The invariant of the interleavings *)

Definition system_ok (s : system) : Prop := versions_ok (docs s.2) /\ Forall (stage_ok (docs s.2)) s.1.

Lemma turn_ok begun s s' : turn begun s s' -> system_ok s -> system_ok s'.
Proof.
  intros [ps c c' Hd|ps c p _ Hs|ps c i p p' c' Hi Ha] [Hok Hall]; cbn in *; split; cbn; rewrite ?Hd; try done.
  - apply Forall_app. split; [done|]. constructor; [|done]. unfold stage_ok. by rewrite Hs.
  - rewrite Forall_lookup in Hall. eapply call_versions; [done|]. eapply advance_call; [done|]. by eapply Hall.
  - rewrite Forall_lookup in Hall. pose proof (advance_call _ _ _ _ Ha (Hall i p Hi)) as Hcall. apply Forall_insert.
    + rewrite Forall_lookup. intros j q Hj. eapply call_stage; [done..|]. by eapply Hall.
    + by eapply advance_stage; [|eapply Hall].
Qed.

(** What every document has and an envelope does not decide. *)
Lemma turn_content begun (P : T -> Prop) s s' : (forall d e, P d -> P (setEnvelope d e)) -> (forall p, begun p -> P (svDoc p)) ->
  turn begun s s' -> Forall P (docs s.2) /\ Forall (fun p => P (svDoc p)) s.1 -> Forall P (docs s'.2) /\ Forall (fun p => P (svDoc p)) s'.1.
Proof.
  intros HP Hb [ps c c' Hr|ps c p Hbegun _|ps c i p p' c' Hi Ha] [Hd Hps]; cbn in *; [by rewrite Hr|..].
  { split; [done|]. apply Forall_app. split; [done|]. constructor; [auto|done]. }
  assert (P (svDoc p)) as Hp by (rewrite Forall_lookup in Hps; by eapply Hps).
  assert (forall q c1, unmarked q (docs c) (docs c1) -> Forall P (docs c1)) as Hun.
  { intros q c1 Hu. apply Forall_forall. intros d Hin. apply list_elem_of_lookup in Hin as [j Hj].
    destruct (Forall2_lookup_r _ _ _ _ _ Hu Hj) as (e & He & Hor). rewrite Forall_lookup in Hd. specialize (Hd j e He).
    destruct Hor as [->|[_ ->]]; [done|]. by apply HP. }
  assert (svDoc p' = svDoc p /\ Forall P (docs c')) as [Hp' Hd'].
  { unfold advance in Ha. destruct (svStage p) as [|next|next|r].
    - destruct (nextVersion _ c) as [[next|e] c1] eqn:Hn; injection Ha as <- <-; apply nextVersion_spec in Hn as [-> _]; done.
    - destruct (updateMany _ _ c) as [[[]|e] c1] eqn:Hu; injection Ha as <- <-; (split; [done|]); eapply Hun; by eapply updateMany_unmarked.
    - destruct (insertOne _ c) as [[[]|e] c1] eqn:Hins; injection Ha as <- <-; (split; [done|]).
      + apply insertOne_Ok in Hins as [_ ->]. apply Forall_app. split; [done|]. constructor; [by apply HP|done].
      + apply insertOne_Err in Hins as [->|[_ ->]]; [done|]. apply Forall_app. split; [done|]. constructor; [by apply HP|done].
    - by injection Ha as <- <-. }
  split; [done|]. apply Forall_insert; [done|]. by rewrite Hp'.
Qed.

(** What is stored stays stored, with its marks cleared at the most. *)
Definition marks_cleared : T -> T -> Prop := rtc (fun d d' => d' = unmark d).

Lemma call_stored l l' d : call l l' -> d ∈ l -> exists d', d' ∈ l' /\ marks_cleared d d'.
Proof.
  intros [q l1 Hu|p next Hs Hst Hc] Hd; [|exists d; rewrite elem_of_app; split; [auto|apply rtc_refl]].
  apply list_elem_of_lookup in Hd as [i Hi]. destruct (Forall2_lookup_l _ _ _ _ _ Hu Hi) as (d' & Hd' & Hor). exists d'.
  split; [by eapply list_elem_of_lookup_2|]. destruct Hor as [->|[_ ->]]; [apply rtc_refl|by apply rtc_once].
Qed.

Definition acknowledged (l : list T) (p : saving T) : Prop :=
  forall d, svStage p = Returned (inl d) -> exists d', d' ∈ l /\ marks_cleared d d'.

Lemma turn_acknowledged begun s s' : turn begun s s' -> system_ok s -> Forall (acknowledged (docs s.2)) s.1 -> Forall (acknowledged (docs s'.2)) s'.1.
Proof.
  intros [ps c c' Hr|ps c p _ Hs|ps c i p p' c' Hi Ha] [_ Hall] Hack; cbn in *; [by rewrite Hr|..].
  { apply Forall_app. split; [done|]. constructor; [|done]. intros d. by rewrite Hs. }
  rewrite Forall_lookup in Hall. pose proof (advance_call _ _ _ _ Ha (Hall i p Hi)) as Hcall.
  assert (forall q, acknowledged (docs c) q -> acknowledged (docs c') q) as Hkeep.
  { intros q Hq d (d1 & Hd1 & Hm1)%Hq. destruct (call_stored _ _ _ Hcall Hd1) as (d2 & Hd2 & Hm2).
    exists d2. split; [done|]. by transitivity d1. }
  apply Forall_insert; [by eapply Forall_impl|]. rewrite Forall_lookup in Hack. specialize (Hack i p Hi).
  unfold advance in Ha. destruct (svStage p) as [|next|next|r] eqn:Hs; [..|injection Ha as <- <-; by apply Hkeep].
  - destruct (nextVersion _ c) as [[next|e] c1]; by injection Ha as <- <-.
  - destruct (updateMany _ _ c) as [[[]|e] c1]; by injection Ha as <- <-.
  - destruct (insertOne _ c) as [[[]|e] c1] eqn:Hins; injection Ha as <- <-; [|done]. apply insertOne_Ok in Hins as [_ Hdocs].
    intros d [= <-]. exists (inserted p next). rewrite Hdocs, elem_of_app, list_elem_of_singleton. split; [auto|apply rtc_refl].
Qed.

Lemma turns_ok begun c0 s : docs c0 = [] -> rtc (turn begun) ([], c0) s -> system_ok s /\ Forall (acknowledged (docs s.2)) s.1.
Proof.
  intros H0 Hr. assert (forall s0, s0 = ([], c0) -> system_ok s0 /\ Forall (acknowledged (docs s0.2)) s0.1) as Hok.
  { intros s0 ->. split; [|constructor]. split; [by apply docs_nil_ok|constructor]. }
  specialize (Hok _ eq_refl). clear H0. induction Hr as [s|s1 s2 s3 Ht _ IH]; [done|]. apply IH. destruct Hok as [Hok Hack].
  split; [by eapply turn_ok|by eapply turn_acknowledged].
Qed.

(** ** Two saves that collide *)

Lemma Numbered_docs p c p' c' next : svStage p = Started -> advance p c = (p', c') -> svStage p' = Numbered next ->
  p' = at_stage p (Numbered next) /\ docs c' = docs c /\
  (svDocument p <> NilObjectID ->
   (exists d, d ∈ docs c /\ doc_id d = svDocument p /\ latest d = true /\ next = version d + 1) \/
   (next = 1 /\ forall d, d ∈ docs c -> doc_id d = svDocument p -> latest d = false)).
Proof.
  unfold advance. intros ->. destruct (nextVersion _ c) as [[n|e] c1] eqn:Hn; intros [= <- <-] Hs; [|done]. injection Hs as ->.
  apply nextVersion_spec in Hn as (Hd & _ & Hnext). split_and!; auto.
Qed.

(** Two saves that read a document in the same version take the same number. *)
Lemma same_number (l : list T) id na nb : versions_ok l ->
  ((exists d, d ∈ l /\ doc_id d = id /\ latest d = true /\ na = version d + 1) \/ (na = 1 /\ forall d, d ∈ l -> doc_id d = id -> latest d = false)) ->
  ((exists d, d ∈ l /\ doc_id d = id /\ latest d = true /\ nb = version d + 1) \/ (nb = 1 /\ forall d, d ∈ l -> doc_id d = id -> latest d = false)) ->
  na = nb.
Proof.
  intros Hok [(d & Hd & Hi & Hl & ->)|[-> Hn]] [(e & He & Hie & Hle & ->)|[-> Hn']]; [|by rewrite Hn' in Hl|by rewrite Hn in Hle|done].
  pose proof (vo_latest _ Hok d e Hd Hl He). pose proof (vo_latest _ Hok e d He Hle Hd). rewrite Hi, Hie in *. specialize (H0 eq_refl). specialize (H1 eq_refl). lia.
Qed.

Lemma collide pa pb c pa1 pb1 pa2 pa3 pb2 pb3 c1 c2 c3 c4 c5 c6 na nb d : versions_ok (docs c) ->
  svStage pa = Started -> svStage pb = Started -> svDocument pa <> NilObjectID -> svDocument pb = svDocument pa ->
  advance pa c = (pa1, c1) -> svStage pa1 = Numbered na -> advance pb c1 = (pb1, c2) -> svStage pb1 = Numbered nb ->
  advance pa1 c2 = (pa2, c3) -> advance pa2 c3 = (pa3, c4) -> svStage pa3 = Returned (inl d) ->
  advance pb1 c4 = (pb2, c5) -> svStage pb2 = Unmarked nb -> advance pb2 c5 = (pb3, c6) ->
  (exists e, svStage pb3 = Returned (inr e)) /\ latestless (svDocument pa) (docs c6).
Proof.
  intros Hok Hsa Hsb Hnil Heq Ha1 Hna Hb1 Hnb Ha2 Ha3 Hra Hb2 Hub Hb3.
  destruct (Numbered_docs _ _ _ _ _ Hsa Ha1 Hna) as (-> & Hd1 & Hnexta). destruct (Numbered_docs _ _ _ _ _ Hsb Hb1 Hnb) as (-> & Hd2 & Hnextb).
  specialize (Hnexta Hnil). rewrite Hd1, Heq in Hnextb. specialize (Hnextb Hnil). pose proof (same_number _ _ _ _ Hok Hnexta Hnextb) as ->.
  assert (target pa = svDocument pa) as Hta by (unfold target, targetOf; by rewrite (proj2 (Z.eqb_neq _ _) Hnil)).
  assert (target pb = svDocument pa) as Htb by (unfold target, targetOf; by rewrite Heq, (proj2 (Z.eqb_neq _ _) Hnil)).
  unfold advance in Ha2. cbn in Ha2. destruct (updateMany _ _ c2) as [[[]|e] c3'] eqn:Hu; injection Ha2 as <- <-; [|by unfold advance in Ha3; injection Ha3 as <- _].
  pose proof (updateMany_unmarked _ _ _ _ Hu) as Hun.
  unfold advance in Ha3. cbn in Ha3. destruct (insertOne _ c3') as [[[]|e] c4'] eqn:Hins; injection Ha3 as <- <-; [|done].
  apply insertOne_Ok in Hins as [Hcf Hd4]. change (inserted (at_stage pa (Unmarked nb)) nb) with (inserted pa nb) in *.
  assert (versions_ok (docs c4')) as Hok4.
  { rewrite Hd4. eapply (call_versions (docs c3')); [eapply unmarked_ok; [done|]; by rewrite Hd2, Hd1|].
    apply (call_insert _ (at_stage pa (Unmarked nb))); [done| |done]. unfold stage_ok. cbn.
    assert (stage_ok (docs c3') (at_stage pa (Unmarked nb))) as Hst; [|exact Hst].
    eapply (advance_stage (at_stage pa (Numbered nb)) c2); [unfold advance; cbn; by rewrite Hu|]. unfold stage_ok. cbn. rewrite Hd2, Hd1.
    destruct Hnexta as [(e & He & Hie & _ & ->)|[-> _]]; [|by left]. right. exists e. split_and!; [done| |done]. by rewrite Hie. }
  unfold advance in Hb2. cbn in Hb2. destruct (updateMany _ _ c4') as [[[]|e] c5'] eqn:Hub'; injection Hb2 as <- <-; [|done].
  pose proof (updateMany_unmarked _ _ _ _ Hub') as Hun5. apply updateMany_Ok in Hub'. change (target (at_stage pb (Numbered nb))) with (target pb) in *.
  destruct (inserted_fields pa nb) as (Hf1 & Hf2 & Hf3). rewrite Hta in Hf1.
  assert (inserted pa nb ∈ docs c4') as Hin by (rewrite Hd4, elem_of_app, list_elem_of_singleton; auto).
  assert (latestless (svDocument pa) (docs c5')) as Hless.
  { split.
    - destruct (vo_contiguous _ Hok4 _ 1 Hin) as (e & He & Hie & Hve); [pose proof (vo_positive _ Hok4 _ Hin); lia|].
      destruct (unmarked_elem_back _ _ _ _ Hun5 He) as (e' & ? & ? & ?). exists e'. split_and!; congruence.
    - rewrite Hub'. intros x (y & -> & Hy)%list_elem_of_fmap Hi. destruct (latestOf (target pb) y) eqn:Hl; [by apply unmark_fields|].
      unfold latestOf, ofDocument in Hl. rewrite Htb in Hl. unfold doc_id in Hi. by rewrite Hi, Z.eqb_refl in Hl. }
  destruct (unmarked_elem_back _ _ _ _ Hun5 Hin) as (x & Hx & Hxi & Hxv).
  assert (~ Forall (fun y => conflict y (inserted pb nb) = false) (docs c5')) as Hconf.
  { rewrite Forall_forall. intros Hall. specialize (Hall x Hx). destruct (inserted_fields pb nb) as (Hg1 & Hg2 & _).
    unfold conflict, doc_id, version in *. rewrite Hg1, Hg2, Htb, Hxi, Hxv, Hf1, Hf2, !Z.eqb_refl, orb_true_r in Hall. done. }
  unfold advance in Hb3. cbn in Hb3. change (inserted (at_stage pb (Unmarked nb)) nb) with (inserted pb nb) in *.
  destruct (insertOne _ c5') as [[[]|e] c6'] eqn:Hins; injection Hb3 as <- <-; [by apply insertOne_Ok in Hins as [? _]|].
  split; [by eexists|]. by apply insertOne_Err in Hins as [->|[? _]].
Qed.

(** ** A document without a latest version stays so *)

Definition stale (id : ObjectID) (p : saving T) : Prop :=
  target p = id -> match svStage p with Numbered next | Unmarked next => next = 1 | _ => True end.

Lemma advance_stale id p c p' c' : advance p c = (p', c') -> latestless id (docs c) -> stale id p -> latestless id (docs c') /\ stale id p'.
Proof.
  unfold advance. intros Ha [(d1 & Hd1 & Hi1 & Hv1) Hnone] Hst.
  assert (forall c1, docs c1 = docs c -> latestless id (docs c1)) as Hsame by (intros c1 ->; split; [eauto|done]).
  unfold stale in *. destruct (svStage p) as [|next|next|r] eqn:Hs.
  - destruct (nextVersion _ c) as [[next|e] c1] eqn:Hn; injection Ha as <- <-; apply nextVersion_spec in Hn as (Hd & Hnil & Hnext); (split; [auto|]); [|done].
    intros Ht. cbn. destruct (decide (svDocument p = NilObjectID)) as [E|E]; [auto|]. destruct (Hnext next eq_refl E) as [(d & Hin & Hi & Hl & _)|[-> _]]; [|done].
    unfold target, targetOf in Ht. cbn in Ht. rewrite (proj2 (Z.eqb_neq _ _) E) in Ht. rewrite Hnone in Hl; [done|done|congruence].
  - destruct (updateMany _ _ c) as [r c1] eqn:Hu. pose proof (updateMany_unmarked _ _ _ _ Hu) as Hun.
    assert (latestless id (docs c1)) as Hless.
    { split.
      - destruct (unmarked_elem_back _ _ _ _ Hun Hd1) as (e & ? & ? & ?). exists e. split_and!; congruence.
      - intros d Hin Hi. destruct (unmarked_elem _ _ _ _ Hun Hin) as (e & He & Hie & _ & Hle).
        destruct (latest d) eqn:Hl; [|done]. destruct (Hle eq_refl) as [Hl' _]. rewrite (Hnone e He) in Hl'; [done|congruence]. }
    destruct r as [[]|e]; injection Ha as <- <-; (split; [done|]); [|done]. intros Ht. by apply Hst.
  - destruct (inserted_fields p next) as (Hf1 & Hf2 & Hf3).
    assert (Forall (fun x => conflict x (inserted p next) = false) (docs c) -> latestless id (docs c ++ [inserted p next])) as Hadd.
    { intros Hc. destruct (decide (target p = id)) as [E|E].
      - exfalso. specialize (Hst E) as ->. rewrite Forall_forall in Hc. specialize (Hc d1 Hd1). unfold conflict, doc_id, version in *.
        rewrite Hf1, Hf2, Hi1, Hv1, E, !Z.eqb_refl, orb_true_r in Hc. done.
      - split; [exists d1; rewrite elem_of_app; auto|]. intros d [Hd| ->%list_elem_of_singleton]%elem_of_app; [auto|]. by rewrite Hf1. }
    destruct (insertOne _ c) as [[[]|e] c1] eqn:Hins; injection Ha as <- <-; (split; [|done]).
    + apply insertOne_Ok in Hins as [Hc ->]. auto.
    + apply insertOne_Err in Hins as [Hd|[Hc ->]]; auto.
  - injection Ha as <- <-. split; [auto|]. by rewrite Hs.
Qed.

Lemma turns_latestless begun id s s' : rtc (turn begun) s s' -> latestless id (docs s.2) -> Forall (stale id) s.1 -> latestless id (docs s'.2).
Proof.
  intros Hr Hl Hst. assert (latestless id (docs s'.2) /\ Forall (stale id) s'.1) as [? _]; [|done].
  assert (latestless id (docs s.2) /\ Forall (stale id) s.1) as Hboth by done. clear Hl Hst.
  induction Hr as [s|s1 s2 s3 Ht _ IH]; [done|]. apply IH. destruct Hboth as [Hl Hst].
  destruct Ht as [ps c c' Hd|ps c p _ Hs|ps c i p p' c' Hi Ha]; cbn in *; [by rewrite Hd|..].
  - split; [done|]. apply Forall_app. split; [done|]. constructor; [|done]. intros _. by rewrite Hs.
  - rewrite Forall_lookup in Hst. destruct (advance_stale _ _ _ _ _ Ha Hl (Hst i p Hi)) as [? ?]. split; [done|].
    apply Forall_insert; [by rewrite Forall_lookup|done].
Qed.
End steps.
