(* ===== verification/WorkflowRaces.v ===== *)
(** Calls of the workflow service that run side by side: every interleaving of
    the database calls that creates and updates of
    src/internal/server/services/workflows.go make (Workflows, SaveSteps), what
    it keeps, and what two updates of one workflow can do to it. *)
From stdpp Require Import strings list.
From Stdlib Require Import ZArith Lia.
From S2P Require Import Prelude Sidecar Versioned ConfigStore Services Workflows SaveSteps.
#[local] Open Scope Z_scope.
#[local] Open Scope go_scope.

Section races.
Context `{GraphCodec, Hexadecimal, !Masked WorkflowMessage, PageTokens} {C : Type} `{!Collection C Workflow}.

(** The save a request goes on with. *)
Definition writing (m : minted) (documentID : ObjectID) (stored : Workflow) : saving Workflow :=
  {| svDocument := documentID; svDoc := stored; svNewDocument := mtDocument m; svNewID := mtID m; svNow := mtNow m; svStage := Started |}.

(** Without another call in between, the calls of a save are [saveWorkflow]. *)
Lemma saveWorkflow_alone m id stored (c : C) :
  saveWorkflow m id stored c =
  let '(p, c') := alone (writing m id stored) c in
  (match svStage p with Returned (inl saved) => encodeWorkflow saved | _ => Refused (connectError 500 "failed to save workflow") end, c').
Proof. rewrite alone_Save by done. unfold saveWorkflow. cbn. by destruct (Save _ _ _ id stored c) as [[saved|e] c1]. Qed.

(** The service: a create or an update whose save begins, any request that only
    reads, and the next call of a save. *)
Inductive service : system (C := C) (T := Workflow) -> system -> Prop :=
| service_create m entry stored ps c : readCreate entry = Reply stored -> service (ps, c) (ps ++ [writing m NilObjectID stored], c)
| service_update m patch mask id stored ps c c' : readUpdate patch mask c = (Reply (id, stored), c') ->
    service (ps, c) (ps ++ [writing m id stored], c')
| service_read ps c c' : docs c' = docs c -> service (ps, c) (ps, c')
| service_call ps c i p p' c' : ps !! i = Some p -> advance p c = (p', c') -> service (ps, c) (<[i := p']> ps, c').

Lemma service_turns s s' : service s s' -> rtc (turn (fun p => hasContent (svDoc p))) s s'.
Proof.
  intros [m entry stored ps c Hr|m patch mask id stored ps c c' Hr|ps c c' Hd|ps c i p p' c' Hi Ha].
  - apply rtc_once, turn_begin; [by eapply readCreate_content|done].
  - apply (rtc_l _ _ (ps, c')); [apply turn_read; by eapply readUpdate_docs|]. apply rtc_once, turn_begin; [|done].
    apply readUpdate_Reply in Hr as (p & current & _ & _ & _ & _ & Hm). by eapply mergedWorkflow_content.
  - by apply rtc_once, turn_read.
  - apply rtc_once. by eapply turn_advance.
Qed.

Lemma services_turns s s' : rtc service s s' -> rtc (turn (fun p => hasContent (svDoc p))) s s'.
Proof. induction 1 as [|s1 s2 s3 Hs _ IH]; [done|]. etransitivity; [by apply service_turns|done]. Qed.

(** C5: creates and updates that run side by side never corrupt the store. From
    an empty collection, through every interleaving of the single database
    calls of any number of creates and updates, of which any may fail at any
    point, the versions of each workflow are numbered 1, 2, ... without gaps or
    repetitions, at most one is marked latest and it is the highest, every one
    has a name, a description and a tag, and a version whose request was
    answered with success is stored. *)
Theorem service_invariant c0 ps c : docs c0 = [] -> rtc service ([], c0) (ps, c) ->
  versions_ok (docs c) /\ Forall hasContent (docs c) /\
  (forall i p saved, ps !! i = Some p -> svStage p = Returned (inl saved) -> exists w, w ∈ docs c /\ marks_cleared saved w).
Proof.
  intros Hempty Hr%services_turns. destruct (turns_ok _ _ _ Hempty Hr) as [[Hok _] Hack]. split; [done|]. split.
  - assert (forall s s', rtc (turn (fun p => hasContent (svDoc p))) s s' -> Forall hasContent (docs s.2) /\ Forall (fun p => hasContent (svDoc p)) s.1 ->
      Forall hasContent (docs s'.2) /\ Forall (fun p => hasContent (svDoc p)) s'.1) as Hall.
    { induction 1 as [|s1 s2 s3 Ht _ IH]; [done|]. intros Hs. apply IH. eapply turn_content; [| |done..]; [|done]. by intros d e. }
    apply (Hall _ _ Hr). cbn. rewrite Hempty. by split.
  - intros i p saved Hi Hs. rewrite Forall_lookup in Hack. by apply (Hack i p Hi).
Qed.

(** ** Two updates of one workflow *)

(** The next call of the save at [i]. *)
Definition call_of (i : nat) (s : system (C := C) (T := Workflow)) : system :=
  match s.1 !! i with
  | Some p => let '(p', c') := advance p s.2 in (<[i := p']> s.1, c')
  | None => s
  end.

Definition calls (order : list nat) (s : system (C := C) (T := Workflow)) : system := fold_left (fun s i => call_of i s) order s.

(** A workflow none of whose versions is marked: what its requests get. *)
Lemma unmarked_latest id (c c1 : C) w : latestless id (docs c) -> GetLatest id c <> (inl w, c1).
Proof. intros [_ Hnone] [_ Hg]%GetLatest_docs. destruct (Hg _ eq_refl) as (Hin & Hi & Hl). by rewrite Hnone in Hl. Qed.

Lemma unmarked_unfetched id (c : C) raw : latestless id (docs c) -> ObjectIDFromHex raw = Ok id ->
  exists code msg, (GetWorkflow raw c).1 = Refused (ConnectError code msg) /\ (code = CodeNotFound \/ code = CodeInternal).
Proof.
  intros Hless Hid. unfold GetWorkflow, parseRecordID. rewrite Hid.
  destruct (GetLatest id c) as [[w|[|e]] c1] eqn:Hg; [by apply unmarked_latest in Hg|..]; cbn; eexists _, _; (split; [done|]); auto.
Qed.

Lemma unmarked_not_updated id (c : C) m patch mask : latestless id (docs c) -> ObjectIDFromHex (wmId patch) = Ok id ->
  refusal (UpdateWorkflow m (Some patch) mask c).1 <> None.
Proof.
  intros Hless Hid. unfold UpdateWorkflow. destruct (readUpdate _ mask c) as [[[id' stored]|f] c1] eqn:Hr; [|done].
  apply readUpdate_Reply in Hr as (p & current & [= <-] & Hid' & _ & Hg & _). rewrite Hid in Hid'. injection Hid' as <-. by apply unmarked_latest in Hg.
Qed.

Lemma unlisted id (c : C) `{!HexadecimalLaws} filter orderBy n token out next c' : latestless id (docs c) ->
  ListWorkflows filter orderBy n token c = (Reply (out, next), c') -> Hex id ∉ map wmId out.
Proof.
  intros [_ Hnone]. unfold ListWorkflows. destruct (parseListFilter filter); [done|]. destruct (negb _); [done|].
  destruct (workflowPageLimit n) as [limit|]; [|done]. destruct (workflowCursor token) as [cursor|]; [|done].
  destruct (ListLatest limit cursor c) as [[[[ws nc] more]|] c1] eqn:Hl; [|done].
  assert (forall w, w ∈ ws -> doc_id w <> id) as Hws.
  { intros w Hw Hi. assert (w ∈ docs c /\ latest w = true) as [Hin Hlat]; [|by rewrite (Hnone w Hin Hi) in Hlat].
    apply ListLatest_Ok in Hl as [_ Hl]. assert (w ∈ rows cursor (docs c)) as Hr.
    { destruct Hl as [(_ & _ & ->)|(l1 & y & _ & _ & Hrows)]; [done|]. rewrite Hrows, elem_of_app. by left. }
    unfold rows in Hr. rewrite descending_perm, list_elem_of_In, filter_In, <- list_elem_of_In in Hr. destruct Hr as [Hr Hsel].
    unfold selected in Hsel. by apply andb_true_iff in Hsel as [? _]. }
  destruct (encodeWorkflows ws) as [out'|] eqn:He; cbn; [|done]. intros [= <- _ _]. clear Hl.
  revert out' He. induction ws as [|w ws IH]; intros out'; cbn; [intros [= <-]; by intros ?%elem_of_nil|].
  destruct (workflowToProto w) as [msg|] eqn:Hp; [|done]. destruct (encodeWorkflows ws) as [rest|]; cbn; [|done]. intros [= <-].
  cbn. intros [E|Hin]%elem_of_cons; [|revert Hin; apply IH; [intros; apply Hws; by right|done]].
  apply workflowToProto_Ok in Hp as (graph & _ & ->). cbn in E. apply (Hws w ltac:(left)).
  pose proof (from_hex id) as Hx. rewrite E, from_hex in Hx. by injection Hx.
Qed.

(** A stored version is found under its number, marked or not. *)
Lemma version_reached id (c : C) raw w : ObjectIDFromHex raw = Ok id -> w ∈ docs c -> doc_id w = id -> 1 <= version w ->
  (exists answer, (GetWorkflowVersion raw (version w) c).1 = Reply answer) \/
  exists msg, (GetWorkflowVersion raw (version w) c).1 = Refused (ConnectError CodeInternal msg).
Proof.
  intros Hid Hw Hi Hv. unfold GetWorkflowVersion, parseRecordID. rewrite Hid. destruct (Z.ltb_spec (version w) 1); [lia|]. unfold GetVersion.
  destruct (findOne (versionOf id (version w)) c) as [[[d|]|e] c1] eqn:Hf.
  - cbn. unfold encodeWorkflow. destruct (workflowToProto d); [by left; eexists|right; by eexists].
  - pose proof (findOne_None _ _ _ Hf w Hw) as Hp. unfold versionOf, ofDocument in Hp. unfold doc_id, version in *.
    by rewrite Hi, !Z.eqb_refl in Hp.
  - right. by eexists.
Qed.

Lemma advance_started (p p' : saving Workflow) (c c' : C) : svStage p = Started -> advance p c = (p', c') ->
  (exists n, svStage p' = Numbered n) \/ exists e, svStage p' = Returned (inr e).
Proof. unfold advance. intros ->. destruct (nextVersion _ c) as [[n|e] c1]; intros [= <- <-]; eauto. Qed.

Lemma advance_returned (p p' : saving Workflow) (c c' : C) r : svStage p = Returned r -> advance p c = (p', c') -> p' = p.
Proof. unfold advance. intros ->. by intros [= <- <-]. Qed.

Lemma advance_unmarked (p p' : saving Workflow) (c c' : C) n : advance p c = (p', c') -> svStage p' = Unmarked n -> svStage p = Numbered n.
Proof.
  unfold advance. destruct (svStage p) as [|k|k|r] eqn:Hs.
  - destruct (nextVersion _ c) as [[k|e] c1]; by intros [= <- <-].
  - destruct (updateMany _ _ c) as [[[]|e] c1]; intros [= <- <-]; [|done]. by intros [= ->].
  - destruct (insertOne _ c) as [[[]|e] c1]; by intros [= <- <-].
  - intros [= <- <-]. by rewrite Hs.
Qed.

Lemma call_of_0 p q (c : C) : call_of 0 ([p; q], c) = let '(p', c') := advance p c in ([p'; q], c').
Proof. unfold call_of. cbn [fst snd lookup list_lookup]. by destruct (advance p c). Qed.

Lemma call_of_1 p q (c : C) : call_of 1 ([p; q], c) = let '(q', c') := advance q c in ([p; q'], c').
Proof. unfold call_of. cbn [fst snd lookup list_lookup]. by destruct (advance q c). Qed.

End races.
