(* ===== verification/WorkflowSamples.v ===== *)
(** The workflow service at work: an encoding of graphs and ids, a collection
    in memory, and the theorems of Workflows and WorkflowRaces at concrete
    requests. *)
From stdpp Require Import strings list.
From Stdlib Require Import ZArith Lia.
From S2P Require Import Prelude Sidecar Versioned ConfigStore Services Workflows SaveSteps WorkflowRaces ConfigSamples.
Import Versioned.Listed.
#[local] Open Scope Z_scope.
#[local] Open Scope go_scope.

(** A graph is its text, stored under the viewport. *)
#[local] Instance textGraphs : GraphCodec := {|
  WorkflowGraph := string; EmptyGraph := ""; bsonM := string;
  MarshalGraph g := Ok g;
  UnmarshalGraph text := if has_prefix "not a graph" text then Err "unknown field" else Ok text;
  MarshalDocument doc := Ok (match last doc with Some (_, DocumentElement text) => text | _ => "" end);
  UnmarshalStored text := Ok {| sgSchemaVersion := 1; sgNodes := None; sgEdges := None; sgViewport := Some text |} |}.

#[local] Instance textIds : Hexadecimal := {| Hex := @EncodePageToken tokens; ObjectIDFromHex := @DecodePageToken tokens |}.

#[local] Instance textIds_ok : HexadecimalLaws.
Proof. constructor; [exact (@decode_encode_token tokens tokens_ok)|exact (@token_not_empty tokens tokens_ok)]. Qed.

#[local] Existing Instance tokens.

(** The masks of the service. *)
#[local] Instance workflowMask : Masked WorkflowMessage := {| ValidateMask _ _ := Ok tt; UpdateMask := masked |}.

#[local] Instance workflowMask_ok : MaskedWorkflow.
Proof. by constructor. Qed.

(** * Requests *)

Definition message (id name description : string) (graph : string) : WorkflowMessage :=
  {| wmId := id; wmVersion := 0; wmCreatedAt := None; wmName := name; wmDescription := description; wmTags := ["nightly"]; wmGraph := Some graph |}.

Definition mint (n : Z) : minted := {| mtDocument := 10 + n; mtID := n; mtNow := 100 + n |}.

Definition nothing : collection Workflow := empty [].

(** A workflow is created, its name and its graph are changed. *)
Definition created : collection Workflow := (CreateWorkflow (mint 1) (Some (message "" "tidy" "tidies up" "a -> b")) nothing).2.
Definition renamed : reply failure WorkflowMessage * collection Workflow :=
  UpdateWorkflow (mint 2) (Some (message (Hex 11) "sweep" "" "a -> c")) ["name"; "graph"] created.

Example update_merges :
  match renamed.1 with Reply w => (wmName w, wmDescription w, wmGraph w, wmVersion w) = ("sweep", "tidies up", Some "a -> c", 2) | _ => False end.
Proof. reflexivity. Qed.

(** A graph that is stored and cannot be read again: the create is answered
    with an error, its version is stored, and no list is answered after it. *)
Definition unreadable : reply failure WorkflowMessage * collection Workflow :=
  CreateWorkflow (mint 3) (Some (message "" "odd" "cannot be read" "not a graph")) created.

Example stored_unreadable :
  unreadable.1 = Refused (ConnectError CodeInternal "failed to encode workflow") /\
  map (fun w => (wfName w, latest w)) (docs unreadable.2) = [("tidy", true); ("odd", true)] /\
  (ListWorkflows "" "" 0 "" unreadable.2).1 = Refused (ConnectError CodeInternal "failed to encode workflow").
Proof. split_and!; reflexivity. Qed.

(** * Witnesses *)

Lemma refused_untouched_witness : exists f c', serve (mint 2) (UpdateRequest (Some (message (Hex 99) "sweep" "" "")) ["name"]) created = (Some f, c') /\ docs c' = docs created.
Proof.
  eexists _, _. split; [reflexivity|].
  edestruct (refused_untouched (mint 2) (UpdateRequest (Some (message (Hex 99) "sweep" "" "")) ["name"]) created) as (code & msg & Hf & Hd); [reflexivity|].
  apply Hd. vm_compute in Hf. injection Hf as <- _. discriminate.
Defined.

Lemma created_ok : versions_ok (docs created).
Proof. eapply (Save_ok 11 1 101 NilObjectID); [by apply (docs_nil_ok nothing)|reflexivity]. Qed.

Lemma UpdateWorkflow_appends_witness : exists answer c' stored, renamed = (Reply answer, c') /\ docs c' = map unmark (docs created) ++ [stored] /\ version stored = 2.
Proof.
  destruct (UpdateWorkflow_appends (mint 2) (message (Hex 11) "sweep" "" "a -> c") ["name"; "graph"] created renamed.2
    match renamed.1 with Reply a => a | _ => message "" "" "" "" end created_ok) as (id & current & stored & Hid & Hc & Hi & Hl & _ & Hsi & Hsv & Hsl & Hd & _).
  - intros w Hw. by apply list_elem_of_singleton in Hw as ->.
  - reflexivity.
  - eexists _, _, stored. split; [reflexivity|]. apply list_elem_of_singleton in Hc as ->. split; [|exact Hsv].
    vm_compute in Hid. injection Hid as <-. exact Hd.
Defined.

Lemma workflows_paged_witness : exists outs c', workflowPages 3 1 "" (CreateWorkflow (mint 5) (Some (message "" "second" "one more" "")) created).2 = (Reply outs, c') /\
  map (map wmName) outs = [["second"]; ["tidy"]].
Proof.
  set (c := (CreateWorkflow (mint 5) (Some (message "" "second" "one more" "")) created).2).
  destruct (workflowPages 3 1 "" c) as [[outs|f] c'] eqn:Hp; [|vm_compute in Hp; discriminate Hp].
  exists outs, c'. split; [done|].
  destruct (workflows_paged 1 c c' outs) as [Henc Hlen]; [..|exact Hp|].
  - apply (bool_decide_unpack _). vm_compute. exact I.
  - intros w Hw. repeat (apply elem_of_cons in Hw as [->|Hw]; [discriminate|]). by apply elem_of_nil in Hw.
  - vm_compute in Hp. by injection Hp as <- _.
Defined.

(** Two creates whose calls alternate. *)
Definition wanted (name : string) : option WorkflowMessage := Some (message "" name "made by hand" "").
Definition made (name : string) : Workflow :=
  match readCreate (wanted name) with Reply w => w | _ => Build_Workflow noEnvelope "" "" [] 0 None None None end.

Definition both : system := calls [0; 1; 0; 1; 1; 0]%nat ([writing (mint 1) NilObjectID (made "one"); writing (mint 2) NilObjectID (made "two")], nothing).

Lemma service_calls order (s : system (C := collection Workflow) (T := Workflow)) : rtc service s (calls order s).
Proof.
  revert s. induction order as [|i order IH]; intros s; [apply rtc_refl|]. unfold calls. cbn [fold_left]. etransitivity; [|apply IH].
  unfold call_of. destruct s as [ps c]. cbn. destruct (ps !! i) as [p|] eqn:Hi; [|done]. destruct (advance p c) as [p' c'] eqn:Ha.
  apply rtc_once. by eapply service_call.
Qed.

Lemma service_invariant_witness : versions_ok (docs both.2) /\ map wfName (docs both.2) = ["two"; "one"].
Proof.
  split; [|reflexivity]. apply (service_invariant nothing both.1 both.2); [reflexivity|].
  apply (rtc_l _ _ ([writing (mint 1) NilObjectID (made "one")], nothing)); [by apply (service_create _ (wanted "one") _ [])|].
  apply (rtc_l _ _ ([writing (mint 1) NilObjectID (made "one"); writing (mint 2) NilObjectID (made "two")], nothing)); [by apply (service_create _ (wanted "two") _ [_])|].
  rewrite <- surjective_pairing. apply service_calls.
Defined.

(** One operator renames the workflow, another describes it. *)
Definition patchName : option WorkflowMessage := Some (message (Hex 11) "sweep" "" "").
Definition patchDescription : option WorkflowMessage := Some (message (Hex 11) "" "sweeps up" "").

Definition merged (patch : option WorkflowMessage) (mask : list string) : Workflow :=
  match (readUpdate patch mask created).1 with Reply (_, w) => w | _ => Build_Workflow noEnvelope "" "" [] 0 None None None end.

Definition racing : system :=
  calls [0; 1; 0; 0; 1]%nat ([writing (mint 2) 11 (merged patchName ["name"]); writing (mint 3) 11 (merged patchDescription ["description"])], created).

