(* ===== verification/BusTopology.v ===== *)
(** The bus statistics' rows and what they are held against:
    src/internal/server/busstats/topology.go and channels.go, over the topic
    table (Topics). What Redis answered is an argument; the order in which Go
    walks a map is [MapOrder]. *)
From stdpp Require Import strings list gmap.
From Stdlib Require Import Ascii ZArith Lia.
From coqutil Require Import Datatypes.RecordSetters.
Import DoubleBraceUpdate.
From S2P Require Import Prelude Regex Topics.
#[local] Open Scope go_scope.

(** * The rows *)

Record ConsumerStat : Type := { ctName : string; ctPending : Z; ctIdleSeconds : Z }.

Record GroupStat : Type := {
  gsName : string;
  gsConsumers : Z;
  gsPending : Z;
  gsLag : Z;
  gsLastDeliveredId : string;
  gsConsumerDetail : list ConsumerStat;
  gsOldestPendingAgeSeconds : Z;
  gsConsumeRate : Z;
  gsConsumersSeries : list Z;
  gsPendingSeries : list Z;
  gsLagSeries : list Z;
  gsOldestPendingAgeSecondsSeries : list Z;
  gsConsumeRateSeries : list Z;
}.

Record StreamStat : Type := {
  ssStream : string;
  ssEventName : string;
  ssError : string;
  ssExists : bool;
  ssLength : Z;
  ssPublishRate : Z;
  ssGroups : list GroupStat;
  ssLengthSeries : list Z;
  ssPublishRateSeries : list Z;
  ssExpectedIdentities : list string;
  ssFlagged : bool;
  ssMissingIdentities : list string;
}.

Record ChannelStat : Type := {
  csChannel : string;
  csSubscribers : Z;
  csKnown : bool;
  csExpectedIdentities : list string;
  csFlagged : bool;
  csMissingIdentities : list string;
}.

(** A row Redis has nothing for. *)
Definition blankStream (name : string) : StreamStat := {|
  ssStream := name; ssEventName := ""; ssError := ""; ssExists := false; ssLength := 0; ssPublishRate := 0; ssGroups := [];
  ssLengthSeries := []; ssPublishRateSeries := []; ssExpectedIdentities := []; ssFlagged := false; ssMissingIdentities := [] |}.

Definition channelRow (name : string) (subscribers : Z) (known : bool) : ChannelStat := {|
  csChannel := name; csSubscribers := subscribers; csKnown := known; csExpectedIdentities := []; csFlagged := false; csMissingIdentities := [] |}.

(** * The topology *)

Record ExpectedStream : Type := { esStream : string; esGroup : string; esIdentities : list string }.
Record ExpectedChannel : Type := { ecChannel : string; ecIdentities : list string }.
Record Topology : Type := { tyStreams : gmap string ExpectedStream; tyChannels : gmap string ExpectedChannel }.

Definition emptyTopology : Topology := {| tyStreams := ∅; tyChannels := ∅ |}.

(** [Topology.add]. *)
Definition addTopic (topic : Topic) (identities : list string) (top : Topology) : Topology :=
  if bool_decide (tpKind topic = KindStream)
  then {| tyStreams := <[tpName topic := {| esStream := tpName topic; esGroup := tpGroup topic; esIdentities := identities |}]> (tyStreams top);
          tyChannels := tyChannels top |}
  else {| tyStreams := tyStreams top;
          tyChannels := <[tpName topic := {| ecChannel := tpName topic; ecIdentities := identities |}]> (tyChannels top) |}.

Definition staticIdentities (topic : Topic) : list string :=
  if bool_decide (tpKind topic = KindStream)
  then if tpConsumed topic && negb (String.eqb (tpGroup topic) "") then [SourceServer] else []
  else [SourceServer].

Definition addStatic (top : Topology) (topic : Topic) : Topology :=
  if tpPattern topic then top else addTopic topic (staticIdentities topic) top.

Definition addAgent (top : Topology) (slug : string) : Topology :=
  fold_left (fun top topic => addTopic topic [AgentSource slug] top) (AgentTopics slug) top.

Definition DeriveTopology (topics : list Topic) (slugs : list string) : Topology :=
  fold_left addAgent slugs (fold_left addStatic topics emptyTopology).

Fixpoint nameMissing (expected : list string) (present : gset string) (countShort : bool) : list string :=
  match expected with
  | [] => []
  | identity :: rest =>
      let missing := nameMissing rest present countShort in
      match SlugFromAgentSource identity with
      | Some slug => if bool_decide (slug ∉ present) || countShort then identity :: missing else missing
      | None => if countShort then identity :: missing else missing
      end
  end.

Section apply.
Context `{MapOrder}.

(** The loop over a row's groups: the last one of the expected name counts. *)
Definition groupConsumers (group : string) (groups : list GroupStat) : option Z :=
  fold_left (fun acc g => if String.eqb (gsName g) group then Some (gsConsumers g) else acc) groups None.

Definition underConsumed (expected : ExpectedStream) (stat : StreamStat) : bool :=
  match groupConsumers (esGroup expected) (ssGroups stat) with
  | Some consumers => (consumers <? Z.of_nat (length (esIdentities expected)))%Z
  | None => false
  end.

(** What is written on one row. *)
Definition annotateStream (top : Topology) (present : gset string) (stat : StreamStat) : StreamStat :=
  match tyStreams top !! ssStream stat with
  | None => stat
  | Some expected =>
      let stat := (stat : StreamStat) {{ ssExpectedIdentities := esIdentities expected }} in
      match esIdentities expected with
      | [] => stat
      | _ =>
          match nameMissing (esIdentities expected) present (underConsumed expected stat) with
          | [] => stat
          | missing => (stat : StreamStat) {{ ssFlagged := true; ssMissingIdentities := missing }}
          end
      end
  end.

(** The rows of the topology that were not sampled. *)
Definition missingStreams (streams : list StreamStat) (top : Topology) : list StreamStat :=
  map blankStream (List.filter (fun name => negb (bool_decide (name ∈ map ssStream streams)))
    (map fst (range_map ["applyStreamTopology"] (tyStreams top)))).

Definition applyStreamTopology (streams : list StreamStat) (top : Topology) (present : gset string) : list StreamStat :=
  stable_sort ssStream String.ltb (map (annotateStream top present) (streams ++ missingStreams streams top)).

Definition annotateChannel (top : Topology) (present : gset string) (stat : ChannelStat) : ChannelStat :=
  match tyChannels top !! csChannel stat with
  | None => stat
  | Some expected =>
      let stat := (stat : ChannelStat) {{ csKnown := true; csExpectedIdentities := ecIdentities expected }} in
      if (csSubscribers stat <? Z.of_nat (length (ecIdentities expected)))%Z
      then (stat : ChannelStat) {{ csFlagged := true; csMissingIdentities := nameMissing (ecIdentities expected) present true }}
      else stat
  end.

Definition missingChannels (channels : list ChannelStat) (top : Topology) : list ChannelStat :=
  map (fun name => channelRow name 0 true) (List.filter (fun name => negb (bool_decide (name ∈ map csChannel channels)))
    (map fst (range_map ["applyChannelTopology"] (tyChannels top)))).

(** The order of [sortChannelStats]. *)
Definition channelBefore (a b : bool * string) : bool :=
  if Bool.eqb a.1 b.1 then String.ltb a.2 b.2 else a.1.

Definition sortChannelStats (stats : list ChannelStat) : list ChannelStat :=
  stable_sort (fun stat => (csKnown stat, csChannel stat)) channelBefore stats.

Definition applyChannelTopology (channels : list ChannelStat) (top : Topology) (present : gset string) : list ChannelStat :=
  sortChannelStats (map (annotateChannel top present) (channels ++ missingChannels channels top)).

(** [collectChannels], from the answers of PUBSUB CHANNELS and PUBSUB NUMSUB. *)
Definition collectChannels (live : result (list string)) (numSub : list string -> result (gmap string Z)) : list ChannelStat :=
  let names := list_to_set KnownPubSubChannels ∪ (match live with Ok names => list_to_set names | Err _ => ∅ end : gset string) in
  let ordered := sort_strings (range_set ["collectChannels"] names) in
  let counts := match ordered with [] => ∅ | _ => match numSub ordered with Ok got => got | Err _ => ∅ end end in
  sortChannelStats (map (fun name => channelRow name (default 0%Z (counts !! name)) (bool_decide (name ∈ KnownPubSubChannels))) ordered).
End apply.

(** * What is expected *)

Lemma addTopic_streams topic ids top name :
  tyStreams (addTopic topic ids top) !! name =
  if bool_decide (tpKind topic = KindStream /\ tpName topic = name)
  then Some {| esStream := name; esGroup := tpGroup topic; esIdentities := ids |} else tyStreams top !! name.
Proof.
  unfold addTopic. case_bool_decide as Hk; case_bool_decide as Hn; cbn; try naive_solver.
  - destruct Hn as [_ <-]. by rewrite lookup_insert_eq.
  - rewrite lookup_insert_ne by naive_solver. done.
Qed.

Lemma addTopic_channels topic ids top name :
  tyChannels (addTopic topic ids top) !! name =
  if bool_decide (tpKind topic <> KindStream /\ tpName topic = name)
  then Some {| ecChannel := name; ecIdentities := ids |} else tyChannels top !! name.
Proof.
  unfold addTopic. case_bool_decide as Hk; case_bool_decide as Hn; cbn; try naive_solver.
  - destruct Hn as [_ <-]. by rewrite lookup_insert_eq.
  - rewrite lookup_insert_ne by naive_solver. done.
Qed.

Lemma addAgent_streams top slug name :
  tyStreams (addAgent top slug) !! name =
  if decide (name = AgentCommandStream slug)
  then Some {| esStream := name; esGroup := AgentCommandGroup slug; esIdentities := [AgentSource slug] |} else tyStreams top !! name.
Proof.
  unfold addAgent. cbn [fold_left AgentTopics]. rewrite !addTopic_streams. cbn. repeat case_bool_decide; destruct (decide _); naive_solver.
Qed.

Lemma addAgent_channels top slug name :
  tyChannels (addAgent top slug) !! name =
  if decide (name = AgentConfigChangedChannel slug \/ name = AgentRequestChannel slug)
  then Some {| ecChannel := name; ecIdentities := [AgentSource slug] |} else tyChannels top !! name.
Proof.
  unfold addAgent. cbn [fold_left AgentTopics]. rewrite !addTopic_channels. cbn. repeat case_bool_decide; destruct (decide _); naive_solver.
Qed.

(** The rows every server has. *)
Lemma static_streams name :
  tyStreams (fold_left addStatic Topics emptyTopology) !! name =
  if decide (name = AgentScanResultStream) then Some {| esStream := name; esGroup := AgentScanResultGroup; esIdentities := [SourceServer] |}
  else if decide (name = AgentNodeResultStream) then Some {| esStream := name; esGroup := ""; esIdentities := [] |} else None.
Proof.
  transitivity ((<[AgentNodeResultStream := {| esStream := AgentNodeResultStream; esGroup := ""; esIdentities := [] |}]>
    {[AgentScanResultStream := {| esStream := AgentScanResultStream; esGroup := AgentScanResultGroup; esIdentities := [SourceServer] |}]} : gmap string ExpectedStream) !! name); [done|].
  destruct (decide (name = AgentScanResultStream)) as [->|Hr]; [done|]. destruct (decide (name = AgentNodeResultStream)) as [->|Hn]; [done|].
  by rewrite lookup_insert_ne, lookup_singleton_ne.
Qed.

Lemma static_channels name :
  tyChannels (fold_left addStatic Topics emptyTopology) !! name =
  if decide (name ∈ KnownPubSubChannels) then Some {| ecChannel := name; ecIdentities := [SourceServer] |} else None.
Proof.
  transitivity ((<[LogChannel := {| ecChannel := LogChannel; ecIdentities := [SourceServer] |}]>
    {[HeartbeatRequestChannel := {| ecChannel := HeartbeatRequestChannel; ecIdentities := [SourceServer] |}]} : gmap string ExpectedChannel) !! name); [done|].
  change KnownPubSubChannels with [HeartbeatRequestChannel; LogChannel].
  destruct (decide (name = LogChannel)) as [->|Hl]; [done|]. destruct (decide (name = HeartbeatRequestChannel)) as [->|Hh]; [done|].
  rewrite lookup_insert_ne, lookup_singleton_ne by done. rewrite decide_False; [done|]. by intros [|[|?%elem_of_nil]%elem_of_cons]%elem_of_cons.
Qed.

(** ** The topology of the registered agents *)

Lemma fold_agents_streams slugs top name :
  tyStreams (fold_left addAgent slugs top) !! name =
  match List.find (fun slug => String.eqb name (AgentCommandStream slug)) slugs with
  | Some slug => Some {| esStream := name; esGroup := AgentCommandGroup slug; esIdentities := [AgentSource slug] |}
  | None => tyStreams top !! name
  end.
Proof.
  revert top. induction slugs as [|slug slugs IH]; intros top; [done|]. cbn [fold_left List.find]. rewrite IH, addAgent_streams.
  destruct (String.eqb_spec name (AgentCommandStream slug)) as [->|Hne]; [|by rewrite decide_False].
  rewrite decide_True by done. destruct (List.find _ slugs) as [slug'|] eqn:Hf; [|done].
  apply find_some in Hf as [_ He%String.eqb_eq%AgentCommandStream_inj]. by subst.
Qed.

Definition noticeOf (slug name : string) : bool := String.eqb name (AgentConfigChangedChannel slug) || String.eqb name (AgentRequestChannel slug).

(** Channels of different agents with valid slugs differ. *)
Lemma noticeOf_inj a b name : ValidateSlug a = None -> ValidateSlug b = None -> noticeOf a name = true -> noticeOf b name = true -> a = b.
Proof.
  unfold noticeOf. intros (_ & _ & Ha)%ValidateSlug_iff (_ & _ & Hb)%ValidateSlug_iff [H1|H1]%orb_true_iff [H2|H2]%orb_true_iff;
    apply String.eqb_eq in H1, H2; subst name.
  - by apply str_app_inv_l in H2.
  - by apply request_config in H2.
  - symmetry in H2. by apply request_config in H2.
  - unfold AgentRequestChannel in H2. by apply str_app_inv_l, str_app_inv_r in H2.
Qed.

Lemma fold_agents_channels slugs top name : Forall (fun slug => ValidateSlug slug = None) slugs ->
  tyChannels (fold_left addAgent slugs top) !! name =
  match List.find (fun slug => noticeOf slug name) slugs with
  | Some slug => Some {| ecChannel := name; ecIdentities := [AgentSource slug] |}
  | None => tyChannels top !! name
  end.
Proof.
  intros Hall. revert top. induction Hall as [|slug slugs Hs Hall IH]; intros top; [done|]. cbn [fold_left List.find]. rewrite IH, addAgent_channels.
  destruct (noticeOf slug name) eqn:Hn.
  - rewrite decide_True by (unfold noticeOf in Hn; by rewrite orb_true_iff, !String.eqb_eq in Hn).
    destruct (List.find _ slugs) as [slug'|] eqn:Hf; [|done]. apply find_some in Hf as [Hin Hf]. rewrite Forall_forall in Hall.
    by rewrite (noticeOf_inj slug slug' name Hs (Hall _ (proj2 (list_elem_of_In _ _) Hin)) Hn Hf).
  - rewrite decide_False; [done|]. unfold noticeOf in Hn. rewrite orb_false_iff, !String.eqb_neq in Hn. tauto.
Qed.

Lemma find_slug (p : string -> bool) slugs slug : List.find p slugs = Some slug -> slug ∈ slugs /\ p slug = true.
Proof. intros [? ?]%find_some. by rewrite list_elem_of_In. Qed.

Lemma AgentSource_slug slug : slug <> "" -> SlugFromAgentSource (AgentSource slug) = Some slug.
Proof.
  intros Hne. unfold SlugFromAgentSource, AgentSource. rewrite has_prefix_app, str_drop_app. cbn [negb orb].
  destruct (String.eqb_spec (agentSourcePrefix +:+ slug) agentSourcePrefix) as [He|]; [|done].
  apply (f_equal String.length) in He. rewrite str_length_app in He. destruct slug; [done|simpl in He; lia].
Qed.

(** * What is flagged *)

(** A row as it is collected, before it is held against the topology. *)
Definition plainStream (stat : StreamStat) : Prop := ssFlagged stat = false /\ ssMissingIdentities stat = [].
Definition plainChannel (stat : ChannelStat) : Prop := csFlagged stat = false /\ csMissingIdentities stat = [].

(** Nobody reads a group that exists. *)
Definition unread (group : string) (stat : StreamStat) : bool :=
  match groupConsumers group (ssGroups stat) with Some consumers => (consumers <? 1)%Z | None => false end.

Lemma underConsumed_one name group id stat ids :
  underConsumed {| esStream := name; esGroup := group; esIdentities := [id] |} ((stat : StreamStat) {{ ssExpectedIdentities := ids }}) = unread group stat.
Proof. done. Qed.

Section flags.
Context `{MapOrder} (slugs : list string) (present : gset string).
Hypothesis valid : Forall (fun slug => ValidateSlug slug = None) slugs.

Lemma valid_not_empty slug : slug ∈ slugs -> slug <> "".
Proof. rewrite Forall_forall in valid. by intros (? & _ & _)%valid%ValidateSlug_iff. Qed.

Let top := DeriveTopology Topics slugs.

Lemma annotateStream_fields stat : ssStream (annotateStream top present stat) = ssStream stat /\ ssGroups (annotateStream top present stat) = ssGroups stat.
Proof.
  unfold annotateStream. destruct (tyStreams top !! _) as [expected|]; [|done]. destruct (esIdentities expected); [done|].
  by destruct (nameMissing _ _ _).
Qed.

Lemma annotateStream_flag stat : plainStream stat ->
  (ssFlagged (annotateStream top present stat) = true <->
    (exists slug, slug ∈ slugs /\ ssStream stat = AgentCommandStream slug /\ (slug ∉ present \/ unread (AgentCommandGroup slug) stat = true) /\
       ssMissingIdentities (annotateStream top present stat) = [AgentSource slug]) \/
    (ssStream stat = AgentScanResultStream /\ unread AgentScanResultGroup stat = true /\
       ssMissingIdentities (annotateStream top present stat) = [SourceServer])).
Proof.
  intros [Hf Hm]. unfold annotateStream. assert (tyStreams top !! ssStream stat =
    match List.find (fun slug => String.eqb (ssStream stat) (AgentCommandStream slug)) slugs with
    | Some slug => Some {| esStream := ssStream stat; esGroup := AgentCommandGroup slug; esIdentities := [AgentSource slug] |}
    | None => tyStreams (fold_left addStatic Topics emptyTopology) !! ssStream stat
    end) as -> by apply fold_agents_streams.
  destruct (List.find _ slugs) as [slug|] eqn:Hfind.
  - apply find_slug in Hfind as [Hin He%String.eqb_eq]. cbv zeta. cbn [esIdentities nameMissing]. rewrite (AgentSource_slug slug) by by apply valid_not_empty.
    rewrite underConsumed_one.
    assert (forall slug', slug' ∈ slugs -> ssStream stat = AgentCommandStream slug' -> slug' = slug) as Hu by (intros slug' _; rewrite He; by intros <-%AgentCommandStream_inj).
    assert (ssStream stat <> AgentScanResultStream) as Hne by (rewrite He; by intros ?).
    case_bool_decide as Hp; destruct (unread (AgentCommandGroup slug) stat) eqn:Hun; cbn [orb].
    1,2,3: split; [|done]; intros _; left; exists slug; split_and!; [done..| |done]; auto.
    split; [intros Hx; change (ssFlagged stat = true) in Hx; congruence|]. intros [(slug' & Hin' & He' & [Hx|Hx] & _)|(? & _)]; [| |done]; rewrite (Hu slug' Hin' He') in Hx; [done|congruence].
  - assert (forall slug, slug ∈ slugs -> ssStream stat <> AgentCommandStream slug) as Hnone.
    { intros slug Hin He. apply (find_none _ _ Hfind) in Hin as Hx || (apply list_elem_of_In in Hin; pose proof (find_none _ _ Hfind slug Hin) as Hx).
      by rewrite He, String.eqb_refl in Hx. }
    rewrite static_streams. destruct (decide _) as [He|He]; [|destruct (decide _) as [He'|He']].
    + cbv zeta. cbn [esIdentities nameMissing]. rewrite underConsumed_one. change (SlugFromAgentSource SourceServer) with (@None string).
      destruct (unread AgentScanResultGroup stat) eqn:Hun.
      * split; [|done]. intros _. right. split_and!; [done..|]. done.
      * split; [intros Hx; change (ssFlagged stat = true) in Hx; congruence|]. intros [(slug & Hin & Hs & _)|(_ & Hx & _)]; [by destruct (Hnone _ Hin Hs)|done].
    + split; [intros Hx; change (ssFlagged stat = true) in Hx; congruence|]. intros [(slug & Hin & Hs & _)|(Hx & _)]; [by destruct (Hnone _ Hin Hs)|by rewrite Hx in He'].
    + split; [intros Hx; congruence|]. intros [(slug & Hin & Hs & _)|(Hx & _)]; [by destruct (Hnone _ Hin Hs)|done].
Qed.

Lemma annotateChannel_fields stat : csChannel (annotateChannel top present stat) = csChannel stat /\ csSubscribers (annotateChannel top present stat) = csSubscribers stat.
Proof. unfold annotateChannel. destruct (tyChannels top !! _) as [expected|]; [|done]. cbv zeta. by destruct (_ <? _)%Z. Qed.

Lemma annotateChannel_flag stat : plainChannel stat ->
  csFlagged (annotateChannel top present stat) = true <->
    ((exists slug, slug ∈ slugs /\ noticeOf slug (csChannel stat) = true /\
       csMissingIdentities (annotateChannel top present stat) = [AgentSource slug]) \/
     (csChannel stat ∈ KnownPubSubChannels /\ csMissingIdentities (annotateChannel top present stat) = [SourceServer])) /\ (csSubscribers stat < 1)%Z.
Proof.
  intros [Hf Hm]. unfold annotateChannel. assert (tyChannels top !! csChannel stat =
    match List.find (fun slug => noticeOf slug (csChannel stat)) slugs with
    | Some slug => Some {| ecChannel := csChannel stat; ecIdentities := [AgentSource slug] |}
    | None => tyChannels (fold_left addStatic Topics emptyTopology) !! csChannel stat
    end) as -> by by apply fold_agents_channels.
  destruct (List.find _ slugs) as [slug|] eqn:Hfind.
  - apply find_slug in Hfind as [Hin He]. cbv zeta. cbn [ecIdentities nameMissing length]. rewrite (AgentSource_slug slug) by by apply valid_not_empty.
    rewrite orb_true_r. change (csSubscribers (_ {{ csExpectedIdentities := _ }})) with (csSubscribers stat).
    destruct (Z.ltb_spec (csSubscribers stat) (Z.of_nat 1)) as [Hlt|Hge].
    + split; [|done]. intros _. split; [left; by exists slug|lia].
    + split; [|lia]. intros Hx. change (csFlagged stat = true) in Hx. congruence.
  - rewrite static_channels. destruct (decide _) as [He|He].
    + cbv zeta. cbn [ecIdentities nameMissing length]. change (SlugFromAgentSource SourceServer) with (@None string).
      change (csSubscribers (_ {{ csExpectedIdentities := _ }})) with (csSubscribers stat).
      destruct (Z.ltb_spec (csSubscribers stat) (Z.of_nat 1)) as [Hlt|Hge].
      * split; [|done]. intros _. split; [by right|lia].
      * split; [|lia]. intros Hx. change (csFlagged stat = true) in Hx. congruence.
    + split; [congruence|]. intros [[(slug & Hin & Hs & _)|[Hx _]] _]; [|done].
      apply list_elem_of_In in Hin. pose proof (find_none _ _ Hfind slug Hin). cbv beta in H0. congruence.
Qed.

(** ** The rows that are shown *)

Lemma range_map_NoDup {V} site (m : gmap string V) : NoDup (map fst (range_map site m)).
Proof. rewrite range_map_perm. apply NoDup_fst_map_to_list. Qed.

Lemma missing_names {V} site (m : gmap string V) (have : list string) :
  let missing := List.filter (fun name => negb (bool_decide (name ∈ have))) (map fst (range_map site m)) in
  NoDup missing /\ forall name, name ∈ missing <-> is_Some (m !! name) /\ name ∉ have.
Proof.
  split; [rewrite <- (map_id (List.filter _ _)); apply NoDup_map_filter; rewrite map_id; apply range_map_NoDup|]. intros name. rewrite list_elem_of_In, filter_In, <- list_elem_of_In.
  rewrite negb_true_iff, bool_decide_eq_false. split.
  - intros [(kv & -> & Hkv)%list_elem_of_fmap Hne]. split; [|done]. destruct kv as [k v]. apply elem_of_range_map in Hkv. by exists v.
  - intros [[v Hv] Hne]. split; [|done]. apply list_elem_of_fmap. exists (name, v). split; [done|]. by apply elem_of_range_map.
Qed.

Lemma annotated_names streams : map ssStream (map (annotateStream top present) streams) = map ssStream streams.
Proof. rewrite map_map. apply map_ext. intros stat. by destruct (annotateStream_fields stat). Qed.

Lemma stream_names streams : NoDup (map ssStream streams) ->
  NoDup (map ssStream (applyStreamTopology streams top present)) /\
  (forall name, name ∈ map ssStream (applyStreamTopology streams top present) <-> name ∈ map ssStream streams \/ is_Some (tyStreams top !! name)).
Proof.
  intros Hnd. assert (map ssStream (applyStreamTopology streams top present) ≡ₚ map ssStream (streams ++ missingStreams streams top)) as Hperm.
  { unfold applyStreamTopology. rewrite stable_sort_perm. by rewrite annotated_names. }
  destruct (missing_names ["applyStreamTopology"] (tyStreams top) (map ssStream streams)) as [Hm Hin].
  assert (map ssStream (missingStreams streams top) =
    List.filter (fun name => negb (bool_decide (name ∈ map ssStream streams))) (map fst (range_map ["applyStreamTopology"] (tyStreams top)))) as Hmn.
  { unfold missingStreams. by rewrite map_map, map_id. }
  split.
  - rewrite Hperm, map_app, Hmn. apply NoDup_app. split_and!; [done| |done]. intros name Hn [_ Hx]%Hin. done.
  - intros name. rewrite Hperm, map_app, Hmn, elem_of_app, Hin. destruct (decide (name ∈ map ssStream streams)); tauto.
Qed.

Lemma channel_names channels : NoDup (map csChannel channels) ->
  NoDup (map csChannel (applyChannelTopology channels top present)) /\
  (forall name, name ∈ map csChannel (applyChannelTopology channels top present) <-> name ∈ map csChannel channels \/ is_Some (tyChannels top !! name)).
Proof.
  intros Hnd. assert (map csChannel (applyChannelTopology channels top present) ≡ₚ map csChannel (channels ++ missingChannels channels top)) as Hperm.
  { unfold applyChannelTopology, sortChannelStats. rewrite stable_sort_perm, map_map. erewrite map_ext; [done|]. intros stat. by destruct (annotateChannel_fields stat). }
  destruct (missing_names ["applyChannelTopology"] (tyChannels top) (map csChannel channels)) as [Hm Hin].
  assert (map csChannel (missingChannels channels top) =
    List.filter (fun name => negb (bool_decide (name ∈ map csChannel channels))) (map fst (range_map ["applyChannelTopology"] (tyChannels top)))) as Hmn.
  { unfold missingChannels. by rewrite map_map, map_id. }
  split.
  - rewrite Hperm, map_app, Hmn. apply NoDup_app. split_and!; [done| |done]. intros name Hn [_ Hx]%Hin. done.
  - intros name. rewrite Hperm, map_app, Hmn, elem_of_app, Hin. destruct (decide (name ∈ map csChannel channels)); tauto.
Qed.

Lemma stream_row streams row : Forall plainStream streams -> row ∈ applyStreamTopology streams top present ->
  exists stat, plainStream stat /\ row = annotateStream top present stat.
Proof.
  intros Hall. unfold applyStreamTopology. rewrite elem_of_stable_sort. intros (stat & -> & Hs)%list_elem_of_fmap. exists stat. split; [|done].
  apply elem_of_app in Hs as [Hs|(name & -> & _)%list_elem_of_fmap]; [by eapply Forall_forall|done].
Qed.

Lemma channel_row channels row : Forall plainChannel channels -> row ∈ applyChannelTopology channels top present ->
  exists stat, plainChannel stat /\ row = annotateChannel top present stat.
Proof.
  intros Hall. unfold applyChannelTopology, sortChannelStats. rewrite elem_of_stable_sort. intros (stat & -> & Hs)%list_elem_of_fmap. exists stat. split; [|done].
  apply elem_of_app in Hs as [Hs|(name & -> & _)%list_elem_of_fmap]; [by eapply Forall_forall|done].
Qed.
End flags.

(** C20: the dashboard accounts for every registered agent. Whatever Redis
    surfaced, each registered agent's command stream and its two channels are
    shown, each name once; a stream is flagged exactly when it is the command
    stream of a registered agent that is not present or whose group nobody
    reads, or the result stream when nobody reads its group; a channel exactly
    when it is a registered agent's or a fixed one and has no subscriber; and a
    flagged row names the one process that is missing. *)
Theorem agents_accounted `{MapOrder} slugs present streams channels :
  Forall (fun slug => ValidateSlug slug = None) slugs ->
  Forall plainStream streams -> NoDup (map ssStream streams) -> Forall plainChannel channels -> NoDup (map csChannel channels) ->
  let streams' := applyStreamTopology streams (DeriveTopology Topics slugs) present in
  let channels' := applyChannelTopology channels (DeriveTopology Topics slugs) present in
  (forall slug, slug ∈ slugs -> AgentCommandStream slug ∈ map ssStream streams' /\
     AgentConfigChangedChannel slug ∈ map csChannel channels' /\ AgentRequestChannel slug ∈ map csChannel channels') /\
  NoDup (map ssStream streams') /\ NoDup (map csChannel channels') /\
  (forall row, row ∈ streams' -> ssFlagged row = true <->
     (exists slug, slug ∈ slugs /\ ssStream row = AgentCommandStream slug /\ (slug ∉ present \/ unread (AgentCommandGroup slug) row = true) /\
        ssMissingIdentities row = [AgentSource slug]) \/
     (ssStream row = AgentScanResultStream /\ unread AgentScanResultGroup row = true /\ ssMissingIdentities row = [SourceServer])) /\
  (forall row, row ∈ channels' -> csFlagged row = true <->
     ((exists slug, slug ∈ slugs /\ noticeOf slug (csChannel row) = true /\ csMissingIdentities row = [AgentSource slug]) \/
      (csChannel row ∈ KnownPubSubChannels /\ csMissingIdentities row = [SourceServer])) /\ (csSubscribers row < 1)%Z).
Proof.
  intros Hvalid Hps Hns Hpc Hnc streams' channels'. subst streams' channels'.
  destruct (stream_names slugs present streams Hns) as [Hnd Hin]. destruct (channel_names slugs present channels Hnc) as [Hnd' Hin'].
  split_and!; [|done|done|..].
  - intros slug Hs. rewrite Hin, !Hin'.
    assert (forall p : string -> bool, p slug = true -> is_Some (List.find p slugs)) as Hfind.
    { intros p Hp. destruct (List.find p slugs) eqn:Hf; [by eexists|]. apply list_elem_of_In in Hs. pose proof (find_none _ _ Hf _ Hs). congruence. }
    unfold DeriveTopology. rewrite fold_agents_streams, !fold_agents_channels by done.
    destruct (Hfind (fun s => String.eqb (AgentCommandStream slug) (AgentCommandStream s)) (String.eqb_refl _)) as [s1 ->].
    destruct (Hfind (fun s => noticeOf s (AgentConfigChangedChannel slug))) as [s2 ->]; [unfold noticeOf; by rewrite String.eqb_refl|].
    destruct (Hfind (fun s => noticeOf s (AgentRequestChannel slug))) as [s3 ->]; [unfold noticeOf; by rewrite String.eqb_refl, orb_true_r|].
    split_and!; right; by eexists.
  - intros row (stat & Hplain & ->)%stream_row; [|done]. destruct (annotateStream_fields slugs present stat) as [Hn Hg].
    rewrite annotateStream_flag by done. unfold unread. by rewrite Hn, Hg.
  - intros row (stat & Hplain & ->)%channel_row; [|done]. destruct (annotateChannel_fields slugs present stat) as [Hn Hs].
    rewrite annotateChannel_flag by done. by rewrite Hn, Hs.
Qed.

(** Two agents, one of them away, and a result stream nobody reads. *)
Definition sampleRows : list StreamStat :=
  [(blankStream AgentScanResultStream) {{ ssGroups := [{| gsName := AgentScanResultGroup; gsConsumers := 0; gsPending := 3; gsLag := 0; gsLastDeliveredId := "";
     gsConsumerDetail := []; gsOldestPendingAgeSeconds := 0; gsConsumeRate := 0; gsConsumersSeries := []; gsPendingSeries := []; gsLagSeries := [];
     gsOldestPendingAgeSecondsSeries := []; gsConsumeRateSeries := [] |}] }}].

Definition sampleChannels : list ChannelStat := [channelRow "heartbeat.request" 1 true; channelRow "logs.app" 0 true; channelRow "agent.nas.request" 1 false].

Example sample_topology :
  map (fun row => (ssStream row, ssMissingIdentities row)) (applyStreamTopology (H := enumeration_order) sampleRows (DeriveTopology Topics ["nas"; "attic"]) {["nas"]}) =
    [("events.agent.attic.commands", ["metarr-agent-attic"]); ("events.agent.nas.commands", []); ("events.agent_node_results", []);
     ("events.agent_scan_results", ["metarr-server"])] /\
  map (fun row => (csChannel row, csMissingIdentities row)) (applyChannelTopology (H := enumeration_order) sampleChannels (DeriveTopology Topics ["nas"; "attic"]) {["nas"]}) =
    [("agent.attic.request", ["metarr-agent-attic"]); ("agent.config.changed.attic", ["metarr-agent-attic"]); ("agent.config.changed.nas", ["metarr-agent-nas"]);
     ("agent.nas.request", []); ("heartbeat.request", []); ("logs.app", ["metarr-server"])].
Proof. split; vm_compute; reflexivity. Qed.

Lemma agents_accounted_witness :
  AgentCommandStream "attic" ∈ map ssStream (applyStreamTopology (H := enumeration_order) sampleRows (DeriveTopology Topics ["nas"; "attic"]) {["nas"]}).
Proof.
  eapply (agents_accounted (H := enumeration_order) ["nas"; "attic"] {["nas"]} sampleRows sampleChannels).
  - repeat constructor.
  - repeat constructor.
  - apply (bool_decide_unpack _). vm_compute. exact I.
  - repeat constructor.
  - apply (bool_decide_unpack _). vm_compute. exact I.
  - right. left.
Defined.
