(* ===== verification/BusStats.v ===== *)
(** The bus statistics: src/internal/server/busstats/busstats.go, streams.go
    and info.go, over the rows and the topology of BusTopology.

    What Redis answers during a pass, which slugs are configured and what the
    clock reads is the record [answers]; a pass is a function of it and the
    sampler. Viewers are numbered: a channel is its buffer of one, and a send
    on or a close of a closed channel is [Panic]. *)
From stdpp Require Import strings list gmap.
From Stdlib Require Import Ascii ZArith Lia SpecFloat.
From coqutil Require Import Datatypes.RecordSetters.
Import DoubleBraceUpdate.
From S2P Require Import Prelude Regex GoText Topics Streams BusTopology.
#[local] Open Scope go_scope.

(** * Numbers *)

(** [int64(d.Seconds())], in float64 arithmetic. *)
Definition float_of (n : Z) : spec_float := binary_normalize 53 1024 n 0 false.

Definition Seconds (d : Z) : spec_float :=
  SFadd 53 1024 (float_of (Z.quot d 1000000000)) (SFdiv 53 1024 (float_of (Z.rem d 1000000000)) (float_of 1000000000)).

Definition truncate (f : spec_float) : Z :=
  match f with
  | S754_zero _ => 0
  | S754_finite s m e => let n := if (0 <=? e)%Z then (Z.pos m * 2 ^ e)%Z else (Z.pos m / 2 ^ (- e))%Z in if s then (- n)%Z else n
  | _ => -9223372036854775808
  end.

Definition wholeSeconds (d : Z) : Z := truncate (Seconds d).

Example seconds_truncated : map wholeSeconds [0; 1500000000; 59999999999; 20000000999999999; -1500000000]%Z = [0; 1; 59; 20000001; -1]%Z.
Proof. reflexivity. Qed.

(** [time.Time.Sub] saturates. *)
Definition saturate (d : Z) : Z := Z.max (-9223372036854775808) (Z.min 9223372036854775807 d).

(** * INFO *)

(** [strings.Split] by one character. *)
Fixpoint splitOn (sep : ascii) (s : string) : list string :=
  match s with
  | EmptyString => [EmptyString]
  | String c rest =>
      if Ascii.eqb c sep then EmptyString :: splitOn sep rest
      else match splitOn sep rest with first :: others => String c first :: others | [] => [String c EmptyString] end
  end.

Definition lineFeed : ascii := ascii_of_nat 10.
Definition carriageReturn : ascii := ascii_of_nat 13.

Definition infoLine (fields : gmap string string) (line : string) : gmap string string :=
  let line := trim_right (Ascii.eqb carriageReturn) line in
  if String.eqb line "" || has_prefix "#" line then fields
  else match Cut line ":" with Some (key, value) => <[key := value]> fields | None => fields end.

Definition parseInfo (raw : string) : gmap string string := fold_left infoLine (splitOn lineFeed raw) ∅.

Definition infoInt (fields : gmap string string) (key : string) : Z := default 0%Z (Atoi (default "" (fields !! key))).

(** * What a pass is told *)

Record xgroup : Type := { xgName : string; xgConsumers : Z; xgPending : Z; xgLag : Z; xgLastDeliveredID : string; xgEntriesRead : Z }.
Record xconsumer : Type := { xcName : string; xcPending : Z; xcIdle : Z }.
Record xstream : Type := { xsLength : Z; xsEntriesAdded : Z }.

Record answers : Type := {
  anInfo : result string;
  anDBSize : result Z;
  anScan : string -> list string * option string;
  anStream : string -> result xstream;
  anGroups : string -> result (list xgroup);
  anConsumers : string -> string -> result (list xconsumer);
  anPending : string -> string -> result string;
  anNow : string -> string -> Z;
  anChannels : result (list string);
  anNumSub : list string -> result (gmap string Z);
  anRegistered : list string;
  anCollectedAt : Z;
}.

Record ServerInfo : Type := {
  svVersion : string;
  svUptimeSeconds : Z;
  svConnectedClients : Z;
  svUsedMemory : Z;
  svUsedMemoryHuman : string;
  svOpsPerSecond : Z;
  svTotalKeys : Z;
  svFieldErrors : gmap string string;
  svConnectedClientsSeries : list Z;
  svUsedMemorySeries : list Z;
  svOpsPerSecondSeries : list Z;
  svTotalKeysSeries : list Z;
}.

Definition infoBackedFields : list string := ["version"; "uptime_seconds"; "connected_clients"; "used_memory"; "ops_per_second"].

(** The server row, and whether a call of it reached Redis. *)
Definition collectServer (an : answers) : ServerInfo * bool :=
  let fields := match anInfo an with Ok raw => parseInfo raw | Err _ => ∅ end in
  let infoErrors := match anInfo an with Ok _ => ∅ | Err err => list_to_map (map (fun field => (field, err)) infoBackedFields) end in
  ({| svVersion := default "" (fields !! "redis_version"); svUptimeSeconds := infoInt fields "uptime_in_seconds";
      svConnectedClients := infoInt fields "connected_clients"; svUsedMemory := infoInt fields "used_memory";
      svUsedMemoryHuman := default "" (fields !! "used_memory_human"); svOpsPerSecond := infoInt fields "instantaneous_ops_per_sec";
      svTotalKeys := match anDBSize an with Ok keys => keys | Err _ => 0 end;
      svFieldErrors := match anDBSize an with Ok _ => infoErrors | Err err => <["total_keys" := err]> infoErrors end;
      svConnectedClientsSeries := []; svUsedMemorySeries := []; svOpsPerSecondSeries := []; svTotalKeysSeries := [] |},
   is_ok (anInfo an) || is_ok (anDBSize an)).

(** ** Streams *)

Definition isMissingKey (err : string) : bool := str_contains (to_lower err) "no such key".

Definition groupSeriesKey (stream group : string) : string := stream +:+ nul +:+ group.

Definition entryMillis (id : string) : option Z := Atoi (beforeDash id).

Definition oldestPendingAge (an : answers) (stream group : string) : Z :=
  match anPending an stream group with
  | Err _ => 0
  | Ok lower =>
      if String.eqb lower "" then 0
      else
        match entryMillis lower with
        | None => 0
        | Some ms => let age := saturate (anNow an stream group - ms * Millisecond) in if (age <? 0)%Z then 0 else wholeSeconds age
        end
  end.

Definition collectConsumers (an : answers) (stream group : string) : list ConsumerStat :=
  match anConsumers an stream group with
  | Err _ => []
  | Ok consumers => map (fun c => {| ctName := xcName c; ctPending := xcPending c; ctIdleSeconds := wholeSeconds (xcIdle c) |}) consumers
  end.

Definition collectGroup (an : answers) (stream : string) (group : xgroup) : GroupStat := {|
  gsName := xgName group; gsConsumers := xgConsumers group; gsPending := xgPending group;
  gsLag := if (xgLag group <? 0)%Z then 0 else xgLag group;
  gsLastDeliveredId := xgLastDeliveredID group; gsConsumerDetail := collectConsumers an stream (xgName group);
  gsOldestPendingAgeSeconds := if (0 <? xgPending group)%Z then oldestPendingAge an stream (xgName group) else 0;
  gsConsumeRate := 0; gsConsumersSeries := []; gsPendingSeries := []; gsLagSeries := []; gsOldestPendingAgeSecondsSeries := []; gsConsumeRateSeries := [] |}.

(** The counters a pass reads. *)
Definition counters : Type := gmap string Z.

Definition collectStream (an : answers) (topic : Topic) (published consumed : counters) : StreamStat * counters * counters :=
  let name := tpName topic in
  let stat := (blankStream name) {{ ssEventName := str_join ", " (tpEvents topic) }} in
  match anStream an name with
  | Err err => (if isMissingKey err then stat else stat {{ ssError := err }}, published, consumed)
  | Ok info =>
      let stat := stat {{ ssLength := xsLength info }} in
      let published := <[name := xsEntriesAdded info]> published in
      match anGroups an name with
      | Err err => (if isMissingKey err then stat else stat {{ ssError := err }}, published, consumed)
      | Ok groups =>
          (stat {{ ssExists := true; ssGroups := map (collectGroup an name) groups }}, published,
           fold_left (fun consumed group => <[groupSeriesKey name (xgName group) := xgEntriesRead group]> consumed) groups consumed)
      end
  end.

Fixpoint collectTopics (an : answers) (topics : list Topic) (published consumed : counters) : list StreamStat * counters * counters :=
  match topics with
  | [] => ([], published, consumed)
  | topic :: rest =>
      let '(stat, published, consumed) := collectStream an topic published consumed in
      let '(stats, published, consumed) := collectTopics an rest published consumed in (stat :: stats, published, consumed)
  end.

Definition collectStreams (an : answers) : list StreamStat * counters * counters :=
  collectTopics an (DiscoverStreamTopics (anScan an)).1 ∅ ∅.

Definition collectPresence (an : answers) : gset string :=
  list_to_set (List.filter (fun slug => negb (String.eqb slug "")) (map SlugFromPresenceKey (anScan an PresenceKeyPattern).1)).

(** * History *)

Section history.
(** [Sampler.history]. *)
Variable history : nat.

Definition ring (buf : list Z) (value : Z) : list Z :=
  let buf := buf ++ [value] in if (history <? length buf)%nat then drop (length buf - history) buf else buf.

Definition ringOrCarry (buf : list Z) (value : Z) (ok : bool) : list Z :=
  if ok then ring buf value else match last buf with None => buf | Some carried => ring buf carried end.

Record metricSeries : Type := { msConnectedClients : list Z; msUsedMemory : list Z; msOpsPerSecond : list Z; msTotalKeys : list Z }.

Definition appendSeries (series : metricSeries) (server : ServerInfo) : metricSeries :=
  let ok field := bool_decide (default "" (svFieldErrors server !! field) = "") in {|
  msConnectedClients := ringOrCarry (msConnectedClients series) (svConnectedClients server) (ok "connected_clients");
  msUsedMemory := ringOrCarry (msUsedMemory series) (svUsedMemory server) (ok "used_memory");
  msOpsPerSecond := ringOrCarry (msOpsPerSecond series) (svOpsPerSecond server) (ok "ops_per_second");
  msTotalKeys := ringOrCarry (msTotalKeys series) (svTotalKeys server) (ok "total_keys") |}.

Record streamHistory : Type := { shLength : list Z; shPublishRate : list Z; shPrevEntriesAdded : Z; shHavePrevAdded : bool }.

Record groupHistory : Type := {
  ghConsumers : list Z; ghPending : list Z; ghLag : list Z; ghOldestPending : list Z; ghConsumeRate : list Z;
  ghPrevEntriesRead : Z; ghHavePrevRead : bool }.

Definition noStreamHistory : streamHistory := {| shLength := []; shPublishRate := []; shPrevEntriesAdded := 0; shHavePrevAdded := false |}.
Definition noGroupHistory : groupHistory :=
  {| ghConsumers := []; ghPending := []; ghLag := []; ghOldestPending := []; ghConsumeRate := []; ghPrevEntriesRead := 0; ghHavePrevRead := false |}.

Definition nonNegativeDelta (prev cur : Z) : Z := if (cur <? prev)%Z then 0 else wrap64 (cur - prev).

(** The rate a counter gives this pass, and what is kept of it. *)
Definition rateOf (rate prev : Z) (have : bool) (cur : option Z) : Z * Z * bool :=
  match cur with
  | Some cur => (if have then nonNegativeDelta prev cur else rate, cur, true)
  | None => (rate, prev, have)
  end.

Definition recordGroup (stream : string) (consumed : counters) (g : GroupStat) (hists : gmap string groupHistory) : GroupStat * gmap string groupHistory :=
  let key := groupSeriesKey stream (gsName g) in
  let gh := default noGroupHistory (hists !! key) in
  let '(rate, prev, have) := rateOf (gsConsumeRate g) (ghPrevEntriesRead gh) (ghHavePrevRead gh) (consumed !! key) in
  let gh := {| ghConsumers := ring (ghConsumers gh) (gsConsumers g); ghPending := ring (ghPending gh) (gsPending g); ghLag := ring (ghLag gh) (gsLag g);
               ghOldestPending := ring (ghOldestPending gh) (gsOldestPendingAgeSeconds g); ghConsumeRate := ring (ghConsumeRate gh) rate;
               ghPrevEntriesRead := prev; ghHavePrevRead := have |} in
  (g {{ gsConsumeRate := rate; gsConsumersSeries := ghConsumers gh; gsPendingSeries := ghPending gh; gsLagSeries := ghLag gh;
        gsOldestPendingAgeSecondsSeries := ghOldestPending gh; gsConsumeRateSeries := ghConsumeRate gh }}, <[key := gh]> hists).

Fixpoint recordGroups (stream : string) (consumed : counters) (groups : list GroupStat) (hists : gmap string groupHistory)
  : list GroupStat * gmap string groupHistory :=
  match groups with
  | [] => ([], hists)
  | g :: rest =>
      let '(g, hists) := recordGroup stream consumed g hists in
      let '(rest, hists) := recordGroups stream consumed rest hists in (g :: rest, hists)
  end.

Definition recordStream (published : counters) (st : StreamStat) (hists : gmap string streamHistory) : StreamStat * gmap string streamHistory :=
  let hist := default noStreamHistory (hists !! ssStream st) in
  let '(rate, prev, have) := rateOf (ssPublishRate st) (shPrevEntriesAdded hist) (shHavePrevAdded hist) (published !! ssStream st) in
  let hist := {| shLength := ring (shLength hist) (ssLength st); shPublishRate := ring (shPublishRate hist) rate; shPrevEntriesAdded := prev; shHavePrevAdded := have |} in
  (st {{ ssPublishRate := rate; ssLengthSeries := shLength hist; ssPublishRateSeries := shPublishRate hist }}, <[ssStream st := hist]> hists).

Fixpoint recordRows (published consumed : counters) (streams : list StreamStat) (sh : gmap string streamHistory) (gh : gmap string groupHistory)
  : list StreamStat * gmap string streamHistory * gmap string groupHistory :=
  match streams with
  | [] => ([], sh, gh)
  | st :: rest =>
      let '(st, sh) := recordStream published st sh in
      let '(groups, gh) := recordGroups (ssStream st) consumed (ssGroups st) gh in
      let '(rest, sh, gh) := recordRows published consumed rest sh gh in (st {{ ssGroups := groups }} :: rest, sh, gh)
  end.

(** The keys of the rows that are there. *)
Definition liveGroups (streams : list StreamStat) : list string :=
  concat (map (fun st => map (fun g => groupSeriesKey (ssStream st) (gsName g)) (ssGroups st)) streams).

Definition recordStreamMetrics (published consumed : counters) (streams : list StreamStat) (sh : gmap string streamHistory) (gh : gmap string groupHistory)
  : list StreamStat * gmap string streamHistory * gmap string groupHistory :=
  let '(rows, sh, gh) := recordRows published consumed streams sh gh in
  (rows, filter (fun kv => kv.1 ∈ map ssStream streams) sh, filter (fun kv => kv.1 ∈ liveGroups streams) gh).
End history.

(** * The sampler *)

Record Snapshot : Type := { snCollectedAt : Z; snServer : ServerInfo; snStreams : list StreamStat; snChannels : list ChannelStat }.

(** A viewer's channel, buffered by one. *)
Record viewer : Type := { vwBuffer : option Snapshot; vwOpen : bool }.

Record Sampler : Type := {
  smHistory : nat;
  smSnapshot : option Snapshot;
  smSeries : metricSeries;
  smStreamHist : gmap string streamHistory;
  smGroupHist : gmap string groupHistory;
  smSubs : gset nat;
  smViewers : gmap nat viewer;
}.

Definition DefaultHistory : nat := 150.

(** [New] with [WithHistory n]; zero is ignored. *)
Definition New (n : nat) : Sampler := {|
  smHistory := match n with O => DefaultHistory | _ => n end; smSnapshot := None;
  smSeries := {| msConnectedClients := []; msUsedMemory := []; msOpsPerSecond := []; msTotalKeys := [] |};
  smStreamHist := ∅; smGroupHist := ∅; smSubs := ∅; smViewers := ∅ |}.

(** The non-blocking send to one viewer. *)
Definition offer (snapshot : Snapshot) (viewers : gmap nat viewer) (id : nat) : outcome (gmap nat viewer) :=
  match viewers !! id with
  | None => Panic
  | Some v =>
      if vwOpen v then Done (match vwBuffer v with Some _ => viewers | None => <[id := {| vwBuffer := Some snapshot; vwOpen := true |}]> viewers end)
      else Panic
  end.

Section sampler.
Context `{MapOrder}.

(** What a pass puts together, and the histories it leaves. *)
Definition sample (s : Sampler) (an : answers) (server : ServerInfo) : Snapshot * Sampler :=
  let '(streams, published, consumed) := collectStreams an in
  let channels := collectChannels (anChannels an) (anNumSub an) in
  let topology := DeriveTopology Topics (anRegistered an) in
  let present := collectPresence an in
  let streams := applyStreamTopology streams topology present in
  let channels := applyChannelTopology channels topology present in
  let series := appendSeries (smHistory s) (smSeries s) server in
  let server := server {{ svConnectedClientsSeries := msConnectedClients series; svUsedMemorySeries := msUsedMemory series;
                          svOpsPerSecondSeries := msOpsPerSecond series; svTotalKeysSeries := msTotalKeys series }} in
  let '(streams, streamHist, groupHist) := recordStreamMetrics (smHistory s) published consumed streams (smStreamHist s) (smGroupHist s) in
  let snapshot := {| snCollectedAt := anCollectedAt an; snServer := server; snStreams := streams; snChannels := channels |} in
  (snapshot, {| smHistory := smHistory s; smSnapshot := Some snapshot; smSeries := series; smStreamHist := streamHist; smGroupHist := groupHist;
                smSubs := smSubs s; smViewers := smViewers s |}).

(** [pass]; the snapshot it publishes, if it does. *)
Definition pass (s : Sampler) (an : answers) : outcome (Sampler * option Snapshot) :=
  let '(server, reached) := collectServer an in
  if negb reached then Done (s, None)
  else
    let '(snapshot, s) := sample s an server in
    obind (ofold (offer snapshot) (smViewers s) (elements (smSubs s)))
      (fun viewers => Done ((s : Sampler) {{ smViewers := viewers }}, Some snapshot)).

(** [Subscribe], of a new channel. *)
Definition Subscribe (s : Sampler) (id : nat) : Sampler :=
  s {{ smSubs := {[id]} ∪ smSubs s; smViewers := <[id := {| vwBuffer := smSnapshot s; vwOpen := true |}]> (smViewers s) }}.

(** The function Subscribe returns, called for the first time. *)
Definition unsubscribe (s : Sampler) (id : nat) : outcome Sampler :=
  match smViewers s !! id with
  | None => Panic
  | Some v =>
      if vwOpen v then Done (s {{ smSubs := smSubs s ∖ {[id]}; smViewers := <[id := {| vwBuffer := vwBuffer v; vwOpen := false |}]> (smViewers s) }})
      else Panic
  end.

(** What a viewer that waits takes off its channel. *)
Definition receive (s : Sampler) (id : nat) : Sampler * option Snapshot :=
  match smViewers s !! id with
  | None => (s, None)
  | Some v => (s {{ smViewers := <[id := {| vwBuffer := None; vwOpen := vwOpen v |}]> (smViewers s) }}, vwBuffer v)
  end.

(** ** Everything that happens to a sampler *)

(** A sampler, the functions called once, the snapshots published so far, and
    what each viewer received, oldest first. *)
Record world : Type := { wdSampler : Sampler; wdOnce : gset nat; wdPublished : list Snapshot; wdGot : gmap nat (list Snapshot) }.

Inductive action : Type :=
| Tick (an : answers)
| Join (id : nat)
| Leave (id : nat)
| Take (id : nat).

(** [Leave] is [sync.Once]: later calls do nothing; a channel joins once, and
    only a viewer that joined leaves. *)
Definition act (w : world) (a : action) : outcome world :=
  match a with
  | Tick an =>
      obind (pass (wdSampler w) an) (fun r =>
        Done {| wdSampler := r.1; wdOnce := wdOnce w; wdPublished := wdPublished w ++ option_list r.2; wdGot := wdGot w |})
  | Join id =>
      if decide (is_Some (wdGot w !! id)) then Done w
      else Done {| wdSampler := Subscribe (wdSampler w) id; wdOnce := wdOnce w; wdPublished := wdPublished w; wdGot := <[id := []]> (wdGot w) |}
  | Leave id =>
      if decide (id ∈ wdOnce w \/ wdGot w !! id = None) then Done w
      else obind (unsubscribe (wdSampler w) id) (fun s =>
        Done {| wdSampler := s; wdOnce := {[id]} ∪ wdOnce w; wdPublished := wdPublished w; wdGot := wdGot w |})
  | Take id =>
      let '(s, got) := receive (wdSampler w) id in
      Done {| wdSampler := s; wdOnce := wdOnce w; wdPublished := wdPublished w; wdGot := alter (fun l => l ++ option_list got) id (wdGot w) |}
  end.

Definition started (n : nat) : world := {| wdSampler := New n; wdOnce := ∅; wdPublished := []; wdGot := ∅ |}.

(** ** The fan-out *)

Record world_ok (w : world) : Prop := {
  wo_open id : id ∈ smSubs (wdSampler w) <-> exists buffer, smViewers (wdSampler w) !! id = Some {| vwBuffer := buffer; vwOpen := true |};
  wo_once id v : smViewers (wdSampler w) !! id = Some v -> vwOpen v = negb (bool_decide (id ∈ wdOnce w));
  wo_known id : is_Some (smViewers (wdSampler w) !! id) <-> is_Some (wdGot w !! id);
  wo_left id : id ∈ wdOnce w -> is_Some (wdGot w !! id);
  wo_last : smSnapshot (wdSampler w) = last (wdPublished w);
  wo_order id v got : smViewers (wdSampler w) !! id = Some v -> wdGot w !! id = Some got -> sublist (got ++ option_list (vwBuffer v)) (wdPublished w);
}.

(** What one viewer's channel holds after a pass. *)
Definition offered (snapshot : Snapshot) (v : viewer) : viewer :=
  if vwOpen v then {| vwBuffer := Some (default snapshot (vwBuffer v)); vwOpen := true |} else v.

Lemma offers_spec snapshot ids viewers : NoDup ids -> (forall id, id ∈ ids -> exists buffer, viewers !! id = Some {| vwBuffer := buffer; vwOpen := true |}) ->
  exists viewers', ofold (offer snapshot) viewers ids = Done viewers' /\
    forall id, viewers' !! id = if decide (id ∈ ids) then offered snapshot <$> viewers !! id else viewers !! id.
Proof.
  revert viewers. induction ids as [|i ids IH]; intros viewers Hnd Hopen; [by exists viewers|]. apply NoDup_cons in Hnd as [Hi Hnd].
  destruct (Hopen i ltac:(by left)) as [buffer Hb]. cbn [ofold]. unfold offer at 1. rewrite Hb. cbn [vwOpen vwBuffer obind].
  set (viewers1 := match buffer with Some _ => viewers | None => _ end).
  assert (forall id, viewers1 !! id = if decide (id = i) then offered snapshot <$> viewers !! id else viewers !! id) as H1.
  { intros id. unfold viewers1. destruct (decide (id = i)) as [->|Hne]; destruct buffer; rewrite ?Hb; cbn; [done| |done|].
    - by rewrite lookup_insert_eq.
    - by rewrite lookup_insert_ne. }
  destruct (IH viewers1 Hnd) as (viewers' & -> & Hv).
  { intros id Hid. rewrite H1, decide_False by (intros ->; done). apply Hopen. by right. }
  exists viewers'. split; [done|]. intros id. rewrite Hv, H1.
  destruct (decide (id = i)) as [->|Hne]; [rewrite (decide_False (P := i ∈ ids)), decide_True by (done || by left); done|].
  destruct (decide (id ∈ ids)); [rewrite decide_True by (by right); done|]. rewrite decide_False; [done|]. by intros [|]%elem_of_cons.
Qed.

Lemma sample_fields s an server : let '(snapshot, s') := sample s an server in
  smSubs s' = smSubs s /\ smViewers s' = smViewers s /\ smSnapshot s' = Some snapshot /\ smHistory s' = smHistory s.
Proof.
  unfold sample. destruct (collectStreams an) as [[streams published] consumed]. by destruct (recordStreamMetrics _ _ _ _ _ _) as [[rows sh] gh].
Qed.

Lemma pass_spec w an : world_ok w -> exists s published, pass (wdSampler w) an = Done (s, published) /\ smSubs s = smSubs (wdSampler w) /\
  smSnapshot s = match published with Some snapshot => Some snapshot | None => smSnapshot (wdSampler w) end /\
  forall id, smViewers s !! id = match published with Some snapshot => offered snapshot <$> smViewers (wdSampler w) !! id | None => smViewers (wdSampler w) !! id end.
Proof.
  intros Hw. unfold pass. destruct (collectServer an) as [server []]; cbn [negb]; [|by exists (wdSampler w), None].
  pose proof (sample_fields (wdSampler w) an server) as Hs. destruct (sample _ an server) as [snapshot s]. destruct Hs as (Hsubs & Hviewers & Hsnap & _).
  destruct (offers_spec snapshot (elements (smSubs s)) (smViewers s)) as (viewers & -> & Hv); [apply NoDup_elements|intros id Hid%elem_of_elements; rewrite Hsubs in Hid; rewrite Hviewers; by apply (wo_open w Hw)|].
  exists (s {{ smViewers := viewers }}), (Some snapshot). split_and!; [done..|]. intros id. change (smViewers (s {{ smViewers := viewers }})) with viewers.
  rewrite Hv, Hviewers, Hsubs. destruct (decide (id ∈ elements (smSubs (wdSampler w)))) as [Hin|Hin]; [done|]. rewrite elem_of_elements in Hin.
  destruct (smViewers (wdSampler w) !! id) as [[buffer open]|] eqn:Hid; [|done]. cbn. unfold offered. cbn. destruct open; [|done].
  destruct Hin. apply (wo_open w Hw). by exists buffer.
Qed.

Lemma tick_ok w an : world_ok w -> exists w', act w (Tick an) = Done w' /\ world_ok w'.
Proof.
  intros Hw. destruct (pass_spec w an Hw) as (s & published & Hp & Hsubs & Hsnap & Hv). cbn [act]. rewrite Hp. cbn [obind fst snd]. eexists. split; [done|].
  destruct Hw as [Hopen Honce Hknown Hleft Hlast Horder]. destruct published as [snapshot|]; cbn [option_list].
  - constructor; cbn.
    + intros id. rewrite Hsubs, Hopen, Hv. split.
      * intros [buffer ->]. by exists (Some (default snapshot buffer)).
      * intros [buffer Hb]. apply fmap_Some in Hb as ([b open] & -> & Hb). exists b. unfold offered in Hb. cbn in Hb. destruct open; [done|]. by injection Hb.
    + intros id v Hid. rewrite Hv in Hid. apply fmap_Some in Hid as ([b open] & Hid & ->). rewrite <- (Honce _ _ Hid). unfold offered. by destruct open.
    + intros id. rewrite Hv, fmap_is_Some. apply Hknown.
    + exact Hleft.
    + by rewrite Hsnap, last_snoc.
    + intros id v got Hid Hg. rewrite Hv in Hid. apply fmap_Some in Hid as ([b open] & Hid & ->). specialize (Horder _ _ _ Hid Hg). cbn in Horder.
      unfold offered. cbn. destruct open; cbn; [|by apply sublist_inserts_r]. destruct b as [b|]; cbn in *; [by apply sublist_inserts_r|].
      rewrite app_nil_r in Horder. by apply sublist_app.
  - rewrite app_nil_r. constructor; cbn; rewrite ?Hsubs, ?Hsnap; intros; rewrite ?Hv in *; eauto.
Qed.

Lemma join_ok w id : world_ok w -> exists w', act w (Join id) = Done w' /\ world_ok w'.
Proof.
  intros Hw. cbn [act]. destruct (decide _) as [|Hno]; [by exists w|]. eexists. split; [done|]. destruct Hw as [Hopen Honce Hknown Hleft Hlast Horder].
  assert (id ∉ wdOnce w) as Hnever by (intros ?%Hleft; done). constructor; cbn [wdSampler wdOnce wdPublished wdGot].
  - intros i. change (smSubs (Subscribe _ id)) with ({[id]} ∪ smSubs (wdSampler w)). change (smViewers (Subscribe _ id)) with (<[id := {| vwBuffer := smSnapshot (wdSampler w); vwOpen := true |}]> (smViewers (wdSampler w))).
    destruct (decide (i = id)) as [->|Hne]; [rewrite lookup_insert_eq; split; [by eexists|set_solver]|]. rewrite lookup_insert_ne by done. rewrite <- Hopen. set_solver.
  - intros i v. change (smViewers (Subscribe _ id)) with (<[id := {| vwBuffer := smSnapshot (wdSampler w); vwOpen := true |}]> (smViewers (wdSampler w))).
    destruct (decide (i = id)) as [->|Hne]; [rewrite lookup_insert_eq|rewrite lookup_insert_ne by done; apply Honce].
    intros [= <-]. by rewrite bool_decide_eq_false_2.
  - intros i. change (smViewers (Subscribe _ id)) with (<[id := {| vwBuffer := smSnapshot (wdSampler w); vwOpen := true |}]> (smViewers (wdSampler w))).
    destruct (decide (i = id)) as [->|Hne]; [by rewrite !lookup_insert_eq|]. rewrite !lookup_insert_ne by done. apply Hknown.
  - intros i Hi%Hleft. destruct (decide (i = id)) as [->|Hne]; [by rewrite lookup_insert_eq|by rewrite lookup_insert_ne].
  - done.
  - intros i v got. change (smViewers (Subscribe _ id)) with (<[id := {| vwBuffer := smSnapshot (wdSampler w); vwOpen := true |}]> (smViewers (wdSampler w))).
    destruct (decide (i = id)) as [->|Hne]; [rewrite !lookup_insert_eq|rewrite !lookup_insert_ne by done; apply Horder].
    intros [= <-] [= <-]. cbn. rewrite Hlast. destruct (wdPublished w) as [|x l _] using rev_ind; [done|]. rewrite last_snoc. by apply sublist_inserts_l.
Qed.

Lemma leave_ok w id : world_ok w -> exists w', act w (Leave id) = Done w' /\ world_ok w'.
Proof.
  intros Hw. cbn [act]. destruct (decide _) as [|Hno]; [by exists w|]. apply Decidable.not_or in Hno as [Hnever Hgot].
  destruct Hw as [Hopen Honce Hknown Hleft Hlast Horder]. apply not_eq_None_Some, Hknown in Hgot as [[buffer open] Hv].
  pose proof (Honce _ _ Hv) as Ho. rewrite bool_decide_eq_false_2 in Ho by done. cbn in Ho. subst open. unfold unsubscribe. rewrite Hv. cbn [vwOpen vwBuffer obind].
  eexists. split; [done|]. set (viewers := <[id := {| vwBuffer := buffer; vwOpen := false |}]> (smViewers (wdSampler w))).
  constructor; cbn [wdSampler wdOnce wdPublished wdGot].
  - intros i. change (smSubs (_ {{ smSubs := _; smViewers := _ }})) with (smSubs (wdSampler w) ∖ {[id]}). change (smViewers (_ {{ smSubs := _; smViewers := _ }})) with viewers.
    unfold viewers. destruct (decide (i = id)) as [->|Hne]; [rewrite lookup_insert_eq; split; [set_solver|by intros [? ?]]|]. rewrite lookup_insert_ne by done. rewrite <- Hopen. set_solver.
  - intros i v. change (smViewers (_ {{ smSubs := _; smViewers := _ }})) with viewers. unfold viewers.
    destruct (decide (i = id)) as [->|Hne]; [rewrite lookup_insert_eq; intros [= <-]; rewrite bool_decide_eq_true_2 by set_solver; done|].
    rewrite lookup_insert_ne by done. intros ->%Honce. f_equal. apply bool_decide_ext. set_solver.
  - intros i. change (smViewers (_ {{ smSubs := _; smViewers := _ }})) with viewers. unfold viewers.
    destruct (decide (i = id)) as [->|Hne]; [rewrite lookup_insert_eq; split; [intros _; apply Hknown; by eexists|by eexists]|]. rewrite lookup_insert_ne by done. apply Hknown.
  - intros i [->%elem_of_singleton|Hi]%elem_of_union; [apply Hknown; by eexists|by apply Hleft].
  - done.
  - intros i v got. change (smViewers (_ {{ smSubs := _; smViewers := _ }})) with viewers. unfold viewers.
    destruct (decide (i = id)) as [->|Hne]; [rewrite lookup_insert_eq; intros [= <-]; by apply (Horder id {| vwBuffer := buffer; vwOpen := true |})|].
    rewrite lookup_insert_ne by done. apply Horder.
Qed.

Lemma take_ok w id : world_ok w -> exists w', act w (Take id) = Done w' /\ world_ok w'.
Proof.
  intros Hw. cbn [act]. unfold receive. destruct Hw as [Hopen Honce Hknown Hleft Hlast Horder].
  destruct (smViewers (wdSampler w) !! id) as [[buffer open]|] eqn:Hv; eexists; (split; [done|]); cbn [vwBuffer vwOpen].
  2: { assert (wdGot w !! id = None) as Hg. { apply eq_None_not_Some. rewrite <- Hknown, Hv. by intros [? [=]]. }
       assert (alter (fun l => l ++ option_list (@None Snapshot)) id (wdGot w) = wdGot w) as Hsame.
       { apply map_eq. intros i. destruct (decide (i = id)) as [->|Hne]; [by rewrite lookup_alter_eq, Hg|by rewrite lookup_alter_ne]. }
       constructor; cbn [wdSampler wdOnce wdPublished wdGot]; rewrite ?Hsame; done. }
  set (viewers := <[id := {| vwBuffer := None; vwOpen := open |}]> (smViewers (wdSampler w))).
  constructor; cbn [wdSampler wdOnce wdPublished wdGot].
  - intros i. change (smSubs (_ {{ smViewers := _ }})) with (smSubs (wdSampler w)). change (smViewers (_ {{ smViewers := _ }})) with viewers.
    rewrite Hopen. unfold viewers. destruct (decide (i = id)) as [->|Hne]; [|by rewrite lookup_insert_ne]. rewrite lookup_insert_eq. split; intros [b Hb]; [rewrite Hv in Hb|]; injection Hb; intros; subst; by eexists.
  - intros i v. change (smViewers (_ {{ smViewers := _ }})) with viewers. unfold viewers.
    destruct (decide (i = id)) as [->|Hne]; [rewrite lookup_insert_eq; intros [= <-]; by apply (Honce _ _ Hv)|rewrite lookup_insert_ne by done; apply Honce].
  - intros i. change (smViewers (_ {{ smViewers := _ }})) with viewers. rewrite lookup_alter_is_Some, <- Hknown. unfold viewers.
    destruct (decide (i = id)) as [->|Hne]; [rewrite lookup_insert_eq, Hv; split; by eexists|by rewrite lookup_insert_ne].
  - intros i Hi. rewrite lookup_alter_is_Some. by apply Hleft.
  - done.
  - intros i v got. change (smViewers (_ {{ smViewers := _ }})) with viewers. unfold viewers.
    destruct (decide (i = id)) as [->|Hne]; [|rewrite lookup_insert_ne, lookup_alter_ne by done; apply Horder].
    rewrite lookup_insert_eq, lookup_alter_eq. intros [= <-] Hg. apply fmap_Some in Hg as (got0 & Hg0 & ->). cbn. rewrite app_nil_r. by apply (Horder _ _ _ Hv Hg0).
Qed.

(** C21: viewers never disturb the sampler or each other. Through every sequence
    of passes, joins, leaves, repeated leaves and receives, no call panics on a
    closed channel; what Get answers is the snapshot of the last pass that
    reached Redis; and what each viewer has received is a selection of the
    published snapshots in the order they were published. *)
Theorem viewers_in_order n actions : exists w, ofold act (started n) actions = Done w /\
  smSnapshot (wdSampler w) = last (wdPublished w) /\
  forall id got, wdGot w !! id = Some got -> sublist got (wdPublished w).
Proof.
  assert (forall w0, world_ok w0 -> exists w, ofold act w0 actions = Done w /\ world_ok w) as Hall.
  { induction actions as [|a actions IH]; intros w0 Hw0; [by exists w0|]. cbn [ofold].
    assert (exists w1, act w0 a = Done w1 /\ world_ok w1) as (w1 & -> & Hw1) by (destruct a; by apply tick_ok || by apply join_ok || by apply leave_ok || by apply take_ok).
    by apply IH. }
  destruct (Hall (started n)) as (w & -> & Hw).
  { constructor; cbn; try done; intros id; split; intros Hx; by apply elem_of_empty in Hx || destruct Hx. }
  exists w. split; [done|]. split; [by apply wo_last|]. intros id got Hg.
  destruct (proj2 (wo_known w Hw id)) as [v Hv]; [by eexists|]. etransitivity; [|by eapply (wo_order w Hw)]. by apply sublist_inserts_r.
Qed.
End sampler.

(** * Histories *)

(** The last [n] of a list. *)
Definition newest {A} (n : nat) (l : list A) : list A := drop (length l - n) l.

Lemma newest_le {A} n (l : list A) : (length (newest n l) <= n)%nat.
Proof. unfold newest. rewrite length_drop. lia. Qed.

Lemma ring_newest n buf v : ring n buf v = newest n (buf ++ [v]).
Proof.
  unfold ring, newest. destruct (Nat.ltb_spec n (length (buf ++ [v]))); [done|].
  replace (length (buf ++ [v]) - n)%nat with 0%nat by lia. by rewrite drop_0.
Qed.

Lemma newest_newest {A} n (l : list A) v : (0 < n)%nat -> newest n (newest n l ++ [v]) = newest n (l ++ [v]).
Proof.
  intros Hn. unfold newest. rewrite !length_app, length_drop. cbn [length].
  rewrite <- (drop_app_le (l) [v] (length l - n)) by lia. rewrite drop_drop. f_equal. lia.
Qed.

Lemma newest_last {A} n (l : list A) v : (0 < n)%nat -> last (newest n (l ++ [v])) = Some v.
Proof.
  intros Hn. unfold newest. rewrite length_app. cbn [length]. rewrite drop_app_le by lia. by rewrite last_snoc.
Qed.

(** What one pass makes of a stream's history. *)
Definition nextHistory (n : nat) (published : counters) (st : StreamStat) (hist : streamHistory) : streamHistory :=
  let '(rate, prev, have) := rateOf (ssPublishRate st) (shPrevEntriesAdded hist) (shHavePrevAdded hist) (published !! ssStream st) in
  {| shLength := ring n (shLength hist) (ssLength st); shPublishRate := ring n (shPublishRate hist) rate; shPrevEntriesAdded := prev; shHavePrevAdded := have |}.

Lemma recordStream_hist n published st sh : let '(st', sh') := recordStream n published st sh in
  ssStream st' = ssStream st /\ sh' = <[ssStream st := nextHistory n published st (default noStreamHistory (sh !! ssStream st))]> sh /\
  ssLength st' = ssLength st /\
  ssLengthSeries st' = shLength (nextHistory n published st (default noStreamHistory (sh !! ssStream st))) /\
  ssPublishRateSeries st' = shPublishRate (nextHistory n published st (default noStreamHistory (sh !! ssStream st))).
Proof. unfold recordStream, nextHistory. by destruct (rateOf _ _ _ _) as [[rate prev] have]. Qed.

(** The rows a pass shows, and the history of each. *)
Lemma recordRows_hist n published consumed streams sh gh : NoDup (map ssStream streams) ->
  let '(rows, sh', gh') := recordRows n published consumed streams sh gh in
  map ssStream rows = map ssStream streams /\
  (forall name, name ∉ map ssStream streams -> sh' !! name = sh !! name) /\
  forall i st row, streams !! i = Some st -> rows !! i = Some row -> let hist := nextHistory n published st (default noStreamHistory (sh !! ssStream st)) in
    ssStream row = ssStream st /\ ssLength row = ssLength st /\ sh' !! ssStream st = Some hist /\
    ssLengthSeries row = shLength hist /\ ssPublishRateSeries row = shPublishRate hist.
Proof.
  revert sh gh. induction streams as [|st streams IH]; intros sh gh Hnd; [cbn; by split_and!|]. cbn [map recordRows] in *. apply NoDup_cons in Hnd as [Hno Hnd].
  pose proof (recordStream_hist n published st sh) as Hst. destruct (recordStream n published st sh) as [st' sh1]. destruct Hst as (Hn & -> & Hl & Hls & Hps).
  destruct (recordGroups n (ssStream st') consumed (ssGroups st') gh) as [groups gh1].
  specialize (IH (<[ssStream st := nextHistory n published st (default noStreamHistory (sh !! ssStream st))]> sh) gh1 Hnd).
  destruct (recordRows n published consumed streams _ gh1) as [[rows sh2] gh2]. destruct IH as (Hnames & Hother & Hall). split_and!.
  - cbn [map]. by rewrite Hnames, <- Hn.
  - intros name Hname. apply not_elem_of_cons in Hname as [Hne Hname]. rewrite Hother by done. by rewrite lookup_insert_ne.
  - intros [|i] st1 row.
    + intros [= <-] [= <-]. cbv zeta. rewrite Hother by done. rewrite lookup_insert_eq. by split_and!.
    + intros Hst Hrow. cbn in Hst, Hrow. specialize (Hall i st1 row Hst Hrow). cbv zeta in *. rewrite lookup_insert_ne in Hall; [done|].
      intros He. apply Hno. rewrite He. apply list_elem_of_lookup_2 in Hst. by apply list_elem_of_fmap_2.
Qed.

(** The history of a stream after a pass, if it still has a row. *)
Lemma recordStreamMetrics_hist n published consumed streams sh gh rows sh' gh' : NoDup (map ssStream streams) ->
  recordStreamMetrics n published consumed streams sh gh = (rows, sh', gh') ->
  map ssStream rows = map ssStream streams /\
  (forall name, is_Some (sh' !! name) <-> name ∈ map ssStream rows) /\
  forall st, st ∈ streams -> let hist := nextHistory n published st (default noStreamHistory (sh !! ssStream st)) in
    sh' !! ssStream st = Some hist /\
    exists row, row ∈ rows /\ ssStream row = ssStream st /\ ssLength row = ssLength st /\ ssLengthSeries row = shLength hist /\ ssPublishRateSeries row = shPublishRate hist.
Proof.
  intros Hnd. unfold recordStreamMetrics. pose proof (recordRows_hist n published consumed streams sh gh Hnd) as Hrec.
  destruct (recordRows _ _ _ _ _ _) as [[rows1 sh1] gh1]. destruct Hrec as (Hnames & Hother & Hall). intros [= <- <- <-].
  assert (forall st, st ∈ streams -> exists row, row ∈ rows1 /\ let hist := nextHistory n published st (default noStreamHistory (sh !! ssStream st)) in
    ssStream row = ssStream st /\ ssLength row = ssLength st /\ sh1 !! ssStream st = Some hist /\
    ssLengthSeries row = shLength hist /\ ssPublishRateSeries row = shPublishRate hist) as Hrow.
  { intros st [i Hi]%list_elem_of_lookup. destruct (rows1 !! i) as [row|] eqn:Hr.
    - exists row. split; [by eapply list_elem_of_lookup_2|]. by apply (Hall i).
    - exfalso. apply lookup_ge_None in Hr. apply lookup_lt_Some in Hi. apply (f_equal length) in Hnames. rewrite !length_map in Hnames. lia. }
  split_and!; [done|..].
  - intros name. rewrite Hnames. split.
    + intros [h Hh]. by apply map_lookup_filter_Some in Hh as [_ ?].
    + intros Hin. pose proof Hin as (st & -> & Hst)%list_elem_of_fmap. destruct (Hrow st Hst) as (row & _ & _ & _ & Hsh & _).
      eexists. apply map_lookup_filter_Some. split; [exact Hsh|done].
  - intros st Hst. destruct (Hrow st Hst) as (row & Hin & Hn & Hl & Hsh & Hls & Hps). cbv zeta in *. split.
    + apply map_lookup_filter_Some. split; [done|]. cbn [fst]. by apply list_elem_of_fmap_2.
    + exists row. by split_and!.
Qed.

(** ** Rates *)

(** One pass as the histories see it: its rows and the counters it read. *)
Record passed : Type := { psRows : list StreamStat; psPublished : counters; psConsumed : counters }.

Definition remember (n : nat) (h : gmap string streamHistory * gmap string groupHistory) (p : passed) : gmap string streamHistory * gmap string groupHistory :=
  let '(_, sh, gh) := recordStreamMetrics n (psPublished p) (psConsumed p) (psRows p) h.1 h.2 in (sh, gh).

Fixpoint differences (first : Z) (counts : list Z) : list Z :=
  match counts with [] => [] | c :: rest => (c - first)%Z :: differences c rest end.

Fixpoint rising (first : Z) (counts : list Z) : Prop :=
  match counts with [] => True | c :: rest => (first <= c < 9223372036854775808)%Z /\ rising c rest end.

Lemma differences_sum first counts : fold_right Z.add 0%Z (differences first counts) = (default first (last counts) - first)%Z.
Proof.
  revert first. induction counts as [|c counts IH]; intros first; [cbn; lia|]. cbn [differences fold_right]. rewrite IH.
  destruct counts as [|c' counts]; [cbn; lia|]. rewrite last_cons_cons. destruct (last (c' :: counts)) as [x|] eqn:Hl; [cbn; lia|]. by apply last_None in Hl.
Qed.

(** A pass in which a stream has a row and its counter was read. *)
Definition counted (name : string) (p : passed) (count : Z) : Prop :=
  NoDup (map ssStream (psRows p)) /\ psPublished p !! name = Some count /\
  exists st, st ∈ psRows p /\ ssStream st = name /\ ssPublishRate st = 0%Z.

Lemma remember_counted n name p count h : counted name p count ->
  exists st, ssStream st = name /\ ssPublishRate st = 0%Z /\ (remember n h p).1 !! name = Some (nextHistory n (psPublished p) st (default noStreamHistory (h.1 !! name))).
Proof.
  intros (Hnd & _ & st & Hst & <- & Hr). exists st. split_and!; [done..|]. unfold remember.
  destruct (recordStreamMetrics _ _ _ _ _ _) as [[rows sh'] gh'] eqn:Hrec. destruct (recordStreamMetrics_hist _ _ _ _ _ _ _ _ _ Hnd Hrec) as (_ & _ & Hall).
  destruct (Hall st Hst) as [Hx _]. exact Hx.
Qed.

Lemma rates_from n name passes counts h hist seen first : (0 < n)%nat -> Forall2 (counted name) passes counts -> rising first counts -> (0 <= first)%Z ->
  h.1 !! name = Some hist -> shHavePrevAdded hist = true -> shPrevEntriesAdded hist = first -> shPublishRate hist = newest n seen ->
  exists hist', (fold_left (remember n) passes h).1 !! name = Some hist' /\ shPublishRate hist' = newest n (seen ++ differences first counts).
Proof.
  intros Hn Hall. revert h hist seen first. induction Hall as [|p count passes counts Hp _ IH]; intros h hist seen first Hrise Hpos Hh Hhave Hprev Hseen.
  { exists hist. by rewrite app_nil_r. }
  destruct Hrise as [Hc Hrise]. destruct (remember_counted n name p count h Hp) as (st & Hst & _ & Hrem). rewrite Hh in Hrem. cbn [fold_left].
  destruct Hp as (_ & Hpub & _). unfold nextHistory, rateOf in Hrem. cbn [from_option id] in Hrem. rewrite Hst, Hpub, Hhave, Hprev in Hrem.
  assert (nonNegativeDelta first count = (count - first)%Z) as Hdelta.
  { unfold nonNegativeDelta. destruct (Z.ltb_spec count first); [lia|]. apply wrap64_small. lia. }
  rewrite Hdelta in Hrem. eapply (IH _ _ (seen ++ [(count - first)%Z])) in Hrem; [|done|lia|done..|].
  - destruct Hrem as (hist' & -> & Hr). exists hist'. split; [done|]. rewrite Hr. cbn [differences]. by rewrite <- app_assoc.
  - cbn. by rewrite Hseen, ring_newest, newest_newest.
Qed.

(** Publish rates are what was published. Over any run of passes that see a
    stream and read its counter, while the counter does not fall, the rates
    kept for the stream are zero for the first pass and then what was added
    since the pass before, as many of the newest as the sampler keeps; together
    the rates of the run add up to what was added during it. *)
Theorem publish_rates_add_up n name p passes count counts : (0 < n)%nat ->
  counted name p count -> Forall2 (counted name) passes counts -> (0 <= count < 9223372036854775808)%Z -> rising count counts ->
  exists hist, (fold_left (remember n) (p :: passes) (∅, ∅)).1 !! name = Some hist /\
    shPublishRate hist = newest n (0%Z :: differences count counts) /\
    fold_right Z.add 0%Z (0%Z :: differences count counts) = (default count (last counts) - count)%Z.
Proof.
  intros Hn Hp Hall Hc Hrise. cbn [fold_left fold_right]. destruct (remember_counted n name p count (∅, ∅) Hp) as (st & Hst & Hrate & Hrem).
  cbn [fst] in Hrem. rewrite lookup_empty in Hrem. destruct Hp as (_ & Hpub & _). unfold nextHistory, rateOf in Hrem. cbn [from_option id] in Hrem. rewrite Hst, Hpub in Hrem. cbn in Hrem.
  destruct (rates_from n name passes counts (remember n (∅, ∅) p) _ [0%Z] count Hn Hall Hrise ltac:(lia) Hrem eq_refl eq_refl) as (hist & -> & Hr).
  - cbn. by rewrite Hrate, (ring_newest n []).
  - exists hist. split_and!; [done..|]. rewrite differences_sum. lia.
Qed.

(** ** What a pass shows *)

Lemma collectStream_name an topic published consumed : ssStream (collectStream an topic published consumed).1.1 = tpName topic.
Proof.
  unfold collectStream. destruct (anStream an (tpName topic)); [|by destruct (isMissingKey _)]. destruct (anGroups an (tpName topic)); [done|by destruct (isMissingKey _)].
Qed.

Lemma collectTopics_names an topics published consumed : map ssStream (collectTopics an topics published consumed).1.1 = map tpName topics.
Proof.
  revert published consumed. induction topics as [|topic topics IH]; intros published consumed; [done|]. cbn [collectTopics map].
  pose proof (collectStream_name an topic published consumed) as Hn. destruct (collectStream an topic published consumed) as [[stat published1] consumed1].
  specialize (IH published1 consumed1). destruct (collectTopics an topics published1 consumed1) as [[stats published2] consumed2]. cbn in *. by rewrite Hn, IH.
Qed.

Section shown.
Context `{MapOrder}.

(** A pass that reaches Redis publishes each stream once; it keeps the history
    of exactly the streams it shows; and each row's sparkline ends with the
    row's own length and is no longer than the sampler keeps. *)
Theorem pass_rows s an s' snapshot : (0 < smHistory s)%nat -> pass s an = Done (s', Some snapshot) ->
  smSnapshot s' = Some snapshot /\ NoDup (map ssStream (snStreams snapshot)) /\
  (forall name, is_Some (smStreamHist s' !! name) <-> name ∈ map ssStream (snStreams snapshot)) /\
  forall row, row ∈ snStreams snapshot -> last (ssLengthSeries row) = Some (ssLength row) /\
    (length (ssLengthSeries row) <= smHistory s)%nat /\ (length (ssPublishRateSeries row) <= smHistory s)%nat.
Proof.
  intros Hh. unfold pass. destruct (collectServer an) as [server []]; cbn [negb]; [|done]. unfold sample, collectStreams.
  pose proof (collectTopics_names an (DiscoverStreamTopics (anScan an)).1 ∅ ∅) as Hnames.
  destruct (collectTopics an _ ∅ ∅) as [[streams published] consumed]. cbn [fst] in Hnames.
  assert (NoDup (map ssStream streams)) as Hnd.
  { rewrite Hnames. pose proof (DiscoverStreamTopics_spec (anScan an)) as Hd. destruct (DiscoverStreamTopics (anScan an)) as [rows err].
    destruct (anScan an AgentCommandStreamPattern). by destruct Hd as (_ & ? & _). }
  destruct (stream_names (anRegistered an) (collectPresence an) streams Hnd) as [Hnd' _].
  set (shown := applyStreamTopology streams _ _) in *.
  destruct (recordStreamMetrics _ _ _ shown _ _) as [[rows sh] gh] eqn:Hrec.
  destruct (recordStreamMetrics_hist _ _ _ _ _ _ _ _ _ Hnd' Hrec) as (Hrn & Hkeys & Hall).
  destruct (ofold _ _ _) as [viewers| |]; cbn [obind]; [|done..]. intros [= <- <-]. cbn [snStreams]. split_and!; [done|by rewrite Hrn|exact Hkeys|].
  intros row Hrow. assert (exists st, st ∈ shown /\ ssStream row = ssStream st) as (st & Hst & Hn).
  { apply (list_elem_of_fmap_2 ssStream) in Hrow. change (ssStream <$> rows) with (map ssStream rows) in Hrow. rewrite Hrn in Hrow. by apply list_elem_of_fmap in Hrow as (st & -> & Hst); exists st. }
  destruct (Hall st Hst) as (_ & row' & Hrow' & Hn' & Hl & Hls & Hps).
  assert (row = row') as ->.
  { eapply (NoDup_map_inj ssStream rows); [by rewrite Hrn|done..|congruence]. }
  unfold nextHistory in Hls, Hps. destruct (rateOf _ _ _ _) as [[rate prev] have]. cbn [shLength shPublishRate] in Hls, Hps.
  rewrite Hls, Hps, !ring_newest. split_and!; [|apply newest_le..]. rewrite newest_last by done. by rewrite Hl.
Qed.
End shown.

(** * A sampler at work *)

Definition crlf : string := String carriageReturn (String lineFeed "").

Definition infoText : string :=
  "# Server" +:+ crlf +:+ "redis_version:7.4.0" +:+ crlf +:+ "uptime_in_seconds:120" +:+ crlf +:+ "db0:keys=1,expires=0" +:+ crlf.

Example info_parsed :
  let fields := parseInfo infoText in
  (fields !! "redis_version", infoInt fields "uptime_in_seconds", fields !! "db0", infoInt fields "used_memory") = (Some "7.4.0", 120%Z, Some "keys=1,expires=0", 0%Z).
Proof. vm_compute. reflexivity. Qed.

(** Redis with [added] results on the result stream. *)
Definition answering (added at_ : Z) : answers := {|
  anInfo := Ok infoText; anDBSize := Ok 7%Z; anScan _ := ([], None);
  anStream name := if String.eqb name AgentScanResultStream then Ok {| xsLength := added; xsEntriesAdded := added |} else Err "ERR no such key";
  anGroups name := Ok [{| xgName := AgentScanResultGroup; xgConsumers := 1; xgPending := 1; xgLag := -1; xgLastDeliveredID := "1-0"; xgEntriesRead := added |}];
  anConsumers _ _ := Ok [{| xcName := "metarr-server"; xcPending := 1; xcIdle := 2500000000 |}]; anPending _ _ := Ok "1000-0"; anNow _ _ := 4500000000%Z;
  anChannels := Ok ["logs.app"]; anNumSub _ := Ok {["logs.app" := 1%Z]}; anRegistered := ["nas"]; anCollectedAt := at_ |}.

Definition busyDay : outcome world := ofold (act (H := enumeration_order)) (started 2)
  [Tick (answering 10 1); Join 1; Tick (answering 15 2); Tick (answering 30 3); Take 1; Tick (answering 31 4); Take 1; Leave 1; Leave 1; Tick (answering 31 5)].

(** The viewer that fell behind has the first snapshot, and then the fourth. *)
Example busy_day :
  match busyDay with
  | Done w => (map snCollectedAt <$> wdGot w !! 1%nat, snCollectedAt <$> smSnapshot (wdSampler w),
      map (fun row => (ssStream row, ssPublishRateSeries row, ssFlagged row)) (default [] (snStreams <$> smSnapshot (wdSampler w))))
  | _ => (None, None, [])
  end = (Some [1; 4]%Z, Some 5%Z, [("events.agent.nas.commands", [0; 0]%Z, true); ("events.agent_node_results", [0; 0]%Z, false); ("events.agent_scan_results", [1; 0]%Z, false)]).
Proof. vm_compute. reflexivity. Qed.

Definition passOf (added : Z) : passed := {| psRows := [blankStream AgentScanResultStream]; psPublished := {[AgentScanResultStream := added]}; psConsumed := ∅ |}.

Lemma publish_rates_add_up_witness : exists hist,
  (fold_left (remember 3) [passOf 10; passOf 15; passOf 30; passOf 31] (∅, ∅)).1 !! AgentScanResultStream = Some hist /\ shPublishRate hist = [5; 15; 1]%Z.
Proof.
  assert (forall added, counted AgentScanResultStream (passOf added) added) as Hc.
  { intros added. split_and!; [by apply NoDup_singleton|by apply lookup_singleton_Some|]. exists (blankStream AgentScanResultStream). split_and!; [left|done..]. }
  destruct (publish_rates_add_up 3 AgentScanResultStream (passOf 10) [passOf 15; passOf 30; passOf 31] 10 [15; 30; 31]%Z) as (hist & Hh & Hr & _).
  - lia.
  - apply Hc.
  - repeat (constructor; [apply Hc|]). constructor.
  - lia.
  - cbn. lia.
  - exists hist. split; [exact Hh|]. rewrite Hr. reflexivity.
Defined.

Lemma pass_rows_witness : exists s' snapshot, pass (H := enumeration_order) (New 2) (answering 10 1) = Done (s', Some snapshot) /\ NoDup (map ssStream (snStreams snapshot)).
Proof.
  destruct (pass (H := enumeration_order) (New 2) (answering 10 1)) as [[s' [snapshot|]]| |] eqn:Hp; [|vm_compute in Hp; discriminate Hp..].
  exists s', snapshot. split; [done|]. apply (pass_rows (H := enumeration_order) (New 2) (answering 10 1) s' snapshot); [cbn; lia|exact Hp].
Defined.
