(* ===== verification/LogPipeline.v ===== *)
(** Log records on their way: src/internal/shared/logging (handler.go,
    shipper.go, logging.go), src/internal/server/logforward/forwarder.go and
    src/internal/server/logtail/buffer.go.

    The handler and the forwarder hand records to a goroutine over a buffered
    channel and count what does not fit: both are a [lane]. What sends a
    record on, Redis or an HTTP request, is whether it worked; the encoding of
    a line and its decoding are arguments, and attribute values are as slog
    resolves them. *)
From stdpp Require Import strings list gmap.
From Stdlib Require Import ZArith Lia.
From coqutil Require Import Datatypes.RecordSetters.
Import DoubleBraceUpdate.
From S2P Require Import Prelude Topics.
#[local] Open Scope go_scope.

(** * Attributes *)

Inductive value (A : Type) : Type :=
| NilValue
| AnyValue (a : A)
| GroupValue (attrs : list (string * value A)).
Arguments NilValue {A}.
Arguments AnyValue {A} _.
Arguments GroupValue {A} _.

Section attributes.
Context {A : Type}.

Definition attr : Type := string * value A.

(** The key of an attribute under the groups that are open. *)
Definition flatKey (groups : list string) (key : string) : string :=
  match groups with [] => key | _ => str_join "." groups +:+ "." +:+ key end.

(** [attr.Equal(slog.Attr{})]. *)
Definition emptyAttr (at_ : attr) : bool :=
  match at_ with ("", NilValue) => true | _ => false end.

(** [nil] is the value an attribute without one has. *)
Definition any (v : value A) : option A := match v with AnyValue a => Some a | _ => None end.

Fixpoint addFlatValue (groups : list string) (key : string) (v : value A) (dst : gmap string (option A)) : gmap string (option A) :=
  match v with
  | GroupValue attrs =>
      let nested := if String.eqb key "" then groups else groups ++ [key] in
      (fix members (attrs : list (string * value A)) dst :=
         match attrs with [] => dst | (k, v) :: rest => members rest (addFlatValue nested k v dst) end) attrs dst
  | _ => if emptyAttr (key, v) then dst else <[flatKey groups key := any v]> dst
  end.

Definition addFlatAttr (groups : list string) (dst : gmap string (option A)) (at_ : attr) : gmap string (option A) :=
  addFlatValue groups at_.1 at_.2 dst.

(** The part of a Handler that With calls change. *)
Record Handler : Type := { hdGroups : list string; hdBase : gmap string (option A) }.

Definition WithAttrs (h : Handler) (attrs : list attr) : Handler :=
  match attrs with
  | [] => h
  | _ => {| hdGroups := hdGroups h; hdBase := fold_left (addFlatAttr (hdGroups h)) attrs (hdBase h) |}
  end.

Definition WithGroup (h : Handler) (name : string) : Handler :=
  if String.eqb name "" then h else {| hdGroups := hdGroups h ++ [name]; hdBase := hdBase h |}.

(** The attributes of a record a handler is given. *)
Definition lineAttrs (h : Handler) (attrs : list attr) : gmap string (option A) := fold_left (addFlatAttr (hdGroups h)) attrs (hdBase h).

Lemma members_fold nested attrs dst :
  (fix members (attrs : list (string * value A)) dst :=
     match attrs with [] => dst | (k, v) :: rest => members rest (addFlatValue nested k v dst) end) attrs dst =
  fold_left (addFlatAttr nested) attrs dst.
Proof. revert dst. induction attrs as [|[k v] attrs IH]; intros dst; [done|]. apply IH. Qed.

Lemma addFlatAttr_group groups key attrs dst :
  addFlatAttr groups dst (key, GroupValue attrs) = fold_left (addFlatAttr (if String.eqb key "" then groups else groups ++ [key])) attrs dst.
Proof. unfold addFlatAttr at 1. cbn [fst snd addFlatValue]. apply members_fold. Qed.

(** One step of building a logger. *)
Inductive with_ : Type := Attrs (attrs : list attr) | Group (name : string).

Definition build (h : Handler) (steps : list with_) : Handler :=
  fold_left (fun h step => match step with Attrs attrs => WithAttrs h attrs | Group name => WithGroup h name end) steps h.

(** The attributes of a logger written out as the ones of a single record: each
    group holds what was added after it was opened. *)
Fixpoint nest (steps : list with_) (attrs : list attr) : list attr :=
  match steps with
  | [] => attrs
  | Attrs more :: steps => more ++ nest steps attrs
  | Group name :: steps => [(name, GroupValue (nest steps attrs))]
  end.

Lemma WithAttrs_base h attrs : hdBase (WithAttrs h attrs) = fold_left (addFlatAttr (hdGroups h)) attrs (hdBase h) /\ hdGroups (WithAttrs h attrs) = hdGroups h.
Proof. by destruct attrs. Qed.

(** C36: a logger's attributes are those of its groups. However a logger was
    derived with attributes and groups, a record logged with it carries exactly
    the attributes that the plain handler gives a record whose attributes are
    nested the same way; so what was added before a group was opened keeps its
    name, and nothing added is lost but to a later attribute of the same
    name. *)
Theorem logger_nests h steps attrs : lineAttrs (build h steps) attrs = lineAttrs h (nest steps attrs).
Proof.
  revert h. induction steps as [|[more|name] steps IH]; intros h; [done|..]; cbn [build fold_left nest]; rewrite (IH _ : lineAttrs (fold_left _ steps _) attrs = _).
  - unfold lineAttrs. destruct (WithAttrs_base h more) as [-> ->]. by rewrite fold_left_app.
  - unfold lineAttrs at 2. cbn [fold_left]. rewrite addFlatAttr_group. unfold WithGroup, lineAttrs. by destruct (String.eqb name "").
Qed.
End attributes.

(** * A lane *)

(** A buffered channel, the goroutine behind it and the counters. *)
Record lane (M : Type) : Type := {
  lnCapacity : nat;
  lnBuffer : list M;
  lnDropped : Z;
  lnFailed : Z;
}.
Arguments lnCapacity {M} _.
Arguments lnBuffer {M} _.
Arguments lnDropped {M} _.
Arguments lnFailed {M} _.

Section lane.
Context {M : Type}.

Definition newLane (capacity : nat) : lane M := {| lnCapacity := capacity; lnBuffer := []; lnDropped := 0; lnFailed := 0 |}.

(** The send that does not wait: there is room, or the default branch is taken. *)
Definition enqueue (l : lane M) (m : M) : option (lane M) :=
  if (length (lnBuffer l) <? lnCapacity l)%nat then Some (l {{ lnBuffer := lnBuffer l ++ [m] }}) else None.

Definition countDropped (l : lane M) : lane M := l {{ lnDropped := (lnDropped l + 1)%Z }}.

(** The select of Handle and Forward. *)
Definition offer (l : lane M) (m : M) : lane M :=
  match enqueue l m with Some l' => l' | None => countDropped l end.

(** The receive of publishLoop and Run. *)
Definition dequeue (l : lane M) : option (M * lane M) :=
  match lnBuffer l with
  | [] => None
  | m :: rest => Some (m, l {{ lnBuffer := rest }})
  end.

Definition countFailed (l : lane M) : lane M := l {{ lnFailed := (lnFailed l + 1)%Z }}.

(** The two swaps of reportLoop, which are Dropped and Failed of the forwarder. *)
Definition swapDropped (l : lane M) : lane M * Z := (l {{ lnDropped := 0%Z }}, lnDropped l).
Definition swapFailed (l : lane M) : lane M * Z := (l {{ lnFailed := 0%Z }}, lnFailed l).

(** Everything that happens to a lane, a channel or counter operation at a time:
    a record is offered, [None] one that could not be encoded; a caller that
    found no room counts its record; a record is received from the channel, its
    send works or does not, and the failure is counted; a counter is taken for a
    report. *)
Inductive event : Type := Offer (m : option M) | CountDrop | Receive | Sent (works : bool) | CountFailure | ReportDropped | ReportFailed.

(** Where the goroutine behind the channel is: it waits, sends a record, or is
    about to count one whose send failed. *)
Inductive turn : Type := Idle | Sending (m : M) | Failing.

(** A lane with all that was offered and sent and the totals reported, and what
    the goroutines hold: the callers about to count a record they dropped, and
    the turn of the one that sends. *)
Record ledger : Type := {
  lgLane : lane M;
  lgOffered : list (option M);
  lgDropping : nat;
  lgTurn : turn;
  lgSent : list M;
  lgReportedDropped : Z;
  lgReportedFailed : Z;
}.

Definition happen (w : ledger) (e : event) : ledger :=
  match e with
  | Offer m =>
      let w := w {{ lgOffered := lgOffered w ++ [m] }} in
      match m with
      | None => w
      | Some m => match enqueue (lgLane w) m with Some l => w {{ lgLane := l }} | None => w {{ lgDropping := S (lgDropping w) }} end
      end
  | CountDrop => match lgDropping w with S n => w {{ lgDropping := n; lgLane := countDropped (lgLane w) }} | O => w end
  | Receive =>
      match lgTurn w, dequeue (lgLane w) with
      | Idle, Some (m, l) => w {{ lgLane := l; lgTurn := Sending m }}
      | _, _ => w
      end
  | Sent works =>
      match lgTurn w with
      | Sending m => if works then w {{ lgTurn := Idle; lgSent := lgSent w ++ [m] }} else w {{ lgTurn := Failing }}
      | _ => w
      end
  | CountFailure => match lgTurn w with Failing => w {{ lgTurn := Idle; lgLane := countFailed (lgLane w) }} | _ => w end
  | ReportDropped => let (l, n) := swapDropped (lgLane w) in w {{ lgLane := l; lgReportedDropped := (lgReportedDropped w + n)%Z }}
  | ReportFailed => let (l, n) := swapFailed (lgLane w) in w {{ lgLane := l; lgReportedFailed := (lgReportedFailed w + n)%Z }}
  end.

Definition opened (capacity : nat) : ledger := {|
  lgLane := newLane capacity; lgOffered := []; lgDropping := 0; lgTurn := Idle; lgSent := [];
  lgReportedDropped := 0; lgReportedFailed := 0 |}.

(** The records that were encoded, and how many could not be. *)
Definition encodable (offered : list (option M)) : list M := omap id offered.
#[global] Arguments encodable : simpl never.
Definition unencodable (offered : list (option M)) : nat := length offered - length (encodable offered).

Definition sending (w : ledger) : list M := match lgTurn w with Sending m => [m] | _ => [] end.
Definition failing (w : ledger) : Z := match lgTurn w with Failing => 1 | _ => 0 end.

(** Those that were sent, are being sent or wait. *)
Definition carried (w : ledger) : list M := lgSent w ++ sending w ++ lnBuffer (lgLane w).
Definition dropped (w : ledger) : Z := (Z.of_nat (lgDropping w) + lnDropped (lgLane w) + lgReportedDropped w)%Z.
Definition failed (w : ledger) : Z := (failing w + lnFailed (lgLane w) + lgReportedFailed w)%Z.

Lemma encodable_snoc offered m : encodable (offered ++ [m]) = encodable offered ++ option_list m.
Proof. unfold encodable. rewrite omap_app. by destruct m. Qed.

(** What holds of the records and their numbers. *)
Record balanced (capacity : nat) (w : ledger) : Prop := {
  bl_capacity : lnCapacity (lgLane w) = capacity /\ (length (lnBuffer (lgLane w)) <= capacity)%nat;
  bl_order : sublist (carried w) (encodable (lgOffered w));
  bl_counted : Z.of_nat (length (encodable (lgOffered w))) = (Z.of_nat (length (carried w)) + dropped w + failed w)%Z;
}.

Lemma happen_balanced capacity w e : balanced capacity w -> balanced capacity (happen w e).
Proof.
  destruct w as [[cap buffer drops fails] offered dropping state sent rd rf].
  intros [[Hcap Hlen] Horder Hcount]; unfold carried, dropped, failed, sending, failing in *; cbn in *. subst cap.
  destruct e as [[m|]| | |works| | |]; unfold happen; cbn [lgLane lgDropping lgTurn].
  - unfold enqueue. cbn -[Nat.ltb]. destruct (Nat.ltb_spec (length buffer) capacity); constructor; unfold carried, dropped, failed, sending, failing; cbn; unfold constant;
      rewrite ?encodable_snoc, ?length_app in *; cbn; try done; try lia.
    + rewrite !app_assoc in *. by apply sublist_app.
    + by apply sublist_inserts_r.
  - constructor; unfold carried, dropped, failed, sending, failing; cbn; unfold constant; rewrite ?encodable_snoc; cbn; rewrite ?app_nil_r; done.
  - destruct dropping as [|n]; constructor; unfold carried, dropped, failed, sending, failing; cbn in *; unfold constant; try done; lia.
  - destruct state; [|by constructor..]. destruct buffer as [|m rest]; [by constructor|].
    constructor; unfold carried, dropped, failed, sending, failing; cbn in *; unfold constant; try done. lia.
  - destruct state as [|m|]; [by constructor| |by constructor]. destruct works; constructor; unfold carried, dropped, failed, sending, failing; cbn in *; unfold constant; try done; rewrite ?length_app in *; cbn in *.
    + by rewrite <- app_assoc.
    + lia.
    + etransitivity; [|exact Horder]. apply sublist_app; [done|]. by apply sublist_cons.
    + lia.
  - destruct state; constructor; unfold carried, dropped, failed, sending, failing; cbn in *; unfold constant; try done; lia.
  - constructor; unfold carried, dropped, failed, sending, failing; cbn; unfold constant; try done; lia.
  - constructor; unfold carried, dropped, failed, sending, failing; cbn; unfold constant; try done; lia.
Qed.

(** C35: no record that could be encoded is lost without being counted. However
    logging, shipping and reporting interleave, one channel or counter operation
    at a time, and whichever sends fail, at most [capacity] records wait; what
    was sent was offered, in that order; and the records offered are as many as
    could not be encoded, which nobody counts, were sent, are being sent or
    wait, and were dropped or failed: counted in a report, since the last one,
    or by a goroutine that is about to. *)
Theorem lane_balanced capacity events :
  let w := fold_left happen events (opened capacity) in
  (length (lnBuffer (lgLane w)) <= capacity)%nat /\ sublist (lgSent w) (encodable (lgOffered w)) /\
  Z.of_nat (length (lgOffered w)) =
    (Z.of_nat (unencodable (lgOffered w)) +
     Z.of_nat (length (lgSent w) + length (sending w) + length (lnBuffer (lgLane w))) +
     dropped w + failed w)%Z.
Proof.
  assert (forall w, balanced capacity w -> balanced capacity (fold_left happen events w)) as Hall.
  { induction events as [|e events IH]; intros w Hw; [done|]. by apply IH, happen_balanced. }
  intros w. destruct (Hall (opened capacity)) as [[_ Hlen] Horder Hcount].
  { constructor; unfold carried, dropped, failed, sending, failing; cbn; try done; lia. }
  fold w in Hlen, Horder, Hcount. split_and!; [done| |].
  - etransitivity; [|exact Horder]. unfold carried. by apply sublist_inserts_r.
  - unfold carried in Hcount. rewrite !length_app in Hcount. unfold unencodable.
    assert (length (encodable (lgOffered w)) <= length (lgOffered w))%nat by (unfold encodable; generalize (lgOffered w); clear;
      intros l; induction l as [|[m|] l IH]; cbn; lia).
    lia.
Qed.
End lane.

(** * The handler *)

Definition defaultBufferSize : nat := 4096.
Definition forwardBufferSize : nat := 2048.

Section handler.
Context {A : Type}.
(** [marshalLogLine]. *)
Variable marshalLogLine : string -> string -> string -> string -> gmap string (option A) -> option string.

(** A process's logging: level, source, what stdout was written and the lane
    Attach drains. *)
Record logger : Type := { lrSource : string; lrLevel : Z; lrStdout : list string; lrLane : lane string }.

(** A record: its time as text, its level and the level's text, its message and attributes. *)
Record record : Type := { rcTime : string; rcLevel : Z; rcLevelText : string; rcMessage : string; rcAttrs : list (attr (A := A)) }.

Definition LevelInfo : Z := 0.

(** [NewWithBufferSize]. *)
Definition NewWithBufferSize (source : string) (bufferSize : nat) : logger :=
  {| lrSource := source; lrLevel := LevelInfo; lrStdout := []; lrLane := newLane bufferSize |}.

Definition Enabled (l : logger) (level : Z) : bool := (lrLevel l <=? level)%Z.

(** The line of a record: none when an attribute cannot be encoded. *)
Definition encoded (l : logger) (h : Handler) (r : record) : option string :=
  marshalLogLine (rcTime r) (rcLevelText r) (rcMessage r) (lrSource l) (lineAttrs h (rcAttrs r)).

Definition Handle (l : logger) (h : Handler) (r : record) : logger :=
  match encoded l h r with
  | None => l
  | Some line => l {{ lrStdout := lrStdout l ++ [line +:+ newline]; lrLane := offer (lrLane l) line }}
  end.

(** What slog calls: Handle for the records that are enabled. *)
Definition log (l : logger) (h : Handler) (r : record) : logger := if Enabled l (rcLevel r) then Handle l h r else l.
End handler.

(** * The tail *)

Section tail.
Context {R : Type}.
(** [logging.UnmarshalRecord]. *)
Variable UnmarshalRecord : string -> option R.

Record Buffer : Type := { bfEntries : list R; bfMax : nat }.

Definition NewBuffer (max : nat) : Buffer := {| bfEntries := []; bfMax := max |}.

Definition Add (b : Buffer) (raw : string) : Buffer :=
  match UnmarshalRecord raw with
  | None => b
  | Some record =>
      let entries := bfEntries b ++ [record] in
      {| bfEntries := if (bfMax b <? length entries)%nat then drop (length entries - bfMax b) entries else entries; bfMax := bfMax b |}
  end.

Definition Recent (b : Buffer) : list R := bfEntries b.

(** The records among what was published. *)
Definition decoded (raws : list string) : list R := omap UnmarshalRecord raws.

(** The live tail is the newest records. After any sequence of published
    lines, well formed or not, the tail holds the last [max] records that
    decode, oldest first. *)
Theorem tail_newest max raws : Recent (fold_left Add raws (NewBuffer max)) = drop (length (decoded raws) - max) (decoded raws).
Proof.
  assert (forall l, bfEntries (fold_left Add raws {| bfEntries := drop (length l - max) l; bfMax := max |}) = drop (length (l ++ decoded raws) - max) (l ++ decoded raws)) as Hall.
  { induction raws as [|raw raws IH]; intros l; [by rewrite app_nil_r|]. cbn [fold_left]. unfold Add at 2.
    change (decoded (raw :: raws)) with (match UnmarshalRecord raw with Some record => record :: decoded raws | None => decoded raws end).
    destruct (UnmarshalRecord raw) as [record|]; [|apply IH]. replace (l ++ record :: decoded raws) with ((l ++ [record]) ++ decoded raws) by (by rewrite <- app_assoc). rewrite <- IH. do 3 f_equal. cbn [bfMax bfEntries].
    rewrite !length_app, length_drop. cbn [length]. destruct (Nat.ltb_spec max (length l - (length l - max) + 1)).
    - rewrite <- (drop_app_le l [record] (length l - max)) by lia. rewrite drop_drop. f_equal. lia.
    - destruct (decide (length l < max)) as [Hlt|Hge]; [|lia]. replace (length l - max)%nat with 0%nat by lia. by replace (length l + 1 - max)%nat with 0%nat by lia. }
  exact (Hall []).
Qed.
End tail.

(** * At work *)

Example nested_names :
  let h := build {| hdGroups := []; hdBase := ∅ |} [Attrs [("agent", AnyValue "nas")]; Group "scan"; Attrs [("root", AnyValue "/films")]] in
  map_to_list (lineAttrs h [("count", AnyValue "3"); ("", GroupValue [("part", AnyValue "1")]); ("", NilValue)]) ≡ₚ
  [("agent", Some "nas"); ("scan.root", Some "/films"); ("scan.count", Some "3"); ("scan.part", Some "1")].
Proof. apply (bool_decide_unpack _). vm_compute. exact I. Qed.

Example burst :
  let w := fold_left happen [Offer (Some "a"); Offer (Some "b"); Offer (Some "c"); Offer None; Receive; Sent true; Receive; CountDrop; ReportDropped;
    Sent false; ReportFailed; CountFailure; Offer (Some "d"); Receive; Sent true; ReportFailed] (opened 2) in
  (lgSent w, unencodable (lgOffered w), lgReportedDropped w, lgReportedFailed w) = (["a"; "d"], 1%nat, 1%Z, 1%Z).
Proof. reflexivity. Qed.
