(* ===== verification/LocalQueries.v ===== *)
(** Reading the library back: the queries of
    src/internal/server/mongostore/local_directory_repo.go and the methods of
    src/internal/server/services/local_directories.go that answer with them.

    Queries are the class [LocalFind] over the collection of LocalDirectory,
    with what the driver documents of them; the driver's extended JSON and the
    generated messages' decoding are [StoredRead]. *)
From stdpp Require Import strings list gmap sorting.
From Stdlib Require Import Ascii ZArith Lia.
From S2P Require Import Prelude Sidecar ScanModel GoPath Paths StoredTime Stored LocalDirectory ConfigStore Services.
#[local] Open Scope go_scope.

(** * Queries *)

(** [Find filter field skip limit]: rows in ascending order of a text field,
    where one is named. The answer is a cursor, which gives its rows or fails
    when it is drained; [FindByID] is a FindOne by id and record type. *)
Class LocalFind `{LocalCollection} : Type := {
  Find : (document -> bool) -> option string -> nat -> option nat -> collection -> collection * result (result (list (ObjectID * document)));
  FindByID : ObjectID -> string -> collection -> collection * result (option document);
  MarshalExtJSON : document -> result string;
  ParseObjectID : string -> result ObjectID;
}.

(** The text of a field; an absent one sorts first. *)
Definition textAt (field : string) (d : document) : string := match d !! field with Some (Text s) => s | _ => "" end.

Definition hasText (field s : string) (d : document) : bool := match d !! field with Some (Text t) => String.eqb t s | _ => false end.

(** The documents a filter selects, in no order. *)
Definition matching `{LocalCollection} (p : document -> bool) (M : gmap string (ObjectID * document)) : list (ObjectID * document) :=
  (map_to_list (filter (fun e : string * (ObjectID * document) => p e.2.2 = true) M)).*2.

Definition inOrderOf (field : string) {A} (a b : A * document) : Prop := String.compare (textAt field a.2) (textAt field b.2) <> Gt.

Class LocalFindLaws `{LocalFind} : Prop := {
  parse_hex id : ParseObjectID (Hex id) = Ok id;
  hex_not_empty id : Hex id <> "";
  Find_docs p field skip limit c : docs (Find p field skip limit c).1 = docs c;
  Find_Ok p field skip limit c c' rows : Find p field skip limit c = (c', Ok (Ok rows)) ->
    exists all, all ≡ₚ matching p (docs c) /\ (forall f, field = Some f -> StronglySorted (inOrderOf f) all) /\
      rows = match limit with Some n => take n (drop skip all) | None => drop skip all end;
  FindByID_docs id recordType c : docs (FindByID id recordType c).1 = docs c;
  FindByID_Some id recordType c c' d : FindByID id recordType c = (c', Ok (Some d)) ->
    hasText "record_type" recordType d = true /\ exists p, docs c !! p = Some (id, d);
  FindByID_None id recordType c c' p d : FindByID id recordType c = (c', Ok None) -> docs c !! p = Some (id, d) -> hasText "record_type" recordType d = false;
}.

(** What the collection's unique indexes give: a document is stored under its
    path, and no two documents have an id in common. *)
Record indexed `{LocalCollection} (c : collection) : Prop := {
  path_key p id d : docs c !! p = Some (id, d) -> d !! "path" = Some (Text p);
  ids_distinct p q id d e : docs c !! p = Some (id, d) -> docs c !! q = Some (id, e) -> p = q;
}.

(** A generated message: UnmarshalStored, and its own id field. *)
Class StoredRead (R : Type) : Type := { UnmarshalStored : string -> result R; setId : string -> R -> R }.

(** What protojson and the driver document of a record that was stored: its
    document is written as JSON that is read as the record, up to the id field,
    which is no part of the document. *)
Class StoredReadLaw (R : Type) `{LocalFind, Descriptors, ExtJSON, !StoredForm R, !StoredRead R} : Prop := {
  read_stored (record : R) d : replacementDocumentFrom record = Ok d ->
    exists storedJSON read, MarshalExtJSON d = Ok storedJSON /\ UnmarshalStored storedJSON = Ok read /\ forall id, setId id read = setId id record;
}.

(** An error of a query: the sentinel, or another with its text. *)
Inductive queryError : Type := ErrNotFound | QueryFailed (what : string).

Section decode.
Context `{LocalFind} {R : Type} `{!StoredRead R}.

Definition decodeStoredRecord (row : ObjectID * document) : result R :=
  try storedJSON := MarshalExtJSON row.2 in
  try record := UnmarshalStored storedJSON in
  Ok (if decide (row.1 = NilObjectID) then record else setId (Hex row.1) record).

Fixpoint decodeRows (what : string) (rows : list (ObjectID * document)) : result (list R) :=
  match rows with
  | [] => Ok []
  | row :: rest =>
      match decodeStoredRecord row with
      | Err err => Err ("mongostore: decoding " +:+ what +:+ ": " +:+ err)
      | Ok record => try records := decodeRows what rest in Ok (record :: records)
      end
  end.

Definition decodeStoredAll (what : string) (cursor : result (list (ObjectID * document))) : result (list R) :=
  match cursor with
  | Err err => Err ("mongostore: decoding " +:+ what +:+ ": " +:+ err)
  | Ok rows => decodeRows what rows
  end.

(** A query and the decoding of its rows. *)
Definition findAll (listing what : string) (p : document -> bool) (field : option string) (skip : nat) (limit : option nat) (c : collection)
  : collection * result (list R) :=
  match Find p field skip limit c with
  | (c', Err err) => (c', Err ("mongostore: " +:+ listing +:+ ": " +:+ err))
  | (c', Ok cursor) => (c', decodeStoredAll what cursor)
  end.

Definition getRecord (what recordType : string) (id : ObjectID) (c : collection) : collection * (R + queryError) :=
  match FindByID id recordType c with
  | (c', Ok None) => (c', inr ErrNotFound)
  | (c', Err err) => (c', inr (QueryFailed ("mongostore: fetching " +:+ what +:+ " " +:+ Hex id +:+ ": " +:+ err)))
  | (c', Ok (Some d)) =>
      match decodeStoredRecord (id, d) with
      | Ok record => (c', inl record)
      | Err err => (c', inr (QueryFailed ("mongostore: decoding " +:+ what +:+ " " +:+ Hex id +:+ ": " +:+ err)))
      end
  end.
End decode.

Record ListFilter : Type := { lfScanRootPath : string; lfType : DirectoryType; lfLimit : Z; lfSkip : Z }.

(** The query documents. *)
Definition directoryQuery (filter : ListFilter) (d : document) : bool :=
  hasText "record_type" RecordTypeTVSeries d &&
  (if String.eqb (lfScanRootPath filter) "" then true else hasText "scan_root_path" (lfScanRootPath filter) d) &&
  (if String.eqb (lfType filter) "" then true else hasText "type" (lfType filter) d).

Definition mediaFileQuery (directoryID : string) (d : document) : bool :=
  hasText "record_type" RecordTypeMediaFile d && hasText "directory_id" directoryID d.

(** metadata.external_links, $elemMatch: a subdocument with this key and value. *)
Definition elementMatches (key v : string) (x : value) : bool :=
  match x with
  | Doc fields =>
      existsb (fun e => match e with (k, Text s) => String.eqb k "key" && String.eqb s key | _ => false end) fields &&
      existsb (fun e => match e with (k, Text s) => String.eqb k "value" && String.eqb s v | _ => false end) fields
  | _ => false
  end.

Definition externalLinkQuery (recordType key v : string) (d : document) : bool :=
  hasText "record_type" recordType d &&
  match d !! "metadata" with
  | Some (Doc fields) => existsb (fun e => match e with (k, Array elements) => String.eqb k "external_links" && existsb (elementMatches key v) elements | _ => false end) fields
  | _ => false
  end.

Section repo.
Context `{LocalFind} {D F : Type} `{!StoredRead D, !StoredRead F}.

Definition ListDirectories (filter : ListFilter) : collection -> collection * result (list D) :=
  findAll "listing directories" "directories" (directoryQuery filter) (Some "path")
    (if (0 <? lfSkip filter)%Z then Z.to_nat (lfSkip filter) else 0) (if (0 <? lfLimit filter)%Z then Some (Z.to_nat (lfLimit filter)) else None).

Definition GetDirectory (id : ObjectID) : collection -> collection * (D + queryError) := getRecord "directory" RecordTypeTVSeries id.

Definition ListMediaFiles (directoryID : ObjectID) : collection -> collection * result (list F) :=
  findAll "listing media files" "media files" (mediaFileQuery (Hex directoryID)) (Some "relative_path") 0 None.

Definition GetMediaFile (id : ObjectID) : collection -> collection * (F + queryError) := getRecord "media file" RecordTypeMediaFile id.

Definition FindByExternalLink (key v : string) : collection -> collection * result (list D) :=
  findAll "finding directories by external link" "directories" (externalLinkQuery RecordTypeTVSeries key v) None 0 None.

Definition FindByEpisodeID (key v : string) : collection -> collection * result (list F) :=
  findAll "finding media files by episode id" "media files" (externalLinkQuery RecordTypeMediaFile key v) None 0 None.

(** * The methods *)

Definition defaultLocalDirectoryLimit : Z := 100.
Definition maxLocalDirectoryLimit : Z := 500.

Definition directoryLookupError (err : queryError) : failure :=
  match err with ErrNotFound => connectError 404 "no directory with that id" | QueryFailed _ => connectError 500 "failed to fetch directory" end.

(** The filter a request asks for. *)
Definition listFilter (scanRoot rawType : string) (limit skip : Z) : reply failure ListFilter :=
  match (if String.eqb rawType "" then Ok "" else ParseDirectoryType rawType) with
  | Err err => Refused (connectError 400 err)
  | Ok directoryType =>
      if negb (limit =? 0)%Z && (limit <? 1)%Z then Refused (connectError 400 "limit must be a positive integer")
      else if negb (skip =? 0)%Z && (skip <? 0)%Z then Refused (connectError 400 "skip must be zero or a positive integer")
      else Reply {| lfScanRootPath := scanRoot; lfType := directoryType;
                    lfLimit := if (limit =? 0)%Z then defaultLocalDirectoryLimit else if (maxLocalDirectoryLimit <? limit)%Z then maxLocalDirectoryLimit else limit;
                    lfSkip := skip |}
  end.

Definition ListDirectoriesMethod (scanRoot rawType : string) (limit skip : Z) (c : collection) : collection * reply failure (list D) :=
  match listFilter scanRoot rawType limit skip with
  | Refused f => (c, Refused f)
  | Reply filter =>
      match ListDirectories filter c with
      | (c', Err _) => (c', Refused (connectError 500 "failed to list directories"))
      | (c', Ok directories) => (c', Reply directories)
      end
  end.

Definition GetDirectoryMethod (rawID : string) (c : collection) : collection * reply failure D :=
  match ParseObjectID rawID with
  | Err _ => (c, Refused (connectError 400 "malformed id"))
  | Ok directoryID =>
      match GetDirectory directoryID c with
      | (c', inr err) => (c', Refused (directoryLookupError err))
      | (c', inl directory) => (c', Reply directory)
      end
  end.

Definition ListMediaFilesMethod (rawID : string) (c : collection) : collection * reply failure (list F) :=
  match ParseObjectID rawID with
  | Err _ => (c, Refused (connectError 400 "malformed id"))
  | Ok directoryID =>
      match GetDirectory directoryID c with
      | (c', inr err) => (c', Refused (directoryLookupError err))
      | (c', inl _) =>
          match ListMediaFiles directoryID c' with
          | (c'', Err _) => (c'', Refused (connectError 500 "failed to list media files"))
          | (c'', Ok mediaFiles) => (c'', Reply mediaFiles)
          end
      end
  end.

Definition GetMediaFileMethod (rawID : string) (c : collection) : collection * reply failure F :=
  match ParseObjectID rawID with
  | Err _ => (c, Refused (connectError 400 "malformed id"))
  | Ok mediaFileID =>
      match GetMediaFile mediaFileID c with
      | (c', inr ErrNotFound) => (c', Refused (connectError 404 "no media file with that id"))
      | (c', inr (QueryFailed _)) => (c', Refused (connectError 500 "failed to fetch media file"))
      | (c', inl mediaFile) => (c', Reply mediaFile)
      end
  end.
End repo.

(** * What a query answers *)

Section answers.
Context `{LocalFindLaws}.

Lemma elem_of_matching p M row : row ∈ matching p M <-> exists path, M !! path = Some row /\ p row.2 = true.
Proof.
  unfold matching. rewrite list_elem_of_fmap. split.
  - intros ([path e] & -> & He). apply elem_of_map_to_list, map_lookup_filter_Some in He as [Hl Hp]. by exists path.
  - intros (path & Hl & Hp). exists (path, row). split; [done|]. by apply elem_of_map_to_list, map_lookup_filter_Some.
Qed.

Lemma matching_paths p c : indexed c -> NoDup (map (fun row => textAt "path" row.2) (matching p (docs c))).
Proof.
  intros Hc. assert (map (fun row : ObjectID * document => textAt "path" row.2) (matching p (docs c)) = (map_to_list (filter (fun e : string * (ObjectID * document) => p e.2.2 = true) (docs c))).*1) as ->;
    [|apply NoDup_fst_map_to_list].
  unfold matching. change map with (@fmap list _). rewrite <- list_fmap_compose. apply list_fmap_ext. intros i [path [id d]] Hi.
  apply list_elem_of_lookup_2, elem_of_map_to_list, map_lookup_filter_Some in Hi as [Hl _]. cbn. unfold textAt. by rewrite (path_key _ Hc _ _ _ Hl).
Qed.

(** Rows in the order of their paths, which no two share. *)
Lemma sorted_by_path p c l1 l2 : indexed c -> l1 ≡ₚ matching p (docs c) -> l2 ≡ₚ matching p (docs c) ->
  StronglySorted (inOrderOf "path") l1 -> StronglySorted (inOrderOf "path") l2 -> l1 = l2.
Proof.
  intros Hc H1' H2' Hs1 Hs2. apply (StronglySorted_unique_strong (inOrderOf "path")); [|done|done|by rewrite H1', H2'].
  intros a b Ha Hb Hab Hba. rewrite H1' in Ha. rewrite H2' in Hb. unfold inOrderOf in Hab, Hba.
  apply (NoDup_map_inj _ _ (matching_paths p c Hc)); [done|done|].
  destruct (String.compare (textAt "path" a.2) (textAt "path" b.2)) eqn:Hcmp; [by apply String.compare_eq_iff in Hcmp| |done].
  rewrite String.compare_antisym, Hcmp in Hba. done.
Qed.

Definition byPath (l : list (ObjectID * document)) : list (ObjectID * document) := stable_sort (fun row => textAt "path" row.2) String.ltb l.

Lemma sorted_by_text {A} field (l : list (A * document)) : StronglySorted (inOrderOf field) (stable_sort (fun row => textAt field row.2) String.ltb l).
Proof.
  assert (StronglySorted (in_order (fun row : A * document => textAt field row.2) String.ltb) (stable_sort (fun row => textAt field row.2) String.ltb l)) as Hs.
  { apply stable_sort_sorted; [intros a b c|intros a b]; [|apply str_ltb_asym]. apply str_ltb_trans. }
  induction Hs as [|a l' Hs IH Hall]; constructor; [done|]. eapply Forall_impl; [exact Hall|]. intros b Hb. unfold in_order in Hb. by apply str_ltb_false in Hb.
Qed.

Section directories.
Context {D F : Type} `{!StoredRead D, !StoredRead F}.

(** A list of directories is a window. There is one list of the directories
    under a scan root and of a type, in the order of their paths and each once,
    and every request that is answered, whatever its limit and skip, is
    answered with the slice it asked for, at most five hundred of them: pages
    that follow each other show every directory exactly once. *)
Theorem directories_window scanRoot rawType c : indexed c -> exists all,
  (forall row, row ∈ all <-> exists path, docs c !! path = Some row /\
     directoryQuery {| lfScanRootPath := scanRoot; lfType := rawType; lfLimit := 0; lfSkip := 0 |} row.2 = true) /\
  NoDup (map (fun row => textAt "path" row.2) all) /\ StronglySorted (inOrderOf "path") all /\
  forall limit skip c' records, ListDirectoriesMethod (D := D) scanRoot rawType limit skip c = (c', Reply records) ->
    exists n, (1 <= n <= 500)%nat /\ (limit <> 0%Z -> n = Nat.min (Z.to_nat limit) 500) /\
      decodeRows "directories" (take n (drop (Z.to_nat skip) all)) = Ok records /\ docs c' = docs c.
Proof.
  intros Hc. set (query := directoryQuery _). exists (byPath (matching query (docs c))).
  assert (byPath (matching query (docs c)) ≡ₚ matching query (docs c)) as Hperm by apply stable_sort_perm. split_and!.
  - intros row. by rewrite Hperm, elem_of_matching.
  - rewrite (Permutation_map _ Hperm). by apply matching_paths.
  - apply sorted_by_text.
  - intros limit skip c' records. unfold ListDirectoriesMethod, listFilter.
    destruct (if String.eqb rawType "" then _ else _) as [ty|err] eqn:Hty; [|done].
    assert (ty = rawType) as ->.
    { destruct (String.eqb_spec rawType "") as [->|_]; [by injection Hty as <-|]. unfold ParseDirectoryType in Hty. destruct (List.find _ _) as [t|] eqn:Hf; [|done].
      injection Hty as <-. by apply find_some in Hf as [_ ->%String.eqb_eq]. }
    destruct (negb (limit =? 0)%Z && _) eqn:Hlim; [done|]. destruct (negb (skip =? 0)%Z && _) eqn:Hskip; [done|].
    set (n := if (limit =? 0)%Z then defaultLocalDirectoryLimit else if (maxLocalDirectoryLimit <? limit)%Z then maxLocalDirectoryLimit else limit).
    assert (1 <= n <= 500)%Z as Hn.
    { unfold n, defaultLocalDirectoryLimit, maxLocalDirectoryLimit. destruct (Z.eqb_spec limit 0); [lia|]. cbn in Hlim. apply Z.ltb_ge in Hlim. destruct (Z.ltb_spec 500 limit); lia. }
    unfold ListDirectories, findAll. cbn [lfSkip lfLimit].
    change (directoryQuery {| lfScanRootPath := scanRoot; lfType := rawType; lfLimit := n; lfSkip := skip |}) with query.
    assert ((0 <? n)%Z = true) as -> by lia.
    assert ((if (0 <? skip)%Z then Z.to_nat skip else 0)%nat = Z.to_nat skip) as -> by (destruct (Z.ltb_spec 0 skip); lia).
    pose proof (Find_docs query (Some "path") (Z.to_nat skip) (Some (Z.to_nat n)) c) as Hd.
    destruct (Find query (Some "path") (Z.to_nat skip) (Some (Z.to_nat n)) c) as [c1 [rows|err]] eqn:Hf; [|done]. cbn in Hd. destruct rows as [rows|err]; [|done]. cbn [decodeStoredAll].
    destruct (Find_Ok _ _ _ _ _ _ _ Hf) as (all & Hall & Hsort & ->).
    rewrite (sorted_by_path query c all (byPath (matching query (docs c))) Hc Hall Hperm (Hsort _ eq_refl) (sorted_by_text _ _)).
    destruct (decodeRows "directories" _) as [out|] eqn:Hout; [|done]. intros [= <- <-]. exists (Z.to_nat n). split_and!; [lia|lia| |done|done].
    intros Hne. unfold n, maxLocalDirectoryLimit. destruct (Z.eqb_spec limit 0); [done|]. destruct (Z.ltb_spec 500 limit); lia.
Qed.
End directories.
End answers.

(** * What was stored is what is read *)

(** The fields media files are found by. *)
Class FileLinks (F : Type) : Type := fileRecordType : F -> string.

Class FileLinksLaw (D F : Type) `{RecordFieldsLaw D F, !FileLinks F} : Prop := {
  file_type (f : StoredFile F) : fieldsOf f !! "record_type" = textField (fileRecordType (fileOther (sfFile f)));
  file_directory (f : StoredFile F) : fieldsOf f !! "directory_id" = textField (sfDirectoryId f);
}.

Section stored.
Context {D F : Type} `{FileLinksLaw D F, !LocalCollectionLaws, !LocalFind, !LocalFindLaws, !StoredRead (Directory D), !StoredRead (StoredFile F),
  !StoredReadLaw (Directory D), !StoredReadLaw (StoredFile F)}.

Lemma fileDocument_links root id (f : MediaFile F) : id <> NilObjectID -> fileRecordType (fileOther f) = RecordTypeMediaFile ->
  mediaFileQuery (Hex id) (fileDocument root id f) = true.
Proof.
  intros Hid Ht. unfold mediaFileQuery, hasText, fileDocument. rewrite !lookup_documentOf, file_type, file_directory by done. cbn.
  rewrite decide_False by done. rewrite Ht, (textField_set (Hex id)) by apply hex_not_empty. cbn. by rewrite String.eqb_refl.
Qed.

Lemma decodeRows_in {R} `{!StoredRead R} what rows (records : list R) row : decodeRows what rows = Ok records -> row ∈ rows ->
  exists record, record ∈ records /\ decodeStoredRecord row = Ok record.
Proof.
  revert records. induction rows as [|row' rows IH]; intros records; [by intros _ ?%elem_of_nil|]. cbn [decodeRows].
  destruct (decodeStoredRecord row') as [record'|] eqn:Hr; [|done]. destruct (decodeRows what rows) as [records'|]; [|done]. intros [= <-].
  intros [->|Hin]%elem_of_cons; [exists record'; split; [left|done]|]. destruct (IH _ eq_refl Hin) as (record & ? & ?). exists record. split; [by right|done].
Qed.

Lemma decodeRows_back {R} `{!StoredRead R} what rows (records : list R) record : decodeRows what rows = Ok records -> record ∈ records ->
  exists row, row ∈ rows /\ decodeStoredRecord row = Ok record.
Proof.
  revert records. induction rows as [|row' rows IH]; intros records; cbn [decodeRows]; [intros [= <-]; by intros ?%elem_of_nil|].
  destruct (decodeStoredRecord row') as [record'|] eqn:Hr; [|done]. destruct (decodeRows what rows) as [records'|]; [|done]. intros [= <-].
  intros [->|Hin]%elem_of_cons; [exists row'; split; [left|done]|]. destruct (IH _ eq_refl Hin) as (row & ? & ?). exists row. split; [by right|done].
Qed.

(** A stored record is read back under its id. *)
Lemma decode_stored {R} `{!StoredForm R, !StoredRead R, !StoredReadLaw R} id (record : R) d : id <> NilObjectID ->
  replacementDocumentFrom record = Ok d -> decodeStoredRecord (id, d) = Ok (setId (Hex id) record).
Proof.
  intros Hid (j & read & Hj & Hu & Hset)%read_stored. unfold decodeStoredRecord. cbn [fst snd]. rewrite Hj. cbn [rbind]. rewrite Hu. cbn [rbind].
  by rewrite decide_False, Hset.
Qed.

Lemma decodeRows_Err {R} `{!StoredRead R} what rows err : decodeRows (R := R) what rows = Err err -> exists row, row ∈ rows /\ is_ok (decodeStoredRecord (R := R) row) = false.
Proof.
  induction rows as [|row rows IH]; [done|]. cbn [decodeRows]. destruct (decodeStoredRecord row) as [record|e] eqn:Hr.
  - destruct (decodeRows what rows) as [records|e]; [done|]. intros [= ->]. destruct (IH eq_refl) as (row' & ? & ?). exists row'. split; [by right|done].
  - intros _. exists row. split; [by left|by rewrite Hr].
Qed.

(** The server failed. *)
Definition serverFailed {A} (answer : reply failure A) : Prop := exists msg, answer = Refused (ConnectError CodeInternal msg).

(** The two queries of the methods, when the database does not answer them. *)
Definition lookupFails (id : ObjectID) (c : collection) : Prop := exists err, (FindByID id RecordTypeTVSeries c).2 = Err err.
Definition listingFails (id : ObjectID) (c : collection) : Prop :=
  exists err, (Find (mediaFileQuery (Hex id)) (Some "relative_path") 0 None (FindByID id RecordTypeTVSeries c).1).2 ∈ [Err err; Ok (Err err)].

(** The directory under an id. *)
Lemma GetDirectory_stored id p record doc (c c' : collection) x : indexed c -> docs c !! p = Some (id, doc) -> hasText "record_type" RecordTypeTVSeries doc = true ->
  replacementDocumentFrom record = Ok doc -> GetDirectory (D := Directory D) id c = (c', x) ->
  docs c' = docs c /\ c' = (FindByID id RecordTypeTVSeries c).1 /\
  (x = inl (setId (Hex id) record) \/ (exists what, x = inr (QueryFailed what)) /\ lookupFails id c).
Proof.
  intros Hix Hl Ht Henc. unfold GetDirectory, getRecord, lookupFails. pose proof (FindByID_docs id RecordTypeTVSeries c) as Hdocs.
  destruct (FindByID id RecordTypeTVSeries c) as [c1 [[doc'|]|err]] eqn:Hf; cbn in Hdocs |- *.
  - apply FindByID_Some in Hf as (_ & q & Hq). assert (q = p) as -> by by eapply (ids_distinct c Hix). rewrite Hl in Hq. injection Hq as <-.
    rewrite (decode_stored id record doc); [|by eapply ids_never_nil|done]. intros [= <- <-]. split_and!; [done..|by left].
  - pose proof (FindByID_None _ _ _ _ _ _ Hf Hl) as Hno. by rewrite Ht in Hno.
  - intros [= <- <-]. split_and!; [done..|]. right. split; by eexists.
Qed.

(** C14: what a scan stores is what is read. After an item was stored without an
    error, its directory has an id under which GetDirectory answers exactly the
    directory that was stored, with that id, unless the database fails; and
    ListMediaFiles answers every file of the item exactly as it was stored, each
    under the id its document has, together with whatever else is stored as
    linked to that directory and nothing but that, unless the database fails or
    another linked document cannot be decoded. Neither ever says the directory
    is not there. *)
Theorem stored_then_read root (r : ScanResult D F) d c c' : placed r -> srDirectory r = Some d ->
  (forall f, f ∈ srMediaFiles r -> fileRecordType (fileOther f) = RecordTypeMediaFile) -> NoDup (map filePath (srMediaFiles r)) ->
  UpsertScanResult root (Some r) c = (c', None) -> indexed c' ->
  exists id, id <> NilObjectID /\
    (forall c'' answer, GetDirectoryMethod (D := Directory D) (Hex id) c' = (c'', answer) ->
       answer = Reply (setId (Hex id) (inRoot root d)) \/ serverFailed answer /\ lookupFails id c') /\
    (forall c'' answer, ListMediaFilesMethod (D := Directory D) (F := StoredFile F) (Hex id) c' = (c'', answer) ->
       (exists records, answer = Reply records /\
          (forall f, f ∈ srMediaFiles r -> exists fid, docs c' !! filePath f = Some (fid, fileDocument root id f) /\ setId (Hex fid) (linked root id f) ∈ records) /\
          (forall record, record ∈ records -> exists path row, docs c' !! path = Some row /\ mediaFileQuery (Hex id) row.2 = true /\ decodeStoredRecord row = Ok record)) \/
       serverFailed answer /\ (lookupFails id c' \/ listingFails id c' \/
         exists path row, docs c' !! path = Some row /\ mediaFileQuery (Hex id) row.2 = true /\ path ∉ map filePath (srMediaFiles r) /\
           is_ok (decodeStoredRecord (R := StoredFile F) row) = false)).
Proof.
  intros Hr Hdir Htypes Hnd Hu Hix. destruct (UpsertScanResult_leaves root r c c' None Hr Hu) as (id & _ & Hok). destruct (Hok eq_refl) as [Hrep Hlink]. clear Hok.
  unfold links_to in Hlink. rewrite Hdir in Hlink. pose proof (ids_never_nil c' _ _ _ Hlink) as Hid. exists id. split; [done|].
  destruct (UpsertScanResult_encodes root r d c c' Hr Hdir Hu) as (id' & Hl' & Henc & Hfiles). rewrite Hlink in Hl'. injection Hl' as <-.
  assert (hasText "record_type" RecordTypeTVSeries (directoryDocument root d) = true) as Ht.
  { destruct (placed_directory r Hr d Hdir) as [Hp Htype]. unfold hasText. by rewrite (proj1 (proj2 (directoryDocument_fields root d Hp Htype))), String.eqb_refl. }
  assert (forall f, f ∈ srMediaFiles r -> exists fid, docs c' !! filePath f = Some (fid, fileDocument root id f)) as Hstored.
  { intros f Hf'. assert (filePath f ∈ (directoryWrites root r ++ fileWrites root id r).*1) as Hin.
    { rewrite writes_paths. apply elem_of_resultPaths. right. by exists f. }
    destruct (replaced_in _ _ _ _ Hrep Hin) as (fid & doc & Hw & Hl & _). apply elem_of_writes in Hw as [(d' & Hd' & Hp & _)|(g & Hg' & Hp & ->)].
    { by destruct (placed_apart r Hr d' f Hd' Hf'). }
    assert (f = g) as <- by by apply (NoDup_map_inj filePath (srMediaFiles r)). by exists fid. }
  assert (forall f fid, f ∈ srMediaFiles r -> docs c' !! filePath f = Some (fid, fileDocument root id f) ->
    decodeStoredRecord (fid, fileDocument root id f) = Ok (setId (Hex fid) (linked root id f))) as Hdecode.
  { intros f fid Hf Hl. apply decode_stored; [by eapply ids_never_nil|by apply Hfiles]. }
  split.
  - intros c'' answer. unfold GetDirectoryMethod. rewrite parse_hex. destruct (GetDirectory id c') as [c1 x] eqn:Hg.
    destruct (GetDirectory_stored _ _ _ _ _ _ _ Hix Hlink Ht Henc Hg) as (_ & _ & [->|[[what ->] Hfail]]); intros [= _ <-]; [by left|right].
    split; [by eexists|done].
  - intros c'' answer. unfold ListMediaFilesMethod. rewrite parse_hex. destruct (GetDirectory id c') as [c1 x] eqn:Hg.
    destruct (GetDirectory_stored _ _ _ _ _ _ _ Hix Hlink Ht Henc Hg) as (Hd1 & Hc1 & [->|[[what ->] Hfail]]);
      [|intros [= _ <-]; right; split; [by eexists|by left]].
    unfold ListMediaFiles, findAll. destruct (Find _ _ _ _ c1) as [c2 [[rows|err]|err]] eqn:Hf; cbn [decodeStoredAll].
    2,3: intros [= _ <-]; right; split; [by eexists|right; left; exists err; rewrite <- Hc1, Hf; cbn; rewrite !elem_of_cons; auto].
    destruct (Find_Ok _ _ _ _ _ _ _ Hf) as (all & Hall & _ & ->). rewrite drop_0, Hd1 in *.
    destruct (decodeRows "media files" all) as [out|err] eqn:Hout; intros [= _ <-].
    + left. exists out. split; [done|]. split.
      * intros f Hf'. destruct (Hstored f Hf') as [fid Hl]. exists fid. split; [done|].
        destruct (decodeRows_in _ _ _ (fid, fileDocument root id f) Hout) as (record' & Hrec & Hdec); [|by rewrite Hdecode in Hdec; [injection Hdec as <-|..]].
        rewrite Hall. apply elem_of_matching. exists (filePath f). split; [done|]. apply fileDocument_links; auto.
      * intros record' Hrec. destruct (decodeRows_back _ _ _ _ Hout Hrec) as (row & Hrow & Hdec).
        rewrite Hall in Hrow. apply elem_of_matching in Hrow as (path & Hl & Hq). by exists path, row.
    + right. split; [by eexists|]. do 2 right. destruct (decodeRows_Err _ _ _ Hout) as (row & Hrow & Hbad).
      rewrite Hall in Hrow. apply elem_of_matching in Hrow as (path & Hl & Hq). exists path, row. split_and!; [done|done| |done].
      intros (f & -> & Hf')%list_elem_of_fmap. destruct (Hstored f Hf') as [fid Hl2]. rewrite Hl in Hl2. injection Hl2 as ->.
      by rewrite (Hdecode f fid Hf' Hl) in Hbad.
Qed.
End stored.
