(* ===== verification/LocalQuerySamples.v ===== *)
(** The library of LibrarySamples read back: its collection answers queries and
    its records can be decoded, so the theorems of LocalQueries hold of
    something. *)
From stdpp Require Import strings list gmap sorting.
From Stdlib Require Import Ascii ZArith Lia.
From S2P Require Import Prelude Sidecar ScanModel GoPath GoText Paths StoredTime Stored LocalDirectory ConfigStore Services LibrarySamples LocalQueries.
#[local] Open Scope go_scope.

(** * Queries of the collection in memory *)

Definition ordered (field : option string) (rows : list (nat * document)) : list (nat * document) :=
  match field with Some f => stable_sort (fun row => textAt f row.2) String.ltb rows | None => rows end.

Definition window {A} (skip : nat) (limit : option nat) (l : list A) : list A :=
  match limit with Some n => take n (drop skip l) | None => drop skip l end.

Definition rowOf (id : nat) (c : memory) : option document :=
  match List.find (fun row : nat * document => Nat.eqb row.1 id) (map_to_list (memoryDocs c)).*2 with Some (_, d) => Some d | None => None end.

(** Texts and numbers are written, each with its mark. *)
Definition written (e : string * value) : option (string * string) :=
  match e with
  | (key, Text s) => Some (key, String "t" s)
  | (key, Number n) => Some (key, String "n" (number n))
  | _ => None
  end.

#[export] Instance memoryFind : LocalFind := {|
  Find := fun p field skip limit c => (c, Ok (Ok (window skip limit (ordered field (matching (H := memoryCollection) p (memoryDocs c))))));
  FindByID := fun id recordType c =>
    (c, Ok (match List.find (fun row : nat * document => Nat.eqb row.1 id && hasText "record_type" recordType row.2) (map_to_list (memoryDocs c)).*2 with
            | Some (_, d) => Some d
            | None => None
            end));
  MarshalExtJSON := fun d => Ok (pack (omap written (map_to_list d)));
  ParseObjectID := fun s => match digits_value 0 s with Some z => Ok (Z.to_nat z) | None => Err "malformed" end;
|}.

Lemma elem_of_rows (M : gmap string (nat * document)) row : row ∈ (map_to_list M).*2 <-> exists p, M !! p = Some row.
Proof.
  rewrite list_elem_of_fmap. split; [intros ([p e] & -> & He%elem_of_map_to_list); by exists p|].
  intros (p & Hp). exists (p, row). split; [done|]. by apply elem_of_map_to_list.
Qed.

#[export] Instance memoryFindLaws : LocalFindLaws.
Proof.
  constructor.
  - intros id. cbn. rewrite digits_show_Z by lia. by rewrite Nat2Z.id.
  - intros id. apply show_Z_digits. lia.
  - done.
  - intros p field skip limit c c' rows. cbn. intros [= <- <-]. exists (ordered field (matching (H := memoryCollection) p (memoryDocs c))). split_and!; [| |by destruct limit].
    + destruct field; [apply stable_sort_perm|done].
    + intros f ->. apply sorted_by_text.
  - done.
  - intros id recordType c c' d. cbn. intros [= _ Hf]. destruct (List.find _ _) as [[n e]|] eqn:He; [|done]. injection Hf as ->.
    apply find_some in He as [Hin [Hn Ht]%andb_prop]. apply Nat.eqb_eq in Hn as <-. split; [done|].
    apply list_elem_of_In, elem_of_rows in Hin. exact Hin.
  - intros id recordType c c' p d. cbn. intros [= _ Hf] Hp. destruct (List.find _ _) as [[n e]|] eqn:He; [done|].
    assert ((id, d) ∈ (map_to_list (memoryDocs c)).*2) as Hin%list_elem_of_In by (apply elem_of_rows; by exists p).
    pose proof (find_none _ _ He _ Hin) as Hn. cbn in Hn. by rewrite Nat.eqb_refl in Hn.
Qed.

(** * Reading records *)

Definition fieldAt (fields : list (string * string)) (key : string) : option string := snd <$> List.find (fun e => String.eqb e.1 key) fields.
Definition textOf (fields : list (string * string)) (key : string) : string := match fieldAt fields key with Some (String _ s) => s | _ => "" end.
Definition numberOf (fields : list (string * string)) (key : string) : Z := default 0%Z (unnumber (textOf fields key)).

#[export] Instance readDirectory : StoredRead (Directory D) := {|
  UnmarshalStored := fun s =>
    try fields := unpack s in
    Ok {| dirPath := textOf fields "path"; dirScanRootPath := textOf fields "scan_root_path";
          dirOther := (textOf fields "record_type", numberOf fields "scanned_nanos") |};
  setId := fun _ d => d;
|}.

#[export] Instance readFile : StoredRead (StoredFile F) := {|
  UnmarshalStored := fun s =>
    try fields := unpack s in
    Ok {| sfFile := {| filePath := textOf fields "path"; fileDirectoryPath := textOf fields "directory_path"; fileScanRootPath := textOf fields "scan_root_path";
                       fileOther := (numberOf fields "scanned_nanos", numberOf fields size_key) |};
          sfDirectoryId := textOf fields "directory_id" |};
  setId := fun _ f => f;
|}.

(** A field of a document as it is read. *)
Definition readText (v : option value) : string := match v with Some (Text s) => s | Some (Number n) => number n | _ => "" end.

Lemma find_written (l : list (string * value)) key : NoDup l.*1 ->
  textOf (omap written l) key = readText ((list_to_map l : document) !! key).
Proof.
  unfold textOf, fieldAt. induction l as [|[k v] l IH]; [done|]. cbn [fmap list_fmap fst]. intros [Hk Hnd]%NoDup_cons. specialize (IH Hnd).
  cbn [list_to_map foldr]. change (foldr _ ∅ l) with (list_to_map l : document). cbn [uncurry].
  assert (forall w, (if String.eqb k key then Some (k, w) else List.find (fun e : string * string => String.eqb e.1 key) (omap written l)) =
    if decide (k = key) then Some (k, w) else List.find (fun e : string * string => String.eqb e.1 key) (omap written l)) as Hif.
  { intros w. destruct (String.eqb_spec k key); [by rewrite decide_True|by rewrite decide_False]. }
  assert (k = key -> (list_to_map l : document) !! key = None) as Hnone by (intros <-; by apply not_elem_of_list_to_map_1).
  destruct (decide (k = key)) as [->|Hne].
  - rewrite lookup_insert_eq. specialize (Hnone eq_refl). rewrite Hnone in IH.
    destruct v as [| |s|n| | |]; cbn [omap list_omap written]; try exact IH; cbn [List.find fst]; by rewrite String.eqb_refl.
  - rewrite lookup_insert_ne by done. rewrite <- IH.
    destruct v as [| |s|n| | |]; cbn [omap list_omap written]; try done; cbn [List.find fst]; by rewrite (proj2 (String.eqb_neq _ _) Hne).
Qed.

Lemma textOf_written (d : document) key : textOf (omap written (map_to_list d)) key = readText (d !! key).
Proof. rewrite find_written by apply NoDup_fst_map_to_list. by rewrite list_to_map_to_list. Qed.

Lemma readText_field s : readText (textField s) = s.
Proof. unfold textField. by destruct (String.eqb_spec s "") as [->|]. Qed.

Lemma numberOf_written (d : document) key n : d !! key = Some (Text (number n)) \/ d !! key = Some (Number n) -> numberOf (omap written (map_to_list d)) key = n.
Proof. unfold numberOf. rewrite textOf_written. intros [-> | ->]; cbn; by rewrite unnumber_number. Qed.

#[export] Instance readDirectoryLaw : StoredReadLaw (Directory D).
Proof.
  constructor. intros d doc Hd. rewrite (replacementDocumentFrom_Ok _ _ Hd). clear doc Hd. eexists _, _. split; [done|]. cbn [UnmarshalStored readDirectory]. rewrite unpack_pack. cbn [rbind].
  split; [done|]. intros i. cbn [setId readDirectory]. rewrite !textOf_written, !lookup_documentOf, directory_path, directory_root, directory_type, !readText_field by done.
  rewrite (numberOf_written _ _ (dirOther d).2).
  - by destruct d as [? ? []].
  - left. rewrite lookup_documentOf by done. unfold fieldsOf. cbn. unfold directoryFields, present. repeat destruct (String.eqb _ _); cbn; by simplify_map_eq.
Qed.

#[export] Instance readFileLaw : StoredReadLaw (StoredFile F).
Proof.
  constructor. intros f doc Hd. rewrite (replacementDocumentFrom_Ok _ _ Hd). clear doc Hd. eexists _, _. split; [done|]. cbn [UnmarshalStored readFile]. rewrite unpack_pack. cbn [rbind].
  split; [done|]. intros i. cbn [setId readFile]. rewrite !textOf_written, !lookup_documentOf, file_path, file_root, !readText_field by done.
  assert (fieldsOf f !! "directory_path" = textField (fileDirectoryPath (sfFile f)) /\ fieldsOf f !! "directory_id" = textField (sfDirectoryId f) /\
    fieldsOf f !! "scanned_nanos" = Some (Text (number (fileOther (sfFile f)).1)) /\ fieldsOf f !! size_key = Some (Number (fileOther (sfFile f)).2)) as (H1' & H2' & H3' & H4').
  { unfold fieldsOf. cbn. unfold fileFields, present, textField. repeat destruct (String.eqb _ _); cbn; by simplify_map_eq. }
  rewrite H1', H2', !readText_field.
  rewrite (numberOf_written _ "scanned_nanos" (fileOther (sfFile f)).1), (numberOf_written _ size_key (fileOther (sfFile f)).2) by (rewrite lookup_documentOf by done; auto).
  by destruct f as [[? ? ? []] ?].
Qed.

#[export] Instance sampleLinks : FileLinks F := fun _ => RecordTypeMediaFile.

#[export] Instance sampleLinksLaw : FileLinksLaw D F.
Proof.
  constructor; intros f; unfold fieldsOf; cbn; unfold fileFields, textField, present, fileRecordType, sampleLinks;
    repeat destruct (String.eqb _ _); cbn; by simplify_map_eq.
Qed.

(** * The scan of LibrarySamples read back *)

Lemma indexed_decide (c : memory) :
  bool_decide (map_Forall (fun p (e : nat * document) => hasText "path" p e.2 = true) c) = true ->
  bool_decide (map_Forall (fun p (e : nat * document) => map_Forall (fun q (e' : nat * document) => e.1 = e'.1 -> p = q) c) c) = true ->
  indexed (c : @collection memoryCollection).
Proof.
  intros H1'%bool_decide_eq_true H2'%bool_decide_eq_true. constructor.
  - intros p id d (n & -> & Hp)%lookup_memoryDocs. specialize (H1' _ _ Hp). unfold hasText in H1'. cbn in H1'.
    destruct (d !! "path") as [[]|] eqn:Hd; try done. by apply String.eqb_eq in H1' as ->.
  - intros p q id d e (n & -> & Hp)%lookup_memoryDocs (n' & Hn & Hq)%lookup_memoryDocs. injection Hn as ->. exact (H2' _ _ Hp _ _ Hq eq_refl).
Qed.

Lemma after_indexed : indexed (after : @collection memoryCollection).
Proof. apply indexed_decide; vm_compute; reflexivity. Qed.

Lemma upserted_indexed : indexed upserted.
Proof. apply indexed_decide; vm_compute; reflexivity. Qed.

Definition listed : list (Directory D) :=
  match (ListDirectoriesMethod (D := Directory D) "/srv/media" "" 1 0 (after : @collection memoryCollection)).2 with Reply l => l | Refused _ => [] end.

Lemma directories_window_witness : exists all, NoDup (map (fun row => textAt "path" row.2) all) /\ decodeRows "directories" (take 1 all) = Ok listed.
Proof.
  destruct (directories_window (D := Directory D) "/srv/media" "" (after : @collection memoryCollection) after_indexed) as (all & _ & Hnd & _ & Hpages).
  exists all. split; [exact Hnd|].
  destruct (Hpages 1%Z 0%Z after listed) as (n & _ & Hn & Hdec & _); [apply injective_projections; [done|by vm_compute]|].
  rewrite Hn in Hdec by done. exact Hdec.
Defined.

Example listed_show : listed = [{| dirPath := "/srv/media/Show"; dirScanRootPath := "/srv/media"; dirOther := (RecordTypeTVSeries, now + 1)%Z |}].
Proof. by vm_compute. Qed.

(** The third id is the show's, after the two that were there. *)
Example show_read : GetDirectoryMethod (D := Directory D) "3" upserted =
  (upserted, Reply {| dirPath := "/srv/media/Show"; dirScanRootPath := "/srv/media"; dirOther := (RecordTypeTVSeries, now + 1)%Z |}).
Proof. apply injective_projections; [done|by vm_compute]. Qed.

Example episodes_read : exists records, (ListMediaFilesMethod (D := Directory D) (F := StoredFile F) "3" upserted).2 = Reply records /\
  map (fun f => filePath (sfFile f)) records = ["/srv/media/Show/one.mkv"; "/srv/media/Show/two.mkv"].
Proof. eexists. split; by vm_compute. Qed.

Definition showDirectory : Directory D := {| dirPath := "/srv/media/Show"; dirScanRootPath := ""; dirOther := (RecordTypeTVSeries, now + 1)%Z |}.

Lemma stored_then_read_witness : exists id : nat, id <> 0%nat /\
  forall c' answer, GetDirectoryMethod (D := Directory D) (show_Z (Z.of_nat id)) upserted = (c', answer) ->
    answer = Reply (inRoot "/srv/media" showDirectory) \/ serverFailed answer /\ lookupFails id upserted.
Proof.
  destruct (stored_then_read "/srv/media" serverShow showDirectory (earlier : @collection memoryCollection) upserted) as (id & Hid & Hget & _).
  - exact show_placed.
  - by vm_compute.
  - done.
  - vm_compute. repeat constructor; set_solver.
  - apply injective_projections; [reflexivity|by vm_compute].
  - exact upserted_indexed.
  - exists id. split; [exact Hid|exact Hget].
Defined.
