(* ===== verification/BusService.v ===== *)
(** The operator's purge: src/internal/server/services/stats.go over the purge
    of Streams. A line of the audit log is what the warning says; the clock is
    read for each stream as its turn comes. Get is the sampler's snapshot, and Stream is a viewer of
    BusStats. *)
From stdpp Require Import strings list gmap.
From Stdlib Require Import ZArith Lia.
From S2P Require Import Prelude GoText Topics Streams ConfigStore Services BusTopology BusStats.
#[local] Open Scope go_scope.

(** * The methods *)

(** [Get]. *)
Definition GetStats (s : Sampler) : reply failure Snapshot :=
  match smSnapshot s with
  | None => Refused (ConnectError CodeUnavailable "bus snapshot not sampled yet")
  | Some snapshot => Reply snapshot
  end.

Record auditLine : Type := { alActor : string; alStream : string; alDropped : Z }.

Definition purgeActor (role : option string) : string := default "unknown" role.

Section purge.
Context `{Redis}.

(** The keys as the purge leaves them, the answer, and the lines logged.
    [connected] is whether the server has a Redis client. *)
Definition Purge (fuel : nat) (clock : string -> Z) (role : option string) (connected : bool) (stream : string) (all : bool) (k : keyspace)
  : outcome (keyspace * reply failure (list StreamPurge) * list auditLine) :=
  if Bool.eqb all (negb (String.eqb stream ""))
  then Done (k, Refused (ConnectError CodeInvalidArgument "purge requires exactly one of stream or all"), [])
  else if negb connected
  then Done (k, Refused (ConnectError CodeUnavailable "event bus is not connected"), [])
  else
    let* (k, purges, err) :=
      (if all then PurgeAllStreams fuel clock k
       else let* (k, one, err) := PurgeStream fuel (clock stream) stream k in
            Done (k, match err with None => [one] | Some _ => [] end, err)) in
    let log := map (fun purge => {| alActor := purgeActor role; alStream := pgStream purge; alDropped := pgDropped purge |}) purges in
    Done (k, match err with Some err => Refused (ConnectError CodeInternal err) | None => Reply purges end, log).
End purge.

(** * What the audit log says *)

(** The code an answer is refused with. *)
Definition refusal_code {A} (r : reply failure A) : option code :=
  match r with Refused (ConnectError c _) => Some c | _ => None end.

Section audit.
Context `{RedisLaws}.

(** A stream lost its oldest [n] entries, all of them from before [limit]. *)
Definition lost (limit : Z) (old kept : list string) (n : Z) : Prop :=
  exists dropped, old = dropped ++ kept /\ n = Z.of_nat (length dropped) /\
    Forall (fun id => exists when, TimeFromStreamID id = Some when /\ (when < limit)%Z) dropped.

(** Nothing of a stream changed. *)
Definition untouched (k k' : keyspace) (stream : string) : Prop :=
  entries k' stream = entries k stream /\ forall group, pending k' stream group = pending k stream group.

Lemma PurgeStream_audit fuel now stream k :
  fits_int now = true -> (forall group, (length (pending k stream group) < fuel)%nat) ->
  exists k' result err, PurgeStream fuel now stream k = Done (k', result, err) /\ pgStream result = stream /\
    (err = None -> lost now (entries k stream) (entries k' stream) (pgDropped result) /\
       forall group, group ∈ pgGroupsFastForwarded result -> pending k' stream group = []) /\
    forall other, other <> stream -> untouched k k' other.
Proof.
  intros Hf Hfuel. unfold PurgeStream.
  pose proof (trim_elsewhere stream (StreamIDForTime now) k) as Helse.
  pose proof (trim_pending stream (StreamIDForTime now) k) as Hpend.
  destruct (XTrimMinIDApprox stream (StreamIDForTime now) k) as [k1 [dropped|err]] eqn:Hx; cbn [fst] in *.
  2: { eexists _, _, _. split; [done|]. split_and!; [done..|]. intros other Hne. split; [by apply Helse|auto]. }
  assert (lost now (entries k stream) (entries k1 stream) dropped) as Hlost.
  { destruct (trim_drops _ _ _ _ _ Hx) as (old & Ho & Hb & ->). exists old. split_and!; [done..|].
    eapply Forall_impl; [exact Hb|]. intros id. by apply idBefore_time. }
  destruct (XInfoGroups stream k1) as [groups|err] eqn:Hg.
  2: { eexists _, _, _. split; [done|]. split_and!; [done| |intros other Hne; split; [by apply Helse|auto]].
       intros _. split; [done|]. by intros group ?%elem_of_nil. }
  destruct (purgeGroups_spec fuel stream groups k1) as (k' & forwarded & err & -> & Hfw & _ & _ & Hrest & Hents);
    [by eapply groups_distinct|by intros group; rewrite Hpend|].
  cbn [obind]. eexists _, _, _. split; [done|]. split; [done|]. split; [intros _; split; [by rewrite Hents|done]|].
  intros other Hne. split; [rewrite Hents; by apply Helse|]. intros group. by rewrite Hrest, Hpend.
Qed.

(** A completed purge's result tells what its stream lost, and everything that
    is not in the results is untouched, the stream of the error apart. *)
Record audited (clock : string -> Z) (k k' : keyspace) (results : list StreamPurge) (err : option string) : Prop := {
  au_lost r : r ∈ results -> lost (clock (pgStream r)) (entries k (pgStream r)) (entries k' (pgStream r)) (pgDropped r);
  au_drained r group : r ∈ results -> group ∈ pgGroupsFastForwarded r -> pending k' (pgStream r) group = [];
  au_untouched : exists broken, (err = None -> broken = []) /\ (length broken <= 1)%nat /\
    forall stream, stream ∉ map pgStream results ++ broken -> untouched k k' stream;
}.

Lemma audited_nothing clock k : audited clock k k [] None.
Proof. constructor; [intros r Hr; by apply elem_of_nil in Hr|intros r g Hr; by apply elem_of_nil in Hr|]. exists []. split; [done|]. split; [cbn; lia|]. by intros s. Qed.

Lemma audited_broken clock k k' stream err : (forall other, other <> stream -> untouched k k' other) -> audited clock k k' [] (Some err).
Proof.
  intros Hother. constructor; [intros r Hr; by apply elem_of_nil in Hr|intros r g Hr; by apply elem_of_nil in Hr|].
  exists [stream]. split; [done|]. split; [done|]. intros s Hs. apply Hother. intros ->. destruct Hs. by left.
Qed.

Lemma purgeTopics_audit fuel clock topics k :
  (forall stream, fits_int (clock stream) = true) -> NoDup (map tpName topics) ->
  (forall stream group, stream ∈ map tpName topics -> (length (pending k stream group) < fuel)%nat) ->
  exists k' results err, purgeTopics fuel clock topics k = Done (k', results, err) /\ map pgStream results `prefix_of` map tpName topics /\
    (err = None -> map pgStream results = map tpName topics) /\
    (forall stream, stream ∉ map tpName topics -> untouched k k' stream) /\ audited clock k k' results err.
Proof.
  intros Hf. revert k. induction topics as [|topic rest IH]; intros k Hnd Hfuel; cbn [purgeTopics map] in *.
  { eexists _, _, _. split; [done|]. split_and!; [done..|apply audited_nothing]. }
  apply NoDup_cons in Hnd as [Hnew Hnd].
  destruct (PurgeStream_audit fuel (clock (tpName topic)) (tpName topic) k (Hf _)) as (k1 & result & err & -> & Hname & Hok & Hother); [intros g; apply Hfuel; by left|].
  cbn [obind]. destruct err as [err|].
  { eexists _, _, _. split; [done|]. split_and!; [apply prefix_nil|done|intros s Hs; apply Hother; by intros ->; destruct Hs; left|].
    by eapply audited_broken. }
  destruct (Hok eq_refl) as [Hlost Hdrained]. clear Hok.
  destruct (IH k1) as (k' & results & err & -> & Hpre & Hall & Hrest & [Hl Hd (broken & Hb & Hone & Hun)]); [done| |].
  { intros s g Hs. destruct (Hother s) as [_ ->]; [by intros ->|]. apply Hfuel. by right. }
  destruct (Hrest _ Hnew) as [He Hp]. assert (forall r, r ∈ results -> pgStream r <> tpName topic) as Hdiffer.
  { intros r Hr E. apply Hnew. eapply elem_of_prefix; [|exact Hpre]. rewrite <- E. by apply (list_elem_of_fmap_2 pgStream). }
  cbn [obind]. eexists _, _, _. split; [done|]. cbn [map]. rewrite Hname. split_and!.
  - by apply prefix_cons.
  - intros Herr. by rewrite (Hall Herr).
  - intros s [Hne Hs]%not_elem_of_cons. destruct (Hrest s Hs) as [Hes Hps], (Hother s Hne) as [Heo Hpo]. split; [by rewrite Hes, Heo|]. intros g. by rewrite Hps, Hpo.
  - constructor.
    + intros r [->|Hr]%elem_of_cons; [by rewrite Hname, He|]. destruct (Hother (pgStream r)) as [<- _]; [auto|]. by apply Hl.
    + intros r g [->|Hr]%elem_of_cons Hg; [by rewrite Hname, Hp; apply Hdrained|by eapply Hd].
    + exists broken. split_and!; [done..|]. cbn [map]. rewrite Hname. intros s. cbn [app]. intros [Hne Hs]%not_elem_of_cons.
      destruct (Hun s Hs) as [Hes Hps], (Hother s Hne) as [Heo Hpo]. split; [by rewrite Hes, Heo|]. intros g. by rewrite Hps, Hpo.
Qed.

Lemma discovered_distinct scan : NoDup (map tpName (DiscoverStreamTopics scan).1).
Proof.
  destruct (discovery scan) as (names & -> & Hnd & Hin). cbn [fst]. rewrite map_app, map_map, (map_ext _ (fun name => name)) by done. rewrite map_id.
  repeat (apply NoDup_cons; split); [|..|done]; set_solver.
Qed.

(** C22: a purge answers, and its audit log accounts for what it did. A request
    that is malformed or comes while the bus is not connected changes nothing
    and logs nothing. Otherwise each line names the caller, a stream and
    exactly how many entries it lost, all of them from before the purge of it; the
    lines are the results if it succeeds; and a stream in no line kept all its
    entries and all that was pending - except, when the purge fails, at most
    one: the stream it failed on may have been emptied without a line. *)
Theorem purge_audited fuel clock role connected stream all k :
  (forall s, fits_int (clock s) = true) -> (forall s group, (length (pending k s group) < fuel)%nat) ->
  exists k' answer log, Purge fuel clock role connected stream all k = Done (k', answer, log) /\
    ((all = negb (String.eqb stream "") \/ connected = false) -> k' = k /\ log = [] /\ refusal_code answer <> None) /\
    (forall line, line ∈ log -> alActor line = purgeActor role /\ lost (clock (alStream line)) (entries k (alStream line)) (entries k' (alStream line)) (alDropped line)) /\
    (forall results, answer = Reply results ->
       log = map (fun r => {| alActor := purgeActor role; alStream := pgStream r; alDropped := pgDropped r |}) results /\
       (all = false -> map pgStream results = [stream]) /\
       forall r group, r ∈ results -> group ∈ pgGroupsFastForwarded r -> pending k' (pgStream r) group = []) /\
    exists broken, (refusal_code answer <> Some CodeInternal -> broken = []) /\ (length broken <= 1)%nat /\
      forall s, s ∉ map alStream log ++ broken -> untouched k k' s.
Proof.
  intros Hf Hfuel. unfold Purge. destruct (Bool.eqb all (negb (String.eqb stream ""))) eqn:Hmode.
  { eexists _, _, _. split; [done|]. split_and!; [done|intros line Hline; by apply elem_of_nil in Hline|done|]. exists []. split; [done|]. split; [cbn; lia|]. by intros s. }
  destruct connected; cbn [negb].
  2: { eexists _, _, _. split; [done|]. split_and!; [done|intros line Hline; by apply elem_of_nil in Hline|done|]. exists []. split; [done|]. split; [cbn; lia|]. by intros s. }
  assert (exists k' purges err,
    (if all then PurgeAllStreams fuel clock k
     else let* (k, one, err) := PurgeStream fuel (clock stream) stream k in Done (k, match err with None => [one] | Some _ => [] end, err)) = Done (k', purges, err) /\
    (all = false -> err = None -> map pgStream purges = [stream]) /\ audited clock k k' purges err) as (k' & purges & err & -> & Hone & [Hl Hd (broken & Hb & Hlen & Hun)]).
  { destruct all.
    - destruct (purgeTopics_audit fuel clock (DiscoverStreamTopics (Scan k)).1 k Hf) as (k' & purges & err & Hp & _ & _ & _ & Ha); [apply discovered_distinct|auto|].
      by exists k', purges, err.
    - destruct (PurgeStream_audit fuel (clock stream) stream k (Hf _)) as (k' & one & err & -> & Hname & Hok & Hother); [auto|]. cbn [obind]. eexists _, _, _. split; [done|].
      destruct err as [err|]; [split; [done|by eapply audited_broken]|]. split; [intros _ _; cbn; by rewrite Hname|].
      destruct (Hok eq_refl) as [Hlost Hdrained]. constructor.
      + intros r ->%list_elem_of_singleton. by rewrite Hname.
      + intros r g ->%list_elem_of_singleton. rewrite Hname. apply Hdrained.
      + exists []. split; [done|]. split; [cbn; lia|]. cbn. rewrite Hname. intros s Hs. apply Hother. intros ->. apply Hs. by left. }
  cbn [obind]. set (log := map _ purges). assert (map alStream log = map pgStream purges) as Hstreams by (unfold log; by rewrite map_map).
  eexists _, _, _. split; [done|]. split_and!.
  - intros [Hm|Hm]; [|done]. rewrite Hm, eqb_reflx in Hmode. done.
  - intros line Hline. unfold log in Hline. apply list_elem_of_fmap in Hline as (r & -> & Hr). split; [done|]. by apply Hl.
  - destruct err as [err|]; [done|]. intros results [= <-]. split; [done|]. split; [intros Hall; by apply Hone|]. exact Hd.
  - exists broken. rewrite Hstreams. split; [|done]. destruct err as [err|]; [done|]. intros _. by apply Hb.
Qed.
End audit.

(** * A purge at work *)

#[local] Existing Instance exactRedis.
#[local] Existing Instance exactRedis_laws.

Lemma jammed_pending s group : (length (pending jammedKeys s group) < 3)%nat.
Proof.
  change (length (pendingOf jammed s group) < 3)%nat. unfold pendingOf, jammed. cbn [dbPending].
  destruct (decide ((s, group) = (AgentScanResultStream, AgentScanResultGroup))) as [->|Hne];
    [rewrite lookup_singleton_eq|rewrite lookup_singleton_ne by congruence]; simpl; lia.
Qed.

Lemma purge_audited_witness : exists k' answer log,
  Purge 3 (fun _ => aDayLater) (Some "admin") true "" true jammedKeys = Done (k', answer, log) /\
  forall line, line ∈ log -> lost aDayLater (entries jammedKeys (alStream line)) (entries k' (alStream line)) (alDropped line).
Proof.
  destruct (purge_audited 3 (fun _ => aDayLater) (Some "admin") true "" true jammedKeys) as (k' & answer & log & Hp & _ & Hlog & _).
  - reflexivity.
  - exact jammed_pending.
  - exists k', answer, log. split; [exact Hp|]. intros line Hline. by apply Hlog.
Defined.

Example jammed_purged : exists k', Purge 3 (fun _ => aDayLater) (Some "admin") true AgentScanResultStream false jammedKeys =
  Done (k', Reply [{| pgStream := AgentScanResultStream; pgDropped := 2; pgGroupsFastForwarded := [AgentScanResultGroup] |}],
    [{| alActor := "admin"; alStream := AgentScanResultStream; alDropped := 2 |}]).
Proof. eexists. by vm_compute. Qed.

(** A Redis that trims and then fails. *)
Definition brokenRedis : Redis := {|
  keyspace := Streams.database;
  Scan := @Scan exactRedis;
  XTrimMinIDApprox := @XTrimMinIDApprox exactRedis;
  XInfoGroups := @XInfoGroups exactRedis;
  XGroupSetID := fun _ _ _ d => (d, Some "LOADING");
  XPendingExt := @XPendingExt exactRedis;
  XAck := @XAck exactRedis;
|}.

(** A stream that was emptied and is in no line. *)
Example purged_unlogged :
  match Purge (H := brokenRedis) 3 (fun _ => aDayLater) (Some "admin") true AgentScanResultStream false jammed with
  | Done (k', answer, log) => (entriesOf k' AgentScanResultStream, refusal_code answer, log) = ([], Some CodeInternal, [])
  | _ => False
  end.
Proof. by vm_compute. Qed.
