(* ===== verification/HttpCache.v ===== *)
(** The caching HTTP client: src/internal/server/httpclient/cached_http.go.

    What the network answers, whether Redis can be reached and what the clock
    reads are an exchange's argument. Responses and their wire form are
    net/http's and httputil's, the class [HTTP]. *)
From stdpp Require Import strings list gmap.
From Stdlib Require Import Ascii ZArith Lia.
From S2P Require Import Prelude GoText.
#[local] Open Scope go_scope.

Record httpRequest : Type := { hqMethod : string; hqURL : string; hqHeader : list (string * string) }.

Class HTTP : Type := {
  response : Type;
  StatusCode : response -> Z;
  DumpResponse : response -> result string;
  ReadResponse : string -> httpRequest -> result response;
}.

(** What a dump keeps of a response. *)
Class HTTPLaws `{HTTP} : Type := {
  same_response : response -> response -> Prop;
  read_dump r s q : DumpResponse r = Ok s -> hqMethod q = "" \/ hqMethod q = "GET" -> exists r', ReadResponse s q = Ok r' /\ same_response r r';
}.

(** Thirty minutes, in nanoseconds. *)
Definition DefaultTTL : Z := 1800000000000.

Definition cacheKeyPrefix : string := "httpcache:".

(** Values and when they expire. *)
Notation httpCache := (gmap string (string * Z)).

(** One call of the client: its time, the request, and what the network would
    answer; whether the read and the write of the cache reach Redis. *)
Record httpExchange `{HTTP} : Type := { exNow : Z; exRequest : httpRequest; exAnswer : result response; exReads : bool; exWrites : bool }.

Section client.
Context `{HTTP}.

Definition readCached (e : httpExchange) (key : string) (cache : httpCache) : result response :=
  if negb (exReads e) then Err "dial tcp: connection refused"
  else
    match cache !! key with
    | Some (raw, expires) => if (exNow e <? expires)%Z then ReadResponse raw (exRequest e) else Err "redis: nil"
    | None => Err "redis: nil"
    end.

Definition cacheResponse (e : httpExchange) (key : string) (resp : response) (cache : httpCache) : httpCache :=
  if (StatusCode resp <? 200)%Z || (300 <=? StatusCode resp)%Z then cache
  else
    match DumpResponse resp with
    | Err _ => cache
    | Ok dump => if exWrites e then <[key := (dump, exNow e + DefaultTTL)%Z]> cache else cache
    end.

(** [Do]; [true] when the request went to the network. *)
Definition Do (cache : httpCache) (e : httpExchange) : httpCache * result response * bool :=
  if negb (String.eqb (hqMethod (exRequest e)) "") && negb (String.eqb (hqMethod (exRequest e)) "GET") then (cache, exAnswer e, true)
  else
    let key := cacheKeyPrefix +:+ hqURL (exRequest e) in
    match readCached e key cache with
    | Ok resp => (cache, Ok resp, false)
    | Err _ =>
        match exAnswer e with
        | Err err => (cache, Err err, true)
        | Ok resp => (cacheResponse e key resp cache, Ok resp, true)
        end
    end.

(** The exchanges of a client so far, with what it answered. *)
Fixpoint answers (cache : httpCache) (es : list httpExchange) : list (httpExchange * result response * bool) :=
  match es with
  | [] => []
  | e :: es => let '(cache, answer, sent) := Do cache e in (e, answer, sent) :: answers cache es
  end.

(** A response the client got from the network for a GET of this URL. *)
Definition fetched (es : list (httpExchange * result response * bool)) (url : string) (now : Z) (resp : response) : Prop :=
  exists e, (e, Ok resp, true) ∈ es /\ exAnswer e = Ok resp /\ hqURL (exRequest e) = url /\
    (hqMethod (exRequest e) = "" \/ hqMethod (exRequest e) = "GET") /\ (200 <= StatusCode resp < 300)%Z /\ (now < exNow e + DefaultTTL)%Z.

(** Every cached value was fetched. *)
Definition cache_ok (es : list (httpExchange * result response * bool)) (cache : httpCache) : Prop :=
  forall url raw expires, cache !! (cacheKeyPrefix +:+ url) = Some (raw, expires) ->
    exists resp, DumpResponse resp = Ok raw /\ forall now, (now < expires)%Z -> fetched es url now resp.

Lemma fetched_mono es es' url now resp : fetched es url now resp -> fetched (es ++ es') url now resp.
Proof. intros (e & Hin & ?). exists e. rewrite elem_of_app. auto. Qed.

Lemma isGet e : negb (String.eqb (hqMethod (exRequest e)) "") && negb (String.eqb (hqMethod (exRequest e)) "GET") = false ->
  hqMethod (exRequest e) = "" \/ hqMethod (exRequest e) = "GET".
Proof. destruct (String.eqb_spec (hqMethod (exRequest e)) ""); [by left|]. destruct (String.eqb_spec (hqMethod (exRequest e)) "GET"); [by right|done]. Qed.

Lemma key_inj url url' : cacheKeyPrefix +:+ url = cacheKeyPrefix +:+ url' -> url = url'.
Proof. by intros [=]. Qed.

Lemma Do_ok es cache e : cache_ok es cache -> let '(cache', answer, sent) := Do cache e in cache_ok (es ++ [(e, answer, sent)]) cache'.
Proof.
  intros Hok. assert (forall x, cache_ok (es ++ [x]) cache) as Hmono.
  { intros x url raw expires Hl. destruct (Hok _ _ _ Hl) as (resp & Hd & Hf). exists resp. split; [done|]. intros now Hn. by apply fetched_mono, Hf. }
  unfold Do. destruct (negb _ && negb _) eqn:Hm; [apply Hmono|]. apply isGet in Hm. destruct (readCached _ _ _); [apply Hmono|].
  destruct (exAnswer e) as [resp|err] eqn:Ha; [|apply Hmono]. unfold cacheResponse. destruct (_ || _) eqn:Hs; [apply Hmono|].
  apply orb_false_iff in Hs as [Hlo%Z.ltb_ge Hhi%Z.leb_gt]. destruct (DumpResponse resp) as [dump|] eqn:Hdump; [|apply Hmono]. destruct (exWrites e); [|apply Hmono].
  intros url raw expires Hl. destruct (decide (url = hqURL (exRequest e))) as [->|Hne].
  - rewrite lookup_insert_eq in Hl. injection Hl as <- <-. exists resp. split; [done|]. intros now Hn. exists e. rewrite elem_of_app, list_elem_of_singleton. split_and!; auto.
  - rewrite lookup_insert_ne in Hl by (intros E%key_inj; done). by eapply Hmono.
Qed.
End client.

Section freshness.
Context `{HTTPLaws}.

(** The cache is honest. Over any sequence of requests, whichever calls of
    Redis fail, a request is answered in one of two ways. It went to the
    network, and the answer or the error is the network's. Or it is a GET
    answered without the network, and the response is one an earlier GET of the
    same URL got from the network, with a 2xx status and less than thirty
    minutes before. *)
Theorem cache_honest es i e answer sent : answers ∅ es !! i = Some (e, answer, sent) ->
  es !! i = Some e /\
  (sent = true -> answer = exAnswer e) /\
  (sent = false -> (hqMethod (exRequest e) = "" \/ hqMethod (exRequest e) = "GET") /\
     exists original resp, answer = Ok resp /\ same_response original resp /\ fetched (take i (answers ∅ es)) (hqURL (exRequest e)) (exNow e) original).
Proof.
  assert (forall done_ cache, cache_ok done_ cache -> answers cache es !! i = Some (e, answer, sent) ->
    es !! i = Some e /\ (sent = true -> answer = exAnswer e) /\
    (sent = false -> (hqMethod (exRequest e) = "" \/ hqMethod (exRequest e) = "GET") /\
       exists original resp, answer = Ok resp /\ same_response original resp /\ fetched (done_ ++ take i (answers cache es)) (hqURL (exRequest e)) (exNow e) original)) as Hall.
  2: { apply (Hall [] ∅). intros url raw expires Hl. by rewrite lookup_empty in Hl. }
  revert i. induction es as [|e' es IH]; intros i done_ cache Hok; [done|]. cbn [answers]. pose proof (Do_ok done_ cache e' Hok) as Hok'.
  destruct (Do cache e') as [[cache' answer'] sent'] eqn:Hdo. destruct i as [|i].
  2: { intros Hi. destruct (IH i _ _ Hok' Hi) as (? & ? & Hcached). split_and!; [done..|]. intros Hs. cbn [take firstn]. change ((e', answer', sent') :: take i ?l) with ([(e', answer', sent')] ++ take i l).
       rewrite app_assoc. by apply Hcached. }
  cbn [take firstn lookup list_lookup]. rewrite app_nil_r. intros [= <- <- <-]. split; [done|]. clear IH Hok'. unfold Do in Hdo.
  destruct (negb _ && negb _) eqn:Hm; [by injection Hdo as <- <- <-|]. apply isGet in Hm.
  destruct (readCached _ _ cache) as [resp|err] eqn:Hr.
  - injection Hdo as <- <- <-. split; [done|]. intros _. split; [done|]. unfold readCached in Hr. destruct (negb _); [done|].
    destruct (cache !! _) as [[raw expires]|] eqn:Hl; [|done]. destruct (Z.ltb_spec (exNow e') expires) as [Hlt|]; [|done].
    destruct (Hok _ _ _ Hl) as (original & Hd & Hf). destruct (read_dump _ _ _ Hd Hm) as (r' & Hread & Hsame). rewrite Hread in Hr. injection Hr as ->.
    exists original, resp. split_and!; [done..|]. by apply Hf.
  - by destruct (exAnswer e'); injection Hdo as <- <- <-.
Qed.
End freshness.

(** * At work *)

(** Responses that are a status and a body without line breaks. *)
#[local] Instance plainHTTP : HTTP := {|
  response := Z * string;
  StatusCode := fst;
  DumpResponse := fun r => Ok (String (if (r.1 =? 200)%Z then "."%char else "!"%char) r.2);
  ReadResponse := fun s _ => match s with String _ body => Ok (200%Z, body) | EmptyString => Err "unexpected EOF" end;
|}.

(** A dump here forgets which 2xx it was. *)
#[local] Instance plainHTTPLaws : HTTPLaws.
Proof.
  refine (@Build_HTTPLaws plainHTTP (fun r r' : Z * string => r.2 = r'.2) _).
  intros [status body] s q. cbn. intros [= <-] _. by eexists.
Defined.

Definition ask (method : string) (key : string) : httpRequest := {| hqMethod := method; hqURL := "http://sonarr/api/v3/series"; hqHeader := [("X-Api-Key", key)] |}.

Definition at_ (now : Z) (q : httpRequest) (answer : result (Z * string)) : httpExchange :=
  {| exNow := now; exRequest := q; exAnswer := answer; exReads := true; exWrites := true |}.

(** A fetch, a cached answer, the cache run out, and what is never cached. *)
Definition morning : list httpExchange :=
  [at_ 0 (ask "GET" "a") (Ok (200, "one")); at_ 60 (ask "GET" "a") (Err "refused"); at_ 70 (ask "POST" "a") (Ok (201, "made"));
   at_ 1800000000000 (ask "GET" "a") (Ok (500, "down")); at_ 1800000000001 (ask "GET" "a") (Ok (200, "two"))]%Z.

Example morning_answers : map (fun x => (x.1.2, x.2)) (answers ∅ morning) =
  [(Ok (200, "one"), true); (Ok (200, "one"), false); (Ok (201, "made"), true); (Ok (500, "down"), true); (Ok (200, "two"), true)]%Z.
Proof. by vm_compute. Qed.

(** The key a request is authenticated with is no part of the cache's: what one
    key was answered, another is, even one the server would refuse. *)
Example key_ignored : map (fun x => (x.1.2, x.2)) (answers ∅ [at_ 0 (ask "GET" "a") (Ok (200, "one")); at_ 60 (ask "GET" "revoked") (Ok (401, "no"))])%Z =
  [(Ok (200, "one"), true); (Ok (200, "one"), false)]%Z.
Proof. by vm_compute. Qed.

Lemma cache_honest_witness : exists original resp : Z * string, Ok (200%Z, "one") = Ok resp /\ original.2 = resp.2 /\
  fetched (take 1 (answers ∅ morning)) "http://sonarr/api/v3/series" 60 original.
Proof.
  destruct (cache_honest morning 1 (at_ 60 (ask "GET" "a") (Err "refused")) (Ok (200, "one"))%Z false) as (_ & _ & Hcached); [by vm_compute|].
  destruct (Hcached eq_refl) as [_ H]. exact H.
Defined.
